(* ===== verification/_CoqProject ===== *)
-Q . S2P
Prelude.v
Fp.v
TokenBucket.v
QosQueue.v
CityHash.v
Ndn.v
Hashtable.v
NameTree.v
Fib.v
Pit.v
NameTreeEnum.v
Measurements.v
StrategyRegistry.v
StrategyChoice.v
StrategyItems.v
Cleanup.v
DeadNonceList.v
CsTable.v
Cs.v
FwAlgorithm.v
RttEstimator.v
AsfMeasurements.v
Strategy.v
Asf.v
AsfRuns.v
AsfExamples.v
Access.v
Ncc.v
FwTables.v
Forwarder.v
QosStrategy.v
QosMitigation.v
Rib.v
Readvertise.v
ReadvertiseSystem.v
FibUpdater.v
FibConsistency.v
RibManager.v
RibManagerRuns.v
SelfLearning.v
LpFragmentation.v
Face.v
StreamTransport.v
StreamRuns.v
Datagram.v
LinkService.v
LpReliability.v
LinkSafety.v
LinkDelivery.v
