(* ===== verification/Prelude.v ===== *)
(** * NFD-QoS: a verification development

    NFD is the forwarder of Named Data Networking. It receives Interests and Data
    on faces, keeps pending Interests, cached Data and routes in tables, and lets
    a strategy choose the next hops. This repository extends it with strategies
    that queue packets by priority and send them within token buckets. The
    development translates the program's C++ into executable Rocq functions and
    proves what makes them correct.

    ** The program and its model

    Support.
    - [Prelude] (this file): machine integers, tactics, searches in sequences.
    - [Fp]: float and double arithmetic, exact with correct rounding.
    - [Ndn]: names, components and packets of ndn-cxx, as classes with the
      documented laws the code relies on.
    - [RttEstimator]: core/rtt-estimator.*.

    QoS (daemon/fw).
    - [TokenBucket]: ndn-token-bucket.*; tokens per face, refill and consumption.
    - [QosQueue]: ndn-qos-queue.*, ndn-priority-tx-queue.*; bounded queues and
      weighted fair selection.
    - [QosStrategy]: qos-strategy.*; classification, loss statistics, queueing
      and the send round. It calls the two files above and the actions of
      [Strategy].
    - [QosMitigation]: qos-mitigation-strategy.*, which extends it with the
      outcomes of flows and a level for suspicious ones.

    Tables (daemon/table, core, daemon/mgmt).
    - [CityHash]: core/city-hash.*, the 64-bit hash.
    - [Hashtable]: name-tree-hashtable.*; promises [NodeTable] to the name tree.
    - [NameTree], [NameTreeEnum]: name-tree.*, name-tree-entry.*,
      name-tree-iterator.cpp.
    - [Fib]: fib.*, fib-entry.*, fib-nexthop.*, commands of fib-manager.cpp.
    - [Pit]: pit.*, pit-entry.*, pit-in-record.*, pit-out-record.*.
    - [Cleanup]: cleanup.cpp, the pass over both tables when a face goes down.
    - [DeadNonceList]: dead-nonce-list.*.
    - [CsTable], [Cs]: cs.*, cs-entry*.*, cs-policy*.*; the content store is
      proved against the class [CsPolicy], with LRU and priority FIFO as instances.
    - [Measurements]: measurements.*, measurements-entry.*.
    - [StrategyRegistry]: the names and versions of fw/strategy.cpp.
    - [StrategyChoice]: strategy-choice.*, strategy-choice-entry.*,
      measurements-accessor.*, strategy-choice-manager.cpp.

    Forwarding (daemon/fw).
    - [FwAlgorithm]: algorithm.*, retx-suppression-*.*.
    - [Strategy]: strategy.*, process-nack-traits.*, best-route-strategy2.cpp,
      multicast-strategy.cpp, and the outgoing pipelines of forwarder.cpp.
    - [FwTables]: the classes [Tables] and [ContentStore] that the pipelines are
      written against, with the name tree, PIT, FIB and CS as instances.
    - [Forwarder]: forwarder.cpp with unsolicited-data-policy.* and
      network-region-table.cpp, over these interfaces and any [FwStrategy].
    - [StrategyItems]: the items that strategies keep in table entries.
    - [AsfMeasurements], [Asf], [AsfRuns], [AsfExamples]: asf-measurements.*,
      asf-strategy.*, asf-probing-module.*, and runs with their timers.
    - [Access]: access-strategy.*, best-route-strategy.cpp.
    - [Ncc]: ncc-strategy.*.
    - [SelfLearning]: self-learning-strategy.*, and its composition with the RIB
      manager (it follows [RibManagerRuns]).

    Routes (rib).
    - [Rib]: route.hpp, rib-entry.*, the table and tree of rib.*.
    - [FibUpdater]: fib-update.*, rib-update.hpp, fib-updater.*, the update queue
      of rib.cpp.
    - [FibConsistency]: what next hops a RIB means, and that the FIB follows.
    - [Readvertise], [ReadvertiseSystem]: readvertise/*, and its composition with
      the RIB.
    - [RibManager], [RibManagerRuns]: rib-manager.*, with the RIB, the update
      queue, scheduled expirations and the faces that are watched.

    Links (daemon/face).
    - [Face]: transport.*, face.*, fw/face-table.*.
    - [StreamTransport], [StreamRuns]: stream-transport.hpp, tcp-transport.*,
      unix-stream-transport.cpp, with the handlers that wait to be run.
    - [Datagram]: datagram-transport.hpp, unicast-udp-transport.cpp,
      udp-protocol.cpp, ethernet-transport.cpp, ethernet-protocol.cpp,
      unicast-ethernet-transport.cpp.
    - [LpFragmentation]: lp-fragmenter.*, lp-reassembler.*, the sequence numbers
      of generic-link-service.cpp.
    - [LinkService], [LpReliability], [LinkSafety], [LinkDelivery]:
      generic-link-service.*, link-service.*, lp-reliability.*, and the update of
      the options in face-manager.cpp.

    ** Conventions

    A component's state is a record and each operation a function on it. [None]
    is what the C++ leaves undefined or aborts on: a failed assertion, a null
    pointer, an index out of range, an uncaught exception; that an operation
    gives [Some] is then a theorem. A pointer to a table entry is the key of the
    entry, unless it can outlive the table, as in [QosStrategy], where entries
    live in a store by address. The clock is an argument, timers are times or
    events, signals and packets sent are recorded in order. The order in which
    unordered containers are iterated, and the choices of std::sort and
    std::nth_element among equal elements, are parameters. Assertions of the name
    tree, the PIT and the policies of the content store on their own structure
    (hashes and parents of nodes, an entry in the queue it is taken from) are not
    tests in the model: the invariants that are proved to be kept state them.

    ** What the theorems show

    - Refinement: the hashtable, the FIB, the RIB and the strategy choice answer
      any sequence of operations as finite maps do ([hashtable_refines_map],
      [fib_refines], [rib_refines], [strategy_choice_refines]); the FIB updates
      make the FIB the one that the routes mean ([registrations_follow]), and
      readvertisement follows the routes ([readvertise_follows]).
    - Invariants and safety of whole runs: [qos_run_safe], [mitigation_run_safe],
      [forwarder_never_fails], [localhost_confined], [cs_run_correct],
      [token_rate_limit], [link_run_safe], [stream_run_safe], [face_table_safe],
      [strategy_info_follows], [readvertise_safe], [routes_attended]; in
      [asf_state_typed] each value of the state is of its kind.
    - Behaviour of operations on every branch: the name tree, the PIT, the queues,
      the strategies ([bestRoute_correct], [asf_forwards], [access_learns],
      [self_learning_learns]), the Data pipelines, commands of the RIB manager ([register_installs]).
    - Equivalence with reference definitions: refills in any order, the three
      longest prefix matches, the enumeration of the name tree.
    - Round trips: fragments reassemble to the packet in any order of arrival
      ([fragment_roundtrip]), packets pass between two link services
      ([net_delivered]), through a stream however it is cut ([stream_delivers])
      and through Ethernet frames ([ethernet_roundtrip]).
    - Bounds: round trip estimates ([rto_bounded]), when an idle transport closes
      ([idle_transport_closes]).
    - Completion and termination: [update_completes] for every kind of update, with
      the one in which the code dereferences a null pointer, [interest_queued_once],
      [ncc_explores].
    - Errors of the code, each shown on the model, among them
      [unclassified_interest_undefined], [removal_timeout_adds],
      [reannounced_while_withdrawn], [destroyed_face_kept], [asf_hint_fails],
      [digest_info_kept], [reconnect_send_fails], [oversize_datagram_fails],
      [discovery_nack_fails], [unannounced_data_lost].

    Each property with hypotheses has a witness that applies it to concrete data,
    in the module of examples at the end of its file.

    ** Fuel

    Loops that are not structural take fuel. Walks up a tree of names have the
    length of the name, walks down one more than the greatest length; the
    enumeration of the name tree twice the number of entries and one, the visit
    of a change of strategy the number of entries; a send round has 27 turns, 25
    sends at most and a wait; the loop over next hops their number and two; the
    queue of updates its length and two; fragmentation the number of bytes and
    one; the receive loop of a stream the length of the buffer and one; the
    search for lost packets the size of the map, the filling of idle packets the
    length of the queue; evictions the size of the table; the inheritance of NCC
    the length of the name and one, its exploration the number of next hops and two. The theorems show that
    the fuel is enough, since its end is [None].

    ** Not modelled

    Channels, protocol factories and the face system, the websocket and multicast
    transports and libpcap (I/O of the operating system and of libraries); the
    earlier version of the QoS strategy, which nothing includes; command dispatch
    and datasets of the managers, and all of the face manager but its update of
    the options of a link service; the RIB service, configuration, logging and
    start-up; the command-line tools.
    CityHash32 and CityHash128 are not called on a 64-bit host. The forwarder is
    the one with its own content store, not the one that the simulator replaces;
    the identities in the key chain of readvertisement do not change in a run. *)

From stdpp Require Export base list gmap sorting.
From Stdlib Require Export ZArith Lia.

(** ** Scope and machine integers *)

Declare Scope nfd_scope.
Delimit Scope nfd_scope with nfd.
Local Open Scope Z_scope.

(** Unsigned wrap-around at the widths the daemon uses. *)
Definition u8 (x : Z) : Z := x mod 2 ^ 8.
Definition u32 (x : Z) : Z := x mod 2 ^ 32.
Definition u64 (x : Z) : Z := x mod 2 ^ 64.

(** Two's complement of an [int64_t]. *)
Definition i64 (x : Z) : Z := (x + 2 ^ 63) mod 2 ^ 64 - 2 ^ 63.

Notation "x +64 y" := (u64 (x + y)) (at level 50, left associativity) : nfd_scope.
Notation "x -64 y" := (u64 (x - y)) (at level 50, left associativity) : nfd_scope.
Notation "x *64 y" := (u64 (x * y)) (at level 40, left associativity) : nfd_scope.
Notation "x +32 y" := (u32 (x + y)) (at level 50, left associativity) : nfd_scope.

Create HintDb nfd discriminated.

Lemma u64_range x : 0 <= u64 x < 2 ^ 64.
Proof. unfold u64. apply Z.mod_pos_bound. lia. Qed.

Lemma u64_id x : 0 <= x < 2 ^ 64 -> u64 x = x.
Proof. intros. unfold u64. by apply Z.mod_small. Qed.

Lemma u32_range x : 0 <= u32 x < 2 ^ 32.
Proof. unfold u32. apply Z.mod_pos_bound. lia. Qed.

Lemma u32_id x : 0 <= x < 2 ^ 32 -> u32 x = x.
Proof. intros. unfold u32. by apply Z.mod_small. Qed.

Lemma u64_of_range x : 0 <= u64 x.
Proof. apply u64_range. Qed.

Lemma i64_range x : - 2 ^ 63 <= i64 x < 2 ^ 63.
Proof. unfold i64. pose proof (Z.mod_pos_bound (x + 2 ^ 63) (2 ^ 64) ltac:(lia)). lia. Qed.

Lemma i64_id x : - 2 ^ 63 <= x < 2 ^ 63 -> i64 x = x.
Proof. intros Hx. unfold i64. rewrite Z.mod_small by lia. lia. Qed.

(** Sums of values that may have wrapped. *)
Lemma i64_add_r x y : i64 (x + i64 y) = i64 (x + y).
Proof.
  unfold i64. replace (x + ((y + 2 ^ 63) mod 2 ^ 64 - 2 ^ 63) + 2 ^ 63) with (x + (y + 2 ^ 63) mod 2 ^ 64) by lia.
  rewrite Zplus_mod_idemp_r. do 2 f_equal. lia.
Qed.

#[export] Hint Resolve u64_range u64_id u32_range u32_id u64_of_range : nfd.

(** Bitwise or and xor of two [n]-bit values stay [n]-bit. *)
Lemma testbit_high n x i : 0 <= n -> 0 <= x < 2 ^ n -> n <= i -> Z.testbit x i = false.
Proof.
  intros Hn Hx Hi. destruct (decide (x = 0)) as [->|]; [apply Z.bits_0|].
  apply Z.bits_above_log2; [lia|].
  assert (Z.log2 x < n) by (apply Z.log2_lt_pow2; lia). lia.
Qed.

Lemma bits_bound n x :
  0 <= n -> 0 <= x -> (forall i, n <= i -> Z.testbit x i = false) -> x < 2 ^ n.
Proof.
  intros Hn Hx H. destruct (decide (x = 0)) as [->|]; [lia|].
  apply Z.log2_lt_pow2; [lia|].
  destruct (Z.lt_ge_cases (Z.log2 x) n) as [|Hge]; [done|].
  specialize (H (Z.log2 x) Hge). rewrite Z.bit_log2 in H by lia. done.
Qed.

Lemma lxor_range n x y :
  0 <= n -> 0 <= x < 2 ^ n -> 0 <= y < 2 ^ n -> 0 <= Z.lxor x y < 2 ^ n.
Proof.
  intros Hn Hx Hy. assert (0 <= Z.lxor x y) by (apply Z.lxor_nonneg; lia).
  split; [done|]. apply bits_bound; [done..|]. intros i Hi.
  rewrite Z.lxor_spec, !(testbit_high n) by lia. done.
Qed.

Lemma lor_range n x y :
  0 <= n -> 0 <= x < 2 ^ n -> 0 <= y < 2 ^ n -> 0 <= Z.lor x y < 2 ^ n.
Proof.
  intros Hn Hx Hy. assert (0 <= Z.lor x y) by (apply Z.lor_nonneg; lia).
  split; [done|]. apply bits_bound; [done..|]. intros i Hi.
  rewrite Z.lor_spec, !(testbit_high n) by lia. done.
Qed.

Lemma shiftr_range n x k :
  0 <= k -> 0 <= x < 2 ^ n -> 0 <= Z.shiftr x k < 2 ^ n.
Proof.
  intros Hk Hx. rewrite Z.shiftr_div_pow2 by lia.
  assert (0 < 2 ^ k) by (apply Z.pow_pos_nonneg; lia). split.
  - apply Z.div_pos; lia.
  - apply Z.div_lt_upper_bound; [lia|]. nia.
Qed.

(** ** Tactics *)

(** Case analysis on the scrutinee of the first [match] or [if] of the goal. *)
Ltac case_goal :=
  match goal with
  | |- context [match ?x with _ => _ end] => destruct x eqn:?
  end.

(** Case analysis on the scrutinee of the first [match] of a hypothesis. *)
Ltac case_hyp H :=
  match type of H with
  | context [match ?x with _ => _ end] => destruct x eqn:?
  end.

(** Reflect boolean tests on integers into propositions. *)
Ltac breflect :=
  repeat match goal with
  | H : _ && _ = true |- _ => apply andb_prop in H as [??]
  | H : _ && _ = false |- _ => apply andb_false_iff in H
  | H : _ || _ = true |- _ => apply orb_prop in H
  | H : _ || _ = false |- _ => apply orb_false_iff in H as [??]
  | H : negb _ = true |- _ => apply negb_true_iff in H
  | H : negb _ = false |- _ => apply negb_false_iff in H
  | H : (_ =? _) = true |- _ => apply Z.eqb_eq in H
  | H : (_ =? _) = false |- _ => apply Z.eqb_neq in H
  | H : (_ <? _) = true |- _ => apply Z.ltb_lt in H
  | H : (_ <? _) = false |- _ => apply Z.ltb_ge in H
  | H : (_ <=? _) = true |- _ => apply Z.leb_le in H
  | H : (_ <=? _) = false |- _ => apply Z.leb_gt in H
  | H : bool_decide _ = true |- _ => apply bool_decide_eq_true in H
  | H : bool_decide _ = false |- _ => apply bool_decide_eq_false in H
  end.

Lemma and_iff_compat_r' (P Q R : Prop) : (R -> (P <-> Q)) -> (P /\ R <-> Q /\ R).
Proof. tauto. Qed.

(** ** Sequences searched with [std::find_if] *)

(** The containers of the daemon that are searched with [std::find_if] are
    vectors and lists. An iterator returned by the search is used to read,
    to update in place or to erase the element it points to. *)
Section FindIf.
Context {A : Type}.
Implicit Types (p : A -> bool) (f : A -> A) (l : list A).

Fixpoint find_if p l : option A :=
  match l with
  | [] => None
  | x :: l' => if p x then Some x else find_if p l'
  end.

(** [it = find_if(...); if (it != end) container.erase(it)]. *)
Fixpoint erase_first p l : list A :=
  match l with
  | [] => []
  | x :: l' => if p x then l' else x :: erase_first p l'
  end.

(** [it = find_if(...); if (it != end) *it = f( *it )]. *)
Fixpoint update_first p f l : list A :=
  match l with
  | [] => []
  | x :: l' => if p x then f x :: l' else x :: update_first p f l'
  end.

(** [remove_if(...)] followed by [erase(it, end)]. *)
Fixpoint remove_if p l : list A :=
  match l with
  | [] => []
  | x :: l' => if p x then remove_if p l' else x :: remove_if p l'
  end.

(** [it = find_if(...); *it = back(); pop_back()]. *)
Definition swap_remove p l : list A :=
  match last l with
  | Some back => take (pred (length l)) (update_first p (fun _ => back) l)
  | None => l
  end.

Lemma find_if_Some p l x : find_if p l = Some x -> x ∈ l /\ p x = true.
Proof.
  induction l as [|y l IH]; simpl; [done|].
  destruct (p y) eqn:E; intros H.
  - simplify_eq. split; [left|done].
  - apply IH in H as [??]. split; [by right|done].
Qed.

Lemma find_if_None p l : find_if p l = None <-> (forall x, x ∈ l -> p x = false).
Proof.
  induction l as [|y l IH]; simpl; [split; [set_solver|done]|].
  destruct (p y) eqn:E; split.
  - done.
  - intros H. specialize (H y). rewrite H in E by left. done.
  - intros H x [->|Hx]%elem_of_cons; [done|]. by apply IH.
  - intros H. apply IH. intros x Hx. apply H. by right.
Qed.

Lemma find_if_app p l1 l2 :
  find_if p (l1 ++ l2) = match find_if p l1 with Some x => Some x | None => find_if p l2 end.
Proof. induction l1 as [|y l IH]; simpl; [done|]. by destruct (p y). Qed.

Lemma erase_first_sublist p l : sublist (erase_first p l) l.
Proof. induction l as [|y l IH]; simpl; [done|]. destruct (p y); by constructor. Qed.

Lemma erase_first_id p l : find_if p l = None -> erase_first p l = l.
Proof.
  induction l as [|y l IH]; simpl; [done|].
  destruct (p y); [done|]. intros H. by rewrite IH.
Qed.

Lemma erase_first_perm p l x :
  find_if p l = Some x -> x :: erase_first p l ≡ₚ l.
Proof.
  induction l as [|y l IH]; simpl; [done|].
  destruct (p y) eqn:E; intros H; [by simplify_eq|].
  rewrite <-(IH H) at 2. constructor.
Qed.

Lemma length_erase_first p l :
  length (erase_first p l) =
  match find_if p l with Some _ => pred (length l) | None => length l end.
Proof.
  destruct (find_if p l) eqn:E.
  - apply erase_first_perm, Permutation_length in E. simpl in E. lia.
  - by rewrite erase_first_id.
Qed.

Lemma length_update_first p f l : length (update_first p f l) = length l.
Proof. induction l as [|y l IH]; simpl; [done|]. destruct (p y); simpl; lia. Qed.

Lemma update_first_perm p f l x :
  find_if p l = Some x -> update_first p f l ≡ₚ f x :: erase_first p l.
Proof.
  induction l as [|y l IH]; simpl; [done|].
  destruct (p y) eqn:E; intros H; [by simplify_eq|].
  rewrite (IH H). constructor.
Qed.

Lemma update_first_id p f l : find_if p l = None -> update_first p f l = l.
Proof.
  induction l as [|y l IH]; simpl; [done|].
  destruct (p y); [done|]. intros H. by rewrite IH.
Qed.

Lemma take_pred_snoc l (x : A) : take (pred (length (l ++ [x]))) (l ++ [x]) = l.
Proof. rewrite length_app, Nat.add_comm. simpl. by rewrite take_app_length. Qed.

Lemma update_first_app p f l1 l2 :
  update_first p f (l1 ++ l2) =
  match find_if p l1 with
  | Some _ => update_first p f l1 ++ l2
  | None => l1 ++ update_first p f l2
  end.
Proof.
  induction l1 as [|y l IH]; simpl; [done|]. destruct (p y); [done|].
  rewrite IH. by destruct (find_if p l).
Qed.

(** Moving the last element into the place of the erased one and dropping the
    last removes just that element. *)
Lemma swap_remove_perm p l x : find_if p l = Some x -> l ≡ₚ x :: swap_remove p l.
Proof.
  unfold swap_remove. destruct l as [|y l _] using rev_ind; [done|]. rewrite last_snoc.
  rewrite find_if_app, update_first_app. destruct (find_if p l) as [z|] eqn:El; intros Hf; simplify_eq/=.
  - rewrite length_app, <-(length_update_first p (fun _ => y) l), <-length_app, take_pred_snoc.
    rewrite (update_first_perm _ _ _ _ El). rewrite <-(erase_first_perm _ _ _ El) at 1.
    rewrite Permutation_app_comm. simpl. apply perm_swap.
  - destruct (p y) eqn:Ey; [|done]. simplify_eq. rewrite take_pred_snoc. by rewrite Permutation_app_comm.
Qed.

Lemma update_first_elem p f l x :
  x ∈ update_first p f l -> exists y, y ∈ l /\ (x = y \/ x = f y).
Proof.
  induction l as [|y l IH]; simpl; [set_solver|].
  destruct (p y); intros [->|Hx]%elem_of_cons; [exists y|exists x|exists y|].
  1-3: split; [set_solver|auto].
  destruct (IH Hx) as (z & ? & ?). exists z. split; [by right|done].
Qed.

Lemma elem_of_remove_if p l x : x ∈ remove_if p l <-> x ∈ l /\ p x = false.
Proof.
  induction l as [|y l IH]; simpl.
  - rewrite elem_of_nil. tauto.
  - destruct (p y) eqn:E; rewrite ?elem_of_cons, IH; intuition (subst; congruence).
Qed.

Lemma remove_if_sublist p l : sublist (remove_if p l) l.
Proof. induction l as [|y l IH]; simpl; [done|]. destruct (p y); by constructor. Qed.

Lemma remove_if_remove_if p q l : remove_if p (remove_if q l) = remove_if (fun x => q x || p x) l.
Proof.
  induction l as [|y l IH]; simpl; [done|]. destruct (q y); simpl; [done|]. destruct (p y); by rewrite IH.
Qed.

Lemma remove_if_ext p q l : (forall x, x ∈ l -> p x = q x) -> remove_if p l = remove_if q l.
Proof.
  induction l as [|y l IH]; simpl; [done|]. intros Heq.
  rewrite (Heq y) by left. rewrite IH; [done|]. intros x Hx. apply Heq. by right.
Qed.

Lemma remove_if_none p l : (forall x, x ∈ l -> p x = false) -> remove_if p l = l.
Proof.
  induction l as [|y l IH]; simpl; [done|]. intros Heq.
  rewrite (Heq y) by left. f_equal. apply IH. intros x Hx. apply Heq. by right.
Qed.

(** The first match in a sequence sorted by a key has the least key of all. *)
Lemma find_if_sorted p (key : A -> Z) l x :
  Sorted (fun a b => (key a <= key b)%Z) l -> find_if p l = Some x ->
  forall y, y ∈ l -> p y = true -> (key x <= key y)%Z.
Proof.
  intros Hs%Sorted_StronglySorted; [|intros ???; lia].
  induction l as [|z l IH]; simpl; [done|].
  apply StronglySorted_inv in Hs as [Hs Hz]. rewrite Forall_forall in Hz.
  destruct (p z) eqn:Ez; intros Hf y Hy Hp.
  - simplify_eq. apply elem_of_cons in Hy as [->|Hy]; [lia|by apply Hz].
  - apply elem_of_cons in Hy as [->|Hy]; [congruence|by apply IH].
Qed.

Lemma find_if_ext p q l : (forall x, x ∈ l -> p x = q x) -> find_if p l = find_if q l.
Proof.
  induction l as [|y l IH]; simpl; [done|]. intros H.
  rewrite (H y) by left. destruct (q y); [done|]. apply IH. intros; apply H. by right.
Qed.
End FindIf.

#[export] Hint Resolve erase_first_sublist remove_if_sublist : nfd.

(** Sequences whose elements carry a key that the search compares: in-records
    and out-records per face, nexthops per (face, endpoint), routes. *)
Section Keyed.
Context {A K : Type} `{EqDecision K} (key : A -> K).
Implicit Types (l : list A) (k : K).

Definition has_key k (x : A) : bool := bool_decide (key x = k).

Definition uniq_keys l : Prop := NoDup (key <$> l).

Lemma find_key_Some k l x : find_if (has_key k) l = Some x -> x ∈ l /\ key x = k.
Proof.
  intros [? H]%find_if_Some. unfold has_key in H. by apply bool_decide_eq_true in H.
Qed.

Lemma find_key_None k l : find_if (has_key k) l = None <-> k ∉ key <$> l.
Proof.
  rewrite find_if_None. split.
  - intros H (x & -> & Hx)%list_elem_of_fmap. apply H in Hx.
    unfold has_key in Hx. by rewrite bool_decide_eq_false in Hx.
  - intros H x Hx. apply bool_decide_eq_false. intros <-. apply H.
    apply list_elem_of_fmap. eauto.
Qed.

Lemma find_key_elem k l x :
  uniq_keys l -> x ∈ l -> key x = k -> find_if (has_key k) l = Some x.
Proof.
  unfold uniq_keys. induction l as [|y l IH]; [set_solver|]. simpl.
  intros [Hy Hl]%NoDup_cons Hx Hk. unfold has_key at 1.
  case_bool_decide as Heq.
  - apply elem_of_cons in Hx as [->|Hx]; [done|]. exfalso. apply Hy.
    apply list_elem_of_fmap. exists x. split; [congruence|done].
  - apply elem_of_cons in Hx as [->|Hx]; [done|]. by apply IH.
Qed.

Lemma find_key_perm k l1 l2 :
  uniq_keys l1 -> l1 ≡ₚ l2 -> find_if (has_key k) l1 = find_if (has_key k) l2.
Proof.
  intros Hu Hp. destruct (find_if (has_key k) l1) as [x|] eqn:E; symmetry.
  - apply find_key_Some in E as [Hx <-]. apply find_key_elem; [|by rewrite <-Hp|done].
    unfold uniq_keys in *. by rewrite <-Hp.
  - apply find_key_None. rewrite <-Hp. by apply find_key_None.
Qed.

Lemma uniq_keys_sublist l1 l2 : sublist l1 l2 -> uniq_keys l2 -> uniq_keys l1.
Proof.
  intros Hs. unfold uniq_keys. intros Hnd. eapply sublist_NoDup; [done|]. by apply fmap_sublist.
Qed.

Lemma uniq_erase_first p l : uniq_keys l -> uniq_keys (erase_first p l).
Proof. apply uniq_keys_sublist, erase_first_sublist. Qed.

Lemma uniq_remove_if p l : uniq_keys l -> uniq_keys (remove_if p l).
Proof. apply uniq_keys_sublist, remove_if_sublist. Qed.

Lemma update_first_keys p f l :
  (forall x, x ∈ l -> p x = true -> key (f x) = key x) -> key <$> update_first p f l = key <$> l.
Proof.
  induction l as [|y l IH]; simpl; [done|]. intros H.
  destruct (p y) eqn:E; simpl.
  - f_equal. apply H; [by left|done].
  - f_equal. apply IH. intros; apply H; [by right|done].
Qed.

Lemma uniq_update_first p f l :
  (forall x, x ∈ l -> p x = true -> key (f x) = key x) -> uniq_keys l -> uniq_keys (update_first p f l).
Proof. intros H. unfold uniq_keys. by rewrite update_first_keys. Qed.

Lemma erase_first_remove_if k l : uniq_keys l -> erase_first (has_key k) l = remove_if (has_key k) l.
Proof.
  unfold uniq_keys. induction l as [|y l IH]; simpl; [done|]. intros [Hy Hl]%NoDup_cons.
  unfold has_key at 1 3. case_bool_decide as E; [|by rewrite IH].
  symmetry. apply remove_if_none. intros x Hx. apply bool_decide_eq_false. intros Hk.
  apply Hy. rewrite E, <-Hk. apply list_elem_of_fmap. eauto.
Qed.

Lemma find_erase_same k l : uniq_keys l -> find_if (has_key k) (erase_first (has_key k) l) = None.
Proof.
  unfold uniq_keys. induction l as [|y l IH]; simpl; [done|].
  intros [Hy Hl]%NoDup_cons. unfold has_key at 2 3. case_bool_decide as E; simpl.
  - apply find_key_None. by rewrite <-E.
  - unfold has_key at 1. rewrite bool_decide_eq_false_2 by done. by apply IH.
Qed.

Lemma find_erase_other k k' l :
  k <> k' -> find_if (has_key k') (erase_first (has_key k) l) = find_if (has_key k') l.
Proof.
  intros Hne. induction l as [|y l IH]; simpl; [done|].
  destruct (has_key k y) eqn:E; simpl; [|by rewrite IH].
  assert (has_key k' y = false) as ->; [|done].
  unfold has_key in *. apply bool_decide_eq_true in E. apply bool_decide_eq_false. congruence.
Qed.

Lemma find_update_same k f l x :
  find_if (has_key k) l = Some x -> key (f x) = k ->
  find_if (has_key k) (update_first (has_key k) f l) = Some (f x).
Proof.
  intros H Hf. induction l as [|y l IH]; simpl in *; [done|].
  unfold has_key at 1 in H. unfold has_key at 2. case_bool_decide; simplify_eq; simpl.
  - unfold has_key. by rewrite bool_decide_eq_true_2.
  - unfold has_key at 1. rewrite bool_decide_eq_false_2 by done. by apply IH.
Qed.

Lemma find_update_other k k' f l :
  k <> k' -> (forall x, key x = k -> key (f x) = k) ->
  find_if (has_key k') (update_first (has_key k) f l) = find_if (has_key k') l.
Proof.
  intros Hne Hf. induction l as [|y l IH]; simpl; [done|].
  unfold has_key at 2. case_bool_decide as E; simpl.
  - unfold has_key. rewrite !bool_decide_eq_false_2; [done|congruence|].
    rewrite Hf by done. congruence.
  - by rewrite IH.
Qed.
(** Finding the element of a key, or making a new one at the front, and
    updating it in place. *)
Lemma upsert_front k new f l :
  key new = k -> (forall x, key (f x) = key x) -> uniq_keys l ->
  let l' := update_first (has_key k) f
              match find_if (has_key k) l with None => new :: l | Some _ => l end in
  uniq_keys l' /\
  find_if (has_key k) l' = Some (f (default new (find_if (has_key k) l))) /\
  (forall k', k' <> k -> find_if (has_key k') l' = find_if (has_key k') l).
Proof.
  intros Hnew Hf Hu l'. subst l'. destruct (find_if (has_key k) l) as [r|] eqn:E; simpl.
  - apply find_key_Some in E as Hr. destruct Hr as [_ Hr]. split_and!.
    + by apply uniq_update_first.
    + apply find_update_same; [done|]. by rewrite Hf.
    + intros k' Hne. apply find_update_other; [done|]. intros; by rewrite Hf.
  - assert (has_key k new = true) as Hk by (unfold has_key; by rewrite bool_decide_eq_true).
    apply find_key_None in E. rewrite Hk. split_and!.
    + unfold uniq_keys. simpl. rewrite Hf, Hnew. by apply NoDup_cons.
    + simpl. unfold has_key. by rewrite Hf, bool_decide_eq_true_2.
    + intros k' Hne. simpl. unfold has_key at 1. by rewrite Hf, bool_decide_eq_false_2 by congruence.
Qed.
End Keyed.

#[export] Hint Resolve uniq_erase_first uniq_remove_if uniq_update_first : nfd.

(** ** std::sort

    [std::sort] with the comparison [key a < key b] leaves the elements in
    non-decreasing order of their keys; the order of equal keys is unspecified,
    so that a sort is a parameter with this law. *)
Class StdSort {A : Type} (key : A -> Z) (sort : list A -> list A) := {
  sort_perm l : sort l ≡ₚ l;
  sort_sorted l : Sorted (fun a b => key a <= key b) (sort l)
}.

Definition sort_by {A : Type} (key : A -> Z) : list A -> list A :=
  merge_sort (H := fun a b => decide (key a <= key b)) (fun a b => key a <= key b).

#[export] Instance sort_by_StdSort {A : Type} (key : A -> Z) : StdSort key (sort_by key).
Proof.
  split; intros l; unfold sort_by.
  - apply merge_sort_Permutation.
  - apply Sorted_merge_sort. intros x y. lia.
Qed.
