(* ===== verification/Fp.v ===== *)
(** * Binary floating point by correct rounding

    The daemon computes with [float] (binary32) and [double] (binary64): queue
    weights and virtual finish times, loss rates, capacity factors. Each IEEE-754
    operation returns the exact result rounded to nearest, ties to even, and this
    file defines the operations that way. A finite value of a format whose
    smallest positive number is [2^-u] is the integer number of such units, so a
    comparison of values is a comparison of integers. The precision [p] is 24 for
    [float] and 53 for [double], [u] is 149 and 1074. Overflow to infinity does
    not occur for the values the daemon handles: the components prove the ranges. *)

From S2P Require Import Prelude.
Local Open Scope Z_scope.

(** Nearest integer to [n / d], ties to even. *)
Definition rne (n d : Z) : Z :=
  let q := n / d in
  let r := n mod d in
  if 2 * r <? d then q
  else if d <? 2 * r then q + 1
  else if Z.even q then q else q + 1.

(** The spacing exponent, in units, of the binade of [n / d] at precision [p]. *)
Definition ulp_exp (p n d : Z) : Z := Z.max 0 (Z.log2 (Z.abs n / d) - (p - 1)).

(** The value [n / d] (in units) rounded to a [p]-bit significand. *)
Definition fround (p n d : Z) : Z :=
  let e := ulp_exp p n d in rne n (d * 2 ^ e) * 2 ^ e.

Section Format.
Variables (p u : Z).

Definition of_int (z : Z) : Z := fround p (z * 2 ^ u) 1.
(** The decimal literal [n / d]. *)
Definition of_dec (n d : Z) : Z := fround p (n * 2 ^ u) d.
Definition fadd (a b : Z) : Z := fround p (a + b) 1.
Definition fsub (a b : Z) : Z := fround p (a - b) 1.
Definition fmul (a b : Z) : Z := fround p (a * b) (2 ^ u).
Definition fdiv (a b : Z) : Z := fround p (a * 2 ^ u) b.
(** The square root: with [e] the spacing exponent of the result, the multiple of
    [2^e] nearest to it; no tie is possible. *)
Definition fsqrt (a : Z) : Z :=
  let e := ulp_exp p (Z.sqrt (a * 2 ^ u)) 1 in
  let q := Z.sqrt (a * 2 ^ u) / 2 ^ e in
  (if (2 * q + 1) ^ 2 * 2 ^ (2 * e) <? 4 * (a * 2 ^ u) then q + 1 else q) * 2 ^ e.
(** Conversion to an integer type truncates toward zero. *)
Definition to_int (a : Z) : Z := Z.quot a (2 ^ u).
End Format.

Notation double_of_int := (of_int 53 1074).
Notation double_of_dec := (of_dec 53 1074).
Notation double_add := (fadd 53).
Notation double_sub := (fsub 53).
Notation double_mul := (fmul 53 1074).
Notation double_div := (fdiv 53 1074).
Notation double_sqrt := (fsqrt 53 1074).
Notation double_to_int := (to_int 1074).
Notation float_of_int := (of_int 24 149).
Notation float_of_dec := (of_dec 24 149).
Notation float_add := (fadd 24).
Notation float_sub := (fsub 24).
Notation float_mul := (fmul 24 149).
Notation float_div := (fdiv 24 149).
Notation float_to_int := (to_int 149).

(** [x] units are a significand of at most [p] bits times a power of two. *)
Definition representable (p x : Z) : Prop :=
  exists m e, 0 <= e /\ 0 <= m < 2 ^ p /\ x = m * 2 ^ e.

(** ** Rounding to an integer *)

Lemma rne_bounds n d : 0 < d -> n - d <= rne n d * d <= n + d.
Proof.
  intros Hd. unfold rne.
  pose proof (Z.div_mod n d). pose proof (Z.mod_pos_bound n d Hd).
  repeat case_match; nia.
Qed.

Lemma rne_half n d : 0 < d -> 2 * Z.abs (rne n d * d - n) <= d.
Proof.
  intros Hd. unfold rne.
  pose proof (Z.div_mod n d). pose proof (Z.mod_pos_bound n d Hd).
  repeat case_match; breflect; nia.
Qed.

Lemma rne_exact q d : 0 < d -> rne (q * d) d = q.
Proof.
  intros Hd. unfold rne. rewrite Z.mod_mul, Z.div_mul by lia.
  rewrite (proj2 (Z.ltb_lt _ _)) by lia. done.
Qed.

(** The tie rule decides between two neighbours the same way for equal fractions. *)
Lemma rne_mono n1 d1 n2 d2 :
  0 < d1 -> 0 < d2 -> n1 * d2 <= n2 * d1 -> rne n1 d1 <= rne n2 d2.
Proof.
  intros H1 H2 H. unfold rne.
  pose proof (Z.div_mod n1 d1 ltac:(lia)). pose proof (Z.mod_pos_bound n1 d1 H1).
  pose proof (Z.div_mod n2 d2 ltac:(lia)). pose proof (Z.mod_pos_bound n2 d2 H2).
  set (q1 := n1 / d1) in *. set (q2 := n2 / d2) in *.
  set (r1 := n1 mod d1) in *. set (r2 := n2 mod d2) in *.
  assert (q1 <= q2) as Hq.
  { destruct (Z.le_gt_cases q1 q2); [done|]. exfalso.
    assert (d2 * (d1 * q1) >= d2 * (d1 * (q2 + 1))) by nia. nia. }
  destruct (decide (q1 = q2)) as [Heq|Hne]; [|repeat case_match; lia].
  assert (r1 * d2 <= r2 * d1) by nia.
  rewrite Heq. repeat case_match; breflect; try lia; nia.
Qed.

(** Rounding is symmetric. *)
Lemma rne_opp n d : 0 < d -> rne (- n) d = - rne n d.
Proof.
  intros Hd. unfold rne. pose proof (Z.mod_pos_bound n d Hd) as Hr.
  destruct (Z.eq_dec (n mod d) 0) as [E|E].
  - rewrite Z.div_opp_l_z, Z.mod_opp_l_z, E by lia. destruct (Z.ltb_spec (2 * 0) d); lia.
  - rewrite Z.div_opp_l_nz, Z.mod_opp_l_nz by lia.
    replace (Z.even (- (n / d) - 1)) with (negb (Z.even (n / d)))
      by (rewrite Z.even_sub, Z.even_opp; by destruct (Z.even (n / d))).
    destruct (Z.ltb_spec (2 * (n mod d)) d), (Z.ltb_spec d (2 * (n mod d))),
      (Z.ltb_spec (2 * (d - n mod d)) d), (Z.ltb_spec d (2 * (d - n mod d))), (Z.even (n / d)); simpl; lia.
Qed.

Lemma rne_nonneg n d : 0 < d -> 0 <= n -> 0 <= rne n d.
Proof.
  intros Hd Hn. rewrite <-(rne_exact 0 d Hd) at 1. apply rne_mono; lia.
Qed.

(** ** Rounding to a format *)

Section Rounding.
Variable (p : Z).
Hypothesis Hp : 0 < p.

Lemma ulp_exp_nonneg n d : 0 <= ulp_exp p n d.
Proof. unfold ulp_exp. lia. Qed.

Lemma pow_ulp_pos n d : 0 < 2 ^ ulp_exp p n d.
Proof. apply Z.pow_pos_nonneg; [lia|apply ulp_exp_nonneg]. Qed.

(** The binade: [n / d < 2^(p + e)], and [2^(p - 1 + e) <= n / d] when [e > 0]. *)
Lemma binade_upper n d : 0 < d -> 0 <= n -> n < d * 2 ^ (p + ulp_exp p n d).
Proof.
  intros Hd Hn. unfold ulp_exp. rewrite Z.abs_eq by lia.
  pose proof (Z.div_mod n d). pose proof (Z.mod_pos_bound n d Hd).
  assert (n / d < 2 ^ (p + Z.max 0 (Z.log2 (n / d) - (p - 1)))) as Hlt; [|nia].
  assert (0 <= n / d) by (apply Z.div_pos; lia).
  destruct (decide (n / d = 0)) as [->|]; [apply Z.pow_pos_nonneg; lia|].
  eapply Z.lt_le_trans; [apply (Z.log2_spec (n / d)); lia|].
  apply Z.pow_le_mono_r; lia.
Qed.

Lemma binade_lower n d :
  0 < d -> 0 <= n -> 0 < ulp_exp p n d -> d * 2 ^ (p - 1 + ulp_exp p n d) <= n.
Proof.
  intros Hd Hn He. unfold ulp_exp in *. rewrite Z.abs_eq in * by lia.
  pose proof (Z.div_mod n d). pose proof (Z.mod_pos_bound n d Hd).
  assert (2 ^ (p - 1 + Z.max 0 (Z.log2 (n / d) - (p - 1))) <= n / d) as Hle; [|nia].
  replace (p - 1 + _) with (Z.log2 (n / d)) by lia.
  apply Z.log2_spec. destruct (Z.lt_ge_cases 0 (n / d)); [done|].
  rewrite Z.log2_nonpos in He by lia. lia.
Qed.

Lemma ulp_exp_mono n1 d1 n2 d2 :
  0 < d1 -> 0 < d2 -> 0 <= n1 -> n1 * d2 <= n2 * d1 -> ulp_exp p n1 d1 <= ulp_exp p n2 d2.
Proof.
  intros H1 H2 Hn H. unfold ulp_exp.
  assert (0 <= n2) by nia. rewrite !Z.abs_eq by lia.
  assert (n1 / d1 <= n2 / d2); [|pose proof (Z.log2_le_mono (n1 / d1) (n2 / d2)); lia].
  pose proof (Z.div_mod n1 d1). pose proof (Z.mod_pos_bound n1 d1 H1).
  apply Z.div_le_lower_bound; [done|].
  assert (d1 * (n1 / d1) <= n1) by nia. nia.
Qed.

Lemma fround_opp n d : 0 < d -> fround p (- n) d = - fround p n d.
Proof.
  intros Hd. unfold fround. assert (ulp_exp p (- n) d = ulp_exp p n d) as -> by (unfold ulp_exp; by rewrite Z.abs_opp).
  pose proof (pow_ulp_pos n d). rewrite rne_opp by nia. lia.
Qed.

Lemma fround_nonneg n d : 0 < d -> 0 <= n -> 0 <= fround p n d.
Proof.
  intros Hd Hn. unfold fround. pose proof (pow_ulp_pos n d).
  assert (0 <= rne n (d * 2 ^ ulp_exp p n d)) by (apply rne_nonneg; nia). nia.
Qed.

(** The rounded value stays within the closed binade. *)
Lemma fround_upper n d :
  0 < d -> 0 <= n -> fround p n d <= 2 ^ (p + ulp_exp p n d).
Proof.
  intros Hd Hn. unfold fround. set (e := ulp_exp p n d).
  assert (0 < 2 ^ e) by apply pow_ulp_pos.
  assert (0 <= e) by apply ulp_exp_nonneg.
  pose proof (binade_upper n d Hd Hn) as Hb. fold e in Hb.
  rewrite Z.pow_add_r in * by lia.
  assert (rne n (d * 2 ^ e) <= 2 ^ p); [|nia].
  rewrite <-(rne_exact (2 ^ p) (d * 2 ^ e)) by nia. apply rne_mono; nia.
Qed.

Lemma fround_lower n d :
  0 < d -> 0 <= n -> 0 < ulp_exp p n d -> 2 ^ (p - 1 + ulp_exp p n d) <= fround p n d.
Proof.
  intros Hd Hn He. pose proof (binade_lower n d Hd Hn He) as Hb.
  unfold fround. set (e := ulp_exp p n d) in *.
  assert (0 < 2 ^ e) by apply pow_ulp_pos.
  rewrite Z.pow_add_r in * by lia.
  assert (2 ^ (p - 1) <= rne n (d * 2 ^ e)); [|nia].
  rewrite <-(rne_exact (2 ^ (p - 1)) (d * 2 ^ e)) by nia. apply rne_mono; nia.
Qed.

(** Rounding is monotone. *)
Lemma fround_mono n1 d1 n2 d2 :
  0 < d1 -> 0 < d2 -> 0 <= n1 -> n1 * d2 <= n2 * d1 ->
  fround p n1 d1 <= fround p n2 d2.
Proof.
  intros H1 H2 Hn H. assert (0 <= n2) by nia.
  pose proof (ulp_exp_mono n1 d1 n2 d2 H1 H2 Hn H).
  pose proof (ulp_exp_nonneg n1 d1).
  destruct (decide (ulp_exp p n1 d1 = ulp_exp p n2 d2)) as [Heq|Hne].
  - unfold fround. rewrite Heq. pose proof (pow_ulp_pos n2 d2).
    assert (rne n1 (d1 * 2 ^ ulp_exp p n2 d2) <= rne n2 (d2 * 2 ^ ulp_exp p n2 d2)); [|nia].
    apply rne_mono; nia.
  - etransitivity; [by apply fround_upper|].
    etransitivity; [|apply fround_lower; lia].
    apply Z.pow_le_mono_r; lia.
Qed.

Lemma fround_exact_mult q d :
  0 < d -> 0 <= q -> (exists m, q = m * 2 ^ ulp_exp p q 1) -> fround p (q * d) d = q.
Proof.
  intros Hd Hq [m Hm]. unfold fround.
  assert (ulp_exp p (q * d) d = ulp_exp p q 1) as ->.
  { unfold ulp_exp. rewrite !Z.abs_eq by nia. by rewrite Z.div_mul, Z.div_1_r by lia. }
  set (e := ulp_exp p q 1) in *. pose proof (pow_ulp_pos q 1). fold e in H.
  rewrite Hm at 1. replace (m * 2 ^ e * d) with (m * (d * 2 ^ e)) by ring.
  rewrite rne_exact by nia. done.
Qed.

Lemma ulp_divides x : representable p x -> exists m, x = m * 2 ^ ulp_exp p x 1.
Proof.
  intros (m & e & He & Hm & ->). unfold ulp_exp.
  rewrite Z.div_1_r, Z.abs_eq by (apply Z.mul_nonneg_nonneg; [lia|apply Z.pow_nonneg; lia]).
  destruct (decide (m = 0)) as [->|]; [by exists 0|].
  rewrite Z.log2_mul_pow2 by lia.
  assert (Z.log2 m < p) by (apply Z.log2_lt_pow2; lia).
  set (k := Z.max 0 (e + Z.log2 m - (p - 1))).
  exists (m * 2 ^ (e - k)). rewrite <-Z.mul_assoc, <-Z.pow_add_r by lia. f_equal. f_equal. lia.
Qed.

(** Representable values round to themselves. *)
Lemma fround_repr x d : 0 < d -> representable p x -> fround p (x * d) d = x.
Proof.
  intros Hd Hx. apply fround_exact_mult; [done| |by apply ulp_divides].
  destruct Hx as (m & e & He & Hm & ->). apply Z.mul_nonneg_nonneg; [lia|apply Z.pow_nonneg; lia].
Qed.

Lemma repr_pow m e : 0 <= e -> 0 <= m <= 2 ^ p -> representable p (m * 2 ^ e).
Proof.
  intros He Hm. destruct (decide (m = 2 ^ p)) as [->|].
  - exists (2 ^ (p - 1)), (e + 1). split_and!; try lia.
    + apply Z.pow_lt_mono_r; lia.
    + rewrite <-!Z.pow_add_r by lia. f_equal. lia.
  - exists m, e. split_and!; lia.
Qed.

(** Every result of rounding is representable. *)
Lemma repr_fround n d : 0 < d -> 0 <= n -> representable p (fround p n d).
Proof.
  intros Hd Hn. pose proof (fround_upper n d Hd Hn) as Hu.
  pose proof (fround_nonneg n d Hd Hn) as Hz.
  unfold fround in *. set (e := ulp_exp p n d) in *.
  assert (0 < 2 ^ e) by apply pow_ulp_pos. assert (0 <= e) by apply ulp_exp_nonneg.
  apply repr_pow; [done|]. rewrite Z.pow_add_r in Hu by lia. nia.
Qed.

Lemma fround_le_repr n d x :
  0 < d -> 0 <= n -> representable p x -> n <= x * d -> fround p n d <= x.
Proof.
  intros Hd Hn Hx H. rewrite <-(fround_repr x d Hd Hx). apply fround_mono; nia.
Qed.

Lemma fround_ge_repr n d x :
  0 < d -> representable p x -> x * d <= n -> x <= fround p n d.
Proof.
  intros Hd Hx H. rewrite <-(fround_repr x d Hd Hx) at 1. apply fround_mono; try nia.
  destruct Hx as (m & e & He & Hm & ->).
  repeat apply Z.mul_nonneg_nonneg; lia.
Qed.

Lemma repr_int u z : 0 <= u -> 0 <= z < 2 ^ p -> representable p (z * 2 ^ u).
Proof. intros Hu Hz. exists z, u. done. Qed.

(** A value of at most half of the integer [x] rounds to at most [x]. *)
Lemma fround_half n d x : 0 < d -> 0 <= n -> 2 * n <= x * d -> fround p n d <= x.
Proof.
  intros Hd Hn Hx. unfold fround. set (e := ulp_exp p n d).
  assert (0 <= e) by apply ulp_exp_nonneg. assert (0 < 2 ^ e) by apply pow_ulp_pos.
  pose proof (rne_half n (d * 2 ^ e) ltac:(nia)) as Hr. set (r := rne n (d * 2 ^ e)) in *.
  assert (0 <= x) by nia. destruct (decide (e = 0)) as [He|He].
  - rewrite He in *. change (2 ^ 0) with 1 in *. rewrite !Z.mul_1_r in *.
    destruct (Z.eq_dec x 0); [assert (n = 0) by nia; nia|]. nia.
  - pose proof (binade_lower n d Hd Hn ltac:(fold e; lia)) as Hb. fold e in Hb.
    rewrite Z.pow_add_r in Hb by lia. assert (1 <= 2 ^ (p - 1)) by (pose proof (Z.pow_pos_nonneg 2 (p - 1)); lia).
    assert (d * 2 ^ e <= n) by nia. nia.
Qed.

(** The square root of at least one is at least one. *)
Lemma fsqrt_ge_one u a : 0 <= u -> 2 ^ u <= a -> 2 ^ u <= fsqrt p u a.
Proof.
  intros Hu Ha. unfold fsqrt. set (s := Z.sqrt (a * 2 ^ u)). set (e := ulp_exp p s 1). set (q := s / 2 ^ e).
  assert (0 < 2 ^ u) by (apply Z.pow_pos_nonneg; lia). assert (0 <= e) by apply ulp_exp_nonneg. assert (0 < 2 ^ e) by apply pow_ulp_pos.
  assert (2 ^ u <= s) as Hs by (apply Z.sqrt_le_square; nia).
  assert (2 ^ u <= q * 2 ^ e) as Hq.
  { destruct (Z.le_gt_cases e u) as [Heu|Heu].
    - replace u with (u - e + e) by lia. rewrite Z.pow_add_r by lia. apply Z.mul_le_mono_nonneg_r; [lia|].
      apply Z.div_le_lower_bound; [lia|]. rewrite Z.mul_comm, <-Z.pow_add_r by lia. by replace (u - e + e) with u by lia.
    - transitivity (2 ^ e); [apply Z.pow_le_mono_r; lia|]. assert (1 <= q); [|nia]. apply Z.div_le_lower_bound; [lia|].
      pose proof (binade_lower s 1 ltac:(lia) ltac:(lia) ltac:(fold e; lia)) as Hb. fold e in Hb. rewrite Z.pow_add_r in Hb by lia.
      pose proof (Z.pow_pos_nonneg 2 (p - 1)). nia. }
  destruct (_ <? _); nia.
Qed.

(** Integers below [2^p] convert exactly. *)
Lemma of_int_exact u z : 0 <= u -> 0 <= z < 2 ^ p -> of_int p u z = z * 2 ^ u.
Proof.
  intros Hu Hz. unfold of_int. rewrite <-(Z.mul_1_r (z * 2 ^ u)) at 1.
  apply fround_repr; [lia|]. by apply repr_int.
Qed.
End Rounding.

(** *** Scaling *)

Lemma rne_cancel n d c : 0 < d -> 0 < c -> rne (n * c) (d * c) = rne n d.
Proof.
  intros Hd Hc. unfold rne. rewrite Z.div_mul_cancel_r, Z.mul_mod_distr_r by lia.
  assert (forall a b, (a * c <? b * c) = (a <? b)) as Hlt.
  { intros a b. apply eq_true_iff_eq. rewrite !Z.ltb_lt. symmetry. by apply Z.mul_lt_mono_pos_r. }
  by rewrite Z.mul_assoc, !Hlt.
Qed.

Lemma fround_cancel p n d c : 0 < d -> 0 < c -> fround p (n * c) (d * c) = fround p n d.
Proof.
  intros Hd Hc. unfold fround, ulp_exp. rewrite Z.abs_mul, (Z.abs_eq c), Z.div_mul_cancel_r by lia.
  set (e := Z.max 0 _). replace (d * c * 2 ^ e) with (d * 2 ^ e * c) by ring. rewrite rne_cancel; [done| |done].
  apply Z.mul_pos_pos; [done|]. apply Z.pow_pos_nonneg; lia.
Qed.

Lemma fround_scale p n d j : 1 <= p -> 0 <= j -> 0 < d -> 0 <= n -> 2 ^ (p - 1) <= n / d -> fround p (n * 2 ^ j) d = fround p n d * 2 ^ j.
Proof.
  intros Hp Hj Hd Hn Hbig. set (q := n / d) in *. set (l := Z.log2 q).
  assert (0 < 2 ^ j) as Hpj by (by apply Z.pow_pos_nonneg).
  assert (0 < q) as Hq by (assert (0 < 2 ^ (p - 1)) by (apply Z.pow_pos_nonneg; lia); lia).
  destruct (Z.log2_spec q Hq) as [Hl1 Hl2]. fold l in Hl1, Hl2.
  assert (0 <= l) as Hl by apply Z.log2_nonneg.
  assert (Z.log2 (n * 2 ^ j / d) = l + j) as Hlog.
  { apply Z.log2_unique; [lia|]. rewrite Z.pow_succ_r, !Z.pow_add_r by lia. rewrite Z.pow_succ_r in Hl2 by lia.
    pose proof (Z.mul_div_le n d Hd) as Hlo. pose proof (Z.mul_succ_div_gt n d Hd) as Hhi. fold q in Hlo, Hhi.
    assert (d * 2 ^ l <= n) by nia. assert (n < d * (2 * 2 ^ l)) by nia. split.
    - apply Z.div_le_lower_bound; [done|]. rewrite Z.mul_assoc. by apply Z.mul_le_mono_pos_r.
    - apply Z.div_lt_upper_bound; [done|]. rewrite !Z.mul_assoc in *. by apply Z.mul_lt_mono_pos_r. }
  assert (p - 1 <= l) as Hpl.
  { destruct (Z.le_gt_cases (p - 1) l); [done|]. assert (2 ^ Z.succ l <= 2 ^ (p - 1)) by (apply Z.pow_le_mono_r; lia). lia. }
  unfold fround, ulp_exp. rewrite !Z.abs_eq by (apply Z.mul_nonneg_nonneg || idtac; lia). rewrite Hlog. fold q l.
  rewrite !Z.max_r by lia. replace (l + j - (p - 1)) with (l - (p - 1) + j) by lia. set (e := l - (p - 1)).
  rewrite Z.pow_add_r by lia. rewrite !Z.mul_assoc, rne_cancel; [done| |done].
  apply Z.mul_pos_pos; [done|]. apply Z.pow_pos_nonneg; lia.
Qed.

#[export] Hint Resolve fround_nonneg repr_fround repr_int : nfd.

Example double_point_nine_bits :
  double_of_dec 9 10 = 8106479329266893 * 2 ^ (1074 - 53).
Proof. vm_compute. reflexivity. Qed.

(** ** Interface

    Outside this file the operations are opaque to simplification; they still
    evaluate by [vm_compute], and their definitions are available as equations. *)
Section Equations.
Variables (p u : Z).

Lemma of_int_def z : of_int p u z = fround p (z * 2 ^ u) 1.
Proof. done. Qed.
Lemma of_dec_def n d : of_dec p u n d = fround p (n * 2 ^ u) d.
Proof. done. Qed.
Lemma fadd_def a b : fadd p a b = fround p (a + b) 1.
Proof. done. Qed.
Lemma fsub_def a b : fsub p a b = fround p (a - b) 1.
Proof. done. Qed.
Lemma fmul_def a b : fmul p u a b = fround p (a * b) (2 ^ u).
Proof. done. Qed.
Lemma fdiv_def a b : fdiv p u a b = fround p (a * 2 ^ u) b.
Proof. done. Qed.
Lemma fsqrt_def a : fsqrt p u a =
  let e := ulp_exp p (Z.sqrt (a * 2 ^ u)) 1 in
  let q := Z.sqrt (a * 2 ^ u) / 2 ^ e in
  (if (2 * q + 1) ^ 2 * 2 ^ (2 * e) <? 4 * (a * 2 ^ u) then q + 1 else q) * 2 ^ e.
Proof. done. Qed.
Lemma to_int_def a : to_int u a = Z.quot a (2 ^ u).
Proof. done. Qed.
End Equations.

#[global] Opaque fround of_int of_dec fadd fsub fmul fdiv fsqrt to_int.
