(* ===== verification/TokenBucket.v ===== *)
(** * Token bucket of the QoS strategy

    Models [daemon/fw/ndn-token-bucket.hpp] and [.cpp]: a bucket holds one
    [double] token count per face; [addToken] refills every face below capacity
    by one and reports whether a face that waits for tokens can send again;
    [consumeToken] takes tokens from a face, starting it at capacity on first
    use. The two signals of the class are returned as booleans: the caller runs
    the connected handlers. *)

From S2P Require Import Prelude Fp.
Local Open Scope Z_scope.

Module TB.

Record TokenBucket := mkTokenBucket {
  hasFaces : bool;
  m_atCapacity : bool;
  m_tokens : gmap Z Z;   (* faceId -> double *)
  m_need : gmap Z Z;     (* faceId -> double *)
  m_capacity : Z         (* int *)
}.

Definition newTokenBucket : TokenBucket := mkTokenBucket false false ∅ ∅ 0.

(** [m[k]] of [std::unordered_map] reads through a default-constructed 0. *)
Definition at0 (m : gmap Z Z) (k : Z) : Z := default 0 (m !! k).
Arguments at0 : simpl never.

Definition one : Z := double_of_int 1.

Definition set_tokens (f : Z) (v : Z) (b : TokenBucket) : TokenBucket :=
  mkTokenBucket (hasFaces b) (m_atCapacity b) (<[f := v]> (m_tokens b)) (m_need b) (m_capacity b).
Definition set_need (f : Z) (v : Z) (b : TokenBucket) : TokenBucket :=
  mkTokenBucket (hasFaces b) (m_atCapacity b) (m_tokens b) (<[f := v]> (m_need b)) (m_capacity b).
Definition set_atCapacity (c : bool) (b : TokenBucket) : TokenBucket :=
  mkTokenBucket (hasFaces b) c (m_tokens b) (m_need b) (m_capacity b).

(** One iteration of the loop of [addToken] at the face [f]; the boolean is
    [callsend]. The reads [m_need[f]] create a zero entry when there is none. *)
Definition addToken_step (f : Z) (st : TokenBucket * bool) : TokenBucket * bool :=
  let '(b, callsend) := st in
  let b :=
    if at0 (m_tokens b) f <? double_of_int (m_capacity b)
    then set_tokens f (double_add (at0 (m_tokens b) f) one) (set_atCapacity false b)
    else b in
  let b := set_need f (at0 (m_need b) f) b in
  if negb (at0 (m_need b) f =? 0) && (at0 (m_need b) f <=? at0 (m_tokens b) f)
  then (b, true) else (b, callsend).

Fixpoint addToken_loop (fs : list Z) (st : TokenBucket * bool) : TokenBucket * bool :=
  match fs with
  | [] => st
  | f :: fs' => addToken_loop fs' (addToken_step f st)
  end.

(** [addToken]: the loop runs over the keys of [m_tokens] in the unspecified
    order of the hash map; the result says whether [send] is emitted. *)
Definition addToken (b : TokenBucket) : TokenBucket * bool :=
  addToken_loop (fst <$> map_to_list (m_tokens b)) (set_atCapacity true b, false).

(** [consumeToken]: the result says whether [noLongerAtCapacity] is emitted. *)
Definition consumeToken (tokens : Z) (face : Z) (b : TokenBucket) : TokenBucket * bool :=
  let b :=
    match m_tokens b !! face with
    | None => set_tokens face (double_of_int (m_capacity b)) b
    | Some _ => b
    end in
  let b := set_tokens face (double_sub (at0 (m_tokens b) face) tokens) b in
  if m_atCapacity b then (set_atCapacity false b, true) else (b, false).

(** ** Specification of a refill *)

(** The effect of a refill on one face, as a function of its old count. *)
Definition refill (cap v : Z) : Z :=
  if v <? double_of_int cap then double_add v one else v.

Definition wakes (need v : Z) : bool := negb (need =? 0) && (need <=? v).

(** What [addToken] computes, without an iteration order: every face is
    refilled, every face has a [m_need] entry, and the two flags are the
    conjunction and the disjunction over the faces. *)
Definition addToken_spec (b : TokenBucket) : TokenBucket * bool :=
  let faces := map_to_list (m_tokens b) in
  (mkTokenBucket (hasFaces b)
     (forallb (fun '(_, v) => negb (v <? double_of_int (m_capacity b))) faces)
     (refill (m_capacity b) <$> m_tokens b)
     (m_need b ∪ ((fun _ => 0) <$> m_tokens b))
     (m_capacity b),
   existsb (fun '(f, v) => wakes (at0 (m_need b) f) (refill (m_capacity b) v)) faces).

(** The state of the loop after the faces [done] of the initial bucket [b0]. *)
Definition loop_inv (b0 : TokenBucket) (done : list Z) (st : TokenBucket * bool) : Prop :=
  let '(b, callsend) := st in
  hasFaces b = hasFaces b0 /\ m_capacity b = m_capacity b0 /\
  (forall f, m_tokens b !! f =
     if decide (f ∈ done) then refill (m_capacity b0) <$> (m_tokens b0 !! f)
     else m_tokens b0 !! f) /\
  (forall f, m_need b !! f =
     if decide (f ∈ done) then Some (at0 (m_need b0) f) else m_need b0 !! f) /\
  m_atCapacity b =
    forallb (fun f => negb (at0 (m_tokens b0) f <? double_of_int (m_capacity b0))) done /\
  callsend =
    existsb (fun f => wakes (at0 (m_need b0) f)
                        (refill (m_capacity b0) (at0 (m_tokens b0) f))) done.

Lemma addToken_step_inv b0 done f st :
  loop_inv b0 done st -> f ∉ done -> is_Some (m_tokens b0 !! f) ->
  loop_inv b0 (done ++ [f]) (addToken_step f st).
Proof.
  destruct st as [b callsend]. intros (Hh & Hc & Ht & Hn & Ha & Hs) Hf [v Hv].
  assert (at0 (m_tokens b) f = v) as Htf.
  { unfold at0. rewrite Ht, decide_False, Hv by done. done. }
  assert (at0 (m_tokens b0) f = v) as Htf0 by (unfold at0; by rewrite Hv).
  assert (at0 (m_need b) f = at0 (m_need b0) f) as Hnf.
  { unfold at0. by rewrite Hn, decide_False by done. }
  unfold addToken_step. rewrite Htf, Hc.
  set (b1 := if v <? double_of_int (m_capacity b0) then _ else _).
  assert (hasFaces b1 = hasFaces b0 /\ m_capacity b1 = m_capacity b0 /\
          m_need b1 = m_need b /\
          m_tokens b1 = (if v <? double_of_int (m_capacity b0)
                         then <[f := double_add v one]> (m_tokens b) else m_tokens b) /\
          m_atCapacity b1 = m_atCapacity b && negb (v <? double_of_int (m_capacity b0)))
    as (Hh1 & Hc1 & Hn1 & Ht1 & Ha1).
  { unfold b1. destruct (v <? _); simpl; rewrite ?andb_false_r, ?andb_true_r; done. }
  assert (at0 (m_need (set_need f (at0 (m_need b1) f) b1)) f = at0 (m_need b0) f) as Hn2.
  { unfold at0. simpl. rewrite lookup_insert_eq, Hn1. exact Hnf. }
  assert (at0 (m_tokens (set_need f (at0 (m_need b1) f) b1)) f
          = refill (m_capacity b0) v) as Ht2.
  { unfold at0, refill. simpl. rewrite Ht1. destruct (v <? _); simpl.
    - by rewrite lookup_insert_eq.
    - exact Htf. }
  rewrite Hn2, Ht2.
  assert (loop_inv b0 (done ++ [f])
    (set_need f (at0 (m_need b1) f) b1,
     callsend || wakes (at0 (m_need b0) f) (refill (m_capacity b0) v))) as Hgoal.
  { split_and!; simpl; [congruence|congruence| | | |].
    - intros g. rewrite Ht1. destruct (decide (g = f)) as [->|Hne].
      + rewrite decide_True by set_solver. rewrite Hv. simpl. unfold refill.
        destruct (v <? _); [by rewrite lookup_insert_eq|].
        by rewrite Ht, decide_False, Hv.
      + replace (if v <? double_of_int (m_capacity b0) then <[f:=double_add v one]> (m_tokens b) else m_tokens b) with (m_tokens b1) by done.
        assert (m_tokens b1 !! g = m_tokens b !! g) as ->.
        { rewrite Ht1. destruct (v <? _); [by rewrite lookup_insert_ne|done]. }
        rewrite Ht. repeat case_decide; set_solver.
    - intros g. rewrite Hn1. destruct (decide (g = f)) as [->|Hne].
      + rewrite lookup_insert_eq, decide_True by set_solver. by rewrite Hnf.
      + rewrite lookup_insert_ne, Hn by done. repeat case_decide; set_solver.
    - rewrite Ha1, Ha, forallb_app. simpl. by rewrite Htf0, andb_true_r.
    - rewrite Hs, existsb_app. simpl. by rewrite Htf0, orb_false_r. }
  unfold wakes in Hgoal.
  destruct (negb (at0 (m_need b0) f =? 0) && _); by rewrite ?orb_true_r, ?orb_false_r in Hgoal.
Qed.

Lemma addToken_loop_inv b0 fs : forall done st,
  loop_inv b0 done st -> NoDup (done ++ fs) ->
  (forall f, f ∈ fs -> is_Some (m_tokens b0 !! f)) ->
  loop_inv b0 (done ++ fs) (addToken_loop fs st).
Proof.
  induction fs as [|f fs IH]; intros done st Hinv Hnd Hin; simpl.
  - by rewrite app_nil_r.
  - replace (done ++ f :: fs) with ((done ++ [f]) ++ fs) in * by (by rewrite <-app_assoc).
    apply IH; [|done|set_solver].
    apply NoDup_app in Hnd as (Hnd & _ & _). apply NoDup_app in Hnd as (_ & Hd & _).
    apply addToken_step_inv; set_solver.
Qed.

Lemma keys_elem (m : gmap Z Z) f : f ∈ (fst <$> map_to_list m) <-> is_Some (m !! f).
Proof.
  rewrite list_elem_of_fmap. split.
  - intros ([g v] & -> & Hv). apply elem_of_map_to_list in Hv. eauto.
  - intros [v Hv]. exists (f, v). split; [done|]. by apply elem_of_map_to_list.
Qed.

Lemma forallb_keys (m : gmap Z Z) (p : Z -> Z -> bool) :
  forallb (fun f => p f (at0 m f)) (fst <$> map_to_list m) = forallb (fun '(f, v) => p f v) (map_to_list m).
Proof.
  assert (forall l : list (Z * Z), (forall f v, (f, v) ∈ l -> m !! f = Some v) ->
    forallb (fun f => p f (at0 m f)) (fst <$> l) = forallb (fun '(f, v) => p f v) l) as H.
  { induction l as [|[f v] l IH]; intros Hl; csimpl; [done|]. 
    rewrite IH by (intros; apply Hl; by right).
    unfold at0. by rewrite (Hl f v) by left. }
  apply H. intros f v. apply elem_of_map_to_list.
Qed.

Lemma existsb_keys (m : gmap Z Z) (p : Z -> Z -> bool) :
  existsb (fun f => p f (at0 m f)) (fst <$> map_to_list m) = existsb (fun '(f, v) => p f v) (map_to_list m).
Proof.
  assert (forall A (q : A -> bool) l, existsb q l = negb (forallb (fun x => negb (q x)) l)) as Hneg.
  { intros A q l. induction l as [|x l IH]; simpl; [done|]. rewrite IH. by destruct (q x). }
  rewrite !Hneg, (forallb_keys m (fun f v => negb (p f v))). f_equal.
  induction (map_to_list m) as [|[f v] l IH]; simpl; [done|]. by rewrite IH.
Qed.

Lemma forallb_perm {A} (p : A -> bool) l1 l2 : l1 ≡ₚ l2 -> forallb p l1 = forallb p l2.
Proof. induction 1; simpl; try congruence. by rewrite !andb_assoc, (andb_comm (p y)). Qed.

Lemma existsb_perm {A} (p : A -> bool) l1 l2 : l1 ≡ₚ l2 -> existsb p l1 = existsb p l2.
Proof. induction 1; simpl; try congruence. by rewrite !orb_assoc, (orb_comm (p y)). Qed.

(** The loop over any enumeration of the faces computes the specification. *)
Lemma addToken_loop_spec b fs :
  fs ≡ₚ (fst <$> map_to_list (m_tokens b)) ->
  addToken_loop fs (set_atCapacity true b, false) = addToken_spec b.
Proof.
  intros Hp.
  assert (loop_inv b fs (addToken_loop fs (set_atCapacity true b, false))) as Hinv.
  { apply (addToken_loop_inv b fs []).
    - split_and!; simpl; try done; intros f; by rewrite decide_False by set_solver.
    - simpl. rewrite Hp. apply NoDup_fst_map_to_list.
    - intros f Hf. rewrite Hp in Hf. by apply keys_elem. }
  destruct (addToken_loop _ _) as [b' cs]. destruct b' as [h a t n c].
  destruct Hinv as (Hh & Hc & Ht & Hn & Ha & Hs). simpl in *. unfold addToken_spec.
  assert (forall f, f ∈ fs <-> is_Some (m_tokens b !! f)) as Hk.
  { intros f. rewrite Hp. apply keys_elem. }
  f_equal; [f_equal; [done| | | |done]|].
  - rewrite Ha, (forallb_perm _ _ _ Hp).
    by rewrite <-(forallb_keys _ (fun _ v => negb (v <? double_of_int (m_capacity b)))).
  - apply map_eq. intros f. rewrite Ht, lookup_fmap. case_decide as Hf; [done|].
    rewrite Hk in Hf. destruct (m_tokens b !! f); [exfalso; eauto|done].
  - apply map_eq. intros f. rewrite Hn, lookup_union, lookup_fmap. unfold at0. case_decide as Hf.
    + apply Hk in Hf as [v ->]. simpl. by destruct (m_need b !! f).
    + destruct (m_tokens b !! f) eqn:E; [exfalso; apply Hf, Hk; eauto|]. simpl.
      by destruct (m_need b !! f).
  - rewrite Hs, (existsb_perm _ _ _ Hp).
    by rewrite <-(existsb_keys _ (fun f v => wakes (at0 (m_need b) f) (refill (m_capacity b) v))).
Qed.

Lemma addToken_eq b : addToken b = addToken_spec b.
Proof. by apply addToken_loop_spec. Qed.

(** A refill gives the same result for every iteration order of the hash
    map: each face below capacity gains exactly one token, the others are
    unchanged, the bucket is at capacity exactly when every face was, and
    [send] is emitted exactly when some waiting face has enough tokens. *)
Theorem addToken_any_order b fs :
  fs ≡ₚ (fst <$> map_to_list (m_tokens b)) ->
  addToken_loop fs (set_atCapacity true b, false) = addToken_spec b /\
  addToken b = addToken_spec b.
Proof. intros Hp. split; [by apply addToken_loop_spec|apply addToken_eq]. Qed.

(** ** Token counts stay within the capacity *)

(** A count of [k] whole tokens, the values the strategy produces. *)
Definition whole (k : Z) : Z := k * 2 ^ 1074.

(** Every face holds a whole number of tokens between 0 and the capacity, and
    the capacity is an [int] that [double] represents exactly. *)
Definition bucket_ok (b : TokenBucket) : Prop :=
  0 <= m_capacity b < 2 ^ 31 /\
  forall f v, m_tokens b !! f = Some v -> exists k, 0 <= k <= m_capacity b /\ v = whole k.

Lemma double_int k : 0 <= k < 2 ^ 53 -> double_of_int k = whole k.
Proof. intros. unfold whole. apply of_int_exact; lia. Qed.

Lemma whole_lt j k : whole j < whole k <-> j < k.
Proof. unfold whole. split; nia. Qed.

Lemma whole_fround j : 0 <= j < 2 ^ 53 -> fround 53 (whole j) 1 = whole j.
Proof.
  intros. rewrite <-(Z.mul_1_r (whole j)) at 1. apply fround_repr; [lia..|].
  unfold whole. by apply repr_int.
Qed.

Lemma refill_whole cap k :
  0 <= k <= cap -> cap < 2 ^ 31 ->
  refill cap (whole k) = whole (Z.min cap (k + 1)).
Proof.
  intros Hk Hc. unfold refill, one. rewrite fadd_def, !double_int by lia.
  destruct (whole k <? whole cap) eqn:E; breflect.
  - rewrite whole_lt in E. replace (whole k + whole 1) with (whole (k + 1)) by (unfold whole; lia).
    rewrite whole_fround by lia. f_equal. lia.
  - assert (~ k < cap) by (rewrite <-whole_lt; lia). f_equal. lia.
Qed.

(** The count [prioritySend] reads for a face: a face without an entry has the
    capacity. *)
Definition available (b : TokenBucket) (f : Z) : Z :=
  match m_tokens b !! f with Some v => v | None => double_of_int (m_capacity b) end.

(** How the strategy uses a bucket: the token driver refills it, and a packet
    sent on a face consumes one token of a face that has at least one. *)
Inductive event := Refill | Consume (f : Z).

#[global] Instance event_eq_dec : EqDecision event.
Proof. solve_decision. Defined.

Inductive step : TokenBucket -> event -> TokenBucket -> Prop :=
| step_refill b : step b Refill (fst (addToken b))
| step_consume b f :
    one <= available b f -> step b (Consume f) (fst (consumeToken one f b)).

Inductive run : TokenBucket -> list event -> TokenBucket -> Prop :=
| run_nil b : run b [] b
| run_cons b e b' es b'' : step b e b' -> run b' es b'' -> run b (e :: es) b''.

Definition consumed (f : Z) (es : list event) : Z :=
  Z.of_nat (length (filter (fun e => e = Consume f) es)).
Definition refills (es : list event) : Z :=
  Z.of_nat (length (filter (fun e => e = Refill) es)).

Lemma available_ok b f :
  bucket_ok b -> exists k, 0 <= k <= m_capacity b /\ available b f = whole k.
Proof.
  intros [Hc Hb]. unfold available. destruct (m_tokens b !! f) eqn:E; [by eapply Hb|].
  exists (m_capacity b). split; [lia|]. apply double_int. lia.
Qed.

Lemma one_whole : one = whole 1.
Proof. by apply double_int. Qed.

Lemma consumeToken_eq b f k :
  bucket_ok b -> available b f = whole k -> 1 <= k ->
  m_tokens (fst (consumeToken one f b)) = <[f := whole (k - 1)]> (m_tokens b) /\
  m_capacity (fst (consumeToken one f b)) = m_capacity b.
Proof.
  intros [Hc Hb] Ha Hk.
  assert (k <= m_capacity b) as Hkc.
  { destruct (available_ok b f (conj Hc Hb)) as (k' & Hk' & Ha').
    rewrite Ha in Ha'. unfold whole in Ha'. nia. }
  unfold consumeToken. unfold available in Ha.
  destruct (m_tokens b !! f) eqn:E, (m_atCapacity b) eqn:Eat; simpl;
    rewrite ?Eat; simpl; (split; [|done]); unfold at0; rewrite ?lookup_insert_eq, ?insert_insert_eq, ?E; simpl; f_equal;
    rewrite Ha, one_whole, fsub_def;
    (replace (whole k - whole 1) with (whole (k - 1)) by (unfold whole; lia));
    apply whole_fround; lia.
Qed.

Lemma consumeToken_ok b f :
  bucket_ok b -> one <= available b f -> bucket_ok (fst (consumeToken one f b)).
Proof.
  intros Hb H1. destruct (available_ok b f Hb) as (k & Hk & Ha).
  assert (1 <= k) by (rewrite Ha, one_whole in H1; unfold whole in H1; nia).
  destruct (consumeToken_eq b f k Hb Ha) as [Ht Hcap]; [done|].
  destruct Hb as [Hc Hb]. split; [by rewrite Hcap|]. rewrite Ht, Hcap.
  intros g v. rewrite lookup_insert. case_decide; [|apply Hb].
  intros. simplify_eq. exists (k - 1). split; [lia|done].
Qed.

Lemma step_ok b e b' : bucket_ok b -> step b e b' -> bucket_ok b'.
Proof.
  intros Hb Hs. inversion Hs; subst; [|by apply consumeToken_ok].
  rewrite addToken_eq. destruct Hb as [Hc Hb]. split; [done|]. simpl.
  intros f v. rewrite lookup_fmap. intros (w & Hw & ->)%fmap_Some.
  apply Hb in Hw as (k & Hk & ->). rewrite refill_whole by lia.
  exists (Z.min (m_capacity b) (k + 1)). split; [lia|done].
Qed.

(** No sequence of refills and guarded consumptions takes a face's count
    out of the range from 0 to the capacity. *)
Theorem tokens_within_capacity b es b' :
  bucket_ok b -> run b es b' -> bucket_ok b'.
Proof. intros Hb Hr. induction Hr; eauto using step_ok. Qed.

Lemma step_credit b e b' f k :
  bucket_ok b -> step b e b' -> available b f = whole k ->
  exists k', available b' f = whole k' /\
    k' + consumed f [e] <= k + refills [e].
Proof.
  intros Hb Hs Ha. inversion Hs as [b0|b0 g Hg]; subst; unfold consumed, refills; simpl.
  - rewrite addToken_eq. unfold available in *. simpl. rewrite lookup_fmap.
    destruct (m_tokens b !! f) eqn:E; simpl; [|exists k; split; [done|lia]].
    destruct Hb as [Hc Hb]. destruct (Hb _ _ E) as (j & Hj & ->).
    assert (j = k) as -> by (unfold whole in Ha; nia).
    rewrite refill_whole by lia. eexists. split; [done|]. lia.
  - destruct (available_ok b g Hb) as (j & Hj & Hag).
    assert (1 <= j) by (rewrite Hag, one_whole in Hg; unfold whole in Hg; nia).
    destruct (consumeToken_eq b g j Hb Hag) as [Ht Hcap]; [done|].
    unfold available in *. rewrite Ht, Hcap. rewrite lookup_insert.
    destruct (decide (g = f)) as [->|Hne].
    + rewrite Hag in Ha. assert (j = k) as -> by (unfold whole in Ha; nia).
      exists (k - 1). rewrite filter_cons, !decide_True by done. split; [done|]. simpl. lia.
    + exists k. rewrite filter_cons, !decide_False by congruence. split; [done|]. simpl. lia.
Qed.

Lemma consumed_cons f e es : consumed f (e :: es) = consumed f [e] + consumed f es.
Proof. unfold consumed. rewrite !filter_cons, filter_nil. case_decide; simpl; lia. Qed.
Lemma refills_cons e es : refills (e :: es) = refills [e] + refills es.
Proof. unfold refills. rewrite !filter_cons, filter_nil. case_decide; simpl; lia. Qed.

(** C8: rate limiting. Over any run, the packets charged to a face number at
    most the tokens it had plus one per refill: a face that starts with [k]
    whole tokens sends at most [k + refills] packets. *)
Theorem token_rate_limit b es b' f k :
  bucket_ok b -> run b es b' -> available b f = whole k ->
  consumed f es <= k + refills es.
Proof.
  intros Hb Hr. revert k Hb. induction Hr as [b|b e b1 es b2 Hs Hr IH]; intros k Hb Ha.
  - destruct (available_ok b f Hb) as (j & Hj & Ha'). unfold consumed, refills. simpl.
    unfold whole in *. rewrite Ha in Ha'. nia.
  - destruct (step_credit b e b1 f k Hb Hs Ha) as (k' & Ha' & Hle).
    specialize (IH k' (step_ok _ _ _ Hb Hs) Ha').
    rewrite consumed_cons, refills_cons. lia.
Qed.

(** ** Concrete runs *)

Definition example_bucket : TokenBucket :=
  mkTokenBucket true false {[ 1 := whole 1; 2 := whole 3 ]} {[ 1 := whole 2 ]} 3.

Lemma example_bucket_ok : bucket_ok example_bucket.
Proof.
  split; [simpl; lia|]. intros f v. simpl. rewrite lookup_insert. case_decide.
  - intros. simplify_eq. exists 1. split; [lia|done].
  - rewrite lookup_singleton. case_decide; [|done]. intros. simplify_eq.
    exists 3. split; [lia|done].
Qed.

Lemma addToken_any_order_witness :
  snd (addToken example_bucket) = true /\
  addToken_loop [2; 1] (set_atCapacity true example_bucket, false) = addToken_spec example_bucket.
Proof.
  split; [vm_compute; reflexivity|].
  apply (addToken_any_order example_bucket [2; 1]).
  vm_compute. apply perm_swap || reflexivity.
Defined.

Lemma example_run :
  run example_bucket [Consume 2; Refill] (fst (addToken (fst (consumeToken one 2 example_bucket)))).
Proof.
  eapply run_cons; [apply step_consume; by vm_compute|].
  eapply run_cons; [apply step_refill|]. apply run_nil.
Qed.

Lemma tokens_within_capacity_witness :
  bucket_ok (fst (addToken (fst (consumeToken one 2 example_bucket)))).
Proof.
  apply (tokens_within_capacity example_bucket [Consume 2; Refill]);
    [apply example_bucket_ok|apply example_run].
Defined.

Lemma token_rate_limit_witness : consumed 2 [Consume 2; Refill] <= 3 + refills [Consume 2; Refill].
Proof.
  apply (token_rate_limit example_bucket _ (fst (addToken (fst (consumeToken one 2 example_bucket)))) 2 3);
    [apply example_bucket_ok|apply example_run|vm_compute; reflexivity].
Defined.

End TB.
