(* ===== verification/QosQueue.v ===== *)
(** * QoS queues and the weighted fair transmit queue

    Models [daemon/fw/ndn-qos-queue.hpp/.cpp] (a bounded FIFO with a weight and a
    last virtual finish time) and [daemon/fw/ndn-priority-tx-queue.hpp/.cpp] (one
    such FIFO per priority level, with weighted fair selection among the levels
    that hold a token). An access to a vector beyond its size is undefined
    behaviour in the code; the operations that can do it return [None] there. *)

From S2P Require Import Prelude Fp.
Local Open Scope Z_scope.

(** What the queues use of [ndn::Block], which ndn-cxx defines: the block a
    default item holds and the size in octets of a block's encoding. *)
Class NdnBlock (B : Type) := { block0 : B; block_size : B -> Z }.

Inductive QosPacketType := INVALID | INTEREST | DATA | NACK.

Section QosQueue.
Context {B P : Type} `{NdnBlock B}.

(** [pitEntry] is a shared pointer, [inface] and [outface] are pointers: a
    missing value is a null pointer, a face is named by its identifier. *)
Record QueueItem := mkQueueItem {
  wireEncode : B;
  packetType : QosPacketType;
  pitEntry : option P;
  inface : option Z;
  outface : option Z
}.

Definition defaultItem : QueueItem := mkQueueItem block0 INVALID None None None.
Definition itemOfPit (pe : P) : QueueItem := mkQueueItem block0 INVALID (Some pe) None None.

Record QosQueue := mkQosQueue {
  m_maxQueueSize : Z;              (* uint32_t *)
  m_weight : Z;                    (* float *)
  m_lastVirtualFinishTime : Z;     (* uint64_t, milliseconds *)
  m_queue : list QueueItem
}.

Definition QUEUE_SIZE : Z := 10.

Definition newQosQueue : QosQueue := mkQosQueue QUEUE_SIZE 0 0 [].

Definition SetMaxQueueSize (size : Z) (q : QosQueue) : QosQueue :=
  mkQosQueue size (m_weight q) (m_lastVirtualFinishTime q) (m_queue q).
Definition SetWeight (w : Z) (q : QosQueue) : QosQueue :=
  mkQosQueue (m_maxQueueSize q) w (m_lastVirtualFinishTime q) (m_queue q).
Definition SetLastVirtualFinishTime (lvft : Z) (q : QosQueue) : QosQueue :=
  mkQosQueue (m_maxQueueSize q) (m_weight q) lvft (m_queue q).
Definition SetQueue (l : list QueueItem) (q : QosQueue) : QosQueue :=
  mkQosQueue (m_maxQueueSize q) (m_weight q) (m_lastVirtualFinishTime q) l.

Definition Enqueue (item : QueueItem) (q : QosQueue) : QosQueue * bool :=
  if Z.of_nat (length (m_queue q)) <? m_maxQueueSize q
  then (SetQueue (m_queue q ++ [item]) q, true)
  else (q, false).

Definition Dequeue (q : QosQueue) : QosQueue * QueueItem :=
  match m_queue q with
  | [] => (q, defaultItem)
  | item :: rest => (SetQueue rest q, item)
  end.

Definition IsEmpty (q : QosQueue) : bool :=
  match m_queue q with [] => true | _ => false end.

Definition GetFirstElement (q : QosQueue) : QueueItem :=
  match m_queue q with [] => defaultItem | item :: _ => item end.

(** ** The transmit queue *)

Record NdnPriorityTxQueue := mkTxQueue {
  m_priorityQueues : list QosQueue;
  totalQueues : Z
}.

(** The constructor leaves [totalQueues] uninitialised: it holds [junk]. *)
Definition newTxQueue (junk : Z) : NdnPriorityTxQueue := mkTxQueue [] junk.

(** The body of the loop of [initialize] for index [i]. *)
Definition initialize_step (queues : Z) (qs : list QosQueue) (i : nat) : list QosQueue :=
  let qs := qs ++ [newQosQueue] in
  alter (SetWeight (float_of_int (queues - Z.of_nat i))) i qs.

Definition initialize (queues : Z) (t : NdnPriorityTxQueue) : NdnPriorityTxQueue :=
  mkTxQueue (foldl (initialize_step queues) (m_priorityQueues t) (seq 0 (Z.to_nat queues))) queues.

(** The queues the loops [for (i = 0; i < totalQueues; i++)] visit, when all of
    them exist. *)
Definition levels (t : NdnPriorityTxQueue) : option (list QosQueue) :=
  if totalQueues t <=? Z.of_nat (length (m_priorityQueues t))
  then Some (take (Z.to_nat (totalQueues t)) (m_priorityQueues t))
  else None.

Definition GetFlowRate (t : NdnPriorityTxQueue) (queue : QosQueue) : option Z :=
  qs ← levels t;
  let total_weight := foldl (fun w q => float_add w (m_weight q)) 0 qs in
  Some (float_div (m_weight queue) total_weight).

(** [virtualStartTime + packet.size() * (1 - GetFlowRate(queue))]: the integers
    are converted to [float] and the sum is truncated back to [uint64_t]. That
    conversion is undefined from [2 ^ 64] on; by [virtualFinish_range] the sum is
    far below it until the clock reaches [2 ^ 40] milliseconds. *)
Definition virtualFinish (start size rate : Z) : Z :=
  float_to_int
    (float_add (float_of_int start)
       (float_mul (float_of_int size) (float_sub (float_of_int 1) rate))).

Definition UpdateTime (now : Z) (t : NdnPriorityTxQueue) (packet : B) (i : nat) :
    option NdnPriorityTxQueue :=
  queue ← m_priorityQueues t !! i;
  rate ← GetFlowRate t queue;
  let virtualStartTime := Z.max now (m_lastVirtualFinishTime queue) in
  let virtualFinishTime := u64 (virtualFinish virtualStartTime (block_size packet) rate) in
  Some (mkTxQueue (<[i := SetLastVirtualFinishTime virtualFinishTime queue]> (m_priorityQueues t))
                  (totalQueues t)).

Definition FLT_MAX : Z := (2 ^ 24 - 1) * 2 ^ (104 + 149).

(** The loop of [SelectQueueToSend] over the queues from index [i] on;
    [tokens[i]] is read only for a queue that is not empty. *)
Fixpoint select_loop (i : Z) (qs : list QosQueue) (tokens : list Z) (minVFT : Z) (squeue : Z) :
    option Z :=
  match qs with
  | [] => Some squeue
  | q :: qs' =>
      if IsEmpty q then select_loop (i + 1) qs' (tail tokens) minVFT squeue
      else
        tk ← head tokens;
        let vft := float_of_int (m_lastVirtualFinishTime q) in
        if (double_of_int 1 <=? tk) && (vft <? minVFT)
        then select_loop (i + 1) qs' (tail tokens) vft i
        else select_loop (i + 1) qs' (tail tokens) minVFT squeue
  end.

Definition SelectQueueToSend (tokens : list Z) (t : NdnPriorityTxQueue) : option Z :=
  match m_priorityQueues t with
  | [] => None (* &m_priorityQueues[0] of an empty vector *)
  | _ => qs ← levels t; select_loop 0 qs tokens FLT_MAX (-1)
  end.

(** Indexing with a level that is negative or too large is undefined. *)
Definition level_at (i : Z) (l : list QosQueue) : option QosQueue := if i <? 0 then None else l !! Z.to_nat i.

Definition DoEnqueue (now : Z) (item : QueueItem) (pr_level : Z) (t : NdnPriorityTxQueue) :
    option (NdnPriorityTxQueue * bool) :=
  queue ← level_at pr_level (m_priorityQueues t);
  let '(queue, ok) := Enqueue item queue in
  if ok then
    let t := mkTxQueue (<[Z.to_nat pr_level := queue]> (m_priorityQueues t)) (totalQueues t) in
    t ← UpdateTime now t (wireEncode item) (Z.to_nat pr_level);
    Some (t, true)
  else Some (t, false).

Definition TxIsEmpty (t : NdnPriorityTxQueue) : option bool :=
  qs ← levels t;
  Some (foldl (fun empty q => empty && IsEmpty q) true qs).

Definition DoDequeue (choice : Z) (t : NdnPriorityTxQueue) :
    option (NdnPriorityTxQueue * QueueItem) :=
  empty ← TxIsEmpty t;
  if negb empty then
    queue ← level_at choice (m_priorityQueues t);
    let '(queue, item) := Dequeue queue in
    Some (mkTxQueue (<[Z.to_nat choice := queue]> (m_priorityQueues t)) (totalQueues t), item)
  else Some (t, defaultItem).

Definition tokenReq (bucket : Z) (t : NdnPriorityTxQueue) : option Z :=
  queue ← level_at bucket (m_priorityQueues t);
  Some (if negb (IsEmpty queue) then 1 else 0).

Lemma level_at_nat (i : nat) l : level_at (Z.of_nat i) l = l !! i.
Proof. unfold level_at. by rewrite (proj2 (Z.ltb_ge _ _)), Nat2Z.id by lia. Qed.

(** ** Well-formed transmit queues *)

Definition queue_ok (q : QosQueue) : Prop :=
  Z.of_nat (length (m_queue q)) <= m_maxQueueSize q /\
  0 < m_weight q /\ representable 24 (m_weight q) /\
  0 <= m_lastVirtualFinishTime q < 2 ^ 64.

Definition tx_ok (t : NdnPriorityTxQueue) : Prop :=
  totalQueues t = Z.of_nat (length (m_priorityQueues t)) /\ 0 < totalQueues t /\
  Forall queue_ok (m_priorityQueues t).

(** The executable form of the well-formedness test. *)
Definition queue_okb (q : QosQueue) : bool :=
  (Z.of_nat (length (m_queue q)) <=? m_maxQueueSize q) && (0 <? m_weight q) &&
  (fround 24 (m_weight q) 1 =? m_weight q) &&
  (0 <=? m_lastVirtualFinishTime q) && (m_lastVirtualFinishTime q <? 2 ^ 64).

Definition tx_okb (t : NdnPriorityTxQueue) : bool :=
  (totalQueues t =? Z.of_nat (length (m_priorityQueues t))) && (0 <? totalQueues t) &&
  forallb queue_okb (m_priorityQueues t).

Lemma tx_okb_sound t : tx_okb t = true -> tx_ok t.
Proof.
  unfold tx_okb. intros Ht. breflect. split_and!; [done|done|].
  match goal with Hf : forallb _ _ = true |- _ => rewrite forallb_forall in Hf; rename Hf into Hall end.
  apply Forall_forall. intros q Hq%list_elem_of_In%Hall. unfold queue_okb in Hq. breflect.
  split_and!; try done.
  match goal with Hf : fround _ _ _ = _ |- _ => rewrite <-Hf end. apply repr_fround; lia.
Qed.

Lemma levels_ok t : tx_ok t -> levels t = Some (m_priorityQueues t).
Proof.
  intros (Ht & _ & _). unfold levels. rewrite Ht, Z.leb_refl, Nat2Z.id. by rewrite firstn_all.
Qed.

Lemma initialize_prefix n : forall k, (k <= n)%nat ->
  foldl (initialize_step (Z.of_nat n)) [] (seq 0 k) =
  (fun i => SetWeight (float_of_int (Z.of_nat n - Z.of_nat i)) newQosQueue) <$> seq 0 k.
Proof.
  induction k as [|k IH]; intros Hk; [done|].
  rewrite seq_S, foldl_app, IH by lia. simpl. unfold initialize_step.
  rewrite fmap_app. simpl. set (l := _ <$> seq 0 k).
  assert (length l = k) as Hl by (unfold l; by rewrite length_fmap, length_seq).
  rewrite <-Hl at 2. rewrite <-(Nat.add_0_r (length l)) at 1. rewrite alter_app_r. done.
Qed.

Lemma initialize_ok n junk :
  (0 < n)%nat -> Z.of_nat n < 2 ^ 24 ->
  let t := initialize (Z.of_nat n) (newTxQueue junk) in
  tx_ok t /\ TxIsEmpty t = Some true /\
  forall i, (i < n)%nat -> exists q, m_priorityQueues t !! i = Some q /\
    m_queue q = [] /\ m_maxQueueSize q = QUEUE_SIZE /\
    m_weight q = float_of_int (Z.of_nat n - Z.of_nat i).
Proof.
  intros Hn Hb. cbv zeta. unfold initialize, newTxQueue. simpl.
  rewrite Nat2Z.id, initialize_prefix by lia.
  set (mk := fun i : nat => _).
  assert (forall i, (i < n)%nat -> queue_ok (mk i)) as Hok.
  { intros i Hi. unfold mk, queue_ok. simpl. unfold QUEUE_SIZE.
    rewrite of_int_exact by lia. split_and!; try lia. apply repr_int; lia. }
  assert (tx_ok (mkTxQueue (mk <$> seq 0 n) (Z.of_nat n))) as Htx.
  { split_and!; simpl; [by rewrite length_fmap, length_seq|lia|].
    apply Forall_fmap, Forall_forall. intros i Hi%elem_of_seq. apply Hok. lia. }
  split_and!; [done| |].
  - unfold TxIsEmpty. rewrite levels_ok by done. simpl. f_equal.
    clear Htx Hok. induction (seq 0 n) as [|i l IH]; [done|]. exact IH.
  - intros i Hi. exists (mk i). rewrite list_lookup_fmap, lookup_seq_lt by lia. done.
Qed.

(** ** Virtual finish times *)

Lemma total_weight_ge qs : forall acc,
  Forall queue_ok qs -> 0 <= acc -> representable 24 acc ->
  let total := foldl (fun w q => float_add w (m_weight q)) acc qs in
  acc <= total /\ representable 24 total /\ forall q, q ∈ qs -> m_weight q <= total.
Proof.
  induction qs as [|q qs IH]; intros acc Hqs Hacc Hr; simpl.
  { split_and!; [lia|done|set_solver]. }
  apply Forall_cons in Hqs as [(Hl & Hw & Hrw & Ht) Hqs].
  assert (acc <= float_add acc (m_weight q)) by (rewrite fadd_def; apply fround_ge_repr; [lia|lia|done|lia]).
  assert (m_weight q <= float_add acc (m_weight q)) by (rewrite fadd_def; apply fround_ge_repr; [lia|lia|done|lia]).
  destruct (IH (float_add acc (m_weight q)) Hqs) as (HA & HB & HC); [lia| |].
  { rewrite fadd_def. apply repr_fround; lia. }
  split_and!; [lia|done|]. intros q' [->|Hq']%elem_of_cons; [lia|by apply HC].
Qed.

Lemma flow_rate_le_one t i q :
  tx_ok t -> m_priorityQueues t !! i = Some q ->
  exists rate, GetFlowRate t q = Some rate /\ 0 <= rate <= float_of_int 1.
Proof.
  intros Hok Hq. unfold GetFlowRate. rewrite levels_ok by done. simpl.
  destruct Hok as (_ & _ & Hqs).
  destruct (total_weight_ge (m_priorityQueues t) 0 Hqs) as (H0 & Hr & Hw); [lia| |].
  { exists 0, 0. split_and!; lia. }
  set (total := foldl _ _ _) in *. eexists. split; [done|].
  assert (m_weight q <= total) by (apply Hw, list_elem_of_lookup; eauto).
  assert (0 < m_weight q) by (rewrite Forall_lookup in Hqs; by apply Hqs in Hq as (_ & ? & _)).
  rewrite fdiv_def. split; [apply fround_nonneg; lia|].
  rewrite (of_int_exact 24) by lia. apply fround_le_repr; try lia.
  by apply repr_int.
Qed.

Lemma virtualFinish_ge start size rate :
  0 <= start < 2 ^ 24 -> 0 <= size -> 0 <= rate <= float_of_int 1 ->
  start <= virtualFinish start size rate.
Proof.
  intros Hs Hz Hr. unfold virtualFinish.
  set (cost := float_mul _ _).
  assert (0 <= cost) as Hc.
  { unfold cost; rewrite fmul_def. apply fround_nonneg; [lia|lia|]. apply Z.mul_nonneg_nonneg.
    - rewrite of_int_def. apply fround_nonneg; lia.
    - rewrite fsub_def. apply fround_nonneg; lia. }
  rewrite (of_int_exact 24) by lia.
  assert (start * 2 ^ 149 <= float_add (start * 2 ^ 149) cost) as Hge.
  { rewrite fadd_def. apply fround_ge_repr; [lia|lia| |lia]. by apply repr_int. }
  rewrite to_int_def. apply Z.quot_le_lower_bound; lia.
Qed.

Lemma virtualFinish_le start size rate :
  0 <= start < 2 ^ 24 -> 0 <= size <= 2 ^ 23 -> 0 <= rate <= float_of_int 1 ->
  virtualFinish start size rate <= 2 ^ 25.
Proof.
  intros Hs Hz Hr. unfold virtualFinish.
  rewrite !(of_int_exact 24) in * by lia.
  assert (float_sub (1 * 2 ^ 149) rate <= 1 * 2 ^ 149) as H1.
  { rewrite fsub_def. apply fround_le_repr; try lia. by apply repr_int. }
  assert (0 <= float_sub (1 * 2 ^ 149) rate) as H0 by (rewrite fsub_def; apply fround_nonneg; lia).
  set (f := float_sub _ _) in *.
  assert (0 <= float_mul (size * 2 ^ 149) f <= 2 ^ 23 * 2 ^ 149) as Hc.
  { rewrite fmul_def. split; [apply fround_nonneg; nia|].
    apply fround_le_repr; [lia|lia|nia| |nia]. by apply repr_int. }
  set (cost := float_mul _ _) in *.
  assert (float_add (start * 2 ^ 149) cost <= 2 ^ 25 * 2 ^ 149) as Ha.
  { rewrite fadd_def. apply fround_le_repr; [lia|lia|lia| |lia].
    exists 1, (25 + 149). split_and!; lia. }
  rewrite to_int_def. apply Z.quot_le_upper_bound; lia.
Qed.

(** Finish times stay below [2 ^ 40] with the clock, since a packet's cost is then less than half of the distance between two floats. *)
Lemma virtualFinish_range start size rate :
  0 <= start <= 2 ^ 40 -> 0 <= size <= 2 ^ 15 -> 0 <= rate <= float_of_int 1 ->
  0 <= virtualFinish start size rate <= 2 ^ 40.
Proof.
  intros Hs Hz Hr. unfold virtualFinish. assert (float_of_int size = size * 2 ^ 149) as -> by (apply (of_int_exact 24); lia).
  assert (float_of_int 1 = 1 * 2 ^ 149) as E1 by (apply (of_int_exact 24); lia). rewrite E1 in *.
  assert (float_sub (1 * 2 ^ 149) rate <= 1 * 2 ^ 149) as H1 by (rewrite fsub_def; apply fround_le_repr; try lia; by apply repr_int).
  assert (0 <= float_sub (1 * 2 ^ 149) rate) as H0 by (rewrite fsub_def; apply fround_nonneg; lia).
  set (f := float_sub _ _) in *.
  assert (0 <= float_mul (size * 2 ^ 149) f <= 2 ^ 15 * 2 ^ 149) as Hc.
  { rewrite fmul_def. split; [apply fround_nonneg; nia|]. apply fround_le_repr; [lia|lia|nia| |nia]. by apply repr_int. }
  set (cost := float_mul _ _) in *.
  assert (0 <= float_of_int start <= 2 ^ 40 * 2 ^ 149) as Hst.
  { rewrite of_int_def. split; [apply fround_nonneg; lia|]. apply fround_le_repr; [lia|lia|nia| |nia]. exists 1, (40 + 149). split_and!; lia. }
  assert (0 <= float_add (float_of_int start) cost <= 2 ^ 40 * 2 ^ 149) as Ha.
  { rewrite fadd_def. split; [apply fround_nonneg; lia|].
    etrans; [apply (fround_mono 24 ltac:(lia) _ 1 (2 ^ 40 * 2 ^ 149 + 2 ^ 15 * 2 ^ 149) 1); lia|]. by vm_compute. }
  rewrite to_int_def. split; [apply Z.quot_pos; lia|]. apply Z.quot_le_upper_bound; lia.
Qed.

(** The levels other than [i] are those of [t], and level [i] holds [l]. *)
Definition only_level (i : nat) (l : list (QueueItem)) (t t' : NdnPriorityTxQueue) : Prop :=
  totalQueues t' = totalQueues t /\
  length (m_priorityQueues t') = length (m_priorityQueues t) /\
  (forall j, j <> i -> m_priorityQueues t' !! j = m_priorityQueues t !! j) /\
  exists q', m_priorityQueues t' !! i = Some q' /\ m_queue q' = l.

Lemma insert_level_ok t i q :
  tx_ok t -> queue_ok q -> tx_ok (mkTxQueue (<[i := q]> (m_priorityQueues t)) (totalQueues t)).
Proof.
  intros (Ht & Hp & Hqs) Hq. split_and!; simpl; [by rewrite length_insert|done|].
  by apply Forall_insert.
Qed.

Lemma DoEnqueue_full now item i q t :
  m_priorityQueues t !! i = Some q -> m_maxQueueSize q <= Z.of_nat (length (m_queue q)) ->
  DoEnqueue now item (Z.of_nat i) t = Some (t, false).
Proof.
  intros Hq Hfull. unfold DoEnqueue. rewrite level_at_nat, Hq. simpl. unfold Enqueue.
  by rewrite (proj2 (Z.ltb_ge _ _)).
Qed.

Lemma DoEnqueue_room now item i q t :
  tx_ok t -> m_priorityQueues t !! i = Some q ->
  Z.of_nat (length (m_queue q)) < m_maxQueueSize q ->
  exists rate, 0 <= rate <= float_of_int 1 /\
  let lvft := u64 (virtualFinish (Z.max now (m_lastVirtualFinishTime q))
                     (block_size (wireEncode item)) rate) in
  DoEnqueue now item (Z.of_nat i) t =
    Some (mkTxQueue (<[i := SetLastVirtualFinishTime lvft
                              (SetQueue (m_queue q ++ [item]) q)]> (m_priorityQueues t))
                    (totalQueues t), true).
Proof.
  intros Hok Hq Hroom. pose proof (lookup_lt_Some _ _ _ Hq) as Hi.
  unfold DoEnqueue. rewrite level_at_nat, Nat2Z.id, Hq. cbn [mbind option_bind]. unfold Enqueue.
  rewrite (proj2 (Z.ltb_lt _ _)) by done.
  set (q1 := SetQueue _ q). set (t1 := mkTxQueue (<[i := q1]> _) _).
  assert (queue_ok q1) as Hq1.
  { destruct Hok as (_ & _ & Hqs). rewrite Forall_lookup in Hqs.
    apply Hqs in Hq as (Hlen & Hw & Hrw & Hv). split; [|done].
    unfold q1. simpl. rewrite length_app. simpl. lia. }
  assert (m_priorityQueues t1 !! i = Some q1) as Ht1 by (simpl; by rewrite list_lookup_insert_eq).
  destruct (flow_rate_le_one t1 i q1) as (rate & Hrate & Hr);
    [by apply insert_level_ok|done|].
  exists rate. split; [done|]. unfold UpdateTime. rewrite Ht1. simpl. rewrite Hrate. simpl.
  unfold t1. simpl. by rewrite list_insert_insert_eq.
Qed.

(** Enqueueing at an existing level is always defined. *)
Lemma DoEnqueue_total now item i t :
  tx_ok t -> (i < length (m_priorityQueues t))%nat ->
  exists t' ok, DoEnqueue now item (Z.of_nat i) t = Some (t', ok) /\ tx_ok t' /\
    length (m_priorityQueues t') = length (m_priorityQueues t) /\
    forall j q', m_priorityQueues t' !! j = Some q' -> exists q, m_priorityQueues t !! j = Some q /\
      (m_queue q' = m_queue q \/ j = i /\ m_queue q' = m_queue q ++ [item]).
Proof.
  intros Hok [q Hq]%lookup_lt_is_Some.
  destruct (Z.lt_ge_cases (Z.of_nat (length (m_queue q))) (m_maxQueueSize q)) as [Hlt|Hge].
  2:{ exists t, false. rewrite (DoEnqueue_full now item i q t) by done. split_and!; [done..|]. eauto. }
  destruct (DoEnqueue_room now item i q t Hok Hq Hlt) as (rate & _ & ->).
  assert (queue_ok q) as (Hlen & Hw & Hrw & Hv).
  { destruct Hok as (_ & _ & Hqs). rewrite Forall_lookup in Hqs. by eapply Hqs. }
  eexists _, true. split_and!; [done| |simpl; by rewrite length_insert|].
  - apply insert_level_ok; [done|]. split_and!; simpl; try done.
    + rewrite length_app. simpl. lia.
    + apply u64_range.
    + apply u64_range.
  - simpl. intros j q' Hj. destruct (decide (i = j)) as [->|Hne].
    + rewrite list_lookup_insert_eq in Hj by (by eapply lookup_lt_Some). simplify_eq. eauto.
    + rewrite list_lookup_insert_ne in Hj by done. eauto.
Qed.

(** Enqueueing at a level appends the packet to that level's FIFO and to no
    other, keeps the queue well formed, and moves the level's virtual finish
    time to at least the start time; a full level refuses the packet and
    nothing changes. The start time and the size are those [float] represents. *)
Theorem DoEnqueue_correct now item i q t :
  tx_ok t -> m_priorityQueues t !! i = Some q ->
  0 <= now < 2 ^ 24 -> m_lastVirtualFinishTime q < 2 ^ 24 ->
  0 <= block_size (wireEncode item) <= 2 ^ 23 ->
  exists t' ok, DoEnqueue now item (Z.of_nat i) t = Some (t', ok) /\ tx_ok t' /\
    if ok then
      only_level i (m_queue q ++ [item]) t t' /\
      exists q', m_priorityQueues t' !! i = Some q' /\
        Z.max now (m_lastVirtualFinishTime q) <= m_lastVirtualFinishTime q' <= 2 ^ 25
    else t' = t /\ Z.of_nat (length (m_queue q)) = m_maxQueueSize q.
Proof.
  intros Hok Hq Hnow Hlv Hsz. pose proof (lookup_lt_Some _ _ _ Hq) as Hi.
  assert (queue_ok q) as (Hlen & Hw & Hrw & Hv).
  { destruct Hok as (_ & _ & Hqs). rewrite Forall_lookup in Hqs. by eapply Hqs. }
  destruct (Z.lt_ge_cases (Z.of_nat (length (m_queue q))) (m_maxQueueSize q)) as [Hlt|Hge].
  2:{ exists t, false. rewrite (DoEnqueue_full now item i q t) by done. split_and!; [done..|lia]. }
  destruct (DoEnqueue_room now item i q t Hok Hq Hlt) as (rate & Hr & ->).
  set (start := Z.max now _).
  assert (0 <= start < 2 ^ 24) as Hst by (unfold start; lia).
  pose proof (virtualFinish_ge start (block_size (wireEncode item)) rate Hst (proj1 Hsz) Hr).
  pose proof (virtualFinish_le start (block_size (wireEncode item)) rate Hst Hsz Hr).
  set (vf := virtualFinish _ _ _) in *. rewrite (u64_id vf) by lia.
  eexists _, true. split; [done|]. split.
  { apply insert_level_ok; [done|]. split_and!; simpl; try done; try lia.
    rewrite length_app. simpl. lia. }
  split; [split_and!; simpl|].
  - done.
  - by rewrite length_insert.
  - intros j Hj. by rewrite list_lookup_insert_ne by congruence.
  - eexists. rewrite list_lookup_insert_eq by done. done.
  - eexists. simpl. rewrite list_lookup_insert_eq by done. split; [done|]. simpl. lia.
Qed.

(** ** Selection *)

Definition vft (q : QosQueue) : Z := float_of_int (m_lastVirtualFinishTime q).

(** Level [i] may send: it holds a packet and its bucket holds a token. *)
Definition eligible (qs : list QosQueue) (tokens : list Z) (i : nat) (q : QosQueue) : Prop :=
  qs !! i = Some q /\ m_queue q <> [] /\
  exists tk, tokens !! i = Some tk /\ double_of_int 1 <= tk.

Lemma eligible_cons q qs tokens i q' :
  eligible (q :: qs) tokens (S i) q' <-> eligible qs (tail tokens) i q'.
Proof. unfold eligible. by destruct tokens. Qed.

Lemma eligible_here q qs tokens q' :
  eligible (q :: qs) tokens 0 q' <->
  q' = q /\ IsEmpty q = false /\ exists tk, head tokens = Some tk /\ double_of_int 1 <= tk.
Proof.
  unfold eligible, IsEmpty. destruct tokens, (m_queue q) eqn:E; naive_solver congruence.
Qed.

(** What the loop returns from the queues it has not visited yet. *)
Definition selected (i : Z) (qs : list QosQueue) (tokens : list Z) (minVFT squeue r : Z) : Prop :=
  (r = squeue /\ forall j q, eligible qs tokens j q -> minVFT <= vft q) \/
  (exists k q, r = i + Z.of_nat k /\ eligible qs tokens k q /\ vft q < minVFT /\
     forall j q', eligible qs tokens j q' -> vft q <= vft q' /\ ((j < k)%nat -> vft q < vft q')).

Lemma selected_skip i q qs tokens minVFT squeue r :
  (forall q', eligible (q :: qs) tokens 0 q' -> minVFT <= vft q') ->
  selected (i + 1) qs (tail tokens) minVFT squeue r ->
  selected i (q :: qs) tokens minVFT squeue r.
Proof.
  intros Hhead [[-> Hall]|(k & q1 & -> & He & Hlt & Hmin)]; [left|right].
  - split; [done|]. intros [|j] q' Hj; [by apply Hhead|].
    apply eligible_cons in Hj. by eapply Hall.
  - exists (S k), q1. split_and!; [lia|by apply eligible_cons|done|].
    intros [|j] q' Hj.
    + apply Hhead in Hj. split; lia.
    + apply eligible_cons in Hj. destruct (Hmin j q' Hj). split; [done|]. intros; lia.
Qed.

Lemma selected_take i q qs tokens minVFT squeue r :
  eligible (q :: qs) tokens 0 q -> vft q < minVFT ->
  selected (i + 1) qs (tail tokens) (vft q) i r ->
  selected i (q :: qs) tokens minVFT squeue r.
Proof.
  intros He Hlt Hs. right. destruct Hs as [[-> Hall]|(k & q1 & -> & He1 & Hlt1 & Hmin)].
  - exists 0%nat, q. split_and!; [lia|done|done|].
    intros [|j] q' Hj; [|apply eligible_cons, Hall in Hj; lia].
    destruct He as [Hq _], Hj as [Hq' _]. simpl in *. simplify_eq. lia.
  - exists (S k), q1. split_and!; [lia|by apply eligible_cons|lia|].
    intros [|j] q' Hj.
    + destruct He as [Hq _], Hj as [Hq' _]. simpl in *. simplify_eq. lia.
    + apply eligible_cons in Hj. destruct (Hmin j q' Hj). split; [done|]. intros; lia.
Qed.

Lemma select_loop_correct qs : forall i tokens minVFT squeue,
  (length qs <= length tokens)%nat ->
  exists r, select_loop i qs tokens minVFT squeue = Some r /\
            selected i qs tokens minVFT squeue r.
Proof.
  induction qs as [|q qs IH]; intros i tokens minVFT squeue Hlen; simpl.
  { exists squeue. split; [done|]. left. split; [done|]. intros j q [Hj _]. done. }
  destruct tokens as [|tk tokens]; simpl in *; [lia|].
  destruct (IsEmpty q) eqn:Hemp.
  { destruct (IH (i + 1) tokens minVFT squeue) as (r & Hr & Hs); [lia|].
    exists r. split; [done|]. apply selected_skip; [|done].
    intros q' He%eligible_here. destruct He as (_ & ? & _). congruence. }
  destruct (_ && _) eqn:Ht.
  - breflect. destruct (IH (i + 1) tokens (vft q) i) as (r & Hr & Hs); [lia|].
    exists r. split; [done|]. apply selected_take; [|by breflect|done].
    apply eligible_here. simpl. eauto.
  - destruct (IH (i + 1) tokens minVFT squeue) as (r & Hr & Hs); [lia|].
    exists r. split; [done|]. apply selected_skip; [|done].
    intros q' (-> & _ & tk' & Htk & Hge)%eligible_here. injection Htk as ->.
    breflect. destruct Ht; breflect; [lia|]. unfold vft. lia.
Qed.

Lemma vft_lt_max q : queue_ok q -> vft q < FLT_MAX.
Proof.
  intros (_ & _ & _ & Hv). unfold vft; rewrite of_int_def.
  assert (fround 24 (m_lastVirtualFinishTime q * 2 ^ 149) 1 <= 2 ^ 64 * 2 ^ 149) as Hle.
  { apply fround_le_repr; [lia|lia|lia| |lia]. exists 1, (64 + 149). split_and!; lia. }
  assert (2 ^ 64 * 2 ^ 149 < FLT_MAX) by by vm_compute. lia.
Qed.

Lemma SelectQueueToSend_ok tokens t :
  tx_ok t -> (length (m_priorityQueues t) <= length tokens)%nat ->
  exists r, SelectQueueToSend tokens t = Some r /\
    ((r = -1 /\ forall i q, ~ eligible (m_priorityQueues t) tokens i q) \/
     (exists k q, r = Z.of_nat k /\ eligible (m_priorityQueues t) tokens k q /\
        forall j q', eligible (m_priorityQueues t) tokens j q' ->
          vft q <= vft q' /\ ((j < k)%nat -> vft q < vft q'))).
Proof.
  intros Hok Hlen. unfold SelectQueueToSend. rewrite levels_ok by done.
  destruct (select_loop_correct (m_priorityQueues t) 0 tokens FLT_MAX (-1) Hlen)
    as (r & Hr & Hs).
  exists r. split.
  { destruct Hok as (Ht & Hpos & _). destruct (m_priorityQueues t); [simpl in Ht; lia|done]. }
  destruct Hs as [[-> Hall]|(k & q & -> & He & _ & Hmin)]; [left|right].
  - split; [done|]. intros i q He. pose proof (Hall i q He) as Hge.
    destruct He as [Hq _]. destruct Hok as (_ & _ & Hqs). rewrite Forall_lookup in Hqs.
    pose proof (vft_lt_max q (Hqs i q Hq)). lia.
  - exists k, q. split_and!; [lia|done|done].
Qed.

(** C24: weighted fair selection. The selected level is one that holds a packet
    and a token, no such level has a smaller virtual finish time, among equal
    ones it is the level of highest priority, and -1 is returned exactly when no
    level can send. *)
Theorem SelectQueueToSend_correct tokens t :
  tx_ok t -> (length (m_priorityQueues t) <= length tokens)%nat ->
  exists r, SelectQueueToSend tokens t = Some r /\
    ((r = -1 /\ forall i q, ~ eligible (m_priorityQueues t) tokens i q) \/
     (exists k q, r = Z.of_nat k /\ eligible (m_priorityQueues t) tokens k q /\
        forall j q', eligible (m_priorityQueues t) tokens j q' ->
          vft q <= vft q' /\ ((j < k)%nat -> vft q < vft q'))).
Proof. apply SelectQueueToSend_ok. Qed.

(** ** Dequeueing *)

Lemma empty_levels qs : foldl (fun empty q => empty && IsEmpty q) true qs = forallb IsEmpty qs.
Proof.
  assert (forall b, foldl (fun empty q => empty && IsEmpty q) b qs = b && forallb IsEmpty qs) as Hg;
    [|apply Hg].
  induction qs as [|q qs IH]; intros b; simpl; [by rewrite andb_true_r|].
  by rewrite IH, andb_assoc.
Qed.

Lemma DoDequeue_ok i q item rest t :
  tx_ok t -> m_priorityQueues t !! i = Some q -> m_queue q = item :: rest ->
  exists t', DoDequeue (Z.of_nat i) t = Some (t', item) /\ tx_ok t' /\ only_level i rest t t'.
Proof.
  intros Hok Hq Hl. pose proof (lookup_lt_Some _ _ _ Hq) as Hi.
  unfold DoDequeue, TxIsEmpty. rewrite levels_ok by done. simpl. rewrite empty_levels.
  assert (forallb IsEmpty (m_priorityQueues t) = false) as ->.
  { destruct (forallb _ _) eqn:E; [|done]. rewrite forallb_forall in E.
    specialize (E q). unfold IsEmpty in E. rewrite Hl in E. discriminate E.
    apply list_elem_of_In, list_elem_of_lookup. eauto. }
  simpl. rewrite level_at_nat, Nat2Z.id, Hq. simpl. unfold Dequeue. rewrite Hl.
  eexists. split; [done|]. split.
  - apply insert_level_ok; [done|]. destruct Hok as (_ & _ & Hqs). rewrite Forall_lookup in Hqs.
    apply Hqs in Hq as (Hlen & Hr). split; [|done]. rewrite Hl in Hlen. simpl in *. lia.
  - split_and!; simpl; [done|by rewrite length_insert| |].
    + intros j Hj. by rewrite list_lookup_insert_ne by congruence.
    + eexists. by rewrite list_lookup_insert_eq.
Qed.

(** A priority level without a queue is an access beyond the vector's end. *)
Lemma DoEnqueue_out_of_range now item pr t :
  (length (m_priorityQueues t) <= Z.to_nat pr)%nat -> DoEnqueue now item pr t = None.
Proof. intros Hge. unfold DoEnqueue, level_at. destruct (pr <? 0); [done|]. by rewrite lookup_ge_None_2. Qed.

End QosQueue.
Arguments QueueItem : clear implicits.
Arguments QosQueue : clear implicits.
Arguments NdnPriorityTxQueue : clear implicits.

(** ** Concrete queues *)

Module QosQueueExamples.
(** A block given by its size. *)
#[local] Instance sized_block : NdnBlock Z := {| block0 := 0; block_size b := b |}.

Definition item (n : Z) : QueueItem Z unit := mkQueueItem n DATA (Some tt) (Some 1) (Some 2).
Definition empty3 : NdnPriorityTxQueue Z unit := initialize 3 (newTxQueue 0).
Definition one_item : NdnPriorityTxQueue Z unit :=
  match DoEnqueue 5 (item 100) 1 empty3 with Some (t, _) => t | None => empty3 end.

Lemma empty3_ok : tx_ok empty3.
Proof. apply tx_okb_sound. vm_compute. reflexivity. Qed.

Lemma one_item_ok : tx_ok one_item.
Proof. apply tx_okb_sound. vm_compute. reflexivity. Qed.

Lemma DoEnqueue_correct_witness :
  exists t' ok, DoEnqueue 5 (item 100) 1 empty3 = Some (t', ok).
Proof.
  destruct (DoEnqueue_correct 5 (item 100) 1
    (SetWeight (float_of_int 2) newQosQueue) empty3) as (t' & ok & He & _).
  - apply empty3_ok.
  - vm_compute. reflexivity.
  - lia.
  - vm_compute. reflexivity.
  - simpl. lia.
  - exists t', ok. exact He.
Defined.

(** The lowest level has the least weight; here only the middle one can send. *)
Example select_one_item :
  SelectQueueToSend [double_of_int 3; double_of_int 1; double_of_int 5] one_item = Some 1.
Proof. vm_compute. reflexivity. Qed.

Lemma SelectQueueToSend_correct_witness :
  exists r, SelectQueueToSend [double_of_int 3; double_of_int 1; double_of_int 5] one_item = Some r.
Proof.
  destruct (SelectQueueToSend_correct [double_of_int 3; double_of_int 1; double_of_int 5] one_item)
    as (r & Hr & _).
  - apply one_item_ok.
  - vm_compute. lia.
  - exists r. exact Hr.
Defined.

End QosQueueExamples.
