(* ===== verification/CityHash.v ===== *)
(** * CityHash64

    Models the part of [core/city-hash.hpp/.cpp] the daemon calls: [CityHash64],
    which hashes name components for the name tree, and [CityHash64WithSeed],
    which hashes an Interest name with a nonce for the dead nonce list. A buffer
    is the list of its octets; a load at an offset outside the buffer is
    undefined behaviour and gives [None]. Loads are little-endian, the byte order
    of the platforms without [WORDS_BIGENDIAN]. *)

From S2P Require Import Prelude.
Local Open Scope Z_scope.
Local Open Scope nfd_scope.

Definition le_bytes (l : list Z) : Z := foldr (fun b acc => b + 256 * acc) 0 l.

(** [memcpy] of [n] octets at [s + off]. *)
Definition load (n : Z) (s : list Z) (off : Z) : option Z :=
  if (0 <=? off) && (off + n <=? Z.of_nat (length s))
  then Some (le_bytes (take (Z.to_nat n) (drop (Z.to_nat off) s)))
  else None.

Definition Fetch64 (s : list Z) (off : Z) : option Z := u64 <$> load 8 s off.
Definition Fetch32 (s : list Z) (off : Z) : option Z := u32 <$> load 4 s off.
Definition Fetch8 (s : list Z) (off : Z) : option Z := u8 <$> load 1 s off.

Definition k0 : Z := 0xc3a5c85c97cb3127.
Definition k1 : Z := 0xb492b66fbe98f273.
Definition k2 : Z := 0x9ae16a3b2f90404f.
Definition kMul : Z := 0x9ddfea08eb382d69.

Definition shr (x k : Z) : Z := Z.shiftr x k.
Definition xor (x y : Z) : Z := Z.lxor x y.

Definition bswap_64 (x : Z) : Z :=
  foldr (fun i acc => acc + Z.shiftl (Z.land (shr x (8 * i)) 255) (56 - 8 * i)) 0
        [0; 1; 2; 3; 4; 5; 6; 7].

Definition Rotate (val shift : Z) : Z :=
  if shift =? 0 then val else Z.lor (shr val shift) (u64 (Z.shiftl val (64 - shift))).

Definition ShiftMix (val : Z) : Z := xor val (shr val 47).

(** The Murmur-inspired mixing shared by [Hash128to64] and the two
    [HashLen16] overloads. *)
Definition mix16 (u v mul : Z) : Z :=
  let a := (xor u v) *64 mul in
  let a := xor a (shr a 47) in
  let b := (xor v a) *64 mul in
  let b := xor b (shr b 47) in
  b *64 mul.

Definition Hash128to64 (lo hi : Z) : Z := mix16 lo hi kMul.
Definition HashLen16 (u v : Z) : Z := Hash128to64 u v.
Definition HashLen16_mul (u v mul : Z) : Z := mix16 u v mul.

Definition HashLen0to16 (s : list Z) (len : Z) : option Z :=
  if 8 <=? len then
    let mul := k2 +64 len * 2 in
    f0 ← Fetch64 s 0;
    b ← Fetch64 s (len - 8);
    let a := f0 +64 k2 in
    let c := Rotate b 37 * mul +64 a in
    let d := (Rotate a 25 + b) *64 mul in
    Some (HashLen16_mul c d mul)
  else if 4 <=? len then
    let mul := k2 +64 len * 2 in
    a ← Fetch32 s 0;
    b ← Fetch32 s (len - 4);
    Some (HashLen16_mul (len +64 Z.shiftl a 3) b mul)
  else if 0 <? len then
    a ← Fetch8 s 0;
    b ← Fetch8 s (shr len 1);
    c ← Fetch8 s (len - 1);
    let y := a +32 Z.shiftl b 8 in
    let z := len +32 Z.shiftl c 2 in
    Some (ShiftMix (xor (y *64 k2) (z *64 k0)) *64 k2)
  else Some k2.

Definition HashLen17to32 (s : list Z) (len : Z) : option Z :=
  let mul := k2 +64 len * 2 in
  f0 ← Fetch64 s 0;
  b ← Fetch64 s 8;
  f8 ← Fetch64 s (len - 8);
  f16 ← Fetch64 s (len - 16);
  let a := f0 *64 k1 in
  let c := f8 *64 mul in
  let d := f16 *64 k2 in
  Some (HashLen16_mul (Rotate (a +64 b) 43 + Rotate c 30 +64 d)
                      (a + Rotate (b +64 k2) 18 +64 c) mul).

Definition WeakHashLen32WithSeeds6 (w x y z a b : Z) : Z * Z :=
  let a := a +64 w in
  let b := Rotate (b + a +64 z) 21 in
  let c := a in
  let a := a +64 x in
  let a := a +64 y in
  let b := b +64 Rotate a 44 in
  (a +64 z, b +64 c).

Definition WeakHashLen32WithSeeds (s : list Z) (off a b : Z) : option (Z * Z) :=
  w ← Fetch64 s off;
  x ← Fetch64 s (off + 8);
  y ← Fetch64 s (off + 16);
  z ← Fetch64 s (off + 24);
  Some (WeakHashLen32WithSeeds6 w x y z a b).

Definition HashLen33to64 (s : list Z) (len : Z) : option Z :=
  let mul := k2 +64 len * 2 in
  f0 ← Fetch64 s 0;
  b ← Fetch64 s 8;
  c ← Fetch64 s (len - 24);
  d ← Fetch64 s (len - 32);
  f16 ← Fetch64 s 16;
  f24 ← Fetch64 s 24;
  g ← Fetch64 s (len - 8);
  h0 ← Fetch64 s (len - 16);
  let a := f0 *64 k2 in
  let e := f16 *64 k2 in
  let f := f24 *64 9 in
  let h := h0 *64 mul in
  let u := Rotate (a +64 g) 43 +64 (Rotate b 30 + c) * 9 in
  let v := xor (a +64 g) d + f +64 1 in
  let w := bswap_64 ((u + v) *64 mul) +64 h in
  let x := Rotate (e +64 f) 42 +64 c in
  let y := (bswap_64 ((v + w) *64 mul) + g) *64 mul in
  let z := e + f +64 c in
  let a := bswap_64 ((x + z) * mul +64 y) +64 b in
  let b := ShiftMix ((z + a) * mul + d +64 h) *64 mul in
  Some (b +64 x).

(** The 56 octets of state of the loop over 64-octet chunks. *)
Record city := mkCity { cx : Z; cy : Z; cz : Z; cv : Z * Z; cw : Z * Z }.

(** The body of the loop at the chunk that starts at [off]. *)
Definition city_chunk (s : list Z) (off : Z) (c : city) : option city :=
  let '(mkCity x y z v w) := c in
  f8 ← Fetch64 s (off + 8);
  f48 ← Fetch64 s (off + 48);
  f40 ← Fetch64 s (off + 40);
  let x := Rotate (x + y + v.1 +64 f8) 37 *64 k1 in
  let y := Rotate (y + v.2 +64 f48) 42 *64 k1 in
  let x := xor x (w.2) in
  let y := y + v.1 +64 f40 in
  let z := Rotate (z +64 w.1) 33 *64 k1 in
  v ← WeakHashLen32WithSeeds s off (v.2 *64 k1) (x +64 w.1);
  f16 ← Fetch64 s (off + 16);
  w ← WeakHashLen32WithSeeds s (off + 32) (z +64 w.2) (y +64 f16);
  Some (mkCity z y x v w).

(** [do ... while (len != 0)] with [n] chunks left. *)
Fixpoint city_loop (n : nat) (s : list Z) (off : Z) (c : city) : option city :=
  match n with
  | O => Some c
  | S n' => c ← city_chunk s off c; city_loop n' s (off + 64) c
  end.

Definition CityHash64 (s : list Z) : option Z :=
  let len := Z.of_nat (length s) in
  if len <=? 16 then HashLen0to16 s len
  else if len <=? 32 then HashLen17to32 s len
  else if len <=? 64 then HashLen33to64 s len
  else
    x ← Fetch64 s (len - 40);
    y16 ← Fetch64 s (len - 16);
    y56 ← Fetch64 s (len - 56);
    let y := y16 +64 y56 in
    z48 ← Fetch64 s (len - 48);
    z24 ← Fetch64 s (len - 24);
    let z := HashLen16 (z48 +64 len) z24 in
    v ← WeakHashLen32WithSeeds s (len - 64) len z;
    w ← WeakHashLen32WithSeeds s (len - 32) (y +64 k1) x;
    f0 ← Fetch64 s 0;
    let x := x * k1 +64 f0 in
    (* len = (len - 1) & ~63 *)
    c ← city_loop (Z.to_nat ((len - 1) / 64)) s 0 (mkCity x y z v w);
    Some (HashLen16 (HashLen16 (cv c).1 (cw c).1 + ShiftMix (cy c) * k1 +64 cz c)
                    (HashLen16 (cv c).2 (cw c).2 +64 cx c)).

Definition CityHash64WithSeeds (s : list Z) (seed0 seed1 : Z) : option Z :=
  h ← CityHash64 s; Some (HashLen16 (h -64 seed0) seed1).

Definition CityHash64WithSeed (s : list Z) (seed : Z) : option Z :=
  CityHash64WithSeeds s k2 seed.

(** ** Memory safety and range *)

Lemma load_Some n s off :
  0 <= off -> off + n <= Z.of_nat (length s) -> exists x, load n s off = Some x.
Proof.
  intros H1 H2. unfold load. rewrite (proj2 (Z.leb_le _ _)), (proj2 (Z.leb_le _ _)) by lia. eauto.
Qed.

Lemma Fetch64_Some s off :
  0 <= off -> off + 8 <= Z.of_nat (length s) -> exists x, Fetch64 s off = Some x.
Proof. intros H1 H2. destruct (load_Some 8 s off H1 H2) as [x Hx]. unfold Fetch64. rewrite Hx. eauto. Qed.

Lemma Fetch32_Some s off :
  0 <= off -> off + 4 <= Z.of_nat (length s) -> exists x, Fetch32 s off = Some x.
Proof. intros H1 H2. destruct (load_Some 4 s off H1 H2) as [x Hx]. unfold Fetch32. rewrite Hx. eauto. Qed.

Lemma Fetch8_Some s off :
  0 <= off -> off + 1 <= Z.of_nat (length s) -> exists x, Fetch8 s off = Some x.
Proof. intros H1 H2. destruct (load_Some 1 s off H1 H2) as [x Hx]. unfold Fetch8. rewrite Hx. eauto. Qed.

(** Discharge the first load of the goal. *)
Ltac fetch :=
  match goal with
  | |- context [Fetch64 ?s ?o] =>
      let x := fresh "x" in let Hx := fresh "Hx" in
      destruct (Fetch64_Some s o) as [x Hx]; [lia|lia|]; rewrite Hx; clear Hx
  | |- context [Fetch32 ?s ?o] =>
      let x := fresh "x" in let Hx := fresh "Hx" in
      destruct (Fetch32_Some s o) as [x Hx]; [lia|lia|]; rewrite Hx; clear Hx
  | |- context [Fetch8 ?s ?o] =>
      let x := fresh "x" in let Hx := fresh "Hx" in
      destruct (Fetch8_Some s o) as [x Hx]; [lia|lia|]; rewrite Hx; clear Hx
  end; cbn [mbind option_bind].

Lemma weak_Some s off a b :
  0 <= off -> off + 32 <= Z.of_nat (length s) ->
  exists p, WeakHashLen32WithSeeds s off a b = Some p.
Proof. intros H1 H2. unfold WeakHashLen32WithSeeds. repeat fetch. eauto. Qed.

Lemma chunk_Some s off c :
  0 <= off -> off + 64 <= Z.of_nat (length s) -> exists c', city_chunk s off c = Some c'.
Proof.
  intros H1 H2. destruct c as [x y z v w]. unfold city_chunk. repeat fetch. cbv zeta.
  match goal with |- context [WeakHashLen32WithSeeds s off ?a ?b] =>
    destruct (weak_Some s off a b) as [p Hp]; [lia|lia|] end.
  rewrite Hp. cbn [mbind option_bind].
  match goal with |- context [WeakHashLen32WithSeeds s (off + 32) ?a ?b] =>
    destruct (weak_Some s (off + 32) a b) as [p' Hp']; [lia|lia|] end.
  rewrite Hp'. eauto.
Qed.

Lemma loop_Some s n : forall off c,
  0 <= off -> off + 64 * Z.of_nat n <= Z.of_nat (length s) ->
  exists c', city_loop n s off c = Some c'.
Proof.
  induction n as [|n IH]; intros off c H1 H2; simpl; [eauto|].
  destruct (chunk_Some s off c) as [c' Hc]; [lia|lia|]. rewrite Hc. simpl.
  apply IH; lia.
Qed.

Lemma mix16_range u v mul : 0 <= mix16 u v mul < 2 ^ 64.
Proof. apply u64_range. Qed.

Definition in64 (o : option Z) : Prop := exists h, o = Some h /\ 0 <= h < 2 ^ 64.

Lemma in64_wrap x : in64 (Some (u64 x)).
Proof. eexists. split; [done|apply u64_range]. Qed.

Lemma hash0to16_ok s : Z.of_nat (length s) <= 16 -> in64 (HashLen0to16 s (Z.of_nat (length s))).
Proof.
  intros Hl. unfold HashLen0to16.
  destruct (8 <=? _) eqn:E8; breflect; [do 2 fetch; apply in64_wrap|].
  destruct (4 <=? _) eqn:E4; breflect; [do 2 fetch; apply in64_wrap|].
  destruct (0 <? _) eqn:E0; breflect; [|by exists k2; vm_compute].
  fetch.
  assert (0 <= shr (Z.of_nat (length s)) 1 < Z.of_nat (length s)).
  { unfold shr. rewrite Z.shiftr_div_pow2 by lia. split; [apply Z.div_pos; lia|].
    apply Z.div_lt; lia. }
  do 2 fetch. apply in64_wrap.
Qed.

Lemma CityHash64_ok s : in64 (CityHash64 s).
Proof.
  unfold CityHash64. set (len := Z.of_nat (length s)).
  destruct (len <=? 16) eqn:E1; breflect; [by apply hash0to16_ok|].
  destruct (len <=? 32) eqn:E2; breflect.
  { unfold HashLen17to32. do 4 fetch. apply in64_wrap. }
  destruct (len <=? 64) eqn:E3; breflect.
  { unfold HashLen33to64. do 8 fetch. apply in64_wrap. }
  repeat fetch. cbv zeta.
  match goal with |- context [WeakHashLen32WithSeeds s (len - 64) ?a ?b] =>
    destruct (weak_Some s (len - 64) a b) as [p Hp]; [lia|lia|] end.
  rewrite Hp. cbn [mbind option_bind].
  match goal with |- context [WeakHashLen32WithSeeds s (len - 32) ?a ?b] =>
    destruct (weak_Some s (len - 32) a b) as [p' Hp']; [lia|lia|] end.
  rewrite Hp'. cbn [mbind option_bind].
  pose proof (Z.mod_pos_bound (len - 1) 64). pose proof (Z.div_mod (len - 1) 64).
  assert (0 <= (len - 1) / 64) by (apply Z.div_pos; lia).
  match goal with |- context [city_loop ?n s 0 ?c] =>
    destruct (loop_Some s n 0 c) as [c' Hc]; [lia|lia|] end.
  rewrite Hc. cbn [mbind option_bind]. eexists. split; [done|apply mix16_range].
Qed.

(** Hashing never reads outside the buffer and returns a 64-bit value, for
    a buffer of any length and any seed. *)
Theorem CityHash64_safe s seed :
  (exists h, CityHash64 s = Some h /\ 0 <= h < 2 ^ 64) /\
  (exists h, CityHash64WithSeed s seed = Some h /\ 0 <= h < 2 ^ 64).
Proof.
  destruct (CityHash64_ok s) as (h & Hh & Hr). split; [eauto|].
  unfold CityHash64WithSeed, CityHash64WithSeeds. rewrite Hh. simpl.
  eexists. split; [done|apply mix16_range].
Qed.

(** [CityHash64] as a total function, for the clients. *)
Definition city64 (s : list Z) : Z := default 0 (CityHash64 s).
Definition city64_seed (s : list Z) (seed : Z) : Z := default 0 (CityHash64WithSeed s seed).

Lemma city64_range s : 0 <= city64 s < 2 ^ 64.
Proof. unfold city64. by destruct (CityHash64_ok s) as (h & -> & Hr). Qed.

Example CityHash64_empty : CityHash64 [] = Some 0x9ae16a3b2f90404f.
Proof. reflexivity. Qed.
