(* ===== verification/Ndn.v ===== *)
(** * What the daemon uses of ndn-cxx

    The packet library ndn-cxx is not part of the repository. The model takes
    its name components as a parameter: a type with decidable equality, the
    octets of a component's TLV encoding and the test for an implicit digest
    component. A [Name] is, as ndn-cxx documents it, the sequence of its
    components. *)

From S2P Require Import Prelude.
Local Open Scope Z_scope.

Class NameComponent (C : Type) := {
  comp_eq_dec :: EqDecision C;
  comp_countable :: Countable C;
  comp_wire : C -> list Z;
  isImplicitSha256Digest : C -> bool
}.

Section Names.
Context {C : Type} `{NameComponent C}.
Notation Name := (list C).

(** [name.getPrefix(n)] with a non-negative argument. *)
Definition getPrefix (n : nat) (name : Name) : Name := take n name.

(** [name.getSubName(i, n)]. *)
Definition getSubName (i n : nat) (name : Name) : Name := take n (drop i name).

(** [name.getPrefix(-1)]. *)
Definition parentName (name : Name) : Name := take (pred (length name)) name.

Definition isPrefixOf (p name : Name) : bool := bool_decide (p = take (length p) name).

Definition endsWithDigest (name : Name) : bool :=
  match last name with Some c => isImplicitSha256Digest c | None => false end.

Lemma isPrefixOf_true p name : isPrefixOf p name = true <-> p `prefix_of` name.
Proof.
  unfold isPrefixOf. rewrite bool_decide_eq_true. split.
  - intros ->. exists (drop (length p) name). by rewrite take_drop.
  - intros [k ->]. by rewrite take_app_length.
Qed.

Lemma prefix_take (p name : Name) : p `prefix_of` name <-> p = take (length p) name.
Proof. rewrite <-isPrefixOf_true. unfold isPrefixOf. by rewrite bool_decide_eq_true. Qed.
End Names.

Notation "n ^^parent" := (parentName n) (at level 9, only parsing) : nfd_scope.

(** A concrete component type for worked examples: a non-negative [c] is the
    generic component of the octet [c], a negative one an implicit digest, which
    sorts before generic components. *)
#[export] Instance exampleComponent : NameComponent Z := {|
  comp_wire c := if c <? 0 then 1 :: 32 :: replicate 32 (- c) else [8; 1; c];
  isImplicitSha256Digest c := c <? 0
|}.

(** ** Interests and Data

    Of an Interest the daemon reads its Name, its Selectors (compared for
    equality, and the ChildSelector and MustBeFresh among them), its Nonce and its
    InterestLifetime in milliseconds, negative when absent, the names of the
    delegations of its forwarding hint in order, and its NextHopFaceId tag. Of Data it reads the
    Name, the implicit digest that completes it to the full name, and the
    FreshnessPeriod in milliseconds, never negative. [matchesData] is ndn-cxx's
    [Interest::matchesData], which is documented to accept only Data whose full
    name has the Interest's name as a prefix. *)
Class Packets (C : Type) `{NameComponent C} := {
  Selectors : Type;
  selectors_eq_dec :: EqDecision Selectors;
  childSelector : Selectors -> Z;
  mustBeFresh : Selectors -> bool;
  Data : Type;
  data_name : Data -> list C;
  data_digest : Data -> C;
  data_freshness : Data -> Z;
  data_freshness_nonneg d : 0 <= data_freshness d;
  data_digest_digest d : isImplicitSha256Digest (data_digest d) = true;
  matchesData : list C -> Selectors -> Data -> bool;
  matchesData_prefix name sel d :
    matchesData name sel d = true -> name `prefix_of` data_name d ++ [data_digest d];
  DEFAULT_INTEREST_LIFETIME : Z;
  default_lifetime_nonneg : 0 <= DEFAULT_INTEREST_LIFETIME
}.

(** [data.getFullName()]. *)
Definition fullName {C} `{Packets C} (d : Data) : list C := data_name d ++ [data_digest d].

Record Interest {C} `{Packets C} := mkInterest {
  i_name : list C;
  i_selectors : Selectors;
  i_nonce : Z;
  i_lifetime : Z;
  i_forwardingHint : list (list C);
  i_nextHopFaceId : option Z
}.
Arguments Interest C {_ _}.

Section Prefixes.
Context {C : Type} `{Packets C}.

Lemma prefix_snoc (p name : list C) c : p `prefix_of` name ++ [c] -> p `prefix_of` name \/ p = name ++ [c].
Proof.
  intros [k Hk]. destruct k as [|x k _] using rev_ind.
  - right. by rewrite app_nil_r in Hk.
  - rewrite app_assoc in Hk. apply app_inj_tail in Hk as [-> _]. left. by exists k.
Qed.

(** Without its digest, the name of an Interest is a prefix of the name of
    matching Data. *)
Lemma matchesData_strip (name : list C) sel d :
  matchesData name sel d = true ->
  (if endsWithDigest name then parentName name else name) `prefix_of` data_name d.
Proof.
  intros [Hp| ->]%matchesData_prefix%prefix_snoc.
  - destruct (endsWithDigest name); [|done]. etrans; [|done].
    unfold parentName. exists (drop (pred (length name)) name). by rewrite take_drop.
  - unfold endsWithDigest, parentName. rewrite last_snoc, data_digest_digest, length_app, Nat.add_comm.
    simpl. by rewrite take_app_length.
Qed.
End Prefixes.

(** Example packets: Data is its name, its digest and its freshness; the
    selectors are CanBePrefix, MustBeFresh and the ChildSelector. *)
#[export] Program Instance examplePackets : Packets Z := {|
  Selectors := bool * bool * Z;
  childSelector sel := sel.2;
  mustBeFresh sel := sel.1.2;
  Data := list Z * positive * Z;
  data_name d := d.1.1;
  data_digest d := Zneg d.1.2;
  data_freshness d := Z.max 0 d.2;
  matchesData name sel d :=
    if endsWithDigest name then bool_decide (name = d.1.1 ++ [Zneg d.1.2])
    else if sel.1.1 then isPrefixOf name d.1.1 else bool_decide (name = d.1.1);
  DEFAULT_INTEREST_LIFETIME := 4000
|}.
Next Obligation. intros d. simpl. lia. Qed.
Next Obligation. done. Qed.
Next Obligation.
  intros name sel d. simpl. destruct (endsWithDigest name).
  - intros ->%bool_decide_eq_true. done.
  - destruct sel.1.1.
    + intros Hp%isPrefixOf_true. by apply prefix_app_r.
    + intros ->%bool_decide_eq_true. by apply prefix_app_r.
Qed.
Next Obligation. done. Qed.

(** ** Canonical order

    Components are totally ordered; names compare component by component, a
    proper prefix first. [getSuccessor] is ndn-cxx's [Name::getSuccessor]. *)
Class NameOrder (C : Type) `{NameComponent C} := {
  comp_compare : C -> C -> comparison;
  comp_compare_eq a b : comp_compare a b = Eq <-> a = b;
  comp_compare_antisym a b : comp_compare b a = CompOpp (comp_compare a b);
  comp_compare_trans a b c :
    comp_compare a b = Lt -> comp_compare b c = Lt -> comp_compare a c = Lt;
  getSuccessor : list C -> list C
}.

Section Order.
Context {C : Type} `{NameOrder C}.
Implicit Types a b c : list C.

Fixpoint name_compare a b : comparison :=
  match a, b with
  | [], [] => Eq
  | [], _ :: _ => Lt
  | _ :: _, [] => Gt
  | x :: a', y :: b' => match comp_compare x y with Eq => name_compare a' b' | r => r end
  end.

Lemma comp_compare_refl (x : C) : comp_compare x x = Eq.
Proof. by apply comp_compare_eq. Qed.

Lemma name_compare_eq a : forall b, name_compare a b = Eq <-> a = b.
Proof.
  induction a as [|x a IH]; intros [|y b]; simpl; try done.
  destruct (comp_compare x y) eqn:E0.
  - apply comp_compare_eq in E0 as ->. rewrite IH. naive_solver.
  - split; [done|]. intros [= -> ->]. by rewrite comp_compare_refl in E0.
  - split; [done|]. intros [= -> ->]. by rewrite comp_compare_refl in E0.
Qed.

Lemma name_compare_antisym a : forall b, name_compare b a = CompOpp (name_compare a b).
Proof.
  induction a as [|x a IH]; intros [|y b]; simpl; try done.
  rewrite comp_compare_antisym. destruct (comp_compare x y); simpl; auto.
Qed.

Lemma name_compare_trans a : forall b c,
  name_compare a b = Lt -> name_compare b c = Lt -> name_compare a c = Lt.
Proof.
  induction a as [|x a IH]; intros [|y b] [|z c]; simpl; try done.
  destruct (comp_compare x y) eqn:E1, (comp_compare y z) eqn:E2; try done; intros Hab Hbc.
  - apply comp_compare_eq in E1 as ->, E2 as ->. rewrite comp_compare_refl. by eapply IH.
  - apply comp_compare_eq in E1 as ->. by rewrite E2.
  - apply comp_compare_eq in E2 as ->. by rewrite E1.
  - by rewrite (comp_compare_trans _ _ _ E1 E2).
Qed.

Lemma name_compare_refl a : name_compare a a = Eq.
Proof. by apply name_compare_eq. Qed.

Lemma name_compare_Gt a b : name_compare a b = Gt <-> name_compare b a = Lt.
Proof. rewrite (name_compare_antisym a b). destruct (name_compare a b); simpl; split; congruence. Qed.

Lemma name_compare_prefix a b : a `prefix_of` b -> name_compare a b <> Gt.
Proof.
  intros [k ->]. induction a as [|x a IH]; simpl; [by destruct k|]. by rewrite comp_compare_refl.
Qed.

Lemma name_compare_proper_prefix a b : a `prefix_of` b -> a <> b -> name_compare a b = Lt.
Proof.
  intros Hp Hne. pose proof (name_compare_prefix a b Hp). pose proof (name_compare_eq a b).
  destruct (name_compare a b); naive_solver.
Qed.
End Order.

(** Example order: digests first, by magnitude, then generic components. *)
Definition example_compare (a b : Z) : comparison :=
  if a <? 0 then (if b <? 0 then Z.compare b a else Lt)
  else if b <? 0 then Gt else Z.compare a b.

#[export] Program Instance exampleOrder : NameOrder Z := {|
  comp_compare := example_compare;
  getSuccessor name :=
    match last name with
    | None => []
    | Some c => take (length name - 1) name ++ [if c <? 0 then c - 1 else c + 1]
    end
|}.
Next Obligation.
  intros a b. unfold example_compare. repeat case_match; breflect; rewrite ?Z.compare_eq_iff; split; try done; lia.
Qed.
Next Obligation.
  intros a b. unfold example_compare. repeat case_match; try done; apply Z.compare_antisym.
Qed.
Next Obligation.
  intros a b c. unfold example_compare. repeat case_match; breflect; rewrite ?Z.compare_lt_iff; try done; lia.
Qed.
