(* ===== verification/Hashtable.v ===== *)
(** * Name tree hashtable

    Models [daemon/table/name-tree-hashtable.hpp/.cpp]: the hash of a name
    prefix, and a chained hashtable from names to nodes that grows and shrinks
    with its load. A bucket's doubly linked list of nodes is the list of its
    nodes in link order; a node is named by the name of its entry, which is
    unique in the table. The payload [E] of a node is the name tree entry. *)

From S2P Require Import Prelude Fp CityHash Ndn.
Local Open Scope Z_scope.

(** [HashFunc::compute] is [Hash64::compute]: [HashValue] is a 64-bit [size_t]. *)
Definition HashFunc_compute (buffer : list Z) : Z := city64 buffer.

Section Hashes.
Context {C : Type} `{NameComponent C}.
Notation Name := (list C).

Definition hash_step (h : Z) (comp : C) : Z := Z.lxor h (HashFunc_compute (comp_wire comp)).

Definition computeHash (name : Name) (prefixLen : nat) : Z :=
  foldl hash_step 0 (take (Nat.min prefixLen (length name)) name).

(** The loop of [computeHashes] from the hash [h] on. *)
Fixpoint hash_seq (h : Z) (comps : list C) : list Z :=
  match comps with
  | [] => []
  | c :: comps' => hash_step h c :: hash_seq (hash_step h c) comps'
  end.

Definition computeHashes (name : Name) (prefixLen : nat) : list Z :=
  0 :: hash_seq 0 (take (Nat.min prefixLen (length name)) name).

Lemma hash_seq_lookup comps : forall h i,
  (i < length comps)%nat ->
  hash_seq h comps !! i = Some (foldl hash_step h (take (S i) comps)).
Proof.
  induction comps as [|c comps IH]; intros h i Hi; simpl in *; [lia|].
  destruct i as [|i]; simpl; [done|]. rewrite IH by lia. done.
Qed.

Lemma computeHash_take (name : Name) n : computeHash (take n name) n = computeHash name n.
Proof.
  unfold computeHash. rewrite take_take, length_take. do 2 f_equal. lia.
Qed.

Lemma computeHashes_lookup (name : Name) prefixLen i :
  (i <= prefixLen)%nat -> (i <= length name)%nat ->
  computeHashes name prefixLen !! i = Some (computeHash name i).
Proof.
  intros Hi Hl. unfold computeHashes, computeHash.
  destruct i as [|i]; [done|]. rewrite lookup_cons_ne_0 by lia. cbn [pred].
  rewrite hash_seq_lookup by (rewrite length_take; lia).
  rewrite take_take. do 3 f_equal. lia.
Qed.
End Hashes.

Record HashtableOptions := mkOptions {
  initialSize : Z;
  minSize : Z;
  expandLoadFactor : Z;   (* float *)
  expandFactor : Z;       (* float *)
  shrinkLoadFactor : Z;   (* float *)
  shrinkFactor : Z        (* float *)
}.

Definition newOptions (size : Z) : HashtableOptions :=
  mkOptions size size (float_of_dec 5 10) (float_of_dec 2 1) (float_of_dec 1 10) (float_of_dec 5 10).

Section Hashtable.
Context {C : Type} `{NameComponent C} {E : Type}.
Notation Name := (list C).
(** The constructor of the payload, [Entry(name, node)]. *)
Variable newEntry : Name -> E.

Record Node := mkNode { node_hash : Z; node_name : Name; node_entry : E }.

Record Hashtable := mkHashtable {
  m_buckets : list (list Node);
  m_options : HashtableOptions;
  m_size : Z;
  m_expandThreshold : Z;
  m_shrinkThreshold : Z
}.

Definition getNBuckets (t : Hashtable) : Z := Z.of_nat (length (m_buckets t)).

(** [h % getNBuckets()], for [n] buckets. *)
Definition computeBucketIndex (n : nat) (h : Z) : nat := Z.to_nat (h mod Z.of_nat n).

Definition computeThresholds (t : Hashtable) : Hashtable :=
  mkHashtable (m_buckets t) (m_options t) (m_size t)
    (float_to_int (float_mul (expandLoadFactor (m_options t)) (float_of_int (getNBuckets t))))
    (float_to_int (float_mul (shrinkLoadFactor (m_options t)) (float_of_int (getNBuckets t)))).

Definition newHashtable (options : HashtableOptions) : Hashtable :=
  computeThresholds (mkHashtable (replicate (Z.to_nat (initialSize options)) []) options 0 0 0).

(** The node becomes the head of the bucket's list. *)
Definition attach (bucket : nat) (node : Node) (bs : list (list Node)) : list (list Node) :=
  alter (cons node) bucket bs.

(** The node is unlinked from the bucket's list. *)
Definition detach (bucket : nat) (name : Name) (bs : list (list Node)) : list (list Node) :=
  alter (erase_first (has_key node_name name)) bucket bs.

Definition resize (newNBuckets : Z) (t : Hashtable) : Hashtable :=
  if getNBuckets t =? newNBuckets then t
  else
    let n := Z.to_nat newNBuckets in
    let bs := foldl (fun bs node => attach (computeBucketIndex n (node_hash node)) node bs)
                    (replicate n []) (concat (m_buckets t)) in
    computeThresholds
      (mkHashtable bs (m_options t) (m_size t) (m_expandThreshold t) (m_shrinkThreshold t)).

(** The test of the search loop of [findOrInsert]. *)
Definition node_matches (h : Z) (name : Name) (node : Node) : bool :=
  (node_hash node =? h) && bool_decide (node_name node = name).

Definition bucketOf (t : Hashtable) (h : Z) : list Node :=
  default [] (m_buckets t !! computeBucketIndex (length (m_buckets t)) h).

(** [findOrInsert]: the node of [name.getPrefix(prefixLen)], and whether it is
    new. *)
Definition findOrInsert (name : Name) (prefixLen : nat) (h : Z) (allowInsert : bool)
    (t : Hashtable) : Hashtable * option Node * bool :=
  match find_if (node_matches h (getPrefix prefixLen name)) (bucketOf t h) with
  | Some node => (t, Some node, false)
  | None =>
      if allowInsert then
        let node := mkNode h (getPrefix prefixLen name) (newEntry (getPrefix prefixLen name)) in
        let bs := attach (computeBucketIndex (length (m_buckets t)) h) node (m_buckets t) in
        let t := mkHashtable bs (m_options t) (m_size t + 1)
                   (m_expandThreshold t) (m_shrinkThreshold t) in
        let t :=
          if m_expandThreshold t <? m_size t
          then resize (float_to_int (float_mul (expandFactor (m_options t))
                                               (float_of_int (getNBuckets t)))) t
          else t in
        (t, Some node, true)
      else (t, None, false)
  end.

(** [find(name, prefixLen)]. *)
Definition ht_find (name : Name) (prefixLen : nat) (t : Hashtable) : option Node :=
  (findOrInsert name prefixLen (computeHash name prefixLen) false t).1.2.

(** [find(name, prefixLen, hashes)] and [insert]; [hashes[prefixLen]] beyond the
    sequence is undefined behaviour. *)
Definition ht_find_hashes (name : Name) (prefixLen : nat) (hashes : list Z) (t : Hashtable) :
    option (option Node) :=
  h ← hashes !! prefixLen; Some (findOrInsert name prefixLen h false t).1.2.

Definition ht_insert (name : Name) (prefixLen : nat) (hashes : list Z) (t : Hashtable) :
    option (Hashtable * option Node * bool) :=
  h ← hashes !! prefixLen; Some (findOrInsert name prefixLen h true t).

Definition ht_erase (node : Node) (t : Hashtable) : Hashtable :=
  let bucket := computeBucketIndex (length (m_buckets t)) (node_hash node) in
  let t := mkHashtable (detach bucket (node_name node) (m_buckets t)) (m_options t) (m_size t - 1)
             (m_expandThreshold t) (m_shrinkThreshold t) in
  if m_size t <? m_shrinkThreshold t
  then resize (Z.max (minSize (m_options t))
                 (float_to_int (float_mul (shrinkFactor (m_options t))
                                          (float_of_int (getNBuckets t))))) t
  else t.

(** Writing to the entry of the node of [name] through a pointer. *)
Definition ht_update (name : Name) (f : E -> E) (t : Hashtable) : Hashtable :=
  let upd node := mkNode (node_hash node) (node_name node) (f (node_entry node)) in
  let bucket := computeBucketIndex (length (m_buckets t)) (computeHash name (length name)) in
  mkHashtable (alter (update_first (has_key node_name name) upd) bucket (m_buckets t))
    (m_options t) (m_size t) (m_expandThreshold t) (m_shrinkThreshold t).

(** ** Invariant and abstraction *)

Definition options_ok (o : HashtableOptions) : Prop :=
  0 < minSize o <= initialSize o /\ float_of_int 1 <= expandFactor o.

(** Every node is in the bucket of its hash, which is the hash of its name. *)
Definition placed (n : nat) (bs : list (list Node)) : Prop :=
  forall i b node, bs !! i = Some b -> node ∈ b ->
    computeBucketIndex n (node_hash node) = i /\
    node_hash node = computeHash (node_name node) (length (node_name node)).

Definition nodes (t : Hashtable) : list Node := concat (m_buckets t).

Definition ht_ok (t : Hashtable) : Prop :=
  options_ok (m_options t) /\ (0 < length (m_buckets t))%nat /\
  placed (length (m_buckets t)) (m_buckets t) /\
  uniq_keys node_name (nodes t) /\
  m_size t = Z.of_nat (length (nodes t)).

(** The finite map from names to entries that the table represents. *)
Definition entries (t : Hashtable) : gmap Name E :=
  list_to_map ((fun node => (node_name node, node_entry node)) <$> nodes t).

Lemma lookup_list_to_map_nodes (l : list Node) name :
  (list_to_map ((fun node => (node_name node, node_entry node)) <$> l) : gmap Name E) !! name =
  node_entry <$> find_if (has_key node_name name) l.
Proof.
  induction l as [|node l IH]; csimpl; [apply lookup_empty|].
  unfold has_key at 1. case_bool_decide as Heq.
  - subst. by rewrite lookup_insert_eq.
  - by rewrite lookup_insert_ne, IH.
Qed.

Lemma entries_lookup t name : entries t !! name = node_entry <$> find_if (has_key node_name name) (nodes t).
Proof. apply lookup_list_to_map_nodes. Qed.

Lemma entries_perm (l1 l2 : list Node) :
  uniq_keys node_name l1 -> l1 ≡ₚ l2 ->
  (list_to_map ((fun node => (node_name node, node_entry node)) <$> l1) : gmap Name E) =
  list_to_map ((fun node => (node_name node, node_entry node)) <$> l2).
Proof.
  intros Hu Hp. apply list_to_map_proper; [|by rewrite Hp].
  unfold uniq_keys in Hu. rewrite <-list_fmap_compose. exact Hu.
Qed.

Lemma uniq_perm (l1 l2 : list Node) :
  l1 ≡ₚ l2 -> uniq_keys node_name l1 -> uniq_keys node_name l2.
Proof. unfold uniq_keys. intros Hp. by rewrite Hp. Qed.

Lemma bucket_index_lt n h : (0 < n)%nat -> (computeBucketIndex n h < n)%nat.
Proof.
  intros Hn. unfold computeBucketIndex.
  pose proof (Z.mod_pos_bound h (Z.of_nat n)). lia.
Qed.

Lemma concat_alter (f : list Node -> list Node) i bs b :
  bs !! i = Some b ->
  exists rest, concat bs ≡ₚ b ++ rest /\ concat (alter f i bs) ≡ₚ f b ++ rest.
Proof.
  intros Hb. exists (concat (delete i bs)). revert i Hb.
  induction bs as [|b0 bs IH]; intros [|i] Hb; simpl in *; simplify_eq; [done|].
  destruct (IH i Hb) as [H1 H2].
  change (list_delete i bs) with (delete i bs). change (list_alter f i bs) with (alter f i bs).
  rewrite H1, H2. split; by rewrite !app_assoc, (Permutation_app_comm b0), <-?app_assoc.
Qed.

Lemma length_alter_buckets (f : list Node -> list Node) i bs : length (alter f i bs) = length bs.
Proof. apply length_alter. Qed.

Lemma attach_perm n node bs :
  (0 < n)%nat -> length bs = n ->
  concat (attach (computeBucketIndex n (node_hash node)) node bs) ≡ₚ node :: concat bs.
Proof.
  intros Hn Hl. pose proof (bucket_index_lt n (node_hash node) Hn) as Hi.
  destruct (lookup_lt_is_Some_2 bs (computeBucketIndex n (node_hash node))) as [b Hb]; [lia|].
  destruct (concat_alter (cons node) _ _ _ Hb) as (rest & H1 & H2).
  unfold attach. rewrite H2, H1. done.
Qed.

Lemma attach_placed n node bs :
  placed n bs -> node_hash node = computeHash (node_name node) (length (node_name node)) ->
  placed n (attach (computeBucketIndex n (node_hash node)) node bs).
Proof.
  intros Hp Hh i b x Hb Hx. unfold attach in Hb.
  destruct (decide (computeBucketIndex n (node_hash node) = i)) as [Hi|Hi].
  - rewrite Hi in Hb. rewrite list_lookup_alter_eq in Hb.
    destruct (bs !! i) as [b0|] eqn:E0; simplify_eq/=.
    apply elem_of_cons in Hx as [->|Hx]; [done|]. by eapply Hp.
  - rewrite list_lookup_alter_ne in Hb by done. by eapply Hp.
Qed.

Lemma placed_empty n k : placed n (replicate k []).
Proof. intros i b node [-> _]%lookup_replicate. set_solver. Qed.

Lemma reattach_perm n l : forall bs,
  (0 < n)%nat -> length bs = n ->
  Forall (fun x => node_hash x = computeHash (node_name x) (length (node_name x))) l ->
  placed n bs ->
  let bs' := foldl (fun bs node => attach (computeBucketIndex n (node_hash node)) node bs) bs l in
  concat bs' ≡ₚ l ++ concat bs /\ length bs' = n /\ placed n bs'.
Proof.
  induction l as [|x l IH]; intros bs Hn Hl Hh Hp; simpl; [done|].
  apply Forall_cons in Hh as [Hx Hh].
  destruct (IH (attach (computeBucketIndex n (node_hash x)) x bs)) as (H1 & H2 & H3);
    [done|unfold attach; by rewrite length_alter|done|by apply attach_placed|].
  split_and!; [|done|done]. rewrite H1, attach_perm by done. by rewrite Permutation_middle.
Qed.

Lemma placed_hashes n bs :
  placed n bs ->
  Forall (fun x => node_hash x = computeHash (node_name x) (length (node_name x))) (concat bs).
Proof.
  intros Hp. apply Forall_forall. intros x Hx.
  apply list_elem_of_In, in_concat in Hx as (b & Hb & Hx).
  apply list_elem_of_In in Hb, Hx. apply list_elem_of_lookup in Hb as [i Hi].
  by destruct (Hp i b x Hi Hx).
Qed.

Lemma computeThresholds_ok t : ht_ok t -> ht_ok (computeThresholds t).
Proof. done. Qed.

Lemma resize_ok newN t :
  0 < newN -> ht_ok t -> ht_ok (resize newN t) /\ entries (resize newN t) = entries t /\
  m_size (resize newN t) = m_size t.
Proof.
  intros HN (Ho & Hn & Hp & Hu & Hs). unfold resize. case_match; [done|].
  set (n := Z.to_nat newN).
  destruct (reattach_perm n (nodes t) (replicate n [])) as (H1 & H2 & H3);
    [lia|apply length_replicate|by eapply placed_hashes|apply placed_empty|].
  set (bs' := foldl _ _ _) in *.
  assert (concat bs' ≡ₚ nodes t) as Hperm.
  { rewrite H1. unfold n. clear.
    induction (Z.to_nat newN) as [|k IH]; simpl; [by rewrite app_nil_r|done]. }
  split_and!; [|unfold entries, nodes; simpl|done].
  - split_and!; simpl; [done|lia|by rewrite H2| |].
    + unfold nodes. simpl. by eapply uniq_perm.
    + unfold nodes in *. simpl. by rewrite Hperm.
  - symmetry. by apply entries_perm.
Qed.

Lemma bucket_uniq t i b :
  uniq_keys node_name (nodes t) -> m_buckets t !! i = Some b -> uniq_keys node_name b.
Proof.
  intros Hu Hb. destruct (concat_alter id i _ _ Hb) as (rest & H1 & _).
  eapply uniq_keys_sublist; [|eapply uniq_perm; [exact H1|exact Hu]].
  by apply sublist_inserts_r.
Qed.

Lemma nodes_elem t x :
  x ∈ nodes t <-> exists i b, m_buckets t !! i = Some b /\ x ∈ b.
Proof.
  unfold nodes. rewrite list_elem_of_In, in_concat. split.
  - intros (b & Hb & Hx). apply list_elem_of_In in Hb, Hx.
    apply list_elem_of_lookup in Hb as [i Hi]. eauto.
  - intros (i & b & Hb & Hx). exists b. split; apply list_elem_of_In; [|done].
    apply list_elem_of_lookup. eauto.
Qed.

(** The bucket of a node of the table. *)
Lemma node_bucket t x :
  ht_ok t -> x ∈ nodes t ->
  node_hash x = computeHash (node_name x) (length (node_name x)) /\
  exists b, m_buckets t !! computeBucketIndex (length (m_buckets t)) (node_hash x) = Some b /\ x ∈ b.
Proof.
  intros (_ & _ & Hp & _) (i & b & Hb & Hx)%nodes_elem.
  destruct (Hp i b x Hb Hx) as [Hi Hh]. split; [done|]. rewrite Hi. eauto.
Qed.

(** Searching by name in the whole table is searching in the bucket of the name. *)
Lemma find_bucketOf t name :
  ht_ok t ->
  find_if (has_key node_name name) (bucketOf t (computeHash name (length name))) =
  find_if (has_key node_name name) (nodes t).
Proof.
  intros Hok. pose proof Hok as (_ & Hn & _ & Hu & _). unfold bucketOf.
  pose proof (bucket_index_lt (length (m_buckets t)) (computeHash name (length name)) Hn) as Hi.
  destruct (lookup_lt_is_Some_2 _ _ Hi) as [b Hb]. rewrite Hb. simpl.
  destruct (find_if (has_key node_name name) (nodes t)) as [x|] eqn:E0.
  - apply find_key_Some in E0 as [Hx <-].
    destruct (node_bucket t x Hok Hx) as (Hh & b' & Hb' & Hxb').
    rewrite Hh in Hb'. assert (b' = b) as -> by congruence.
    apply find_key_elem; [by eapply bucket_uniq|done|done].
  - apply find_key_None. apply find_key_None in E0. intros Hin. apply E0.
    apply list_elem_of_fmap in Hin as (x & -> & Hx). apply list_elem_of_fmap.
    exists x. split; [done|]. apply nodes_elem. eauto.
Qed.

(** The search loop over one bucket finds the node of a name of the table. *)
Lemma find_in_bucket t name :
  ht_ok t ->
  find_if (node_matches (computeHash name (length name)) name)
          (bucketOf t (computeHash name (length name))) =
  find_if (has_key node_name name) (nodes t).
Proof.
  intros Hok. rewrite <-find_bucketOf by done. apply find_if_ext. intros y Hy.
  pose proof Hok as (_ & _ & Hp & _). unfold bucketOf in Hy.
  destruct (m_buckets t !! _) as [b|] eqn:Hb; [|by apply not_elem_of_nil in Hy].
  destruct (Hp _ b y Hb Hy) as [_ Hh]. unfold node_matches, has_key.
  case_bool_decide as E1; [|by rewrite andb_false_r].
  rewrite Hh, E1. by rewrite Z.eqb_refl.
Qed.

Lemma take_hash (name : Name) k : (k <= length name)%nat ->
  computeHash name k = computeHash (take k name) (length (take k name)).
Proof. intros Hk. rewrite length_take, Nat.min_l by done. by rewrite computeHash_take. Qed.

Lemma ht_find_ok t name k :
  ht_ok t -> (k <= length name)%nat ->
  node_entry <$> ht_find name k t = entries t !! take k name.
Proof.
  intros Hok Hk. rewrite entries_lookup, <-find_in_bucket by done.
  unfold ht_find, findOrInsert, getPrefix. rewrite (take_hash name k Hk).
  by destruct (find_if _ _).
Qed.

Lemma expand_pos f n : float_of_int 1 <= f -> 0 < n -> 0 < float_to_int (float_mul f (float_of_int n)).
Proof.
  intros Hf Hn. rewrite (of_int_exact 24) in Hf by lia.
  assert (1 * 2 ^ 149 <= float_of_int n) as H1.
  { rewrite of_int_def. apply fround_ge_repr; [lia|lia| |lia]. apply repr_int; lia. }
  assert (1 * 2 ^ 149 <= float_mul f (float_of_int n)) as H2.
  { rewrite fmul_def. apply fround_ge_repr; [lia|lia|apply repr_int; lia|nia]. }
  rewrite to_int_def. apply Z.quot_str_pos. lia.
Qed.

Lemma ht_insert_fresh t name k :
  ht_ok t -> (k <= length name)%nat -> entries t !! take k name = None ->
  let h := computeHash name k in
  let '(t', node, isNew) := findOrInsert name k h true t in
  ht_ok t' /\ isNew = true /\ node = Some (mkNode h (take k name) (newEntry (take k name))) /\
  entries t' = <[take k name := newEntry (take k name)]> (entries t) /\
  m_size t' = m_size t + 1.
Proof.
  intros Hok Hk Hnone. cbv zeta. unfold findOrInsert, getPrefix.
  rewrite (take_hash name k Hk). set (nm := take k name) in *.
  rewrite find_in_bucket by done.
  rewrite entries_lookup in Hnone. apply fmap_None in Hnone. rewrite Hnone.
  set (h := computeHash nm (length nm)). set (node := mkNode h nm _).
  destruct Hok as (Ho & Hn & Hp & Hu & Hs).
  set (bs := attach _ node _).
  assert (concat bs ≡ₚ node :: nodes t) as Hperm by (by apply attach_perm).
  set (t1 := mkHashtable bs _ _ _ _).
  assert (length bs = length (m_buckets t)) as Hlb by (apply length_alter).
  assert (uniq_keys node_name (node :: nodes t)) as Hun.
  { apply find_key_None in Hnone. by apply NoDup_cons. }
  assert (ht_ok t1) as Hok1.
  { split_and!; simpl; [done|by rewrite Hlb| | |].
    - rewrite Hlb. by apply attach_placed.
    - eapply uniq_perm; [|exact Hun]. done.
    - unfold nodes. simpl. rewrite Hperm. simpl. lia. }
  assert (entries t1 = <[nm := newEntry nm]> (entries t)) as He1.
  { unfold entries at 1. rewrite <-(entries_perm (node :: nodes t)); [done|done|by symmetry]. }
  destruct (m_expandThreshold t1 <? m_size t1); [|by rewrite He1].
  destruct (resize_ok (float_to_int (float_mul (expandFactor (m_options t1))
    (float_of_int (getNBuckets t1)))) t1) as (R1 & R2 & R3); [|done|].
  { apply expand_pos; [by destruct Ho|]. unfold getNBuckets. simpl. lia. }
  rewrite R2, R3. done.
Qed.

Lemma ht_insert_present t name k e :
  ht_ok t -> (k <= length name)%nat -> entries t !! take k name = Some e ->
  exists node, findOrInsert name k (computeHash name k) true t = (t, Some node, false) /\
    node_name node = take k name /\ node_entry node = e.
Proof.
  intros Hok Hk He. unfold findOrInsert, getPrefix. rewrite (take_hash name k Hk).
  rewrite find_in_bucket by done. rewrite entries_lookup in He.
  apply fmap_Some in He as (node & Hf & ->). rewrite Hf. exists node.
  by apply find_key_Some in Hf as [_ ?].
Qed.

Lemma nodes_insert_delete (x : Node) l :
  uniq_keys node_name (x :: l) ->
  (list_to_map ((fun node => (node_name node, node_entry node)) <$> l) : gmap Name E) =
  delete (node_name x) (list_to_map ((fun node => (node_name node, node_entry node)) <$> (x :: l))).
Proof.
  intros [Hx _]%NoDup_cons. csimpl. rewrite delete_insert_id; [done|].
  rewrite lookup_list_to_map_nodes. apply fmap_None. by apply find_key_None.
Qed.

Lemma detach_perm t node :
  ht_ok t -> node ∈ nodes t ->
  nodes t ≡ₚ node :: concat (detach (computeBucketIndex (length (m_buckets t)) (node_hash node))
                               (node_name node) (m_buckets t)).
Proof.
  intros Hok Hin. destruct (node_bucket t node Hok Hin) as (_ & b & Hb & Hnb).
  pose proof Hok as (_ & _ & _ & Hu & _).
  destruct (concat_alter (erase_first (has_key node_name (node_name node))) _ _ _ Hb)
    as (rest & H1 & H2).
  unfold nodes, detach. rewrite H2, H1.
  rewrite <-(erase_first_perm (has_key node_name (node_name node)) b node) at 1; [done|].
  apply find_key_elem; [by eapply bucket_uniq|done|done].
Qed.

Lemma detach_placed n bs i name : placed n bs -> placed n (detach i name bs).
Proof.
  intros Hp j b x Hb Hx. unfold detach in Hb. destruct (decide (i = j)) as [<-|Hne].
  - rewrite list_lookup_alter_eq in Hb. destruct (bs !! i) as [b0|] eqn:E0; simplify_eq/=.
    apply (Hp i b0 x E0). by eapply elem_of_sublist; [|apply erase_first_sublist].
  - rewrite list_lookup_alter_ne in Hb by done. by eapply Hp.
Qed.

Lemma ht_erase_ok t node :
  ht_ok t -> node ∈ nodes t ->
  ht_ok (ht_erase node t) /\ entries (ht_erase node t) = delete (node_name node) (entries t) /\
  m_size (ht_erase node t) = m_size t - 1.
Proof.
  intros Hok Hin. pose proof (detach_perm t node Hok Hin) as Hperm.
  destruct Hok as (Ho & Hn & Hp & Hu & Hs). unfold ht_erase.
  set (i := computeBucketIndex _ (node_hash node)) in *.
  set (t1 := mkHashtable (detach i (node_name node) (m_buckets t)) _ _ _ _).
  assert (length (m_buckets t1) = length (m_buckets t)) as Hlb by apply length_alter.
  pose proof (uniq_perm _ _ Hperm Hu) as Hun.
  assert (ht_ok t1) as Hok1.
  { split_and!; [done|by rewrite Hlb|by rewrite Hlb; apply detach_placed|
      by apply NoDup_cons in Hun as [_ ?]|].
    unfold nodes at 1. simpl. rewrite Hs, Hperm. simpl. lia. }
  assert (entries t1 = delete (node_name node) (entries t)) as He1.
  { unfold entries at 2. rewrite (entries_perm _ _ Hu Hperm). by apply nodes_insert_delete. }
  destruct (m_size t1 <? m_shrinkThreshold t1); [|done].
  match goal with |- context [resize ?z t1] =>
    destruct (resize_ok z t1) as (R1 & R2 & R3); [|done|] end.
  { destruct Ho. simpl. lia. }
  rewrite R2, R3. done.
Qed.

Definition upd_node (f : E -> E) (node : Node) : Node :=
  mkNode (node_hash node) (node_name node) (f (node_entry node)).

Lemma update_placed n bs i name f :
  placed n bs -> placed n (alter (update_first (has_key node_name name) (upd_node f)) i bs).
Proof.
  intros Hp j b x Hb Hx. destruct (decide (i = j)) as [<-|Hne].
  - rewrite list_lookup_alter_eq in Hb. destruct (bs !! i) as [b0|] eqn:E0; simplify_eq/=.
    apply update_first_elem in Hx as (y & Hy & [->| ->]); apply (Hp i b0 y E0 Hy).
  - rewrite list_lookup_alter_ne in Hb by done. by eapply Hp.
Qed.

Lemma ht_update_ok t name f :
  ht_ok t -> ht_ok (ht_update name f t) /\ entries (ht_update name f t) = alter f name (entries t) /\
  m_size (ht_update name f t) = m_size t.
Proof.
  intros Hok. pose proof Hok as (Ho & Hn & Hp & Hu & Hs).
  pose proof (find_bucketOf t name Hok) as Hfb. unfold ht_update, bucketOf in *.
  fold (upd_node f). set (i := computeBucketIndex _ _) in *.
  destruct (lookup_lt_is_Some_2 (m_buckets t) i) as [b Hb]; [by apply bucket_index_lt|].
  rewrite Hb in Hfb. simpl in Hfb.
  destruct (concat_alter (update_first (has_key node_name name) (upd_node f)) i _ _ Hb)
    as (rest & H1 & H2).
  set (t1 := mkHashtable _ _ _ _ _).
  assert (node_name <$> nodes t1 ≡ₚ node_name <$> nodes t) as Hnames.
  { unfold nodes. simpl. rewrite H2, H1, !fmap_app, update_first_keys; done. }
  assert (uniq_keys node_name (nodes t1)) as Hu1 by (unfold uniq_keys; by rewrite Hnames).
  split_and!; [split_and!|apply map_eq; intros k|done]; simpl; rewrite ?length_alter; try done.
  - by apply update_placed.
  - rewrite Hs. by rewrite <-(length_fmap node_name (nodes t)), <-Hnames, length_fmap.
  - rewrite lookup_alter, !entries_lookup, (find_key_perm _ _ _ _ Hu1 H2), find_if_app. case_decide as Hk.
    + subst k. rewrite <-Hfb.
      destruct (find_if (has_key node_name name) b) as [x|] eqn:Eb.
      * erewrite find_update_same; [done|done|]. by apply find_key_Some in Eb as [_ ?].
      * rewrite update_first_id, Eb by done.
        rewrite (find_key_perm _ _ _ _ Hu H1), find_if_app, Eb in Hfb. by rewrite <-Hfb.
    + rewrite find_update_other by done. by rewrite (find_key_perm _ _ _ _ Hu H1), find_if_app.
Qed.

Lemma ht_new_ok o : options_ok o -> ht_ok (newHashtable o) /\ entries (newHashtable o) = ∅.
Proof.
  intros [Ho1 Ho2]. unfold newHashtable, computeThresholds, entries, nodes.
  assert (concat (replicate (Z.to_nat (initialSize o)) ([] : list Node)) = []) as Hc.
  { generalize (Z.to_nat (initialSize o)). by induction n. }
  split; [split_and!|]; simpl; rewrite ?length_replicate; unfold nodes; simpl; rewrite ?Hc; try done.
  - lia.
  - apply placed_empty.
  - by apply NoDup_nil.
Qed.

(** The node of a name, erased through its pointer. *)
Definition ht_erase_name (name : Name) (t : Hashtable) : Hashtable :=
  match ht_find name (length name) t with
  | Some node => ht_erase node t
  | None => t
  end.

Lemma ht_erase_name_ok t name :
  ht_ok t -> is_Some (entries t !! name) ->
  ht_ok (ht_erase_name name t) /\ entries (ht_erase_name name t) = delete name (entries t) /\
  m_size (ht_erase_name name t) = m_size t - 1.
Proof.
  intros Hok [e He]. unfold ht_erase_name, ht_find, findOrInsert, getPrefix.
  rewrite take_ge, find_in_bucket by done. rewrite entries_lookup in He.
  apply fmap_Some in He as (node & Hf & _). rewrite Hf. simpl.
  apply find_key_Some in Hf as [Hin <-]. by apply ht_erase_ok.
Qed.

Lemma entries_list t :
  ht_ok t -> node_entry <$> nodes t ≡ₚ (map_to_list (entries t)).*2.
Proof.
  intros (_ & _ & _ & Hu & _). unfold entries. rewrite map_to_list_to_map.
  - by rewrite <-list_fmap_compose.
  - rewrite <-list_fmap_compose. exact Hu.
Qed.

Lemma size_entries t : ht_ok t -> m_size t = Z.of_nat (size (entries t)).
Proof.
  intros Hok. pose proof Hok as (_ & _ & _ & _ & ->).
  apply entries_list, Permutation_length in Hok. rewrite !length_fmap, length_map_to_list in Hok. lia.
Qed.

End Hashtable.
Arguments Node : clear implicits.
Arguments Hashtable : clear implicits.

(** ** The interface of the name tree

    What [NameTree] relies on: a table of entries keyed by name, whose
    operations take the hash sequence of the name and answer as the finite map
    [nt_entries] does. *)
Class NodeTable (C : Type) `{NameComponent C} (E : Type) (newEntry : list C -> E) (T : Type) := {
  nt_find : list C -> nat -> T -> option E;
  nt_find_hashes : list C -> nat -> list Z -> T -> option (option E);
  nt_insert : list C -> nat -> list Z -> T -> option (T * option E * bool);
  nt_erase : list C -> T -> T;
  nt_update : list C -> (E -> E) -> T -> T;
  nt_list : T -> list E;
  nt_size : T -> Z;
  nt_ok : T -> Prop;
  nt_entries : T -> gmap (list C) E;
  nt_find_spec t name k : nt_ok t -> (k <= length name)%nat ->
    nt_find name k t = nt_entries t !! take k name;
  nt_find_hashes_spec t name k n : nt_ok t -> (k <= n <= length name)%nat ->
    nt_find_hashes name k (computeHashes name n) t = Some (nt_entries t !! take k name);
  nt_insert_spec t name k n : nt_ok t -> (k <= n <= length name)%nat ->
    exists t', nt_ok t' /\
      match nt_entries t !! take k name with
      | Some e => t' = t /\ nt_insert name k (computeHashes name n) t = Some (t, Some e, false)
      | None => nt_entries t' = <[take k name := newEntry (take k name)]> (nt_entries t) /\
          nt_insert name k (computeHashes name n) t =
            Some (t', Some (newEntry (take k name)), true)
      end;
  nt_erase_spec t name : nt_ok t -> is_Some (nt_entries t !! name) ->
    nt_ok (nt_erase name t) /\ nt_entries (nt_erase name t) = delete name (nt_entries t);
  nt_update_spec t name f : nt_ok t ->
    nt_ok (nt_update name f t) /\ nt_entries (nt_update name f t) = alter f name (nt_entries t);
  nt_list_spec t : nt_ok t -> nt_list t ≡ₚ (map_to_list (nt_entries t)).*2;
  nt_size_spec t : nt_ok t -> nt_size t = Z.of_nat (size (nt_entries t))
}.

Section Instances.
Context {C : Type} `{NameComponent C} {E : Type} (newEntry : list C -> E).

Lemma hashes_at (name : list C) k n :
  (k <= n <= length name)%nat -> computeHashes name n !! k = Some (computeHash name k).
Proof. intros. apply computeHashes_lookup; lia. Qed.

#[export] Program Instance hashtable_NodeTable : NodeTable C E newEntry (Hashtable C E) := {|
  nt_find name k t := fmap (M:=option) node_entry (ht_find newEntry name k t);
  nt_find_hashes name k hashes t :=
    fmap (M:=option) (fmap (M:=option) node_entry) (ht_find_hashes newEntry name k hashes t);
  nt_insert name k hashes t :=
    fmap (M:=option) (prod_map (prod_map id (fmap (M:=option) node_entry)) id)
      (ht_insert newEntry name k hashes t);
  nt_erase := ht_erase_name newEntry;
  nt_update := ht_update;
  nt_list t := fmap (M:=list) node_entry (nodes t);
  nt_size := m_size;
  nt_ok := ht_ok;
  nt_entries := entries
|}.
Next Obligation. intros; by apply ht_find_ok. Qed.
Next Obligation.
  intros t name k n Hok Hk. unfold ht_find_hashes. rewrite hashes_at by done. simpl.
  f_equal. apply ht_find_ok; [done|lia].
Qed.
Next Obligation.
  intros t name k n Hok Hk. unfold ht_insert. rewrite hashes_at by done. simpl.
  destruct (entries t !! take k name) as [e|] eqn:He.
  - destruct (ht_insert_present newEntry t name k e) as (node & -> & _ & <-); [done|lia|done|].
    by exists t.
  - pose proof (ht_insert_fresh newEntry t name k Hok ltac:(lia) He) as Hf. cbv zeta in Hf.
    destruct (findOrInsert _ _ _ _ _ _) as [[t' node] isNew].
    destruct Hf as (Hok' & -> & -> & He' & _). by exists t'.
Qed.
Next Obligation. intros t name Hok Hin. by destruct (ht_erase_name_ok newEntry t name Hok Hin) as (?&?&?). Qed.
Next Obligation. intros t name f Hok. by destruct (ht_update_ok t name f Hok) as (?&?&?). Qed.
Next Obligation. intros; by apply entries_list. Qed.
Next Obligation. intros; by apply size_entries. Qed.

End Instances.

(** ** Refinement of the finite map by sequences of operations *)

Section Runs.
Context {C : Type} `{NameComponent C} {E : Type} (newEntry : list C -> E).
Notation Name := (list C).

(** The calls on the table: [insert] and [find] of a prefix with the hash
    sequence of the name, [erase] of the node of a name when there is one, and a
    write to the entry of a name. *)
Inductive ht_op :=
| OpInsert (name : Name) (prefixLen : nat)
| OpFind (name : Name) (prefixLen : nat)
| OpErase (name : Name)
| OpUpdate (name : Name) (f : E -> E).

Definition op_ok (op : ht_op) : Prop :=
  match op with
  | OpInsert name k | OpFind name k => (k <= length name)%nat
  | _ => True
  end.

(** One call on a table; the answer is the entry and whether it is new, or
    [None] when the call is undefined. *)
Definition nt_step {T} `{!NodeTable C E newEntry T} (t : T) (op : ht_op) :
    T * option (option E * bool) :=
  match op with
  | OpInsert name k =>
      match nt_insert name k (computeHashes name (length name)) t with
      | Some (t', e, isNew) => (t', Some (e, isNew))
      | None => (t, None)
      end
  | OpFind name k => (t, (., false) <$> nt_find_hashes name k (computeHashes name (length name)) t)
  | OpErase name =>
      match nt_find name (length name) t with
      | Some e => (nt_erase name t, Some (Some e, false))
      | None => (t, Some (None, false))
      end
  | OpUpdate name f => (nt_update name f t, Some (None, false))
  end.

(** The same call on a finite map. *)
Definition map_step (m : gmap Name E) (op : ht_op) : gmap Name E * option (option E * bool) :=
  match op with
  | OpInsert name k =>
      match m !! take k name with
      | Some e => (m, Some (Some e, false))
      | None => (<[take k name := newEntry (take k name)]> m,
                 Some (Some (newEntry (take k name)), true))
      end
  | OpFind name k => (m, Some (m !! take k name, false))
  | OpErase name => (delete name m, Some (m !! name, false))
  | OpUpdate name f => (alter f name m, Some (None, false))
  end.

Fixpoint run_ops {S A} (step : S -> ht_op -> S * A) (s : S) (ops : list ht_op) : S * list A :=
  match ops with
  | [] => (s, [])
  | op :: ops' =>
      let '(s', a) := step s op in
      let '(s'', l) := run_ops step s' ops' in
      (s'', a :: l)
  end.

Lemma nt_step_refines {T} `{!NodeTable C E newEntry T} (t : T) op :
  nt_ok t -> op_ok op ->
  let '(t', a) := nt_step t op in
  nt_ok t' /\ (nt_entries t', a) = map_step (nt_entries t) op.
Proof.
  intros Hok Hop. destruct op as [name k|name k|name|name f]; simpl in *.
  - destruct (nt_insert_spec t name k (length name) Hok) as (t' & Hok' & Hi); [lia|].
    destruct (nt_entries t !! take k name) as [e|]; destruct Hi as [He ->]; subst; [done|].
    by rewrite He.
  - rewrite nt_find_hashes_spec by (done || lia). done.
  - rewrite nt_find_spec, take_ge by (done || lia).
    destruct (nt_entries t !! name) as [e|] eqn:He.
    + destruct (nt_erase_spec t name Hok) as [Hok' ->]; [by eexists|]. done.
    + split; [done|]. by rewrite delete_id.
  - destruct (nt_update_spec t name f Hok) as [Hok' ->]. done.
Qed.

Lemma nt_run_refines {T} `{!NodeTable C E newEntry T} ops : forall (t : T),
  nt_ok t -> Forall op_ok ops ->
  let '(t', l) := run_ops nt_step t ops in
  nt_ok t' /\ (nt_entries t', l) = run_ops map_step (nt_entries t) ops.
Proof.
  induction ops as [|op ops IH]; intros t Hok Hops; simpl; [done|].
  apply Forall_cons in Hops as [Hop Hops].
  pose proof (nt_step_refines t op Hok Hop) as Hstep.
  destruct (nt_step t op) as [t1 a]. destruct Hstep as [Hok1 <-].
  specialize (IH t1 Hok1 Hops). destruct (run_ops nt_step t1 ops) as [t2 l].
  destruct IH as [Hok2 <-]. done.
Qed.

End Runs.
Arguments ht_op C E : clear implicits.

(** C22: the chained hashtable implements a finite map from names to entries:
    whatever the sequence of inserts, finds, erases and writes, across growing
    and shrinking, every call answers as it would on the map, the table's size is
    the number of names in it, and every node stays in the bucket of its hash. *)
Theorem hashtable_refines_map {C : Type} `{NameComponent C} {E : Type} (newEntry : list C -> E)
    (o : HashtableOptions) (ops : list (ht_op C E)) :
  options_ok o -> Forall op_ok ops ->
  let '(t, answers) := run_ops (nt_step newEntry) (newHashtable o : Hashtable C E) ops in
  let '(m, answers') := run_ops (map_step newEntry) ∅ ops in
  ht_ok t /\ answers = answers' /\ entries t = m /\ m_size t = Z.of_nat (size m).
Proof.
  intros Ho Hops. destruct (ht_new_ok (C:=C) (E:=E) o Ho) as [Hok He].
  pose proof (nt_run_refines newEntry ops (newHashtable o) Hok Hops) as Hr.
  destruct (run_ops _ (newHashtable o) ops) as [t l]. simpl in Hr. rewrite He in Hr.
  destruct Hr as [Hok' <-]. split_and!; [done..|]. by apply size_entries.
Qed.

Example hashtable_refines_map_witness :
  let ops := [OpInsert [1; 2] 2; OpInsert [1; 3] 1; OpInsert [7] 1; OpErase [1; 2]; OpFind [1; 2] 1] in
  let t := (run_ops (nt_step (fun _ => tt)) (newHashtable (newOptions 2)) ops).1 in
  ht_ok t /\ m_size t = 2.
Proof.
  pose proof (hashtable_refines_map (fun _ : list Z => tt) (newOptions 2)
    [OpInsert [1; 2] 2; OpInsert [1; 3] 1; OpInsert [7] 1; OpErase [1; 2]; OpFind [1; 2] 1]) as Ht.
  cbv zeta. destruct (run_ops _ (newHashtable (newOptions 2)) _) as [t l] eqn:E1.
  destruct (run_ops (map_step (fun _ : list Z => tt)) ∅ _) as [m l'] eqn:E2.
  destruct Ht as (Hok & _ & _ & Hs).
  - split; [simpl; lia|]. apply Z.leb_le. vm_compute. done.
  - repeat constructor; simpl; lia.
  - split; [done|]. simpl. rewrite Hs. apply (f_equal fst) in E2. simpl in E2. subst m. done.
Defined.
