(* ===== verification/NameTree.v ===== *)
(** * Name tree

    Models [daemon/table/name-tree-entry.hpp/.cpp], [name-tree.hpp/.cpp] and the
    iterators of [name-tree-iterator.cpp] that [findAllMatches] and
    [fullEnumerate] use. The tree lives in a [NodeTable], the interface of
    [Hashtable.v]; a pointer to an entry is the name of the entry, so that two
    pointers are equal when they point to the same entry, and following a pointer
    is a lookup that fails ([None]) when the entry is gone. The entries of the
    FIB, PIT, measurements and strategy choice tables that hang off a name tree
    entry are parameters of this file. *)

From S2P Require Import Prelude Ndn Hashtable.
Local Open Scope Z_scope.

(** [FIB_MAX_DEPTH] of [fib.hpp], returned by [NameTree::getMaxDepth]. *)
Definition getMaxDepth : nat := 32.

Record Entry {C F P M S : Type} := mkEntry {
  m_name : list C;
  m_parent : option (list C);
  m_children : list (list C);
  m_fibEntry : option F;
  m_pitEntries : list P;
  m_measurementsEntry : option M;
  m_strategyChoiceEntry : option S
}.
Arguments Entry : clear implicits.

Section EntryOps.
Context {C F P M S : Type} `{NameComponent C}.
Notation Name := (list C).
Notation Entry := (Entry C F P M S).
Implicit Types e : Entry.

(** [Entry::Entry(name, node)]. *)
Definition newEntry (name : Name) : Entry := mkEntry _ _ _ _ _ name None [] None [] None None.

Definition set_parent (p : option Name) e : Entry :=
  mkEntry _ _ _ _ _ (m_name e) p (m_children e) (m_fibEntry e) (m_pitEntries e)
    (m_measurementsEntry e) (m_strategyChoiceEntry e).
Definition set_children (l : list Name) e : Entry :=
  mkEntry _ _ _ _ _ (m_name e) (m_parent e) l (m_fibEntry e) (m_pitEntries e)
    (m_measurementsEntry e) (m_strategyChoiceEntry e).
Definition set_pitEntries (l : list P) e : Entry :=
  mkEntry _ _ _ _ _ (m_name e) (m_parent e) (m_children e) (m_fibEntry e) l
    (m_measurementsEntry e) (m_strategyChoiceEntry e).
Definition setFibEntry (f : option F) e : Entry :=
  mkEntry _ _ _ _ _ (m_name e) (m_parent e) (m_children e) f (m_pitEntries e)
    (m_measurementsEntry e) (m_strategyChoiceEntry e).
Definition setMeasurementsEntry (x : option M) e : Entry :=
  mkEntry _ _ _ _ _ (m_name e) (m_parent e) (m_children e) (m_fibEntry e) (m_pitEntries e)
    x (m_strategyChoiceEntry e).
Definition setStrategyChoiceEntry (x : option S) e : Entry :=
  mkEntry _ _ _ _ _ (m_name e) (m_parent e) (m_children e) (m_fibEntry e) (m_pitEntries e)
    (m_measurementsEntry e) x.

Definition hasChildren e : bool := negb (bool_decide (m_children e = [])).

Definition is_set {A} (x : option A) : bool := match x with Some _ => true | None => false end.

Definition hasTableEntries e : bool :=
  is_set (m_fibEntry e) || negb (match m_pitEntries e with [] => true | _ => false end) ||
  is_set (m_measurementsEntry e) || is_set (m_strategyChoiceEntry e).

Definition isEmpty e : bool := negb (hasChildren e) && negb (hasTableEntries e).

Definition insertPitEntry (p : P) e : Entry := set_pitEntries (m_pitEntries e ++ [p]) e.

(** The entry that [same] tells apart is erased. *)
Definition erasePitEntry (same : P -> bool) e : Entry := set_pitEntries (swap_remove same (m_pitEntries e)) e.

End EntryOps.

Section NameTree.
Context {C F P M S : Type} `{NameComponent C}.
Notation Name := (list C).
Notation Entry := (Entry C F P M S).
Context {T : Type} `{!NodeTable C Entry newEntry T}.
Implicit Types (t : T) (name n : Name) (e : Entry).

(** Following a pointer to an entry. *)
Definition deref n t : option Entry := nt_find n (length n) t.

(** [child.setParent(parent)]. *)
Definition setParent n p t : T :=
  nt_update p (fun e => set_children (m_children e ++ [n]) e) (nt_update n (set_parent (Some p)) t).

(** [child.unsetParent()], where [p] is [child.m_parent]. *)
Definition unsetParent n p t : T :=
  nt_update n (set_parent None)
    (nt_update p (fun e => set_children (erase_first (has_key id n) (m_children e)) e) t).

(** One iteration of the loop of [lookup]. *)
Definition lookup_step name (hashes : list Z) (st : option (T * option Name)) (i : nat) :
    option (T * option Name) :=
  '(t, parent) ← st;
  '(t, node, isNew) ← nt_insert name i hashes t;
  e ← node;
  let t := match parent with
           | Some p => if (isNew : bool) then setParent (m_name e) p t else t
           | None => t
           end in
  Some (t, Some (m_name e)).

(** [lookup(name, prefixLen)]: the pointer to the entry, and the tree. *)
Definition lookup name (prefixLen : nat) t : option (T * Name) :=
  let hashes := computeHashes name prefixLen in
  '(t, node) ← foldl (lookup_step name hashes) (Some (t, None)) (seq 0 (prefixLen + 1));
  n ← node;
  Some (t, n).

(** The loop of [eraseIfEmpty]; the fuel is spent one step per ancestor. *)
Fixpoint eraseIfEmpty_loop (fuel : nat) (entry : option Name) (canEraseAncestors : bool)
    (nErased : Z) t : option (T * Z) :=
  match entry with
  | None => Some (t, nErased)
  | Some n =>
      e ← deref n t;
      if isEmpty e then
        match fuel with
        | O => None
        | Datatypes.S fuel' =>
            let parent := m_parent e in
            let t := match parent with Some p => unsetParent n p t | None => t end in
            let t := nt_erase n t in
            let nErased := nErased + 1 in
            if canEraseAncestors then eraseIfEmpty_loop fuel' parent canEraseAncestors nErased t
            else Some (t, nErased)
        end
      else Some (t, nErased)
  end.

Definition eraseIfEmpty n (canEraseAncestors : bool) t : option (T * Z) :=
  eraseIfEmpty_loop (Datatypes.S (length n)) (Some n) canEraseAncestors 0 t.

Definition findExactMatch name (prefixLen : nat) t : option Entry :=
  let prefixLen := Nat.min (length name) prefixLen in
  if (getMaxDepth <? prefixLen)%nat then None else nt_find name prefixLen t.

(** The descending loop of [findLongestPrefixMatch(name, sel)]; [i] is one more
    than the loop variable. *)
Fixpoint findLPM_loop name (hashes : list Z) (sel : Entry -> bool) t (i : nat) :
    option (option Entry) :=
  match i with
  | O => Some None
  | Datatypes.S i' =>
      node ← nt_find_hashes name i' hashes t;
      match node with
      | Some e => if sel e then Some (Some e) else findLPM_loop name hashes sel t i'
      | None => findLPM_loop name hashes sel t i'
      end
  end.

Definition findLongestPrefixMatch name (sel : Entry -> bool) t : option (option Entry) :=
  let depth := Nat.min (length name) getMaxDepth in
  findLPM_loop name (computeHashes name depth) sel t (Datatypes.S depth).

(** [findLongestPrefixMatch(entry, sel)]: climbs the parent pointers. *)
Fixpoint findLPM_entry_loop (fuel : nat) (entry : option Name) (sel : Entry -> bool) t :
    option (option Entry) :=
  match entry with
  | None => Some None
  | Some n =>
      e ← deref n t;
      if sel e then Some (Some e)
      else match fuel with
           | O => None
           | Datatypes.S fuel' => findLPM_entry_loop fuel' (m_parent e) sel t
           end
  end.

Definition findLongestPrefixMatch_entry n (sel : Entry -> bool) t : option (option Entry) :=
  findLPM_entry_loop (Datatypes.S (length n)) (Some n) sel t.

(** The loop of [findLongestPrefixMatch(pitEntry, sel)] that goes deeper. *)
Fixpoint deeper_loop name (k i : nat) (nte : Name) t : Name :=
  match k with
  | O => nte
  | Datatypes.S k' =>
      match findExactMatch name i t with
      | None => nte
      | Some exact => deeper_loop name k' (Datatypes.S i) (m_name exact) t
      end
  end.

(** [nte] is the entry that the PIT entry of [name] is attached to. *)
Definition findLongestPrefixMatch_pit name (nte : Name) (sel : Entry -> bool) t :
    option (option Entry) :=
  let depth := Nat.min (length name) getMaxDepth in
  let nte :=
    if (length nte <? length name)%nat
    then deeper_loop name (depth - length nte) (length nte + 1) nte t
    else nte in
  findLongestPrefixMatch_entry nte sel t.

(** [PrefixMatchImpl::advance] iterated from the entry [ref] up: the entries
    that the range of [findAllMatches] visits. *)
Fixpoint prefixMatch_loop (fuel : nat) (entry : option Name) (sel : Entry -> bool) t :
    option (list Entry) :=
  match entry with
  | None => Some []
  | Some n =>
      e ← deref n t;
      rest ← match fuel with
             | O => match m_parent e with None => Some [] | Some _ => None end
             | Datatypes.S fuel' => prefixMatch_loop fuel' (m_parent e) sel t
             end;
      Some (if sel e then e :: rest else rest)
  end.

Definition findAllMatches name (sel : Entry -> bool) t : option (list Entry) :=
  ref ← findLongestPrefixMatch name sel t;
  match ref with
  | None => Some []
  | Some e => prefixMatch_loop (length (m_name e)) (Some (m_name e)) sel t
  end.

(** The entries that the range of [fullEnumerate] visits, in bucket order. *)
Definition fullEnumerate (sel : Entry -> bool) t : list Entry :=
  remove_if (fun e => negb (sel e)) (nt_list t).

(** ** The shape of the tree *)

Implicit Types m : gmap Name Entry.

Definition parent_of n : option Name := match n with [] => None | _ => Some (parentName n) end.

(** The four tables of an entry. *)
Definition tables e : option F * list P * option M * option S :=
  (m_fibEntry e, m_pitEntries e, m_measurementsEntry e, m_strategyChoiceEntry e).

Definition tables_at n m : option F * list P * option M * option S :=
  match m !! n with Some e => tables e | None => (None, [], None, None) end.

(** Every entry but the root hangs off the entry of its parent name, and its
    children are the entries of the names one component longer. *)
Definition entry_wf m n e : Prop :=
  m_name e = n /\ (length n <= getMaxDepth)%nat /\
  m_parent e = parent_of n /\
  (forall p, parent_of n = Some p -> is_Some (m !! p)) /\
  NoDup (m_children e) /\
  (forall c, c ∈ m_children e <-> parent_of c = Some n /\ is_Some (m !! c)).

Definition nt_wf m : Prop := forall n e, m !! n = Some e -> entry_wf m n e.

Lemma parent_of_length n p : parent_of n = Some p -> length n = Datatypes.S (length p).
Proof.
  unfold parent_of, parentName. destruct n as [|c n]; [done|]. intros [= <-].
  rewrite length_take. simpl. lia.
Qed.

Lemma parent_of_prefix n p : parent_of n = Some p -> p `prefix_of` n.
Proof.
  unfold parent_of, parentName. destruct n as [|c n]; [done|]. intros Hp.
  apply (inj Some) in Hp. subst p. exists (drop (length n) (c :: n)). by rewrite take_drop.
Qed.

Lemma parent_of_ne n p : parent_of n = Some p -> n <> p.
Proof. intros Hp%parent_of_length ->. lia. Qed.

Lemma parent_of_take name i :
  (i < length name)%nat -> parent_of (take (Datatypes.S i) name) = Some (take i name).
Proof.
  intros Hi. unfold parent_of, parentName.
  destruct (take (Datatypes.S i) name) eqn:E0.
  - apply (f_equal length) in E0. rewrite length_take in E0. cbn [length] in E0. lia.
  - rewrite <-E0, length_take, take_take. do 2 f_equal. lia.
Qed.

(** Adding the entry of [n] under its parent. *)
Definition grow n m : gmap Name Entry :=
  match parent_of n with
  | None => <[n := newEntry n]> m
  | Some p => alter (fun e => set_children (m_children e ++ [n]) e) p
                (alter (set_parent (Some p)) n (<[n := newEntry n]> m))
  end.

(** Removing the childless entry of [n]. *)
Definition prune n m : gmap Name Entry :=
  match parent_of n with
  | None => delete n m
  | Some p => delete n (alter (set_parent None) n
                (alter (fun e => set_children (erase_first (has_key id n) (m_children e)) e) p m))
  end.

Lemma grow_lookup n m k :
  grow n m !! k =
    if decide (k = n) then Some (set_parent (parent_of n) (newEntry n))
    else if decide (parent_of n = Some k)
         then (fun e => set_children (m_children e ++ [n]) e) <$> m !! k else m !! k.
Proof.
  unfold grow. destruct (parent_of n) as [p|] eqn:Ep.
  - pose proof (parent_of_ne _ _ Ep) as Hne. destruct (decide (k = n)) as [->|Hk].
    + rewrite lookup_alter_ne, lookup_alter_eq, lookup_insert_eq by done. done.
    + rewrite lookup_alter. destruct (decide (p = k)) as [->|Hpk].
      * rewrite decide_True, lookup_alter_ne, lookup_insert_ne by done. done.
      * rewrite decide_False, lookup_alter_ne, lookup_insert_ne by congruence. done.
  - rewrite (decide_False (P := None = Some k)) by done.
    case_decide; subst; [by rewrite lookup_insert_eq|by rewrite lookup_insert_ne].
Qed.

Lemma prune_lookup n m k :
  prune n m !! k =
    if decide (k = n) then None
    else if decide (parent_of n = Some k)
         then (fun e => set_children (erase_first (has_key id n) (m_children e)) e) <$> m !! k
         else m !! k.
Proof.
  unfold prune. destruct (parent_of n) as [p|] eqn:Ep.
  - destruct (decide (k = n)) as [->|Hk]; [by rewrite lookup_delete_eq|].
    rewrite lookup_delete_ne, lookup_alter_ne, lookup_alter by done.
    destruct (decide (p = k)) as [->|Hpk]; [by rewrite decide_True|by rewrite decide_False by congruence].
  - rewrite (decide_False (P := None = Some k)) by done.
    case_decide; subst; [by rewrite lookup_delete_eq|by rewrite lookup_delete_ne].
Qed.

Lemma grow_is_Some n m k : is_Some (grow n m !! k) <-> k = n \/ is_Some (m !! k).
Proof.
  rewrite grow_lookup. repeat case_decide; subst.
  - split; [by left|eauto].
  - rewrite fmap_is_Some. naive_solver.
  - naive_solver.
Qed.

Lemma prune_is_Some n m k : is_Some (prune n m !! k) <-> k <> n /\ is_Some (m !! k).
Proof.
  rewrite prune_lookup. repeat case_decide; subst.
  - split; [by intros [??]|naive_solver].
  - rewrite fmap_is_Some. naive_solver.
  - naive_solver.
Qed.

Lemma grow_tables n m k : m !! n = None -> tables_at k (grow n m) = tables_at k m.
Proof.
  intros Hn. unfold tables_at. rewrite grow_lookup. repeat case_decide; subst.
  - by rewrite Hn.
  - by destruct (m !! k).
  - done.
Qed.

Lemma prune_tables n m k :
  k <> n \/ tables_at n m = (None, [], None, None) -> tables_at k (prune n m) = tables_at k m.
Proof.
  intros Hn. unfold tables_at in *. rewrite prune_lookup. repeat case_decide; subst.
  - by destruct Hn as [?| ->].
  - by destruct (m !! k).
  - done.
Qed.

Lemma grow_wf n m :
  nt_wf m -> m !! n = None -> (length n <= getMaxDepth)%nat ->
  (forall p, parent_of n = Some p -> is_Some (m !! p)) -> nt_wf (grow n m).
Proof.
  intros Hwf Hn Hlen Hpar k e Hk. rewrite grow_lookup in Hk. unfold entry_wf.
  setoid_rewrite grow_is_Some. case_decide as Hkn; [|case_decide as Hpk].
  - simplify_eq/=. split_and!; try done; [eauto|by apply NoDup_nil|].
    intros c. split; [by intros ?%not_elem_of_nil|]. intros (Hc & [->|[ce Hce]]).
    + by apply parent_of_ne in Hc.
    + destruct (Hwf c ce Hce) as (_ & _ & _ & H1 & _). apply H1 in Hc as [??]. congruence.
  - apply fmap_Some in Hk as (e0 & He0 & ->). simpl.
    destruct (Hwf k e0 He0) as (H1 & H2 & H3 & H4 & H5 & H6).
    split_and!; try done; [eauto| |].
    + apply NoDup_app. split_and!; [done| |apply NoDup_singleton].
      intros x Hx ->%list_elem_of_singleton. apply H6 in Hx as [_ [??]]. congruence.
    + intros c. rewrite elem_of_app, list_elem_of_singleton, H6. naive_solver.
  - destruct (Hwf k e Hk) as (H1 & H2 & H3 & H4 & H5 & H6).
    split_and!; try done; [eauto|]. intros c. rewrite H6. naive_solver.
Qed.

Lemma prune_wf n m e :
  nt_wf m -> m !! n = Some e -> m_children e = [] -> nt_wf (prune n m).
Proof.
  intros Hwf Hn Hch k ek Hk. rewrite prune_lookup in Hk. unfold entry_wf.
  setoid_rewrite prune_is_Some. case_decide as Hkn; [done|].
  assert (forall c, is_Some (m !! c) -> parent_of c = Some n -> False) as Hleaf.
  { intros c Hc Hp. destruct (Hwf n e Hn) as (_ & _ & _ & _ & _ & H6).
    rewrite Hch in H6. destruct (H6 c) as [_ Hx]. by apply not_elem_of_nil in Hx. }
  case_decide as Hpk.
  - apply fmap_Some in Hk as (e0 & He0 & ->). simpl.
    destruct (Hwf k e0 He0) as (H1 & H2 & H3 & H4 & H5 & H6).
    split_and!; try done.
    + intros p Hp. split; [|by auto]. intros ->. by eapply Hleaf.
    + eapply sublist_NoDup; [done|apply erase_first_sublist].
    + intros c.
      assert (uniq_keys id (m_children e0)) as Hu by (unfold uniq_keys; by rewrite list_fmap_id).
      split.
      * intros Hc. destruct (decide (c = n)) as [->|Hne].
        { pose proof (find_erase_same id n _ Hu) as Hf. apply find_key_None in Hf.
          rewrite list_fmap_id in Hf. done. }
        assert (c ∈ m_children e0) as Hc' by (by eapply elem_of_sublist; [|apply erase_first_sublist]).
        apply H6 in Hc' as [??]. done.
      * intros (Hc & Hne & Hs). destruct (find_if (has_key id c) (erase_first (has_key id n) (m_children e0)))
          as [x|] eqn:Ef; [by apply find_key_Some in Ef as [? <-]|].
        rewrite find_erase_other in Ef by done. apply find_key_None in Ef.
        rewrite list_fmap_id in Ef. exfalso. apply Ef, H6. done.
  - destruct (Hwf k ek Hk) as (H1 & H2 & H3 & H4 & H5 & H6).
    split_and!; try done.
    + intros p Hp. split; [|by auto]. intros ->. by eapply Hleaf.
    + intros c. rewrite H6. split; [|naive_solver]. intros [Hc Hs]. split_and!; [done| |done].
      intros ->. by destruct (Hwf n e Hn) as (_ & _ & _ & H4' & _).
Qed.

(** ** Operations on the tree *)

Lemma deref_spec t n : nt_ok t -> deref n t = nt_entries t !! n.
Proof. intros. unfold deref. rewrite nt_find_spec, take_ge by (done || lia). done. Qed.

Lemma setParent_spec t n p :
  nt_ok t -> nt_ok (setParent n p t) /\
  nt_entries (setParent n p t) =
    alter (fun e => set_children (m_children e ++ [n]) e) p (alter (set_parent (Some p)) n (nt_entries t)).
Proof.
  intros Hok. unfold setParent.
  destruct (nt_update_spec t n (set_parent (Some p)) Hok) as [Hok1 <-].
  by apply nt_update_spec.
Qed.

(** [lookup] one name at a time. *)
Definition ensure m n : gmap Name Entry := match m !! n with Some _ => m | None => grow n m end.

Lemma ensure_ok m n :
  nt_wf m -> (length n <= getMaxDepth)%nat ->
  (forall p, parent_of n = Some p -> is_Some (m !! p)) ->
  nt_wf (ensure m n) /\ (forall k, is_Some (ensure m n !! k) <-> k = n \/ is_Some (m !! k)) /\
  (forall k, tables_at k (ensure m n) = tables_at k m).
Proof.
  intros Hwf Hl Hp. unfold ensure. destruct (m !! n) as [e|] eqn:E0.
  - split_and!; [done| |done]. naive_solver.
  - split_and!; [by apply grow_wf|apply grow_is_Some|]. intros. by apply grow_tables.
Qed.

Lemma lookup_step_ok t name k i parent :
  nt_ok t -> nt_wf (nt_entries t) -> (i <= k <= length name)%nat ->
  parent = parent_of (take i name) ->
  exists t', lookup_step name (computeHashes name k) (Some (t, parent)) i =
               Some (t', Some (take i name)) /\
    nt_ok t' /\ nt_entries t' = ensure (nt_entries t) (take i name).
Proof.
  intros Hok Hwf Hi ->. unfold lookup_step, ensure. simpl.
  destruct (nt_insert_spec t name i k Hok ltac:(lia)) as (t' & Hok' & Hins).
  destruct (nt_entries t !! take i name) as [e|] eqn:E0.
  - destruct Hins as [-> ->]. simpl. destruct (Hwf _ _ E0) as (-> & _).
    exists t. by destruct (parent_of _).
  - destruct Hins as [He ->]. unfold grow. simpl. destruct (parent_of (take i name)) as [p|].
    + destruct (setParent_spec t' (take i name) p Hok') as [Hok2 He2]. rewrite He in He2. eauto.
    + eauto.
Qed.

Lemma lookup_loop_ok name k : (k <= length name)%nat -> (k <= getMaxDepth)%nat ->
  forall j i t, (i + j = k + 1)%nat -> nt_ok t -> nt_wf (nt_entries t) ->
  (forall p, parent_of (take i name) = Some p -> (i <= k)%nat -> is_Some (nt_entries t !! p)) ->
  exists t', foldl (lookup_step name (computeHashes name k)) 
               (Some (t, match i with O => None | Datatypes.S i' => Some (take i' name) end)) (seq i j) =
      Some (t', match (i + j)%nat with O => None | Datatypes.S i' => Some (take i' name) end) /\
    nt_ok t' /\ nt_wf (nt_entries t') /\
    (forall p, is_Some (nt_entries t' !! p) <->
       is_Some (nt_entries t !! p) \/ exists l, (i <= l <= k)%nat /\ p = take l name) /\
    (forall p, tables_at p (nt_entries t') = tables_at p (nt_entries t)).
Proof.
  intros Hk Hd. induction j as [|j IH]; intros i t Hij Hok Hwf Hpar.
  - simpl. exists t. rewrite Nat.add_0_r. split_and!; try done.
    intros p. split; [by left|]. intros [?|(l & ? & _)]; [done|lia].
  - cbn [seq foldl]. destruct (lookup_step_ok t name k i
      (match i with O => None | Datatypes.S i' => Some (take i' name) end)) as (t1 & Hs & Hok1 & He1);
      [done|done|lia| |].
    { destruct i; [done|]. symmetry. apply parent_of_take. lia. }
    assert (length (take i name) <= getMaxDepth)%nat as Hlen by (rewrite length_take; lia).
    destruct (ensure_ok (nt_entries t) (take i name) Hwf Hlen) as (Hw1 & Hd1 & Ht1).
    { intros p Hp. apply Hpar; [done|lia]. }
    rewrite Hs. rewrite <-He1 in Hw1, Hd1, Ht1.
    destruct (IH (Datatypes.S i) t1) as (t2 & Hs2 & Hok2 & Hw2 & Hd2 & Ht2); [lia|done|done| |].
    { intros p Hp Hle. rewrite parent_of_take in Hp by lia. simplify_eq. apply Hd1. by left. }
    exists t2. rewrite Hs2, Nat.add_succ_r. split_and!; [done..| |].
    + intros p. rewrite Hd2, Hd1. split.
      * intros [[->|?]|(l & ? & ->)]; [right; exists i|by left|right; exists l]; split; done || lia.
      * intros [?|(l & ? & ->)]; [by left; right|].
        destruct (decide (l = i)) as [->|]; [by left; left|]. right. exists l. split; [lia|done].
    + intros p. by rewrite Ht2, Ht1.
Qed.

Lemma prefix_of_take (p name : Name) k :
  (k <= length name)%nat ->
  p `prefix_of` take k name <-> exists l, (0 <= l <= k)%nat /\ p = take l name.
Proof.
  intros Hk. split.
  - intros Hp. pose proof (prefix_length _ _ Hp) as Hl. rewrite length_take in Hl.
    apply prefix_take in Hp. exists (length p). split; [lia|].
    rewrite Hp at 1. rewrite take_take. f_equal. lia.
  - intros (l & Hl & ->). exists (drop l (take k name)).
    rewrite <-(take_drop l (take k name)) at 1. by rewrite take_take, Nat.min_l by lia.
Qed.

Lemma lookup_ok t name k :
  nt_ok t -> nt_wf (nt_entries t) -> (k <= length name)%nat -> (k <= getMaxDepth)%nat ->
  exists t', lookup name k t = Some (t', take k name) /\
    nt_ok t' /\ nt_wf (nt_entries t') /\
    (forall p, is_Some (nt_entries t' !! p) <->
       is_Some (nt_entries t !! p) \/ p `prefix_of` take k name) /\
    (forall p, tables_at p (nt_entries t') = tables_at p (nt_entries t)).
Proof.
  intros Hok Hwf Hk Hd. unfold lookup.
  destruct (lookup_loop_ok name k Hk Hd (k + 1) 0 t) as (t' & -> & Hok' & Hwf' & Hdom & Htab);
    [lia|done|done|done|].
  replace (0 + (k + 1))%nat with (Datatypes.S k) by lia. simpl.
  exists t'. split_and!; try done. intros p. rewrite Hdom, prefix_of_take by done. done.
Qed.

Lemma unsetParent_erase_spec t n p e :
  nt_ok t -> nt_entries t !! n = Some e -> parent_of n = Some p ->
  nt_ok (nt_erase n (unsetParent n p t)) /\
  nt_entries (nt_erase n (unsetParent n p t)) = prune n (nt_entries t).
Proof.
  intros Hok Hn Hp. unfold unsetParent, prune. rewrite Hp.
  destruct (nt_update_spec t p (fun e => set_children (erase_first (has_key id n) (m_children e)) e) Hok)
    as [Hok1 He1].
  set (t1 := nt_update p _ t) in *.
  destruct (nt_update_spec t1 n (set_parent None) Hok1) as [Hok2 He2].
  destruct (nt_erase_spec (nt_update n (set_parent None) t1) n Hok2) as [Hok3 He3].
  - rewrite He2, lookup_alter_eq, He1, lookup_alter_ne, Hn by (by apply not_eq_sym, parent_of_ne). eauto.
  - split; [done|]. by rewrite He3, He2, He1.
Qed.

Lemma isEmpty_true e :
  isEmpty e = true <-> m_children e = [] /\ tables e = (None, [], None, None).
Proof.
  unfold isEmpty, hasChildren, hasTableEntries, tables. destruct e as [n p ch f pit me sc]; simpl.
  destruct f, pit, me, sc, ch; simpl; split; try done; try (intros [??]; done).
Qed.

Lemma prefix_parent (p n : Name) :
  p `prefix_of` n -> p = n \/ exists q, parent_of n = Some q /\ p `prefix_of` q.
Proof.
  intros Hp. destruct (decide (length p = length n)) as [Hl|Hl].
  - left. apply prefix_take in Hp. by rewrite Hp, Hl, take_ge.
  - right. pose proof (prefix_length _ _ Hp). exists (take (pred (length n)) n). split.
    + rewrite <-parent_of_take by lia. rewrite take_ge; [done|lia].
    + apply prefix_of_take; [lia|]. exists (length p). split; [lia|]. by apply prefix_take.
Qed.

Lemma wf_prefix m n p : nt_wf m -> is_Some (m !! n) -> p `prefix_of` n -> is_Some (m !! p).
Proof.
  intros Hwf. induction n as [n IH] using (induction_ltof1 _ (@length C)). unfold ltof in IH.
  intros [e He] [->|(q & Hq & Hp)]%prefix_parent; [by eexists|].
  destruct (Hwf n e He) as (_ & _ & _ & H4 & _).
  eapply IH; [|by apply H4|done]. apply parent_of_length in Hq. lia.
Qed.

(** An entry with a descendant is not empty. *)
Lemma wf_ancestor_nonempty m n p e :
  nt_wf m -> is_Some (m !! n) -> p `prefix_of` n -> p <> n -> m !! p = Some e -> isEmpty e = false.
Proof.
  intros Hwf Hn Hp Hne He. destruct (isEmpty e) eqn:Hemp; [|done].
  apply isEmpty_true in Hemp as [Hch _]. destruct (Hwf p e He) as (_ & _ & _ & _ & _ & H6).
  pose proof (prefix_length _ _ Hp) as Hl.
  assert (length p <> length n) as Hl'.
  { intros E0. apply Hne. apply prefix_take in Hp. by rewrite Hp, E0, take_ge. }
  destruct (H6 (take (Datatypes.S (length p)) n)) as [_ Hx]. rewrite Hch in Hx.
  apply not_elem_of_nil in Hx; [done|]. split.
  - rewrite parent_of_take by lia. by rewrite <-(proj1 (prefix_take _ _) Hp).
  - eapply wf_prefix; [done|done|]. exists (drop (Datatypes.S (length p)) n). by rewrite take_drop.
Qed.

Lemma prune_size n m e : m !! n = Some e -> Z.of_nat (size (prune n m)) = Z.of_nat (size m) - 1.
Proof.
  intros Hn. assert (dom (prune n m) = dom m ∖ {[n]}) as Hd.
  { apply set_eq. intros k. rewrite elem_of_difference, elem_of_singleton, !elem_of_dom,
      prune_is_Some. naive_solver. }
  rewrite <-!size_dom, Hd, size_difference by (apply singleton_subseteq_l, elem_of_dom; eauto).
  rewrite size_singleton.
  assert (size (dom m) <> 0)%nat; [|lia]. rewrite size_dom. intros Hz%map_size_empty_inv. subst.
  by rewrite lookup_empty in Hn.
Qed.

(** The postcondition of [eraseIfEmpty] started at [n] on [m], ending with [m']
    after [k] entries were erased. *)
Definition erase_post (n : Name) (canEraseAncestors : bool) m m' (k : Z) : Prop :=
  nt_wf m' /\
  (forall p, tables_at p m' = tables_at p m) /\
  (forall p, ~ p `prefix_of` n -> m' !! p = m !! p) /\
  (forall p, is_Some (m' !! p) -> is_Some (m !! p)) /\
  Z.of_nat (size m) = Z.of_nat (size m') + k /\
  (canEraseAncestors = true -> forall p e, p `prefix_of` n -> m' !! p = Some e -> isEmpty e = false) /\
  (forall e, m !! n = Some e -> isEmpty e = true -> m' !! n = None).

(** The postcondition when the loop stops at [n]. *)
Lemma erase_post_stop n ce m e :
  nt_wf m -> m !! n = Some e -> isEmpty e = false -> erase_post n ce m m 0.
Proof.
  intros Hwf Hn Hne. unfold erase_post. split_and!; try done; [lia| |congruence].
  intros _ p e' Hp He'. destruct (decide (p = n)) as [->|]; [congruence|].
  eapply wf_ancestor_nonempty; [done| |done..]. by exists e.
Qed.

(** The postcondition when [n] is erased and nothing else. *)
Lemma erase_post_prune n ce m e :
  nt_wf m -> m !! n = Some e -> isEmpty e = true -> (ce = true -> parent_of n = None) ->
  erase_post n ce m (prune n m) 1.
Proof.
  intros Hwf Hn [Hch Htab]%isEmpty_true Hce. unfold erase_post.
  assert (prune n m !! n = None) as Hnone by (by rewrite prune_lookup, decide_True).
  split_and!; try done.
  - by eapply prune_wf.
  - intros p. apply prune_tables. right. unfold tables_at. by rewrite Hn.
  - intros p Hp. rewrite prune_lookup, !decide_False; [done| |by intros ->].
    by intros ?%parent_of_prefix.
  - intros p. rewrite prune_is_Some. by intros [??].
  - rewrite (prune_size _ _ _ Hn). lia.
  - intros ->. destruct n; [|by specialize (Hce eq_refl)].
    intros p e' ->%prefix_nil_inv. congruence.
Qed.

(** Erasing [n] and then, from its parent on, the ancestors. *)
Lemma erase_post_trans n p m m' e k :
  nt_wf m -> m !! n = Some e -> isEmpty e = true -> parent_of n = Some p ->
  erase_post p true (prune n m) m' k -> erase_post n true m m' (1 + k).
Proof.
  intros Hwf Hn Hemp Hp (P1 & P2 & P3 & P4 & P5 & P6 & P7).
  assert (prune n m !! n = None) as Hnone by (by rewrite prune_lookup, decide_True).
  assert (m' !! n = None) as Hnone'.
  { apply eq_None_not_Some. intros Hs%P4. rewrite Hnone in Hs. by destruct Hs. }
  destruct (erase_post_prune n false m e) as (_ & Q2 & Q3 & Q4 & Q5 & _); [done..|].
  unfold erase_post. split_and!; try done.
  - intros q. by rewrite P2, Q2.
  - intros q Hq. rewrite P3, Q3; [done|done|]. intros Hqp. apply Hq.
    etrans; [done|]. by apply parent_of_prefix.
  - intros q Hq. by apply Q4, P4.
  - lia.
  - intros _ q e' [->|(p' & Hp' & Hqp)]%prefix_parent Hq; [congruence|].
    eapply P6; [done| |done]. congruence.
Qed.

Lemma eraseIfEmpty_loop_ok ce : forall fuel n t nE,
  (length n < fuel)%nat -> nt_ok t -> nt_wf (nt_entries t) -> is_Some (nt_entries t !! n) ->
  exists t' k, eraseIfEmpty_loop fuel (Some n) ce nE t = Some (t', nE + k) /\
    nt_ok t' /\ erase_post n ce (nt_entries t) (nt_entries t') k.
Proof.
  induction fuel as [|fuel IH]; intros n t nE Hf Hok Hwf [e He]; [lia|].
  cbn [eraseIfEmpty_loop]. rewrite deref_spec, He by done. simpl.
  destruct (isEmpty e) eqn:Hemp.
  2: { exists t, 0. rewrite Z.add_0_r. split_and!; [done..|]. by eapply erase_post_stop. }
  destruct (Hwf n e He) as (_ & _ & Hpar & Hpex & _). rewrite Hpar.
  set (t1 := nt_erase n _).
  assert (nt_ok t1 /\ nt_entries t1 = prune n (nt_entries t)) as [Hok1 He1].
  { unfold t1. destruct (parent_of n) as [p|] eqn:Hp; [by eapply unsetParent_erase_spec|].
    unfold prune. rewrite Hp. apply nt_erase_spec; [done|by eexists]. }
  destruct ce; [|exists t1, 1; split_and!; [done..|]; rewrite He1; by eapply erase_post_prune].
  destruct (parent_of n) as [p|] eqn:Hp.
  - destruct (IH p t1 (nE + 1)) as (t2 & k & Hl & Hok2 & Hpost); [|done|..].
    + apply parent_of_length in Hp. lia.
    + rewrite He1. eapply prune_wf; [done|done|]. by apply isEmpty_true.
    + rewrite He1. apply prune_is_Some. split; [by apply not_eq_sym, parent_of_ne|by apply Hpex].
    + exists t2, (1 + k). rewrite Hl. split_and!; [do 2 f_equal; lia|done|].
      rewrite He1 in Hpost. by eapply erase_post_trans.
  - exists t1, 1. split_and!; [by destruct fuel|done|]. rewrite He1. by eapply erase_post_prune.
Qed.

Lemma eraseIfEmpty_ok t n ce :
  nt_ok t -> nt_wf (nt_entries t) -> is_Some (nt_entries t !! n) ->
  exists t' k, eraseIfEmpty n ce t = Some (t', k) /\
    nt_ok t' /\ erase_post n ce (nt_entries t) (nt_entries t') k.
Proof. intros. apply eraseIfEmpty_loop_ok; (done || lia). Qed.

(** Without [canEraseAncestors] at most the entry itself goes. *)
Lemma eraseIfEmpty_self t n e :
  nt_ok t -> nt_wf (nt_entries t) -> nt_entries t !! n = Some e ->
  exists t' k, eraseIfEmpty n false t = Some (t', k) /\ nt_ok t' /\
    nt_entries t' = if isEmpty e then prune n (nt_entries t) else nt_entries t.
Proof.
  intros Hok Hwf He. unfold eraseIfEmpty. cbn [eraseIfEmpty_loop].
  rewrite deref_spec, He by done. simpl. destruct (isEmpty e) eqn:Hemp; [|by eauto].
  destruct (Hwf n e He) as (_ & _ & -> & _). eexists _, _. split; [done|].
  destruct (parent_of n) as [p|] eqn:Hp; [by eapply unsetParent_erase_spec|].
  unfold prune. rewrite Hp. apply nt_erase_spec; [done|by eexists].
Qed.

(** ** Matching *)

(** The entries of the prefixes of [name] with fewer than [i] components, from
    the longest to the shortest. *)
Fixpoint down m name (i : nat) : list Entry :=
  match i with
  | O => []
  | Datatypes.S i' => option_list (m !! take i' name) ++ down m name i'
  end.

Definition prefix_entries m name : list Entry :=
  down m name (Datatypes.S (Nat.min (length name) getMaxDepth)).

Lemma down_ext m name name' k :
  (forall i, (i < k)%nat -> take i name = take i name') -> down m name k = down m name' k.
Proof.
  induction k as [|k IH]; intros Ht; simpl; [done|].
  rewrite (Ht k), IH by (intros; try apply Ht; lia). done.
Qed.

Lemma down_skip m name a b :
  (a <= b)%nat -> (forall i, (a <= i < b)%nat -> m !! take i name = None) ->
  down m name b = down m name a.
Proof.
  intros Hab. induction Hab as [|b Hab IH]; intros Hn; [done|]. simpl.
  rewrite (Hn b) by lia. simpl. apply IH. intros; apply Hn; lia.
Qed.

Lemma elem_of_down m name k e :
  e ∈ down m name k <-> exists i, (i < k)%nat /\ m !! take i name = Some e.
Proof.
  induction k as [|k IH]; simpl.
  - rewrite elem_of_nil. split; [done|]. intros (i & ? & _). lia.
  - rewrite elem_of_app, IH. split.
    + intros [He|(i & ? & ?)]; [|exists i; split; [lia|done]].
      exists k. split; [lia|]. destruct (m !! take k name); set_solver.
    + intros (i & Hi & He). destruct (decide (i = k)) as [->|]; [left; rewrite He; set_solver|].
      right. exists i. split; [lia|done].
Qed.

Lemma findExactMatch_ok t name k :
  nt_ok t -> nt_wf (nt_entries t) -> findExactMatch name k t = nt_entries t !! take k name.
Proof.
  intros Hok Hwf. unfold findExactMatch.
  assert (take (Nat.min (length name) k) name = take k name) as Htk.
  { destruct (decide (k <= length name)%nat); [by rewrite Nat.min_r|].
    rewrite Nat.min_l, !take_ge by lia. done. }
  case_match eqn:E0.
  - apply Nat.ltb_lt in E0. destruct (nt_entries t !! take k name) as [e|] eqn:He; [|done].
    destruct (Hwf _ _ He) as (_ & Hl & _). rewrite length_take in Hl. lia.
  - rewrite nt_find_spec, Htk by (done || lia). done.
Qed.

Lemma findLPM_loop_ok t name d sel : nt_ok t -> (d <= length name)%nat -> forall i, (i <= d + 1)%nat ->
  findLPM_loop name (computeHashes name d) sel t i = Some (find_if sel (down (nt_entries t) name i)).
Proof.
  intros Hok Hd. induction i as [|i IH]; intros Hi; [done|]. simpl.
  rewrite nt_find_hashes_spec by (done || lia). simpl.
  destruct (nt_entries t !! take i name) as [e|]; simpl; [|apply IH; lia].
  destruct (sel e); [done|]. apply IH; lia.
Qed.

Lemma findLongestPrefixMatch_ok t name sel :
  nt_ok t -> findLongestPrefixMatch name sel t = Some (find_if sel (prefix_entries (nt_entries t) name)).
Proof. intros Hok. apply findLPM_loop_ok; (done || lia). Qed.

(** Stepping from an entry to its parent along [down]. *)
Lemma down_parent m n e :
  nt_wf m -> m !! n = Some e ->
  down m n (Datatypes.S (length n)) =
    e :: match m_parent e with Some p => down m p (Datatypes.S (length p)) | None => [] end /\
  (forall p, m_parent e = Some p -> length n = Datatypes.S (length p) /\ is_Some (m !! p)).
Proof.
  intros Hwf He. destruct (Hwf n e He) as (_ & _ & Hp & Hpex & _). rewrite Hp.
  split; [|intros p Hp'; split; [by apply parent_of_length|by apply Hpex]].
  unfold down at 1. fold down. rewrite take_ge, He by done. cbn [option_list app]. f_equal.
  destruct (parent_of n) as [p|] eqn:Ep.
  - rewrite (parent_of_length _ _ Ep). apply parent_of_prefix in Ep as Hpre.
    apply down_ext. intros i Hi. destruct Hpre as [r ->]. rewrite take_app_le by lia. done.
  - unfold parent_of in Ep. by destruct n.
Qed.

Lemma findLPM_entry_loop_ok t sel : nt_ok t -> nt_wf (nt_entries t) ->
  forall fuel n, (length n < fuel)%nat -> is_Some (nt_entries t !! n) ->
  findLPM_entry_loop fuel (Some n) sel t =
    Some (find_if sel (down (nt_entries t) n (Datatypes.S (length n)))).
Proof.
  intros Hok Hwf. induction fuel as [|fuel IH]; intros n Hf [e He]; [lia|].
  destruct (down_parent _ n e Hwf He) as [Hd Hpar]. cbn [findLPM_entry_loop].
  rewrite deref_spec, He, Hd by done. cbn [find_if mbind option_bind]. destruct (sel e); [done|].
  destruct (m_parent e) as [p|] eqn:Hp; [|by destruct fuel].
  destruct (Hpar p) as [Hl Hex]; [done|]. apply IH; [lia|done].
Qed.

(** Climbing the parent pointers from an entry finds what matching its name finds. *)
Lemma findLPM_entry_ok t n sel :
  nt_ok t -> nt_wf (nt_entries t) -> is_Some (nt_entries t !! n) ->
  findLongestPrefixMatch_entry n sel t = findLongestPrefixMatch n sel t.
Proof.
  intros Hok Hwf [e He]. rewrite findLongestPrefixMatch_ok by done.
  unfold findLongestPrefixMatch_entry. rewrite findLPM_entry_loop_ok by (done || lia || by eexists).
  unfold prefix_entries. destruct (Hwf n e He) as (_ & Hl & _). by rewrite Nat.min_l.
Qed.

Lemma deeper_loop_ok t name : nt_ok t -> nt_wf (nt_entries t) -> forall k j,
  (j + k <= length name)%nat -> is_Some (nt_entries t !! take j name) ->
  exists l, deeper_loop name k (j + 1) (take j name) t = take l name /\ (j <= l <= j + k)%nat /\
    is_Some (nt_entries t !! take l name) /\
    (l = (j + k)%nat \/ nt_entries t !! take (l + 1) name = None).
Proof.
  intros Hok Hwf. induction k as [|k IH]; intros j Hj Hex; simpl.
  - exists j. split_and!; [done|lia|lia|done|left; lia].
  - rewrite findExactMatch_ok by done.
    destruct (nt_entries t !! take (j + 1) name) as [e|] eqn:He.
    + destruct (Hwf _ _ He) as (-> & _).
      destruct (IH (j + 1)%nat) as (l & Hl & ? & ? & Hend); [lia|by eexists|].
      exists l. replace (Datatypes.S (j + 1)) with (j + 1 + 1)%nat by lia.
      split_and!; [done|lia|lia|done|]. destruct Hend; [left; lia|by right].
    + exists j. split_and!; [done|lia|lia|done|by right].
Qed.

(** Missing a prefix, every longer prefix is missing. *)
Lemma wf_missing m name i j :
  nt_wf m -> (i <= j)%nat -> m !! take i name = None -> m !! take j name = None.
Proof.
  intros Hwf Hij Hn. apply eq_None_not_Some. intros Hs.
  apply (wf_prefix m _ (take i name) Hwf) in Hs; [rewrite Hn in Hs; by destruct Hs|].
  exists (drop i (take j name)). rewrite <-(take_drop i (take j name)) at 1.
  by rewrite take_take, Nat.min_l by lia.
Qed.

Lemma findLPM_pit_ok t name j sel :
  nt_ok t -> nt_wf (nt_entries t) -> (j <= length name)%nat ->
  is_Some (nt_entries t !! take j name) ->
  findLongestPrefixMatch_pit name (take j name) sel t = findLongestPrefixMatch name sel t.
Proof.
  intros Hok Hwf Hj Hex. unfold findLongestPrefixMatch_pit. rewrite length_take, Nat.min_l by done.
  destruct (Nat.ltb_spec j (length name)) as [Hlt|Hge].
  2: { rewrite take_ge in * by lia. by apply findLPM_entry_ok. }
  assert (j <= getMaxDepth)%nat as Hjd.
  { destruct Hex as [e He]. destruct (Hwf _ _ He) as (_ & Hl & _). rewrite length_take in Hl. lia. }
  set (d := Nat.min (length name) getMaxDepth).
  destruct (deeper_loop_ok t name Hok Hwf (d - j) j) as (l & -> & Hl & Hexl & Hend); [lia|done|].
  rewrite findLPM_entry_ok, !findLongestPrefixMatch_ok by done. do 2 f_equal.
  unfold prefix_entries. fold d. rewrite length_take.
  rewrite (down_skip _ name (Datatypes.S l) (Datatypes.S d)) by
    (first [lia | intros i Hi; destruct Hend as [?|Hend]; [lia|];
      eapply wf_missing; [done| |exact Hend]; lia]).
  replace (Nat.min (Nat.min l (length name)) getMaxDepth) with l by lia.
  apply down_ext. intros i Hi. rewrite take_take. f_equal. lia.
Qed.

Lemma prefixMatch_loop_ok t sel : nt_ok t -> nt_wf (nt_entries t) ->
  forall fuel n, (length n <= fuel)%nat -> is_Some (nt_entries t !! n) ->
  prefixMatch_loop fuel (Some n) sel t =
    Some (remove_if (fun e => negb (sel e)) (down (nt_entries t) n (Datatypes.S (length n)))).
Proof.
  intros Hok Hwf. induction fuel as [|fuel IH]; intros n Hf [e He];
    destruct (down_parent _ n e Hwf He) as [Hd Hpar]; cbn [prefixMatch_loop];
    rewrite deref_spec, He, Hd by done; cbn [remove_if mbind option_bind].
  - destruct n; [|simpl in Hf; lia]. destruct (m_parent e) as [p|].
    + destruct (Hpar p) as [? _]; [done|]. simpl in *. lia.
    + simpl. by destruct (sel e).
  - destruct (m_parent e) as [p|] eqn:Hp.
    + destruct (Hpar p) as [Hl Hex]; [done|]. rewrite IH by (lia || done). simpl. by destruct (sel e).
    + destruct fuel; simpl; by destruct (sel e).
Qed.

Lemma remove_if_all {A} (q : A -> bool) l : (forall x, x ∈ l -> q x = true) -> remove_if q l = [].
Proof.
  induction l as [|x l IH]; simpl; [done|]. intros Hq. rewrite (Hq x) by left.
  apply IH. intros; apply Hq. by right.
Qed.

Lemma findAllMatches_down t name sel : nt_ok t -> nt_wf (nt_entries t) -> forall i,
  (i <= Datatypes.S (length name))%nat ->
  match find_if sel (down (nt_entries t) name i) with
  | Some e => prefixMatch_loop (length (m_name e)) (Some (m_name e)) sel t =
      Some (remove_if (fun e => negb (sel e)) (down (nt_entries t) name i))
  | None => remove_if (fun e => negb (sel e)) (down (nt_entries t) name i) = []
  end.
Proof.
  intros Hok Hwf. induction i as [|i IH]; intros Hi; [done|].
  cbn [down]. destruct (nt_entries t !! take i name) as [e|] eqn:He; simpl; [|apply IH; lia].
  destruct (sel e) eqn:Es; simpl; [|apply IH; lia].
  destruct (Hwf _ _ He) as (-> & _).
  rewrite prefixMatch_loop_ok by (done || by eexists). cbn [down]. rewrite take_ge, He by done. simpl.
  rewrite Es. simpl. do 3 f_equal. rewrite length_take, Nat.min_l by lia.
  apply down_ext. intros j Hj. rewrite take_take. f_equal. lia.
Qed.

Lemma findAllMatches_ok t name sel :
  nt_ok t -> nt_wf (nt_entries t) ->
  findAllMatches name sel t =
    Some (remove_if (fun e => negb (sel e)) (prefix_entries (nt_entries t) name)).
Proof.
  intros Hok Hwf. unfold findAllMatches. rewrite findLongestPrefixMatch_ok by done. simpl.
  pose proof (findAllMatches_down t name sel Hok Hwf
    (Datatypes.S (Nat.min (length name) getMaxDepth)) ltac:(lia)) as Hd.
  unfold prefix_entries. destruct (find_if sel _); [done|]. by rewrite Hd.
Qed.

(** ** Writes to the tables of an entry *)

(** A write that leaves the links of the entry alone. *)
Definition keeps_links (f : Entry -> Entry) : Prop :=
  forall e, m_name (f e) = m_name e /\ m_parent (f e) = m_parent e /\ m_children (f e) = m_children e.

Lemma alter_wf f n m : keeps_links f -> nt_wf m -> nt_wf (alter f n m).
Proof.
  intros Hf Hwf k e Hk. rewrite lookup_alter_Some in Hk.
  assert (forall c, is_Some (alter f n m !! c) <-> is_Some (m !! c)) as Hdom by apply lookup_alter_is_Some.
  unfold entry_wf. setoid_rewrite Hdom. destruct Hk as [(-> & e0 & He0 & ->)|[_ Hk]].
  - destruct (Hf e0) as (-> & -> & ->). by apply Hwf.
  - by apply Hwf.
Qed.

Lemma alter_tables f n m k :
  k <> n -> tables_at k (alter f n m) = tables_at k m.
Proof. intros Hne. unfold tables_at. by rewrite lookup_alter_ne. Qed.

Lemma setFibEntry_keeps x : keeps_links (setFibEntry x).
Proof. done. Qed.
Lemma set_pitEntries_keeps f : keeps_links (fun e => set_pitEntries (f (m_pitEntries e)) e).
Proof. done. Qed.
Lemma setMeasurementsEntry_keeps x : keeps_links (setMeasurementsEntry x).
Proof. done. Qed.
Lemma setStrategyChoiceEntry_keeps x : keeps_links (setStrategyChoiceEntry x).
Proof. done. Qed.

Lemma update_ok t n f :
  nt_ok t -> nt_wf (nt_entries t) -> keeps_links f ->
  nt_ok (nt_update n f t) /\ nt_wf (nt_entries (nt_update n f t)) /\
  nt_entries (nt_update n f t) = alter f n (nt_entries t).
Proof.
  intros Hok Hwf Hf. destruct (nt_update_spec t n f Hok) as [Hok' He].
  split_and!; [done| |done]. rewrite He. by apply alter_wf.
Qed.

(** ** Properties *)

(** [lookup] always returns the entry of the prefix asked for; it adds
    exactly the missing prefixes, keeps the tree well formed (parents and
    children linked both ways) and leaves every FIB, PIT, measurements and
    strategy choice entry where it is. *)
Theorem lookup_correct t name k :
  nt_ok t -> nt_wf (nt_entries t) -> (k <= length name)%nat -> (k <= getMaxDepth)%nat ->
  exists t', lookup name k t = Some (t', take k name) /\
    nt_ok t' /\ nt_wf (nt_entries t') /\
    (forall p, is_Some (nt_entries t' !! p) <->
       is_Some (nt_entries t !! p) \/ p `prefix_of` take k name) /\
    (forall p, tables_at p (nt_entries t') = tables_at p (nt_entries t)).
Proof. apply lookup_ok. Qed.

(** [eraseIfEmpty] terminates without following a dangling pointer; it
    erases only entries without children or table entries, keeps the tree well
    formed, counts what it erases, and with [canEraseAncestors] leaves no empty
    entry among the prefixes of the name. *)
Theorem eraseIfEmpty_correct t n canEraseAncestors :
  nt_ok t -> nt_wf (nt_entries t) -> is_Some (nt_entries t !! n) ->
  exists t' nErased, eraseIfEmpty n canEraseAncestors t = Some (t', nErased) /\
    nt_ok t' /\ erase_post n canEraseAncestors (nt_entries t) (nt_entries t') nErased.
Proof. apply eraseIfEmpty_ok. Qed.

(** The three ways of longest prefix matching agree and are correct: by
    name, from a name tree entry through the parent pointers, and from a PIT
    entry attached to the entry of a prefix of its name; the answer is the first
    selected entry among the prefixes of the name, longest first. *)
Theorem findLongestPrefixMatch_correct t name j sel :
  nt_ok t -> nt_wf (nt_entries t) -> (j <= length name)%nat ->
  is_Some (nt_entries t !! take j name) ->
  let lpm n := Some (find_if sel (prefix_entries (nt_entries t) n)) in
  findLongestPrefixMatch name sel t = lpm name /\
  findLongestPrefixMatch_entry (take j name) sel t = lpm (take j name) /\
  findLongestPrefixMatch_pit name (take j name) sel t = lpm name.
Proof.
  intros Hok Hwf Hj Hex lpm. unfold lpm.
  rewrite findLPM_pit_ok, findLPM_entry_ok, !findLongestPrefixMatch_ok by done. done.
Qed.

(** The range of [findAllMatches] visits exactly the selected entries whose
    names are prefixes of the name (within the depth limit), longest first. *)
Theorem findAllMatches_correct t name sel :
  nt_ok t -> nt_wf (nt_entries t) ->
  findAllMatches name sel t =
    Some (remove_if (fun e => negb (sel e)) (prefix_entries (nt_entries t) name)) /\
  (forall e, e ∈ prefix_entries (nt_entries t) name <->
    exists i, (i <= Nat.min (length name) getMaxDepth)%nat /\ nt_entries t !! take i name = Some e).
Proof.
  intros Hok Hwf. split; [by apply findAllMatches_ok|]. intros e. unfold prefix_entries.
  rewrite elem_of_down. split; intros (i & ? & ?); exists i; (split; [lia|done]).
Qed.

End NameTree.

#[export] Hint Resolve setFibEntry_keeps set_pitEntries_keeps setMeasurementsEntry_keeps
  setStrategyChoiceEntry_keeps : nfd.

(** ** A concrete tree: [/1/2/3] under the root *)
Module NameTreeExamples.

Notation Tree := (Hashtable Z (Entry Z Z Z Z Z)).
Notation tree_ok t := (nt_ok (newEntry:=newEntry) t).
Notation tree_map t := (nt_entries (newEntry:=newEntry) t).

Definition tree0 : Tree := newHashtable (newOptions 2).
Definition tree1 : Tree := match lookup [1; 2; 3] 3 tree0 with Some (t, _) => t | None => tree0 end.

Lemma tree0_ok : tree_ok tree0 /\ nt_wf (tree_map tree0).
Proof.
  destruct (ht_new_ok (C:=Z) (E:=Entry Z Z Z Z Z) (newOptions 2)) as [Hok He].
  - split; [simpl; lia|]. apply Z.leb_le. by vm_compute.
  - split; [done|]. intros n e Hn. simpl in Hn. unfold tree0 in Hn. rewrite He in Hn.
    by rewrite lookup_empty in Hn.
Qed.

Lemma tree1_ok : tree_ok tree1 /\ nt_wf (tree_map tree1) /\ is_Some (tree_map tree1 !! [1; 2; 3]).
Proof.
  destruct tree0_ok as [Hok Hwf].
  destruct (lookup_ok tree0 [1; 2; 3] 3 Hok Hwf) as (t' & Hl & Hok' & Hwf' & Hd & _);
    [simpl; lia|unfold getMaxDepth; lia|].
  unfold tree1. rewrite Hl. split_and!; [done|done|]. apply Hd. by right.
Qed.

Example lookup_correct_witness :
  exists t', lookup [1; 2; 3] 3 tree0 = Some (t', [1; 2; 3]) /\ nt_wf (tree_map t').
Proof.
  destruct tree0_ok as [Hok Hwf].
  destruct (lookup_correct tree0 [1; 2; 3] 3 Hok Hwf) as (t' & Hl & _ & Hwf' & _);
    [simpl; lia|unfold getMaxDepth; lia|].
  exists t'. split; [exact Hl|exact Hwf'].
Defined.

Example eraseIfEmpty_correct_witness :
  exists t', eraseIfEmpty [1; 2; 3] true tree1 = Some (t', 4) /\ nt_wf (tree_map t').
Proof.
  destruct tree1_ok as (Hok & Hwf & Hex).
  destruct (eraseIfEmpty_correct tree1 [1; 2; 3] true Hok Hwf Hex) as (t' & k & Hl & _ & Hpost & _).
  exists t'. split; [|exact Hpost]. rewrite Hl. do 2 f_equal.
  assert (snd <$> eraseIfEmpty [1; 2; 3] true tree1 = Some 4) as Hv by (by vm_compute).
  rewrite Hl in Hv. by injection Hv.
Defined.

Example findLongestPrefixMatch_correct_witness :
  findLongestPrefixMatch_pit [1; 2; 3; 4] [1; 2; 3] (fun e => bool_decide (length (m_name e) = 2%nat)) tree1 =
  findLongestPrefixMatch [1; 2; 3; 4] (fun e => bool_decide (length (m_name e) = 2%nat)) tree1.
Proof.
  destruct tree1_ok as (Hok & Hwf & Hex).
  destruct (findLongestPrefixMatch_correct tree1 [1; 2; 3; 4] 3
    (fun e => bool_decide (length (m_name e) = 2%nat)) Hok Hwf) as (-> & _ & Hp);
    [simpl; lia|exact Hex|exact Hp].
Defined.

Example findAllMatches_correct_witness :
  fmap (M:=option) (fmap (M:=list) m_name) (findAllMatches [1; 2; 4] (fun _ => true) tree1) =
    Some [[1; 2]; [1]; []].
Proof.
  destruct tree1_ok as (Hok & Hwf & Hex).
  destruct (findAllMatches_correct tree1 [1; 2; 4] (fun _ => true) Hok Hwf) as [Hm _].
  rewrite Hm. by vm_compute.
Defined.

End NameTreeExamples.
