(* ===== verification/Fib.v ===== *)
(** * Forwarding information base

    Models [daemon/table/fib-nexthop.hpp/.cpp], [fib-entry.hpp/.cpp],
    [fib.hpp/.cpp] and the two commands of [daemon/mgmt/fib-manager.cpp]. A FIB
    entry hangs off the name tree entry of its prefix and a pointer to it is that
    name; faces are their face ids. *)

From S2P Require Import Prelude Ndn Hashtable NameTree.
Local Open Scope Z_scope.

Record NextHop := mkNextHop { nh_face : Z; nh_endpointId : Z; nh_cost : Z }.

(** [NextHop(face, endpointId)]. *)
Definition newNextHop (face endpointId : Z) : NextHop := mkNextHop face endpointId 0.

Definition setCost (cost : Z) (nh : NextHop) : NextHop :=
  mkNextHop (nh_face nh) (nh_endpointId nh) cost.

(** What [findNextHop] compares. *)
Definition nh_key (nh : NextHop) : Z * Z := (nh_face nh, nh_endpointId nh).

Record FibEntry {C : Type} := mkFibEntry { fib_prefix : list C; m_nextHops : list NextHop }.
Arguments FibEntry : clear implicits.
Arguments mkFibEntry {C}.

Section Entry.
Context {C : Type}.
Context (sort : list NextHop -> list NextHop) `{!StdSort nh_cost sort}.
Implicit Types e : FibEntry C.

Definition set_nextHops (l : list NextHop) e : FibEntry C := mkFibEntry (fib_prefix e) l.

Definition newFibEntry (prefix : list C) : FibEntry C := mkFibEntry prefix [].

Definition findNextHop (face endpointId : Z) e : option NextHop :=
  find_if (has_key nh_key (face, endpointId)) (m_nextHops e).

Definition hasNextHop (face endpointId : Z) e : bool :=
  match findNextHop face endpointId e with Some _ => true | None => false end.

Definition hasNextHops e : bool := match m_nextHops e with [] => false | _ => true end.

Definition sortNextHops e : FibEntry C := set_nextHops (sort (m_nextHops e)) e.

Definition addOrUpdateNextHop (face endpointId cost : Z) e : FibEntry C :=
  let l := match findNextHop face endpointId e with
           | None => m_nextHops e ++ [newNextHop face endpointId]
           | Some _ => m_nextHops e
           end in
  sortNextHops (set_nextHops (update_first (has_key nh_key (face, endpointId)) (setCost cost) l) e).

Definition removeNextHop_entry (face endpointId : Z) e : FibEntry C :=
  set_nextHops (erase_first (has_key nh_key (face, endpointId)) (m_nextHops e)) e.

Definition removeNextHopByFace_entry (face : Z) e : FibEntry C :=
  set_nextHops (remove_if (fun nh => nh_face nh =? face) (m_nextHops e)) e.

(** ** The nexthops of an entry *)

(** One record per face and endpoint, in order of cost. *)
Definition entry_ok e : Prop :=
  uniq_keys nh_key (m_nextHops e) /\ Sorted (fun a b => nh_cost a <= nh_cost b) (m_nextHops e).

(** The cost of every (face, endpoint) of the entry. *)
Definition costs e : gmap (Z * Z) Z := list_to_map ((fun nh => (nh_key nh, nh_cost nh)) <$> m_nextHops e).

Lemma costs_lookup e k : costs e !! k = nh_cost <$> find_if (has_key nh_key k) (m_nextHops e).
Proof.
  unfold costs. induction (m_nextHops e) as [|nh l IH]; csimpl; [apply lookup_empty|].
  unfold has_key at 1. case_bool_decide as Heq.
  - subst. by rewrite lookup_insert_eq.
  - by rewrite lookup_insert_ne, IH.
Qed.

Lemma sorted_erase (l l' : list NextHop) :
  sublist l' l -> Sorted (fun a b => nh_cost a <= nh_cost b) l ->
  Sorted (fun a b => nh_cost a <= nh_cost b) l'.
Proof.
  assert (Transitive (fun a b => nh_cost a <= nh_cost b)) by (intros ???; lia).
  intros Hs Hl. apply Sorted_StronglySorted in Hl; [|done]. apply StronglySorted_Sorted.
  revert Hl. induction Hs as [|x l1 l2 Hs IH|x l1 l2 Hs IH]; intros Hl; [done| |].
  - apply StronglySorted_inv in Hl as [Hl Hx]. constructor; [by apply IH|].
    apply Forall_forall. intros y Hy. rewrite Forall_forall in Hx. apply Hx.
    by eapply elem_of_sublist.
  - apply StronglySorted_inv in Hl as [Hl _]. by apply IH.
Qed.

Lemma add_find (face ep cost : Z) e k :
  let l := match findNextHop face ep e with
           | None => m_nextHops e ++ [newNextHop face ep]
           | Some _ => m_nextHops e
           end in
  nh_cost <$> find_if (has_key nh_key k) (update_first (has_key nh_key (face, ep)) (setCost cost) l) =
  if decide ((face, ep) = k) then Some cost else costs e !! k.
Proof.
  intros l.
  assert (exists nh, find_if (has_key nh_key (face, ep)) l = Some nh /\ nh_key nh = (face, ep)) as (nh & Hnh & Hk).
  { subst l. unfold findNextHop. destruct (find_if _ (m_nextHops e)) as [nh|] eqn:E0.
    - exists nh. split; [done|]. by apply find_key_Some in E0 as [_ ?].
    - exists (newNextHop face ep). rewrite find_if_app, E0. simpl. unfold has_key.
      by rewrite bool_decide_eq_true_2. }
  case_decide as Hd.
  - subst k. erewrite find_update_same; [|done|]; done.
  - rewrite find_update_other by done. rewrite costs_lookup. f_equal. subst l.
    unfold findNextHop. destruct (find_if (has_key nh_key (face, ep)) (m_nextHops e)); [done|].
    rewrite find_if_app. destruct (find_if _ (m_nextHops e)); [done|]. simpl. unfold has_key.
    by rewrite bool_decide_eq_false_2.
Qed.

Lemma addOrUpdateNextHop_ok face ep cost e :
  entry_ok e ->
  entry_ok (addOrUpdateNextHop face ep cost e) /\
  costs (addOrUpdateNextHop face ep cost e) = <[(face, ep) := cost]> (costs e) /\
  fib_prefix (addOrUpdateNextHop face ep cost e) = fib_prefix e.
Proof.
  intros [Hu Hs]. unfold addOrUpdateNextHop, sortNextHops. cbv zeta.
  set (l := match findNextHop face ep e with None => _ | Some _ => _ end).
  set (l' := update_first _ _ l). cbn [m_nextHops set_nextHops fib_prefix].
  assert (uniq_keys nh_key l') as Hul.
  { apply uniq_update_first; [done|]. subst l. destruct (findNextHop face ep e) eqn:E0; [done|].
    unfold uniq_keys. rewrite fmap_app. apply NoDup_app. split_and!; [done| |apply NoDup_singleton].
    intros x Hx ->%list_elem_of_singleton. by apply find_key_None in E0. }
  assert (uniq_keys nh_key (sort l')) as Hus.
  { unfold uniq_keys. by rewrite (sort_perm (key:=nh_cost)). }
  split_and!; [split; [exact Hus|exact (sort_sorted l')]| |done].
  apply map_eq. intros k. rewrite costs_lookup. simpl.
  rewrite (find_key_perm _ _ (sort l') l'); [|done|apply (sort_perm (key:=nh_cost))].
  rewrite lookup_insert. apply add_find.
Qed.

Lemma removeNextHop_ok face ep e :
  entry_ok e ->
  entry_ok (removeNextHop_entry face ep e) /\
  costs (removeNextHop_entry face ep e) = delete (face, ep) (costs e).
Proof.
  intros [Hu Hs]. split; [split|].
  - by apply uniq_erase_first.
  - eapply sorted_erase; [apply erase_first_sublist|done].
  - apply map_eq. intros k. rewrite costs_lookup. simpl. destruct (decide ((face, ep) = k)) as [<-|Hne].
    + by rewrite find_erase_same, lookup_delete_eq by done.
    + by rewrite find_erase_other, lookup_delete_ne, costs_lookup by done.
Qed.

Lemma removeNextHopByFace_ok face e :
  entry_ok e ->
  entry_ok (removeNextHopByFace_entry face e) /\
  costs (removeNextHopByFace_entry face e) = filter (fun kc => kc.1.1 <> face) (costs e).
Proof.
  intros [Hu Hs]. split; [split|].
  - by apply uniq_remove_if.
  - eapply sorted_erase; [apply remove_if_sublist|done].
  - apply map_eq. intros [f ep]. rewrite costs_lookup, map_lookup_filter, costs_lookup. simpl.
    induction (m_nextHops e) as [|nh l IH]; simpl; [done|].
    apply NoDup_cons in Hu as [_ Hu]. specialize (IH Hu).
    assert (Sorted (fun a b => nh_cost a <= nh_cost b) l) as Hs' by (by inversion Hs).
    specialize (IH Hs'). unfold has_key at 2. destruct (nh_face nh =? face) eqn:E0; simpl.
    + rewrite IH. case_bool_decide as E1; [|done]. unfold nh_key in E1. simplify_eq. breflect. subst.
      destruct (find_if _ l); simpl; repeat case_guard; simpl in *; congruence.
    + unfold has_key at 1. case_bool_decide as E1; [|done]. unfold nh_key in E1. simplify_eq. breflect.
      simpl. case_guard; simpl in *; congruence.
Qed.

Lemma costs_empty e : costs e = ∅ <-> m_nextHops e = [].
Proof.
  split; [|by intros E0; unfold costs; rewrite E0]. intros Hc. destruct (m_nextHops e) as [|nh l] eqn:E0; [done|].
  pose proof (costs_lookup e (nh_key nh)) as Hl. rewrite Hc, lookup_empty, E0 in Hl. simpl in Hl.
  unfold has_key in Hl. by rewrite bool_decide_eq_true_2 in Hl.
Qed.

End Entry.

Section Fib.
Context {C P M S : Type} `{NameComponent C}.
Context (sort : list NextHop -> list NextHop) `{!StdSort nh_cost sort}.
Notation Name := (list C).
Notation Entry := (Entry C (FibEntry C) P M S).
Context {T : Type} `{!NodeTable C Entry newEntry T}.
Implicit Types (n prefix : Name) (t : T) (m : gmap Name Entry).

Record Fib := mkFib { fib_tree : T; fib_nItems : Z }.
Implicit Types fb : Fib.

(** [Fib::s_emptyEntry], which is not attached to the name tree. *)
Definition emptyEntry : FibEntry C := newFibEntry [].

Definition nteHasFibEntry (nte : Entry) : bool := is_set (m_fibEntry nte).

(** [findLongestPrefixMatchImpl], from the answer of the name tree. *)
Definition fib_match (r : option (option Entry)) : option (FibEntry C) :=
  nte ← r;
  match nte with
  | Some e => m_fibEntry e
  | None => Some emptyEntry
  end.

Definition fib_findLongestPrefixMatch prefix fb : option (FibEntry C) :=
  fib_match (findLongestPrefixMatch prefix nteHasFibEntry (fib_tree fb)).

(** For a PIT entry of [name] attached to [nte]. *)
Definition fib_findLongestPrefixMatch_pit (name nte : Name) fb : option (FibEntry C) :=
  fib_match (findLongestPrefixMatch_pit name nte nteHasFibEntry (fib_tree fb)).

(** For a measurements entry attached to [nte]. *)
Definition fib_findLongestPrefixMatch_measurements (nte : Name) fb : option (FibEntry C) :=
  fib_match (findLongestPrefixMatch_entry nte nteHasFibEntry (fib_tree fb)).

Definition fib_findExactMatch prefix fb : option (FibEntry C) :=
  match findExactMatch prefix (length prefix) (fib_tree fb) with
  | Some nte => m_fibEntry nte
  | None => None
  end.

(** [insert(prefix)]: the pointer to the entry and whether it is new. *)
Definition fib_insert prefix fb : option (Fib * Name * bool) :=
  '(t, nte) ← lookup prefix (length prefix) (fib_tree fb);
  e ← deref nte t;
  match m_fibEntry e with
  | Some _ => Some (mkFib t (fib_nItems fb), nte, false)
  | None =>
      let t := nt_update nte (setFibEntry (Some (newFibEntry prefix))) t in
      Some (mkFib t (u64 (fib_nItems fb + 1)), nte, true)
  end.

(** [erase(nte, canDeleteNte)]. *)
Definition fib_erase_nte n (canDeleteNte : bool) fb : option Fib :=
  let t := nt_update n (setFibEntry None) (fib_tree fb) in
  '(t, _) ← (if canDeleteNte then eraseIfEmpty n true t else Some (t, 0));
  Some (mkFib t (u64 (fib_nItems fb - 1))).

(** [erase(prefix)]. *)
Definition fib_erase_name prefix fb : option Fib :=
  match findExactMatch prefix (length prefix) (fib_tree fb) with
  | Some nte => fib_erase_nte (m_name nte) true fb
  | None => Some fb
  end.

(** [erase(entry)]; [None] is the unattached empty entry. *)
Definition fib_erase_entry (entry : option Name) fb : option Fib :=
  match entry with
  | None => Some fb
  | Some n => fib_erase_nte n true fb
  end.

(** Writing to the FIB entry attached to [n]. *)
Definition fib_write n (g : FibEntry C -> FibEntry C) fb : Fib :=
  mkFib (nt_update n (fun e => setFibEntry (g <$> m_fibEntry e) e) (fib_tree fb)) (fib_nItems fb).

Definition fib_read n fb : option (FibEntry C) := deref n (fib_tree fb) ≫= m_fibEntry.

(** [eraseIfEmpty(entry)]. *)
Definition fib_eraseIfEmpty n fb : option Fib :=
  f ← fib_read n fb;
  if hasNextHops f then Some fb else fib_erase_nte n false fb.

Definition fib_removeNextHop n (face endpointId : Z) fb : option Fib :=
  fib_eraseIfEmpty n (fib_write n (removeNextHop_entry face endpointId) fb).

Definition fib_removeNextHopByFace n (face : Z) fb : option Fib :=
  fib_eraseIfEmpty n (fib_write n (removeNextHopByFace_entry face) fb).

(** ** The commands of the FIB manager *)

Definition setFaceForSelfRegistration (incomingFaceId faceId : Z) : Z :=
  if faceId =? 0 then incomingFaceId else faceId.

(** [addNextHop]: the status code of the response; [faces] are the face ids of
    the face table. *)
Definition mgr_addNextHop (faces : gset Z) (incomingFaceId : Z) prefix (faceId cost : Z) fb :
    option (Fib * Z) :=
  let faceId := setFaceForSelfRegistration incomingFaceId faceId in
  if (getMaxDepth <? length prefix)%nat then Some (fb, 414)
  else if decide (faceId ∈ faces) then
    '(fb, entry, _) ← fib_insert prefix fb;
    Some (fib_write entry (addOrUpdateNextHop sort faceId 0 cost) fb, 200)
  else Some (fb, 410).

(** [removeNextHop]: responds 200 in every case. *)
Definition mgr_removeNextHop (faces : gset Z) (incomingFaceId : Z) prefix (faceId : Z) fb :
    option (Fib * Z) :=
  let faceId := setFaceForSelfRegistration incomingFaceId faceId in
  if decide (faceId ∈ faces) then
    match fib_findExactMatch prefix fb with
    | None => Some (fb, 200)
    | Some f =>
        let n := fib_prefix f in
        let fb := fib_write n (removeNextHop_entry faceId 0) fb in
        f ← fib_read n fb;
        if hasNextHops f then Some (fb, 200)
        else fb ← fib_erase_entry (Some n) fb; Some (fb, 200)
    end
  else Some (fb, 200).

(** ** Invariant and abstraction *)

Definition fib_view m : gmap Name (FibEntry C) := omap m_fibEntry m.

Definition others_at n m : list P * option M * option S :=
  let '(_, p, me, sc) := tables_at n m in (p, me, sc).

Definition fib_ok fb : Prop :=
  nt_ok (fib_tree fb) /\ nt_wf (nt_entries (fib_tree fb)) /\
  (forall n f, fib_view (nt_entries (fib_tree fb)) !! n = Some f -> fib_prefix f = n /\ entry_ok f) /\
  fib_nItems fb = u64 (Z.of_nat (size (fib_view (nt_entries (fib_tree fb))))).

Definition view fb : gmap Name (FibEntry C) := fib_view (nt_entries (fib_tree fb)).

Lemma fib_view_lookup m n : fib_view m !! n = (tables_at n m).1.1.1.
Proof. unfold fib_view, tables_at. rewrite lookup_omap. by destruct (m !! n). Qed.

Lemma fib_view_ext m m' : (forall n, tables_at n m' = tables_at n m) -> fib_view m' = fib_view m.
Proof. intros Ht. apply map_eq. intros n. by rewrite !fib_view_lookup, Ht. Qed.

Lemma u64_add_l a b : u64 (u64 a + b) = u64 (a + b).
Proof. unfold u64. by rewrite Zplus_mod_idemp_l. Qed.

(** Replacing the FIB entry of a name of the tree. *)
Lemma fib_view_alter m n e (g : option (FibEntry C) -> option (FibEntry C)) :
  m !! n = Some e ->
  fib_view (alter (fun e => setFibEntry (g (m_fibEntry e)) e) n m) =
  match g (m_fibEntry e) with
  | Some f => <[n := f]> (fib_view m)
  | None => delete n (fib_view m)
  end.
Proof.
  intros Hn. apply map_eq. intros k. unfold fib_view. rewrite lookup_omap, lookup_alter.
  destruct (decide (n = k)) as [<-|Hne].
  - rewrite Hn. simpl. destruct (g _); [by rewrite lookup_insert_eq|by rewrite lookup_delete_eq].
  - destruct (g _); [rewrite lookup_insert_ne by done|rewrite lookup_delete_ne by done];
      by rewrite lookup_omap.
Qed.

Lemma others_alter m n k (g : option (FibEntry C) -> option (FibEntry C)) :
  others_at k (alter (fun e => setFibEntry (g (m_fibEntry e)) e) n m) = others_at k m.
Proof.
  unfold others_at, tables_at. rewrite lookup_alter. case_decide as E0; [|done]. subst.
  by destruct (m !! k).
Qed.

Lemma fib_read_ok n fb : fib_ok fb -> fib_read n fb = view fb !! n.
Proof.
  intros (Hok & _). unfold fib_read, view, fib_view. by rewrite deref_spec, lookup_omap.
Qed.

Lemma view_Some_entry fb n f :
  fib_ok fb -> view fb !! n = Some f ->
  exists e, nt_entries (fib_tree fb) !! n = Some e /\ m_fibEntry e = Some f.
Proof. intros _. unfold view, fib_view. rewrite lookup_omap. apply bind_Some. Qed.

Lemma fib_insert_ok prefix fb :
  fib_ok fb -> (length prefix <= getMaxDepth)%nat ->
  exists fb', fib_insert prefix fb = Some (fb', prefix, bool_decide (view fb !! prefix = None)) /\
    fib_ok fb' /\
    view fb' = <[prefix := default (newFibEntry prefix) (view fb !! prefix)]> (view fb) /\
    (forall k, others_at k (nt_entries (fib_tree fb')) = others_at k (nt_entries (fib_tree fb))).
Proof.
  intros (Hok & Hwf & Hent & Hsz) Hlen. unfold fib_insert.
  destruct (lookup_ok (fib_tree fb) prefix (length prefix) Hok Hwf) as (t' & -> & Hok' & Hwf' & Hdom & Htab);
    [lia|done|].
  simpl. rewrite take_ge in * by lia. rewrite deref_spec by done.
  destruct (proj2 (Hdom prefix) (or_intror (reflexivity prefix))) as [e He]. rewrite He. simpl.
  pose proof (fib_view_ext _ _ Htab) as Hv.
  assert (view fb !! prefix = m_fibEntry e) as Hve.
  { unfold view. rewrite <-Hv. unfold fib_view. by rewrite lookup_omap, He. }
  rewrite Hve. destruct (m_fibEntry e) as [f|] eqn:Ef; simpl.
  - exists (mkFib t' (fib_nItems fb)). split_and!; [done| | |].
    + unfold fib_ok. simpl. by rewrite Hv.
    + unfold view. simpl. rewrite Hv. by rewrite insert_id.
    + intros k. unfold others_at. simpl. by rewrite Htab.
  - destruct (update_ok t' prefix (setFibEntry (Some (newFibEntry prefix))) Hok' Hwf') as (Hok2 & Hwf2 & He2);
      [auto with nfd|].
    pose proof (fib_view_alter _ _ _ (fun _ => Some (newFibEntry prefix)) He) as Hv2.
    change (alter (fun e => setFibEntry _ e)) with (alter (M:=gmap Name Entry) (setFibEntry (Some (newFibEntry prefix)))) in Hv2.
    eexists. split_and!; [done| | |]; unfold fib_ok, view; simpl; rewrite He2, ?Hv2, ?Hv.
    + split_and!; [done|by rewrite <-He2| |].
      * intros n f. rewrite lookup_insert_Some. intros [[<- <-]|[_ Hf]]; [|by apply Hent].
        split; [done|]. split; [by apply NoDup_nil|constructor].
      * rewrite Hsz, u64_add_l, map_size_insert_None by done. f_equal. lia.
    + done.
    + intros k. rewrite (others_alter _ prefix k (fun _ => Some (newFibEntry prefix))).
      unfold others_at. by rewrite Htab.
Qed.

Lemma fib_write_ok n g f fb :
  fib_ok fb -> view fb !! n = Some f -> fib_prefix (g f) = n -> entry_ok (g f) ->
  fib_ok (fib_write n g fb) /\ view (fib_write n g fb) = <[n := g f]> (view fb) /\
  (forall k, others_at k (nt_entries (fib_tree (fib_write n g fb))) = others_at k (nt_entries (fib_tree fb))).
Proof.
  intros Hfb Hf Hp Hg. destruct (view_Some_entry fb n f Hfb Hf) as (e & He & Hef).
  destruct Hfb as (Hok & Hwf & Hent & Hsz). unfold fib_write, fib_ok, view in *. simpl.
  destruct (update_ok (fib_tree fb) n (fun e => setFibEntry (g <$> m_fibEntry e) e) Hok Hwf)
    as (Hok2 & Hwf2 & He2); [done|].
  pose proof (fib_view_alter _ _ _ (fmap g) He) as Hv. rewrite Hef in Hv. simpl in Hv.
  split_and!; [done|done|..]; rewrite ?He2, ?Hv.
  - intros k h. rewrite lookup_insert_Some. intros [[<- <-]|[_ Hh]]; [done|by apply Hent].
  - rewrite map_size_insert_Some by eauto. done.
  - done.
  - intros k. apply (others_alter _ n k (fmap g)).
Qed.

(** The map without the entry, whether or not the name tree entry goes too. *)
Lemma fib_erase_ok n ce f fb :
  fib_ok fb -> view fb !! n = Some f ->
  exists fb', fib_erase_nte n ce fb = Some fb' /\ fib_ok fb' /\ view fb' = delete n (view fb) /\
  (forall k, others_at k (nt_entries (fib_tree fb')) = others_at k (nt_entries (fib_tree fb))).
Proof.
  intros Hfb Hf. destruct (view_Some_entry fb n f Hfb Hf) as (e & He & Hef).
  destruct Hfb as (Hok & Hwf & Hent & Hsz). unfold fib_erase_nte.
  destruct (update_ok (fib_tree fb) n (setFibEntry None) Hok Hwf) as (Hok2 & Hwf2 & He2); [auto with nfd|].
  set (t2 := nt_update n (setFibEntry None) (fib_tree fb)) in *.
  pose proof (fib_view_alter _ _ _ (fun _ => None) He) as Hv.
  change (alter (fun e => setFibEntry _ e)) with (alter (M:=gmap Name Entry) (setFibEntry None)) in Hv.
  rewrite <-He2 in Hv.
  assert (exists t3 k, (if ce then eraseIfEmpty n true t2 else Some (t2, 0)) = Some (t3, k) /\
    nt_ok t3 /\ nt_wf (nt_entries t3) /\
    forall k, tables_at k (nt_entries t3) = tables_at k (nt_entries t2)) as (t3 & k & -> & Hok3 & Hwf3 & Htab).
  { destruct ce; [|by exists t2, 0].
    destruct (eraseIfEmpty_ok t2 n true Hok2 Hwf2) as (t3 & k & ? & ? & Hw & Htab & _).
    - rewrite He2, lookup_alter_eq, He. by eexists.
    - by exists t3, k. }
  simpl. pose proof (fib_view_ext _ _ Htab) as Hv3. rewrite Hv in Hv3.
  eexists. split_and!; [done| | |]; unfold fib_ok, view; simpl; rewrite ?Hv3.
  - split_and!; [done|done| |].
    + intros k' h. rewrite lookup_delete_Some. intros [_ Hh]. by apply Hent.
    + rewrite Hsz. unfold view in Hf. replace (u64 (Z.of_nat (size (fib_view (nt_entries (fib_tree fb)))))  - 1)
        with (u64 (Z.of_nat (size (fib_view (nt_entries (fib_tree fb))))) + -1) by lia.
      rewrite u64_add_l, map_size_delete_Some by eauto. f_equal.
      assert (size (fib_view (nt_entries (fib_tree fb))) <> 0%nat); [|lia].
      intros Hz%map_size_empty_inv. rewrite Hz in Hf. by rewrite lookup_empty in Hf.
  - done.
  - intros k'. unfold others_at at 1. rewrite Htab. fold (others_at k' (nt_entries t2)). rewrite He2.
    apply (others_alter _ n k' (fun _ => None)).
Qed.

(** ** Longest prefix match *)

(** The match in the abstract table, among the prefixes of fewer than [i]
    components. *)
Fixpoint abs_match {V} (a : gmap Name V) (name : Name) (i : nat) : option (Name * V) :=
  match i with
  | O => None
  | Datatypes.S i' =>
      match a !! take i' name with
      | Some v => Some (take i' name, v)
      | None => abs_match a name i'
      end
  end.

Lemma fib_match_down m name i :
  fib_match (Some (find_if nteHasFibEntry (down m name i))) =
  Some (match abs_match (fib_view m) name i with Some (_, f) => f | None => emptyEntry end).
Proof.
  induction i as [|i IH]; [done|]. cbn [down abs_match]. unfold fib_view at 1. rewrite lookup_omap.
  destruct (m !! take i name) as [e|]; simpl; [|exact IH].
  unfold nteHasFibEntry at 1. destruct (m_fibEntry e) as [f|] eqn:Ef; simpl; [by rewrite Ef|exact IH].
Qed.

Lemma fib_lpm_ok name fb :
  fib_ok fb ->
  fib_findLongestPrefixMatch name fb =
  Some (match abs_match (view fb) name (Datatypes.S (Nat.min (length name) getMaxDepth)) with
        | Some (_, f) => f | None => emptyEntry end).
Proof.
  intros (Hok & _). unfold fib_findLongestPrefixMatch. rewrite findLongestPrefixMatch_ok by done.
  apply fib_match_down.
Qed.

Lemma abs_match_fmap {V W} (g : V -> W) (a : gmap Name V) name i :
  abs_match (g <$> a) name i = (fun nv => (nv.1, g nv.2)) <$> abs_match a name i.
Proof.
  induction i as [|i IH]; simpl; [done|]. rewrite lookup_fmap.
  by destruct (a !! take i name).
Qed.

Lemma abs_match_lookup {V} (a : gmap Name V) name i n v :
  abs_match a name i = Some (n, v) -> a !! n = Some v.
Proof.
  induction i as [|i IH]; simpl; [done|]. destruct (a !! take i name) eqn:E0; [|done].
  intros. by simplify_eq.
Qed.

(** ** Refinement of a table from prefixes to nexthop costs *)

Inductive fib_op :=
| FibAddNextHop (incomingFaceId : Z) (prefix : Name) (faceId cost : Z)
| FibRemoveNextHop (incomingFaceId : Z) (prefix : Name) (faceId : Z)
| FibFaceDown (prefix : Name) (face : Z)
| FibMatch (name : Name).

Inductive fib_answer :=
| Code (code : Z)
| Matched (prefix : Name) (nexthops : gmap (Z * Z) Z)
| NoAnswer.

(** [FibFaceDown] is [removeNextHopByFace] on the FIB entry of a prefix, if there
    is one, as the face cleanup does. *)
Definition fib_step (faces : gset Z) fb (op : fib_op) : option (Fib * fib_answer) :=
  match op with
  | FibAddNextHop inc prefix faceId cost =>
      '(fb, code) ← mgr_addNextHop faces inc prefix faceId cost fb; Some (fb, Code code)
  | FibRemoveNextHop inc prefix faceId =>
      '(fb, code) ← mgr_removeNextHop faces inc prefix faceId fb; Some (fb, Code code)
  | FibFaceDown prefix face =>
      match fib_findExactMatch prefix fb with
      | Some f => fb ← fib_removeNextHopByFace (fib_prefix f) face fb; Some (fb, NoAnswer)
      | None => Some (fb, NoAnswer)
      end
  | FibMatch name =>
      f ← fib_findLongestPrefixMatch name fb; Some (fb, Matched (fib_prefix f) (costs f))
  end.

(** Removing nexthops from the entry of a prefix, and the entry with its last one. *)
Definition abs_shrink (a : gmap Name (gmap (Z * Z) Z)) prefix
    (g : gmap (Z * Z) Z -> gmap (Z * Z) Z) : gmap Name (gmap (Z * Z) Z) :=
  match a !! prefix with
  | Some c => if decide (g c = ∅) then delete prefix a else <[prefix := g c]> a
  | None => a
  end.

Definition abs_step (faces : gset Z) (a : gmap Name (gmap (Z * Z) Z)) (op : fib_op) :
    gmap Name (gmap (Z * Z) Z) * fib_answer :=
  match op with
  | FibAddNextHop inc prefix faceId cost =>
      let faceId := setFaceForSelfRegistration inc faceId in
      if (getMaxDepth <? length prefix)%nat then (a, Code 414)
      else if decide (faceId ∈ faces)
      then (<[prefix := <[(faceId, 0) := cost]> (default ∅ (a !! prefix))]> a, Code 200)
      else (a, Code 410)
  | FibRemoveNextHop inc prefix faceId =>
      let faceId := setFaceForSelfRegistration inc faceId in
      (if decide (faceId ∈ faces) then abs_shrink a prefix (delete (faceId, 0)) else a, Code 200)
  | FibFaceDown prefix face => (abs_shrink a prefix (filter (fun kc => kc.1.1 <> face)), NoAnswer)
  | FibMatch name =>
      (a, match abs_match a name (Datatypes.S (Nat.min (length name) getMaxDepth)) with
          | Some (n, c) => Matched n c | None => Matched [] ∅ end)
  end.

(** The table that the FIB stands for. *)
Definition fib_abs fb : gmap Name (gmap (Z * Z) Z) := costs <$> view fb.

Lemma fib_exact_ok prefix fb : fib_ok fb -> fib_findExactMatch prefix fb = view fb !! prefix.
Proof.
  intros (Hok & Hwf & _). unfold fib_findExactMatch, view, fib_view.
  rewrite findExactMatch_ok, take_ge, lookup_omap by done. by destruct (_ !! prefix).
Qed.

Lemma hasNextHops_costs (f : FibEntry C) : hasNextHops f = negb (bool_decide (costs f = ∅)).
Proof.
  unfold hasNextHops. destruct (m_nextHops f) eqn:E0.
  - by rewrite bool_decide_eq_true_2 by (by apply costs_empty).
  - rewrite bool_decide_eq_false_2; [done|]. intros Hc%costs_empty. congruence.
Qed.

(** A removal of nexthops followed by the erasure of an entry left without any. *)
Lemma shrink_ok prefix (g : FibEntry C -> FibEntry C) gc ce fb f :
  fib_ok fb -> view fb !! prefix = Some f ->
  (forall f, entry_ok f -> entry_ok (g f) /\ costs (g f) = gc (costs f) /\ fib_prefix (g f) = fib_prefix f) ->
  let fb1 := fib_write prefix g fb in
  exists fb', (if hasNextHops (g f) then Some fb1 else fib_erase_nte prefix ce fb1) = Some fb' /\
    fib_read prefix fb1 = Some (g f) /\ fib_ok fb' /\ fib_abs fb' = abs_shrink (fib_abs fb) prefix gc.
Proof.
  intros Hfb Hf Hg fb1. pose proof Hfb as (_ & _ & Hent & _).
  destruct (Hent prefix f Hf) as [Hp Hfe]. destruct (Hg f Hfe) as (Hge & Hgc & Hgp).
  destruct (fib_write_ok prefix g f fb Hfb Hf) as (Hfb1 & Hv1 & _); [congruence|done|].
  fold fb1 in Hfb1, Hv1. rewrite (fib_read_ok prefix fb1 Hfb1), Hv1, lookup_insert_eq.
  unfold fib_abs, abs_shrink. rewrite lookup_fmap, Hf, hasNextHops_costs, Hgc. simpl.
  destruct (decide (gc (costs f) = ∅)) as [He|He].
  - rewrite bool_decide_eq_true_2 by done.
    destruct (fib_erase_ok prefix ce (g f) fb1 Hfb1) as (fb2 & -> & Hfb2 & Hv2 & _).
    { rewrite Hv1. by rewrite lookup_insert_eq. }
    exists fb2. split_and!; [done..|]. by rewrite Hv2, Hv1, delete_insert_eq, fmap_delete.
  - rewrite bool_decide_eq_false_2 by done. exists fb1. split_and!; [done..|].
    by rewrite Hv1, fmap_insert, Hgc.
Qed.

Lemma shrink_none fb prefix gc : view fb !! prefix = None -> abs_shrink (fib_abs fb) prefix gc = fib_abs fb.
Proof. intros Hn. unfold abs_shrink, fib_abs. by rewrite lookup_fmap, Hn. Qed.

Lemma addNextHop_refines faces inc prefix faceId cost fb :
  fib_ok fb ->
  exists fb' code, mgr_addNextHop faces inc prefix faceId cost fb = Some (fb', code) /\ fib_ok fb' /\
    (fib_abs fb', Code code) = abs_step faces (fib_abs fb) (FibAddNextHop inc prefix faceId cost).
Proof.
  intros Hfb. unfold mgr_addNextHop, abs_step. set (fid := setFaceForSelfRegistration inc faceId).
  cbv zeta. destruct (Nat.ltb_spec getMaxDepth (length prefix)) as [|Hlen]; [eauto|].
  destruct (decide (fid ∈ faces)); [|eauto].
  destruct (fib_insert_ok prefix fb Hfb Hlen) as (fb1 & -> & Hfb1 & Hv1 & _). simpl.
  set (f := default (newFibEntry prefix) (view fb !! prefix)) in *.
  assert (view fb1 !! prefix = Some f) as Hf by (rewrite Hv1; apply lookup_insert_eq).
  pose proof Hfb1 as (_ & _ & Hent1 & _). destruct (Hent1 prefix f Hf) as [Hp Hfe].
  destruct (addOrUpdateNextHop_ok sort fid 0 cost f Hfe) as (Hoe & Hoc & Hop).
  destruct (fib_write_ok prefix (addOrUpdateNextHop sort fid 0 cost) f fb1 Hfb1 Hf)
    as (Hfb2 & Hv2 & _); [congruence|done|].
  eexists _, 200. split_and!; [done|done|]. unfold fib_abs. rewrite Hv2, Hv1, insert_insert_eq, fmap_insert, Hoc.
  do 3 f_equal. rewrite lookup_fmap. subst f. by destruct (view fb !! prefix).
Qed.

Lemma removeNextHop_refines faces inc prefix faceId fb :
  fib_ok fb ->
  exists fb' code, mgr_removeNextHop faces inc prefix faceId fb = Some (fb', code) /\ fib_ok fb' /\
    (fib_abs fb', Code code) = abs_step faces (fib_abs fb) (FibRemoveNextHop inc prefix faceId).
Proof.
  intros Hfb. unfold mgr_removeNextHop, abs_step. set (fid := setFaceForSelfRegistration inc faceId).
  cbv zeta. destruct (decide (fid ∈ faces)); [|eauto]. rewrite fib_exact_ok by done.
  destruct (view fb !! prefix) as [f|] eqn:Hf; [|eexists fb, 200; by rewrite shrink_none].
  pose proof Hfb as (_ & _ & Hent & _). destruct (Hent prefix f Hf) as [-> Hfe].
  destruct (shrink_ok prefix (removeNextHop_entry fid 0) (delete (fid, 0)) true fb f Hfb Hf)
    as (fb' & Hr & Hread & Hfb' & Ha).
  { intros f0 Hf0. destruct (removeNextHop_ok fid 0 f0 Hf0) as [??]. done. }
  rewrite Hread. simpl. exists fb', 200. rewrite Ha. split_and!; [|done|done].
  destruct (hasNextHops (removeNextHop_entry fid 0 f)); [congruence|]. unfold fib_erase_entry.
  by rewrite Hr.
Qed.

Lemma fib_step_refines faces fb op :
  fib_ok fb ->
  exists fb' ans, fib_step faces fb op = Some (fb', ans) /\ fib_ok fb' /\
    (fib_abs fb', ans) = abs_step faces (fib_abs fb) op.
Proof.
  intros Hfb. destruct op as [inc prefix faceId cost|inc prefix faceId|prefix face|name].
  - destruct (addNextHop_refines faces inc prefix faceId cost fb Hfb) as (fb' & code & Hs & Hfb' & Ha).
    exists fb', (Code code). cbn [fib_step]. rewrite Hs. done.
  - destruct (removeNextHop_refines faces inc prefix faceId fb Hfb) as (fb' & code & Hs & Hfb' & Ha).
    exists fb', (Code code). cbn [fib_step]. rewrite Hs. done.
  - cbn [fib_step abs_step]. rewrite fib_exact_ok by done.
    destruct (view fb !! prefix) as [f|] eqn:Hf; [|eexists fb, NoAnswer; by rewrite shrink_none].
    pose proof Hfb as (_ & _ & Hent & _). destruct (Hent prefix f Hf) as [-> Hfe].
    destruct (shrink_ok prefix (removeNextHopByFace_entry face) (filter (fun kc => kc.1.1 <> face))
      false fb f Hfb Hf) as (fb' & Hr & Hread & Hfb' & Ha).
    { intros f0 Hf0. destruct (removeNextHopByFace_ok face f0 Hf0) as [??]. done. }
    unfold fib_removeNextHopByFace, fib_eraseIfEmpty. rewrite Hread. simpl. rewrite Hr. simpl.
    exists fb', NoAnswer. by rewrite Ha.
  - cbn [fib_step abs_step]. rewrite fib_lpm_ok by done.
    generalize (Datatypes.S (Nat.min (length name) getMaxDepth)). intros d. simpl. eexists fb, _. split_and!; [done|done|].
    unfold fib_abs. rewrite abs_match_fmap.
    destruct (abs_match (view fb) name _) as [[n f]|] eqn:Em; simpl; [|done].
    pose proof Hfb as (_ & _ & Hent & _). apply abs_match_lookup in Em.
    by destruct (Hent n f Em) as [-> _].
Qed.

Fixpoint fib_run (faces : gset Z) fb (ops : list fib_op) : option (Fib * list fib_answer) :=
  match ops with
  | [] => Some (fb, [])
  | op :: ops' =>
      '(fb, a) ← fib_step faces fb op;
      '(fb, l) ← fib_run faces fb ops';
      Some (fb, a :: l)
  end.

Fixpoint abs_run (faces : gset Z) (a : gmap Name (gmap (Z * Z) Z)) (ops : list fib_op) :
    gmap Name (gmap (Z * Z) Z) * list fib_answer :=
  match ops with
  | [] => (a, [])
  | op :: ops' =>
      let '(a, x) := abs_step faces a op in
      let '(a, l) := abs_run faces a ops' in (a, x :: l)
  end.

Lemma fib_run_refines faces ops : forall fb, fib_ok fb ->
  exists fb' l, fib_run faces fb ops = Some (fb', l) /\ fib_ok fb' /\
    (fib_abs fb', l) = abs_run faces (fib_abs fb) ops.
Proof.
  induction ops as [|op ops IH]; intros fb Hfb; [by exists fb, []|].
  destruct (fib_step_refines faces fb op Hfb) as (fb1 & a & Hs & Hfb1 & Ha).
  destruct (IH fb1 Hfb1) as (fb2 & l & Hr & Hfb2 & Hl).
  exists fb2, (a :: l). cbn [fib_run abs_run]. rewrite Hs, <-Ha. simpl. rewrite Hr, <-Hl. done.
Qed.

(** The bug of [erase(prefix)]: the name tree entry is found, but not checked for
    a FIB entry. *)
Lemma erase_name_miscounts prefix e fb :
  fib_ok fb -> nt_entries (fib_tree fb) !! prefix = Some e -> m_fibEntry e = None ->
  exists fb', fib_erase_name prefix fb = Some fb' /\ view fb' = view fb /\
    fib_nItems fb' = u64 (fib_nItems fb - 1).
Proof.
  intros (Hok & Hwf & _) He Hf. unfold fib_erase_name. rewrite findExactMatch_ok, take_ge, He by done.
  destruct (Hwf _ _ He) as (-> & _). unfold fib_erase_nte.
  destruct (update_ok (fib_tree fb) prefix (setFibEntry None) Hok Hwf) as (Hok2 & Hwf2 & He2);
    [auto with nfd|].
  destruct (eraseIfEmpty_ok _ prefix true Hok2 Hwf2) as (t3 & k & -> & _ & _ & Htab & _).
  { rewrite He2, lookup_alter_eq, He. by eexists. }
  simpl. eexists. split_and!; [done| |done]. unfold view. simpl. rewrite (fib_view_ext _ _ Htab), He2.
  pose proof (fib_view_alter _ _ _ (fun _ => None) He) as Hv.
  change (alter (fun e => setFibEntry _ e)) with (alter (M:=gmap Name Entry) (setFibEntry None)) in Hv.
  rewrite Hv. apply delete_id. unfold fib_view. by rewrite lookup_omap, He.
Qed.

(** ** Properties *)

(** C20: the FIB, its name tree and the FIB manager's commands implement a table
    from prefixes to the costs of their nexthops: any sequence of add-nexthop and
    remove-nexthop commands, face removals and longest prefix matches runs to its
    end with the responses of the table, every entry keeps one nexthop per face
    and endpoint in order of cost, and the item counter counts the entries. *)
Theorem fib_refines faces ops fb :
  fib_ok fb ->
  exists fb' answers, fib_run faces fb ops = Some (fb', answers) /\ fib_ok fb' /\
    (fib_abs fb', answers) = abs_run faces (fib_abs fb) ops /\
    fib_nItems fb' = u64 (Z.of_nat (size (fib_abs fb'))).
Proof.
  intros Hfb. destruct (fib_run_refines faces ops fb Hfb) as (fb' & l & Hr & Hfb' & Ha).
  exists fb', l. split_and!; [done..|]. destruct Hfb' as (_ & _ & _ & ->).
  unfold fib_abs, view. by rewrite map_size_fmap.
Qed.

(** [erase(prefix)] on a prefix whose name tree entry exists without a FIB
    entry (as an ancestor of another prefix does) leaves the FIB as it was but
    decrements the item counter, which then no longer counts the entries. *)
Theorem fib_erase_name_miscounts prefix e fb :
  fib_ok fb -> nt_entries (fib_tree fb) !! prefix = Some e -> m_fibEntry e = None ->
  exists fb', fib_erase_name prefix fb = Some fb' /\ view fb' = view fb /\
    fib_nItems fb' = u64 (fib_nItems fb - 1).
Proof. apply erase_name_miscounts. Qed.

End Fib.
Arguments Fib : clear implicits.

Module FibExamples.

Notation FibTree := (Hashtable Z (Entry Z (FibEntry Z) Z Z Z)).
Definition nh_sort := sort_by nh_cost.

Definition fib0 : Fib FibTree := mkFib (newHashtable (newOptions 4)) 0.

Lemma fib0_ok : fib_ok fib0.
Proof.
  destruct (ht_new_ok (C:=Z) (E:=Entry Z (FibEntry Z) Z Z Z) (newOptions 4)) as [Hok He].
  - split; [simpl; lia|]. apply Z.leb_le. by vm_compute.
  - unfold fib_ok. simpl. rewrite He. split_and!; [done| | |done].
    + intros n e Hn. by rewrite lookup_empty in Hn.
    + intros n f Hn. unfold fib_view in Hn. by rewrite omap_empty, lookup_empty in Hn.
Qed.

Example fib_refines_witness :
  let ops := [FibAddNextHop 7 [1; 2] 5 10; FibAddNextHop 7 [1; 2] 0 3; FibMatch [1; 2; 3]] in
  exists fb', fib_run nh_sort {[5; 7]} fib0 ops =
    Some (fb', [Code 200; Code 200; Matched [1; 2] {[(5, 0) := 10; (7, 0) := 3]}]) /\ fib_nItems fb' = 1.
Proof.
  intros ops. destruct (fib_refines nh_sort {[5; 7]} ops fib0 fib0_ok) as (fb' & l & Hr & _ & Ha & Hn).
  exists fb'. rewrite Hr, Hn.
  assert (fib_abs fib0 = ∅) as H0 by (by vm_compute). rewrite H0 in Ha.
  assert (snd (abs_run {[5; 7]} ∅ ops) =
    [Code 200; Code 200; Matched [1; 2] {[(5, 0) := 10; (7, 0) := 3]}]) as H1 by (by vm_compute).
  assert (size (abs_run {[5; 7]} ∅ ops).1 = 1%nat) as H2 by (by vm_compute).
  rewrite <-Ha in H1, H2. cbn [fst snd] in H1, H2. rewrite H1, H2. split; reflexivity.
Defined.

Definition fib1 : Fib FibTree := match fib_insert [1; 2] fib0 with Some (fb, _, _) => fb | None => fib0 end.

Lemma fib1_ok : fib_ok fib1.
Proof.
  destruct (fib_insert_ok [1; 2] fib0 fib0_ok) as (fb & Hi & Hfb & _); [unfold getMaxDepth; simpl; lia|].
  unfold fib1. rewrite Hi. exact Hfb.
Qed.

Example fib_erase_name_miscounts_witness :
  exists fb', fib_erase_name [1] fib1 = Some fb' /\ view fb' = view fib1 /\ fib_nItems fb' = 0.
Proof.
  destruct (nt_entries (newEntry:=newEntry) (fib_tree fib1) !! [1]) as [e|] eqn:He;
    [|vm_compute in He; discriminate].
  assert (fmap (M:=option) m_fibEntry (nt_entries (newEntry:=newEntry) (fib_tree fib1) !! [1]) = Some None)
    as Hf by (by vm_compute).
  rewrite He in Hf. apply (inj Some) in Hf.
  destruct (fib_erase_name_miscounts [1] e fib1 fib1_ok He Hf) as (fb' & H1 & H2 & H3).
  exists fb'. split_and!; [exact H1|exact H2|]. rewrite H3. by vm_compute.
Defined.

End FibExamples.
