(* ===== verification/Pit.v ===== *)
(** * Pending Interest table

    Models [daemon/table/pit-face-record.*], [pit-in-record.*],
    [pit-out-record.*], [pit-entry.hpp/.cpp] and [pit.hpp/.cpp]. PIT entries of
    one name tree entry are told apart by name and selectors, so that a pointer to
    a PIT entry is the pair of them. Times are nanoseconds on the steady clock;
    [now] is the reading of the clock. The expiry timer of an entry is the time
    at which it is scheduled. *)

From S2P Require Import Prelude Ndn Hashtable NameTree Fib.
Local Open Scope Z_scope.

Definition ms : Z := 1000000.
Definition TimePoint_min : Z := - 2 ^ 63.

(** The [StrategyInfo] items of a host by type id. The items of the strategies
    modelled here hold one integer. *)
Definition StrategyInfoHost : Type := gmap Z Z.

(** [getStrategyInfo<T>()], [insertStrategyInfo<T>(x)] (the item, new or existing,
    and whether it is new) and [eraseStrategyInfo<T>()] (the number erased). *)
Definition getStrategyInfo (typeId : Z) (h : StrategyInfoHost) : option Z := h !! typeId.
Definition insertStrategyInfo (typeId x : Z) (h : StrategyInfoHost) : StrategyInfoHost * Z * bool :=
  match h !! typeId with
  | Some y => (h, y, false)
  | None => (<[typeId := x]> h, x, true)
  end.
Definition eraseStrategyInfo (typeId : Z) (h : StrategyInfoHost) : StrategyInfoHost * Z :=
  (delete typeId h, if h !! typeId then 1 else 0).

Section Records.
Context {C : Type} `{Packets C}.
Notation Name := (list C).
Notation Interest := (Interest C).

(** [FaceRecord], with the [m_interest] of an in-record and the
    [m_incomingNack] of an out-record, as a Nack reason. *)
Record InRecord := mkInRecord {
  in_face : Z; in_lastNonce : Z; in_lastRenewed : Z; in_expiry : Z;
  in_interest : option Interest; in_info : StrategyInfoHost
}.
Record OutRecord := mkOutRecord {
  out_face : Z; out_lastNonce : Z; out_lastRenewed : Z; out_expiry : Z;
  out_incomingNack : option Z; out_info : StrategyInfoHost
}.

Definition newInRecord (face : Z) : InRecord := mkInRecord face 0 TimePoint_min TimePoint_min None ∅.
Definition newOutRecord (face : Z) : OutRecord := mkOutRecord face 0 TimePoint_min TimePoint_min None ∅.

(** The lifetime that [FaceRecord::update] uses, in nanoseconds. *)
Definition lifetime_of (interest : Interest) : Z :=
  (if i_lifetime interest <? 0 then DEFAULT_INTEREST_LIFETIME else i_lifetime interest) * ms.

Definition updateInRecord (now : Z) (interest : Interest) (r : InRecord) : InRecord :=
  mkInRecord (in_face r) (i_nonce interest) now (now + lifetime_of interest) (Some interest) (in_info r).
Definition updateOutRecord (now : Z) (interest : Interest) (r : OutRecord) : OutRecord :=
  mkOutRecord (out_face r) (i_nonce interest) now (now + lifetime_of interest) (out_incomingNack r)
    (out_info r).

Definition setIncomingNack (nonce reason : Z) (r : OutRecord) : OutRecord * bool :=
  if nonce =? out_lastNonce r
  then (mkOutRecord (out_face r) (out_lastNonce r) (out_lastRenewed r) (out_expiry r) (Some reason)
          (out_info r), true)
  else (r, false).
Definition clearIncomingNack (r : OutRecord) : OutRecord :=
  mkOutRecord (out_face r) (out_lastNonce r) (out_lastRenewed r) (out_expiry r) None (out_info r).

Record PitEntry := mkPitEntry {
  m_interest : Interest;
  m_inRecords : list InRecord;
  m_outRecords : list OutRecord;
  isSatisfied : bool;
  dataFreshnessPeriod : Z;
  expiryTimer : option Z;
  pe_info : StrategyInfoHost
}.

Definition newPitEntry (interest : Interest) : PitEntry := mkPitEntry interest [] [] false 0 None ∅.

Definition set_inRecords (l : list InRecord) (pe : PitEntry) : PitEntry :=
  mkPitEntry (m_interest pe) l (m_outRecords pe) (isSatisfied pe) (dataFreshnessPeriod pe) (expiryTimer pe)
    (pe_info pe).
Definition set_outRecords (l : list OutRecord) (pe : PitEntry) : PitEntry :=
  mkPitEntry (m_interest pe) (m_inRecords pe) l (isSatisfied pe) (dataFreshnessPeriod pe) (expiryTimer pe)
    (pe_info pe).

(** [canMatch(interest, nEqualNameComps)]. *)
Definition canMatch (pe : PitEntry) (interest : Interest) (nEqualNameComps : nat) : bool :=
  bool_decide (drop nEqualNameComps (i_name (m_interest pe)) = drop nEqualNameComps (i_name interest)) &&
  bool_decide (i_selectors (m_interest pe) = i_selectors interest).

Definition getInRecord (face : Z) (pe : PitEntry) : option InRecord :=
  find_if (has_key in_face face) (m_inRecords pe).

Definition insertOrUpdateInRecord (now face : Z) (interest : Interest) (pe : PitEntry) : PitEntry :=
  let l := match getInRecord face pe with
           | None => newInRecord face :: m_inRecords pe
           | Some _ => m_inRecords pe
           end in
  set_inRecords (update_first (has_key in_face face) (updateInRecord now interest) l) pe.

Definition deleteInRecord (face : Z) (pe : PitEntry) : PitEntry :=
  set_inRecords (erase_first (has_key in_face face) (m_inRecords pe)) pe.

Definition clearInRecords (pe : PitEntry) : PitEntry := set_inRecords [] pe.

Definition getOutRecord (face : Z) (pe : PitEntry) : option OutRecord :=
  find_if (has_key out_face face) (m_outRecords pe).

Definition insertOrUpdateOutRecord (now face : Z) (interest : Interest) (pe : PitEntry) : PitEntry :=
  let l := match getOutRecord face pe with
           | None => newOutRecord face :: m_outRecords pe
           | Some _ => m_outRecords pe
           end in
  set_outRecords (update_first (has_key out_face face) (updateOutRecord now interest) l) pe.

Definition deleteOutRecord (face : Z) (pe : PitEntry) : PitEntry :=
  set_outRecords (erase_first (has_key out_face face) (m_outRecords pe)) pe.

Definition set_info (h : StrategyInfoHost) (pe : PitEntry) : PitEntry :=
  mkPitEntry (m_interest pe) (m_inRecords pe) (m_outRecords pe) (isSatisfied pe) (dataFreshnessPeriod pe)
    (expiryTimer pe) h.
Definition set_satisfied (b : bool) (pe : PitEntry) : PitEntry :=
  mkPitEntry (m_interest pe) (m_inRecords pe) (m_outRecords pe) b (dataFreshnessPeriod pe)
    (expiryTimer pe) (pe_info pe).
Definition set_freshness (x : Z) (pe : PitEntry) : PitEntry :=
  mkPitEntry (m_interest pe) (m_inRecords pe) (m_outRecords pe) (isSatisfied pe) x
    (expiryTimer pe) (pe_info pe).
Definition set_expiryTimer (x : option Z) (pe : PitEntry) : PitEntry :=
  mkPitEntry (m_interest pe) (m_inRecords pe) (m_outRecords pe) (isSatisfied pe) (dataFreshnessPeriod pe)
    x (pe_info pe).

Definition hasInRecords (pe : PitEntry) : bool := match m_inRecords pe with [] => false | _ => true end.
Definition hasOutRecords (pe : PitEntry) : bool := match m_outRecords pe with [] => false | _ => true end.

(** The name and selectors that tell PIT entries apart. *)
Definition pit_key (pe : PitEntry) : Name * Selectors :=
  (i_name (m_interest pe), i_selectors (m_interest pe)).
Definition interest_key (interest : Interest) : Name * Selectors :=
  (i_name interest, i_selectors interest).

(** One record per face on each side. *)
Definition records_ok (pe : PitEntry) : Prop :=
  uniq_keys in_face (m_inRecords pe) /\ uniq_keys out_face (m_outRecords pe).

Lemma canMatch_spec pe interest k :
  take k (i_name (m_interest pe)) = take k (i_name interest) ->
  canMatch pe interest k = has_key pit_key (interest_key interest) pe.
Proof.
  intros Ht. unfold canMatch, has_key, pit_key, interest_key.
  apply eq_true_iff_eq. rewrite andb_true_iff, !bool_decide_eq_true. split.
  - intros [Hd ->]. f_equal. by rewrite <-(take_drop k (i_name (m_interest pe))), Ht, Hd, take_drop.
  - by intros [= -> ->].
Qed.

Lemma insertOrUpdateInRecord_ok now face interest pe :
  records_ok pe ->
  records_ok (insertOrUpdateInRecord now face interest pe) /\
  pit_key (insertOrUpdateInRecord now face interest pe) = pit_key pe /\
  m_outRecords (insertOrUpdateInRecord now face interest pe) = m_outRecords pe /\
  getInRecord face (insertOrUpdateInRecord now face interest pe) =
    Some (mkInRecord face (i_nonce interest) now (now + lifetime_of interest) (Some interest)
            (match getInRecord face pe with Some r => in_info r | None => ∅ end)) /\
  (forall f, f <> face -> getInRecord f (insertOrUpdateInRecord now face interest pe) = getInRecord f pe).
Proof.
  intros [Hi Ho].
  destruct (upsert_front in_face face (newInRecord face) (updateInRecord now interest) (m_inRecords pe))
    as (H1 & H2 & H3); [done..|].
  split_and!; try done. etrans; [exact H2|]. unfold updateInRecord, getInRecord.
  destruct (find_if (has_key in_face face) (m_inRecords pe)) eqn:E0; simpl; [|done].
  by apply find_key_Some in E0 as [_ ->].
Qed.

Lemma insertOrUpdateOutRecord_ok now face interest pe :
  records_ok pe ->
  records_ok (insertOrUpdateOutRecord now face interest pe) /\
  pit_key (insertOrUpdateOutRecord now face interest pe) = pit_key pe /\
  m_inRecords (insertOrUpdateOutRecord now face interest pe) = m_inRecords pe /\
  (exists r, getOutRecord face (insertOrUpdateOutRecord now face interest pe) = Some r /\
     out_lastNonce r = i_nonce interest /\ out_lastRenewed r = now /\
     out_expiry r = now + lifetime_of interest) /\
  (forall f, f <> face -> getOutRecord f (insertOrUpdateOutRecord now face interest pe) = getOutRecord f pe).
Proof.
  intros [Hi Ho].
  destruct (upsert_front out_face face (newOutRecord face) (updateOutRecord now interest) (m_outRecords pe))
    as (H1 & H2 & H3); [done..|].
  split_and!; try done. eexists. split; [exact H2|done].
Qed.

End Records.
Arguments PitEntry C {_ _}.
Arguments InRecord C {_ _}.

Section Pit.
Context {C F M S : Type} `{Packets C}.
Notation Name := (list C).
Notation Interest := (Interest C).
Notation PitEntry := (PitEntry C).
Notation Entry := (Entry C F PitEntry M S).
Context {T : Type} `{!NodeTable C Entry newEntry T}.
Implicit Types (n name : Name) (t : T) (m : gmap Name Entry) (pe : PitEntry).

Record Pit := mkPit { pit_tree : T; pit_nItems : Z }.
Implicit Types p : Pit.

(** The depth of the name tree entry that a PIT entry is attached to. *)
Definition nteDepth name : nat :=
  Nat.min (length name - (if endsWithDigest name then 1 else 0)) getMaxDepth.
Definition nteName name : Name := take (nteDepth name) name.

(** [findOrInsert(interest, allowInsert)]: the key of the entry, and whether it
    is new (or missing). *)
Definition pit_findOrInsert (interest : Interest) (allowInsert : bool) p :
    option (Pit * option (Name * Selectors) * bool) :=
  let name := i_name interest in
  '(t, nte) ← (if allowInsert
               then '(t, nte) ← lookup name (nteDepth name) (pit_tree p); Some (t, Some nte)
               else Some (pit_tree p, m_name <$> findExactMatch name (nteDepth name) (pit_tree p)));
  match nte with
  | None => Some (p, None, true)
  | Some nte =>
      e ← deref nte t;
      match find_if (fun pe => canMatch pe interest (nteDepth name)) (m_pitEntries e) with
      | Some pe => Some (mkPit t (pit_nItems p), Some (pit_key pe), false)
      | None =>
          if allowInsert then
            let t := nt_update nte (insertPitEntry (newPitEntry interest)) t in
            Some (mkPit t (u64 (pit_nItems p + 1)), Some (interest_key interest), true)
          else Some (mkPit t (pit_nItems p), None, true)
      end
  end.

Definition pit_find interest p : option (option (Name * Selectors)) :=
  '(_, key, _) ← pit_findOrInsert interest false p; Some key.
Definition pit_insert interest p := pit_findOrInsert interest true p.

(** The entry of a key, read through a pointer to it. *)
Definition pit_read (key : Name * Selectors) p : option PitEntry :=
  e ← deref (nteName key.1) (pit_tree p); find_if (has_key pit_key key) (m_pitEntries e).

(** A write to the entry of a key. *)
Definition pit_write (key : Name * Selectors) (g : PitEntry -> PitEntry) p : Pit :=
  mkPit (nt_update (nteName key.1)
           (fun e => set_pitEntries (update_first (has_key pit_key key) g (m_pitEntries e)) e) (pit_tree p))
        (pit_nItems p).

(** [erase(entry, canDeleteNte)]. *)
Definition pit_erase (key : Name * Selectors) (canDeleteNte : bool) p : option Pit :=
  let t := nt_update (nteName key.1) (erasePitEntry (has_key pit_key key)) (pit_tree p) in
  '(t, _) ← (if canDeleteNte then eraseIfEmpty (nteName key.1) true t else Some (t, 0));
  Some (mkPit t (u64 (pit_nItems p - 1))).

Definition pit_deleteInOutRecords (key : Name * Selectors) (face : Z) p : Pit :=
  pit_write key (fun pe => deleteOutRecord face (deleteInRecord face pe)) p.

Definition nteHasPitEntries (nte : Entry) : bool :=
  match m_pitEntries nte with [] => false | _ => true end.

(** [findAllDataMatches(data)]: the matching entries, in order. *)
Definition pit_findAllDataMatches (data : Data) p : option (list PitEntry) :=
  ntes ← findAllMatches (data_name data) nteHasPitEntries (pit_tree p);
  Some (remove_if (fun pe => negb (matchesData (i_name (m_interest pe)) (i_selectors (m_interest pe)) data))
          (concat (m_pitEntries <$> ntes))).

(** ** Invariant *)

Definition pits_at n m : list PitEntry := (tables_at n m).1.1.2.

Definition pit_view m : gmap Name (list PitEntry) :=
  omap (fun e => match m_pitEntries e with [] => None | l => Some l end) m.

(** The number of PIT entries. *)
Definition pit_count m : Z := map_fold (fun _ l acc => Z.of_nat (length l) + acc) 0 (pit_view m).

Definition pits_ok n (l : list PitEntry) : Prop :=
  uniq_keys pit_key l /\
  Forall (fun pe => nteName (i_name (m_interest pe)) = n /\ records_ok pe) l.

Definition pit_ok p : Prop :=
  nt_ok (pit_tree p) /\ nt_wf (nt_entries (pit_tree p)) /\
  (forall n, pits_ok n (pits_at n (nt_entries (pit_tree p)))) /\
  pit_nItems p = u64 (pit_count (nt_entries (pit_tree p))).

(** The entry of a key. *)
Definition pit_at (key : Name * Selectors) p : option PitEntry :=
  find_if (has_key pit_key key) (pits_at (nteName key.1) (nt_entries (pit_tree p))).

Lemma pits_at_lookup m n e : m !! n = Some e -> pits_at n m = m_pitEntries e.
Proof. unfold pits_at, tables_at. by intros ->. Qed.

Lemma pits_at_None m n : m !! n = None -> pits_at n m = [].
Proof. unfold pits_at, tables_at. by intros ->. Qed.

Lemma pit_view_lookup m n :
  pit_view m !! n = match pits_at n m with [] => None | l => Some l end.
Proof.
  unfold pit_view, pits_at, tables_at. rewrite lookup_omap. by destruct (m !! n) as [e|].
Qed.

Lemma pit_count_ext m m' : (forall n, pits_at n m' = pits_at n m) -> pit_count m' = pit_count m.
Proof.
  intros Ht. unfold pit_count. f_equal. apply map_eq. intros n. by rewrite !pit_view_lookup, Ht.
Qed.

Lemma map_fold_count_delete (v : gmap Name (list PitEntry)) n l :
  v !! n = Some l ->
  map_fold (fun _ l acc => Z.of_nat (length l) + acc) 0 v =
  Z.of_nat (length l) + map_fold (fun _ l acc => Z.of_nat (length l) + acc) 0 (delete n v).
Proof.
  intros Hn. apply (map_fold_delete_L (fun _ l acc => Z.of_nat (length l) + acc)); [|done].
  intros. lia.
Qed.

(** Changing the entries of one name changes the count by the difference. *)
Lemma pit_count_change m m' n :
  (forall k, k <> n -> pits_at k m' = pits_at k m) ->
  pit_count m' = pit_count m - Z.of_nat (length (pits_at n m)) + Z.of_nat (length (pits_at n m')).
Proof.
  intros Hk. unfold pit_count.
  assert (delete n (pit_view m') = delete n (pit_view m)) as Hd.
  { apply map_eq. intros k. destruct (decide (k = n)) as [->|Hne].
    - by rewrite !lookup_delete_eq.
    - rewrite !lookup_delete_ne, !pit_view_lookup, Hk by done. done. }
  assert (forall m, map_fold (fun _ l acc => Z.of_nat (length l) + acc) 0 (pit_view m) =
    Z.of_nat (length (pits_at n m)) +
    map_fold (fun _ l acc => Z.of_nat (length l) + acc) 0 (delete n (pit_view m))) as Hc.
  { intros m0. destruct (pit_view m0 !! n) as [l|] eqn:Ev.
    - rewrite (map_fold_count_delete _ _ _ Ev). rewrite pit_view_lookup in Ev.
      destruct (pits_at n m0); by simplify_eq.
    - rewrite delete_id by done. rewrite pit_view_lookup in Ev. by destruct (pits_at n m0). }
  rewrite (Hc m), (Hc m'), Hd. lia.
Qed.

Lemma pit_read_ok key p : pit_ok p -> pit_read key p = pit_at key p.
Proof.
  intros (Hok & _). unfold pit_read, pit_at. rewrite deref_spec by done.
  destruct (nt_entries (pit_tree p) !! nteName key.1) as [e|] eqn:He; simpl.
  - by rewrite (pits_at_lookup _ _ _ He).
  - by rewrite (pits_at_None _ _ He).
Qed.

Lemma pits_at_alter m n e (g : list PitEntry -> list PitEntry) k :
  m !! n = Some e ->
  pits_at k (alter (fun e => set_pitEntries (g (m_pitEntries e)) e) n m) =
  if decide (k = n) then g (pits_at n m) else pits_at k m.
Proof.
  intros Hn. case_decide as Hk.
  - subst k. rewrite (pits_at_lookup m n e Hn).
    erewrite pits_at_lookup; [|rewrite lookup_alter_eq, Hn; done]. done.
  - unfold pits_at. by rewrite alter_tables.
Qed.

(** Replacing the entries of one name tree entry. *)
Lemma pit_alter_ok p n e (g : list PitEntry -> list PitEntry) :
  pit_ok p -> nt_entries (pit_tree p) !! n = Some e -> pits_ok n (g (m_pitEntries e)) ->
  let t' := nt_update n (fun e => set_pitEntries (g (m_pitEntries e)) e) (pit_tree p) in
  nt_ok t' /\ nt_wf (nt_entries t') /\ (forall k, pits_ok k (pits_at k (nt_entries t'))) /\
  is_Some (nt_entries t' !! n) /\
  (forall k, pits_at k (nt_entries t') =
     if decide (k = n) then g (m_pitEntries e) else pits_at k (nt_entries (pit_tree p))) /\
  pit_count (nt_entries t') =
    pit_count (nt_entries (pit_tree p)) - Z.of_nat (length (m_pitEntries e))
    + Z.of_nat (length (g (m_pitEntries e))).
Proof.
  intros (Hok & Hwf & Hp & Hc) He Hg t'. subst t'.
  destruct (update_ok (pit_tree p) n (fun e => set_pitEntries (g (m_pitEntries e)) e) Hok Hwf)
    as (Hok2 & Hwf2 & He2); [auto with nfd|].
  assert (forall k, pits_at k (nt_entries (nt_update n (fun e => set_pitEntries (g (m_pitEntries e)) e)
      (pit_tree p))) = if decide (k = n) then g (m_pitEntries e) else pits_at k (nt_entries (pit_tree p))) as Hat.
  { intros k. rewrite He2, (pits_at_alter _ _ e) by done. by rewrite (pits_at_lookup _ _ _ He). }
  split_and!; [done|done| | |done|].
  - intros k. rewrite Hat. case_decide; [by subst|done].
  - rewrite He2. apply lookup_alter_is_Some. by eexists.
  - rewrite (pit_count_change (nt_entries (pit_tree p)) _ n).
    + rewrite Hat, decide_True by done. by rewrite (pits_at_lookup _ _ _ He).
    + intros k Hk. by rewrite Hat, decide_False.
Qed.

Lemma pit_at_in key p pe : pit_at key p = Some pe ->
  exists e, nt_entries (pit_tree p) !! nteName key.1 = Some e /\ pe ∈ m_pitEntries e /\ pit_key pe = key /\
    find_if (has_key pit_key key) (m_pitEntries e) = Some pe.
Proof.
  unfold pit_at. destruct (nt_entries (pit_tree p) !! nteName key.1) as [e|] eqn:He.
  - rewrite (pits_at_lookup _ _ _ He). intros Hf. exists e.
    apply find_key_Some in Hf as Hx. destruct Hx. done.
  - by rewrite (pits_at_None _ _ He).
Qed.

Lemma nteDepth_le name : (nteDepth name <= length name)%nat /\ (nteDepth name <= getMaxDepth)%nat.
Proof. unfold nteDepth. lia. Qed.

Lemma find_canMatch interest n l :
  pits_ok n l -> nteName (i_name interest) = n ->
  find_if (fun pe => canMatch pe interest (nteDepth (i_name interest))) l =
  find_if (has_key pit_key (interest_key interest)) l.
Proof.
  intros [_ Hl] Hn. apply find_if_ext. intros pe Hpe. rewrite Forall_forall in Hl.
  destruct (Hl pe Hpe) as [Hpn _]. 
  destruct (decide (take (nteDepth (i_name interest)) (i_name (m_interest pe)) =
                    take (nteDepth (i_name interest)) (i_name interest))) as [Ht|Ht].
  - by apply canMatch_spec.
  - unfold canMatch, has_key, pit_key, interest_key.
    assert (i_name (m_interest pe) <> i_name interest) as Hne by congruence.
    rewrite (bool_decide_eq_false_2 (_ = (i_name interest, _))) by congruence.
    destruct (bool_decide_reflect (drop (nteDepth (i_name interest)) (i_name (m_interest pe)) =
      drop (nteDepth (i_name interest)) (i_name interest))) as [Hd|]; [|done]. exfalso.
    unfold nteName in *. rewrite <-Hpn in Hn. 
    apply Ht. rewrite Hn. clear -Hn Hd Hpn Ht.
    assert (nteDepth (i_name (m_interest pe)) = nteDepth (i_name interest)) as ->; [|done].
    apply (f_equal length) in Hn, Hd. rewrite !length_take in Hn. rewrite !length_drop in Hd.
    pose proof (nteDepth_le (i_name interest)). pose proof (nteDepth_le (i_name (m_interest pe))). lia.
Qed.

(** ** Operations *)

Lemma pits_ok_nil n : pits_ok n [].
Proof. split; [by apply NoDup_nil|constructor]. Qed.

Lemma newPitEntry_ok (interest : Interest) : records_ok (newPitEntry interest).
Proof. split; by apply NoDup_nil. Qed.

Lemma pits_at_tables m m' n : tables_at n m' = tables_at n m -> pits_at n m' = pits_at n m.
Proof. unfold pits_at. by intros ->. Qed.

(** Adding a PIT entry that the name tree entry does not have. *)
Lemma pit_add_ok p n e pe :
  pit_ok p -> nt_entries (pit_tree p) !! n = Some e ->
  nteName (i_name (m_interest pe)) = n -> records_ok pe ->
  find_if (has_key pit_key (pit_key pe)) (m_pitEntries e) = None ->
  let p' := mkPit (nt_update n (insertPitEntry pe) (pit_tree p)) (u64 (pit_nItems p + 1)) in
  pit_ok p' /\ (forall k, pit_at k p' = if decide (k = pit_key pe) then Some pe else pit_at k p).
Proof.
  intros Hp He Hn Hr Hf p'. pose proof Hp as (_ & _ & Hpits & Hc).
  destruct (pit_alter_ok p n e (fun l => l ++ [pe]) Hp He) as (Hok' & Hwf' & Hpits' & _ & Hat & Hcount).
  { specialize (Hpits n). rewrite (pits_at_lookup _ _ _ He) in Hpits. destruct Hpits as [Hu Hall]. split.
    - unfold uniq_keys. rewrite fmap_app. apply NoDup_app. split_and!; [done| |apply NoDup_singleton].
      intros x Hx ->%list_elem_of_singleton. by apply find_key_None in Hf.
    - apply Forall_app. split; [done|]. constructor; [done|constructor]. }
  change (fun e0 : Entry => set_pitEntries (m_pitEntries e0 ++ [pe]) e0) with (insertPitEntry (F:=F) (M:=M) (S:=S) (C:=C) pe) in *.
  split; [split_and!; [done|done|done|]|].
  - simpl. rewrite Hcount, Hc, u64_add_l, length_app. simpl. f_equal. lia.
  - intros k. unfold pit_at. simpl. rewrite Hat. case_decide as Hk; case_decide as Hkp.
    + subst k. rewrite find_if_app, Hf. simpl. unfold has_key. by rewrite bool_decide_eq_true_2.
    + rewrite Hk, (pits_at_lookup _ _ _ He), find_if_app.
      destruct (find_if (has_key pit_key k) (m_pitEntries e)); [done|].
      simpl. unfold has_key. by rewrite bool_decide_eq_false_2 by congruence.
    + subst k. done.
    + done.
Qed.

Lemma pit_insert_ok interest p :
  pit_ok p ->
  exists p', pit_insert interest p =
      Some (p', Some (interest_key interest), bool_decide (pit_at (interest_key interest) p = None)) /\
    pit_ok p' /\
    (forall k, pit_at k p' = if decide (k = interest_key interest)
       then Some (default (newPitEntry interest) (pit_at k p)) else pit_at k p).
Proof.
  intros Hp. pose proof Hp as (Hok & Hwf & Hpits & Hc). unfold pit_insert, pit_findOrInsert.
  set (name := i_name interest). destruct (nteDepth_le name) as [Hd1 Hd2].
  destruct (lookup_ok (pit_tree p) name (nteDepth name) Hok Hwf Hd1 Hd2) as (t' & -> & Hok' & Hwf' & Hdom & Htab).
  fold (nteName name) in *. simpl. rewrite deref_spec by done.
  destruct (proj2 (Hdom (nteName name)) (or_intror (reflexivity _))) as [e He]. rewrite He. simpl.
  assert (pit_ok (mkPit t' (pit_nItems p))) as Hp1.
  { split_and!; [done|done| |]; simpl.
    - intros n. by rewrite (pits_at_tables _ _ _ (Htab n)).
    - rewrite Hc. f_equal. symmetry. apply pit_count_ext. intros n. by apply pits_at_tables. }
  assert (forall k, pit_at k (mkPit t' (pit_nItems p)) = pit_at k p) as Hat1.
  { intros k. unfold pit_at. simpl. by rewrite (pits_at_tables _ _ _ (Htab _)). }
  pose proof Hp1 as (_ & _ & Hpits1 & _). specialize (Hpits1 (nteName name)). simpl in Hpits1.
  rewrite (pits_at_lookup _ _ _ He) in Hpits1.
  rewrite (find_canMatch interest (nteName name)) by done.
  assert (pit_at (interest_key interest) p =
    find_if (has_key pit_key (interest_key interest)) (m_pitEntries e)) as Hpa.
  { rewrite <-Hat1. unfold pit_at. cbn [pit_tree interest_key fst]. fold name. by rewrite (pits_at_lookup _ _ _ He). }
  rewrite Hpa. destruct (find_if (has_key pit_key (interest_key interest)) (m_pitEntries e)) as [pe|] eqn:Ef.
  - apply find_key_Some in Ef as Hpe. destruct Hpe as [_ Hpk]. rewrite Hpk.
    exists (mkPit t' (pit_nItems p)). split_and!; [done|done|]. intros k. rewrite Hat1.
    case_decide; [|done]. subst k. by rewrite Hpa.
  - destruct (pit_add_ok (mkPit t' (pit_nItems p)) (nteName name) e (newPitEntry interest) Hp1 He)
      as [Hp2 Hat2]; [done|apply newPitEntry_ok|exact Ef|].
    eexists. split_and!; [done|exact Hp2|]. intros k. rewrite Hat2, Hat1.
    case_decide as Hk1; [|by rewrite decide_False]. rewrite decide_True by done. subst k.
    change (pit_key (newPitEntry interest)) with (interest_key interest). by rewrite Hpa.
Qed.

Lemma pit_find_ok interest p :
  pit_ok p -> pit_find interest p =
    Some (pit_key <$> pit_at (interest_key interest) p).
Proof.
  intros Hp. pose proof Hp as (Hok & Hwf & Hpits & Hc). unfold pit_find, pit_findOrInsert.
  set (name := i_name interest). rewrite findExactMatch_ok by done. fold (nteName name). simpl.
  unfold pit_at. cbn [interest_key fst]. fold name.
  destruct (nt_entries (pit_tree p) !! nteName name) as [e|] eqn:He; simpl.
  - destruct (Hwf _ _ He) as (-> & _). rewrite deref_spec, He by done. simpl.
    specialize (Hpits (nteName name)). rewrite (pits_at_lookup _ _ _ He) in *.
    rewrite (find_canMatch interest (nteName name)) by done. by destruct (find_if _ _).
  - by rewrite (pits_at_None _ _ He).
Qed.

Lemma pit_write_ok key g pe p :
  pit_ok p -> pit_at key p = Some pe -> (forall x, pit_key (g x) = pit_key x) ->
  records_ok (g pe) ->
  pit_ok (pit_write key g p) /\
  (forall k, pit_at k (pit_write key g p) = if decide (k = key) then Some (g pe) else pit_at k p).
Proof.
  intros Hp Hpe Hg Hr. destruct (pit_at_in _ _ _ Hpe) as (e & He & Hin & Hk & Hf).
  pose proof Hp as (_ & _ & Hpits & Hc). pose proof (Hpits (nteName key.1)) as Hl.
  rewrite (pits_at_lookup _ _ _ He) in Hl. destruct Hl as [Hu Hall].
  destruct (pit_alter_ok p (nteName key.1) e (update_first (has_key pit_key key) g) Hp He)
    as (Hok' & Hwf' & Hpits' & _ & Hat & Hcount).
  { split; [by apply uniq_update_first|].
    rewrite (update_first_perm _ _ _ _ Hf). constructor.
    - split; [|done]. rewrite Forall_forall in Hall. destruct (Hall pe Hin) as [Hn _].
      pose proof (Hg pe) as Hgk. unfold pit_key in Hgk. by injection Hgk as -> _.
    - apply Forall_forall. intros x Hx. rewrite Forall_forall in Hall. apply Hall.
      by eapply elem_of_sublist; [|apply erase_first_sublist]. }
  unfold pit_write. split; [split_and!; [done|done|done|]|]; simpl.
  - rewrite Hcount, Hc, length_update_first. f_equal. lia.
  - intros k. unfold pit_at. simpl. rewrite Hat. destruct (decide (k = key)) as [->|Hne].
    + rewrite decide_True by done. apply find_update_same; [done|]. by rewrite Hg.
    + case_decide as Hkn; [|done]. rewrite Hkn, (pits_at_lookup _ _ _ He).
      apply find_update_other; [done|]. intros x Hx. by rewrite Hg.
Qed.

Lemma pit_erase_ok key ce pe p :
  pit_ok p -> pit_at key p = Some pe ->
  exists p', pit_erase key ce p = Some p' /\ pit_ok p' /\
    (forall k, pit_at k p' = if decide (k = key) then None else pit_at k p) /\
    pit_count (nt_entries (pit_tree p')) = pit_count (nt_entries (pit_tree p)) - 1.
Proof.
  intros Hp Hpe. destruct (pit_at_in _ _ _ Hpe) as (e & He & Hin & Hk & Hf).
  pose proof Hp as (_ & _ & Hpits & Hc). pose proof (Hpits (nteName key.1)) as Hl.
  rewrite (pits_at_lookup _ _ _ He) in Hl. destruct Hl as [Hu Hall]. unfold pit_erase.
  set (n := nteName key.1) in *. pose proof (swap_remove_perm _ _ _ Hf) as Hperm.
  set (l := swap_remove (has_key pit_key key) (m_pitEntries e)) in *.
  assert (uniq_keys pit_key (pe :: l)) as Hul by (unfold uniq_keys in *; by rewrite <-Hperm).
  destruct (pit_alter_ok p n e (swap_remove (has_key pit_key key)) Hp He)
    as (Hok2 & Hwf2 & Hpits2 & Hex & Hat & Hcount).
  { fold l. split; [by apply NoDup_cons in Hul as [_ ?]|]. rewrite Hperm in Hall.
    by apply Forall_cons in Hall as [_ ?]. }
  unfold erasePitEntry. set (t2 := nt_update n _ (pit_tree p)) in *. fold l in Hat, Hcount.
  assert (exists t3 k, (if ce then eraseIfEmpty n true t2 else Some (t2, 0)) = Some (t3, k) /\
    nt_ok t3 /\ nt_wf (nt_entries t3) /\
    forall k, pits_at k (nt_entries t3) = pits_at k (nt_entries t2)) as (t3 & k & -> & Hok3 & Hwf3 & Htab).
  { destruct ce; [|by exists t2, 0].
    destruct (eraseIfEmpty_ok t2 n true Hok2 Hwf2 Hex) as (t3 & k & ? & ? & Hw & Htab & _).
    exists t3, k. split_and!; [done..|]. intros k'. by apply pits_at_tables. }
  simpl. rewrite Hperm in Hcount. cbn [length] in Hcount.
  assert (pit_count (nt_entries t3) = pit_count (nt_entries (pit_tree p)) - 1) as Hc3.
  { rewrite (pit_count_ext _ _ Htab), Hcount. lia. }
  eexists. split_and!; [done| | |done].
  - split_and!; [done|done| |]; simpl.
    + intros k'. by rewrite Htab.
    + rewrite Hc3, Hc. rewrite <-Z.add_opp_r, u64_add_l. done.
  - intros k'. unfold pit_at. simpl. rewrite Htab, Hat. destruct (decide (k' = key)) as [->|Hne].
    + rewrite decide_True by done. apply find_key_None. apply NoDup_cons in Hul as [Hnot _]. by rewrite <-Hk.
    + case_decide as Hkn; [|done]. rewrite Hkn, (pits_at_lookup _ _ _ He).
      rewrite (find_key_perm _ _ _ _ Hu Hperm). simpl. unfold has_key at 2.
      rewrite bool_decide_eq_false_2 by congruence. done.
Qed.

(** ** Data matching *)

Lemma nteName_strip name :
  nteName name `prefix_of` (if endsWithDigest name then parentName name else name).
Proof.
  unfold nteName, nteDepth, parentName. destruct (endsWithDigest name).
  - apply prefix_of_take; [lia|]. eexists. split; [|done]. lia.
  - exists (drop (Nat.min (length name - 0) getMaxDepth) name). by rewrite take_drop.
Qed.

Lemma pit_at_pits key p pe n :
  pit_ok p -> pe ∈ pits_at n (nt_entries (pit_tree p)) -> pit_key pe = key ->
  pit_at key p = Some pe.
Proof.
  intros (_ & _ & Hpits & _) Hpe <-. destruct (Hpits n) as [Hu Hall].
  rewrite Forall_forall in Hall. destruct (Hall pe Hpe) as [<- _].
  by apply find_key_elem.
Qed.

Lemma findAllDataMatches_ok data p :
  pit_ok p ->
  exists l, pit_findAllDataMatches data p = Some l /\
    forall pe, pe ∈ l <-> pit_at (pit_key pe) p = Some pe /\
      matchesData (i_name (m_interest pe)) (i_selectors (m_interest pe)) data = true.
Proof.
  intros Hp. pose proof Hp as (Hok & Hwf & Hpits & _). unfold pit_findAllDataMatches.
  rewrite findAllMatches_ok by done. simpl. eexists. split; [done|]. intros pe.
  rewrite elem_of_remove_if, negb_false_iff. apply and_iff_compat_r'. intros Hm.
  rewrite list_elem_of_In, in_concat. split.
  - intros (l & Hl & Hpe). apply list_elem_of_In in Hl, Hpe.
    apply list_elem_of_fmap in Hl as (e & -> & He). apply elem_of_remove_if in He as [He _].
    apply elem_of_down in He as (i & _ & He). eapply pit_at_pits; [done| |done].
    by rewrite (pits_at_lookup _ _ _ He).
  - intros Hat. destruct (pit_at_in _ _ _ Hat) as (e & He & Hpe & _). exists (m_pitEntries e).
    split; [|by apply list_elem_of_In]. apply list_elem_of_In, list_elem_of_fmap. exists e.
    split; [done|]. apply elem_of_remove_if. split.
    + cbn [pit_key fst] in He. pose proof (nteName_strip (i_name (m_interest pe))) as Hpre.
      assert (nteName (i_name (m_interest pe)) `prefix_of` data_name data) as Hpd
        by (etrans; [done|by eapply matchesData_strip]).
      pose proof (prefix_length _ _ Hpd) as Hlen. apply prefix_take in Hpd.
      destruct (Hwf _ _ He) as (_ & Hmax & _). apply elem_of_down.
      exists (length (nteName (i_name (m_interest pe)))). split; [lia|]. by rewrite <-Hpd.
    + unfold nteHasPitEntries. by destruct (m_pitEntries e); [apply not_elem_of_nil in Hpe|].
Qed.

(** ** Properties *)

(** Inserting an Interest returns the entry of its name and selectors and
    says whether it is new; it adds at most that entry, with no records, leaves
    every other entry as it was, and the item counter counts the entries. *)
Theorem pit_insert_correct interest p :
  pit_ok p ->
  exists p', pit_insert interest p =
      Some (p', Some (interest_key interest), bool_decide (pit_at (interest_key interest) p = None)) /\
    pit_ok p' /\
    (forall k, pit_at k p' = if decide (k = interest_key interest)
       then Some (default (newPitEntry interest) (pit_at k p)) else pit_at k p).
Proof. apply pit_insert_ok. Qed.

(** The Data match returns exactly the PIT entries whose Interest the Data
    satisfies, those with an implicit digest or deeper than the name tree's limit
    included. *)
Theorem pit_findAllDataMatches_correct data p :
  pit_ok p ->
  exists l, pit_findAllDataMatches data p = Some l /\
    forall pe, pe ∈ l <-> pit_at (pit_key pe) p = Some pe /\
      matchesData (i_name (m_interest pe)) (i_selectors (m_interest pe)) data = true.
Proof. apply findAllDataMatches_ok. Qed.

End Pit.
Arguments Pit : clear implicits.

Module PitExamples.

Notation PitTree := (Hashtable Z (Entry Z Z (PitEntry Z) Z Z)).

Definition pit0 : Pit PitTree := mkPit (newHashtable (newOptions 4)) 0.

Lemma pit0_ok : pit_ok pit0.
Proof.
  destruct (ht_new_ok (C:=Z) (E:=Entry Z Z (PitEntry Z) Z Z) (newOptions 4)) as [Hok He].
  - split; [simpl; lia|]. apply Z.leb_le. by vm_compute.
  - unfold pit_ok, pits_at, pit_count, pit_view, tables_at. simpl. rewrite He.
    split_and!; [done| | |by rewrite omap_empty, map_fold_empty].
    + intros n e Hn. by rewrite lookup_empty in Hn.
    + intros n. rewrite lookup_empty. apply pits_ok_nil.
Qed.

(** An Interest with an implicit digest. *)
Definition interest1 : Interest Z := mkInterest _ _ _ [1; 2; -3] (false, false, 0) 77 4000 [] None.
Definition pit1 : Pit PitTree := match pit_insert interest1 pit0 with Some (p, _, _) => p | None => pit0 end.

Lemma pit1_ok : pit_ok pit1 /\ pit_at (interest_key interest1) pit1 = Some (newPitEntry interest1).
Proof.
  destruct (pit_insert_ok interest1 pit0 pit0_ok) as (p & Hi & Hp & Hat).
  unfold pit1. rewrite Hi. split; [exact Hp|]. rewrite Hat, decide_True by reflexivity.
  f_equal.
Qed.

Example pit_insert_correct_witness :
  exists p', pit_insert interest1 pit0 = Some (p', Some (interest_key interest1), true) /\ pit_ok p'.
Proof.
  destruct (pit_insert_correct interest1 pit0 pit0_ok) as (p & Hi & Hp & _).
  exists p. split; [|exact Hp]. rewrite Hi. f_equal.
Defined.

Definition data1 : @Data Z _ examplePackets := ([1; 2], 3%positive, 0).

Example pit_findAllDataMatches_correct_witness :
  exists l, pit_findAllDataMatches data1 pit1 = Some l /\ newPitEntry interest1 ∈ l.
Proof.
  destruct pit1_ok as [Hp Hat].
  destruct (pit_findAllDataMatches_correct data1 pit1 Hp) as (l & Hl & Hin).
  exists l. split; [exact Hl|]. apply Hin. split; [exact Hat|by vm_compute].
Defined.

End PitExamples.
