(* ===== verification/NameTreeEnum.v ===== *)
(** * Partial enumeration of the name tree

    Models [Iterator] and [PartialEnumerationImpl::advance] of
    [daemon/table/name-tree-iterator.cpp], with [NameTree::partialEnumerate]: a
    forward iterator that walks part of the tree in pre-order by following parent
    and child pointers, keeping no stack. The theorem compares it with the
    recursive traversal. *)

From S2P Require Import Prelude Ndn Hashtable NameTree.
Local Open Scope Z_scope.

Section PartialEnumeration.
Context {C F P M S : Type} `{NameComponent C}.
Notation Name := (list C).
Notation Entry := (Entry C F P M S).
Context {T : Type} `{!NodeTable C Entry newEntry T}.
Implicit Types (t : T) (n : Name) (e : Entry) (m : gmap Name Entry).

(** [m_state] is only used as a boolean here. The default iterator is the end. *)
Record Iterator := mkIterator { it_entry : option Name; it_ref : option Name; it_state : bool }.
Definition it_end : Iterator := mkIterator None None false.

(** An [EntrySubTreeSelector]: whether the entry, and whether its children are wanted. *)
Variable pred : Entry -> bool * bool.

(** How the inner loop over the siblings is left. *)
Inductive Siblings := Visit n (wantChildren : bool) | Descend n | NoMore.

Fixpoint siblings_loop (siblings : list Name) t : option Siblings :=
  match siblings with
  | [] => Some NoMore
  | s :: rest =>
      e ← deref s t;
      let '(wantSelf, wantChildren) := pred e in
      if (wantSelf : bool) then Some (Visit s wantChildren)
      else if (wantChildren : bool) then Some (Descend s)
      else siblings_loop rest t
  end.

(** The elements after [n]; [None] is the failed assertion that it is found. *)
Fixpoint after_sibling n (l : list Name) : option (list Name) :=
  match l with
  | [] => None
  | x :: l => if decide (x = n) then Some l else after_sibling n l
  end.

(** The outer loop, from [m_entry] and [wantChildren]. *)
Fixpoint preorder_loop (fuel : nat) (ref entry : Name) (wantChildren : bool) t : option Iterator :=
  match fuel with
  | O => None
  | Datatypes.S fuel' =>
      e ← deref entry t;
      if negb (bool_decide (entry = ref)) || (wantChildren && hasChildren e) then
        if wantChildren && hasChildren e then
          first ← head (m_children e);
          fe ← deref first t;
          let '(wantSelf, wantChildren) := pred fe in
          if (wantSelf : bool) then Some (mkIterator (Some first) (Some ref) wantChildren)
          else preorder_loop fuel' ref first wantChildren t
        else
          parent ← m_parent e;
          pe ← deref parent t;
          siblings ← after_sibling entry (m_children pe);
          res ← siblings_loop siblings t;
          match res with
          | Visit s wantChildren => Some (mkIterator (Some s) (Some ref) wantChildren)
          | Descend s => preorder_loop fuel' ref s true t
          | NoMore => preorder_loop fuel' ref parent false t
          end
      else Some it_end
  end.

(** Every turn of the loop follows an edge of the tree, each at most once in
    either direction. *)
Definition walk_fuel t : nat := Z.to_nat (2 * nt_size t + 1).

Definition advance (i : Iterator) t : option Iterator :=
  match it_entry i with
  | None =>
      match it_ref i with
      | None => Some it_end
      | Some ref =>
          e ← deref ref t;
          let '(wantSelf, wantChildren) := pred e in
          if (wantSelf : bool) then Some (mkIterator (Some ref) (Some ref) wantChildren)
          else preorder_loop (walk_fuel t) ref ref wantChildren t
      end
  | Some entry =>
      ref ← it_ref i;
      preorder_loop (walk_fuel t) ref entry (it_state i) t
  end.

(** The entries that a loop from [i] to the end visits. *)
Fixpoint visit_loop (fuel : nat) (i : Iterator) t : option (list Name) :=
  match it_entry i with
  | None => Some []
  | Some n =>
      match fuel with
      | O => None
      | Datatypes.S fuel' => i ← advance i t; l ← visit_loop fuel' i t; Some (n :: l)
      end
  end.

Definition partialEnumerate (prefix : Name) t : option (list Name) :=
  let ref := m_name <$> findExactMatch prefix (length prefix) t in
  i ← advance (mkIterator None ref false) t;
  visit_loop (Z.to_nat (nt_size t)) i t.

(** A loop over the range whose body, [f], writes to the entry visited. *)
Fixpoint visit_each (f : Name -> T -> T) (fuel : nat) (i : Iterator) t : option T :=
  match it_entry i with
  | None => Some t
  | Some n =>
      match fuel with
      | O => None
      | Datatypes.S fuel' => let t := f n t in i ← advance i t; visit_each f fuel' i t
      end
  end.

Definition partialForEach (f : Name -> T -> T) (prefix : Name) t : option T :=
  let ref := m_name <$> findExactMatch prefix (length prefix) t in
  i ← advance (mkIterator None ref false) t;
  visit_each f (Z.to_nat (nt_size t)) i t.

(** ** The recursive traversal *)

(** The wanted entries below [n] in pre-order, [d] levels deep. *)
Fixpoint subtree (q : Entry -> bool * bool) (d : nat) n m : list Name :=
  match m !! n with
  | None => []
  | Some e =>
      (if (q e).1 then [n] else []) ++
      (if (q e).2 then match d with O => [] | Datatypes.S d' => m_children e ≫= (fun c => subtree q d' c m) end
       else [])
  end.

Definition preorder (q : Entry -> bool * bool) n m : list Name := subtree q (getMaxDepth - length n) n m.

(** What [n] hangs off [ref] by: every entry from [ref] on wants its children. *)
Definition wanted (q : Entry -> bool * bool) (ref n : Name) m : Prop :=
  ref `prefix_of` n /\ (exists e, m !! n = Some e /\ (q e).1 = true) /\
  forall k e, ref `prefix_of` k -> k `prefix_of` n -> k <> n -> m !! k = Some e -> (q e).2 = true.

Definition everything : Entry -> bool * bool := fun _ => (true, true).
Definition count_below n m : nat := length (preorder everything n m).
Definition count_all (l : list Name) m : nat := length (l ≫= fun c => preorder everything c m).

Lemma list_bind_ext_in {A B} (f g : A -> list B) (l : list A) : (forall x, x ∈ l -> f x = g x) -> l ≫= f = l ≫= g.
Proof.
  induction l as [|a l IH]; intros Hfg; [done|]. cbn. rewrite Hfg by left. f_equal. apply IH. intros. apply Hfg. by right.
Qed.

Lemma child_length m n e c : nt_wf m -> m !! n = Some e -> c ∈ m_children e ->
  parent_of c = Some n /\ length c = Datatypes.S (length n) /\ is_Some (m !! c) /\ (length c <= getMaxDepth)%nat.
Proof.
  intros Hwf He Hc. destruct (Hwf n e He) as (_ & _ & _ & _ & _ & H6). apply H6 in Hc as [Hp [ce Hce]].
  destruct (Hwf c ce Hce) as (_ & Hl & _). split_and!; [done|by apply parent_of_length|by exists ce|done].
Qed.

Lemma preorder_unfold q m n e : nt_wf m -> m !! n = Some e ->
  preorder q n m = (if (q e).1 then [n] else []) ++ (if (q e).2 then m_children e ≫= (fun c => preorder q c m) else []).
Proof.
  intros Hwf He. unfold preorder at 1. destruct (getMaxDepth - length n)%nat as [|d] eqn:Ed; simpl; rewrite He; simpl.
  - f_equal. destruct (m_children e) as [|c l] eqn:Ec; [done|].
    destruct (child_length m n e c Hwf He) as (_ & ? & _ & ?); [rewrite Ec; left|lia].
  - f_equal. destruct (q e).2; [|done]. apply list_bind_ext_in. intros c Hc.
    destruct (child_length m n e c Hwf He Hc) as (_ & ? & _ & ?). unfold preorder. f_equal. lia.
Qed.

Lemma count_below_unfold m n e : nt_wf m -> m !! n = Some e -> count_below n m = Datatypes.S (count_all (m_children e) m).
Proof. intros Hwf He. unfold count_below, count_all. by rewrite (preorder_unfold _ m n e). Qed.

Lemma count_all_cons c l m : count_all (c :: l) m = (count_below c m + count_all l m)%nat.
Proof. unfold count_all, count_below. simpl. by rewrite length_app. Qed.

Lemma count_all_app l l' m : count_all (l ++ l') m = (count_all l m + count_all l' m)%nat.
Proof. unfold count_all. by rewrite bind_app, length_app. Qed.

Lemma depth_ind m (Q : Name -> Prop) : nt_wf m ->
  (forall n e, m !! n = Some e -> (forall c, c ∈ m_children e -> Q c) -> Q n) -> forall n, is_Some (m !! n) -> Q n.
Proof.
  intros Hwf Hstep n. remember (getMaxDepth - length n)%nat as d eqn:Ed. revert n Ed.
  induction d as [d IH] using lt_wf_ind. intros n -> [e He]. apply (Hstep n e He). intros c Hc.
  destruct (child_length m n e c Hwf He Hc) as (_ & ? & ? & ?). eapply IH; [|done|done]. lia.
Qed.

Lemma prefix_between (n c k x : Name) : parent_of c = Some n -> c `prefix_of` x -> n `prefix_of` k -> k `prefix_of` x -> k <> n ->
  c `prefix_of` k.
Proof.
  intros Hp%parent_of_length Hcx [l ->] Hkx Hne.
  destruct l as [|a l]; [by rewrite app_nil_r in Hne|].
  destruct (prefix_weak_total c (n ++ a :: l) x Hcx Hkx) as [|Hk]; [done|].
  apply prefix_length in Hk as Hl. rewrite length_app in Hl. simpl in Hl.
  destruct Hk as [l' Hk]. assert (l' = []) as ->; [|rewrite app_nil_r in Hk; by rewrite Hk].
  apply (f_equal length) in Hk. rewrite !length_app in Hk. simpl in Hk. destruct l'; [done|simpl in Hk; lia].
Qed.

Lemma step_down m n x : nt_wf m -> is_Some (m !! x) -> n `prefix_of` x -> x <> n ->
  exists c, parent_of c = Some n /\ c `prefix_of` x /\ is_Some (m !! c).
Proof.
  intros Hwf Hx [l ->] Hne. destruct l as [|a l]; [by rewrite app_nil_r in Hne|].
  exists (n ++ [a]). assert ((n ++ [a]) `prefix_of` (n ++ a :: l)) as Hpre by (exists l; by rewrite <-app_assoc).
  split_and!; [|done|by eapply wf_prefix].
  pose proof (parent_of_take (n ++ [a]) (length n)) as Hpt. rewrite take_app_length in Hpt.
  rewrite take_ge in Hpt by (rewrite length_app; simpl; lia). apply Hpt. rewrite length_app. simpl. lia.
Qed.

Lemma elem_of_preorder q m : nt_wf m -> forall n, is_Some (m !! n) -> forall x, x ∈ preorder q n m <-> wanted q n x m.
Proof.
  clear pred. intros Hwf. refine (depth_ind m _ Hwf _). intros n e He IH x.
  rewrite (preorder_unfold q m n e Hwf He), elem_of_app.
  assert (x ∈ (if (q e).1 then [n] else []) <-> x = n /\ (q e).1 = true) as ->.
  { destruct (q e).1; rewrite ?list_elem_of_singleton; [naive_solver|]. split; [by intros ?%not_elem_of_nil|by intros [??]]. }
  assert (x ∈ (if (q e).2 then m_children e ≫= (fun c => preorder q c m) else []) <->
    (q e).2 = true /\ exists c, c ∈ m_children e /\ wanted q c x m) as ->.
  { destruct (q e).2; [|split; [by intros ?%not_elem_of_nil|by intros [??]]].
    rewrite list_elem_of_bind. split; [intros (c & Hx & Hc)|intros (_ & c & Hc & Hx)].
    - split; [done|]. exists c. split; [done|]. by apply IH.
    - exists c. split; [by apply IH|done]. }
  split.
  - intros [[-> Hq]|(Hq & c & Hc & Hpre & Hx & Hall)].
    + split_and!; [done|by exists e|]. intros k ek Hk1 Hk2 Hne. destruct Hne. by apply (anti_symm prefix).
    + destruct (child_length m n e c Hwf He Hc) as (Hp & _ & _).
      split_and!; [by etrans; [eapply parent_of_prefix|]|done|].
      intros k ek Hk1 Hk2 Hne Hek. destruct (decide (k = n)) as [->|Hkn]; [congruence|].
      eapply Hall; [|done|done|done]. by eapply prefix_between.
  - intros (Hpre & (ex & Hex & Hq) & Hall). destruct (decide (x = n)) as [->|Hne]; [left; naive_solver|right].
    split; [by apply (Hall n e)|].
    destruct (step_down m n x Hwf (mk_is_Some _ _ Hex) Hpre Hne) as (c & Hp & Hcx & Hc).
    exists c. destruct (Hwf n e He) as (_ & _ & _ & _ & _ & H6). split; [by apply H6|].
    split_and!; [done|by exists ex|]. intros k ek Hk1. apply Hall. by etrans; [eapply parent_of_prefix|].
Qed.

Lemma preorder_NoDup q m : nt_wf m -> forall n, is_Some (m !! n) -> NoDup (preorder q n m).
Proof.
  intros Hwf. refine (depth_ind m _ Hwf _). intros n e He IH. rewrite (preorder_unfold q m n e Hwf He).
  assert (forall c x, c ∈ m_children e -> x ∈ preorder q c m -> length c = Datatypes.S (length n) /\ c `prefix_of` x) as Hc.
  { intros c x Hc Hx. destruct (child_length m n e c Hwf He Hc) as (_ & ? & ? & _). split; [done|].
    by apply (elem_of_preorder q m Hwf) in Hx as [??]. }
  apply NoDup_app. split_and!; [destruct (q e).1; [apply NoDup_singleton|apply NoDup_nil_2]| |].
  - intros x Hx Hx2. destruct (q e).1; [|by apply not_elem_of_nil in Hx]. apply list_elem_of_singleton in Hx as ->.
    destruct (q e).2; [|by apply not_elem_of_nil in Hx2].
    apply list_elem_of_bind in Hx2 as (b & Hx2 & Hb).
    destruct (Hc b n Hb Hx2) as [Hl Hp%prefix_length]. lia.
  - destruct (q e).2; [|apply NoDup_nil_2]. apply NoDup_bind; [|done|by destruct (Hwf n e He) as (_ & _ & _ & _ & ? & _)].
    intros a b x Ha Hb Hxa Hxb. destruct (Hc a x Ha Hxa) as [Hla Hpa], (Hc b x Hb Hxb) as [Hlb Hpb].
    destruct Hpa as [la ->], Hpb as [lb Hb2]. apply app_inj_1 in Hb2 as [-> _]; [done|congruence].
Qed.

Lemma preorder_length q m : nt_wf m -> forall n, is_Some (m !! n) -> (length (preorder q n m) <= size m)%nat.
Proof.
  intros Hwf n Hn. rewrite <-(size_dom m), <-(size_list_to_set (C:=gset Name)) by (by apply preorder_NoDup).
  apply subseteq_size. intros x Hx%elem_of_list_to_set. apply elem_of_dom.
  apply (elem_of_preorder q m Hwf n Hn) in Hx as (_ & (e & He & _) & _). by exists e.
Qed.

(** ** The iterator follows the traversal *)

Lemma after_sibling_Some n l r : after_sibling n l = Some r <-> exists a, l = a ++ n :: r /\ n ∉ a.
Proof.
  induction l as [|x l IH]; simpl.
  - split; [done|]. by intros ([|??] & ? & _).
  - case_decide as Hx; [subst x|rewrite IH]; split.
    + intros [= ->]. exists []. split; [done|]. apply not_elem_of_nil.
    + intros ([|y a] & [= Hy] & Hn); [congruence|]. subst y. destruct Hn. left.
    + intros (a & -> & Ha). exists (x :: a). split; [done|]. rewrite not_elem_of_cons. done.
    + intros ([|y a] & [= <- Hl] & Hn); [done|]. apply not_elem_of_cons in Hn as [??]. by exists a.
Qed.

Lemma after_sibling_later n l pre s post : NoDup l -> after_sibling n l = Some (pre ++ s :: post) -> after_sibling s l = Some post.
Proof.
  rewrite !after_sibling_Some. intros Hnd (a & -> & _). exists (a ++ n :: pre). split; [by rewrite <-app_assoc|].
  replace (a ++ n :: pre ++ s :: post) with ((a ++ n :: pre) ++ s :: post) in Hnd by (by rewrite <-app_assoc).
  apply NoDup_app in Hnd as (_ & Hd & _). intros Hs. apply (Hd s Hs). left.
Qed.

Section Walk.
Context (t : T) (Hok : nt_ok t) (Hwf : nt_wf (nt_entries t)).
Variable ref : Name.
Let m := nt_entries t.
Notation below e := (m_children e ≫= fun c => preorder pred c m).

(** What is left of the walk when [n] and all below it are done: the later
    siblings of [n] and of its ancestors below [ref], and how many turns of the
    loop that takes at most. *)
Inductive remaining : Name -> list Name -> nat -> Prop :=
  | remaining_ref : remaining ref [] 0
  | remaining_up n p pe sibs l w : n <> ref -> parent_of n = Some p -> m !! p = Some pe ->
      after_sibling n (m_children pe) = Some sibs -> remaining p l w ->
      remaining n ((sibs ≫= fun c => preorder pred c m) ++ l) (2 * count_all sibs m + 1 + w).

Lemma deref_m n : deref n t = m !! n.
Proof. by apply deref_spec. Qed.

Lemma remaining_prefix n l w : remaining n l w -> ref `prefix_of` n.
Proof. induction 1; [done|]. etrans; [done|]. by apply parent_of_prefix. Qed.

Lemma remaining_bound n l w : remaining n l w -> (2 * count_below n m + w <= 2 * count_below ref m)%nat.
Proof.
  induction 1 as [|n p pe sibs l w _ Hp Hpe Hs _ IH]; [lia|].
  rewrite (count_below_unfold m p pe Hwf Hpe) in IH. apply after_sibling_Some in Hs as (a & Hs & _).
  rewrite Hs, count_all_app, count_all_cons in IH. lia.
Qed.

(** The iterator is at the first element of the list, and the rest is what is
    left from there; the end when there is none. *)
Definition at_list (i : Iterator) (l : list Name) : Prop :=
  match l with
  | [] => i = it_end
  | x :: l' => exists e r w, i = mkIterator (Some x) (Some ref) (pred e).2 /\ m !! x = Some e /\ remaining x r w /\
      l' = (if (pred e).2 then below e else []) ++ r
  end.

Lemma at_list_visit n e l w : m !! n = Some e -> remaining n l w -> (pred e).1 = true ->
  at_list (mkIterator (Some n) (Some ref) (pred e).2) (preorder pred n m ++ l).
Proof.
  intros He Hr Hs. rewrite (preorder_unfold pred m n e Hwf He), Hs. exists e, l, w. by split_and!.
Qed.

Lemma siblings_loop_ok sibs : (forall s, s ∈ sibs -> is_Some (m !! s)) ->
  exists r, siblings_loop sibs t = Some r /\
    match r with
    | NoMore => (sibs ≫= fun c => preorder pred c m) = []
    | Visit s wc => exists pre post e, sibs = pre ++ s :: post /\ (pre ≫= fun c => preorder pred c m) = [] /\
        m !! s = Some e /\ pred e = (true, wc)
    | Descend s => exists pre post e, sibs = pre ++ s :: post /\ (pre ≫= fun c => preorder pred c m) = [] /\
        m !! s = Some e /\ pred e = (false, true)
    end.
Proof.
  induction sibs as [|s sibs IH]; intros Hin; [by exists NoMore|]. cbn [siblings_loop].
  destruct (Hin s) as [e He]; [left|]. rewrite (deref_m s), He. cbn [mbind option_bind].
  destruct (pred e) as [[] wc] eqn:Ep; [by exists (Visit s wc); split; [done|]; exists [], sibs, e|].
  destruct wc; [by exists (Descend s); split; [done|]; exists [], sibs, e|].
  assert (preorder pred s m = []) as Hz by (by rewrite (preorder_unfold pred m s e Hwf He), Ep).
  destruct IH as (r & -> & Hr); [intros; apply Hin; by right|]. exists r. split; [done|].
  destruct r as [s' wc|s'|]; [..|by rewrite bind_cons, Hz].
  1,2: destruct Hr as (pre & post & e' & -> & Hpre & ?); exists (s :: pre), post, e'; by rewrite bind_cons, Hz, Hpre.
Qed.

Lemma preorder_loop_ok fuel n (wc : bool) e l w : m !! n = Some e -> remaining n l w ->
  ((if wc then 2 * count_all (m_children e) m else 0) + w < fuel)%nat ->
  exists i, preorder_loop fuel ref n wc t = Some i /\ at_list i ((if wc then below e else []) ++ l).
Proof.
  revert n wc e l w. induction fuel as [|fuel IH]; intros n wc e l w He Hr Hf; [lia|]. simpl.
  rewrite (deref_m n), He. simpl. destruct (wc && hasChildren e) eqn:Ec.
  - apply andb_true_iff in Ec as [-> Hc]. rewrite orb_true_r. unfold hasChildren in Hc.
    apply negb_true_iff, bool_decide_eq_false in Hc. destruct (m_children e) as [|f cs] eqn:Ech; [done|].
    destruct (child_length m n e f Hwf He) as (Hp & Hl & [fe Hfe] & _); [rewrite Ech; left|].
    cbn [head mbind option_bind]. rewrite (deref_m f), Hfe. cbn [mbind option_bind].
    assert (remaining f ((cs ≫= fun c => preorder pred c m) ++ l) (2 * count_all cs m + 1 + w)) as Hrf.
    { apply (remaining_up f n e); try done; [|by rewrite Ech; simpl; rewrite decide_True].
      intros ->. apply remaining_prefix, prefix_length in Hr. lia. }
    rewrite bind_cons, <-app_assoc. rewrite count_all_cons, (count_below_unfold m f fe Hwf Hfe) in Hf.
    pose proof (at_list_visit f fe _ _ Hfe Hrf) as Hv. rewrite (preorder_unfold pred m f fe Hwf Hfe) in *.
    destruct (pred fe) as [[] wc]; [eexists; split; [done|]; by apply Hv|].
    apply (IH f wc fe _ _ Hfe Hrf). destruct wc; lia.
  - assert ((if wc then below e else []) = []) as ->.
    { destruct wc; [|done]. unfold hasChildren in Ec. apply negb_false_iff, bool_decide_eq_true in Ec. by rewrite Ec. }
    rewrite orb_false_r. destruct Hr as [|n p pe sibs l w Hne Hp Hpe Hs Hr].
    { rewrite bool_decide_true by done. by exists it_end. }
    rewrite bool_decide_false by done. simpl. destruct (Hwf n e He) as (_ & _ & -> & _). rewrite Hp. simpl.
    rewrite (deref_m p), Hpe. simpl. rewrite Hs. simpl.
    destruct (siblings_loop_ok sibs) as (r & -> & Hres).
    { intros s Hin. apply after_sibling_Some in Hs as (a & Hs & _).
      destruct (child_length m p pe s Hwf Hpe) as (_ & _ & ? & _); [|done]. rewrite Hs. apply elem_of_app. right. by right. }
    destruct (Hwf p pe Hpe) as (_ & _ & _ & _ & Hnd & Hch).
    assert (forall pre s post es, sibs = pre ++ s :: post -> (pre ≫= fun c => preorder pred c m) = [] -> m !! s = Some es ->
      remaining s ((post ≫= fun c => preorder pred c m) ++ l) (2 * count_all post m + 1 + w) /\
      (sibs ≫= fun c => preorder pred c m) ++ l = preorder pred s m ++ (post ≫= fun c => preorder pred c m) ++ l /\
      (2 * count_all (m_children es) m + 2 + 2 * count_all post m <= 2 * count_all sibs m)%nat) as Hsib.
    { intros pre s post es -> Hpre Hes. pose proof Hs as Hs'. apply after_sibling_later in Hs as Hs2; [|done].
      apply after_sibling_Some in Hs' as (a & Hs' & _).
      destruct (child_length m p pe s Hwf Hpe) as (Hps & Hls & _).
      { rewrite Hs', !elem_of_app, elem_of_cons, elem_of_app. right. right. right. left. }
      split_and!.
      - apply (remaining_up s p pe); try done. intros ->. apply remaining_prefix, prefix_length in Hr. lia.
      - rewrite bind_app, Hpre. simpl. by rewrite <-app_assoc.
      - rewrite count_all_app, count_all_cons, (count_below_unfold m s es Hwf Hes). lia. }
    simpl. destruct r as [s wc'|s|].
    + destruct Hres as (pre & post & es & Hsp & Hpre & Hes & Ep). destruct (Hsib _ _ _ _ Hsp Hpre Hes) as (Hr' & -> & _).
      eexists. split; [done|]. pose proof (at_list_visit s es _ _ Hes Hr') as Hv. rewrite Ep in Hv. by apply Hv.
    + destruct Hres as (pre & post & es & Hsp & Hpre & Hes & Ep). destruct (Hsib _ _ _ _ Hsp Hpre Hes) as (Hr' & -> & Hb).
      rewrite (preorder_unfold pred m s es Hwf Hes), Ep. apply (IH s true es _ _ Hes Hr'). lia.
    + rewrite Hres. apply (IH p false pe l w Hpe Hr). lia.
Qed.

Lemma walk_fuel_enough n l w e : m !! n = Some e -> is_Some (m !! ref) -> remaining n l w ->
  (2 * count_all (m_children e) m + w < walk_fuel t)%nat.
Proof.
  intros He Href Hr. apply remaining_bound in Hr. rewrite (count_below_unfold m n e Hwf He) in Hr.
  pose proof (preorder_length everything m Hwf ref Href) as Hl. unfold count_below in *.
  unfold walk_fuel. rewrite (nt_size_spec t Hok). fold m. lia.
Qed.

Lemma advance_ok x l i : is_Some (m !! ref) -> at_list i (x :: l) -> exists i', advance i t = Some i' /\ at_list i' l.
Proof.
  intros Href (e & r & w & -> & He & Hr & ->). unfold advance. simpl.
  destruct (preorder_loop_ok (walk_fuel t) x (pred e).2 e r w He Hr) as (i' & -> & Hi'); [|by exists i'].
  pose proof (walk_fuel_enough x r w e He Href Hr). destruct (pred e).2; lia.
Qed.

Lemma enum_visit_ok l : is_Some (m !! ref) -> forall fuel i, at_list i l -> (length l <= fuel)%nat -> visit_loop fuel i t = Some l.
Proof.
  intros Href. induction l as [|x l IH]; intros fuel i Hi Hf.
  - simpl in Hi. subst i. by destruct fuel.
  - destruct fuel as [|fuel]; simpl in Hf; [lia|]. destruct (advance_ok x l i Href Hi) as (i' & Ha & Hi').
    destruct Hi as (e & r & w & -> & _). cbn [visit_loop it_entry]. rewrite Ha. cbn [mbind option_bind].
    rewrite (IH fuel i' Hi') by lia. done.
Qed.

Lemma advance_first e : m !! ref = Some e ->
  exists i, advance (mkIterator None (Some ref) false) t = Some i /\ at_list i (preorder pred ref m).
Proof.
  intros He. unfold advance. simpl. rewrite deref_m, He. simpl.
  pose proof (at_list_visit ref e _ _ He remaining_ref) as Hv. rewrite app_nil_r in Hv.
  rewrite (preorder_unfold pred m ref e Hwf He) in *.
  destruct (pred e) as [[] wc]; [eexists; split; [done|]; by apply Hv|].
  destruct (preorder_loop_ok (walk_fuel t) ref wc e [] 0 He remaining_ref) as (i & -> & Hi).
  - pose proof (walk_fuel_enough ref [] 0 e He (mk_is_Some _ _ He) remaining_ref). destruct wc; lia.
  - rewrite app_nil_r in Hi. by exists i.
Qed.

End Walk.

Lemma partialEnumerate_ok t prefix : nt_ok t -> nt_wf (nt_entries t) ->
  partialEnumerate prefix t = Some (if nt_entries t !! prefix then preorder pred prefix (nt_entries t) else []).
Proof.
  intros Hok Hwf. unfold partialEnumerate. rewrite (findExactMatch_ok t prefix _ Hok Hwf), take_ge by lia.
  destruct (nt_entries t !! prefix) as [e|] eqn:He; [|by destruct (Z.to_nat (nt_size t))]. simpl.
  destruct (Hwf prefix e He) as (-> & _).
  destruct (advance_first t Hok Hwf prefix e He) as (i & -> & Hi). simpl.
  apply (enum_visit_ok t Hok Hwf prefix); [by exists e|done|].
  rewrite (nt_size_spec t Hok), Nat2Z.id. apply preorder_length; [done|by exists e].
Qed.

(** Writes that neither the links nor the selector see do not disturb the walk. *)
Definition same_shape t t' : Prop :=
  nt_ok t /\ nt_ok t' /\ nt_size t' = nt_size t /\
  forall n, option_relation (fun e e' => pred e' = pred e /\ m_children e' = m_children e /\ m_parent e' = m_parent e)
    (const False) (const False) (nt_entries t !! n) (nt_entries t' !! n).

Lemma shape_deref t t' n : same_shape t t' ->
  match deref n t, deref n t' with
  | Some e, Some e' => pred e' = pred e /\ m_children e' = m_children e /\ m_parent e' = m_parent e
  | None, None => True
  | _, _ => False
  end.
Proof.
  intros (Hok & Hok' & _ & Hs). rewrite !deref_spec by done. specialize (Hs n).
  by destruct (nt_entries t !! n), (nt_entries t' !! n).
Qed.

Ltac by_shape t t' n Hs :=
  generalize (shape_deref t t' n Hs); destruct (deref n t), (deref n t');
  [intros (?Hp & ?Hc & ?Hm); cbn [mbind option_bind]|intros []|intros []|done].

Lemma siblings_loop_shape t t' l : same_shape t t' -> siblings_loop l t' = siblings_loop l t.
Proof.
  intros Hs. induction l as [|s l IH]; [done|]. cbn [siblings_loop]. by_shape t t' s Hs. by rewrite Hp, IH.
Qed.

Lemma preorder_loop_shape t t' ref : same_shape t t' -> forall fuel n wc, preorder_loop fuel ref n wc t' = preorder_loop fuel ref n wc t.
Proof.
  intros Hs. induction fuel as [|fuel IH]; intros n wc; [done|]. cbn [preorder_loop]. by_shape t t' n Hs.
  unfold hasChildren. rewrite Hc, Hm. case_match; [|done]. case_match.
  - destruct (head _) as [f|]; [|done]. cbn [mbind option_bind]. by_shape t t' f Hs. rewrite Hp0.
    match goal with |- context [pred ?e] => destruct (pred e) as [[] ?] end; [done|apply IH].
  - match goal with |- context [m_parent ?e] => destruct (m_parent e) as [p|] end; [|done]. cbn [mbind option_bind]. by_shape t t' p Hs. rewrite Hc0.
    match goal with |- context [after_sibling n ?l] => destruct (after_sibling n l) end; [|done]. cbn [mbind option_bind]. rewrite (siblings_loop_shape t t' _ Hs).
    match goal with |- context [siblings_loop ?l t] => destruct (siblings_loop l t) as [[]|] end; cbn [mbind option_bind]; [done|apply IH|apply IH|done].
Qed.

Lemma advance_shape t t' i : same_shape t t' -> advance i t' = advance i t.
Proof.
  intros Hs. pose proof Hs as (_ & _ & Hsz & _). unfold advance, walk_fuel. rewrite Hsz. destruct (it_entry i).
  - destruct (it_ref i); [|done]. cbn [mbind option_bind]. by apply preorder_loop_shape.
  - destruct (it_ref i) as [ref|]; [|done]. by_shape t t' ref Hs. rewrite Hp.
    match goal with |- context [pred ?e] => destruct (pred e) as [[] ?] end; [done|]. by apply preorder_loop_shape.
Qed.

Lemma visit_loop_shape t t' : same_shape t t' -> forall fuel i, visit_loop fuel i t' = visit_loop fuel i t.
Proof.
  intros Hs. induction fuel as [|fuel IH]; intros i; simpl; [done|]. rewrite (advance_shape t t' i Hs).
  destruct (it_entry i); [|done]. destruct (advance i t); [|done]. simpl. by rewrite IH.
Qed.

Lemma visit_each_ok f : (forall n t, nt_ok t -> same_shape t (f n t)) -> forall fuel i t l, nt_ok t ->
  visit_loop fuel i t = Some l -> visit_each f fuel i t = Some (foldl (fun t n => f n t) t l).
Proof.
  intros Hf. induction fuel as [|fuel IH]; intros i t l Hok; simpl.
  - destruct (it_entry i); [done|]. by intros [= <-].
  - destruct (it_entry i) as [n|]; [|by intros [= <-]]. pose proof (Hf n t Hok) as Hs. rewrite (advance_shape _ _ i Hs).
    destruct (advance i t) as [i'|]; [|done]. simpl. destruct (visit_loop fuel i' t) as [l'|] eqn:El; [|done].
    intros [= <-]. simpl. apply IH; [apply Hs|]. by rewrite (visit_loop_shape _ _ Hs).
Qed.

Lemma partialForEach_ok f prefix t : (forall n t, nt_ok t -> same_shape t (f n t)) -> nt_ok t -> nt_wf (nt_entries t) ->
  partialForEach f prefix t =
    Some (foldl (fun t n => f n t) t (if nt_entries t !! prefix then preorder pred prefix (nt_entries t) else [])).
Proof.
  intros Hf Hok Hwf. pose proof (partialEnumerate_ok t prefix Hok Hwf) as He. unfold partialEnumerate, partialForEach in *.
  destruct (advance _ t) as [i|]; [|done]. simpl in *. by apply visit_each_ok.
Qed.

(** C35: the iterator of a partial enumeration, which follows the pointers of the
    tree and keeps no stack, never dereferences a null pointer or misses a child
    in its parent, and visits the entries of the recursive pre-order traversal
    from the prefix: each entry once, exactly those whose selector accepts them
    and all of whose ancestors from the prefix on ask for their children. When the
    tree has no entry of the prefix nothing is visited. *)
Theorem partialEnumerate_correct t prefix : nt_ok t -> nt_wf (nt_entries t) ->
  exists l, partialEnumerate prefix t = Some l /\ NoDup l /\
    l = (if nt_entries t !! prefix then preorder pred prefix (nt_entries t) else []) /\
    forall n, n ∈ l <-> is_Some (nt_entries t !! prefix) /\ wanted pred prefix n (nt_entries t).
Proof.
  intros Hok Hwf. rewrite (partialEnumerate_ok t prefix Hok Hwf). eexists. split; [done|].
  destruct (nt_entries t !! prefix) as [e|] eqn:He.
  - assert (is_Some (nt_entries t !! prefix)) as Hs by (by exists e).
    split_and!; [by apply preorder_NoDup|done|]. intros n. rewrite (elem_of_preorder pred _ Hwf prefix Hs). naive_solver.
  - split_and!; [apply NoDup_nil_2|done|]. intros n. split; [by intros ?%not_elem_of_nil|by intros [[??] _]].
Qed.

End PartialEnumeration.

(** ** A concrete enumeration: [/1/2/3] and [/1/4], where [/1/2] hides what is below it *)
Module EnumExamples.
Import NameTreeExamples.

Definition tree2 : Tree := match lookup [1; 4] 2 tree1 with Some (t, _) => t | None => tree1 end.
Definition hide (e : Entry Z Z Z Z Z) : bool * bool := (true, negb (bool_decide (m_name e = [1; 2]))).

Lemma tree2_ok : tree_ok tree2 /\ nt_wf (tree_map tree2) /\ is_Some (tree_map tree2 !! [1]).
Proof.
  destruct tree1_ok as (Hok & Hwf & _).
  destruct (lookup_ok tree1 [1; 4] 2 Hok Hwf) as (t' & Hl & Hok' & Hwf' & Hd & _); [simpl; lia|unfold getMaxDepth; lia|].
  unfold tree2. rewrite Hl. split_and!; [done|done|].
  apply (wf_prefix _ [1; 4]); [done|apply Hd; by right|by exists [4]].
Qed.

Example hidden_visited : partialEnumerate hide [1] tree2 = Some [[1]; [1; 2]; [1; 4]].
Proof. by vm_compute. Qed.

Example partialEnumerate_correct_witness : exists l, partialEnumerate hide [1] tree2 = Some l /\ NoDup l /\ l = [[1]; [1; 2]; [1; 4]].
Proof.
  destruct tree2_ok as (Hok & Hwf & _).
  destruct (partialEnumerate_correct hide tree2 [1] Hok Hwf) as (l & Hl & Hnd & _ & _).
  exists l. split_and!; [exact Hl|exact Hnd|]. rewrite hidden_visited in Hl. by injection Hl as <-.
Defined.

End EnumExamples.
