(* ===== verification/Measurements.v ===== *)
(** * Measurements

    Models [daemon/table/measurements-entry.*] and [measurements.hpp/.cpp]: the
    entries on which strategies keep what they measure per name prefix, with
    their lifetimes and the timers that remove them, on the name tree that the
    FIB, the PIT and the strategy choice table share. The type of the items that
    strategies place on an entry is a parameter. *)

From S2P Require Import Prelude Ndn Hashtable NameTree Fib Pit.
Local Open Scope Z_scope.

(** [m_cleanup] is the time at which the scheduled [cleanup] runs. *)
Record MeasurementsEntry {C I : Type} := mkMeasurementsEntry {
  me_name : list C;
  me_expiry : Z;
  me_cleanup : option Z;
  me_info : gmap Z I
}.
Arguments MeasurementsEntry : clear implicits.
Arguments mkMeasurementsEntry {_ _}.

Section Measurements.
Context {C I S : Type} `{Packets C}.
Notation Name := (list C).
Notation MeasurementsEntry := (MeasurementsEntry C I).
Notation Entry := (Entry C (FibEntry C) (PitEntry C) MeasurementsEntry S).
Context {T : Type} `{!NodeTable C Entry newEntry T}.
Implicit Types (n name : Name) (t : T) (m : gmap Name Entry) (me : MeasurementsEntry) (now : Z).

Record Measurements := mkMeasurements { ms_tree : T; ms_nItems : Z }.
Implicit Types st : Measurements.

Definition newMeasurementsEntry name : MeasurementsEntry := mkMeasurementsEntry name TimePoint_min None ∅.

(** 4 seconds. *)
Definition getInitialLifetime : Z := 4000 * ms.

Definition set_lifetime (expiry : Z) me : MeasurementsEntry := mkMeasurementsEntry (me_name me) expiry (Some expiry) (me_info me).
Definition set_me_info (h : gmap Z I) me : MeasurementsEntry := mkMeasurementsEntry (me_name me) (me_expiry me) (me_cleanup me) h.

(** [get(name_tree::Entry&)]. *)
Definition get_nte now (nte : Name) st : option (Measurements * Name) :=
  e ← deref nte (ms_tree st);
  match m_measurementsEntry e with
  | Some _ => Some (st, nte)
  | None =>
      let entry := set_lifetime (now + getInitialLifetime) (newMeasurementsEntry (m_name e)) in
      Some (mkMeasurements (nt_update nte (setMeasurementsEntry (Some entry)) (ms_tree st)) (u64 (ms_nItems st + 1)), nte)
  end.

Definition ms_get now name st : option (Measurements * Name) :=
  '(t, nte) ← lookup name (Nat.min (length name) getMaxDepth) (ms_tree st);
  get_nte now nte (mkMeasurements t (ms_nItems st)).

(** [NameTree::lookup(fibEntry)], where [prefix] is the prefix of the entry: an
    attached entry is the one of its prefix, and only the empty entry, of the
    empty prefix, is not attached. *)
Definition lookup_fib (prefix : Name) t : option (T * Name) :=
  match deref prefix t ≫= m_fibEntry with
  | Some _ => Some (t, prefix)
  | None => if bool_decide (prefix = []) then lookup prefix 0 t else None
  end.

(** [NameTree::lookup(pitEntry)] for an entry of that key. *)
Definition lookup_pit (key : Name * Selectors) t : option (T * Name) :=
  let name := key.1 in
  if endsWithDigest name && (length name <=? getMaxDepth)%nat then lookup name (length name) t
  else
    e ← deref (nteName name) t;
    _ ← find_if (has_key pit_key key) (m_pitEntries e);
    Some (t, nteName name).

Definition ms_get_fib now (prefix : Name) st : option (Measurements * Name) :=
  '(t, nte) ← lookup_fib prefix (ms_tree st); get_nte now nte (mkMeasurements t (ms_nItems st)).
Definition ms_get_pit now (key : Name * Selectors) st : option (Measurements * Name) :=
  '(t, nte) ← lookup_pit key (ms_tree st); get_nte now nte (mkMeasurements t (ms_nItems st)).

(** The result is a null pointer for the root entry. *)
Definition ms_getParent now (child : Name) st : option (Measurements * option Name) :=
  if bool_decide (child = []) then Some (st, None)
  else
    nteChild ← deref child (ms_tree st);
    nte ← m_parent nteChild;
    '(st, n) ← get_nte now nte st;
    Some (st, Some n).

Definition ms_findLongestPrefixMatch name (pred : MeasurementsEntry -> bool) st : option (option MeasurementsEntry) :=
  match_ ← findLongestPrefixMatch (getPrefix getMaxDepth name)
    (fun nte => match m_measurementsEntry nte with Some me => pred me | None => false end) (ms_tree st);
  Some (match_ ≫= m_measurementsEntry).

Definition ms_findExactMatch name st : option MeasurementsEntry :=
  findExactMatch name (length name) (ms_tree st) ≫= m_measurementsEntry.

Definition ms_read n st : option MeasurementsEntry := deref n (ms_tree st) ≫= m_measurementsEntry.
Definition ms_write n (g : MeasurementsEntry -> MeasurementsEntry) st : Measurements :=
  mkMeasurements (nt_update n (fun e => setMeasurementsEntry (g <$> m_measurementsEntry e) e) (ms_tree st)) (ms_nItems st).

Definition extendLifetime now n (lifetime : Z) st : option Measurements :=
  entry ← ms_read n st;
  let expiry := now + lifetime in
  if expiry <=? me_expiry entry then Some st
  else Some (ms_write n (set_lifetime expiry) st).

Definition cleanup n st : option Measurements :=
  _ ← deref n (ms_tree st);
  let t := nt_update n (setMeasurementsEntry None) (ms_tree st) in
  '(t, _) ← eraseIfEmpty n true t;
  Some (mkMeasurements t (u64 (ms_nItems st - 1))).

(** ** What an operation does to the table *)

Definition meas_at n m : option MeasurementsEntry := (tables_at n m).1.2.
Definition ms_view m : gmap Name MeasurementsEntry := omap m_measurementsEntry m.
Definition ms_map st : gmap Name MeasurementsEntry := ms_view (nt_entries (ms_tree st)).

(** Each entry is stored under its name and its timer is set for its expiry. *)
Definition entry_timed n me : Prop := me_name me = n /\ me_cleanup me = Some (me_expiry me).

Definition ms_ok st : Prop :=
  nt_ok (ms_tree st) /\ nt_wf (nt_entries (ms_tree st)) /\ map_Forall entry_timed (ms_map st) /\
  ms_nItems st = u64 (Z.of_nat (size (ms_map st))).

(** The other tables of a name tree entry. *)
Definition rest_at n m := (let '(f, p, _, s) := tables_at n m in (f, p, s)).

Lemma ms_view_lookup m n : ms_view m !! n = meas_at n m.
Proof. unfold ms_view, meas_at, tables_at. rewrite lookup_omap. by destruct (m !! n). Qed.

Lemma ms_view_ext m m' : (forall n, meas_at n m' = meas_at n m) -> ms_view m' = ms_view m.
Proof. intros Heq. apply map_eq. intros n. by rewrite !ms_view_lookup. Qed.

Lemma meas_alter m n g k : is_Some (m !! n) ->
  meas_at k (alter (fun e => setMeasurementsEntry (g (m_measurementsEntry e)) e) n m) =
    if decide (k = n) then g (meas_at n m) else meas_at k m.
Proof.
  intros [e He]. unfold meas_at, tables_at. rewrite lookup_alter. repeat case_decide; subst; try done. by rewrite He.
Qed.

Lemma rest_alter m n g k : rest_at k (alter (fun e => setMeasurementsEntry (g (m_measurementsEntry e)) e) n m) = rest_at k m.
Proof. unfold rest_at, tables_at. rewrite lookup_alter. case_decide; [subst|done]. by destruct (m !! _). Qed.

Lemma ms_update_ok st n g : nt_ok (ms_tree st) -> nt_wf (nt_entries (ms_tree st)) -> is_Some (nt_entries (ms_tree st) !! n) ->
  let t := nt_update n (fun e => setMeasurementsEntry (g (m_measurementsEntry e)) e) (ms_tree st) in
  nt_ok t /\ nt_wf (nt_entries t) /\ is_Some (nt_entries t !! n) /\
  (forall k, ms_view (nt_entries t) !! k = if decide (k = n) then g (ms_map st !! n) else ms_map st !! k) /\
  (forall k, rest_at k (nt_entries t) = rest_at k (nt_entries (ms_tree st))).
Proof.
  intros Hok Hwf Hn t.
  destruct (update_ok (ms_tree st) n (fun e => setMeasurementsEntry (g (m_measurementsEntry e)) e) Hok Hwf) as (Hok' & Hwf' & He); [done|].
  unfold t. split_and!; [done|done|rewrite He; by apply lookup_alter_is_Some| |]; intros k; rewrite He.
  - unfold ms_map. rewrite !ms_view_lookup. by apply meas_alter.
  - apply rest_alter.
Qed.

(** [get] on a name tree entry that exists. *)
Lemma get_nte_ok now nte st : ms_ok st -> is_Some (nt_entries (ms_tree st) !! nte) ->
  exists st', get_nte now nte st = Some (st', nte) /\ ms_ok st' /\
    ms_map st' = <[nte := default (set_lifetime (now + getInitialLifetime) (newMeasurementsEntry nte)) (ms_map st !! nte)]> (ms_map st) /\
    forall k, rest_at k (nt_entries (ms_tree st')) = rest_at k (nt_entries (ms_tree st)).
Proof.
  intros (Hok & Hwf & Hall & Hn) [e He]. unfold get_nte. rewrite deref_spec, He by done. cbn [mbind option_bind].
  assert (ms_map st !! nte = m_measurementsEntry e) as Hm by (unfold ms_map, ms_view; by rewrite lookup_omap, He).
  destruct (Hwf nte e He) as (-> & _). destruct (m_measurementsEntry e) as [me|] eqn:Eme.
  - exists st. rewrite Hm. simpl. rewrite insert_id by done. done.
  - set (me := set_lifetime _ _). rewrite Hm. cbn [default].
    destruct (ms_update_ok st nte (fun _ => Some me) Hok Hwf) as (Hok' & Hwf' & _ & Hv & Hr); [by exists e|].
    assert (ms_view (nt_entries (nt_update nte (setMeasurementsEntry (Some me)) (ms_tree st))) = <[nte := me]> (ms_map st)) as Hv'.
    { apply map_eq. intros k. etrans; [exact (Hv k)|]. rewrite lookup_insert. repeat case_decide; congruence. }
    eexists. split; [done|]. unfold ms_ok, ms_map at 1 2 3. cbn [ms_tree ms_nItems]. rewrite Hv'. split_and!; try done.
    + by apply map_Forall_insert_2.
    + rewrite map_size_insert_None, Hn, u64_add_l by done. f_equal. lia.
Qed.

Lemma lookup_keeps st name k : ms_ok st -> (k <= length name)%nat -> (k <= getMaxDepth)%nat ->
  exists t', lookup name k (ms_tree st) = Some (t', take k name) /\ is_Some (nt_entries t' !! take k name) /\
    (forall p, is_Some (nt_entries (ms_tree st) !! p) -> is_Some (nt_entries t' !! p)) /\
    ms_ok (mkMeasurements t' (ms_nItems st)) /\ ms_view (nt_entries t') = ms_map st /\
    forall k, rest_at k (nt_entries t') = rest_at k (nt_entries (ms_tree st)).
Proof.
  intros (Hok & Hwf & Hall & Hn) Hk Hd.
  destruct (lookup_ok (ms_tree st) name k Hok Hwf Hk Hd) as (t' & Hl & Hok' & Hwf' & Hdom & Htab).
  assert (ms_view (nt_entries t') = ms_map st) as Hv by (apply ms_view_ext; intros n; unfold meas_at; by rewrite Htab).
  exists t'. split_and!; [done|apply Hdom; by right|intros p Hp; apply Hdom; by left| |done|].
  - unfold ms_ok, ms_map. simpl. rewrite Hv. done.
  - intros q. unfold rest_at. by rewrite Htab.
Qed.

(** The entry of a name: new with the initial lifetime, or as it was. *)
Definition get_entry now n (a : gmap Name MeasurementsEntry) : MeasurementsEntry :=
  default (set_lifetime (now + getInitialLifetime) (newMeasurementsEntry n)) (a !! n).

Definition got now n st st' : Prop :=
  ms_ok st' /\ ms_map st' = <[n := get_entry now n (ms_map st)]> (ms_map st) /\
  forall k, rest_at k (nt_entries (ms_tree st')) = rest_at k (nt_entries (ms_tree st)).

Lemma get_after_lookup now nte t' st : ms_ok (mkMeasurements t' (ms_nItems st)) -> is_Some (nt_entries t' !! nte) ->
  ms_view (nt_entries t') = ms_map st -> (forall k, rest_at k (nt_entries t') = rest_at k (nt_entries (ms_tree st))) ->
  exists st', get_nte now nte (mkMeasurements t' (ms_nItems st)) = Some (st', nte) /\ got now nte st st'.
Proof.
  intros Hok Hex Hv Hr. destruct (get_nte_ok now nte _ Hok Hex) as (st' & Hg & Hok' & Hm & Hr').
  exists st'. split; [done|]. unfold got. unfold ms_map at 2 3 in Hm. simpl in Hm. rewrite Hv in Hm.
  split_and!; [done|done|]. intros k. by rewrite Hr', <-Hr.
Qed.

Lemma ms_get_ok now name st : ms_ok st ->
  exists st', ms_get now name st = Some (st', take getMaxDepth name) /\ got now (take getMaxDepth name) st st'.
Proof.
  intros Hst. unfold ms_get.
  assert (take (Nat.min (length name) getMaxDepth) name = take getMaxDepth name) as Ht.
  { destruct (decide (length name <= getMaxDepth)%nat); [rewrite Nat.min_l, !take_ge by lia|rewrite Nat.min_r by lia]; done. }
  destruct (lookup_keeps st name (Nat.min (length name) getMaxDepth) Hst) as (t' & -> & Hex & _ & Hok & Hv & Hr); [lia|lia|].
  rewrite Ht in *. simpl. by apply get_after_lookup.
Qed.

Lemma wf_depth m n : nt_wf m -> is_Some (m !! n) -> take getMaxDepth n = n.
Proof. intros Hwf [e He]. destruct (Hwf n e He) as (_ & Hl & _). by apply take_ge. Qed.

Lemma ms_get_fib_ok now prefix st : ms_ok st -> is_Some (deref prefix (ms_tree st) ≫= m_fibEntry) \/ prefix = [] ->
  exists st', ms_get_fib now prefix st = Some (st', prefix) /\ got now prefix st st'.
Proof.
  intros Hst Hf. unfold ms_get_fib, lookup_fib. pose proof Hst as (Hok & Hwf & _).
  destruct (deref prefix (ms_tree st) ≫= m_fibEntry) as [f|] eqn:Ef.
  - simpl. apply get_after_lookup; [by destruct st| |done|done].
    rewrite deref_spec in Ef by done. destruct (nt_entries (ms_tree st) !! prefix); [by eexists|done].
  - destruct Hf as [[??]| ->]; [done|]. rewrite bool_decide_true by done.
    destruct (lookup_keeps st [] 0 Hst) as (t' & -> & Hex & _ & Hok' & Hv & Hr); [simpl; lia|lia|]. simpl. by apply get_after_lookup.
Qed.

(** The PIT entry of the key is attached. *)
Definition pit_attached (key : Name * Selectors) t : Prop :=
  exists e pe, nt_entries t !! nteName key.1 = Some e /\ find_if (has_key pit_key key) (m_pitEntries e) = Some pe.

Lemma ms_get_pit_ok now key st : ms_ok st -> pit_attached key (ms_tree st) ->
  exists st', ms_get_pit now key st = Some (st', take getMaxDepth key.1) /\ got now (take getMaxDepth key.1) st st'.
Proof.
  intros Hst (e & pe & He & Hf). unfold ms_get_pit, lookup_pit. pose proof Hst as (Hok & Hwf & _).
  destruct (endsWithDigest key.1 && (length key.1 <=? getMaxDepth)%nat) eqn:Ed.
  - apply andb_true_iff in Ed as [_ Hl]. apply Nat.leb_le in Hl. rewrite (take_ge _ getMaxDepth) by done.
    destruct (lookup_keeps st key.1 (length key.1) Hst) as (t' & -> & Hex & _ & Hok' & Hv & Hr); [lia|lia|].
    rewrite firstn_all in *. simpl. by apply get_after_lookup.
  - assert (nteName key.1 = take getMaxDepth key.1) as Hn.
    { unfold nteName, nteDepth. destruct (endsWithDigest key.1); simpl in Ed.
      - apply Nat.leb_gt in Ed. rewrite Nat.min_r by lia. done.
      - destruct (decide (length key.1 <= getMaxDepth)%nat); [rewrite !take_ge by lia; done|]. rewrite Nat.min_r by lia. done. }
    rewrite deref_spec, He by done. cbn [mbind option_bind]. rewrite Hf. cbn [mbind option_bind]. rewrite Hn in *.
    apply get_after_lookup; [by destruct st|by exists e|done|done].
Qed.

Lemma ms_getParent_ok now child st : ms_ok st -> is_Some (nt_entries (ms_tree st) !! child) ->
  match parent_of child with
  | None => ms_getParent now child st = Some (st, None)
  | Some p => exists st', ms_getParent now child st = Some (st', Some p) /\ got now p st st'
  end.
Proof.
  intros Hst [e He]. unfold ms_getParent. pose proof Hst as (Hok & Hwf & _).
  destruct (Hwf child e He) as (_ & _ & Hp & Hpar & _).
  destruct child as [|c child]; [by rewrite bool_decide_true|]. rewrite bool_decide_false by done.
  destruct (parent_of (c :: child)) as [p|] eqn:Ep; [|done].
  rewrite deref_spec, He by done. cbn [mbind option_bind]. rewrite Hp. cbn [mbind option_bind].
  destruct (get_after_lookup now p (ms_tree st) st) as (st' & Hg & Hgot); [by destruct st|by apply Hpar|done|done|].
  destruct st as [t k]. simpl in *. rewrite Hg. simpl. by exists st'.
Qed.

Lemma ms_read_ok n st : nt_ok (ms_tree st) -> ms_read n st = ms_map st !! n.
Proof.
  intros Hok. unfold ms_read, ms_map, ms_view. rewrite deref_spec, lookup_omap by done.
  by destruct (nt_entries (ms_tree st) !! n).
Qed.

Lemma ms_map_Some n me st : ms_map st !! n = Some me -> is_Some (nt_entries (ms_tree st) !! n).
Proof. unfold ms_map, ms_view. rewrite lookup_omap. destruct (_ !! n); [by eexists|done]. Qed.

Lemma ms_write_ok n g me st : ms_ok st -> ms_map st !! n = Some me -> entry_timed n (g me) ->
  ms_ok (ms_write n g st) /\ ms_map (ms_write n g st) = <[n := g me]> (ms_map st) /\
  forall k, rest_at k (nt_entries (ms_tree (ms_write n g st))) = rest_at k (nt_entries (ms_tree st)).
Proof.
  intros (Hok & Hwf & Hall & Hn) Hme Hg.
  destruct (ms_update_ok st n (fmap g) Hok Hwf) as (Hok' & Hwf' & _ & Hv & Hr); [by eapply ms_map_Some|].
  assert (ms_map (ms_write n g st) = <[n := g me]> (ms_map st)) as Hm.
  { apply map_eq. intros k. etrans; [exact (Hv k)|]. rewrite lookup_insert, Hme. repeat case_decide; by subst. }
  split_and!; [|done|done]. split_and!; [done|done|rewrite Hm; by apply map_Forall_insert_2|].
  rewrite Hm, map_size_insert_Some by done. done.
Qed.

Lemma extendLifetime_ok now n lifetime me st : ms_ok st -> ms_map st !! n = Some me ->
  exists st', extendLifetime now n lifetime st = Some st' /\ ms_ok st' /\
    ms_map st' = <[n := if now + lifetime <=? me_expiry me then me else set_lifetime (now + lifetime) me]> (ms_map st) /\
    forall k, rest_at k (nt_entries (ms_tree st')) = rest_at k (nt_entries (ms_tree st)).
Proof.
  intros Hst Hme. unfold extendLifetime. rewrite (ms_read_ok n st) by apply Hst. rewrite Hme. simpl. case_match.
  - exists st. rewrite insert_id by done. done.
  - eexists. split; [done|]. apply ms_write_ok; [done|done|]. destruct Hst as (_ & _ & Hall & _).
    destruct (Hall n me Hme). done.
Qed.

Lemma ms_cleanup_ok n me st : ms_ok st -> ms_map st !! n = Some me ->
  exists st', cleanup n st = Some st' /\ ms_ok st' /\ ms_map st' = delete n (ms_map st) /\
    forall k, rest_at k (nt_entries (ms_tree st')) = rest_at k (nt_entries (ms_tree st)).
Proof.
  intros (Hok & Hwf & Hall & Hn) Hme. pose proof (ms_map_Some _ _ _ Hme) as Hex. unfold cleanup.
  destruct Hex as [e He]. rewrite deref_spec, He by done. cbn [mbind option_bind].
  destruct (ms_update_ok st n (fun _ => None) Hok Hwf) as (Hok' & Hwf' & Hex' & Hv & Hr); [by exists e|].
  destruct (eraseIfEmpty_ok (nt_update n (setMeasurementsEntry None) (ms_tree st)) n true Hok' Hwf' Hex')
    as (t' & k & -> & Hok2 & Hwf2 & Htab & _). cbn [mbind option_bind].
  eexists. split; [done|].
  assert (ms_view (nt_entries t') = delete n (ms_map st)) as Hm.
  { apply map_eq. intros q. rewrite ms_view_lookup. unfold meas_at. rewrite Htab.
    etrans; [symmetry; apply ms_view_lookup|]. etrans; [exact (Hv q)|]. rewrite lookup_delete. repeat case_decide; congruence. }
  unfold ms_ok, ms_map at 1 2 3. simpl. rewrite Hm. split_and!; try done.
  - by apply map_Forall_delete.
  - rewrite Hn, <-Z.add_opp_r, u64_add_l, map_size_delete_Some by eauto. f_equal.
    assert (size (ms_map st) <> 0%nat); [|lia]. intros Hz%map_size_empty_inv. rewrite Hz in Hme. by rewrite lookup_empty in Hme.
  - intros q. unfold rest_at. rewrite Htab. apply (Hr q).
Qed.

(** ** Runs *)

(** What strategies, the timers and the other tables of the name tree do. *)
Inductive MsAction :=
  | Get name | GetFib (prefix : Name) | GetPit (key : Name * Selectors) | GetParent (child : Name)
  | Extend n (lifetime : Z) | SetInfo n (h : gmap Z I) | Cleanup n | OtherTable t.

Definition ms_step now (a : MsAction) st : option Measurements :=
  match a with
  | Get name => fst <$> ms_get now name st
  | GetFib prefix => fst <$> ms_get_fib now prefix st
  | GetPit key => fst <$> ms_get_pit now key st
  | GetParent child => fst <$> ms_getParent now child st
  | Extend n lifetime => extendLifetime now n lifetime st
  | SetInfo n h => Some (ms_write n (set_me_info h) st)
  | Cleanup n => cleanup n st
  | OtherTable t => Some (mkMeasurements t (ms_nItems st))
  end.

(** Entries are used while they are in their table, [cleanup] is called by the
    timer of the entry, and the other tables leave the measurements alone. *)
Definition ms_allowed now (a : MsAction) st : Prop :=
  match a with
  | Get _ => True
  | GetFib prefix => is_Some (deref prefix (ms_tree st) ≫= m_fibEntry) \/ prefix = []
  | GetPit key => pit_attached key (ms_tree st)
  | GetParent n | Extend n _ | SetInfo n _ => is_Some (ms_map st !! n)
  | Cleanup n => exists me due, ms_map st !! n = Some me /\ me_cleanup me = Some due /\ due <= now
  | OtherTable t => nt_ok t /\ nt_wf (nt_entries t) /\ forall n, meas_at n (nt_entries t) = meas_at n (nt_entries (ms_tree st))
  end.

(** No entry goes before its time. *)
Definition keeps now st st' : Prop := forall n me, ms_map st !! n = Some me -> now < me_expiry me ->
  exists me', ms_map st' !! n = Some me' /\ me_expiry me <= me_expiry me'.

Lemma insert_keeps now n me' st st' : ms_map st' = <[n := me']> (ms_map st) ->
  (forall me, ms_map st !! n = Some me -> me_expiry me <= me_expiry me') -> keeps now st st'.
Proof.
  intros Hm Hle k me Hk _. rewrite Hm, lookup_insert. case_decide; subst; [exists me'; auto|exists me; auto with lia].
Qed.

Lemma got_keeps now n st st' : got now n st st' -> ms_ok st' /\ keeps now st st'.
Proof.
  intros (Hok & Hm & _). split; [done|]. eapply insert_keeps; [done|]. intros me Hme. unfold get_entry. rewrite Hme. simpl. lia.
Qed.

Lemma ms_step_ok now a st : ms_ok st -> ms_allowed now a st ->
  exists st', ms_step now a st = Some st' /\ ms_ok st' /\ keeps now st st'.
Proof.
  intros Hst Ha. destruct a as [name|prefix|key|child|n lifetime|n h|n|t]; simpl in *.
  - destruct (ms_get_ok now name st Hst) as (st' & -> & Hg%got_keeps). by exists st'.
  - destruct (ms_get_fib_ok now prefix st Hst Ha) as (st' & -> & Hg%got_keeps). by exists st'.
  - destruct (ms_get_pit_ok now key st Hst Ha) as (st' & -> & Hg%got_keeps). by exists st'.
  - destruct Ha as [me Hme]. pose proof (ms_getParent_ok now child st Hst (ms_map_Some _ _ _ Hme)) as Hp.
    destruct (parent_of child) as [p|]; [destruct Hp as (st' & -> & Hg%got_keeps); by exists st'|rewrite Hp].
    exists st. split_and!; [done|done|]. intros n me' Hn _. exists me'. auto with lia.
  - destruct Ha as [me Hme]. destruct (extendLifetime_ok now n lifetime me st Hst Hme) as (st' & -> & Hok & Hm & _).
    exists st'. split_and!; [done|done|]. eapply insert_keeps; [done|]. intros me' ?. simplify_eq. case_match eqn:E0; simpl; lia.
  - destruct Ha as [me Hme]. destruct (ms_write_ok n (set_me_info h) me st Hst Hme) as (Hok & Hm & _).
    { destruct Hst as (_ & _ & Hall & _). by destruct (Hall n me Hme). }
    eexists. split_and!; [done|done|]. eapply insert_keeps; [done|]. intros me' ?. simplify_eq. simpl. lia.
  - destruct Ha as (me & due & Hme & Hd & Hle). destruct (ms_cleanup_ok n me st Hst Hme) as (st' & -> & Hok & Hm & _).
    exists st'. split_and!; [done|done|]. intros k me' Hk Hlt. exists me'. split; [|lia].
    rewrite Hm, lookup_delete_ne; [done|]. intros <-. destruct Hst as (_ & _ & Hall & _). destruct (Hall n me Hme). simplify_eq. lia.
  - destruct Ha as (Hok' & Hwf' & Hv%ms_view_ext). destruct Hst as (_ & _ & Hall & Hn).
    eexists. split_and!; [done| |].
    + unfold ms_ok, ms_map. simpl. by rewrite Hv.
    + intros k me Hk _. exists me. unfold ms_map. simpl. rewrite Hv. auto with lia.
Qed.

Inductive ms_run : Measurements -> list (Z * MsAction) -> Measurements -> Prop :=
  | ms_run_nil st : ms_run st [] st
  | ms_run_cons now a acts st st1 st2 : ms_allowed now a st -> ms_step now a st = Some st1 -> ms_run st1 acts st2 ->
      ms_run st ((now, a) :: acts) st2.

Lemma ms_run_ok st acts st' : ms_run st acts st' -> ms_ok st -> ms_ok st' /\
  forall n me, ms_map st !! n = Some me -> Forall (fun ta => ta.1 < me_expiry me) acts ->
    exists me', ms_map st' !! n = Some me' /\ me_expiry me <= me_expiry me'.
Proof.
  induction 1 as [st|now a acts st st1 st2 Ha Hs _ IH]; intros Hst.
  - split; [done|]. intros n me Hn _. exists me. auto with lia.
  - destruct (ms_step_ok now a st Hst Ha) as (st' & Hs' & Hok & Hk). simplify_eq. destruct (IH Hok) as [Hok2 Hk2].
    split; [done|]. intros n me Hn [Hlt Hall]%Forall_cons. destruct (Hk n me Hn Hlt) as (me1 & Hn1 & Hle).
    destruct (Hk2 n me1 Hn1) as (me2 & Hn2 & Hle2); [|exists me2; split; [done|lia]].
    eapply Forall_impl; [done|]. intros ta. simpl. lia.
Qed.

(** The table of measurements keeps its promises in every run of lookups,
    extensions, timers, and operations of the other tables on the shared name
    tree. No operation fails; the counter is right; every entry is under its name
    with its timer set for its expiry; and an entry is kept at least until its
    expiry, which no operation makes earlier. *)
Theorem measurements_kept st0 acts st now a : ms_ok st0 -> ms_run st0 acts st -> ms_allowed now a st ->
  (exists st', ms_step now a st = Some st') /\
  ms_nItems st = u64 (Z.of_nat (size (ms_map st))) /\ map_Forall entry_timed (ms_map st) /\
  forall n me, ms_map st0 !! n = Some me -> Forall (fun ta => ta.1 < me_expiry me) acts ->
    exists me', ms_map st !! n = Some me' /\ me_expiry me <= me_expiry me'.
Proof.
  intros Hst Hrun Ha. destruct (ms_run_ok st0 acts st Hrun Hst) as [Hok Hk].
  destruct (ms_step_ok now a st Hok Ha) as (st' & Hs & _). pose proof Hok as (_ & _ & Hall & Hn).
  split_and!; [by exists st'|done|done|done].
Qed.

(** The ways to find or insert an entry agree: by name, by the FIB entry of
    that prefix, by the PIT entry of that name, with or without an implicit
    digest, and as the parent of an entry of a name one component longer, [get]
    gives the entry of the first [getMaxDepth] components. A new entry lives for
    the initial lifetime; an entry that exists is left as it is; and so are all
    other entries and all other tables. *)
Theorem measurements_get_correct now name sel c st : ms_ok st ->
  let n := take getMaxDepth name in
  (exists st', ms_get now name st = Some (st', n) /\ got now n st st') /\
  (is_Some (deref name (ms_tree st) ≫= m_fibEntry) \/ name = [] ->
    exists st', ms_get_fib now name st = Some (st', n) /\ got now n st st') /\
  (pit_attached (name, sel) (ms_tree st) -> exists st', ms_get_pit now (name, sel) st = Some (st', n) /\ got now n st st') /\
  (is_Some (ms_map st !! (name ++ [c])) -> exists st', ms_getParent now (name ++ [c]) st = Some (st', Some n) /\ got now n st st').
Proof.
  intros Hst n. pose proof Hst as (Hok & Hwf & _). split_and!.
  - by apply ms_get_ok.
  - intros Hf. assert (n = name) as Hn.
    { destruct Hf as [[f Hf]| ->]; [|done]. apply (wf_depth _ _ Hwf). rewrite deref_spec in Hf by done.
      destruct (nt_entries (ms_tree st) !! name); [by eexists|done]. }
    rewrite Hn. by apply ms_get_fib_ok.
  - intros Hp. by apply (ms_get_pit_ok now (name, sel)).
  - intros [me Hme%ms_map_Some]. pose proof (ms_getParent_ok now (name ++ [c]) st Hst Hme) as Hp.
    assert (parent_of (name ++ [c]) = Some name) as Hpar.
    { pose proof (parent_of_take (name ++ [c]) (length name)) as Hpt. rewrite take_app_length in Hpt.
      rewrite take_ge in Hpt by (rewrite length_app; simpl; lia). apply Hpt. rewrite length_app. simpl. lia. }
    assert (n = name) as ->; [|by rewrite Hpar in Hp].
    apply (wf_depth _ _ Hwf), (wf_prefix _ (name ++ [c])); [done|done|by exists [c]].
Qed.

End Measurements.
Arguments Measurements : clear implicits.

(** ** A concrete table: [/1/2] measured at time 0 *)
Module MeasurementsExamples.

Notation MsEntry := (Entry Z (FibEntry Z) (PitEntry Z) (MeasurementsEntry Z Z) Z).
Notation MsTree := (Hashtable Z MsEntry).

Definition ms0 : Measurements MsTree := mkMeasurements (newHashtable (newOptions 4)) 0.
Definition ms1 : Measurements MsTree := default ms0 (ms_step 0 (Get [1; 2]) ms0).
Definition ms2 : Measurements MsTree := default ms1 (ms_step 1 (Get [1]) ms1).

Lemma ms0_ok : ms_ok ms0.
Proof.
  destruct (ht_new_ok (C:=Z) (E:=MsEntry) (newOptions 4)) as [Hok He].
  - split; [simpl; lia|]. apply Z.leb_le. by vm_compute.
  - unfold ms_ok, ms_map, ms_view. simpl in *. rewrite He, omap_empty.
    split_and!; [done| |apply map_Forall_empty|done]. intros n e Hn. by rewrite lookup_empty in Hn.
Qed.

Lemma ms1_ok : ms_ok ms1 /\ ms_map ms1 = {[ [1; 2] := mkMeasurementsEntry [1; 2] 4000000000 (Some 4000000000) ∅ ]}.
Proof.
  destruct (ms_get_ok 0 [1; 2] ms0 ms0_ok) as (st' & Hs & Hok & Hm & _).
  unfold ms1, ms_step. rewrite Hs. split; [exact Hok|]. cbn [fst fmap option_fmap option_map default].
  change (ms_map st' = {[ [1; 2] := mkMeasurementsEntry [1; 2] 4000000000 (Some 4000000000) ∅ ]}). rewrite Hm. assert (ms_map ms0 = ∅) as ->; [|done].
  destruct (ht_new_ok (C:=Z) (E:=MsEntry) (newOptions 4)) as [_ He].
  - split; [simpl; lia|]. apply Z.leb_le. by vm_compute.
  - unfold ms_map, ms_view. simpl in *. by rewrite He, omap_empty.
Qed.

Lemma ms2_step : ms_step 1 (Get [1]) ms1 = Some ms2 /\ ms_ok ms2.
Proof.
  destruct ms1_ok as [Hok _]. destruct (ms_step_ok 1 (Get [1]) ms1 Hok Logic.I) as (st' & Hs & Hok' & _).
  unfold ms2. rewrite Hs. split; [reflexivity|exact Hok'].
Qed.

Lemma ms_run_example : ms_run ms1 [(1, Get [1])] ms2.
Proof. eapply ms_run_cons; [exact Logic.I|apply ms2_step|constructor]. Qed.

Example measurements_kept_witness : exists me', ms_map ms2 !! [1; 2] = Some me' /\ 4000000000 <= me_expiry me'.
Proof.
  destruct ms1_ok as [Hok Hm].
  destruct (measurements_kept ms1 [(1, Get [1])] ms2 2 (Get []) Hok ms_run_example Logic.I) as (_ & _ & _ & Hk).
  destruct (Hk [1; 2] (mkMeasurementsEntry [1; 2] 4000000000 (Some 4000000000) ∅)) as (me' & H1 & H2).
  - rewrite Hm. apply lookup_singleton_eq.
  - constructor; [simpl; lia|constructor].
  - exists me'. split; [exact H1|exact H2].
Defined.

Example measurements_get_correct_witness : exists st', ms_getParent 5 [1; 2] ms1 = Some (st', Some [1]) /\ got 5 [1] ms1 st'.
Proof.
  destruct ms1_ok as [Hok Hm].
  destruct (measurements_get_correct 5 [1] (i_selectors PitExamples.interest1) 2 ms1 Hok) as (_ & _ & _ & Hp).
  destruct Hp as (st' & H1 & H2); [rewrite Hm; simpl; rewrite lookup_singleton_eq; by eexists|].
  exists st'. split; [exact H1|exact H2].
Defined.

End MeasurementsExamples.
