(* ===== verification/StrategyRegistry.v ===== *)
(** * The registry of strategy types

    Models the static part of [daemon/fw/strategy.cpp] and [strategy.hpp]: the
    registry of strategy types, an ordered map from strategy names to the
    functions that create an instance, the parsing of an instance name into the
    name of a type, a version and parameters, and the search for the type of an
    instance name. Which components are versions is ndn-cxx's. *)

From Stdlib Require Import Sorting.Sorted.
From S2P Require Import Prelude Ndn.
Local Open Scope Z_scope.

Class NameVersions (C : Type) := { isVersion : C -> bool; toVersion : C -> Z }.

(** What is documented of [Name::getSuccessor]: the names from a name up to its
    successor, in canonical order, are those that it is a prefix of. *)
Class NameSuccessor (C : Type) `{NameOrder C} : Prop :=
  successor_between (n x : list C) : n <> [] -> name_compare n x <> Gt /\ name_compare x (getSuccessor n) = Lt <-> n `prefix_of` x.

Section Registry.
Context {C : Type} `{NameOrder C} `{!NameVersions C}.
Notation Name := (list C).
Implicit Types (n name x : Name).

(** Creating an instance gives its instance name; [None] is an exception
    [std::invalid_argument] of the constructor. *)
Definition CreateFunc : Type := Name -> option Name.

(** The entries in the order of the map. *)
Definition Registry : Type := list (Name * CreateFunc).
Implicit Types r : Registry.

(** [registry[strategyName] = f] for a name that is not in the map. *)
Fixpoint reg_insert name (f : CreateFunc) r : Registry :=
  match r with
  | [] => [(name, f)]
  | (x, g) :: r' => match name_compare x name with Lt => (x, g) :: reg_insert name f r' | _ => (name, f) :: r end
  end.

Definition registerType name (f : CreateFunc) r : option Registry :=
  if (1 <? length name)%nat && (match last name with Some c => isVersion c | None => false end) && bool_decide (name ∉ r.*1)
  then Some (reg_insert name f r) else None.

(** [registry.lower_bound(x)]: the entries before it, and from it on. *)
Fixpoint reg_lower_bound x r : Registry * Registry :=
  match r with
  | [] => ([], [])
  | (y, f) :: r' =>
      match name_compare y x with
      | Lt => let '(a, b) := reg_lower_bound x r' in ((y, f) :: a, b)
      | _ => ([], r)
      end
  end.

(** [strategyName] with its version, the version component, the parameters. *)
Record ParsedInstanceName := mkParsed { strategyName : Name; version : option C; parameters : Name }.

(** The loop of [parseInstanceName]; it ends at the second component. *)
Fixpoint parse_loop (input : Name) (i : nat) : ParsedInstanceName :=
  match i with
  | O => mkParsed input None []
  | S i' =>
      match input !! i with
      | Some c => if isVersion c then mkParsed (take (i + 1) input) (Some c) (drop (i + 1) input) else parse_loop input i'
      | None => parse_loop input i'
      end
  end.

Definition parseInstanceName (input : Name) : ParsedInstanceName := parse_loop input (pred (length input)).

(** [None] is [end()]. *)
Definition find_strategy (instanceName : Name) r : option (Name * CreateFunc) :=
  let parsed := parseInstanceName instanceName in
  match version parsed with
  | Some _ =>
      found ← head (reg_lower_bound (strategyName parsed) r).2;
      if isPrefixOf (parentName (strategyName parsed)) found.1 then Some found else None
  | None =>
      if bool_decide (strategyName parsed = []) then None
      else
        found ← last (reg_lower_bound (getSuccessor (strategyName parsed)) r).1;
        if isPrefixOf (strategyName parsed) found.1 then Some found else None
  end.

Definition canCreate (instanceName : Name) r : bool := match find_strategy instanceName r with Some _ => true | None => false end.

Inductive Created := NotFound | InvalidArgument | Instance (instanceName : Name).

(** [None] is the failed assertion that the instance name is not empty. *)
Definition create (instanceName : Name) r : option Created :=
  match find_strategy instanceName r with
  | None => Some NotFound
  | Some (_, f) =>
      match f instanceName with
      | None => Some InvalidArgument
      | Some iname => if bool_decide (iname = []) then None else Some (Instance iname)
      end
  end.

Definition typeOf (instanceName : Name) r : option Name := fst <$> find_strategy instanceName r.

(** The iterators of both names are equal. *)
Definition areSameType (a b : Name) r : bool := bool_decide (typeOf a r = typeOf b r).

Definition listRegistered r : list Name := r.*1.

(** [None] is the failed assertion that the strategy name ends with a version. *)
Definition makeInstanceName (input strategyName : Name) : option Name :=
  v ← last strategyName;
  if isVersion v then Some (if existsb isVersion input then input else input ++ [v]) else None.

(** The constructor of a strategy type without parameters, such as
    [BestRouteStrategy2]: it accepts its own version only. *)
Definition plainConstructor (strategyName : Name) : CreateFunc := fun name =>
  let parsed := parseInstanceName name in
  match parameters parsed with
  | _ :: _ => None
  | [] =>
      match version parsed, last strategyName with
      | Some v, Some v' => if toVersion v =? toVersion v' then makeInstanceName name strategyName else None
      | _, _ => makeInstanceName name strategyName
      end
  end.

(** ** The registry is ordered *)

Definition name_lt n x : Prop := name_compare n x = Lt.
Definition reg_sorted r : Prop := StronglySorted name_lt r.*1.

#[local] Instance name_lt_trans : Transitive name_lt.
Proof. intros a b c. apply name_compare_trans. Qed.

Lemma name_lt_irrefl n : ~ name_lt n n.
Proof. unfold name_lt. by rewrite name_compare_refl. Qed.

Lemma name_not_Lt n x : name_compare n x <> Lt -> name_compare x n <> Gt.
Proof. rewrite name_compare_Gt. done. Qed.

Lemma name_lt_le_trans a b c : name_lt a b -> name_compare b c <> Gt -> name_lt a c.
Proof.
  intros Hab Hbc. destruct (name_compare b c) eqn:E0; [|by etrans|done]. apply name_compare_eq in E0. by subst.
Qed.

Lemma name_le_lt_trans a b c : name_compare a b <> Gt -> name_lt b c -> name_lt a c.
Proof.
  intros Hab Hbc. destruct (name_compare a b) eqn:E0; [|by etrans|done]. apply name_compare_eq in E0. by subst.
Qed.

Lemma reg_insert_elem name f r x g : (x, g) ∈ reg_insert name f r <-> (x, g) = (name, f) \/ (x, g) ∈ r.
Proof.
  induction r as [|[y h] r IH]; simpl; [by rewrite list_elem_of_singleton, elem_of_nil; intuition|].
  destruct (name_compare y name); rewrite ?elem_of_cons, ?IH, ?elem_of_cons; tauto.
Qed.

Lemma registerType_ok name f r : reg_sorted r -> (1 < length name)%nat -> (exists c, last name = Some c /\ isVersion c = true) ->
  name ∉ r.*1 -> exists r', registerType name f r = Some r' /\ reg_sorted r' /\
    forall x g, (x, g) ∈ r' <-> (x, g) = (name, f) \/ (x, g) ∈ r.
Proof.
  intros Hs Hl (c & Hc & Hv) Hn. exists (reg_insert name f r). unfold registerType.
  rewrite (proj2 (Nat.ltb_lt _ _) Hl), Hc, Hv, bool_decide_true by done. split_and!; [done| |apply reg_insert_elem].
  clear Hl Hc Hv c. unfold reg_sorted in *. induction r as [|[y h] r IH]; simpl in *; [by repeat constructor|].
  apply StronglySorted_inv in Hs as [Hs Hall]. apply not_elem_of_cons in Hn as [Hne Hn].
  destruct (name_compare y name) eqn:Ey.
  - apply name_compare_eq in Ey. congruence.
  - simpl. constructor; [by apply IH|]. rewrite Forall_forall in *. intros x (p & -> & Hp)%list_elem_of_fmap.
    destruct p as [x g]. apply reg_insert_elem in Hp as [[= -> ->]|Hp]; [done|]. apply Hall.
    apply list_elem_of_fmap. by exists (x, g).
  - apply name_compare_Gt in Ey. constructor; [by constructor|]. constructor; [done|].
    eapply Forall_impl; [exact Hall|]. intros x Hx. by etrans.
Qed.

(** ** Searching *)

Lemma reg_sorted_cons y f r : reg_sorted ((y, f) :: r) -> reg_sorted r /\ forall p, p ∈ r -> name_lt y p.1.
Proof.
  intros [Hs Hall]%StronglySorted_inv. split; [done|]. intros p Hp. rewrite Forall_forall in Hall. simpl in Hall.
  apply Hall, list_elem_of_fmap. by exists p.
Qed.

Lemma reg_lower_bound_spec x r a b : reg_sorted r -> reg_lower_bound x r = (a, b) ->
  r = a ++ b /\ Forall (fun p => name_lt p.1 x) a /\ Forall (fun p => name_compare x p.1 <> Gt) b.
Proof.
  revert a b. induction r as [|[y f] r IH]; intros a b; simpl; [by intros _ [= <- <-]|].
  intros [Hs Hall]%reg_sorted_cons. destruct (name_compare y x) eqn:Ey.
  2: { destruct (reg_lower_bound x r) as [a' b'] eqn:E0. intros [= <- <-].
    destruct (IH a' b' Hs eq_refl) as (-> & Ha & Hb). split_and!; [done|by constructor|done]. }
  all: intros [= <- <-]; split_and!; [done|constructor|]; constructor; [by apply name_not_Lt; simpl; rewrite Ey|].
  all: rewrite Forall_forall; intros p Hp; pose proof (Hall p Hp) as Hlt.
  - apply name_compare_eq in Ey as ->. unfold name_lt in Hlt. by rewrite Hlt.
  - assert (name_lt x p.1) as Hlt2; [|unfold name_lt in Hlt2; by rewrite Hlt2]. etrans; [|done]. by apply name_compare_Gt.
Qed.

Lemma sorted_app_lt (l l' : list Name) : StronglySorted name_lt (l ++ l') -> forall a b, a ∈ l -> b ∈ l' -> name_lt a b.
Proof.
  induction l as [|x l IH]; simpl; intros Hs a b Ha Hb; [by apply not_elem_of_nil in Ha|].
  apply StronglySorted_inv in Hs as [Hs Hall]. apply elem_of_cons in Ha as [->|Ha]; [|by apply IH].
  rewrite Forall_forall in Hall. apply Hall, elem_of_app. by right.
Qed.

Lemma sorted_app_r (l l' : list Name) : StronglySorted name_lt (l ++ l') -> StronglySorted name_lt l'.
Proof. induction l; simpl; [done|]. by intros [Hs _]%StronglySorted_inv; auto. Qed.

(** The instance name asks for [x]: a version not below the one given, of the
    same name; any version when none is given. *)
Definition asks_for (instanceName x : Name) : Prop :=
  let parsed := parseInstanceName instanceName in
  match version parsed with
  | Some _ => name_compare (strategyName parsed) x <> Gt /\ parentName (strategyName parsed) `prefix_of` x
  | None => strategyName parsed <> [] /\ strategyName parsed `prefix_of` x
  end.

Context `{!NameSuccessor C}.

Lemma parse_loop_nonempty input i : (i < length input)%nat -> version (parse_loop input i) <> None ->
  strategyName (parse_loop input i) <> [] /\ (1 < length (strategyName (parse_loop input i)))%nat.
Proof.
  induction i as [|i IH]; intros Hi; simpl; [done|].
  destruct (lookup_lt_is_Some_2 input (Datatypes.S i) Hi) as [c ->]. destruct (isVersion c); [|apply IH; lia].
  intros _. simpl. assert (length (take (Datatypes.S (i + 1)) input) = Datatypes.S (i + 1)) as Hl by (rewrite length_take; lia).
  split; [intros Hz; rewrite Hz in Hl; simpl in Hl; lia|lia].
Qed.

Lemma parentName_prefix n : parentName n `prefix_of` n.
Proof. unfold parentName. exists (drop (pred (length n)) n). by rewrite take_drop. Qed.

(** Between two names under a prefix there are only names under the prefix. *)
Lemma name_prefix_convex (p a b c : Name) : p <> [] -> p `prefix_of` a -> p `prefix_of` c -> name_compare a b <> Gt -> name_compare b c <> Gt ->
  p `prefix_of` b.
Proof.
  intros Hp Ha Hc Hab Hbc. apply (successor_between p b Hp). apply (successor_between p) in Ha as [Ha _], Hc as [_ Hc]; [|done..]. split.
  - destruct (name_compare p b) eqn:E0; [done..|]. apply name_compare_Gt in E0. exfalso.
    assert (name_lt a p) as Hlt by (eapply name_le_lt_trans; [|exact E0]; done). apply Ha. by apply name_compare_Gt.
  - by eapply (name_le_lt_trans b c).
Qed.

Lemma find_strategy_ok instanceName r : reg_sorted r ->
  match find_strategy instanceName r with
  | None => forall p, p ∈ r -> ~ asks_for instanceName p.1
  | Some found => found ∈ r /\ asks_for instanceName found.1 /\
      forall p, p ∈ r -> asks_for instanceName p.1 ->
        match version (parseInstanceName instanceName) with
        | Some _ => name_compare found.1 p.1 <> Gt
        | None => name_compare p.1 found.1 <> Gt
        end
  end.
Proof.
  intros Hs. unfold find_strategy, asks_for. set (parsed := parseInstanceName instanceName).
  destruct (version parsed) as [v|] eqn:Ev.
  - destruct (parse_loop_nonempty instanceName (pred (length instanceName))) as [Hne Hl].
    { destruct instanceName; [done|simpl; lia]. }
    { unfold parsed, parseInstanceName in Ev. by rewrite Ev. }
    fold (parseInstanceName instanceName) in Hne, Hl. fold parsed in Hne, Hl.
    assert (parentName (strategyName parsed) <> []) as Hpar.
    { intros Hz%(f_equal length). unfold parentName in Hz. rewrite length_take in Hz. simpl in Hz. lia. }
    destruct (reg_lower_bound (strategyName parsed) r) as [a b] eqn:Elb.
    destruct (reg_lower_bound_spec _ _ _ _ Hs Elb) as (-> & Ha & Hb). simpl. rewrite Forall_forall in Ha, Hb.
    assert (forall p, p ∈ a ++ b -> name_compare (strategyName parsed) p.1 <> Gt -> p ∈ b) as Hin.
    { intros p [Hp|Hp]%elem_of_app Hle; [|done]. specialize (Ha p Hp). unfold name_lt in Ha. by apply name_compare_Gt in Ha. }
    destruct b as [|found b]; simpl.
    { intros p Hp [Hle _]. apply (Hin p Hp) in Hle. by apply not_elem_of_nil in Hle. }
    assert (forall p, p ∈ found :: b -> name_compare found.1 p.1 <> Gt) as Hleast.
    { intros p [->|Hp]%elem_of_cons; [by rewrite name_compare_refl|].
      assert (name_lt found.1 p.1) as Hlt; [|unfold name_lt in Hlt; by rewrite Hlt].
      unfold reg_sorted in Hs. rewrite fmap_app in Hs. apply sorted_app_r in Hs.
      destruct found as [y f]. by apply (reg_sorted_cons y f b Hs). }
    destruct (isPrefixOf _ _) eqn:Epre.
    + apply isPrefixOf_true in Epre. split_and!; [apply elem_of_app; right; left|apply Hb; left|done|].
      intros p Hp [Hle _]. by apply Hleast, Hin.
    + intros p Hp [Hle Hpre]. apply (Hin p Hp) in Hle as Hpb. apply not_true_iff_false in Epre. apply Epre, isPrefixOf_true.
      apply (name_prefix_convex _ (strategyName parsed) found.1 p.1); [done|apply parentName_prefix|done|apply Hb; left|by apply Hleast].
  - case_bool_decide as Hz; [by intros p _ [? _]|].
    destruct (reg_lower_bound (getSuccessor (strategyName parsed)) r) as [a b] eqn:Elb.
    destruct (reg_lower_bound_spec _ _ _ _ Hs Elb) as (-> & Ha & Hb). simpl. rewrite Forall_forall in Ha, Hb.
    assert (forall p, p ∈ a ++ b -> strategyName parsed `prefix_of` p.1 -> p ∈ a) as Hin.
    { intros p [Hp|Hp]%elem_of_app Hpre; [done|]. apply (successor_between _ _ Hz) in Hpre as [_ Hlt].
      specialize (Hb p Hp). by apply name_compare_Gt in Hlt. }
    destruct a as [|found a _] using rev_ind; simpl.
    { intros p Hp [_ Hpre]. apply (Hin p Hp) in Hpre. by apply not_elem_of_nil in Hpre. }
    rewrite last_snoc. simpl.
    assert (forall p, p ∈ a ++ [found] -> name_compare p.1 found.1 <> Gt) as Hmost.
    { intros p [Hp|Hp]%elem_of_app; [|apply list_elem_of_singleton in Hp as ->; by rewrite name_compare_refl].
      assert (name_lt p.1 found.1) as Hlt; [|unfold name_lt in Hlt; by rewrite Hlt].
      unfold reg_sorted in Hs. rewrite <-app_assoc, fmap_app in Hs. eapply (sorted_app_lt _ _ Hs); [|left].
      apply list_elem_of_fmap. by exists p. }
    destruct (isPrefixOf _ _) eqn:Epre.
    + apply isPrefixOf_true in Epre. split_and!; [|done|done|].
      * rewrite !elem_of_app, list_elem_of_singleton. left. by right.
      * intros p Hp [_ Hpre]. apply Hmost, Hin; done.
    + intros p Hp [_ Hpre]. apply not_true_iff_false in Epre. apply Epre, isPrefixOf_true.
      pose proof (Hin p Hp Hpre) as Hpa. apply (successor_between _ _ Hz). split.
      * apply (successor_between _ _ Hz) in Hpre as [Hle _]. specialize (Hmost p Hpa).
        destruct (name_compare p.1 found.1) eqn:E0; [apply name_compare_eq in E0; by rewrite <-E0| |done].
        intros Hgt%name_compare_Gt. apply Hle, name_compare_Gt. by eapply name_compare_trans.
      * apply Ha. apply elem_of_app. right. by left.
Qed.

(** The search for the type of an instance name finds, when a version is
    given, the least registered name of that version or above among those that
    share the name before the version; when no version is given, the greatest
    registered name under the name. It fails only when no registered name is
    asked for. *)
Theorem find_strategy_correct instanceName r : reg_sorted r ->
  match find_strategy instanceName r with
  | None => forall x f, (x, f) ∈ r -> ~ asks_for instanceName x
  | Some (s, f) => (s, f) ∈ r /\ asks_for instanceName s /\
      forall x g, (x, g) ∈ r -> asks_for instanceName x ->
        if version (parseInstanceName instanceName) then name_compare s x <> Gt else name_compare x s <> Gt
  end.
Proof.
  intros Hs. pose proof (find_strategy_ok instanceName r Hs) as Hf. destruct (find_strategy instanceName r) as [[s f]|].
  - destruct Hf as (Hin & Hask & Hbest). split_and!; [done|done|]. intros x g Hx Ha. specialize (Hbest (x, g) Hx Ha).
    by destruct (version _).
  - intros x f Hx. apply (Hf (x, f) Hx).
Qed.

Lemma parse_loop_unversioned input i : existsb isVersion input = false -> parse_loop input i = mkParsed input None [].
Proof.
  intros Hn. induction i as [|i IH]; [done|]. simpl. destruct (input !! Datatypes.S i) as [c|] eqn:Ec; [|done].
  apply list_elem_of_lookup_2 in Ec. destruct (isVersion c) eqn:Ev; [|done].
  assert (existsb isVersion input = true); [|congruence]. apply existsb_exists. exists c. split; [by apply list_elem_of_In|done].
Qed.

Lemma parse_snoc input v : input <> [] -> isVersion v = true ->
  parseInstanceName (input ++ [v]) = mkParsed (input ++ [v]) (Some v) [].
Proof.
  intros Hne Hv. unfold parseInstanceName. rewrite length_app, Nat.add_comm. simpl.
  destruct (length input) as [|k] eqn:El; [by destruct input|]. simpl.
  assert ((input ++ [v]) !! Datatypes.S k = Some v) as Hlk by (rewrite lookup_app_r by lia; by rewrite El, Nat.sub_diag).
  rewrite Hlk, Hv, take_ge, drop_ge by (rewrite length_app; simpl; lia). done.
Qed.

(** An instance name that ends with the version of a registered name is of that type. *)
Lemma typeOf_registered s f r v input : reg_sorted r -> (s, f) ∈ r -> s = input ++ [v] -> isVersion v = true -> input <> [] ->
  typeOf s r = Some s.
Proof.
  intros Hs Hin -> Hv Hne. pose proof (find_strategy_ok (input ++ [v]) r Hs) as Hf. unfold typeOf, asks_for in *.
  rewrite (parse_snoc input v Hne Hv) in Hf. simpl in Hf.
  assert (name_compare (input ++ [v]) (input ++ [v]) <> Gt /\ parentName (input ++ [v]) `prefix_of` input ++ [v]) as Hask
    by (rewrite name_compare_refl; split; [done|apply parentName_prefix]).
  destruct (find_strategy (input ++ [v]) r) as [[x g]|]; [|by destruct (Hf _ Hin)].
  destruct Hf as (_ & [Hle _] & Hbest). specialize (Hbest _ Hin Hask). simpl in *. do 2 f_equal. apply name_compare_eq.
  destruct (name_compare x (input ++ [v])) eqn:E0; [done| |done]. by apply name_compare_Gt in E0.
Qed.

(** An instance that is created has a name of its own type: the name finds the
    registered type that the instance was created from, so that comparing types
    by instance names is right. This is for types whose names are the given name
    and a version, and constructors that take no parameters. *)
Theorem created_type_roundtrip input r s iname : reg_sorted r -> typeOf input r = Some s ->
  (forall x f, (x, f) ∈ r -> f = plainConstructor x /\ exists p v, x = p ++ [v] /\ isVersion v = true /\ p <> []) ->
  (version (parseInstanceName input) = None -> length s = Datatypes.S (length input)) ->
  create input r = Some (Instance iname) -> typeOf iname r = Some s.
Proof.
  intros Hs Ht Hr Hlen. pose proof (find_strategy_ok input r Hs) as Hf. unfold typeOf, create in *.
  destruct (find_strategy input r) as [[x f]|] eqn:Ef; [|done]. simpl in Ht. injection Ht as ->. destruct Hf as (Hin & Hask & _).
  destruct (Hr s f Hin) as (-> & p & v & Hsv & Hv & Hp). unfold plainConstructor, makeInstanceName.
  subst s. rewrite last_snoc. cbn [mbind option_bind]. rewrite Hv.
  destruct (parameters (parseInstanceName input)); [|done].
  destruct (existsb isVersion input) eqn:Eex.
  - destruct (version (parseInstanceName input)) as [v0|]; [destruct (toVersion v0 =? toVersion v); [|done]|];
      case_bool_decide; try done; intros [= <-]; by rewrite Ef.
  - assert (parseInstanceName input = mkParsed input None []) as Hparse by (by apply parse_loop_unversioned).
    unfold asks_for in Hask. rewrite Hparse in *. simpl in Hask, Hlen. specialize (Hlen eq_refl). destruct Hask as [Hne Hpre].
    simpl. case_bool_decide; [done|]. intros [= <-].
    assert (p = input) as ->.
    { rewrite length_app in Hlen. simpl in Hlen. destruct Hpre as [k Hk].
      apply (f_equal (take (length input))) in Hk. rewrite take_app_length in Hk.
      rewrite take_app_le in Hk by lia. rewrite take_ge in Hk by lia. done. }
    apply (typeOf_registered (input ++ [v]) (plainConstructor (input ++ [v])) r v input); done.
Qed.

(** Plain constructors give names that are not empty. *)
Lemma plain_registry_ok r : (forall x f, (x, f) ∈ r -> f = plainConstructor x) -> forall n, create n r <> None.
Proof.
  intros Hr n. unfold create. destruct (find_strategy n r) as [[x f]|] eqn:Ef; [|done].
  assert ((x, f) ∈ r) as Hin.
  { clear Hr. unfold find_strategy in Ef. assert (forall y a b, reg_lower_bound y r = (a, b) -> r = a ++ b) as Hlb.
    { clear. induction r as [|[z g] r IH]; simpl; intros y a b; [by intros [= <- <-]|].
      destruct (name_compare z y); try (by intros [= <- <-]).
      destruct (reg_lower_bound y r) as [a' b'] eqn:E0. intros [= <- <-]. simpl. by rewrite (IH y a' b' E0). }
    destruct (version _) as [v|].
    - destruct (reg_lower_bound (strategyName (parseInstanceName n)) r) as [a [|p b]] eqn:Elb; simpl in Ef; [done|].
      case_match; [|done]. injection Ef as ->. rewrite (Hlb _ _ _ Elb). apply elem_of_app. right. left.
    - case_bool_decide; [done|]. destruct (reg_lower_bound (getSuccessor _) r) as [a b] eqn:Elb. simpl in Ef.
      destruct (last a) as [p|] eqn:El; [|done]. simpl in Ef. case_match; [|done]. injection Ef as ->.
      rewrite (Hlb _ _ _ Elb). apply elem_of_app. left. by apply list_elem_of_last_Some in El || (apply last_Some in El as [l ->]; apply elem_of_app; right; left). }
  rewrite (Hr x f Hin). unfold plainConstructor, makeInstanceName.
  destruct (parameters _); [|done].
  assert (forall v, (if existsb isVersion n then n else n ++ [v]) <> []) as Hne.
  { intros v. destruct (existsb isVersion n) eqn:E0; [by intros ->|by destruct n]. }
  destruct (last x) as [v|]; [|by destruct (version _)]. destruct (version _) as [v'|]; [destruct (toVersion v' =? toVersion v); [|done]|];
    simpl; (destruct (isVersion v); [|done]); by rewrite bool_decide_false.
Qed.

End Registry.
Arguments Registry : clear implicits.

(** ** A concrete registry *)
Module RegistryExamples.

(** Components from 100 on are versions. *)
#[export] Instance exampleVersions : NameVersions Z := {| isVersion c := 100 <=? c; toVersion c := c - 100 |}.

Lemma example_next c d : let c' := if c <? 0 then c - 1 else c + 1 in
  comp_compare c d <> Gt /\ comp_compare d c' = Lt <-> c = d.
Proof.
  simpl. unfold example_compare. destruct (Z.ltb_spec c 0).
  - rewrite (proj2 (Z.ltb_lt (c - 1) 0)) by lia. destruct (Z.ltb_spec d 0); [|split; [by intros [_ ?]|lia]].
    rewrite Z.compare_ngt_iff, Z.compare_lt_iff. lia.
  - destruct (Z.ltb_spec d 0); [split; [by intros [[] _]|lia]|]. rewrite (proj2 (Z.ltb_ge (c + 1) 0)) by lia.
    rewrite Z.compare_ngt_iff, Z.compare_lt_iff. lia.
Qed.

Lemma prefix_cons_iff (c d : Z) (p x : list Z) : c :: p `prefix_of` d :: x <-> c = d /\ p `prefix_of` x.
Proof.
  split; [intros Hp; split; [by eapply prefix_cons_inv_1|by eapply prefix_cons_inv_2]|]. intros [-> ?]. by apply prefix_cons.
Qed.

#[export] Instance example_NameSuccessor : NameSuccessor Z.
Proof.
  intros n x Hne. destruct n as [|c p _] using rev_ind; [done|]. unfold getSuccessor. simpl. rewrite last_snoc, length_app, Nat.add_sub.
  rewrite take_app_length. pose proof (example_next c) as Hc. set (c' := if c <? 0 then c - 1 else c + 1) in *. simpl in Hc. clearbody c'.
  revert x. induction p as [|a p IH]; intros [|d x]; simpl.
  - split; [by intros [[] _]|by intros [k ?]].
  - specialize (Hc d). rewrite prefix_cons_iff. destruct (example_compare c d) eqn:E1; destruct (example_compare d c') eqn:E2;
      simpl in *; (split; [intros [H1 H2]|intros [<- _]]); try (destruct x; done); try (split; [|apply prefix_nil]); try apply Hc; try done;
      destruct (proj2 Hc eq_refl); try done; split; destruct x; done.
  - split; [by intros [[] _]|by intros [k ?]].
  - rewrite prefix_cons_iff. destruct (example_compare a d) eqn:E1.
    + assert (a = d) as -> by (by apply (comp_compare_eq a d)). pose proof (comp_compare_refl d) as Hr. simpl in Hr. rewrite Hr, IH; [|by destruct p]. split; [done|by intros [_ ?]].
    + pose proof (comp_compare_antisym a d) as Ha. simpl in Ha. rewrite E1 in Ha. rewrite Ha. simpl. split; [by intros [_ ?]|].
      intros [-> _]. pose proof (comp_compare_refl d) as Hr. simpl in Hr. congruence.
    + split; [by intros [? _]|]. intros [-> _]. pose proof (comp_compare_refl d) as Hr. simpl in Hr. congruence.
Qed.

Definition best1 : list Z := [7; 1; 101].
Definition best5 : list Z := [7; 1; 105].
Definition multi3 : list Z := [7; 2; 103].

Definition reg0 : Registry Z := [(best1, plainConstructor best1); (best5, plainConstructor best5); (multi3, plainConstructor multi3)].

Example registered :
  (r ← registerType best5 (plainConstructor best5) []; r ← registerType multi3 (plainConstructor multi3) r;
   registerType best1 (plainConstructor best1) r) = Some reg0.
Proof. reflexivity. Qed.

Lemma reg0_sorted : reg_sorted reg0.
Proof. unfold reg_sorted. repeat constructor. Qed.

(** The highest version when none is given, or the next version above. *)
Example finds : typeOf [7; 1] reg0 = Some best5 /\ typeOf [7; 1; 102] reg0 = Some best5 /\ typeOf [7; 1; 106] reg0 = None.
Proof. split_and!; reflexivity. Qed.

Example find_strategy_correct_witness : exists f, (best5, f) ∈ reg0 /\ asks_for [7; 1] best5.
Proof.
  pose proof (find_strategy_correct [7; 1] reg0 reg0_sorted) as Hf.
  assert (find_strategy [7; 1] reg0 = Some (best5, plainConstructor best5)) as Hv by reflexivity.
  rewrite Hv in Hf. destruct Hf as (Hin & Ha & _). exists (plainConstructor best5). split; [exact Hin|exact Ha].
Defined.

Lemma reg0_plain x f : (x, f) ∈ reg0 -> f = plainConstructor x /\ exists p v, x = p ++ [v] /\ isVersion v = true /\ p <> [].
Proof.
  unfold reg0. rewrite !elem_of_cons, elem_of_nil. intros [[= -> ->]|[[= -> ->]|[[= -> ->]|[]]]]; (split; [reflexivity|]).
  - by exists [7; 1], 101.
  - by exists [7; 1], 105.
  - by exists [7; 2], 103.
Qed.

Example created_type_roundtrip_witness : typeOf [7; 1; 105] reg0 = Some best5.
Proof.
  apply (created_type_roundtrip [7; 1] reg0 best5 [7; 1; 105] reg0_sorted); [reflexivity|exact reg0_plain|reflexivity|reflexivity].
Defined.

(** A name that is shorter than a type's name without its version: the instance
    that is created of it has a name that is not of its type. *)
Example short_name_other_type :
  typeOf [7] reg0 = Some multi3 /\ create [7] reg0 = Some (Instance [7; 103]) /\ typeOf [7; 103] reg0 = None.
Proof. split_and!; reflexivity. Qed.

End RegistryExamples.
