(* ===== verification/StrategyChoice.v ===== *)
(** * Strategy choice

    Models [daemon/table/strategy-choice.hpp/.cpp], [strategy-choice-entry.*],
    [strategy-info-host.cpp] and the access control of
    [measurements-accessor.hpp/.cpp]: which strategy is in charge of a name, and
    how the items that a strategy has placed on PIT and measurements entries are
    removed when another strategy takes over. A strategy object is a number, for
    its address, with its instance name. *)

From S2P Require Import Prelude Ndn Hashtable NameTree NameTreeEnum Fib Pit Measurements StrategyRegistry.
Local Open Scope Z_scope.

Record StrategyInstance {C : Type} := mkStrategy { s_address : Z; s_instanceName : list C }.
Arguments StrategyInstance : clear implicits.
Arguments mkStrategy {_}.

(** [m_strategy] is null until it is set. *)
Record StrategyChoiceEntry {C : Type} := mkStrategyChoiceEntry { sc_prefix : list C; sc_strategy : option (StrategyInstance C) }.
Arguments StrategyChoiceEntry : clear implicits.
Arguments mkStrategyChoiceEntry {_}.

Section StrategyChoice.
Context {C I : Type} `{Packets C} `{!NameOrder C} `{!NameVersions C}.
Notation Name := (list C).
Notation MeasurementsEntry := (MeasurementsEntry C I).
Notation StrategyInstance := (StrategyInstance C).
Notation StrategyChoiceEntry := (StrategyChoiceEntry C).
Notation Entry := (Entry C (FibEntry C) (PitEntry C) MeasurementsEntry StrategyChoiceEntry).
Context {T : Type} `{!NodeTable C Entry newEntry T}.
Variable registry : Registry C.
Implicit Types (n name prefix : Name) (t : T) (m : gmap Name Entry) (e : Entry) (s : StrategyInstance).

(** [sc_nextAddress] is where the next strategy object will be. *)
Record StrategyChoice := mkStrategyChoice { sc_tree : T; sc_nItems : Z; sc_nextAddress : Z }.
Implicit Types st : StrategyChoice.

Inductive InsertStatus := OK | NOT_REGISTERED | EXCEPTION | DEPTH_EXCEEDED.
Definition getStatusCode (r : InsertStatus) : Z :=
  match r with OK => 200 | NOT_REGISTERED => 404 | EXCEPTION => 409 | DEPTH_EXCEEDED => 414 end.

Definition nteHasStrategyChoiceEntry e : bool := is_set (m_strategyChoiceEntry e).

(** [findEffectiveStrategyImpl]; [None] is a failed assertion. *)
Definition effective (match_ : option (option Entry)) : option StrategyInstance :=
  nte ← match_; e ← nte; sc ← m_strategyChoiceEntry e; sc_strategy sc.

Definition findEffectiveStrategy prefix t : option StrategyInstance :=
  effective (findLongestPrefixMatch prefix nteHasStrategyChoiceEntry t).
Definition findEffectiveStrategy_pit (key : Name * Selectors) t : option StrategyInstance :=
  effective (findLongestPrefixMatch_pit key.1 (nteName key.1) nteHasStrategyChoiceEntry t).
Definition findEffectiveStrategy_measurements n t : option StrategyInstance :=
  effective (findLongestPrefixMatch_entry n nteHasStrategyChoiceEntry t).

(** [StrategyInfoHost::clearStrategyInfo] on the hosts of a name tree entry. *)
Definition clear_in (r : InRecord C) : InRecord C :=
  mkInRecord (in_face r) (in_lastNonce r) (in_lastRenewed r) (in_expiry r) (in_interest r) ∅.
Definition clear_out (r : OutRecord) : OutRecord :=
  mkOutRecord (out_face r) (out_lastNonce r) (out_lastRenewed r) (out_expiry r) (out_incomingNack r) ∅.
Definition clear_pit (pe : PitEntry C) : PitEntry C :=
  mkPitEntry (m_interest pe) (clear_in <$> m_inRecords pe) (clear_out <$> m_outRecords pe) (isSatisfied pe)
    (dataFreshnessPeriod pe) (expiryTimer pe) ∅.

Definition clearStrategyInfo e : Entry :=
  setMeasurementsEntry (set_me_info ∅ <$> m_measurementsEntry e) (set_pitEntries (clear_pit <$> m_pitEntries e) e).

(** The selector of [changeStrategy]: whether the entry and its children are
    covered by the changing entry of [root]. *)
Definition covered (root : Name) e : bool * bool :=
  if bool_decide (m_name e = root) then (true, true)
  else if nteHasStrategyChoiceEntry e then (false, false)
  else (true, true).

Definition changeStrategy (root : Name) (old new : StrategyInstance) t : option T :=
  if areSameType (s_instanceName old) (s_instanceName new) registry then Some t
  else
    _ ← deref root t;
    partialForEach (covered root) (fun n t => nt_update n clearStrategyInfo t) root t.

Definition set_entry (x : option StrategyChoiceEntry) n t : T := nt_update n (setStrategyChoiceEntry x) t.

(** [None] when the name of the strategy is not registered, or its constructor
    throws: nothing catches it, and a null strategy cannot be used. *)
Definition setDefaultStrategy (strategyName : Name) st : option StrategyChoice :=
  c ← create strategyName registry;
  match c with
  | Instance iname =>
      '(t, nte) ← lookup [] 0 (sc_tree st);
      let entry := mkStrategyChoiceEntry [] (Some (mkStrategy (sc_nextAddress st) iname)) in
      Some (mkStrategyChoice (set_entry (Some entry) nte t) (u64 (sc_nItems st + 1)) (sc_nextAddress st + 1))
  | _ => None
  end.

Definition sc_insert prefix (strategyName : Name) st : option (StrategyChoice * InsertStatus) :=
  if (getMaxDepth <? length prefix)%nat then Some (st, DEPTH_EXCEEDED)
  else
    c ← create strategyName registry;
    match c with
    | InvalidArgument => Some (st, EXCEPTION)
    | NotFound => Some (st, NOT_REGISTERED)
    | Instance iname =>
        let strategy := mkStrategy (sc_nextAddress st) iname in
        '(t, nte) ← lookup prefix (length prefix) (sc_tree st);
        e ← deref nte t;
        match m_strategyChoiceEntry e with
        | Some entry =>
            oldStrategy ← sc_strategy entry;
            if bool_decide (s_instanceName oldStrategy = iname)
            then Some (mkStrategyChoice t (sc_nItems st) (sc_nextAddress st + 1), OK)
            else
              t ← changeStrategy nte oldStrategy strategy t;
              Some (mkStrategyChoice (set_entry (Some (mkStrategyChoiceEntry (sc_prefix entry) (Some strategy))) nte t)
                      (sc_nItems st) (sc_nextAddress st + 1), OK)
        | None =>
            oldStrategy ← findEffectiveStrategy prefix t;
            let t := set_entry (Some (mkStrategyChoiceEntry prefix None)) nte t in
            t ← changeStrategy nte oldStrategy strategy t;
            Some (mkStrategyChoice (set_entry (Some (mkStrategyChoiceEntry prefix (Some strategy))) nte t)
                    (u64 (sc_nItems st + 1)) (sc_nextAddress st + 1), OK)
        end
    end.

(** [None] for the empty prefix, and where an assertion fails. *)
Definition sc_erase prefix st : option StrategyChoice :=
  if bool_decide (prefix = []) then None
  else
    match findExactMatch prefix (length prefix) (sc_tree st) with
    | None => Some st
    | Some nte =>
        match m_strategyChoiceEntry nte with
        | None => Some st
        | Some entry =>
            oldStrategy ← sc_strategy entry;
            parentStrategy ← findEffectiveStrategy (parentName prefix) (sc_tree st);
            t ← changeStrategy (m_name nte) oldStrategy parentStrategy (sc_tree st);
            '(t, _) ← eraseIfEmpty (m_name nte) true (set_entry None (m_name nte) t);
            Some (mkStrategyChoice t (u64 (sc_nItems st - 1)) (sc_nextAddress st))
        end
    end.

(** The instance name at an exact match. The outer [None] is a failed assertion. *)
Definition sc_get prefix st : option (option Name) :=
  match findExactMatch prefix (length prefix) (sc_tree st) ≫= m_strategyChoiceEntry with
  | None => Some None
  | Some entry => s ← sc_strategy entry; Some (Some (s_instanceName s))
  end.

(** The commands of [StrategyChoiceManager]: the status code, and the instance
    name in the body of the response. *)
Definition mgr_setStrategy prefix (strategyName : Name) st : option (StrategyChoice * (Z * option Name)) :=
  '(st, res) ← sc_insert prefix strategyName st;
  match res with
  | OK => entry ← sc_get prefix st; instanceName ← entry; Some (st, (200, Some instanceName))
  | _ => Some (st, (getStatusCode res, None))
  end.

Definition mgr_unsetStrategy prefix st : option (StrategyChoice * (Z * option Name)) :=
  st ← sc_erase prefix st; Some (st, (200, None)).

(** The prefixes with their instance names, in the order of the enumeration. *)
Definition listChoices st : list (Name * option Name) :=
  omap (fun e => (fun sc => (sc_prefix sc, s_instanceName <$> sc_strategy sc)) <$> m_strategyChoiceEntry e)
    (fullEnumerate nteHasStrategyChoiceEntry (sc_tree st)).

(** [MeasurementsAccessor::filter] of a strategy at [self]: null when another
    strategy is in charge of the entry. *)
Definition filter_entry (self : Z) (entry : option Name) t : option (option Name) :=
  match entry with
  | None => Some None
  | Some n => s ← findEffectiveStrategy_measurements n t; Some (if s_address s =? self then Some n else None)
  end.

Definition accessor_get (self now : Z) name (ms : Measurements T) : option (Measurements T * option Name) :=
  '(ms, n) ← ms_get now name ms; r ← filter_entry self (Some n) (ms_tree ms); Some (ms, r).
Definition accessor_get_fib (self now : Z) prefix (ms : Measurements T) : option (Measurements T * option Name) :=
  '(ms, n) ← ms_get_fib now prefix ms; r ← filter_entry self (Some n) (ms_tree ms); Some (ms, r).
Definition accessor_get_pit (self now : Z) (key : Name * Selectors) (ms : Measurements T) : option (Measurements T * option Name) :=
  '(ms, n) ← ms_get_pit now key ms; r ← filter_entry self (Some n) (ms_tree ms); Some (ms, r).
Definition accessor_getParent (self now : Z) (child : Name) (ms : Measurements T) : option (Measurements T * option Name) :=
  '(ms, n) ← ms_getParent now child ms; r ← filter_entry self n (ms_tree ms); Some (ms, r).
Definition accessor_findExactMatch (self : Z) name (ms : Measurements T) : option (option Name) :=
  filter_entry self (me_name <$> ms_findExactMatch name ms) (ms_tree ms).
Definition accessor_findLongestPrefixMatch (self : Z) name (pred : MeasurementsEntry -> bool) (ms : Measurements T) : option (option Name) :=
  me ← ms_findLongestPrefixMatch name pred ms; filter_entry self (me_name <$> me) (ms_tree ms).

(** ** Who is in charge of a name *)

Section InCharge.
Context {V : Type}.
Implicit Types v : gmap Name V.

(** The choice for the longest prefix. *)
Definition charge v n : option V := snd <$> abs_match v n (Datatypes.S (Nat.min (length n) getMaxDepth)).

(** [n] is under [p], and no choice below [p] has precedence. *)
Definition covers v (p n : Name) : Prop := p `prefix_of` n /\ forall k, p `prefix_of` k -> k `prefix_of` n -> k <> p -> v !! k = None.

Lemma abs_match_skip v n a b : (a <= b)%nat -> (forall j, (a <= j < b)%nat -> v !! take j n = None) -> abs_match v n b = abs_match v n a.
Proof.
  intros Hab. induction Hab as [|b Hab IH]; intros Hn; [done|]. simpl. rewrite (Hn b) by lia. apply IH. intros; apply Hn; lia.
Qed.

Lemma abs_match_ext v v' n n' i : (forall j, (j < i)%nat -> take j n = take j n' /\ v !! take j n = v' !! take j n') ->
  abs_match v n i = abs_match v' n' i.
Proof.
  induction i as [|i IH]; intros Hn; [done|]. simpl. destruct (Hn i) as [Ht Hv]; [lia|]. rewrite Hv, Ht.
  rewrite IH; [done|]. intros j Hj. apply Hn. lia.
Qed.

Lemma covers_take v p n j : covers v p n -> (length p < j <= length n)%nat -> v !! take j n = None.
Proof.
  intros [[l ->] Hc] Hj. rewrite length_app in Hj. apply Hc.
  - rewrite take_app_ge by lia. by eexists.
  - exists (drop j (p ++ l)). by rewrite take_drop.
  - intros Ht%(f_equal length). rewrite length_take, length_app in Ht. lia.
Qed.

Lemma prefix_take_length (p n : Name) : p `prefix_of` n -> take (length p) n = p.
Proof. intros [l ->]. apply take_app_length. Qed.

Lemma covers_refl v p : covers v p p.
Proof. split; [done|]. intros k ?? Hne. destruct Hne. by apply (anti_symm prefix). Qed.

Lemma covers_iff v p n : covers v p n <->
  p `prefix_of` n /\ Forall (fun j => v !! take j n = None) (seq (Datatypes.S (length p)) (length n - length p)).
Proof.
  split; intros Hc.
  - split; [apply Hc|]. apply Forall_forall. intros j Hj%elem_of_seq. eapply covers_take; [done|]. lia.
  - destruct Hc as [Hp Hall]. rewrite Forall_forall in Hall. split; [done|]. intros k Hpk Hkn Hne.
    rewrite <-(prefix_take_length k n Hkn). apply Hall, elem_of_seq.
    apply prefix_length in Hkn. pose proof (prefix_length _ _ Hpk).
    assert (length p <> length k); [|lia]. intros He. apply Hne. destruct Hpk as [l ->]. rewrite length_app in He.
    destruct l; [by rewrite app_nil_r|simpl in He; lia].
Qed.

#[global] Instance covers_dec v p n : Decision (covers v p n).
Proof.
  refine (cast_if (decide (p `prefix_of` n /\ Forall (fun j => v !! take j n = None) (seq (Datatypes.S (length p)) (length n - length p)))));
    by rewrite covers_iff.
Defined.

Lemma charge_covers v p n : covers v p n -> (length n <= getMaxDepth)%nat -> is_Some (v !! p) -> charge v n = v !! p.
Proof.
  intros Hc Hl [x Hx]. pose proof Hc as [Hp _]. apply prefix_length in Hp as Hlen. unfold charge. rewrite Nat.min_l by done.
  rewrite (abs_match_skip v n (Datatypes.S (length p))) by first [lia|intros; eapply covers_take; [done|lia]].
  simpl. rewrite (prefix_take_length p n Hp), Hx. done.
Qed.

Lemma charge_above v p n : covers v p n -> (length n <= getMaxDepth)%nat -> v !! p = None ->
  charge v n = charge v p /\ (p <> [] -> charge v n = charge v (parentName p)).
Proof.
  intros Hc Hl Hx. pose proof Hc as [Hp _]. apply prefix_length in Hp as Hlen.
  assert (length (parentName p) = pred (length p)) as Hpl by (unfold parentName; rewrite length_take; lia).
  unfold charge. rewrite !Nat.min_l by lia.
  assert (forall j, (j <= length p)%nat -> take j n = take j p) as Htake.
  { intros j Hj. destruct Hp as [l ->]. by rewrite take_app_le. }
  rewrite (abs_match_skip v n (length p)).
  2: lia. 2: { intros j Hj. destruct (decide (j = length p)) as [->|]; [by rewrite (prefix_take_length p n Hp)|].
    eapply covers_take; [done|lia]. }
  split.
  - rewrite (abs_match_skip v p (length p)) by first [lia|intros j Hj; rewrite take_ge by lia; done].
    f_equal. apply abs_match_ext. intros j Hj. rewrite Htake by lia. done.
  - intros Hne. rewrite Hpl, (Nat.succ_pred_pos (length p)) by (destruct p; [done|simpl; lia]). unfold parentName.
    f_equal. apply abs_match_ext. intros j Hj. rewrite take_take, Nat.min_l, Htake by lia. done.
Qed.

Lemma charge_uncovered v v' p n : ~ covers v p n -> (length n <= getMaxDepth)%nat -> (forall k, k <> p -> v' !! k = v !! k) ->
  charge v' n = charge v n.
Proof.
  intros Hnc Hl Hv. unfold charge. f_equal. rewrite Nat.min_l by done. destruct (decide (p `prefix_of` n)) as [Hp|Hp].
  2: { apply abs_match_ext. intros j Hj. split; [done|]. apply Hv. intros Hk. apply Hp. rewrite <-Hk.
    exists (drop j n). by rewrite take_drop. }
  assert (exists j, (length p < j <= length n)%nat /\ is_Some (v !! take j n)) as (j & Hj & Hs).
  { rewrite covers_iff in Hnc. assert (~ Forall (fun j => v !! take j n = None) (seq (Datatypes.S (length p)) (length n - length p))) as He
      by (intros ?; by apply Hnc).
    apply not_Forall_Exists in He; [|solve_decision]. apply Exists_exists in He as (j & Hj%elem_of_seq & Hs).
    exists j. split; [lia|by apply not_eq_None_Some]. }
  assert (forall i, (j <= i <= length n)%nat -> abs_match v' n (Datatypes.S i) = abs_match v n (Datatypes.S i)) as Hi.
  { intros i Hi. replace i with (j + (i - j))%nat by lia. induction (i - j)%nat as [|d IH].
    all: cbn [abs_match]; rewrite Hv by (intros Hk%(f_equal length); rewrite length_take in Hk; lia).
    - rewrite Nat.add_0_r. by destruct Hs as [x ->].
    - case_match; [done|]. rewrite Nat.add_succ_r. apply IH; lia. }
  apply Hi. lia.
Qed.
End InCharge.

(** ** The table as a map *)

Definition sc_at n m : option StrategyChoiceEntry := (tables_at n m).2.
Definition hosts_at n m : list (PitEntry C) * option MeasurementsEntry := ((tables_at n m).1.1.2, (tables_at n m).1.2).
Definition fib_at n m : option (FibEntry C) := (tables_at n m).1.1.1.

Definition cleared (h : list (PitEntry C) * option MeasurementsEntry) := (clear_pit <$> h.1, set_me_info ∅ <$> h.2).

Definition sc_view m : gmap Name StrategyInstance := omap (fun e => m_strategyChoiceEntry e ≫= sc_strategy) m.
Definition sc_map st : gmap Name StrategyInstance := sc_view (nt_entries (sc_tree st)).

Definition choices_ok m : Prop := forall n sc, sc_at n m = Some sc -> sc_prefix sc = n /\ is_Some (sc_strategy sc).

Definition sc_ok st : Prop :=
  nt_ok (sc_tree st) /\ nt_wf (nt_entries (sc_tree st)) /\ choices_ok (nt_entries (sc_tree st)) /\
  is_Some (sc_map st !! []) /\ sc_nItems st = u64 (Z.of_nat (size (sc_map st))).

Lemma tables_split n m : tables_at n m = (fib_at n m, (hosts_at n m).1, (hosts_at n m).2, sc_at n m).
Proof. unfold fib_at, hosts_at, sc_at. by destruct (tables_at n m) as [[[??]?]?]. Qed.

Lemma sc_at_lookup m n e : m !! n = Some e -> sc_at n m = m_strategyChoiceEntry e.
Proof. unfold sc_at, tables_at. by intros ->. Qed.

Lemma sc_view_lookup m n : sc_view m !! n = sc_at n m ≫= sc_strategy.
Proof. unfold sc_view, sc_at, tables_at. rewrite lookup_omap. by destruct (m !! n). Qed.

Lemma sc_view_ext m m' : (forall n, sc_at n m' = sc_at n m) -> sc_view m' = sc_view m.
Proof. intros Heq. apply map_eq. intros n. by rewrite !sc_view_lookup, Heq. Qed.

Lemma view_None m n : choices_ok m -> sc_view m !! n = None <-> sc_at n m = None.
Proof.
  intros Hc. rewrite sc_view_lookup. destruct (sc_at n m) as [sc|] eqn:E0; [|done].
  destruct (Hc n sc E0) as [_ [s Hs]]. simpl. rewrite Hs. done.
Qed.

(** A longest prefix match in the tree is one in the map. *)
Lemma effective_down m name i : choices_ok m ->
  effective (Some (find_if nteHasStrategyChoiceEntry (down m name i))) = snd <$> abs_match (sc_view m) name i.
Proof.
  intros Hc. induction i as [|i IH]; [done|]. cbn [down abs_match]. rewrite sc_view_lookup.
  destruct (m !! take i name) as [e|] eqn:He.
  - rewrite (sc_at_lookup _ _ _ He). simpl. unfold nteHasStrategyChoiceEntry at 1.
    destruct (m_strategyChoiceEntry e) as [sc|] eqn:Esc; [|exact IH]. simpl. rewrite Esc. simpl.
    destruct (Hc (take i name) sc) as [_ [s ->]]; [by rewrite (sc_at_lookup _ _ _ He)|done].
  - unfold sc_at, tables_at. rewrite He. exact IH.
Qed.

Lemma findEffectiveStrategy_ok name t : nt_ok t -> choices_ok (nt_entries t) ->
  findEffectiveStrategy name t = charge (sc_view (nt_entries t)) name.
Proof. intros Hok Hc. unfold findEffectiveStrategy. rewrite findLongestPrefixMatch_ok by done. by apply effective_down. Qed.

Lemma findEffectiveStrategy_pit_ok key t : nt_ok t -> nt_wf (nt_entries t) -> choices_ok (nt_entries t) ->
  is_Some (nt_entries t !! nteName key.1) -> findEffectiveStrategy_pit key t = charge (sc_view (nt_entries t)) key.1.
Proof.
  intros Hok Hwf Hc Hex. unfold findEffectiveStrategy_pit. destruct (nteDepth_le key.1) as [Hd _].
  unfold nteName in *. rewrite findLPM_pit_ok by done. rewrite findLongestPrefixMatch_ok by done. by apply effective_down.
Qed.

Lemma findEffectiveStrategy_measurements_ok n t : nt_ok t -> nt_wf (nt_entries t) -> choices_ok (nt_entries t) ->
  is_Some (nt_entries t !! n) -> findEffectiveStrategy_measurements n t = charge (sc_view (nt_entries t)) n.
Proof.
  intros Hok Hwf Hc Hex. unfold findEffectiveStrategy_measurements. rewrite findLPM_entry_ok, findLongestPrefixMatch_ok by done. by apply effective_down.
Qed.

Lemma charge_root {V} (v : gmap Name V) n : is_Some (v !! []) -> is_Some (charge v n).
Proof.
  intros [x Hx]. unfold charge. apply fmap_is_Some. induction (Nat.min (length n) getMaxDepth) as [|i IH].
  - cbn [abs_match]. rewrite take_0, Hx. by eexists.
  - cbn [abs_match] in *. destruct (v !! take (Datatypes.S i) n); [by eexists|exact IH].
Qed.

(** ** Clearing *)

Lemma clear_keeps : keeps_links clearStrategyInfo.
Proof. done. Qed.

Lemma clear_shape root n t : nt_ok t -> same_shape (covered root) t (nt_update n clearStrategyInfo t).
Proof.
  intros Hok. destruct (nt_update_spec t n clearStrategyInfo Hok) as [Hok' He]. split_and!; [done|done| |].
  - rewrite !nt_size_spec, He by done. f_equal. rewrite <-!size_dom. by rewrite dom_alter_L.
  - intros k. rewrite He, lookup_alter. case_decide; subst; by destruct (nt_entries t !! _).
Qed.

Lemma clear_all_ok l t : NoDup l -> nt_ok t -> nt_wf (nt_entries t) ->
  let t' := foldl (fun t n => nt_update n clearStrategyInfo t) t l in
  nt_ok t' /\ nt_wf (nt_entries t') /\
  forall n, nt_entries t' !! n = if decide (n ∈ l) then clearStrategyInfo <$> nt_entries t !! n else nt_entries t !! n.
Proof.
  intros Hnd Hok Hwf. revert t Hok Hwf. induction Hnd as [|x l Hx Hnd IH]; intros t Hok Hwf; simpl; [done|].
  destruct (update_ok t x clearStrategyInfo Hok Hwf clear_keeps) as (Hok1 & Hwf1 & He1).
  destruct (IH _ Hok1 Hwf1) as (Hok2 & Hwf2 & He2). split_and!; [done|done|]. intros n. rewrite He2, He1, lookup_alter.
  destruct (decide (n ∈ l)) as [Hl|Hl]; destruct (decide (x = n)) as [->|Hne]; try done.
  - by rewrite decide_True by (by right).
  - by rewrite decide_True by left.
  - rewrite decide_False; [done|]. intros [?|?]%elem_of_cons; congruence.
Qed.

Lemma wanted_covers root n m : nt_wf m -> is_Some (m !! root) ->
  wanted (covered root) root n m <-> is_Some (m !! n) /\ root `prefix_of` n /\
    forall k, root `prefix_of` k -> k `prefix_of` n -> k <> root -> sc_at k m = None.
Proof.
  intros Hwf Hroot. assert (forall k e, m !! k = Some e -> k <> root ->
    covered root e = (negb (nteHasStrategyChoiceEntry e), negb (nteHasStrategyChoiceEntry e))) as Hcov.
  { intros k e He Hne. unfold covered. destruct (Hwf k e He) as (-> & _). rewrite bool_decide_false by done.
    by destruct (nteHasStrategyChoiceEntry e). }
  assert (forall k e, m !! k = Some e -> nteHasStrategyChoiceEntry e = false <-> sc_at k m = None) as Hsc.
  { intros k e He. rewrite (sc_at_lookup _ _ _ He). unfold nteHasStrategyChoiceEntry, is_set. by destruct (m_strategyChoiceEntry e). }
  unfold wanted. split.
  - intros (Hp & (e & He & Hq) & Hall). split_and!; [by exists e|done|]. intros k Hk1 Hk2 Hne.
    destruct (wf_prefix m n k Hwf (mk_is_Some _ _ He) Hk2) as [ek Hek]. apply (Hsc k ek Hek).
    destruct (decide (k = n)) as [->|Hkn].
    + simplify_eq. rewrite (Hcov n e He Hne) in Hq. by apply negb_true_iff.
    + specialize (Hall k ek Hk1 Hk2 Hkn Hek). rewrite (Hcov k ek Hek Hne) in Hall. by apply negb_true_iff.
  - intros ([e He] & Hp & Hall).
    assert (forall k ek, root `prefix_of` k -> k `prefix_of` n -> m !! k = Some ek -> covered root ek = (true, true)) as Hct.
    { intros k ek Hk1 Hk2 Hek. destruct (decide (k = root)) as [->|Hne].
      - unfold covered. destruct (Hwf root ek Hek) as (-> & _). by rewrite bool_decide_true.
      - rewrite (Hcov k ek Hek Hne). by rewrite (proj2 (Hsc k ek Hek) (Hall k Hk1 Hk2 Hne)). }
    split_and!; [done|exists e; split; [done|by rewrite (Hct n e)]|]. intros k ek Hk1 Hk2 _ Hek. by rewrite (Hct k ek).
Qed.

(** What a change of the strategy of [root] clears: everything the choice of
    [root] is in charge of, when the type differs. *)
Lemma changeStrategy_ok root old new t : nt_ok t -> nt_wf (nt_entries t) -> is_Some (nt_entries t !! root) ->
  exists t', changeStrategy root old new t = Some t' /\ nt_ok t' /\ nt_wf (nt_entries t') /\
    (forall n, is_Some (nt_entries t' !! n) <-> is_Some (nt_entries t !! n)) /\
    forall n, sc_at n (nt_entries t') = sc_at n (nt_entries t) /\ fib_at n (nt_entries t') = fib_at n (nt_entries t) /\
      (root `prefix_of` n -> (forall k, root `prefix_of` k -> k `prefix_of` n -> k <> root -> sc_at k (nt_entries t) = None) ->
        hosts_at n (nt_entries t') =
          if areSameType (s_instanceName old) (s_instanceName new) registry then hosts_at n (nt_entries t) else cleared (hosts_at n (nt_entries t))) /\
      (~ (root `prefix_of` n /\ forall k, root `prefix_of` k -> k `prefix_of` n -> k <> root -> sc_at k (nt_entries t) = None) ->
        hosts_at n (nt_entries t') = hosts_at n (nt_entries t)).
Proof.
  intros Hok Hwf Hroot. unfold changeStrategy. destruct (areSameType _ _ _); [by exists t|].
  rewrite deref_spec by done. pose proof Hroot as [er Her]. rewrite Her. cbn [mbind option_bind].
  rewrite (partialForEach_ok (covered root) _ root t (clear_shape root) Hok Hwf), Her.
  destruct (clear_all_ok (preorder (covered root) root (nt_entries t)) t) as (Hok' & Hwf' & He'); [by apply preorder_NoDup|done|done|].
  set (t' := foldl _ _ _) in *. exists t'. split_and!; [done|done|done| |].
  - intros n. rewrite He'. case_decide; [|done]. by rewrite fmap_is_Some.
  - intros n. assert (tables_at n (nt_entries t') = if decide (n ∈ preorder (covered root) root (nt_entries t))
      then (fib_at n (nt_entries t), (cleared (hosts_at n (nt_entries t))).1, (cleared (hosts_at n (nt_entries t))).2, sc_at n (nt_entries t))
      else tables_at n (nt_entries t)) as Htab.
    { unfold cleared, hosts_at, fib_at, sc_at, tables_at. rewrite He'. case_decide; [|done]. by destruct (nt_entries t !! n). }
    assert (is_Some (nt_entries t !! n) \/ hosts_at n (nt_entries t) = ([], None)) as Hdom.
    { unfold hosts_at, tables_at. destruct (nt_entries t !! n); [left; by eexists|by right]. }
    destruct (decide _) as [Hd|Hd]; rewrite (elem_of_preorder _ _ Hwf root Hroot), (wanted_covers root n _ Hwf Hroot) in Hd.
    + assert (hosts_at n (nt_entries t') = cleared (hosts_at n (nt_entries t))) as Hh by (unfold hosts_at at 1; by rewrite Htab).
      split_and!; [unfold sc_at at 1; by rewrite Htab|unfold fib_at at 1; by rewrite Htab|done|]. intros Hnc. by destruct Hnc, Hd.
    + assert (hosts_at n (nt_entries t') = hosts_at n (nt_entries t)) as Hh by (unfold hosts_at; by rewrite Htab).
      split_and!; [unfold sc_at; by rewrite Htab|unfold fib_at; by rewrite Htab| |done].
      intros Hp Hk. rewrite Hh. destruct Hdom as [Hs|Hz]; [by destruct Hd|]. by rewrite Hz.
Qed.

Lemma set_entry_ok x n t : nt_ok t -> nt_wf (nt_entries t) -> is_Some (nt_entries t !! n) ->
  nt_ok (set_entry x n t) /\ nt_wf (nt_entries (set_entry x n t)) /\
  (forall k, is_Some (nt_entries (set_entry x n t) !! k) <-> is_Some (nt_entries t !! k)) /\
  forall k, sc_at k (nt_entries (set_entry x n t)) = (if decide (k = n) then x else sc_at k (nt_entries t)) /\
    fib_at k (nt_entries (set_entry x n t)) = fib_at k (nt_entries t) /\
    hosts_at k (nt_entries (set_entry x n t)) = hosts_at k (nt_entries t).
Proof.
  intros Hok Hwf [e He]. destruct (update_ok t n (setStrategyChoiceEntry x) Hok Hwf) as (Hok' & Hwf' & Hm); [done|].
  unfold set_entry. split_and!; [done|done|intros k; rewrite Hm; apply lookup_alter_is_Some|]. intros k.
  unfold sc_at, fib_at, hosts_at, tables_at. rewrite Hm, lookup_alter.
  destruct (decide (n = k)) as [<-|Hne]; [rewrite decide_True by done; by rewrite He|by rewrite decide_False by done].
Qed.

(** A step from one state to the next: the hosts of a name are cleared exactly
    when the type of the strategy in charge of it changes, and the FIB is left
    alone. *)
Definition hosts_follow m m' : Prop := forall n, (length n <= getMaxDepth)%nat ->
  fib_at n m' = fib_at n m /\
  exists s s', charge (sc_view m) n = Some s /\ charge (sc_view m') n = Some s' /\
    hosts_at n m' = if areSameType (s_instanceName s) (s_instanceName s') registry then hosts_at n m else cleared (hosts_at n m).

Lemma same_type_refl a : areSameType a a registry = true.
Proof. by apply bool_decide_eq_true. Qed.

Lemma hosts_follow_refl m m' : is_Some (sc_view m !! []) -> (forall n, tables_at n m' = tables_at n m) -> hosts_follow m m'.
Proof.
  intros Hroot Htab n _. assert (sc_view m' = sc_view m) as Hv by (apply sc_view_ext; intros k; unfold sc_at; by rewrite Htab).
  split; [unfold fib_at; by rewrite Htab|]. destruct (charge_root (sc_view m) n Hroot) as [s Hs]. exists s, s.
  rewrite Hv, same_type_refl. split_and!; [done|done|]. unfold hosts_at. by rewrite Htab.
Qed.

(** The change of the choice of [p], from the strategy [old] that was in charge
    of it to [new]. *)
Lemma hosts_follow_change p old new m m' :
  is_Some (sc_view m !! []) -> is_Some (sc_view m' !! []) -> choices_ok m ->
  (forall k, k <> p -> sc_view m' !! k = sc_view m !! k) ->
  charge (sc_view m) p = Some old -> charge (sc_view m') p = Some new ->
  (forall n, fib_at n m' = fib_at n m) ->
  (forall n, p `prefix_of` n -> (forall k, p `prefix_of` k -> k `prefix_of` n -> k <> p -> sc_at k m = None) ->
     hosts_at n m' = if areSameType (s_instanceName old) (s_instanceName new) registry then hosts_at n m else cleared (hosts_at n m)) ->
  (forall n, ~ (p `prefix_of` n /\ forall k, p `prefix_of` k -> k `prefix_of` n -> k <> p -> sc_at k m = None) ->
     hosts_at n m' = hosts_at n m) ->
  hosts_follow m m'.
Proof.
  intros Hroot Hroot' Hch Hv Hold Hnew Hfib Hyes Hno n Hl. split; [done|].
  assert (forall k, sc_at k m = None <-> sc_view m !! k = None) as Hsc by (intros k; by rewrite (view_None m k Hch)).
  destruct (decide (covers (sc_view m) p n)) as [Hc|Hc].
  - assert (covers (sc_view m') p n) as Hc' by (destruct Hc as [Hp Hk]; split; [done|]; intros k ???; rewrite Hv; auto).
    assert (forall v : gmap Name StrategyInstance, covers v p n -> charge v n = charge v p) as Hup.
    { intros v Hcv. assert (length p <= getMaxDepth)%nat by (pose proof (prefix_length _ _ (proj1 Hcv)); lia).
      destruct (v !! p) as [x|] eqn:Hx; [|by apply charge_above].
      rewrite (charge_covers v p n), (charge_covers v p p) by (done || apply covers_refl || by exists x). done. }
    exists old, new. rewrite (Hup _ Hc), (Hup _ Hc'). split_and!; [done|done|]. destruct Hc as [Hp Hk]. apply Hyes; [done|].
    intros k ???. apply Hsc. auto.
  - rewrite (charge_uncovered (sc_view m) (sc_view m') p n Hc Hl Hv).
    destruct (charge_root (sc_view m) n Hroot) as [s Hs]. exists s, s. rewrite same_type_refl. split_and!; [done|done|].
    apply Hno. intros [Hp Hk]. apply Hc. split; [done|]. intros k ???. apply Hsc. auto.
Qed.

(** ** The operations *)

Lemma view_set p s m m' : (forall k, sc_at k m' = if decide (k = p) then Some (mkStrategyChoiceEntry p (Some s)) else sc_at k m) ->
  choices_ok m -> sc_view m' = <[p := s]> (sc_view m) /\ choices_ok m'.
Proof.
  intros Hsc Hc. split.
  - apply map_eq. intros k. rewrite sc_view_lookup, Hsc, lookup_insert.
    destruct (decide (k = p)) as [->|Hne]; [by rewrite decide_True|]. rewrite decide_False by done. symmetry. apply sc_view_lookup.
  - intros k sc. rewrite Hsc. case_decide; [subst; intros [= <-]; split; [done|by eexists]|apply Hc].
Qed.

Lemma view_unset p m m' : (forall k, sc_at k m' = if decide (k = p) then None else sc_at k m) -> choices_ok m ->
  sc_view m' = delete p (sc_view m) /\ choices_ok m'.
Proof.
  intros Hsc Hc. split.
  - apply map_eq. intros k. rewrite sc_view_lookup, Hsc, lookup_delete.
    destruct (decide (k = p)) as [->|Hne]; [by rewrite decide_True|]. rewrite decide_False by done. symmetry. apply sc_view_lookup.
  - intros k sc. rewrite Hsc. case_decide; [done|apply Hc].
Qed.

(** [changeStrategy] on a tree that is that of [m] but for the choice of [p],
    and then the new choice. *)
Lemma change_and_set p old new x t m : nt_ok t -> nt_wf (nt_entries t) -> is_Some (nt_entries t !! p) ->
  (forall k, k <> p -> sc_at k (nt_entries t) = sc_at k m) ->
  (forall k, fib_at k (nt_entries t) = fib_at k m /\ hosts_at k (nt_entries t) = hosts_at k m) ->
  exists t', changeStrategy p old new t = Some t' /\ let m' := nt_entries (set_entry x p t') in
    nt_ok (set_entry x p t') /\ nt_wf m' /\ is_Some (m' !! p) /\
    (forall k, sc_at k m' = if decide (k = p) then x else sc_at k m) /\ (forall k, fib_at k m' = fib_at k m) /\
    (forall n, p `prefix_of` n -> (forall k, p `prefix_of` k -> k `prefix_of` n -> k <> p -> sc_at k m = None) ->
       hosts_at n m' = if areSameType (s_instanceName old) (s_instanceName new) registry then hosts_at n m else cleared (hosts_at n m)) /\
    (forall n, ~ (p `prefix_of` n /\ forall k, p `prefix_of` k -> k `prefix_of` n -> k <> p -> sc_at k m = None) ->
       hosts_at n m' = hosts_at n m).
Proof.
  intros Hok Hwf Hp Hsc Hrest. destruct (changeStrategy_ok p old new t Hok Hwf Hp) as (t' & Hc & Hok' & Hwf' & Hdom & Htab).
  exists t'. split; [done|]. destruct (set_entry_ok x p t' Hok' Hwf') as (Hok2 & Hwf2 & Hdom2 & Htab2); [by apply Hdom|].
  assert (forall n, hosts_at n (nt_entries (set_entry x p t')) = hosts_at n (nt_entries t')) as Hh by (intros n; apply Htab2).
  assert (forall n, (forall k, p `prefix_of` k -> k `prefix_of` n -> k <> p -> sc_at k (nt_entries t) = None) <->
    (forall k, p `prefix_of` k -> k `prefix_of` n -> k <> p -> sc_at k m = None)) as Hiff.
  { intros n. split; intros Hk k ???; [rewrite <-Hsc by done|rewrite Hsc by done]; by apply Hk. }
  split_and!; [done|done|by apply Hdom2, Hdom| | | |].
  - intros k. destruct (Htab2 k) as (-> & _). case_decide; [done|]. destruct (Htab k) as (-> & _). by apply Hsc.
  - intros k. destruct (Htab2 k) as (_ & -> & _). destruct (Htab k) as (_ & -> & _). apply Hrest.
  - intros n Hpn Hk. rewrite Hh. destruct (Htab n) as (_ & _ & Hy & _). destruct (Hrest n) as [_ <-]. apply Hy; [done|]. by apply Hiff.
  - intros n Hnc. rewrite Hh. destruct (Htab n) as (_ & _ & _ & Hn). destruct (Hrest n) as [_ <-]. apply Hn.
    intros [Hpn Hk]. apply Hnc. split; [done|]. by apply Hiff.
Qed.

Context (registry_ok : forall n, create n registry <> None).

(** What an insertion does to the map. *)
Definition abs_insert prefix (strategyName : Name) (v : gmap Name StrategyInstance) (next : Z) :
    gmap Name StrategyInstance * Z * InsertStatus :=
  if (getMaxDepth <? length prefix)%nat then (v, next, DEPTH_EXCEEDED)
  else match create strategyName registry with
  | None | Some InvalidArgument => (v, next, EXCEPTION)
  | Some NotFound => (v, next, NOT_REGISTERED)
  | Some (Instance iname) =>
      if bool_decide (s_instanceName <$> v !! prefix = Some iname) then (v, next + 1, OK)
      else (<[prefix := mkStrategy next iname]> v, next + 1, OK)
  end.

(** The strategy of [p] becomes [s]; [t] is the tree of [st] but for the choice
    of [p]. *)
Lemma change_choice_ok p old s t st : sc_ok st -> nt_ok t -> nt_wf (nt_entries t) -> is_Some (nt_entries t !! p) ->
  (length p <= getMaxDepth)%nat -> charge (sc_map st) p = Some old ->
  (forall k, k <> p -> sc_at k (nt_entries t) = sc_at k (nt_entries (sc_tree st))) ->
  (forall k, fib_at k (nt_entries t) = fib_at k (nt_entries (sc_tree st)) /\ hosts_at k (nt_entries t) = hosts_at k (nt_entries (sc_tree st))) ->
  exists t', changeStrategy p old s t = Some t' /\
    let t2 := set_entry (Some (mkStrategyChoiceEntry p (Some s))) p t' in
    nt_ok t2 /\ nt_wf (nt_entries t2) /\ choices_ok (nt_entries t2) /\ is_Some (sc_view (nt_entries t2) !! []) /\
    sc_view (nt_entries t2) = <[p := s]> (sc_map st) /\ hosts_follow (nt_entries (sc_tree st)) (nt_entries t2).
Proof.
  intros (_ & _ & Hc & Hroot & _) Hok Hwf Hp Hl Hold Hsc Hrest.
  destruct (change_and_set p old s (Some (mkStrategyChoiceEntry p (Some s))) t (nt_entries (sc_tree st)))
    as (t' & Ht & Hok2 & Hwf2 & Hex2 & Hsc2 & Hfib2 & Hyes & Hno); [done..|].
  exists t'. split; [done|]. intros t2. destruct (view_set p s _ _ Hsc2 Hc) as [Hv Hc2].
  assert (is_Some (sc_view (nt_entries t2) !! [])) as Hroot2.
  { unfold t2. rewrite Hv, lookup_insert. by case_decide; [eexists|]. }
  split_and!; try done. apply (hosts_follow_change p old s); try done; unfold t2; rewrite Hv.
  - intros k Hne. by apply lookup_insert_ne.
  - rewrite (charge_covers _ p p); rewrite ?lookup_insert_eq; [done|apply covers_refl|done|by eexists].
Qed.

Lemma sc_insert_ok prefix strategyName st : sc_ok st ->
  exists st' r, sc_insert prefix strategyName st = Some (st', r) /\ sc_ok st' /\
    abs_insert prefix strategyName (sc_map st) (sc_nextAddress st) = (sc_map st', sc_nextAddress st', r) /\
    hosts_follow (nt_entries (sc_tree st)) (nt_entries (sc_tree st')).
Proof.
  intros Hst. pose proof Hst as (Hok & Hwf & Hc & Hroot & Hn). unfold sc_insert, abs_insert.
  assert (hosts_follow (nt_entries (sc_tree st)) (nt_entries (sc_tree st))) as Hrefl by (by apply hosts_follow_refl).
  destruct (getMaxDepth <? length prefix)%nat eqn:Ed; [by eexists _, _|]. apply Nat.ltb_ge in Ed.
  pose proof (registry_ok strategyName) as Hreg.
  destruct (create strategyName registry) as [[| |iname]|]; [by eexists _, _|by eexists _, _| |done]. cbn [mbind option_bind].
  destruct (lookup_ok (sc_tree st) prefix (length prefix) Hok Hwf) as (t1 & -> & Hok1 & Hwf1 & Hdom1 & Htab1); [lia|done|].
  cbn [mbind option_bind]. rewrite firstn_all in *.
  assert (is_Some (nt_entries t1 !! prefix)) as Hex1 by (apply Hdom1; by right). pose proof Hex1 as [e He].
  rewrite (deref_spec t1 prefix Hok1), He. cbn [mbind option_bind].
  assert (forall k, sc_at k (nt_entries t1) = sc_at k (nt_entries (sc_tree st))) as Hsc1 by (intros k; unfold sc_at; by rewrite Htab1).
  assert (sc_view (nt_entries t1) = sc_map st) as Hv1 by (by apply sc_view_ext).
  assert (choices_ok (nt_entries t1)) as Hc1 by (intros k sc; rewrite Hsc1; apply Hc).
  pose proof (sc_at_lookup _ _ _ He) as Hat. rewrite Hsc1 in Hat.
  assert (forall k, fib_at k (nt_entries t1) = fib_at k (nt_entries (sc_tree st)) /\
    hosts_at k (nt_entries t1) = hosts_at k (nt_entries (sc_tree st))) as Hrest1
    by (intros k; unfold fib_at, hosts_at; by rewrite Htab1).
  destruct (m_strategyChoiceEntry e) as [entry|] eqn:Ee.
  - destruct (Hc prefix entry Hat) as [-> [old Hold]]. rewrite Hold. cbn [mbind option_bind].
    assert (sc_map st !! prefix = Some old) as Hmap by (unfold sc_map; by rewrite sc_view_lookup, Hat).
    rewrite Hmap. cbn [fmap option_fmap option_map]. destruct (decide (s_instanceName old = iname)) as [Heq|Hne].
    + rewrite !bool_decide_true by congruence. eexists _, _. split; [done|]. unfold sc_ok, sc_map. cbn [sc_tree sc_nItems sc_nextAddress].
      rewrite Hv1. split_and!; try done. by apply hosts_follow_refl.
    + rewrite !bool_decide_false by congruence.
      destruct (change_choice_ok prefix old (mkStrategy (sc_nextAddress st) iname) t1 st) as (t2 & -> & Hok2 & Hwf2 & Hc2 & Hr2 & Hv2 & Hh);
        [done..|rewrite (charge_covers _ prefix prefix); [done|apply covers_refl|done|by eexists]|done|done|].
      eexists _, _. split; [done|]. unfold sc_ok, sc_map at 1 2. cbn [sc_tree sc_nItems sc_nextAddress]. split_and!; try done.
      * rewrite Hv2, map_size_insert_Some by (by eexists). done.
      * unfold sc_map at 2. cbn [sc_tree]. by rewrite Hv2.
  - assert (sc_map st !! prefix = None) as Hmap by (unfold sc_map; by apply view_None).
    rewrite findEffectiveStrategy_ok, Hv1 by done. destruct (charge_root (sc_map st) prefix Hroot) as [old Hold].
    rewrite Hold, Hmap. cbn [mbind option_bind fmap option_fmap option_map]. rewrite bool_decide_false by done.
    destruct (set_entry_ok (Some (mkStrategyChoiceEntry prefix None)) prefix t1 Hok1 Hwf1 Hex1) as (Hokx & Hwfx & Hdomx & Htabx).
    destruct (change_choice_ok prefix old (mkStrategy (sc_nextAddress st) iname) (set_entry (Some (mkStrategyChoiceEntry prefix None)) prefix t1) st)
      as (t2 & -> & Hok2 & Hwf2 & Hc2 & Hr2 & Hv2 & Hh); [done|done|done|by apply Hdomx|done|done| | |].
    { intros k Hne. destruct (Htabx k) as (-> & _). by rewrite decide_False. }
    { intros k. destruct (Htabx k) as (_ & -> & ->). done. }
    eexists _, _. split; [done|]. unfold sc_ok, sc_map at 1 2. cbn [sc_tree sc_nItems sc_nextAddress]. split_and!; try done.
    + rewrite Hv2, map_size_insert_None, Hn, u64_add_l by done. f_equal. lia.
    + unfold sc_map at 2. cbn [sc_tree]. by rewrite Hv2.
Qed.

Lemma sc_erase_ok prefix st : sc_ok st -> prefix <> [] ->
  exists st', sc_erase prefix st = Some st' /\ sc_ok st' /\ sc_map st' = delete prefix (sc_map st) /\
    sc_nextAddress st' = sc_nextAddress st /\ hosts_follow (nt_entries (sc_tree st)) (nt_entries (sc_tree st')).
Proof.
  intros Hst Hne. pose proof Hst as (Hok & Hwf & Hc & Hroot & Hn). unfold sc_erase. rewrite bool_decide_false by done.
  assert (hosts_follow (nt_entries (sc_tree st)) (nt_entries (sc_tree st))) as Hrefl by (by apply hosts_follow_refl).
  rewrite (findExactMatch_ok _ prefix _ Hok Hwf), firstn_all.
  assert (sc_at prefix (nt_entries (sc_tree st)) = None -> delete prefix (sc_map st) = sc_map st) as Hdel.
  { intros Hz. apply delete_id. by apply view_None. }
  destruct (nt_entries (sc_tree st) !! prefix) as [e|] eqn:He.
  2: { exists st. split_and!; try done. rewrite Hdel; [done|]. unfold sc_at, tables_at. by rewrite He. }
  pose proof (sc_at_lookup _ _ _ He) as Hat. destruct (m_strategyChoiceEntry e) as [entry|] eqn:Ee.
  2: { exists st. split_and!; try done. by rewrite Hdel. }
  destruct (Hc prefix entry Hat) as [_ [old Hold]]. rewrite Hold. cbn [mbind option_bind].
  destruct (Hwf prefix e He) as (-> & Hlen & _).
  assert (sc_map st !! prefix = Some old) as Hmap by (unfold sc_map; by rewrite sc_view_lookup, Hat).
  rewrite findEffectiveStrategy_ok by done. fold (sc_map st).
  destruct (charge_root (sc_map st) (parentName prefix) Hroot) as [parent Hpar]. rewrite Hpar. cbn [mbind option_bind].
  destruct (change_and_set prefix old parent None (sc_tree st) (nt_entries (sc_tree st)))
    as (t2 & -> & Hok2 & Hwf2 & Hex2 & Hsc2 & Hfib2 & Hyes & Hno); [done|done|by exists e|done|done|].
  cbn [mbind option_bind].
  destruct (eraseIfEmpty_ok (set_entry None prefix t2) prefix true Hok2 Hwf2 Hex2) as (t3 & k & -> & Hok3 & Hwf3 & Htab3 & _).
  cbn [mbind option_bind].
  assert (forall k, sc_at k (nt_entries t3) = if decide (k = prefix) then None else sc_at k (nt_entries (sc_tree st))) as Hsc3.
  { intros q. unfold sc_at at 1. rewrite Htab3. apply Hsc2. }
  destruct (view_unset prefix _ _ Hsc3 Hc) as [Hv3 Hc3]. fold (sc_map st) in Hv3.
  assert (is_Some (sc_view (nt_entries t3) !! [])) as Hroot3 by (by rewrite Hv3, lookup_delete_ne).
  eexists. split; [done|]. unfold sc_ok, sc_map at 1 2 3. cbn [sc_tree sc_nItems sc_nextAddress]. split_and!; try done.
  - rewrite Hv3, Hn, <-Z.add_opp_r, u64_add_l, map_size_delete_Some by eauto. f_equal.
    assert (size (sc_map st) <> 0%nat); [|lia]. intros Hz%map_size_empty_inv. rewrite Hz in Hmap. by rewrite lookup_empty in Hmap.
  - apply (hosts_follow_change prefix old parent); try done.
    + intros q Hq. rewrite Hv3. by apply lookup_delete_ne.
    + rewrite (charge_covers _ prefix prefix); [done|apply covers_refl|done|]. fold (sc_map st). by eexists.
    + rewrite Hv3. destruct (charge_above (delete prefix (sc_map st)) prefix prefix) as [_ Hab];
        [apply covers_refl|done|apply lookup_delete_eq|]. rewrite (Hab Hne). rewrite <-Hpar.
      apply (charge_uncovered (sc_map st) _ prefix); [|unfold parentName; rewrite length_take; lia|intros; by apply lookup_delete_ne].
      intros [Hpre%prefix_length _]. unfold parentName in Hpre. rewrite length_take in Hpre. destruct prefix; [done|simpl in Hpre; lia].
    + intros n. unfold fib_at at 1. rewrite Htab3. apply Hfib2.
    + intros n Hp Hk. unfold hosts_at at 1. rewrite Htab3. by apply Hyes.
    + intros n Hnc. unfold hosts_at at 1. rewrite Htab3. by apply Hno.
Qed.

(** A tree on which no strategy has been chosen yet. *)
Definition sc_initial st : Prop :=
  nt_ok (sc_tree st) /\ nt_wf (nt_entries (sc_tree st)) /\ (forall n, sc_at n (nt_entries (sc_tree st)) = None) /\ sc_nItems st = 0.

Lemma setDefaultStrategy_ok strategyName iname st : sc_initial st -> create strategyName registry = Some (Instance iname) ->
  exists st', setDefaultStrategy strategyName st = Some st' /\ sc_ok st' /\
    sc_map st' = {[ [] := mkStrategy (sc_nextAddress st) iname ]} /\ sc_nextAddress st' = sc_nextAddress st + 1.
Proof.
  intros (Hok & Hwf & Hno & Hn) Hcr. unfold setDefaultStrategy. rewrite Hcr. cbn [mbind option_bind].
  destruct (lookup_ok (sc_tree st) [] 0 Hok Hwf) as (t1 & -> & Hok1 & Hwf1 & Hdom1 & Htab1); [simpl; lia|lia|].
  cbn [mbind option_bind]. rewrite take_0 in *.
  destruct (set_entry_ok (Some (mkStrategyChoiceEntry [] (Some (mkStrategy (sc_nextAddress st) iname)))) [] t1 Hok1 Hwf1)
    as (Hok2 & Hwf2 & _ & Htab2); [apply Hdom1; by right|].
  assert (choices_ok (nt_entries (sc_tree st))) as Hc by (intros n sc; by rewrite Hno).
  destruct (view_set [] (mkStrategy (sc_nextAddress st) iname) (nt_entries (sc_tree st))
    (nt_entries (set_entry (Some (mkStrategyChoiceEntry [] (Some (mkStrategy (sc_nextAddress st) iname)))) [] t1))) as [Hv Hc2]; [|done|].
  { intros k. destruct (Htab2 k) as (-> & _). case_decide; [done|]. unfold sc_at. by rewrite Htab1. }
  assert (sc_view (nt_entries (sc_tree st)) = ∅) as Hz.
  { apply map_eq. intros n. by rewrite sc_view_lookup, Hno, lookup_empty. }
  rewrite Hz, insert_empty in Hv. eexists. split; [done|]. unfold sc_ok, sc_map. cbn [sc_tree sc_nItems sc_nextAddress].
  rewrite Hv, Hn. split_and!; try done.
Qed.

Inductive ScOp :=
  | ScInsert prefix (strategyName : Name) | ScErase prefix | ScGet prefix | ScFind name
  | ScSet prefix (strategyName : Name) | ScUnset prefix.
Inductive ScAnswer :=
  | Status (r : InsertStatus) | Erased | Chosen (instanceName : option Name) | InCharge s | Response (r : Z * option Name).

Definition sc_step (op : ScOp) st : option (StrategyChoice * ScAnswer) :=
  match op with
  | ScInsert prefix name => '(st, r) ← sc_insert prefix name st; Some (st, Status r)
  | ScErase prefix => st ← sc_erase prefix st; Some (st, Erased)
  | ScGet prefix => r ← sc_get prefix st; Some (st, Chosen r)
  | ScFind name => s ← findEffectiveStrategy name (sc_tree st); Some (st, InCharge s)
  | ScSet prefix name => '(st, r) ← mgr_setStrategy prefix name st; Some (st, Response r)
  | ScUnset prefix => '(st, r) ← mgr_unsetStrategy prefix st; Some (st, Response r)
  end.

(** The same on a map from prefixes to strategies. *)
Definition sc_abs_step (op : ScOp) (a : gmap Name StrategyInstance * Z) : option (gmap Name StrategyInstance * Z * ScAnswer) :=
  match op with
  | ScInsert prefix name => let '(v, next, r) := abs_insert prefix name a.1 a.2 in Some (v, next, Status r)
  | ScErase prefix => Some (delete prefix a.1, a.2, Erased)
  | ScGet prefix => Some (a.1, a.2, Chosen (s_instanceName <$> a.1 !! prefix))
  | ScFind name => s ← charge a.1 name; Some (a.1, a.2, InCharge s)
  | ScSet prefix name =>
      let '(v, next, r) := abs_insert prefix name a.1 a.2 in
      Some (v, next, Response (match r with OK => (200, s_instanceName <$> v !! prefix) | _ => (getStatusCode r, None) end))
  | ScUnset prefix => Some (delete prefix a.1, a.2, Response (200, None))
  end.

(** The root choice is never erased. *)
Definition sc_op_ok (op : ScOp) : Prop := match op with ScErase prefix | ScUnset prefix => prefix <> [] | _ => True end.

Lemma sc_get_ok prefix st : sc_ok st -> sc_get prefix st = Some (s_instanceName <$> sc_map st !! prefix).
Proof.
  intros (Hok & Hwf & Hc & _). unfold sc_get, sc_map. rewrite (findExactMatch_ok _ _ _ Hok Hwf), firstn_all, sc_view_lookup.
  assert (sc_at prefix (nt_entries (sc_tree st)) = nt_entries (sc_tree st) !! prefix ≫= m_strategyChoiceEntry) as Hat.
  { unfold sc_at, tables_at. by destruct (nt_entries (sc_tree st) !! prefix). }
  rewrite <-Hat. destruct (sc_at prefix _) as [sc|] eqn:E0; [|done]. destruct (Hc prefix sc E0) as [_ [s Hs]]. simpl. by rewrite Hs.
Qed.

(** After an insertion that succeeds there is a choice. *)
Lemma abs_insert_OK prefix name v next v' next' : abs_insert prefix name v next = (v', next', OK) -> is_Some (v' !! prefix).
Proof.
  unfold abs_insert. case_match; [done|]. case_match; [|done]. case_match; [done|done|].
  case_bool_decide as Hd; intros [= <- _].
  - destruct (v !! prefix); [by eexists|done].
  - rewrite lookup_insert_eq. by eexists.
Qed.

(** The listing has every choice once. *)
Lemma listChoices_ok st : sc_ok st ->
  listChoices st ≡ₚ (fun ns => (ns.1, Some (s_instanceName ns.2))) <$> map_to_list (sc_map st).
Proof.
  intros (Hok & Hwf & Hc & _). unfold listChoices, fullEnumerate. set (m := nt_entries (sc_tree st)).
  assert (forall l : list Entry, omap (fun e => (fun sc => (sc_prefix sc, s_instanceName <$> sc_strategy sc)) <$> m_strategyChoiceEntry e)
    (remove_if (fun e => negb (nteHasStrategyChoiceEntry e)) l) =
    omap (fun e => (fun sc => (sc_prefix sc, s_instanceName <$> sc_strategy sc)) <$> m_strategyChoiceEntry e) l) as Hrem.
  { induction l as [|e l IH]; [done|]. simpl. unfold nteHasStrategyChoiceEntry at 1.
    destruct (m_strategyChoiceEntry e) as [sc|] eqn:Esc; simpl; rewrite ?Esc; [by apply (f_equal (cons _))|exact IH]. }
  rewrite Hrem, (nt_list_spec _ Hok). fold m.
  assert (forall l, (forall ne, ne ∈ l -> m !! ne.1 = Some ne.2) ->
    omap (fun e => (fun sc => (sc_prefix sc, s_instanceName <$> sc_strategy sc)) <$> m_strategyChoiceEntry e) l.*2 =
    (fun ns => (ns.1, Some (s_instanceName ns.2))) <$> omap (fun ne => (fun s => (ne.1, s)) <$> (m_strategyChoiceEntry ne.2 ≫= sc_strategy)) l) as Hl.
  { induction l as [|[n e] l IH]; intros Hin; [done|]. specialize (IH (fun ne H => Hin ne (list_elem_of_further _ _ _ H))).
    pose proof (Hin (n, e) (list_elem_of_here _ _)) as He. simpl.
    destruct (m_strategyChoiceEntry e) as [sc|] eqn:Esc; [|exact IH]. simpl.
    destruct (Hc n sc) as [-> [s ->]]; [exact (eq_trans (sc_at_lookup m n e He) Esc)|]. by apply (f_equal (cons _)). }
  rewrite Hl by (intros [n e] Hne; by apply elem_of_map_to_list). apply fmap_Permutation.
  apply NoDup_Permutation; [|apply NoDup_map_to_list|].
  - pose proof (NoDup_fst_map_to_list m) as Hnd. induction (map_to_list m) as [|[n e] l IH]; [constructor|].
    simpl in *. apply NoDup_cons in Hnd as [Hn Hnd]. destruct (m_strategyChoiceEntry e ≫= sc_strategy) as [s|]; simpl; [|auto].
    constructor; [|auto]. intros ([k x] & Hk & Hx)%list_elem_of_omap. apply Hn. simpl in Hx.
    destruct (m_strategyChoiceEntry x ≫= sc_strategy); [|done]. simplify_eq/=. apply list_elem_of_fmap. by exists (n, x).
  - intros [n s]. rewrite elem_of_map_to_list, list_elem_of_omap. unfold sc_map. fold m. rewrite sc_view_lookup. split.
    + intros ([k e] & He%elem_of_map_to_list & Hs). simpl in *. destruct (m_strategyChoiceEntry e ≫= sc_strategy) eqn:E0; [|done].
      simplify_eq/=. by rewrite (sc_at_lookup _ _ _ He).
    + unfold sc_at, tables_at. destruct (m !! n) as [e|] eqn:He; [|done]. simpl. intros Hs. exists (n, e).
      rewrite elem_of_map_to_list. split; [done|]. simpl. by rewrite Hs.
Qed.

Lemma sc_step_ok op st : sc_ok st -> sc_op_ok op ->
  exists st' a, sc_step op st = Some (st', a) /\ sc_ok st' /\
    sc_abs_step op (sc_map st, sc_nextAddress st) = Some (sc_map st', sc_nextAddress st', a) /\
    hosts_follow (nt_entries (sc_tree st)) (nt_entries (sc_tree st')).
Proof.
  intros Hst Hop. pose proof Hst as (Hok & Hwf & Hc & Hroot & _).
  assert (hosts_follow (nt_entries (sc_tree st)) (nt_entries (sc_tree st))) as Hrefl by (by apply hosts_follow_refl).
  destruct op as [prefix name|prefix|prefix|name|prefix name|prefix]; simpl in *.
  - destruct (sc_insert_ok prefix name st Hst) as (st' & r & -> & Hok' & Ha & Hh). rewrite Ha. by eexists _, _.
  - destruct (sc_erase_ok prefix st Hst Hop) as (st' & -> & Hok' & Hm & Hx & Hh). eexists _, _. split; [done|]. by rewrite Hm, Hx.
  - rewrite (sc_get_ok prefix st Hst). by eexists _, _.
  - rewrite findEffectiveStrategy_ok by done. fold (sc_map st). destruct (charge_root (sc_map st) name Hroot) as [s ->].
    by eexists _, _.
  - unfold mgr_setStrategy. destruct (sc_insert_ok prefix name st Hst) as (st' & r & -> & Hok' & Ha & Hh). rewrite Ha.
    cbn [mbind option_bind]. destruct r; try (by eexists _, _). rewrite (sc_get_ok prefix st' Hok').
    destruct (abs_insert_OK _ _ _ _ _ _ Ha) as [s Hs]. rewrite Hs. simpl. by eexists _, _.
  - unfold mgr_unsetStrategy. destruct (sc_erase_ok prefix st Hst Hop) as (st' & -> & Hok' & Hm & Hx & Hh).
    eexists _, _. split; [done|]. by rewrite Hm, Hx.
Qed.

Fixpoint sc_run (ops : list ScOp) st : option (StrategyChoice * list ScAnswer) :=
  match ops with
  | [] => Some (st, [])
  | op :: ops => '(st, a) ← sc_step op st; '(st, l) ← sc_run ops st; Some (st, a :: l)
  end.

Fixpoint sc_abs_run (ops : list ScOp) (v : gmap Name StrategyInstance * Z) : option (gmap Name StrategyInstance * Z * list ScAnswer) :=
  match ops with
  | [] => Some (v, [])
  | op :: ops => '(v, a) ← sc_abs_step op v; '(v, l) ← sc_abs_run ops v; Some (v, a :: l)
  end.

Lemma sc_run_ok ops : Forall sc_op_ok ops -> forall st, sc_ok st -> exists st' l, sc_run ops st = Some (st', l) /\ sc_ok st' /\
  sc_abs_run ops (sc_map st, sc_nextAddress st) = Some (sc_map st', sc_nextAddress st', l).
Proof.
  induction 1 as [|op ops Hop _ IH]; intros st Hst; [by eexists _, _|]. simpl.
  destruct (sc_step_ok op st Hst Hop) as (st1 & a & -> & Hst1 & -> & _). simpl.
  destruct (IH st1 Hst1) as (st' & l & -> & Hst' & ->). simpl. by eexists _, _.
Qed.

(** C21: the strategy choice table answers every sequence of operations after the
    default strategy is set as a map from prefixes to strategies does: an
    insertion refuses a prefix that is too deep, a strategy that is not
    registered and one whose constructor throws, and changes nothing then; the
    strategy in charge of a name is that of its longest prefix in the map, found
    by name, from the PIT entry of the name or from its measurements entry. There
    is always one: no assertion fails. The commands of management answer with the
    status and the instance name, and the listing has every choice once. *)
Theorem strategy_choice_refines st0 default_ iname ops : sc_initial st0 -> create default_ registry = Some (Instance iname) ->
  Forall sc_op_ok ops ->
  exists st1 st l, setDefaultStrategy default_ st0 = Some st1 /\ sc_run ops st1 = Some (st, l) /\
    sc_abs_run ops ({[ [] := mkStrategy (sc_nextAddress st0) iname ]}, sc_nextAddress st0 + 1) = Some (sc_map st, sc_nextAddress st, l) /\
    listChoices st ≡ₚ (fun ns => (ns.1, Some (s_instanceName ns.2))) <$> map_to_list (sc_map st) /\
    (forall name sel, findEffectiveStrategy name (sc_tree st) = charge (sc_map st) name /\
      (is_Some (nt_entries (sc_tree st) !! nteName name) -> findEffectiveStrategy_pit (name, sel) (sc_tree st) = charge (sc_map st) name) /\
      (is_Some (nt_entries (sc_tree st) !! name) -> findEffectiveStrategy_measurements name (sc_tree st) = charge (sc_map st) name)).
Proof.
  intros Hinit Hcr Hops. destruct (setDefaultStrategy_ok default_ iname st0 Hinit Hcr) as (st1 & Hd & Hst1 & Hm1 & Hn1).
  destruct (sc_run_ok ops Hops st1 Hst1) as (st & l & Hr & Hst & Ha). rewrite Hm1, Hn1 in Ha.
  exists st1, st, l. split_and!; [done|done|done|by apply listChoices_ok|].
  destruct Hst as (Hok & Hwf & Hc & _). intros name sel. split_and!.
  - by apply findEffectiveStrategy_ok.
  - intros Hex. by apply findEffectiveStrategy_pit_ok.
  - intros Hex. by apply findEffectiveStrategy_measurements_ok.
Qed.

(** C11: when the choice of strategies changes, the items that strategies have
    placed on the PIT entries, their in- and out-records and the measurements
    entry attached to a name tree entry are removed exactly when the type of the
    strategy in charge of the name of that name tree entry changes; in all other
    cases they are kept. (A PIT entry of a full name is attached one component
    higher and goes by that name, whatever strategy is in charge of the full name;
    see [digest_info_kept].) The FIB, and everything else of the records, is left
    alone. *)
Theorem strategy_info_follows op st : sc_ok st -> sc_op_ok op ->
  exists st' a, sc_step op st = Some (st', a) /\ sc_ok st' /\
    forall n, (length n <= getMaxDepth)%nat ->
      exists s s', findEffectiveStrategy n (sc_tree st) = Some s /\ findEffectiveStrategy n (sc_tree st') = Some s' /\
        fib_at n (nt_entries (sc_tree st')) = fib_at n (nt_entries (sc_tree st)) /\
        hosts_at n (nt_entries (sc_tree st')) =
          if areSameType (s_instanceName s) (s_instanceName s') registry then hosts_at n (nt_entries (sc_tree st))
          else cleared (hosts_at n (nt_entries (sc_tree st))).
Proof.
  intros Hst Hop. destruct (sc_step_ok op st Hst Hop) as (st' & a & Hs & Hst' & _ & Hh). exists st', a. split_and!; [done|done|].
  intros n Hl. destruct (Hh n Hl) as (Hf & s & s' & Hc & Hc' & Hho). exists s, s'.
  destruct Hst as (? & _ & ? & _), Hst' as (? & _ & ? & _). by rewrite !findEffectiveStrategy_ok.
Qed.

(** A strategy gets from its accessor only entries that it is in charge of. *)
Theorem accessor_confined self now name (ms ms' : Measurements T) n : ms_ok ms -> choices_ok (nt_entries (ms_tree ms)) ->
  accessor_get self now name ms = Some (ms', Some n) ->
  exists s, findEffectiveStrategy n (ms_tree ms') = Some s /\ s_address s = self.
Proof.
  intros Hms Hc. unfold accessor_get. destruct (ms_get_ok now name ms Hms) as (ms1 & -> & Hok & Hm & Hr). cbn [mbind option_bind].
  set (k := take getMaxDepth name) in *. pose proof Hok as (Hok1 & Hwf1 & _).
  assert (choices_ok (nt_entries (ms_tree ms1))) as Hc1.
  { intros q sc Hsc. apply Hc. specialize (Hr q). unfold rest_at in Hr. rewrite !tables_split in Hr. by injection Hr as _ _ <-. }
  assert (is_Some (nt_entries (ms_tree ms1) !! k)) as Hex by (eapply (ms_map_Some k (get_entry now k (ms_map ms))); rewrite Hm; apply lookup_insert_eq).
  unfold filter_entry. rewrite findEffectiveStrategy_measurements_ok by done. rewrite <-findEffectiveStrategy_ok by done.
  destruct (findEffectiveStrategy k (ms_tree ms1)) as [s|] eqn:Es; [|done]. cbn [mbind option_bind].
  destruct (s_address s =? self) eqn:Ea; [|done]. apply Z.eqb_eq in Ea. intros [= <- <-]. by exists s.
Qed.

(** A PIT entry is attached to the entry of [n]. *)
Definition attach_pit n (pe : PitEntry C) st : option StrategyChoice :=
  '(t, nte) ← lookup n (length n) (sc_tree st);
  Some (mkStrategyChoice (nt_update nte (insertPitEntry pe) t) (sc_nItems st) (sc_nextAddress st)).

Lemma attach_pit_ok n pe st : sc_ok st -> (length n <= getMaxDepth)%nat ->
  exists st', attach_pit n pe st = Some st' /\ sc_ok st' /\ sc_map st' = sc_map st /\ is_Some (nt_entries (sc_tree st') !! n) /\
    (hosts_at n (nt_entries (sc_tree st'))).1 = (hosts_at n (nt_entries (sc_tree st))).1 ++ [pe].
Proof.
  intros (Hok & Hwf & Hc & Hroot & Hn) Hl. unfold attach_pit.
  destruct (lookup_ok (sc_tree st) n (length n) Hok Hwf) as (t' & -> & Hok' & Hwf' & Hdom & Htab); [lia|done|].
  rewrite firstn_all in *. cbn [mbind option_bind]. eexists. split; [done|].
  destruct (update_ok t' n (insertPitEntry pe) Hok' Hwf') as (Hok2 & Hwf2 & He2); [done|].
  assert (is_Some (nt_entries t' !! n)) as [e He] by (apply Hdom; by right).
  assert (forall k, sc_at k (nt_entries (nt_update n (insertPitEntry pe) t')) = sc_at k (nt_entries (sc_tree st))) as Hsc.
  { intros k. unfold sc_at at 2. rewrite <-Htab. unfold sc_at, tables_at. rewrite He2, lookup_alter.
    case_decide; [subst k|done]. by rewrite He. }
  assert (sc_view (nt_entries (nt_update n (insertPitEntry pe) t')) = sc_map st) as Hv by (by apply sc_view_ext).
  unfold sc_ok, sc_map at 1 2 3. cbn [sc_tree sc_nItems]. rewrite Hv. split_and!; try done.
  - intros k sc. rewrite Hsc. apply Hc.
  - rewrite He2. apply lookup_alter_is_Some. by exists e.
  - unfold hosts_at. rewrite <-(Htab n). unfold tables_at. rewrite He2, lookup_alter_eq, He. done.
Qed.

(** Choosing a strategy for a full name with its implicit digest: it takes
    charge of the PIT entry of that name, but that entry is attached one component
    higher, and the items of the strategy before it stay on it, whatever its type. *)
Theorem digest_info_kept name sel strategyName iname st : sc_ok st -> endsWithDigest name = true -> (length name <= getMaxDepth)%nat ->
  is_Some (nt_entries (sc_tree st) !! nteName name) -> sc_map st !! name = None -> create strategyName registry = Some (Instance iname) ->
  exists st', sc_insert name strategyName st = Some (st', OK) /\
    findEffectiveStrategy_pit (name, sel) (sc_tree st') = Some (mkStrategy (sc_nextAddress st) iname) /\
    hosts_at (nteName name) (nt_entries (sc_tree st')) = hosts_at (nteName name) (nt_entries (sc_tree st)).
Proof.
  intros Hst Hd Hl Hnte Hno Hcr. pose proof Hst as (Hok & Hwf & Hc & Hroot & _).
  destruct (sc_insert_ok name strategyName st Hst) as (st' & r & Hi & Hst' & Ha & Hh).
  unfold abs_insert in Ha. rewrite (proj2 (Nat.ltb_ge _ _) Hl), Hcr, Hno in Ha. simpl in Ha.
  injection Ha as Hm Hx <-. exists st'. split; [done|]. pose proof Hst' as (Hok' & Hwf' & Hc' & _).
  assert (length (nteName name) < length name)%nat as Hshort.
  { unfold nteName, nteDepth. rewrite Hd, length_take. destruct name; [done|simpl; lia]. }
  assert (nteName name `prefix_of` name) as Hpre by (exists (drop (nteDepth name) name); unfold nteName; by rewrite take_drop).
  split.
  - assert (is_Some (nt_entries (sc_tree st') !! name)) as Hex.
    { assert (sc_map st' !! name = Some (mkStrategy (sc_nextAddress st) iname)) as Hs by (rewrite <-Hm; apply lookup_insert_eq).
      unfold sc_map, sc_view in Hs. rewrite lookup_omap in Hs. destruct (nt_entries (sc_tree st') !! name); [by eexists|done]. }
    rewrite findEffectiveStrategy_pit_ok; [|done|done|done|by apply (wf_prefix _ name)]. fold (sc_map st'). rewrite <-Hm. simpl.
    rewrite (charge_covers _ name name); rewrite ?lookup_insert_eq; [done|apply covers_refl|done|by eexists].
  - destruct (Hh (nteName name)) as (_ & s & s' & Hs & Hs' & ->); [lia|]. fold (sc_map st) (sc_map st') in Hs, Hs'.
    rewrite <-Hm in Hs'. rewrite (charge_uncovered (sc_map st) _ name) in Hs';
      [|intros [Hp%prefix_length _]; lia|lia|intros; by apply lookup_insert_ne].
    simplify_eq. by rewrite same_type_refl.
Qed.

End StrategyChoice.
Arguments StrategyChoice : clear implicits.

(** ** A concrete table: the default strategy, a PIT entry with a digest, and
    items on it *)
Module StrategyChoiceExamples.
Import RegistryExamples.

Notation ScEntry := (Entry Z (FibEntry Z) (PitEntry Z) (MeasurementsEntry Z Z) (StrategyChoiceEntry Z)).
Notation ScTree := (Hashtable Z ScEntry).

Lemma reg0_ok n : create n reg0 <> None.
Proof. apply plain_registry_ok. intros x f Hx. by apply reg0_plain. Qed.

Definition sc0 : StrategyChoice ScTree := mkStrategyChoice (newHashtable (newOptions 4)) 0 0.
Definition sc1 : StrategyChoice ScTree := default sc0 (setDefaultStrategy reg0 [7; 1] sc0).

Lemma sc0_initial : sc_initial sc0.
Proof.
  destruct (ht_new_ok (C:=Z) (E:=ScEntry) (newOptions 4)) as [Hok He].
  - split; [simpl; lia|]. apply Z.leb_le. by vm_compute.
  - unfold sc_initial, sc_at, tables_at. simpl in *. rewrite He.
    split_and!; [done| |intros n; by rewrite lookup_empty|done]. intros n e Hn. by rewrite lookup_empty in Hn.
Qed.

Lemma sc1_ok : sc_ok sc1 /\ sc_map sc1 = {[ [] := mkStrategy 0 best5 ]}.
Proof.
  destruct (setDefaultStrategy_ok reg0 [7; 1] best5 sc0 sc0_initial) as (st & Hs & Hok & Hm & _); [reflexivity|].
  unfold sc1. rewrite Hs. split; [exact Hok|exact Hm].
Qed.

Definition ops : list ScOp := [ScInsert [1] [7; 2]; ScFind [1; 5]; ScErase [1]; ScFind [1; 5]; ScInsert [2] [9]].

Example strategy_choice_refines_witness : exists st l, sc_run reg0 ops sc1 = Some (st, l) /\
  l = [Status OK; InCharge (mkStrategy 1 multi3); Erased; InCharge (mkStrategy 0 best5); Status NOT_REGISTERED].
Proof.
  destruct (strategy_choice_refines reg0 reg0_ok sc0 [7; 1] best5 ops sc0_initial) as (st1 & st & l & Hd & Hr & Ha & _ & _);
    [reflexivity|by repeat constructor|].
  exists st, l. split.
  - unfold sc1. rewrite Hd. exact Hr.
  - assert (snd <$> sc_abs_run reg0 ops ({[ [] := mkStrategy (sc_nextAddress sc0) best5 ]}, sc_nextAddress sc0 + 1) =
      Some [Status OK; InCharge (mkStrategy 1 multi3); Erased; InCharge (mkStrategy 0 best5); Status NOT_REGISTERED]) as Hv by (by vm_compute).
    rewrite Ha in Hv. by injection Hv.
Defined.

(** The PIT entry of an Interest with an implicit digest, with an item on it. *)
Definition host : PitEntry Z := set_info {[ 1 := 5 ]} (newPitEntry PitExamples.interest1).
Definition sc2 : StrategyChoice ScTree := default sc1 (attach_pit [1; 2] host sc1).

Lemma sc2_ok : sc_ok sc2 /\ sc_map sc2 = sc_map sc1 /\ is_Some (nt_entries (newEntry:=newEntry) (sc_tree sc2) !! [1; 2]) /\
  (hosts_at [1; 2] (nt_entries (newEntry:=newEntry) (sc_tree sc2))).1 =
    (hosts_at [1; 2] (nt_entries (newEntry:=newEntry) (sc_tree sc1))).1 ++ [host].
Proof.
  destruct sc1_ok as [Hok _].
  destruct (attach_pit_ok [1; 2] host sc1 Hok) as (st & Hs & H1 & H2 & H3 & H4); [unfold getMaxDepth; simpl; lia|].
  unfold sc2. rewrite Hs. split_and!; [exact H1|exact H2|exact H3|exact H4].
Qed.

(** A strategy of another type for [/1]: the item on the PIT entry attached to
    [/1/2] is removed. *)
Example strategy_info_follows_witness : pe_info host = {[ 1 := 5 ]} /\ pe_info (clear_pit host) = ∅ /\
  exists st' a, sc_step reg0 (ScInsert [1] [7; 2]) sc2 = Some (st', a) /\
    (hosts_at [1; 2] (nt_entries (newEntry:=newEntry) (sc_tree st'))).1 =
      (clear_pit <$> (hosts_at [1; 2] (nt_entries (newEntry:=newEntry) (sc_tree sc1))).1) ++ [clear_pit host].
Proof.
  split; [reflexivity|]. split; [reflexivity|]. destruct sc2_ok as (Hok & Hm & Hex & Hh). destruct sc1_ok as [_ Hm1].
  destruct (strategy_info_follows reg0 reg0_ok (ScInsert [1] [7; 2]) sc2 Hok Logic.I) as (st' & a & H1 & H2 & H3).
  exists st', a. split; [exact H1|].
  destruct (sc_step_ok reg0 reg0_ok (ScInsert [1] [7; 2]) sc2 Hok Logic.I) as (st1 & a1 & E1 & _ & Ha & _).
  assert (st1 = st') as -> by congruence. rewrite Hm, Hm1 in Ha.
  destruct (H3 [1; 2]) as (s & s' & Hs & Hs' & _ & Hho); [unfold getMaxDepth; simpl; lia|].
  destruct Hok as (Ht & _ & Hc & _), H2 as (Ht' & _ & Hc' & _). rewrite findEffectiveStrategy_ok in Hs, Hs' by done.
  fold (sc_map sc2) in Hs. fold (sc_map st') in Hs'. rewrite Hm, Hm1 in Hs.
  assert (Some s = Some (mkStrategy 0 best5)) as [= ->] by (rewrite <-Hs; vm_compute; reflexivity).
  cbn [sc_abs_step] in Ha. set (ins := abs_insert _ _ _ _ _) in Ha. assert (exists z, ins = (<[[1] := mkStrategy z multi3]> {[ [] := mkStrategy 0 best5 ]}, z + 1, OK)) as [z Hz].
  { eexists. reflexivity. }
  rewrite Hz in Ha. injection Ha as Hmap _ _. rewrite <-Hmap in Hs'.
  assert (Some s' = Some (mkStrategy z multi3)) as [= ->] by (rewrite <-Hs'; vm_compute; reflexivity).
  rewrite Hho. change (areSameType _ _ reg0) with false. unfold cleared. cbn [fst]. rewrite Hh, fmap_app. reflexivity.
Defined.

Example digest_info_kept_witness : exists st', sc_insert reg0 [1; 2; -3] [7; 2] sc2 = Some (st', OK) /\
  findEffectiveStrategy_pit (interest_key PitExamples.interest1) (sc_tree st') = Some (mkStrategy (sc_nextAddress sc2) multi3) /\
  (hosts_at [1; 2] (nt_entries (newEntry:=newEntry) (sc_tree st'))).1 = (hosts_at [1; 2] (nt_entries (newEntry:=newEntry) (sc_tree sc1))).1 ++ [host].
Proof.
  destruct sc2_ok as (Hok & Hm & Hex & Hh). destruct sc1_ok as [_ Hm1].
  destruct (digest_info_kept reg0 reg0_ok [1; 2; -3] (i_selectors PitExamples.interest1) [7; 2] multi3 sc2 Hok) as (st' & H1 & H2 & H3);
    [reflexivity|unfold getMaxDepth; simpl; lia|exact Hex|rewrite Hm, Hm1; reflexivity|reflexivity|].
  exists st'. split_and!; [exact H1|exact H2|].
  change (nteName [1; 2; -3]) with [1; 2] in H3. rewrite H3. exact Hh.
Defined.

End StrategyChoiceExamples.
