(* ===== verification/StrategyItems.v ===== *)
(** * Items of strategies on measurements entries

    What the strategies that keep measurements share: the items of one type that
    [StrategyInfoHost] keeps on the entries of the measurements table, reached
    through the accessor of [measurements-accessor.hpp], which is confined to the
    entries that the strategy is in charge of. The type of the items, its number
    and its default constructor are parameters. *)

From S2P Require Import Prelude Ndn Hashtable NameTree Fib Pit Measurements StrategyRegistry StrategyChoice.
Local Open Scope Z_scope.

Section Items.
Context {C I : Type} `{Packets C}.
Notation Name := (list C).
Notation MeasurementsEntry := (MeasurementsEntry C I).
Notation Entry := (Entry C (FibEntry C) (PitEntry C) MeasurementsEntry (StrategyChoiceEntry C)).
Context {T : Type} `{!NodeTable C Entry newEntry T}.
Implicit Types (st : Measurements T) (n name prefix : Name) (me : MeasurementsEntry) (now self : Z).

Notation tree st := (nt_entries (ms_tree st)).
Notation choices st := (sc_view (tree st)).

Context (typeId : Z) (newItem : I).

(** [insertStrategyInfo]: an item of the type stays. *)
Definition insertItem me : MeasurementsEntry :=
  match me_info me !! typeId with
  | Some _ => me
  | None => set_me_info (<[typeId := newItem]> (me_info me)) me
  end.

(** [getStrategyInfo], and a change through the pointer to the item. *)
Definition item_read n st : option I := me ← ms_read n st; me_info me !! typeId.
Definition item_write n (g : I -> I) st : Measurements T :=
  ms_write n (fun me => set_me_info (alter g typeId (me_info me)) me) st.

(** The lifetime of an entry is extended, and the item inserted. *)
Definition refresh now (lifetime : Z) n st : option (Measurements T) :=
  st ← extendLifetime now n lifetime st; Some (ms_write n insertItem st).

(** ** The items as a map *)

(** The item of an entry; a new one when it has none yet. *)
Definition item_of me : I := default newItem (me_info me !! typeId).
Definition item st n : I := from_option item_of newItem (ms_map st !! n).

(** The strategy choice table on the tree is right and covers every name. *)
Definition env_ok st : Prop := ms_ok st /\ choices_ok (tree st) /\ is_Some (choices st !! []).

Definition inCharge self (v : gmap Name (StrategyInstance C)) n : bool :=
  match charge v n with Some s => s_address s =? self | None => false end.

(** What operations of the strategy leave alone: the other tables, and no entry
    goes, expires earlier or loses its item. *)
Definition later me me' : Prop :=
  me_expiry me <= me_expiry me' /\ (is_Some (me_info me !! typeId) -> is_Some (me_info me' !! typeId)).

Definition frame st st' : Prop :=
  ms_ok st' /\ (forall k, rest_at k (tree st') = rest_at k (tree st)) /\
  forall n me, ms_map st !! n = Some me -> exists me', ms_map st' !! n = Some me' /\ later me me'.

(** The FIB entry of the prefix is in the FIB, or is its empty entry. *)
Definition fib_known prefix st : Prop := is_Some (fib_at prefix (tree st)) \/ prefix = [].

(** There is an item on the entry of [n], which is kept until [t]. *)
Definition opened n (t : Z) st : Prop :=
  exists me, ms_map st !! n = Some me /\ is_Some (me_info me !! typeId) /\ t <= me_expiry me.

(** The longest prefix of a name that has an entry. *)
Definition measured name st : option Name :=
  fst <$> abs_match (ms_map st) (take getMaxDepth name) (Datatypes.S (Nat.min (length (take getMaxDepth name)) getMaxDepth)).

End Items.

Section ItemLemmas.
Context {C I : Type} `{Packets C}.
Notation Name := (list C).
Notation MeasurementsEntry := (MeasurementsEntry C I).
Notation Entry := (Entry C (FibEntry C) (PitEntry C) MeasurementsEntry (StrategyChoiceEntry C)).
Context {T : Type} `{!NodeTable C Entry newEntry T}.
Implicit Types (st : Measurements T) (n name prefix : Name) (me : MeasurementsEntry) (now self : Z).
Notation tree st := (nt_entries (ms_tree st)).
Notation choices st := (sc_view (tree st)).
Context {typeId : Z} {newItem : I}.
Notation insertItem := (insertItem typeId newItem).
Notation item_read := (item_read typeId).
Notation item_write := (item_write typeId).
Notation refresh := (refresh typeId newItem).
Notation item_of := (item_of typeId newItem).
Notation item := (item typeId newItem).
Notation later := (later typeId).
Notation frame := (frame typeId).
Notation opened := (opened typeId).

(** ** Frames *)

Lemma later_refl me : later me me.
Proof. split; [lia|done]. Qed.

Lemma frame_refl st : ms_ok st -> frame st st.
Proof. intros Hst. split_and!; [done|done|]. intros n me Hn. exists me. split; [done|apply later_refl]. Qed.

Lemma frame_trans st1 st2 st3 : frame st1 st2 -> frame st2 st3 -> frame st1 st3.
Proof.
  intros (_ & Hr1 & Hk1) (Hok & Hr2 & Hk2). split_and!; [done|intros k; by rewrite Hr2|].
  intros n me Hn. destruct (Hk1 n me Hn) as (me1 & Hn1 & Hle1 & Hi1). destruct (Hk2 n me1 Hn1) as (me2 & Hn2 & Hle2 & Hi2).
  exists me2. split; [done|]. split; [lia|auto].
Qed.

(** An entry is replaced by one that does not expire earlier. *)
Lemma frame_insert st st' n me' : ms_ok st' -> ms_map st' = <[n := me']> (ms_map st) ->
  (forall k, rest_at k (tree st') = rest_at k (tree st)) ->
  (forall me, ms_map st !! n = Some me -> later me me') -> frame st st'.
Proof.
  intros Hok Hm Hr Hle. split_and!; [done|done|]. intros k me Hk. rewrite Hm, lookup_insert.
  case_decide; [subst; exists me'; auto|exists me; auto using later_refl].
Qed.

Lemma frame_sc st st' n : frame st st' -> sc_at n (tree st') = sc_at n (tree st) /\ fib_at n (tree st') = fib_at n (tree st).
Proof. intros (_ & Hr & _). specialize (Hr n). unfold rest_at in Hr. rewrite !tables_split in Hr. by injection Hr as -> _ ->. Qed.

Lemma frame_choices st st' : frame st st' -> choices st' = choices st.
Proof. intros Hf. apply sc_view_ext. intros n. by destruct (frame_sc st st' n Hf). Qed.

Lemma frame_env st st' : env_ok st -> frame st st' -> env_ok st'.
Proof.
  intros (_ & Hc & Hroot) Hf. split_and!; [apply Hf| |by rewrite (frame_choices _ _ Hf)].
  intros n sc. destruct (frame_sc st st' n Hf) as [-> _]. apply Hc.
Qed.

Lemma frame_known st st' prefix : frame st st' -> fib_known prefix st -> fib_known prefix st'.
Proof. intros Hf. unfold fib_known. by destruct (frame_sc st st' prefix Hf) as [_ ->]. Qed.

(** *** Finding entries *)

Lemma got_frame now n st st' : got now n st st' ->
  frame st st' /\ (forall k, item st' k = item st k) /\ is_Some (ms_map st' !! n).
Proof.
  intros (Hok & Hm & Hr). split_and!.
  - apply (frame_insert _ _ n (get_entry now n (ms_map st))); [done..|]. intros me Hme. unfold get_entry. rewrite Hme. apply later_refl.
  - intros k. unfold item. rewrite Hm, lookup_insert. case_decide; [subst k|done]. unfold get_entry. by destruct (ms_map st !! n).
  - rewrite Hm, lookup_insert_eq. by eexists.
Qed.

Lemma filter_ok self n st : env_ok st -> is_Some (ms_map st !! n) ->
  filter_entry self (Some n) (ms_tree st) = Some (if inCharge self (choices st) n then Some n else None).
Proof.
  intros ((Hok & Hwf & _) & Hc & Hroot) [me Hme%ms_map_Some]. unfold filter_entry, inCharge.
  rewrite findEffectiveStrategy_measurements_ok by done. destruct (charge_root _ n Hroot) as [s ->]. done.
Qed.

Lemma got_filter self now n st st' : env_ok st -> got now n st st' ->
  filter_entry self (Some n) (ms_tree st') = Some (if inCharge self (choices st) n then Some n else None).
Proof.
  intros Henv Hg. destruct (got_frame _ _ _ _ Hg) as (Hf & _ & Hex). rewrite <-(frame_choices _ _ Hf).
  apply filter_ok; [by eapply frame_env|done].
Qed.

Lemma accessor_get_ok self now name st : env_ok st -> let n := take getMaxDepth name in
  exists st', accessor_get self now name st = Some (st', if inCharge self (choices st) n then Some n else None) /\
    frame st st' /\ (forall k, item st' k = item st k) /\ is_Some (ms_map st' !! n).
Proof.
  intros Henv n. unfold accessor_get. destruct (ms_get_ok now name st) as (st' & -> & Hg); [apply Henv|]. cbn [mbind option_bind].
  fold n in Hg |- *. rewrite (got_filter self now n st st') by done. exists st'. split; [done|by eapply got_frame].
Qed.

Lemma accessor_get_fib_ok self now prefix st : env_ok st -> fib_known prefix st ->
  exists st', accessor_get_fib self now prefix st = Some (st', if inCharge self (choices st) prefix then Some prefix else None) /\
    frame st st' /\ (forall k, item st' k = item st k) /\ is_Some (ms_map st' !! prefix).
Proof.
  intros Henv Hk. unfold accessor_get_fib. destruct (ms_get_fib_ok now prefix st) as (st' & -> & Hg); [apply Henv| |].
  { destruct Hk as [[f Hf]| ->]; [left|by right]. destruct Henv as ((Hok & _) & _). rewrite deref_spec by done.
    unfold fib_at, tables_at in Hf. destruct (tree st !! prefix); [by exists f|done]. }
  cbn [mbind option_bind]. rewrite (got_filter self now prefix st st') by done. exists st'. split; [done|by eapply got_frame].
Qed.

Lemma charge_take {V} (v : gmap Name V) name : charge v (take getMaxDepth name) = charge v name.
Proof.
  unfold charge. f_equal. rewrite length_take.
  replace (Nat.min (Nat.min getMaxDepth (length name)) getMaxDepth) with (Nat.min (length name) getMaxDepth) by lia.
  apply abs_match_ext. intros j Hj. rewrite take_take, Nat.min_l by lia. done.
Qed.

Lemma ms_lpm_ok name st : ms_ok st -> ms_findLongestPrefixMatch name (fun _ => true) st =
  Some (snd <$> abs_match (ms_map st) (take getMaxDepth name) (Datatypes.S (Nat.min (length (take getMaxDepth name)) getMaxDepth))).
Proof.
  intros (Hok & _). unfold ms_findLongestPrefixMatch, getPrefix. rewrite findLongestPrefixMatch_ok by done. cbn [mbind option_bind].
  f_equal. unfold prefix_entries, ms_map, ms_view. induction (Datatypes.S _) as [|i IH]; [done|]. cbn [down abs_match]. rewrite lookup_omap.
  destruct (tree st !! _) as [e|]; simpl; [|done]. by destruct (m_measurementsEntry e) eqn:E0; simpl; [rewrite E0|].
Qed.

(** *** Using entries *)

Lemma item_of_insert me : item_of (insertItem me) = item_of me.
Proof.
  unfold insertItem, item_of. destruct (me_info me !! typeId) as [ns|] eqn:E0; [by rewrite E0|].
  simpl. by rewrite lookup_insert_eq.
Qed.

Lemma timed st n me : ms_ok st -> ms_map st !! n = Some me -> entry_timed n me.
Proof. intros (_ & _ & Hall & _). apply Hall. Qed.

Lemma refresh_ok now lifetime n st : env_ok st -> is_Some (ms_map st !! n) ->
  exists st', refresh now lifetime n st = Some st' /\ frame st st' /\ (forall k, item st' k = item st k) /\
    opened n (now + lifetime) st'.
Proof.
  intros (Hst & _) [me Hme]. unfold refresh.
  destruct (extendLifetime_ok now n lifetime me st Hst Hme) as (st1 & -> & Hok1 & Hm1 & Hr1). cbn [mbind option_bind].
  set (me1 := if _ <=? _ then me else _) in Hm1.
  assert (me_expiry me <= me_expiry me1 /\ now + lifetime <= me_expiry me1 /\ me_info me1 = me_info me) as (He1 & He2 & Hi).
  { unfold me1. destruct (Z.leb_spec (now + lifetime) (me_expiry me)); simpl; auto with lia. }
  assert (ms_map st1 !! n = Some me1) as Hn1 by (rewrite Hm1; apply lookup_insert_eq).
  assert (entry_timed n (insertItem me1)) as Ht.
  { destruct (timed _ _ _ Hok1 Hn1). unfold insertItem. case_match; done. }
  assert (me_expiry (insertItem me1) = me_expiry me1) as Hx by (unfold insertItem; by case_match).
  destruct (ms_write_ok n insertItem me1 st1 Hok1 Hn1 Ht) as (Hok2 & Hm2 & Hr2).
  rewrite Hm1, insert_insert_eq in Hm2. eexists. split_and!; [done| | |].
  - apply (frame_insert _ _ n (insertItem me1)); [done|done|intros k; by rewrite Hr2|]. intros me' ?. simplify_eq.
    split; [lia|]. intros [ns Hns]. unfold insertItem. rewrite Hi, Hns. exists ns. by rewrite Hi.
  - intros k. unfold item. rewrite Hm2, lookup_insert. case_decide; [subst k|done]. rewrite Hme. simpl.
    rewrite item_of_insert. unfold item_of. by rewrite Hi.
  - exists (insertItem me1). rewrite Hm2, lookup_insert_eq, Hx. split_and!; [done| |lia].
    unfold insertItem. destruct (me_info me1 !! _) as [ns|] eqn:E0; [by exists ns|]. simpl. rewrite lookup_insert_eq. by eexists.
Qed.

(** *** Reading and writing *)

Lemma item_read_ok n t st : env_ok st -> opened n t st -> item_read n st = Some (item st n).
Proof.
  intros ((Hok & _) & _) (me & Hme & [ns Hns] & _). unfold item_read, item. rewrite ms_read_ok, Hme by done. simpl.
  unfold item_of. by rewrite Hns.
Qed.

Lemma item_write_ok n t g st : env_ok st -> opened n t st ->
  frame st (item_write n g st) /\ opened n t (item_write n g st) /\
  forall k, item (item_write n g st) k = if decide (k = n) then g (item st n) else item st k.
Proof.
  intros (Hok & _) (me & Hme & [ns Hns] & Ht). unfold item_write.
  set (h := fun me => set_me_info _ me). destruct (ms_write_ok n h me st Hok Hme) as (Hok' & Hm & Hr); [by destruct (timed st n me Hok Hme)|].
  split_and!.
  - apply (frame_insert _ _ n (h me)); [done..|]. intros me' ?. simplify_eq. split; [simpl; lia|]. intros _. simpl. rewrite lookup_alter_eq, Hns. by eexists.
  - exists (h me). rewrite Hm, lookup_insert_eq. split_and!; [done| |done]. simpl. rewrite lookup_alter_eq, Hns. by eexists.
  - intros k. unfold item. rewrite Hm, lookup_insert. repeat case_decide; subst; try done.
    rewrite Hme. simpl. unfold item_of. simpl. by rewrite lookup_alter_eq, Hns.
Qed.

Lemma opened_frame n t st st' : frame st st' -> opened n t st -> opened n t st'.
Proof.
  intros (_ & _ & Hk) (me & Hme & Hi & Ht). destruct (Hk n me Hme) as (me' & Hme' & Hle & Hi'). exists me'. split_and!; [done|auto|lia].
Qed.

Lemma opened_le n t t' st : t' <= t -> opened n t st -> opened n t' st.
Proof. intros Hle (me & ? & ? & ?). exists me. split_and!; [done|done|lia]. Qed.

Lemma abs_match_prefix {V} (a : gmap Name V) name i k x : abs_match a name i = Some (k, x) -> k `prefix_of` name.
Proof.
  induction i as [|i IH]; simpl; [done|]. case_match; [|done]. intros [= <- _]. exists (drop i name). by rewrite take_drop.
Qed.

Lemma measured_prefix name st k : measured name st = Some k -> k `prefix_of` name.
Proof.
  unfold measured. destruct (abs_match _ _ _) as [[k' x]|] eqn:Em; [|done]. intros [= <-]. apply abs_match_prefix in Em.
  etrans; [done|]. exists (drop getMaxDepth name). by rewrite take_drop.
Qed.

Lemma rest_env st st' : env_ok st -> ms_ok st' -> (forall k, rest_at k (tree st') = rest_at k (tree st)) -> env_ok st'.
Proof.
  intros (_ & Hc & Hroot) Hok Hr.
  assert (forall n, sc_at n (tree st') = sc_at n (tree st)) as Hsc.
  { intros n. specialize (Hr n). unfold rest_at in Hr. rewrite !tables_split in Hr. by injection Hr as _ _ ->. }
  split_and!; [done|intros n sc; rewrite Hsc; apply Hc|by rewrite (sc_view_ext _ _ Hsc)].
Qed.

Lemma measured_ext name st st' : (forall k, is_Some (ms_map st' !! k) <-> is_Some (ms_map st !! k)) -> measured name st' = measured name st.
Proof.
  intros Hdom. unfold measured. induction (Datatypes.S _) as [|i IH]; [done|]. simpl. set (k := take i _).
  specialize (Hdom k). destruct (ms_map st' !! k), (ms_map st !! k); [done| | |exact IH].
  - by destruct (proj1 Hdom ltac:(by eexists)).
  - by destruct (proj2 Hdom ltac:(by eexists)).
Qed.

Lemma write_dom n t g st k : env_ok st -> opened n t st -> is_Some (ms_map (item_write n g st) !! k) <-> is_Some (ms_map st !! k).
Proof.
  intros (Hok & _) (me & Hme & _). unfold item_write. set (h := fun me => set_me_info _ me).
  destruct (ms_write_ok n h me st Hok Hme) as (_ & -> & _); [by destruct (timed st n me Hok Hme)|].
  rewrite lookup_insert. case_decide; [subst k; rewrite Hme; split; by eexists|done].
Qed.

(** The longest prefix match of the strategy. *)
Lemma accessor_lpm_ok self name st : env_ok st ->
  accessor_findLongestPrefixMatch self name (fun _ => true) st =
    Some (measured name st ≫= (fun n => if inCharge self (choices st) n then Some n else None)) /\
  forall n, measured name st = Some n -> is_Some (ms_map st !! n).
Proof.
  intros Henv. unfold accessor_findLongestPrefixMatch, measured. rewrite ms_lpm_ok by apply Henv. cbn [mbind option_bind].
  destruct (abs_match _ _ _) as [[n me]|] eqn:Em; [|done]. cbn [fmap option_fmap option_map fst snd mbind option_bind].
  apply abs_match_lookup in Em. destruct (timed st n me) as [-> _]; [apply Henv|done|].
  rewrite filter_ok by (done || by eexists). split; [done|]. intros k [= <-]. by eexists.
Qed.

(** *** Which entries there are *)

Lemma got_dom now n st st' k : got now n st st' -> is_Some (ms_map st' !! k) <-> is_Some (ms_map st !! k) \/ k = n.
Proof.
  intros (_ & -> & _). rewrite lookup_insert. case_decide; [subst; split; [by right|by eexists]|].
  split; [by left|]. by intros [?|?]; [|congruence].
Qed.

Lemma accessor_get_dom self now name st st' r k : ms_ok st -> accessor_get self now name st = Some (st', r) ->
  is_Some (ms_map st' !! k) <-> is_Some (ms_map st !! k) \/ k = take getMaxDepth name.
Proof.
  intros Hok. unfold accessor_get. destruct (ms_get_ok now name st Hok) as (st1 & -> & Hg). cbn [mbind option_bind].
  destruct (filter_entry _ _ _); [|done]. intros [= <- _]. by apply (got_dom now).
Qed.

Lemma refresh_dom now lifetime n st st' k : env_ok st -> is_Some (ms_map st !! n) -> refresh now lifetime n st = Some st' ->
  is_Some (ms_map st' !! k) <-> is_Some (ms_map st !! k).
Proof.
  intros (Hst & _) [me Hme]. unfold refresh. destruct (extendLifetime_ok now n lifetime me st Hst Hme) as (st1 & -> & Hok1 & Hm1 & _).
  cbn [mbind option_bind]. intros [= <-]. set (me1 := if _ <=? _ then me else _) in Hm1.
  assert (ms_map st1 !! n = Some me1) as Hn1 by (rewrite Hm1; apply lookup_insert_eq).
  destruct (ms_write_ok n insertItem me1 st1 Hok1 Hn1) as (_ & -> & _).
  { destruct (timed _ _ _ Hok1 Hn1). unfold insertItem. case_match; done. }
  rewrite Hm1, insert_insert_eq, lookup_insert. case_decide; [subst; rewrite Hme; split; by eexists|done].
Qed.

(** The longest prefix with an entry is [n] when no longer one has any. *)
Lemma measured_covers name n st : covers (ms_map st) n (take getMaxDepth name) -> is_Some (ms_map st !! n) -> measured name st = Some n.
Proof.
  intros Hc [me Hme]. pose proof Hc as [Hp _]. unfold measured. set (m := take getMaxDepth name) in *.
  assert (length m <= getMaxDepth)%nat by (unfold m; rewrite length_take; lia). rewrite Nat.min_l by done.
  pose proof (prefix_length _ _ Hp). rewrite (abs_match_skip (ms_map st) m (Datatypes.S (length n))).
  - simpl. by rewrite (prefix_take_length n m Hp), Hme.
  - lia.
  - intros j Hj. eapply covers_take; [done|lia].
Qed.

(** *** The entries of PIT entries, and parents *)

Lemma frame_attached st st' key : frame st st' -> pit_attached key (ms_tree st) -> pit_attached key (ms_tree st').
Proof.
  intros (_ & Hr & _) (e & pe & He & Hf). specialize (Hr (nteName key.1)). unfold pit_attached, rest_at, tables_at in *. rewrite He in Hr.
  destruct (tree st' !! nteName key.1) as [e'|]; simpl in Hr; injection Hr as Hr1 Hr2 Hr3.
  - exists e', pe. split; [done|]. by rewrite Hr2.
  - rewrite <-Hr2 in Hf. done.
Qed.

Lemma accessor_get_pit_ok self now key st : env_ok st -> pit_attached key (ms_tree st) -> let n := take getMaxDepth key.1 in
  exists st', accessor_get_pit self now key st = Some (st', if inCharge self (choices st) n then Some n else None) /\
    frame st st' /\ (forall k, item st' k = item st k) /\ is_Some (ms_map st' !! n).
Proof.
  intros Henv Hp n. unfold accessor_get_pit. destruct (ms_get_pit_ok now key st) as (st' & -> & Hg); [apply Henv|done|]. cbn [mbind option_bind].
  fold n in Hg |- *. rewrite (got_filter self now n st st') by done. exists st'. split; [done|by eapply got_frame].
Qed.

Lemma accessor_getParent_ok self now child st : env_ok st -> is_Some (ms_map st !! child) ->
  exists st', accessor_getParent self now child st = Some (st', p ← parent_of child; if inCharge self (choices st) p then Some p else None) /\
    frame st st' /\ (forall k, item st' k = item st k) /\ forall p, parent_of child = Some p -> is_Some (ms_map st' !! p).
Proof.
  intros Henv [me Hme]. pose proof (ms_getParent_ok now child st (proj1 Henv) (ms_map_Some _ _ _ Hme)) as Hp. unfold accessor_getParent.
  destruct (parent_of child) as [p|].
  - destruct Hp as (st' & -> & Hg). cbn [mbind option_bind]. rewrite (got_filter self now p st st') by done. destruct (got_frame _ _ _ _ Hg) as (Hf & Hi & Hex).
    exists st'. split_and!; [done|done|done|]. by intros ? [= <-].
  - rewrite Hp. exists st. split_and!; [done|apply frame_refl, Henv|done|done].
Qed.

Lemma insertItem_ok n me st : env_ok st -> ms_map st !! n = Some me ->
  frame st (ms_write n insertItem st) /\ (forall k, item (ms_write n insertItem st) k = item st k) /\ opened n (me_expiry me) (ms_write n insertItem st).
Proof.
  intros (Hst & _) Hme. assert (me_expiry (insertItem me) = me_expiry me) as Hx by (unfold insertItem; by case_match).
  assert (is_Some (me_info (insertItem me) !! typeId)) as Hi.
  { unfold insertItem. destruct (me_info me !! typeId) as [ns|] eqn:E0; [by exists ns|]. simpl. rewrite lookup_insert_eq. by eexists. }
  destruct (ms_write_ok n insertItem me st Hst Hme) as (Hok & Hm & Hr).
  { destruct (timed _ _ _ Hst Hme). unfold insertItem. case_match; done. }
  split_and!.
  - apply (frame_insert _ _ n (insertItem me)); [done..|]. intros me' ?. simplify_eq. split; [lia|done].
  - intros k. unfold item. rewrite Hm, lookup_insert. case_decide; [subst k|done]. rewrite Hme. apply item_of_insert.
  - exists (insertItem me). rewrite Hm, lookup_insert_eq, Hx. split_and!; [done|done|lia].
Qed.

Lemma opened_exists n t st : opened n t st -> is_Some (ms_map st !! n).
Proof. intros (me & -> & _). by eexists. Qed.

Lemma item_extend_ok now n lifetime st : env_ok st -> is_Some (ms_map st !! n) ->
  exists st', extendLifetime now n lifetime st = Some st' /\ frame st st' /\ (forall k, item st' k = item st k) /\ is_Some (ms_map st' !! n).
Proof.
  intros (Hst & _) [me Hme]. destruct (extendLifetime_ok now n lifetime me st Hst Hme) as (st1 & -> & Hok1 & Hm1 & Hr1).
  set (me1 := if _ <=? _ then me else _) in Hm1.
  assert (me_expiry me <= me_expiry me1 /\ me_info me1 = me_info me) as [He1 Hi] by (unfold me1; destruct (Z.leb_spec (now + lifetime) (me_expiry me)); simpl; auto with lia).
  exists st1. split_and!; [done| | |rewrite Hm1, lookup_insert_eq; by eexists].
  - apply (frame_insert _ _ n me1); [done..|]. intros me' ?. simplify_eq. split; [done|by rewrite Hi].
  - intros k. unfold item. rewrite Hm1, lookup_insert. case_decide; [subst k|done]. rewrite Hme. simpl. unfold item_of. by rewrite Hi.
Qed.

End ItemLemmas.

(** ** Concrete trees

    A name tree on which another strategy is the default, one strategy is chosen
    for a prefix, and the FIB has a route. *)
Module ItemExamples.
Section Trees.
Context {I : Type}.
Notation ItemEntry := (Entry Z (FibEntry Z) (PitEntry Z) (MeasurementsEntry Z I) (StrategyChoiceEntry Z)).
Notation ItemTree := (Hashtable Z ItemEntry).

(** Something is placed on the entry of [n]. *)
Definition put (n : list Z) (f : ItemEntry -> ItemEntry) (t : ItemTree) : ItemTree :=
  match lookup n (length n) t with Some (t', k) => nt_update (newEntry:=newEntry) k f t' | None => t end.

(** A tree with these choices, FIB entries and PIT entries, and no measurements. *)
Definition holds (t : ItemTree) (v : gmap (list Z) (StrategyInstance Z)) (F : gmap (list Z) (FibEntry Z)) (P : gmap (list Z) (list (PitEntry Z))) : Prop :=
  nt_ok (newEntry:=newEntry) t /\ nt_wf (nt_entries (newEntry:=newEntry) t) /\ forall k, tables_at k (nt_entries (newEntry:=newEntry) t) =
    (F !! k, default [] (P !! k), None, (fun s => mkStrategyChoiceEntry k (Some s)) <$> v !! k).

Lemma put_holds n f t v F P v' F' P' : holds t v F P -> (length n <= getMaxDepth)%nat -> keeps_links f ->
  (forall k, k <> n -> v' !! k = v !! k /\ F' !! k = F !! k /\ P' !! k = P !! k) ->
  (forall e, m_fibEntry e = F !! n -> m_pitEntries e = default [] (P !! n) -> m_measurementsEntry e = None ->
    m_strategyChoiceEntry e = (fun s => mkStrategyChoiceEntry n (Some s)) <$> v !! n ->
    m_fibEntry (f e) = F' !! n /\ m_pitEntries (f e) = default [] (P' !! n) /\ m_measurementsEntry (f e) = None /\
    m_strategyChoiceEntry (f e) = (fun s => mkStrategyChoiceEntry n (Some s)) <$> v' !! n) ->
  holds (put n f t) v' F' P'.
Proof.
  intros (Hok & Hwf & Htab) Hl Hk Hrest Hf. unfold put.
  destruct (lookup_ok t n (length n) Hok Hwf) as (t' & -> & Hok' & Hwf' & Hdom & Htab'); [lia|done|]. rewrite firstn_all in *.
  destruct (update_ok t' n f Hok' Hwf' Hk) as (Hok2 & Hwf2 & He2). split_and!; [done|done|]. intros k.
  assert (is_Some (nt_entries (newEntry:=newEntry) t' !! n)) as [e He] by (apply Hdom; by right).
  pose proof (Htab' k) as Hk'. rewrite Htab in Hk'. unfold tables_at in *. rewrite He2, lookup_alter. case_decide as Hc.
  - subst k. rewrite He in *. cbn [fmap option_fmap option_map]. unfold tables in *. injection Hk' as Hk1 Hk2 Hk3 Hk4.
    destruct (Hf e Hk1 Hk2 Hk3 Hk4) as (-> & -> & -> & ->). done.
  - rewrite Hk'. destruct (Hrest k) as (-> & -> & ->); [congruence|]. done.
Qed.

Lemma put_choice n s t v F P : holds t v F P -> (length n <= getMaxDepth)%nat ->
  holds (put n (setStrategyChoiceEntry (Some (mkStrategyChoiceEntry n (Some s)))) t) (<[n := s]> v) F P.
Proof.
  intros Ht Hl. apply (put_holds n _ t v F P); [done|done|apply setStrategyChoiceEntry_keeps|intros k Hk; by rewrite lookup_insert_ne|].
  intros e H1 H2 H3 H4. rewrite lookup_insert_eq. done.
Qed.

Lemma put_fib n f t v F P : holds t v F P -> (length n <= getMaxDepth)%nat -> holds (put n (setFibEntry (Some f)) t) v (<[n := f]> F) P.
Proof.
  intros Ht Hl. apply (put_holds n _ t v F P); [done|done|apply setFibEntry_keeps|intros k Hk; by rewrite lookup_insert_ne|].
  intros e H1 H2 H3 H4. rewrite lookup_insert_eq. done.
Qed.

Lemma put_pit n pe t v F P : holds t v F P -> (length n <= getMaxDepth)%nat -> holds (put n (insertPitEntry pe) t) v F (<[n := default [] (P !! n) ++ [pe]]> P).
Proof.
  intros Ht Hl. apply (put_holds n _ t v F P); [done|done|by intros []|intros k Hk; by rewrite lookup_insert_ne|].
  intros e H1 H2 H3 H4. rewrite lookup_insert_eq. split_and!; [done| |done|done]. simpl. by rewrite H2.
Qed.

Lemma new_holds : holds (newHashtable (newOptions 4)) ∅ ∅ ∅.
Proof.
  destruct (ht_new_ok (C:=Z) (E:=ItemEntry) (newOptions 4)) as [Hok He].
  - split; [simpl; lia|]. apply Z.leb_le. by vm_compute.
  - split_and!; [done| |]; simpl in *; rewrite He; [intros n e Hn; by rewrite lookup_empty in Hn|].
    intros k. unfold tables_at. by rewrite !lookup_empty.
Qed.

Lemma holds_initial t v F P : holds t v F P -> is_Some (v !! []) ->
  env_ok (mkMeasurements t 0) /\ ms_map (mkMeasurements t 0) = ∅ /\ sc_view (nt_entries (newEntry:=newEntry) t) = v /\ forall k, is_Some (F !! k) -> fib_known k (mkMeasurements t 0).
Proof.
  intros (Hok & Hwf & Htab) Hroot.
  assert (sc_view (nt_entries (newEntry:=newEntry) t) = v) as Hv.
  { apply map_eq. intros k. rewrite sc_view_lookup. unfold sc_at. rewrite Htab. simpl. by destruct (v !! k). }
  assert (ms_map (mkMeasurements t 0) = ∅) as Hm.
  { apply map_eq. intros k. unfold ms_map. rewrite ms_view_lookup. unfold meas_at. simpl. rewrite Htab. by rewrite lookup_empty. }
  split_and!; [|done|done|].
  - split_and!.
    + split_and!; [done|done|rewrite Hm; apply map_Forall_empty|by rewrite Hm].
    + intros k sc. unfold sc_at. simpl. rewrite Htab. simpl. destruct (v !! k); [|done]. intros [= <-]. split; [done|by eexists].
    + cbn [ms_tree]. by rewrite Hv.
  - intros k Hk. left. unfold fib_at. simpl. by rewrite Htab.
Qed.

Lemma holds_attached t v F P key l pe : holds t v F P -> P !! nteName key.1 = Some l -> find_if (has_key pit_key key) l = Some pe ->
  pit_attached key t.
Proof.
  intros (_ & _ & Htab) HP Hf. specialize (Htab (nteName key.1)). rewrite HP in Htab. unfold tables_at in Htab. unfold pit_attached.
  destruct (nt_entries (newEntry:=newEntry) t !! nteName key.1) as [e|]; unfold tables in Htab; apply (f_equal (fun x => x.1.1.2)) in Htab; simpl in Htab.
  - exists e, pe. split; [done|]. by rewrite Htab.
  - rewrite <-Htab in Hf. done.
Qed.

(** The default strategy is at 9, the one chosen for [/1] at 5. *)
Definition choices0 : gmap (list Z) (StrategyInstance Z) := <[ [1] := mkStrategy 5 [7] ]> (<[ [] := mkStrategy 9 [8] ]> ∅).

Definition tree0 : ItemTree :=
  put [1] (setStrategyChoiceEntry (Some (mkStrategyChoiceEntry [1] (Some (mkStrategy 5 [7])))))
    (put [] (setStrategyChoiceEntry (Some (mkStrategyChoiceEntry [] (Some (mkStrategy 9 [8]))))) (newHashtable (newOptions 4))).

Lemma tree0_holds : holds tree0 choices0 ∅ ∅.
Proof. apply put_choice; [apply put_choice; [apply new_holds|]|]; simpl; apply Nat.leb_le; reflexivity. Qed.

Definition route (prefix : list Z) : FibEntry Z := mkFibEntry prefix [mkNextHop 4 0 10; mkNextHop 5 0 5].

(** A tree with a route for the prefix. *)
Definition routed_tree (prefix : list Z) : Measurements ItemTree := mkMeasurements (put prefix (setFibEntry (Some (route prefix))) tree0) 0.

Lemma routed_tree_ok prefix : (length prefix <= getMaxDepth)%nat ->
  env_ok (routed_tree prefix) /\ ms_map (routed_tree prefix) = ∅ /\ sc_view (nt_entries (newEntry:=newEntry) (ms_tree (routed_tree prefix))) = choices0 /\
  fib_known prefix (routed_tree prefix).
Proof.
  intros Hl. destruct (holds_initial _ _ _ _ (put_fib prefix (route prefix) _ _ _ _ tree0_holds Hl)) as (He & Hm & Hv & Hk); [by eexists|].
  split_and!; [exact He|exact Hm|exact Hv|]. apply Hk. rewrite lookup_insert_eq. by eexists.
Qed.

End Trees.
End ItemExamples.
