(* ===== verification/Cleanup.v ===== *)
(** * Cleanup on face removal

    Models [daemon/table/cleanup.cpp]: when a face goes down, its nexthops and
    its in- and out-records are removed in one pass over the name tree, and the
    entries left without table entries are erased, longer names first. The FIB
    and the PIT share the name tree. *)

From S2P Require Import Prelude Ndn Hashtable NameTree Fib Pit.
Local Open Scope Z_scope.

Section Cleanup.
Context {C M S : Type} `{Packets C}.
Notation Name := (list C).
Notation Entry := (Entry C (FibEntry C) (PitEntry C) M S).
Context {T : Type} `{!NodeTable C Entry newEntry T}.
Implicit Types (n : Name) (t : T) (m : gmap Name Entry) (e : Entry) (l : list Name).

(** [multimap::emplace]: after the elements of the same key. *)
Fixpoint multimap_emplace (k : nat) n (mm : list (nat * Name)) : list (nat * Name) :=
  match mm with
  | [] => [(k, n)]
  | kn :: mm' => if (k <? kn.1)%nat then (k, n) :: mm else kn :: multimap_emplace k n mm'
  end.

(** The body of the first loop at the entry [n]: the name tree, the size of the
    FIB, and [maybeEmptyNtes]. *)
Definition visit (face : Z) (st : option (T * Z * list (nat * Name))) n :
    option (T * Z * list (nat * Name)) :=
  '(t, fibItems, mm) ← st;
  e ← deref n t;
  fb ← match m_fibEntry e with
       | Some _ => fib_removeNextHopByFace n face (mkFib t fibItems)
       | None => Some (mkFib t fibItems)
       end;
  let t := nt_update n
    (fun e => set_pitEntries ((fun pe => deleteOutRecord face (deleteInRecord face pe)) <$> m_pitEntries e) e)
    (fib_tree fb) in
  e ← deref n t;
  Some (t, fib_nItems fb, if hasTableEntries e then mm else multimap_emplace (length (m_name e)) n mm).

Definition eraseStep (st : option T) (kn : nat * Name) : option T :=
  t ← st; '(t, _) ← eraseIfEmpty kn.2 false t; Some t.

Definition cleanupOnFaceRemoval (face : Z) t (fibItems : Z) : option (T * Z) :=
  '(t, fibItems, mm) ← foldl (visit face) (Some (t, fibItems, [])) (m_name <$> nt_list t);
  t ← foldl eraseStep (Some t) (reverse mm);
  Some (t, fibItems).

(** ** The first loop *)

(** What the visit does to an entry. *)
Definition cleanFib (face : Z) (f : FibEntry C) : option (FibEntry C) :=
  let f := removeNextHopByFace_entry face f in if hasNextHops f then Some f else None.
Definition clean (face : Z) e : Entry :=
  set_pitEntries ((fun pe => deleteOutRecord face (deleteInRecord face pe)) <$> m_pitEntries e)
    (setFibEntry (m_fibEntry e ≫= cleanFib face) e).

Lemma clean_keeps face : keeps_links (clean face).
Proof. done. Qed.

Lemma alter_eq_insert (f : Entry -> Entry) n m e : m !! n = Some e -> alter f n m = <[n := f e]> m.
Proof.
  intros He. apply map_eq. intros k. destruct (decide (k = n)) as [->|Hk].
  - by rewrite lookup_alter_eq, He, lookup_insert_eq.
  - by rewrite lookup_alter_ne, lookup_insert_ne.
Qed.

(** [removeNextHopByFace] at the FIB entry of [n]. *)
Lemma fib_removeNextHopByFace_map face t items n e f :
  nt_ok t -> nt_entries t !! n = Some e -> m_fibEntry e = Some f ->
  exists t', fib_removeNextHopByFace n face (mkFib t items) =
      Some (mkFib t' (if cleanFib face f then items else u64 (items - 1))) /\ nt_ok t' /\
    nt_entries t' = <[n := setFibEntry (cleanFib face f) e]> (nt_entries t).
Proof.
  intros Hok He Hf. unfold fib_removeNextHopByFace, fib_write, fib_eraseIfEmpty, fib_read.
  cbn [fib_tree fib_nItems].
  destruct (nt_update_spec t n (fun e => setFibEntry (removeNextHopByFace_entry face <$> m_fibEntry e) e) Hok)
    as [Hok1 He1].
  set (t1 := nt_update n _ t) in *. rewrite (alter_eq_insert _ _ _ _ He), Hf in He1.
  rewrite deref_spec, He1, lookup_insert_eq by done. simpl. unfold cleanFib.
  destruct (hasNextHops (removeNextHopByFace_entry face f)) eqn:Eh.
  - exists t1. split_and!; done.
  - unfold fib_erase_nte. cbn [fib_tree fib_nItems mbind option_bind].
    destruct (nt_update_spec t1 n (setFibEntry None) Hok1) as [Hok2 He2].
    eexists. split_and!; [done|done|]. rewrite He2, He1, (alter_eq_insert _ _ _ _ (lookup_insert_eq _ _ _)).
    by rewrite insert_insert_eq.
Qed.

Lemma visit_ok face t items mm n e :
  nt_ok t -> nt_entries t !! n = Some e -> m_name e = n ->
  exists t' items', visit face (Some (t, items, mm)) n =
      Some (t', items', if hasTableEntries (clean face e) then mm else multimap_emplace (length n) n mm) /\
    nt_ok t' /\ nt_entries t' = <[n := clean face e]> (nt_entries t).
Proof.
  intros Hok He Hn. unfold visit. cbn [mbind option_bind]. rewrite deref_spec, He by done. cbn [mbind option_bind].
  assert (exists t1 items1, match m_fibEntry e with
       | Some _ => fib_removeNextHopByFace n face (mkFib t items)
       | None => Some (mkFib t items) end = Some (mkFib t1 items1) /\ nt_ok t1 /\
     nt_entries t1 = <[n := setFibEntry (m_fibEntry e ≫= cleanFib face) e]> (nt_entries t))
    as (t1 & items1 & -> & Hok1 & He1).
  { destruct (m_fibEntry e) as [f|] eqn:Ef.
    - destruct (fib_removeNextHopByFace_map face t items n e f Hok He Ef) as (t1 & -> & ? & ?). eauto.
    - exists t, items. split_and!; [done|done|]. rewrite insert_id; [done|]. rewrite He. f_equal.
      unfold setFibEntry. destruct e; simpl in *. by subst. }
  cbn [mbind option_bind fib_tree fib_nItems].
  set (g := fun e : Entry => set_pitEntries _ e).
  destruct (nt_update_spec t1 n g Hok1) as [Hok2 He2].
  rewrite He1, (alter_eq_insert _ _ _ _ (lookup_insert_eq _ _ _)), insert_insert_eq in He2.
  rewrite deref_spec, He2, lookup_insert_eq by done. cbn [mbind option_bind].
  eexists _, _. split_and!; [|done|exact He2].
  assert (m_name (g (setFibEntry (m_fibEntry e ≫= cleanFib face) e)) = n) as -> by done. done.
Qed.

Lemma emplace_perm k n mm : multimap_emplace k n mm ≡ₚ (k, n) :: mm.
Proof.
  induction mm as [|kn mm IH]; simpl; [done|]. case_match; [done|]. rewrite IH. apply perm_swap.
Qed.

(** Keys are lengths, in ascending order. *)
Definition mm_ok (mm : list (nat * Name)) : Prop :=
  Forall (fun kn => kn.1 = length kn.2) mm /\
  StronglySorted (fun a b => (a.1 <= b.1)%nat) mm.

Lemma emplace_ok n mm : mm_ok mm -> mm_ok (multimap_emplace (length n) n mm).
Proof.
  intros [Hk Hs]. split; [rewrite emplace_perm; by constructor|].
  induction Hs as [|kn mm Hs IH Hall]; simpl; [repeat constructor|].
  apply Forall_cons in Hk as [_ Hk]. destruct (Nat.ltb_spec (length n) kn.1) as [Hlt|Hge].
  - constructor; [by constructor|]. constructor; [simpl; lia|].
    eapply Forall_impl; [exact Hall|]. simpl. intros; lia.
  - constructor; [by apply IH|]. rewrite emplace_perm. by constructor.
Qed.

(** What the first loop leaves after visiting [l], from [mm]. *)
Definition visited face m m' l (mm mm' : list (nat * Name)) : Prop :=
  (forall k, m' !! k = if decide (k ∈ l) then clean face <$> m !! k else m !! k) /\
  mm_ok mm' /\ NoDup mm'.*2 /\
  (forall n, n ∈ mm'.*2 <->
     n ∈ mm.*2 \/ n ∈ l /\ exists e, m !! n = Some e /\ hasTableEntries (clean face e) = false).

Lemma visited_step face m m' l n e (mm mm' : list (nat * Name)) :
  n ∉ l -> m !! n = Some e ->
  visited face (<[n := clean face e]> m) m' l
    (if hasTableEntries (clean face e) then mm else multimap_emplace (length n) n mm) mm' ->
  visited face m m' (n :: l) mm mm'.
Proof.
  intros Hn He (Hm & Hmm & Hnd & Hin). split_and!; [|done|done|].
  - intros k. rewrite Hm. destruct (decide (k = n)) as [->|Hne].
    + rewrite decide_False, decide_True by set_solver. by rewrite lookup_insert_eq, He.
    + rewrite lookup_insert_ne by done. repeat case_decide; set_solver.
  - intros k. rewrite Hin. clear Hin Hm.
    assert (k ∈ (if hasTableEntries (clean face e) then mm else multimap_emplace (length n) n mm).*2 <->
      k ∈ mm.*2 \/ k = n /\ hasTableEntries (clean face e) = false) as ->.
    { destruct (hasTableEntries _); [naive_solver|]. rewrite emplace_perm. simpl.
      rewrite elem_of_cons. naive_solver. }
    rewrite elem_of_cons. destruct (decide (k = n)) as [->|Hne].
    + rewrite lookup_insert_eq. naive_solver.
    + rewrite lookup_insert_ne by done. naive_solver.
Qed.

Lemma visit_loop_ok face : forall l t items mm,
  nt_ok t -> NoDup l -> mm_ok mm -> NoDup mm.*2 -> (forall n, n ∈ l -> n ∉ mm.*2) ->
  (forall n, n ∈ l -> exists e, nt_entries t !! n = Some e /\ m_name e = n) ->
  exists t' items' mm', foldl (visit face) (Some (t, items, mm)) l = Some (t', items', mm') /\
    nt_ok t' /\ visited face (nt_entries t) (nt_entries t') l mm mm'.
Proof.
  induction l as [|n l IH]; intros t items mm Hok Hnd Hmm Hndm Hdis Hex; cbn [foldl].
  - exists t, items, mm. split_and!; [done..|]. split_and!; [|done|done|].
    + intros k. by rewrite decide_False by set_solver.
    + set_solver.
  - apply NoDup_cons in Hnd as [Hn Hnd]. destruct (Hex n) as (e & He & Hen); [set_solver|].
    destruct (visit_ok face t items mm n e Hok He Hen) as (t1 & items1 & -> & Hok1 & He1).
    destruct (IH t1 items1 (if hasTableEntries (clean face e) then mm
                else multimap_emplace (length n) n mm)) as (t2 & items2 & mm2 & Hf & Hok2 & Hv).
    + done.
    + done.
    + case_match; [done|]. by apply emplace_ok.
    + case_match; [done|]. rewrite emplace_perm. simpl. apply NoDup_cons. split; [|done]. set_solver.
    + intros k Hk. case_match; [set_solver|]. rewrite emplace_perm. set_solver.
    + intros k Hk. rewrite He1. destruct (decide (k = n)) as [->|Hne]; [done|].
      rewrite lookup_insert_ne by done. apply Hex. set_solver.
    + exists t2, items2, mm2. split_and!; [done|done|]. rewrite He1 in Hv. by eapply visited_step.
Qed.

(** ** The second loop *)

(** After the entries of [mm] have been tried, from the longest to the shortest,
    none of them is left empty. *)
Lemma erase_loop_ok : forall mm t,
  nt_ok t -> nt_wf (nt_entries t) -> mm_ok mm -> NoDup mm.*2 ->
  (forall n, n ∈ mm.*2 -> is_Some (nt_entries t !! n)) ->
  exists t', foldr (fun kn st => eraseStep st kn) (Some t) mm = Some t' /\
    nt_ok t' /\ nt_wf (nt_entries t') /\
    (forall n, tables_at n (nt_entries t') = tables_at n (nt_entries t)) /\
    (forall n, n ∉ mm.*2 -> is_Some (nt_entries t !! n) -> is_Some (nt_entries t' !! n)) /\
    (forall n, is_Some (nt_entries t' !! n) -> is_Some (nt_entries t !! n)) /\
    (forall n e, n ∈ mm.*2 -> nt_entries t' !! n = Some e -> isEmpty e = false).
Proof.
  induction mm as [|[k n] mm IH]; intros t Hok Hwf [Hk Hs] Hnd Hex; cbn [foldr].
  - exists t. split_and!; try done. set_solver.
  - apply Forall_cons in Hk as [Hkn Hk]. apply StronglySorted_inv in Hs as [Hs Hall].
    cbn [fmap list_fmap fst snd] in *. apply NoDup_cons in Hnd as [Hn Hnd].
    destruct (IH t Hok Hwf (conj Hk Hs) Hnd) as (t1 & -> & Hok1 & Hwf1 & Htab1 & Hkeep1 & Hsub1 & Hne1);
      [set_solver|].
    unfold eraseStep. cbn [mbind option_bind snd].
    destruct (Hkeep1 n Hn) as [e He]; [apply Hex; set_solver|].
    destruct (eraseIfEmpty_self t1 n e Hok1 Hwf1 He) as (t2 & q & -> & Hok2 & He2).
    cbn [mbind option_bind]. exists t2.
    destruct (isEmpty e) eqn:Hemp.
    2: { rewrite He2. split_and!; try done; [set_solver|].
         intros k' e' [->|Hk']%elem_of_cons He'; [congruence|by eapply Hne1]. }
    apply isEmpty_true in Hemp as [Hch Htabs]. rewrite He2. split_and!; [done|done|..].
    + by eapply prune_wf.
    + intros k'. rewrite prune_tables; [done|]. right. unfold tables_at. by rewrite He.
    + intros k' Hk' Hs'. apply prune_is_Some. split; [set_solver|]. apply Hkeep1; set_solver.
    + intros k' [_ Hs']%prune_is_Some. by apply Hsub1.
    + intros k' e' [->|Hk']%elem_of_cons He'.
      { by rewrite prune_lookup, decide_True in He'. }
      rewrite prune_lookup in He'. case_decide; [done|]. case_decide as Hp; [|by eapply Hne1].
      apply parent_of_length in Hp. apply list_elem_of_fmap in Hk' as ([k1 n1] & -> & Hk1).
      rewrite Forall_forall in Hall, Hk. specialize (Hall _ Hk1). specialize (Hk _ Hk1).
      simpl in *. lia.
Qed.

Lemma foldl_reverse {A B} (f : A -> B -> A) a (l : list B) :
  foldl f a (reverse l) = foldr (fun x acc => f acc x) a l.
Proof. induction l as [|x l IH]; [done|]. rewrite reverse_cons, foldl_app, IH. done. Qed.

(** The names in the order of the enumeration. *)
Lemma list_names t :
  nt_ok t -> nt_wf (nt_entries t) ->
  NoDup (m_name <$> nt_list t) /\
  (forall n, n ∈ m_name <$> nt_list t <-> is_Some (nt_entries t !! n)).
Proof.
  intros Hok Hwf.
  assert (m_name <$> nt_list t ≡ₚ (map_to_list (nt_entries t)).*1) as Hp.
  { rewrite nt_list_spec by done. rewrite <-list_fmap_compose. apply reflexive_eq, list_fmap_ext.
    intros i [n e] Hi. apply list_elem_of_lookup_2, elem_of_map_to_list in Hi. simpl.
    by destruct (Hwf n e Hi) as [-> _]. }
  split; [rewrite Hp; apply NoDup_fst_map_to_list|]. intros n. rewrite Hp, list_elem_of_fmap. split.
  - intros ([n' e] & -> & Hi). apply elem_of_map_to_list in Hi. by exists e.
  - intros [e He]. exists (n, e). split; [done|]. by apply elem_of_map_to_list.
Qed.

(** The tables of the names after the cleanup. *)
Definition cleaned face m n : option (FibEntry C) * list (PitEntry C) * option M * option S :=
  tables_at n (clean face <$> m).

Lemma hasTableEntries_false e : hasTableEntries e = false <-> tables e = (None, [], None, None).
Proof.
  unfold hasTableEntries, tables. destruct e as [n p ch f pit me sc]; simpl.
  by destruct f, pit, me, sc.
Qed.

Lemma cleanup_ok face t items :
  nt_ok t -> nt_wf (nt_entries t) ->
  exists t' items', cleanupOnFaceRemoval face t items = Some (t', items') /\
    nt_ok t' /\ nt_wf (nt_entries t') /\
    (forall n, tables_at n (nt_entries t') = cleaned face (nt_entries t) n) /\
    (forall n e, nt_entries t' !! n = Some e -> isEmpty e = false).
Proof.
  intros Hok Hwf. destruct (list_names t Hok Hwf) as [Hnd Hdom]. unfold cleanupOnFaceRemoval.
  destruct (visit_loop_ok face (m_name <$> nt_list t) t items []) as (t1 & items1 & mm & -> & Hok1 & Hv).
  - done.
  - done.
  - split; constructor.
  - apply NoDup_nil. done.
  - set_solver.
  - intros n [e He]%Hdom. exists e. split; [done|]. by destruct (Hwf n e He).
  - destruct Hv as (Hm1 & Hmm & Hndm & Hin). cbn [mbind option_bind]. rewrite foldl_reverse.
    assert (nt_entries t1 = clean face <$> nt_entries t) as He1.
    { apply map_eq. intros k. rewrite Hm1, lookup_fmap. case_decide as Hk; [done|].
      rewrite Hdom in Hk. apply eq_None_not_Some in Hk. by rewrite Hk. }
    assert (nt_wf (nt_entries t1)) as Hwf1.
    { rewrite He1. intros n e Hn. rewrite lookup_fmap, fmap_Some in Hn. destruct Hn as (e0 & He0 & ->).
      destruct (Hwf n e0 He0) as (?&?&?&Hp&?&Hc). unfold entry_wf. setoid_rewrite lookup_fmap.
      setoid_rewrite fmap_is_Some. done. }
    destruct (erase_loop_ok mm t1 Hok1 Hwf1 Hmm Hndm) as (t2 & -> & Hok2 & Hwf2 & Htab & _ & Hsub & Hne).
    { intros n Hn. apply Hin in Hn as [Hn|(_ & e & He & _)]; [set_solver|].
      rewrite He1, lookup_fmap, He. by eexists. }
    cbn [mbind option_bind]. exists t2, items1. split_and!; try done.
    + intros n. by rewrite Htab, He1.
    + intros n e He. destruct (isEmpty e) eqn:Hemp; [|done]. rewrite <-Hemp. apply (Hne n e); [|done].
      apply Hin. right. destruct (Hsub n) as [e1 Hn1]; [by eexists|].
      pose proof Hn1 as Hn1'. rewrite He1, lookup_fmap, fmap_Some in Hn1'. destruct Hn1' as (e0 & He0 & ->).
      split; [apply Hdom; by eexists|]. exists e0. split; [done|]. apply hasTableEntries_false.
      apply isEmpty_true in Hemp as [_ Hte]. specialize (Htab n). unfold tables_at in Htab.
      rewrite He, Hn1 in Htab. congruence.
Qed.

Lemma cleaned_fib face m n f nh :
  (cleaned face m n).1.1.1 = Some f -> nh ∈ m_nextHops f -> nh_face nh <> face.
Proof.
  unfold cleaned, tables_at. rewrite lookup_fmap. destruct (m !! n) as [e|]; simpl; [|done].
  intros (f0 & _ & Hf)%bind_Some. unfold cleanFib in Hf. case_match; simplify_eq.
  intros [_ Hnh]%elem_of_remove_if. by apply Z.eqb_neq.
Qed.

Lemma cleaned_pit face m n pe :
  (forall pe, pe ∈ pits_at n m -> records_ok pe) -> pe ∈ (cleaned face m n).1.1.2 ->
  getInRecord face pe = None /\ getOutRecord face pe = None.
Proof.
  unfold cleaned, pits_at, tables_at. rewrite lookup_fmap. destruct (m !! n) as [e|]; simpl; [|set_solver].
  intros Hr (pe0 & -> & Hpe0)%list_elem_of_fmap. destruct (Hr pe0 Hpe0) as [Hi Ho].
  split; by apply find_erase_same.
Qed.

(** When a face is removed, the cleanup runs to its end without following a
    dangling pointer; afterwards no FIB nexthop and no in- or out-record is on the
    face, every other table entry is as the removal of that face leaves it, the
    name tree is well formed, and its closing assertion holds: no entry is left
    empty. *)
Theorem cleanupOnFaceRemoval_correct face t items :
  nt_ok t -> nt_wf (nt_entries t) ->
  (forall n pe, pe ∈ pits_at n (nt_entries t) -> records_ok pe) ->
  exists t' items', cleanupOnFaceRemoval face t items = Some (t', items') /\
    nt_ok t' /\ nt_wf (nt_entries t') /\
    (forall n, tables_at n (nt_entries t') = cleaned face (nt_entries t) n) /\
    (forall n f nh, fib_view (nt_entries t') !! n = Some f -> nh ∈ m_nextHops f -> nh_face nh <> face) /\
    (forall n pe, pe ∈ pits_at n (nt_entries t') ->
       getInRecord face pe = None /\ getOutRecord face pe = None) /\
    (forall n e, nt_entries t' !! n = Some e -> isEmpty e = false).
Proof.
  intros Hok Hwf Hr. destruct (cleanup_ok face t items Hok Hwf) as (t' & items' & Hc & Hok' & Hwf' & Htab & Hne).
  exists t', items'. split_and!; try done.
  - intros n f nh. rewrite fib_view_lookup, Htab. apply cleaned_fib.
  - intros n pe. unfold pits_at. rewrite Htab. apply cleaned_pit. apply Hr.
Qed.

End Cleanup.

Module CleanupExamples.

Notation FullTree := (Hashtable Z (Entry Z (FibEntry Z) (PitEntry Z) Z Z)).

Definition t0 : FullTree := newHashtable (newOptions 4).

Lemma t0_ok : nt_ok (newEntry:=newEntry) t0 /\ nt_entries (newEntry:=newEntry) t0 = ∅.
Proof.
  apply (ht_new_ok (C:=Z) (E:=Entry Z (FibEntry Z) (PitEntry Z) Z Z) (newOptions 4)).
  split; [simpl; lia|]. apply Z.leb_le. by vm_compute.
Qed.

Definition t1 : FullTree := match lookup [1; 2] 2 t0 with Some (t, _) => t | None => t0 end.

Lemma t1_ok : nt_ok (newEntry:=newEntry) t1 /\ nt_wf (nt_entries (newEntry:=newEntry) t1) /\
  (forall n, tables_at n (nt_entries (newEntry:=newEntry) t1) = (None, [], None, None)).
Proof.
  destruct t0_ok as [Hok He].
  destruct (lookup_ok t0 [1; 2] 2 Hok) as (t' & Hl & Hok' & Hwf' & _ & Htab);
    [intros n e Hn; rewrite He in Hn; by rewrite lookup_empty in Hn|simpl; lia|unfold getMaxDepth; lia|].
  unfold t1. rewrite Hl. split_and!; [done|done|]. intros n. rewrite Htab, He. unfold tables_at.
  by rewrite lookup_empty.
Qed.

(** A tree that the cleanup empties. *)
Example cleanupOnFaceRemoval_correct_witness :
  exists t' items', cleanupOnFaceRemoval 5 t1 0 = Some (t', items') /\
    (forall n e, nt_entries (newEntry:=newEntry) t' !! n = Some e -> isEmpty e = false).
Proof.
  destruct t1_ok as (Hok & Hwf & Htab).
  destruct (cleanupOnFaceRemoval_correct 5 t1 0 Hok Hwf) as (t' & items' & Hc & _ & _ & _ & _ & _ & Hne).
  - intros n pe. unfold pits_at. rewrite Htab. intros Hpe. by apply not_elem_of_nil in Hpe.
  - exists t', items'. split; [exact Hc|exact Hne].
Defined.

End CleanupExamples.
