(* ===== verification/DeadNonceList.v ===== *)
(** * Dead Nonce list

    Models [daemon/table/dead-nonce-list.hpp/.cpp]: a queue of 64-bit hashes of
    (name, nonce) whose capacity is tuned so that an entry lives for about
    [m_lifetime]. The two indexes of the multi-index container are the sequence
    of the entries and the set of them. The scheduler calls [mark] and
    [adjustCapacity]; here they are events. Capacities are scaled in double
    precision, as the code does. *)

From S2P Require Import Prelude Fp CityHash Ndn.
Local Open Scope Z_scope.

Definition MIN_LIFETIME : Z := 1000000.
Definition INITIAL_CAPACITY : Z := 2 ^ 7.
Definition MIN_CAPACITY : Z := 2 ^ 3.
Definition MAX_CAPACITY : Z := 2 ^ 24.
Definition MARK : Z := 0.
Definition EXPECTED_MARK_COUNT : Z := 5.
Definition CAPACITY_UP : Z := double_of_dec 12 10.
Definition CAPACITY_DOWN : Z := double_of_dec 9 10.
Definition EVICT_LIMIT : Z := 2 ^ 6.

Record DeadNonceList := mkDnl {
  m_lifetime : Z;
  m_queue : list Z;
  m_capacity : Z;
  m_actualMarkCounts : list Z;
  m_markInterval : Z;
  m_adjustCapacityInterval : Z
}.

Section DeadNonceList.
Context {C : Type} `{NameComponent C}.
Notation Name := (list C).
(** ndn-cxx's TLV encoding of a name. *)
Context (nameWire : Name -> list Z).
Implicit Types d : DeadNonceList.

Definition set_queue (q : list Z) d : DeadNonceList :=
  mkDnl (m_lifetime d) q (m_capacity d) (m_actualMarkCounts d) (m_markInterval d) (m_adjustCapacityInterval d).

(** The constructor; [None] when it throws. *)
Definition newDeadNonceList (lifetime : Z) : option DeadNonceList :=
  if lifetime <? MIN_LIFETIME then None
  else Some (mkDnl lifetime (replicate (Z.to_nat EXPECTED_MARK_COUNT) MARK) INITIAL_CAPACITY []
               (lifetime / EXPECTED_MARK_COUNT) lifetime).

Definition makeEntry (name : Name) (nonce : Z) : Z := city64_seed (nameWire name) nonce.

Definition has (name : Name) (nonce : Z) d : bool := bool_decide (makeEntry name nonce ∈ m_queue d).

Definition evictEntries d : DeadNonceList :=
  let nOverCapacity := Z.of_nat (length (m_queue d)) - m_capacity d in
  if nOverCapacity <=? 0 then d
  else set_queue (drop (Z.to_nat (Z.min nOverCapacity EVICT_LIMIT)) (m_queue d)) d.

Definition add (name : Name) (nonce : Z) d : DeadNonceList :=
  evictEntries (set_queue (m_queue d ++ [makeEntry name nonce]) d).

Definition countMarks d : Z := Z.of_nat (length (remove_if (fun x => negb (x =? MARK)) (m_queue d))).

Definition size d : Z := Z.of_nat (length (m_queue d)) - countMarks d.

Definition mark d : DeadNonceList :=
  let d := set_queue (m_queue d ++ [MARK]) d in
  mkDnl (m_lifetime d) (m_queue d) (m_capacity d) (countMarks d :: m_actualMarkCounts d)
    (m_markInterval d) (m_adjustCapacityInterval d).

(** [equal_range(EXPECTED_MARK_COUNT).second == begin()]: no count is at most the
    expected one; [.first == end()]: no count is at least the expected one. *)
Definition adjustCapacity d : DeadNonceList :=
  let counts := m_actualMarkCounts d in
  let capacity :=
    if forallb (fun c => EXPECTED_MARK_COUNT <? c) counts
    then Z.max MIN_CAPACITY (double_to_int (double_mul (double_of_int (m_capacity d)) CAPACITY_DOWN))
    else if forallb (fun c => c <? EXPECTED_MARK_COUNT) counts
    then Z.min MAX_CAPACITY (double_to_int (double_mul (double_of_int (m_capacity d)) CAPACITY_UP))
    else m_capacity d in
  evictEntries (mkDnl (m_lifetime d) (m_queue d) capacity [] (m_markInterval d) (m_adjustCapacityInterval d)).

(** ** Events *)

Inductive dnl_event := Add (name : Name) (nonce : Z) | Mark | AdjustCapacity.

Definition dnl_step d (ev : dnl_event) : DeadNonceList :=
  match ev with
  | Add name nonce => add name nonce d
  | Mark => mark d
  | AdjustCapacity => adjustCapacity d
  end.

(** Whether the event pushes an entry. *)
Definition pushes (ev : dnl_event) : nat := match ev with AdjustCapacity => 0 | _ => 1 end.

(** The states that a sequence of events goes through. *)
Fixpoint trace d (evs : list dnl_event) : list DeadNonceList :=
  match evs with
  | [] => []
  | ev :: evs' => dnl_step d ev :: trace (dnl_step d ev) evs'
  end.

Definition final d (evs : list dnl_event) : DeadNonceList := foldl dnl_step d evs.

(** ** Capacity *)

Definition capacity_ok d : Prop := MIN_CAPACITY <= m_capacity d <= MAX_CAPACITY.

Lemma scale_down cap : 8 <= cap <= 2 ^ 24 ->
  0 <= double_to_int (double_mul (double_of_int cap) CAPACITY_DOWN) <= cap - 1.
Proof.
  intros Hc. assert (0 <= CAPACITY_DOWN /\ 16 * CAPACITY_DOWN <= 15 * 2 ^ 1074) as [H0 H1].
  { split; apply Z.leb_le; by vm_compute. }
  rewrite of_int_exact, to_int_def, fmul_def by lia.
  set (P := 2 ^ 1073). assert (2 ^ 1074 = 2 * P) as Hp by (unfold P; rewrite <-Z.pow_succ_r; [done|lia]).
  assert (0 < P) by (apply Z.pow_pos_nonneg; lia). rewrite Hp in *.
  assert (fround 53 (cap * (2 * P) * CAPACITY_DOWN) (2 * P) <= (2 * cap - 1) * P) as Hle.
  { apply fround_le_repr; [lia|lia|nia|apply repr_int; lia|nia]. }
  assert (0 <= fround 53 (cap * (2 * P) * CAPACITY_DOWN) (2 * P)) as Hge.
  { apply fround_nonneg; [lia|lia|nia]. }
  split; [apply Z.quot_pos; lia|]. rewrite Z.quot_div_nonneg by lia.
  apply Z.lt_succ_r, Z.div_lt_upper_bound; nia.
Qed.

Lemma scale_up cap : 8 <= cap <= 2 ^ 24 ->
  cap + 1 <= double_to_int (double_mul (double_of_int cap) CAPACITY_UP).
Proof.
  intros Hc. assert (9 * 2 ^ 1074 <= 8 * CAPACITY_UP) as H1 by (apply Z.leb_le; by vm_compute).
  rewrite of_int_exact, to_int_def, fmul_def by lia.
  assert (0 < 2 ^ 1074) by (apply Z.pow_pos_nonneg; lia). set (P := 2 ^ 1074) in *.
  assert ((cap + 1) * P <= fround 53 (cap * P * CAPACITY_UP) P) as Hge.
  { apply fround_ge_repr; [lia|lia|apply repr_int; lia|nia]. }
  rewrite Z.quot_div_nonneg by nia. apply Z.div_le_lower_bound; lia.
Qed.

Lemma evict_capacity d : m_capacity (evictEntries d) = m_capacity d.
Proof. unfold evictEntries. by case_match. Qed.

(** The new capacity, before eviction. *)
Lemma adjust_capacity d : capacity_ok d ->
  let cap := m_capacity (adjustCapacity d) in
  if forallb (fun c => EXPECTED_MARK_COUNT <? c) (m_actualMarkCounts d)
  then cap = MIN_CAPACITY \/ MIN_CAPACITY < cap < m_capacity d
  else if forallb (fun c => c <? EXPECTED_MARK_COUNT) (m_actualMarkCounts d)
  then cap = MAX_CAPACITY \/ m_capacity d < cap < MAX_CAPACITY
  else cap = m_capacity d.
Proof.
  intros [Hl Hu]. unfold adjustCapacity, MIN_CAPACITY, MAX_CAPACITY in *. cbv zeta.
  rewrite evict_capacity. cbn [m_capacity].
  pose proof (scale_down (m_capacity d)). pose proof (scale_up (m_capacity d)).
  case_match; [lia|]. case_match; lia.
Qed.

Lemma capacity_step d ev : capacity_ok d -> capacity_ok (dnl_step d ev).
Proof.
  intros Hd. destruct ev as [name nonce| |]; unfold capacity_ok; simpl.
  - unfold add. by rewrite evict_capacity.
  - done.
  - pose proof (adjust_capacity d Hd) as Ha. cbv zeta in Ha. destruct Hd.
    unfold MIN_CAPACITY, MAX_CAPACITY in *.
    case_match; [lia|]. case_match; [lia|]. unfold capacity_ok, MIN_CAPACITY, MAX_CAPACITY in *. lia.
Qed.

(** ** Retention *)

(** The last [k] entries of a queue. *)
Definition last_entries (k : nat) (q : list Z) : list Z := drop (length q - k) q.

Lemma evict_keeps d : exists k, m_queue (evictEntries d) = drop k (m_queue d) /\
  (k = 0%nat \/ (Z.to_nat (m_capacity d) <= length (m_queue d) - k)%nat).
Proof.
  unfold evictEntries. case_match eqn:E0; [by exists 0%nat; auto|].
  eexists. split; [done|]. right. breflect. lia.
Qed.

(** An entry at most [n] from the end of the queue stays so under an eviction
    that leaves the last [c] of them, when [n < c]. *)
Definition within (x : Z) (n : nat) (q : list Z) : Prop :=
  exists q1 q2, q = q1 ++ x :: q2 /\ (length q2 <= n)%nat.

Lemma within_evict x n d :
  within x n (m_queue d) -> (Z.of_nat n < m_capacity d) -> within x n (m_queue (evictEntries d)).
Proof.
  intros (q1 & q2 & Hq & Hn) Hc. destruct (evict_keeps d) as (k & -> & Hk).
  exists (drop k q1), q2. split; [|done]. rewrite Hq in *. rewrite drop_app_le; [done|].
  destruct Hk as [->|Hk]; [lia|]. rewrite length_app in Hk. simpl in Hk. lia.
Qed.

Lemma within_push x y n q : within x n q -> within x (S n) (q ++ [y]).
Proof.
  intros (q1 & q2 & -> & Hn). exists q1, (q2 ++ [y]). rewrite <-app_assoc. split; [done|].
  rewrite length_app. simpl. lia.
Qed.

Lemma within_step x n d ev :
  within x n (m_queue d) -> Z.of_nat (n + pushes ev) < m_capacity (dnl_step d ev) ->
  within x (n + pushes ev) (m_queue (dnl_step d ev)).
Proof.
  intros Hx Hc. destruct ev as [name nonce| |]; cbn [dnl_step pushes] in *.
  - unfold add in *. rewrite evict_capacity in Hc. apply within_evict; [|done].
    rewrite Nat.add_1_r. by apply within_push.
  - rewrite Nat.add_1_r. by apply within_push.
  - rewrite Nat.add_0_r in *. unfold adjustCapacity in *. rewrite evict_capacity in Hc.
    by apply within_evict.
Qed.

Lemma within_run x evs : forall n d c,
  within x n (m_queue d) -> Forall (fun d' => Z.of_nat c <= m_capacity d') (trace d evs) ->
  (n + sum_list_with pushes evs < c)%nat ->
  within x (n + sum_list_with pushes evs) (m_queue (final d evs)).
Proof.
  induction evs as [|ev evs IH]; intros n d c Hx Hc Hn; simpl in *; [by rewrite Nat.add_0_r|].
  apply Forall_cons in Hc as [Hc1 Hc]. rewrite Nat.add_assoc. eapply IH; [|done|lia].
  apply within_step; [done|lia].
Qed.

Lemma has_within name nonce n d : within (makeEntry name nonce) n (m_queue d) -> has name nonce d = true.
Proof.
  intros (q1 & q2 & Hq & _). unfold has. apply bool_decide_eq_true. rewrite Hq. set_solver.
Qed.

Lemma add_within name nonce d :
  capacity_ok d -> within (makeEntry name nonce) 0 (m_queue (add name nonce d)).
Proof.
  intros [Hl _]. apply within_evict; [|unfold MIN_CAPACITY in *; simpl; lia].
  exists (m_queue d), []. done.
Qed.

(** The capacity stays between [MIN_CAPACITY] and [MAX_CAPACITY] along
    every sequence of events; an adjustment with all mark counts above the
    expected one strictly lowers it (or reaches the minimum), one with all counts
    below strictly raises it (or reaches the maximum), and otherwise it stays, in
    the rounded double-precision arithmetic of the code. *)
Theorem dnl_capacity_bounds d evs :
  capacity_ok d ->
  capacity_ok (final d evs) /\
  let d' := final d evs in
  let cap := m_capacity (adjustCapacity d') in
  if forallb (fun c => EXPECTED_MARK_COUNT <? c) (m_actualMarkCounts d')
  then cap = MIN_CAPACITY \/ MIN_CAPACITY < cap < m_capacity d'
  else if forallb (fun c => c <? EXPECTED_MARK_COUNT) (m_actualMarkCounts d')
  then cap = MAX_CAPACITY \/ m_capacity d' < cap < MAX_CAPACITY
  else cap = m_capacity d'.
Proof.
  intros Hd. assert (capacity_ok (final d evs)) as Hd'.
  { revert d Hd. unfold final. induction evs as [|ev evs IH]; intros d Hd; simpl; [done|].
    by apply IH, capacity_step. }
  split; [done|]. by apply adjust_capacity.
Qed.

(** A recorded (name, nonce) is found until as many entries have been pushed
    after it as the capacity was at its lowest since: with the capacity at least
    [c] throughout, any events with fewer than [c] additions and marks keep it. *)
Theorem dnl_has_after_add name nonce d evs c :
  capacity_ok d -> Forall (fun d' => Z.of_nat c <= m_capacity d') (trace (add name nonce d) evs) ->
  (sum_list_with pushes evs < c)%nat ->
  has name nonce (final (add name nonce d) evs) = true.
Proof.
  intros Hd Hc Hn. eapply has_within. eapply (within_run _ evs 0); [by apply add_within|done|done].
Qed.

(** The size after an addition: one more while there is room, and otherwise
    brought towards the capacity by at most [EVICT_LIMIT] evictions. *)
Lemma add_length name nonce d :
  capacity_ok d ->
  let n := Z.of_nat (length (m_queue d)) in
  Z.of_nat (length (m_queue (add name nonce d))) =
  if n <? m_capacity d then n + 1 else Z.max (m_capacity d) (n + 1 - EVICT_LIMIT).
Proof.
  intros [Hl Hu]. unfold add, evictEntries, EVICT_LIMIT, MIN_CAPACITY in *.
  cbn [set_queue m_queue m_capacity]. rewrite length_app. cbn [length].
  cbv zeta. case_match eqn:E1; case_match eqn:E2; breflect; cbn [m_queue set_queue];
    rewrite ?length_drop, ?length_app; cbn [length]; lia.
Qed.

End DeadNonceList.

Definition exampleNameWire (name : list Z) : list Z := concat (comp_wire <$> name).
Definition dnl0 : DeadNonceList := default (mkDnl 0 [] 8 [] 0 0) (newDeadNonceList 6000000000).

Example dnl_capacity_bounds_witness :
  capacity_ok (final exampleNameWire dnl0 [Add [1] 7; Mark; AdjustCapacity]).
Proof.
  refine (proj1 (dnl_capacity_bounds exampleNameWire dnl0 [Add [1] 7; Mark; AdjustCapacity] _)).
  unfold capacity_ok. split; apply Z.leb_le; by vm_compute.
Defined.

Example dnl_has_after_add_witness :
  has exampleNameWire [1; 2] 99 (final exampleNameWire (add exampleNameWire [1; 2] 99 dnl0)
    [Add [1] 7; Mark; AdjustCapacity]) = true.
Proof.
  apply (dnl_has_after_add exampleNameWire [1; 2] 99 dnl0 [Add [1] 7; Mark; AdjustCapacity] 8).
  - unfold capacity_ok. split; apply Z.leb_le; by vm_compute.
  - repeat (apply Forall_cons; split; [apply Z.leb_le; by vm_compute|]). apply Forall_nil. done.
  - simpl. lia.
Defined.
