(* ===== verification/CsTable.v ===== *)
(** * Content store: the table and its searches

    Models [daemon/table/cs-entry.hpp/.cpp], [cs-entry-impl.hpp/.cpp] and the
    search functions of [cs.cpp]. The table is a [std::set] ordered by
    [EntryImpl::operator<], here the list of its entries in that order; an
    iterator of a search is the position of the element in the list, the position
    past the last element being [end()]. Times are nanoseconds on the steady
    clock; [now] is the reading of the clock. *)

From S2P Require Import Prelude Ndn.
Local Open Scope Z_scope.

Section CsTable.
Context {C : Type} `{Packets C} `{!NameOrder C}.
Notation Name := (list C).
Notation Interest := (Interest C).

Record CsEntry := mkCsEntry { ce_data : Data; ce_unsolicited : bool; ce_staleTime : Z }.
Implicit Types (e : CsEntry) (t : list CsEntry) (q : Name) (d : Data).

Definition updateStaleTime (now : Z) e : CsEntry :=
  mkCsEntry (ce_data e) (ce_unsolicited e) (now + data_freshness (ce_data e) * 1000000).

(** [EntryImpl(data, isUnsolicited)], [setData]. *)
Definition setData (now : Z) d (isUnsolicited : bool) : CsEntry :=
  updateStaleTime now (mkCsEntry d isUnsolicited 0).

Definition isStale (now : Z) e : bool := ce_staleTime e <? now.

Definition unsetUnsolicited (now : Z) e : CsEntry := setData now (ce_data e) false.

Definition canSatisfy (now : Z) (interest : Interest) e : bool :=
  if negb (matchesData (i_name interest) (i_selectors interest) (ce_data e)) then false
  else if mustBeFresh (i_selectors interest) && isStale now e then false
  else true.

Definition compareQueryWithData q d : comparison :=
  let queryIsFullName := endsWithDigest q in
  let cmp := if queryIsFullName then name_compare (take (length q - 1) q) (data_name d)
             else name_compare q (data_name d) in
  match cmp with
  | Eq =>
      if queryIsFullName
      then match last q with Some c => comp_compare c (data_digest d) | None => Lt end
      else Lt
  | r => r
  end.

Definition compareDataWithData d1 d2 : comparison :=
  match name_compare (data_name d1) (data_name d2) with
  | Eq => comp_compare (data_digest d1) (data_digest d2)
  | r => r
  end.

(** [operator<] between an entry and a query. *)
Definition lt_query e q : bool :=
  match compareQueryWithData q (ce_data e) with Gt => true | _ => false end.

(** [m_table.lower_bound(q)]. *)
Fixpoint lower_bound q t : nat :=
  match t with
  | [] => 0
  | e :: t' => if lt_query e q then S (lower_bound q t') else 0
  end.

(** [m_table.emplace(...)]: the table, the entry in it and whether it is new. *)
Fixpoint emplace e t : list CsEntry * CsEntry * bool :=
  match t with
  | [] => ([e], e, true)
  | x :: t' =>
      match compareDataWithData (ce_data e) (ce_data x) with
      | Lt => (e :: t, e, true)
      | Eq => (t, x, false)
      | Gt => let '(t'', y, isNew) := emplace e t' in (x :: t'', y, isNew)
      end
  end.

(** The elements of [[a, b)]. *)
Definition slice (a b : nat) t : list CsEntry := take (b - a) (drop a t).

(** [std::find_if] over a range: the distance from its beginning, or the length
    of the range. *)
Fixpoint find_pos (p : CsEntry -> bool) t : nat :=
  match t with
  | [] => 0
  | e :: t' => if p e then 0 else S (find_pos p t')
  end.

Definition findLeftmost now interest (first last : nat) t : nat :=
  (first + find_pos (canSatisfy now interest) (slice first last t))%nat.

(** [find_last_if] of [core/algorithm.hpp]. *)
Definition find_last_if (p : CsEntry -> bool) (first last : nat) t : nat :=
  let found := find_pos p (reverse (slice first last t)) in
  if bool_decide (found = (last - first)%nat) then last else (last - found - 1)%nat.

Definition findRightmostAmongExact now interest (first last : nat) t : nat :=
  find_last_if (canSatisfy now interest) first last t.

(** The loop of [findRightmost]; [None] when it steps before the beginning of the
    table, or (never, see below) out of fuel. *)
Fixpoint findRightmost_loop (fuel : nat) now interest (first last right : nat) t : option nat :=
  match fuel with
  | O => None
  | S fuel' =>
      if bool_decide (right = first) then Some last
      else
        match right with
        | O => None
        | S prev =>
            e ← t !! prev;
            let len := length (i_name interest) in
            if bool_decide (length (data_name (ce_data e)) = len) then
              let matchExact := findRightmostAmongExact now interest first right t in
              Some (if bool_decide (matchExact = right) then last else matchExact)
            else
              let prefix := getPrefix (len + 1) (data_name (ce_data e)) in
              let left := lower_bound prefix t in
              let m := findLeftmost now interest left right t in
              if bool_decide (m = right) then findRightmost_loop fuel' now interest first last left t
              else Some m
        end
  end.

Definition findRightmost now interest (first last : nat) t : option nat :=
  findRightmost_loop (S (length t)) now interest first last last t.

(** The range of the entries under a prefix, and the search of [Cs::find]. *)
Definition prefix_range q t : nat * nat :=
  (lower_bound q t, if bool_decide (q = []) then length t else lower_bound (getSuccessor q) t).

Definition search now interest t : option nat :=
  let '(first, last) := prefix_range (i_name interest) t in
  match_ ← (if childSelector (i_selectors interest) =? 1
            then findRightmost now interest first last t
            else Some (findLeftmost now interest first last t));
  Some (if bool_decide (match_ = last) then length t else match_).

(** ** Order of the table *)

Definition data_lt d1 d2 : Prop := compareDataWithData d1 d2 = Lt.

Definition sorted t : Prop := StronglySorted (fun e1 e2 => data_lt (ce_data e1) (ce_data e2)) t.

Lemma compareData_eq d1 d2 : compareDataWithData d1 d2 = Eq <-> fullName d1 = fullName d2.
Proof.
  unfold compareDataWithData, fullName. destruct (name_compare _ _) eqn:E0.
  - apply name_compare_eq in E0 as ->. rewrite comp_compare_eq. split; [by intros ->|].
    intros Ha%app_inj_tail. by destruct Ha.
  - split; [done|]. intros Ha%app_inj_tail. destruct Ha as [Ha _]. rewrite Ha, name_compare_refl in E0. done.
  - split; [done|]. intros Ha%app_inj_tail. destruct Ha as [Ha _]. rewrite Ha, name_compare_refl in E0. done.
Qed.

Lemma compareData_antisym d1 d2 : compareDataWithData d2 d1 = CompOpp (compareDataWithData d1 d2).
Proof.
  unfold compareDataWithData. rewrite (name_compare_antisym (data_name d1)).
  destruct (name_compare _ _); simpl; [|done|done]. apply comp_compare_antisym.
Qed.

Lemma data_lt_trans d1 d2 d3 : data_lt d1 d2 -> data_lt d2 d3 -> data_lt d1 d3.
Proof.
  unfold data_lt, compareDataWithData.
  destruct (name_compare (data_name d1) (data_name d2)) eqn:E1,
    (name_compare (data_name d2) (data_name d3)) eqn:E2; try done; intros H1 H2.
  - apply name_compare_eq in E1 as ->, E2 as ->. rewrite name_compare_refl. by eapply comp_compare_trans.
  - apply name_compare_eq in E1 as ->. by rewrite E2.
  - apply name_compare_eq in E2 as <-. by rewrite E1.
  - by rewrite (name_compare_trans _ _ _ E1 E2).
Qed.

(** The part of a query that is compared with the names, and its digest. *)
Definition query_name q : Name := if endsWithDigest q then take (length q - 1) q else q.

Lemma lt_query_spec e q :
  lt_query e q = true <->
  name_compare (data_name (ce_data e)) (query_name q) = Lt \/
  (endsWithDigest q = true /\ data_name (ce_data e) = query_name q /\
   exists c, last q = Some c /\ comp_compare (data_digest (ce_data e)) c = Lt).
Proof.
  unfold lt_query, compareQueryWithData, query_name.
  set (n := if endsWithDigest q then take (length q - 1) q else q).
  replace (if endsWithDigest q then name_compare (take (length q - 1) q) (data_name (ce_data e))
           else name_compare q (data_name (ce_data e)))
    with (name_compare n (data_name (ce_data e))) by (unfold n; by destruct (endsWithDigest q)).
  rewrite <-(name_compare_Gt n). pose proof (name_compare_eq n (data_name (ce_data e))) as Heq.
  destruct (name_compare n (data_name (ce_data e))) eqn:E0.
  - destruct Heq as [Heq _]. rewrite <-(Heq eq_refl).
    destruct (endsWithDigest q) eqn:Eq; [|naive_solver].
    unfold endsWithDigest in Eq. destruct (last q) as [c|]; [|done].
    pose proof (comp_compare_antisym c (data_digest (ce_data e))) as Ha.
    destruct (comp_compare c _) eqn:Ec; simpl in Ha.
    1, 2: split; [done|]; intros [?|(_ & _ & c' & Hc' & Hlt)]; [done|]; simplify_eq; congruence.
    split; [|done]. intros _. right. split_and!; [done|done|]. by exists c.
  - naive_solver.
  - naive_solver.
Qed.

(** Entries before one that is below a query are below it too. *)
Lemma lt_query_mono e1 e2 q :
  data_lt (ce_data e1) (ce_data e2) -> lt_query e2 q = true -> lt_query e1 q = true.
Proof.
  rewrite !lt_query_spec. unfold data_lt, compareDataWithData.
  destruct (name_compare (data_name (ce_data e1)) (data_name (ce_data e2))) eqn:E0; try done; intros Hd.
  - apply name_compare_eq in E0 as ->. intros [?|(? & ? & c & ? & ?)]; [by left|]. right.
    split_and!; try done. exists c. split; [done|]. by eapply comp_compare_trans.
  - intros [?|(? & <- & _)]; left; [by eapply name_compare_trans|done].
Qed.

Lemma sorted_lt t i j e1 e2 :
  sorted t -> t !! i = Some e1 -> t !! j = Some e2 -> (i < j)%nat -> data_lt (ce_data e1) (ce_data e2).
Proof.
  intros Hs. revert i j. induction Hs as [|e t Hs IH Hall]; intros [|i] [|j] H1 H2 Hij; simplify_eq/=; try lia.
  - rewrite Forall_forall in Hall. apply Hall. by eapply list_elem_of_lookup_2.
  - eapply IH; [done|done|lia].
Qed.

Lemma lower_bound_le q t : (lower_bound q t <= length t)%nat.
Proof. induction t as [|e t IH]; simpl; [lia|]. case_match; lia. Qed.

(** [lower_bound] splits the table at the query. *)
Lemma lower_bound_spec q t i e :
  sorted t -> t !! i = Some e -> (i < lower_bound q t)%nat <-> lt_query e q = true.
Proof.
  intros Hs. revert i. induction Hs as [|x t Hs IH Hall]; intros i Hi; [done|]. simpl.
  destruct (lt_query x q) eqn:Ex; destruct i as [|i]; simplify_eq/=.
  - split; [done|lia].
  - rewrite <-(IH i Hi). lia.
  - split; [lia|congruence].
  - split; [lia|]. intros Hlt. rewrite Forall_forall in Hall.
    assert (lt_query x q = true); [|congruence]. eapply lt_query_mono; [|done].
    apply Hall. by eapply list_elem_of_lookup_2.
Qed.

Definition ce_key e : Name := fullName (ce_data e).

Lemma sorted_uniq t : sorted t -> uniq_keys ce_key t.
Proof.
  intros Hs. unfold uniq_keys. induction Hs as [|e t Hs IH Hall]; [apply NoDup_nil; done|].
  apply NoDup_cons. split; [|done]. intros (e' & He & Hin)%list_elem_of_fmap.
  rewrite Forall_forall in Hall. specialize (Hall e' Hin). unfold data_lt in Hall.
  apply compareData_eq in He. congruence.
Qed.

(** The postcondition of [emplace]. *)
Lemma emplace_spec e t :
  sorted t ->
  let '(t', y, isNew) := emplace e t in
  sorted t' /\
  if (isNew : bool) then y = e /\ t' ≡ₚ e :: t /\ ce_key e ∉ ce_key <$> t
  else t' = t /\ y ∈ t /\ ce_key y = ce_key e.
Proof.
  induction t as [|x t IH]; intros Hs; simpl.
  - split_and!; try done; [repeat constructor|set_solver].
  - pose proof Hs as Hs0. apply StronglySorted_inv in Hs as [Hs Hall].
    destruct (compareDataWithData (ce_data e) (ce_data x)) eqn:Ec.
    + split_and!; [done|done|by left|]. symmetry. by apply compareData_eq.
    + assert (Forall (fun e2 => data_lt (ce_data e) (ce_data e2)) (x :: t)) as Hlt.
      { constructor; [done|]. eapply Forall_impl; [exact Hall|]. intros y Hy. by eapply data_lt_trans. }
      split_and!; [by constructor|done|done|]. change (ce_key e ∉ ce_key <$> (x :: t)).
      intros (y & Hy & Hin)%list_elem_of_fmap.
      rewrite Forall_forall in Hlt. specialize (Hlt y Hin). apply compareData_eq in Hy. unfold data_lt in Hlt.
      congruence.
    + specialize (IH Hs). destruct (emplace e t) as [[t' y] isNew]. destruct IH as [Hs' IH].
      assert (data_lt (ce_data x) (ce_data e)) as Hxe by (unfold data_lt; by rewrite compareData_antisym, Ec).
      destruct isNew.
      * destruct IH as (-> & Hp & Hn). split_and!; [|done|rewrite Hp; by rewrite Permutation_swap|].
        -- constructor; [done|]. rewrite Hp. by constructor.
        -- apply not_elem_of_cons. split; [|done]. intros Hk%compareData_eq. congruence.
      * destruct IH as (-> & Hin & Hk). split_and!; [done|done|by right|done].
Qed.

(** ** Searches *)

Lemma find_pos_spec (p : CsEntry -> bool) t :
  (find_pos p t = length t /\ forall e, e ∈ t -> p e = false) \/
  (exists e, t !! find_pos p t = Some e /\ p e = true /\ (find_pos p t < length t)%nat).
Proof.
  induction t as [|x t IH]; simpl; [left; set_solver|]. destruct (p x) eqn:Ex.
  - right. exists x. split_and!; [done|done|lia].
  - destruct IH as [[-> Hall]|(e & He & Hp & Hl)]; [left|right].
    + split; [done|]. intros e [->|He]%elem_of_cons; [done|by apply Hall].
    + exists e. split_and!; [done|done|lia].
Qed.

Lemma slice_lookup a b t k : slice a b t !! k = if decide (k < b - a)%nat then t !! (a + k)%nat else None.
Proof.
  unfold slice. case_decide as Hk.
  - rewrite lookup_take_lt by lia. by rewrite lookup_drop.
  - rewrite lookup_take_ge by lia. done.
Qed.

Lemma length_slice a b t : (b <= length t)%nat -> length (slice a b t) = (b - a)%nat.
Proof. intros Hb. unfold slice. rewrite length_take, length_drop. lia. Qed.

Lemma elem_of_slice a b t e : e ∈ slice a b t <-> exists i, (a <= i < b)%nat /\ t !! i = Some e.
Proof.
  rewrite list_elem_of_lookup. setoid_rewrite slice_lookup. split.
  - intros (k & Hk). case_decide; [|done]. exists (a + k)%nat. split; [lia|done].
  - intros (i & Hi & He). exists (i - a)%nat. rewrite decide_True by lia.
    replace (a + (i - a))%nat with i by lia. done.
Qed.

(** A search of [[first, last)] that answers [r]. *)
Definition search_post (p : CsEntry -> bool) (first last r : nat) t : Prop :=
  (r = last /\ forall i e, (first <= i < last)%nat -> t !! i = Some e -> p e = false) \/
  ((first <= r < last)%nat /\ exists e, t !! r = Some e /\ p e = true).

Lemma findLeftmost_spec now interest first last t :
  (first <= last <= length t)%nat ->
  search_post (canSatisfy now interest) first last (findLeftmost now interest first last t) t.
Proof.
  intros Hb. unfold findLeftmost.
  destruct (find_pos_spec (canSatisfy now interest) (slice first last t)) as [[-> Hall]|(e & He & Hp & Hl)].
  - left. rewrite length_slice by lia. split; [lia|]. intros i e Hi He. apply Hall, elem_of_slice. eauto.
  - right. rewrite length_slice in Hl by lia. split; [lia|]. exists e. split; [|done].
    rewrite slice_lookup, decide_True in He by lia. done.
Qed.

Lemma find_last_if_spec p first last t :
  (first <= last <= length t)%nat -> search_post p first last (find_last_if p first last t) t.
Proof.
  intros Hb. unfold find_last_if.
  destruct (find_pos_spec p (reverse (slice first last t))) as [[-> Hall]|(e & He & Hp & Hl)];
    rewrite length_reverse, length_slice in * by lia.
  - left. rewrite bool_decide_eq_true_2 by done. split; [done|]. intros i e Hi He. apply Hall.
    apply elem_of_reverse, elem_of_slice. eauto.
  - right. rewrite bool_decide_eq_false_2 by lia. split; [lia|]. exists e. split; [|done].
    rewrite reverse_lookup in He by (rewrite length_slice; lia).
    rewrite length_slice, slice_lookup, decide_True in He by lia. rewrite <-He. f_equal. lia.
Qed.

(** A Data name holds no implicit digest of its own. *)
Definition name_ok d : Prop := Forall (fun c => isImplicitSha256Digest c = false) (data_name d).
Definition names_ok t : Prop := Forall (fun e => name_ok (ce_data e)) t.

(** What the code relies on of [getSuccessor]: in the order of the table, the
    entries from a non-empty name up to its successor are those under the name. *)
Class SuccessorLaw : Prop := {
  successor_range q d : q <> [] -> name_ok d ->
    compareQueryWithData q d <> Gt /\ compareQueryWithData (getSuccessor q) d = Gt <->
    q `prefix_of` fullName d;
  successor_above q d : q <> [] -> name_ok d ->
    compareQueryWithData q d = Gt -> compareQueryWithData (getSuccessor q) d = Gt
}.

Lemma lt_query_Gt e q : lt_query e q = true <-> compareQueryWithData q (ce_data e) = Gt.
Proof. unfold lt_query. by destruct (compareQueryWithData _ _). Qed.

Section Ranges.
Context `{!SuccessorLaw}.

(** The range of [Cs::find] and [Cs::erase] holds the entries under the prefix. *)
Lemma prefix_range_spec q t first last :
  sorted t -> names_ok t -> prefix_range q t = (first, last) ->
  (first <= last <= length t)%nat /\
  (forall i e, t !! i = Some e -> (first <= i < last)%nat <-> q `prefix_of` fullName (ce_data e)).
Proof.
  intros Hs Hn. unfold prefix_range. case_bool_decide as Hq; intros [= <- <-].
  - subst q. assert (lower_bound [] t = 0%nat) as ->.
    { destruct t as [|e t]; [done|]. simpl. destruct (lt_query e []) eqn:E0; [|done].
      apply lt_query_Gt in E0. unfold compareQueryWithData in E0. simpl in E0. by destruct (data_name _). }
    split; [lia|]. intros i e Hi. pose proof (lookup_lt_Some _ _ _ Hi).
    split; [intros _; apply prefix_nil|lia].
  - pose proof (lower_bound_le (getSuccessor q) t). split; [split; [|done]|].
    + destruct (Nat.le_gt_cases (lower_bound q t) (lower_bound (getSuccessor q) t)) as [|Hlt]; [done|].
      pose proof (lower_bound_le q t).
      destruct (lookup_lt_is_Some_2 t (lower_bound (getSuccessor q) t)) as [e He]; [lia|].
      assert (name_ok (ce_data e)) as Hne.
      { unfold names_ok in Hn. rewrite Forall_forall in Hn. apply Hn. by eapply list_elem_of_lookup_2. }
      apply (lower_bound_spec q t _ e Hs He), lt_query_Gt in Hlt.
      apply (successor_above q (ce_data e) Hq Hne), lt_query_Gt, (lower_bound_spec _ t _ e Hs He) in Hlt. lia.
    + intros i e Hi. assert (name_ok (ce_data e)) as Hne.
      { unfold names_ok in Hn. rewrite Forall_forall in Hn. apply Hn. by eapply list_elem_of_lookup_2. }
      rewrite <-(successor_range q (ce_data e) Hq Hne), <-!lt_query_Gt,
        <-!(lower_bound_spec _ t i e Hs Hi). lia.
Qed.

(** An entry whose name extends a query is not below it. *)
Lemma prefix_not_below p e : p `prefix_of` data_name (ce_data e) -> lt_query e p = false.
Proof.
  intros Hp. apply not_true_iff_false. rewrite lt_query_spec. unfold query_name.
  pose proof (prefix_length _ _ Hp) as Hl. destruct (endsWithDigest p) eqn:Ep.
  - assert (p <> []) as Hne by (by intros ->).
    assert (take (length p - 1) p `prefix_of` data_name (ce_data e)) as Hp'.
    { etrans; [|done]. exists (drop (length p - 1) p). by rewrite take_drop. }
    intros [Hlt|(_ & Heq & _)].
    + apply name_compare_Gt in Hlt. by apply name_compare_prefix in Hp'.
    + apply (f_equal length) in Heq. rewrite length_take in Heq. destruct p; [done|]. simpl in *. lia.
  - intros [Hlt|(? & _)]; [|done]. apply name_compare_Gt in Hlt. by apply name_compare_prefix in Hp.
Qed.

(** Entries below a name are below the names one component longer. *)
Lemma below_extend q c e : endsWithDigest q = false -> lt_query e q = true -> lt_query e (q ++ [c]) = true.
Proof.
  intros Hd Hlt. apply lt_query_spec in Hlt as [Hlt|(? & _)]; [|congruence].
  apply lt_query_spec. left. unfold query_name in *. rewrite Hd in Hlt.
  destruct (endsWithDigest (q ++ [c])).
  - rewrite length_app. simpl. rewrite Nat.add_sub, take_app_length. done.
  - eapply name_compare_trans; [exact Hlt|]. apply name_compare_proper_prefix; [by apply prefix_app_r|].
    intros Heq%(f_equal length). rewrite length_app in Heq. simpl in Heq. lia.
Qed.

(** The sub-namespace of the last entry of [[first, right)]. *)
Lemma rightmost_left (interest : Interest) t first last prev e :
  sorted t -> names_ok t -> prefix_range (i_name interest) t = (first, last) ->
  endsWithDigest (i_name interest) = false -> (first <= prev < last)%nat -> t !! prev = Some e ->
  length (data_name (ce_data e)) <> length (i_name interest) ->
  let left := lower_bound (getPrefix (length (i_name interest) + 1) (data_name (ce_data e))) t in
  (first <= left <= prev)%nat.
Proof.
  intros Hs Hn Hr Hd Hprev He Hlen left. destruct (prefix_range_spec _ t first last Hs Hn Hr) as [Hb Hin].
  apply (Hin prev e He) in Hprev as Hp. set (q := i_name interest) in *.
  assert (q `prefix_of` data_name (ce_data e)) as [k Hk].
  { apply prefix_snoc in Hp as [?|Hp]; [done|]. exfalso. unfold endsWithDigest in Hd.
    rewrite Hp in Hd. by rewrite last_snoc, data_digest_digest in Hd. }
  destruct k as [|c k]; [rewrite Hk, app_nil_r in Hlen; done|].
  assert (getPrefix (length q + 1) (data_name (ce_data e)) = q ++ [c]) as Hpre.
  { unfold getPrefix. rewrite Hk, take_app_ge by lia. by replace (length q + 1 - length q)%nat with 1%nat by lia. }
  subst left. rewrite Hpre. split.
  - destruct (Nat.le_gt_cases first (lower_bound (q ++ [c]) t)) as [|Hlt]; [done|].
    destruct (lookup_lt_is_Some_2 t (lower_bound (q ++ [c]) t)) as [x Hx]; [lia|].
    assert (lt_query x (q ++ [c]) = true) as Hxc.
    { apply below_extend; [done|]. apply (lower_bound_spec q t _ x Hs Hx).
      unfold prefix_range in Hr. by simplify_eq. }
    apply (lower_bound_spec _ t _ x Hs Hx) in Hxc. lia.
  - destruct (Nat.le_gt_cases (lower_bound (q ++ [c]) t) prev) as [|Hlt]; [done|].
    apply (lower_bound_spec _ t prev e Hs He) in Hlt. rewrite prefix_not_below in Hlt; [done|].
    exists k. by rewrite Hk, <-app_assoc.
Qed.

(** The loop of [findRightmost], with nothing satisfying from [right] on. *)
Lemma findRightmost_loop_spec now interest t first last :
  sorted t -> names_ok t -> prefix_range (i_name interest) t = (first, last) ->
  endsWithDigest (i_name interest) = false ->
  forall fuel right, (right < fuel)%nat -> (first <= right <= last)%nat ->
  (forall i e, (right <= i < last)%nat -> t !! i = Some e -> canSatisfy now interest e = false) ->
  exists r, findRightmost_loop fuel now interest first last right t = Some r /\
    search_post (canSatisfy now interest) first last r t.
Proof.
  intros Hs Hn Hr Hd. destruct (prefix_range_spec _ t first last Hs Hn Hr) as [Hb _].
  induction fuel as [|fuel IH]; intros right Hf Hright Hnone; [lia|]. cbn [findRightmost_loop].
  case_bool_decide as Hrf.
  { exists last. split; [done|]. left. split; [done|]. by subst. }
  destruct right as [|prev]; [lia|].
  destruct (lookup_lt_is_Some_2 t prev) as [e He]; [lia|]. rewrite He. cbn [mbind option_bind].
  case_bool_decide as Hlen.
  - eexists. split; [done|].
    destruct (find_last_if_spec (canSatisfy now interest) first (S prev) t) as [[Heq Hall]|[Hin Hx]]; [lia| |].
    + unfold findRightmostAmongExact. rewrite Heq, bool_decide_eq_true_2 by done. left. split; [done|].
      intros i x Hi Hxi. destruct (Nat.lt_ge_cases i (S prev)); [apply (Hall i); [lia|done]|].
      apply (Hnone i); [lia|done].
    + unfold findRightmostAmongExact. rewrite bool_decide_eq_false_2 by lia. right. split; [lia|done].
  - destruct (rightmost_left interest t first last prev e) as [Hl1 Hl2]; [done|done|done|done|lia|done|done|].
    set (left := lower_bound _ t) in *.
    destruct (findLeftmost_spec now interest left (S prev) t) as [[-> Hall]|[Hin Hx]]; [lia| |].
    + rewrite bool_decide_eq_true_2 by done. apply IH; [lia|lia|].
      intros i x Hi Hxi. destruct (Nat.lt_ge_cases i (S prev)); [apply (Hall i); [lia|done]|].
      apply (Hnone i); [lia|done].
    + rewrite bool_decide_eq_false_2 by lia. eexists. split; [done|]. right. split; [lia|done].
Qed.

Lemma search_ok now interest t :
  sorted t -> names_ok t ->
  endsWithDigest (i_name interest) = false \/ childSelector (i_selectors interest) <> 1 ->
  exists r, search now interest t = Some r /\
    ((r = length t /\ forall e, e ∈ t -> canSatisfy now interest e = false) \/
     (exists e, t !! r = Some e /\ canSatisfy now interest e = true)).
Proof.
  intros Hs Hn Hd. unfold search. destruct (prefix_range (i_name interest) t) as [first last] eqn:Hr.
  destruct (prefix_range_spec _ t first last Hs Hn Hr) as [Hb Hin].
  assert (exists m, (if childSelector (i_selectors interest) =? 1
            then findRightmost now interest first last t
            else Some (findLeftmost now interest first last t)) = Some m /\
    search_post (canSatisfy now interest) first last m t) as (m & -> & Hpost).
  { destruct (Z.eqb_spec (childSelector (i_selectors interest)) 1).
    - apply findRightmost_loop_spec; try done; [by destruct Hd|lia|lia|]. intros. lia.
    - eexists. split; [done|]. apply findLeftmost_spec. lia. }
  cbn [mbind option_bind]. eexists. split; [done|]. destruct Hpost as [[-> Hall]|[Hm Hx]].
  - left. rewrite bool_decide_eq_true_2 by done. split; [done|]. intros e He.
    destruct (canSatisfy now interest e) eqn:Ec; [|done]. rewrite <-Ec.
    apply list_elem_of_lookup in He as [i Hi]. apply (Hall i); [|done]. apply (Hin i e Hi).
    unfold canSatisfy in Ec. destruct (matchesData _ _ _) eqn:Em; [|done]. by eapply matchesData_prefix.
  - right. rewrite bool_decide_eq_false_2 by lia. done.
Qed.

(** A search of the content store answers with an entry that satisfies the
    Interest whenever there is one, and reports a miss only when there is none,
    for the leftmost and for the rightmost child, except for the rightmost child
    under a full name. *)
Theorem search_correct now interest t :
  sorted t -> names_ok t ->
  endsWithDigest (i_name interest) = false \/ childSelector (i_selectors interest) <> 1 ->
  exists r, search now interest t = Some r /\
    ((r = length t /\ forall e, e ∈ t -> canSatisfy now interest e = false) \/
     (exists e, t !! r = Some e /\ canSatisfy now interest e = true)).
Proof. apply search_ok. Qed.

End Ranges.

End CsTable.
Arguments CsEntry C {_ _}.
Arguments SuccessorLaw C {_ _ _}.

(** ** Concrete names *)
Module CsTableExamples.

(** [compareQueryWithData] of [l ++ [c]] with the Data of name [n] and digest [dig]. *)
Definition qcmp (c : Z) (l n : list Z) (dig : Z) : comparison :=
  if c <? 0 then match name_compare l n with Eq => comp_compare c dig | r => r end
  else match name_compare (l ++ [c]) n with Eq => Lt | r => r end.

Lemma compareQuery_snoc c (l : list Z) (d : Data) :
  compareQueryWithData (l ++ [c]) d = qcmp c l (data_name d) (data_digest d).
Proof.
  unfold compareQueryWithData, qcmp, endsWithDigest. rewrite last_snoc. simpl isImplicitSha256Digest.
  destruct (c <? 0); [|by destruct (name_compare _ _)].
  rewrite length_app. simpl length. rewrite Nat.add_sub, take_app_length. by destruct (name_compare l _).
Qed.

Lemma qcmp_cons c x y l n dig :
  qcmp c (x :: l) (y :: n) dig = match comp_compare x y with Eq => qcmp c l n dig | r => r end.
Proof. unfold qcmp. cbn [name_compare app]. destruct (c <? 0); by destruct (comp_compare x y). Qed.

Lemma cons_prefix (x y : Z) l n : x :: l `prefix_of` y :: n <-> x = y /\ l `prefix_of` n.
Proof.
  split; [|by intros [-> ?]; apply prefix_cons]. intros Hp.
  split; [by eapply prefix_cons_inv_1|by eapply prefix_cons_inv_2].
Qed.

(** At the last component of the query. *)
Lemma qcmp_last c dig n : dig < 0 -> Forall (fun x => (x <? 0) = false) n ->
  (qcmp c [] n dig <> Gt /\ qcmp (if c <? 0 then c - 1 else c + 1) [] n dig = Gt <->
   [c] `prefix_of` n ++ [dig]) /\
  (qcmp c [] n dig = Gt -> qcmp (if c <? 0 then c - 1 else c + 1) [] n dig = Gt).
Proof.
  intros Hdig Hn. assert ((dig <? 0) = true) as Hd by (apply Z.ltb_lt; lia).
  unfold qcmp. cbn [app name_compare]. destruct n as [|y n]; cbn [app].
  - assert ([c] `prefix_of` [dig] <-> c = dig) as -> by (rewrite cons_prefix; naive_solver).
    simpl comp_compare. unfold example_compare. rewrite Hd. destruct (Z.ltb_spec c 0) as [Hc|Hc].
    + rewrite (proj2 (Z.ltb_lt (c - 1) 0)) by lia. rewrite !Z.compare_gt_iff. lia.
    + rewrite (proj2 (Z.ltb_ge (c + 1) 0)) by lia. split; [|done]. split; [by intros [??]|lia].
  - apply Forall_cons in Hn as [Hy _]. breflect.
    assert ([c] `prefix_of` y :: n ++ [dig] <-> c = y) as ->.
    { rewrite cons_prefix. split; [by intros [??]|]. intros ->. split; [done|apply prefix_nil]. }
    simpl comp_compare. unfold example_compare. destruct (Z.ltb_spec c 0) as [Hc|Hc].
    + rewrite (proj2 (Z.ltb_lt (c - 1) 0)) by lia. split; [|done]. split; [by intros [??]|lia].
    + rewrite (proj2 (Z.ltb_ge (c + 1) 0)), (proj2 (Z.ltb_ge y 0)) by lia.
      destruct (Z.compare_spec c y), (Z.compare_spec (c + 1) y), n; simpl;
        (split; [split|]); intros; try done; try lia; try (split; [done|]); try done; naive_solver lia.
Qed.

Lemma qcmp_range c dig : dig < 0 -> forall l n : list Z,
  Forall (fun x => (x <? 0) = false) n ->
  (qcmp c l n dig <> Gt /\ qcmp (if c <? 0 then c - 1 else c + 1) l n dig = Gt <->
   l ++ [c] `prefix_of` n ++ [dig]) /\
  (qcmp c l n dig = Gt -> qcmp (if c <? 0 then c - 1 else c + 1) l n dig = Gt).
Proof.
  intros Hdig. induction l as [|x l IH]; intros n Hn; [by apply qcmp_last|].
  destruct n as [|y n].
  - unfold qcmp. cbn [name_compare app]. split; [|by repeat case_match].
    split; [by destruct (c <? 0); intros [??]|]. intros Hp%prefix_length.
    cbn [length] in Hp. rewrite length_app in Hp. simpl in Hp. lia.
  - apply Forall_cons in Hn as [_ Hn]. rewrite !qcmp_cons. cbn [app]. rewrite cons_prefix.
    specialize (IH n Hn). pose proof (comp_compare_eq x y) as Hxy.
    destruct (comp_compare x y); [|naive_solver..].
    destruct Hxy as [Hxy _]. specialize (Hxy eq_refl). naive_solver.
Qed.

#[export] Instance exampleSuccessor : SuccessorLaw Z.
Proof.
  split; intros q d Hq Hn; (destruct q as [|c l _] using rev_ind; [done|]); simpl getSuccessor;
    rewrite last_snoc, length_app; simpl length; rewrite Nat.add_sub, take_app_length, !compareQuery_snoc;
    apply qcmp_range; (done || (simpl; lia)).
Qed.

Definition dataOf (name : list Z) (digest : positive) (freshness : Z) : @Data Z _ examplePackets :=
  (name, digest, freshness).
Definition table1 : list (CsEntry Z) :=
  [setData 0 (dataOf [1; 2] 4 100) false; setData 0 (dataOf [1; 2] 9 0) false; setData 0 (dataOf [1; 3] 7 100) true].
Definition interestOf (name : list Z) (canBePrefix fresh : bool) (child : Z) : Interest Z :=
  mkInterest _ _ _ name (canBePrefix, fresh, child) 0 4000 [] None.

Lemma table1_ok : sorted table1 /\ names_ok table1.
Proof. split; repeat constructor. Qed.

(** The rightmost child of [/1] is [/1/3]. *)
Example search_correct_witness :
  exists r e, search 1 (interestOf [1] true false 1) table1 = Some r /\
    table1 !! r = Some e /\ canSatisfy 1 (interestOf [1] true false 1) e = true.
Proof.
  destruct table1_ok as [Hs Hn].
  destruct (search_correct 1 (interestOf [1] true false 1) table1 Hs Hn) as (r & Hr & Hpost).
  - left. by vm_compute.
  - destruct Hpost as [[_ Hno]|(e & He & Hc)]; [|by exists r, e].
    assert (canSatisfy 1 (interestOf [1] true false 1) (setData 0 (dataOf [1; 3] 7 100) true) = false)
      as Hf by (apply Hno; unfold table1; set_solver).
    vm_compute in Hf. discriminate.
Defined.

(** A search for the rightmost child under a full name can leave the
    table: with Data [/1/2] of two digests in the store, the Interest for the one
    of the greater digest with MustBeFresh, stale, makes [findRightmost] step
    before [begin()], which is undefined behaviour. *)
Theorem findRightmost_full_name_leaves_table :
  sorted table1 /\ names_ok table1 /\
  search 1 (interestOf [1; 2; -9] false true 1) table1 = None.
Proof. destruct table1_ok as [Hs Hn]. split_and!; [done|done|by vm_compute]. Qed.

End CsTableExamples.
