(* ===== verification/Cs.v ===== *)
(** * Content store and replacement policies

    Models [daemon/table/cs.hpp/.cpp], [cs-policy.cpp], [cs-policy-lru.cpp] and
    [cs-policy-priority-fifo.cpp]. The class [CsPolicy] is the interface between
    the store and a replacement policy; the store's theorems are proved against
    it, and the two policies of the daemon are instances. An iterator kept by a
    policy is the full name of its entry, which is unique in the table. *)

From S2P Require Import Prelude Ndn CsTable.
Local Open Scope Z_scope.

(** What a policy promises the store: it keeps the iterators of the table, each
    once, and chooses one of them to evict. [pol_timer] is the callback that a
    policy has scheduled for an entry. *)
Class CsPolicy (C : Type) `{Packets C} (P : Type) := {
  pol_new : P;
  pol_insert : Z -> CsEntry C -> P -> P;
  pol_refresh : Z -> CsEntry C -> P -> P;
  pol_erase : list C -> P -> P;
  pol_use : list C -> P -> P;
  pol_evict : P -> option (list C * P);
  pol_timer : list C -> P -> P;
  pol_keys : P -> list (list C);
  pol_ok : P -> Prop;
  pol_new_ok : pol_ok pol_new /\ pol_keys pol_new = [];
  pol_insert_ok now e p : pol_ok p -> ce_key e ∉ pol_keys p ->
    pol_ok (pol_insert now e p) /\ pol_keys (pol_insert now e p) ≡ₚ ce_key e :: pol_keys p;
  pol_refresh_ok now e p : pol_ok p -> ce_key e ∈ pol_keys p ->
    pol_ok (pol_refresh now e p) /\ pol_keys (pol_refresh now e p) ≡ₚ pol_keys p;
  pol_erase_ok k p : pol_ok p -> k ∈ pol_keys p ->
    pol_ok (pol_erase k p) /\ pol_keys p ≡ₚ k :: pol_keys (pol_erase k p);
  pol_use_ok k p : pol_ok p -> k ∈ pol_keys p ->
    pol_ok (pol_use k p) /\ pol_keys (pol_use k p) ≡ₚ pol_keys p;
  pol_evict_ok p : pol_ok p -> pol_keys p <> [] ->
    exists k p', pol_evict p = Some (k, p') /\ pol_ok p' /\ pol_keys p ≡ₚ k :: pol_keys p';
  pol_timer_ok k p : pol_ok p ->
    pol_ok (pol_timer k p) /\ pol_keys (pol_timer k p) ≡ₚ pol_keys p
}.

(** ** Least recently used *)
Module Lru.
Section Lru.
Context {C : Type} `{Packets C}.
Notation Name := (list C).

Record LruPolicy := mkLru { m_queue : list Name }.
Implicit Types p : LruPolicy.

(** [push_back] of the unique sequenced queue, then relocation to the end when
    the iterator was there already. *)
Definition insertToQueue (i : Name) (isNewEntry : bool) p : LruPolicy :=
  let q := if bool_decide (i ∈ m_queue p) then m_queue p else m_queue p ++ [i] in
  mkLru (if isNewEntry then q else erase_first (has_key id i) q ++ [i]).

Definition doAfterInsert (i : Name) p : LruPolicy := insertToQueue i true p.
Definition doAfterRefresh (i : Name) p : LruPolicy := insertToQueue i false p.
Definition doBeforeErase (i : Name) p : LruPolicy := mkLru (erase_first (has_key id i) (m_queue p)).
Definition doBeforeUse (i : Name) p : LruPolicy := insertToQueue i false p.

(** The body of the loop of [evictEntries]; [front()] of an empty queue is
    undefined. *)
Definition evictFront p : option (Name * LruPolicy) :=
  match m_queue p with
  | [] => None
  | i :: q => Some (i, mkLru q)
  end.

Lemma erase_perm (i : Name) q : i ∈ q -> q ≡ₚ i :: erase_first (has_key id i) q.
Proof.
  intros Hi. destruct (find_if (has_key id i) q) as [x|] eqn:Ef.
  - assert (x = i) as -> by (by apply find_key_Some in Ef as [_ ?]). symmetry. by apply erase_first_perm.
  - apply find_key_None in Ef. by rewrite list_fmap_id in Ef.
Qed.

Lemma relocate_perm (i : Name) p : i ∈ m_queue p -> m_queue (insertToQueue i false p) ≡ₚ m_queue p.
Proof.
  intros Hi. unfold insertToQueue. rewrite bool_decide_eq_true_2 by done. cbn [m_queue].
  rewrite Permutation_app_comm. simpl. symmetry. by apply erase_perm.
Qed.

#[global] Program Instance lru_policy : CsPolicy C LruPolicy := {|
  pol_new := mkLru [];
  pol_insert _ e := doAfterInsert (ce_key e);
  pol_refresh _ e := doAfterRefresh (ce_key e);
  pol_erase := doBeforeErase;
  pol_use := doBeforeUse;
  pol_evict := evictFront;
  pol_timer _ p := p;
  pol_keys := m_queue;
  pol_ok _ := True
|}.
Next Obligation. done. Qed.
Next Obligation.
  intros now e p _ He. split; [done|]. unfold doAfterInsert, insertToQueue.
  rewrite bool_decide_eq_false_2 by done. simpl. by rewrite Permutation_app_comm.
Qed.
Next Obligation. intros now e p _ He. split; [done|]. by apply relocate_perm. Qed.
Next Obligation. intros k p _ Hk. split; [done|]. by apply erase_perm. Qed.
Next Obligation. intros k p _ Hk. split; [done|]. by apply relocate_perm. Qed.
Next Obligation.
  intros [q] _ Hq. simpl in *. destruct q as [|i q]; [done|]. exists i, (mkLru q). done.
Qed.
Next Obligation. done. Qed.

End Lru.
End Lru.

(** ** Priority FIFO *)
Module PriorityFifo.

Inductive QueueType := QUEUE_UNSOLICITED | QUEUE_STALE | QUEUE_FIFO.
#[global] Instance QueueType_eq_dec : EqDecision QueueType.
Proof. solve_decision. Defined.

Section Fifo.
Context {C : Type} `{Packets C}.
Notation Name := (list C).

(** The three queues and [m_entryInfoMap]; the position [queueIt] of an entry is
    its place in the queue of its type. *)
Record PriorityFifoPolicy := mkFifo {
  q_unsolicited : list Name;
  q_stale : list Name;
  q_fifo : list Name;
  m_entryInfoMap : gmap Name QueueType
}.
Implicit Types p : PriorityFifoPolicy.

Definition queue (ty : QueueType) p : list Name :=
  match ty with
  | QUEUE_UNSOLICITED => q_unsolicited p
  | QUEUE_STALE => q_stale p
  | QUEUE_FIFO => q_fifo p
  end.

Definition set_queue (ty : QueueType) (q : list Name) p : PriorityFifoPolicy :=
  match ty with
  | QUEUE_UNSOLICITED => mkFifo q (q_stale p) (q_fifo p) (m_entryInfoMap p)
  | QUEUE_STALE => mkFifo (q_unsolicited p) q (q_fifo p) (m_entryInfoMap p)
  | QUEUE_FIFO => mkFifo (q_unsolicited p) (q_stale p) q (m_entryInfoMap p)
  end.

Definition set_info (f : gmap Name QueueType -> gmap Name QueueType) p : PriorityFifoPolicy :=
  mkFifo (q_unsolicited p) (q_stale p) (q_fifo p) (f (m_entryInfoMap p)).

(** The queue that [attachQueue] chooses for an entry. *)
Definition queueTypeOf (now : Z) (e : CsEntry C) : QueueType :=
  if ce_unsolicited e then QUEUE_UNSOLICITED
  else if isStale now e then QUEUE_STALE
  else QUEUE_FIFO.

Definition attachQueue (now : Z) (e : CsEntry C) p : PriorityFifoPolicy :=
  let ty := queueTypeOf now e in
  set_info (insert (ce_key e) ty) (set_queue ty (queue ty p ++ [ce_key e]) p).

(** The entry that is not in the map is the failed assertion of the code. *)
Definition detachQueue (i : Name) p : PriorityFifoPolicy :=
  match m_entryInfoMap p !! i with
  | Some ty => set_info (delete i) (set_queue ty (erase_first (has_key id i) (queue ty p)) p)
  | None => p
  end.

Definition fifo_doAfterRefresh (now : Z) (e : CsEntry C) p : PriorityFifoPolicy :=
  attachQueue now e (detachQueue (ce_key e) p).

(** [evictOne]: the oldest of the first queue that is not empty. *)
Definition evictOne p : option (Name * PriorityFifoPolicy) :=
  match q_unsolicited p, q_stale p, q_fifo p with
  | i :: _, _, _ => Some (i, detachQueue i p)
  | [], i :: _, _ => Some (i, detachQueue i p)
  | [], [], i :: _ => Some (i, detachQueue i p)
  | [], [], [] => None
  end.

(** The event that [attachQueue] schedules for a fresh entry, cancelled when the
    entry leaves the queue: it runs only for an entry of the FIFO queue. *)
Definition moveToStaleQueue (i : Name) p : PriorityFifoPolicy :=
  match m_entryInfoMap p !! i with
  | Some QUEUE_FIFO =>
      let p := set_queue QUEUE_FIFO (erase_first (has_key id i) (q_fifo p)) p in
      set_info (insert i QUEUE_STALE) (set_queue QUEUE_STALE (q_stale p ++ [i]) p)
  | _ => p
  end.

Definition keys p : list Name := q_unsolicited p ++ q_stale p ++ q_fifo p.

(** Every entry is in exactly one queue, the one the map says. *)
Definition fifo_ok p : Prop :=
  NoDup (keys p) /\
  forall i ty, m_entryInfoMap p !! i = Some ty <-> i ∈ queue ty p.

Lemma keys_set_queue ty q p x :
  x :: q ≡ₚ queue ty p -> x :: keys (set_queue ty q p) ≡ₚ keys p.
Proof.
  unfold keys. destruct ty; simpl; intros <-; simpl; [done|..].
  - by rewrite Permutation_middle.
  - by rewrite !Permutation_middle.
Qed.

Lemma keys_add_queue ty p x : keys (set_queue ty (queue ty p ++ [x]) p) ≡ₚ x :: keys p.
Proof.
  symmetry. unfold keys. destruct ty; simpl.
  - by rewrite <-app_assoc, Permutation_middle.
  - by rewrite <-app_assoc, Permutation_middle, (Permutation_middle (q_stale p)).
  - by rewrite app_assoc, (app_assoc (q_unsolicited p)), app_assoc, (Permutation_app_comm _ [x]).
Qed.

Lemma elem_of_keys p i : i ∈ keys p <-> exists ty, i ∈ queue ty p.
Proof.
  unfold keys. rewrite !elem_of_app. split.
  - intros [?|[?|?]]; [exists QUEUE_UNSOLICITED|exists QUEUE_STALE|exists QUEUE_FIFO]; done.
  - intros [[]?]; simpl in *; auto.
Qed.

Lemma queue_set_queue ty ty' q p : queue ty (set_queue ty' q p) = if decide (ty = ty') then q else queue ty p.
Proof. by destruct ty, ty'. Qed.

Lemma queue_set_info f ty p : queue ty (set_info f p) = queue ty p.
Proof. by destruct ty. Qed.

Lemma attach_ok now e p :
  fifo_ok p -> ce_key e ∉ keys p ->
  fifo_ok (attachQueue now e p) /\ keys (attachQueue now e p) ≡ₚ ce_key e :: keys p.
Proof.
  intros [Hnd Hm] He. unfold attachQueue. set (ty := queueTypeOf now e).
  assert (keys (set_info (insert (ce_key e) ty) (set_queue ty (queue ty p ++ [ce_key e]) p))
    ≡ₚ ce_key e :: keys p) as Hk by apply keys_add_queue.
  split; [|done]. split; [rewrite Hk; by apply NoDup_cons|]. intros i ty'.
  rewrite queue_set_info, queue_set_queue. simpl.
  assert (m_entryInfoMap (set_queue ty (queue ty p ++ [ce_key e]) p) = m_entryInfoMap p) as ->
    by (by destruct ty).
  rewrite lookup_insert_Some, Hm. rewrite elem_of_keys in He.
  case_decide; subst; rewrite ?elem_of_app, ?list_elem_of_singleton; naive_solver.
Qed.

Lemma detach_ok i p :
  fifo_ok p -> i ∈ keys p -> fifo_ok (detachQueue i p) /\ keys p ≡ₚ i :: keys (detachQueue i p).
Proof.
  intros [Hnd Hm] Hi. apply elem_of_keys in Hi as [ty Hi]. unfold detachQueue.
  rewrite (proj2 (Hm i ty) Hi). pose proof (Lru.erase_perm i _ Hi) as Hq.
  assert (i :: keys (set_queue ty (erase_first (has_key id i) (queue ty p)) p) ≡ₚ keys p) as Hk
    by (apply keys_set_queue; done).
  split; [|symmetry; exact Hk]. rewrite <-Hk in Hnd. apply NoDup_cons in Hnd as [Hni Hnd].
  split; [exact Hnd|]. intros j ty'. rewrite queue_set_info. simpl.
  assert (m_entryInfoMap (set_queue ty (erase_first (has_key id i) (queue ty p)) p) = m_entryInfoMap p) as ->
    by (by destruct ty).
  rewrite lookup_delete_Some, Hm. rewrite elem_of_keys in Hni. split.
  - intros [Hne Hj]. rewrite queue_set_queue. case_decide; subst; [|done].
    rewrite Hq in Hj. apply elem_of_cons in Hj as [->|?]; done.
  - intros Hj. split; [intros ->; eauto|]. rewrite queue_set_queue in Hj. case_decide; subst; [|done].
    rewrite Hq. by right.
Qed.

Lemma moveToStale_ok i p :
  fifo_ok p -> fifo_ok (moveToStaleQueue i p) /\ keys (moveToStaleQueue i p) ≡ₚ keys p.
Proof.
  intros [Hnd Hm]. unfold moveToStaleQueue.
  destruct (m_entryInfoMap p !! i) as [[]|] eqn:Ei; [done|done| |done].
  apply Hm in Ei as Hi. simpl in Hi. pose proof (Lru.erase_perm i _ Hi) as Hq.
  assert (q_unsolicited p ++ (q_stale p ++ [i]) ++ erase_first (has_key id i) (q_fifo p) ≡ₚ keys p) as Hk.
  { unfold keys. rewrite Hq at 2. by rewrite <-app_assoc. }
  unfold keys at 2. split; [|exact Hk]. split; [unfold keys; simpl; by rewrite Hk|].
  intros j ty. simpl. rewrite lookup_insert_Some, Hm.
  assert (i ∉ q_unsolicited p /\ i ∉ q_stale p /\ i ∉ erase_first (has_key id i) (q_fifo p)) as (Hn1 & Hn2 & Hn3).
  { rewrite <-Hk in Hnd. clear -Hnd.
    replace (q_unsolicited p ++ (q_stale p ++ [i]) ++ erase_first (has_key id i) (q_fifo p))
      with ((q_unsolicited p ++ q_stale p) ++ i :: erase_first (has_key id i) (q_fifo p)) in Hnd
      by (by rewrite <-!app_assoc).
    rewrite <-Permutation_middle in Hnd. apply NoDup_cons in Hnd as [Hn _].
    rewrite !elem_of_app in Hn. tauto. }
  destruct ty; simpl.
  - naive_solver.
  - rewrite elem_of_app, list_elem_of_singleton. naive_solver.
  - split.
    + intros [[? ?]|[Hne Hj]]; [done|]. rewrite Hq in Hj. apply elem_of_cons in Hj as [->|?]; done.
    + intros Hj. right. split; [by intros ->|]. rewrite Hq. by right.
Qed.

#[global] Program Instance fifo_policy : CsPolicy C PriorityFifoPolicy := {|
  pol_new := mkFifo [] [] [] ∅;
  pol_insert := attachQueue;
  pol_refresh := fifo_doAfterRefresh;
  pol_erase := detachQueue;
  pol_use _ p := p;
  pol_evict := evictOne;
  pol_timer := moveToStaleQueue;
  pol_keys := keys;
  pol_ok := fifo_ok
|}.
Next Obligation.
  split; [|done]. split; [apply NoDup_nil; done|]. intros i ty. simpl. rewrite lookup_empty.
  destruct ty; simpl; set_solver.
Qed.
Next Obligation. intros; by apply attach_ok. Qed.
Next Obligation.
  intros now e p Hp He. destruct (detach_ok (ce_key e) p Hp He) as [Hp1 Hk1]. unfold fifo_doAfterRefresh.
  destruct (attach_ok now e _ Hp1) as [Hp2 Hk2].
  - destruct Hp as [Hnd _]. rewrite Hk1 in Hnd. by apply NoDup_cons in Hnd as [? _].
  - split; [done|]. by rewrite Hk2, <-Hk1.
Qed.
Next Obligation. intros; by apply detach_ok. Qed.
Next Obligation. done. Qed.
Next Obligation.
  intros p Hp Hne. unfold evictOne.
  assert (exists i, match q_unsolicited p, q_stale p, q_fifo p with
    | i :: _, _, _ | [], i :: _, _ | [], [], i :: _ => Some (i, detachQueue i p)
    | [], [], [] => None end = Some (i, detachQueue i p) /\ i ∈ keys p) as (i & -> & Hi).
  { unfold keys in *. destruct (q_unsolicited p) as [|i1 ?]; [|exists i1; set_solver].
    destruct (q_stale p) as [|i2 ?]; [|exists i2; set_solver].
    destruct (q_fifo p) as [|i3 ?]; [done|]. exists i3. set_solver. }
  exists i, (detachQueue i p). split; [done|]. by apply detach_ok.
Qed.
Next Obligation. intros; by apply moveToStale_ok. Qed.

End Fifo.
End PriorityFifo.

(** ** The store *)
Section Cs.
Context {C : Type} `{Packets C} `{!NameOrder C} {P : Type} `{!CsPolicy C P}.
Notation Name := (list C).
Notation Interest := (Interest C).
Notation CsEntry := (CsEntry C).

Record Cs := mkCs {
  m_table : list CsEntry;
  m_policy : P;
  m_limit : Z;
  m_shouldAdmit : bool;
  m_shouldServe : bool
}.
Implicit Types c : Cs.

Definition set_table (t : list CsEntry) (p : P) c : Cs :=
  mkCs t p (m_limit c) (m_shouldAdmit c) (m_shouldServe c).

Definition cs_size c : Z := Z.of_nat (length (m_table c)).

(** [m_table.erase(it)], connected to the signal [beforeEvict]. *)
Definition table_erase (k : Name) (t : list CsEntry) : list CsEntry := erase_first (has_key ce_key k) t.

(** [evictEntries] of either policy; at most one turn per entry. *)
Fixpoint evictEntries (fuel : nat) c : option Cs :=
  if m_limit c <? cs_size c then
    match fuel with
    | O => None
    | S fuel' =>
        '(i, p) ← pol_evict (m_policy c);
        evictEntries fuel' (set_table (table_erase i (m_table c)) p c)
    end
  else Some c.

Definition evict c : option Cs := evictEntries (length (m_table c)) c.

Definition setLimit (nMaxEntries : Z) c : option Cs :=
  evict (mkCs (m_table c) (m_policy c) nMaxEntries (m_shouldAdmit c) (m_shouldServe c)).

(** [Cs(nMaxPackets)]. *)
Definition newCs (nMaxPackets : Z) : option Cs := setLimit nMaxPackets (mkCs [] pol_new 0 true true).

(** [insert(data, isUnsolicited)]; [noCache] tells whether the Data carries the
    NO_CACHE policy tag. *)
Definition cs_insert (now : Z) (d : Data) (isUnsolicited noCache : bool) c : option Cs :=
  if negb (m_shouldAdmit c) || (m_limit c =? 0) then Some c
  else if noCache then Some c
  else
    let '(t, e, isNewEntry) := emplace (setData now d isUnsolicited) (m_table c) in
    let e := updateStaleTime now e in
    if isNewEntry then
      let t := update_first (has_key ce_key (ce_key e)) (fun _ => e) t in
      evict (set_table t (pol_insert now e (m_policy c)) c)
    else
      let e := if ce_unsolicited e && negb isUnsolicited then unsetUnsolicited now e else e in
      let t := update_first (has_key ce_key (ce_key e)) (fun _ => e) t in
      Some (set_table t (pol_refresh now e (m_policy c)) c).

(** One turn of the loop of [erase]. *)
Definition erase_step c (e : CsEntry) : Cs :=
  set_table (table_erase (ce_key e) (m_table c)) (pol_erase (ce_key e) (m_policy c)) c.

(** [erase(prefix, limit, cb)]: the store and the number of erased entries. *)
Definition cs_erase (prefix : Name) (limit : Z) c : Cs * Z :=
  let '(first, last) := prefix_range prefix (m_table c) in
  let victims := take (Z.to_nat limit) (slice first last (m_table c)) in
  (foldl erase_step c victims, Z.of_nat (length victims)).

(** [find(interest, hit, miss)]: the Data of the hit, if any. *)
Definition cs_find (now : Z) (interest : Interest) c : option (Cs * option Data) :=
  if negb (m_shouldServe c) || (m_limit c =? 0) then Some (c, None)
  else
    m ← search now interest (m_table c);
    match m_table c !! m with
    | None => Some (c, None)
    | Some e => Some (set_table (m_table c) (pol_use (ce_key e) (m_policy c)) c, Some (ce_data e))
    end.

Definition enableAdmit (b : bool) c : Cs := mkCs (m_table c) (m_policy c) (m_limit c) b (m_shouldServe c).
Definition enableServe (b : bool) c : Cs := mkCs (m_table c) (m_policy c) (m_limit c) (m_shouldAdmit c) b.

Definition cs_timer (k : Name) c : Cs := set_table (m_table c) (pol_timer k (m_policy c)) c.

(** ** Invariant *)

(** The table is in order, and the policy holds exactly its entries. *)
Definition cs_wf c : Prop :=
  sorted (m_table c) /\ pol_ok (m_policy c) /\ pol_keys (m_policy c) ≡ₚ ce_key <$> m_table c /\
  0 <= m_limit c.

Definition cs_ok c : Prop := cs_wf c /\ cs_size c <= m_limit c.

Lemma sorted_sublist (t' t : list CsEntry) : sublist t' t -> sorted t -> sorted t'.
Proof.
  unfold sorted. induction 1 as [|x l1 l2 Hs IH|x l1 l2 Hs IH]; intros Ht; [done| |].
  - apply StronglySorted_inv in Ht as [Ht Hx]. constructor; [by apply IH|].
    apply Forall_forall. intros y Hy. rewrite Forall_forall in Hx. apply Hx. by eapply elem_of_sublist.
  - apply StronglySorted_inv in Ht as [Ht _]. by apply IH.
Qed.

Lemma table_erase_perm k (t : list CsEntry) :
  k ∈ ce_key <$> t -> ce_key <$> t ≡ₚ k :: (ce_key <$> table_erase k t).
Proof.
  intros Hk. unfold table_erase. destruct (find_if (has_key ce_key k) t) as [e|] eqn:Ef.
  - apply find_key_Some in Ef as He. destruct He as [_ <-].
    rewrite <-(erase_first_perm _ _ _ Ef) at 1. done.
  - by apply find_key_None in Ef.
Qed.

(** Removing an entry from the table and from the policy. *)
Lemma remove_wf c k p' :
  cs_wf c -> pol_ok p' -> pol_keys (m_policy c) ≡ₚ k :: pol_keys p' ->
  cs_wf (set_table (table_erase k (m_table c)) p' c) /\
  length (table_erase k (m_table c)) = pred (length (m_table c)) /\ (0 < length (m_table c))%nat.
Proof.
  intros (Hs & Hp & Hk & Hl) Hp' Hk'.
  assert (k ∈ ce_key <$> m_table c) as Hin by (rewrite <-Hk, Hk'; by left).
  pose proof (table_erase_perm k _ Hin) as Hperm. split.
  - split_and!; [|done| |done]; simpl.
    + eapply sorted_sublist; [apply erase_first_sublist|done].
    + apply (Permutation_cons_inv (a:=k)). by rewrite <-Hk', Hk.
  - apply Permutation_length in Hperm. simpl in Hperm. rewrite !length_fmap in Hperm. lia.
Qed.

Lemma evictEntries_ok : forall fuel c,
  cs_wf c -> (length (m_table c) <= fuel)%nat -> exists c', evictEntries fuel c = Some c' /\ cs_ok c' /\
    m_limit c' = m_limit c /\ m_shouldAdmit c' = m_shouldAdmit c /\ m_shouldServe c' = m_shouldServe c /\
    sublist (m_table c') (m_table c) /\
    cs_size c' = Z.min (m_limit c) (cs_size c).
Proof.
  induction fuel as [|fuel IH]; intros c Hc Hf; unfold evictEntries; fold evictEntries.
  - assert (cs_size c = 0) as Hz by (unfold cs_size; lia). pose proof Hc as (_ & _ & _ & Hl).
    rewrite (proj2 (Z.ltb_ge _ _)) by lia. exists c. split_and!; try done; [split; [done|lia]|lia].
  - destruct (Z.ltb_spec (m_limit c) (cs_size c)) as [Hlt|Hge].
    + pose proof Hc as (_ & Hp & Hk & Hl).
      destruct (pol_evict_ok (m_policy c) Hp) as (k & p' & -> & Hp' & Hk').
      { intros Hn. rewrite Hn in Hk. apply Permutation_length in Hk. rewrite length_fmap in Hk.
        simpl in Hk. unfold cs_size in Hlt. lia. }
      destruct (remove_wf c k p' Hc Hp' Hk') as (Hwf & Hlen & Hpos). cbn [mbind option_bind].
      destruct (IH _ Hwf) as (c' & -> & Hok & Hl1 & Ha & Hsv & Hsub & Hsz); [simpl; lia|].
      exists c'. split_and!; try done.
      * etrans; [exact Hsub|]. apply erase_first_sublist.
      * rewrite Hsz. unfold cs_size in *. simpl. rewrite Hlen. lia.
    + exists c. split_and!; try done. lia.
Qed.

Lemma evict_ok c : cs_wf c -> exists c', evict c = Some c' /\ cs_ok c' /\
    m_limit c' = m_limit c /\ m_shouldAdmit c' = m_shouldAdmit c /\ m_shouldServe c' = m_shouldServe c /\
    sublist (m_table c') (m_table c) /\
    cs_size c' = Z.min (m_limit c) (cs_size c).
Proof. intros Hc. by apply evictEntries_ok. Qed.

(** Replacing an entry by one with the same full name. *)
Lemma table_update_keys (e : CsEntry) t :
  ce_key <$> update_first (has_key ce_key (ce_key e)) (fun _ => e) t = ce_key <$> t.
Proof.
  apply update_first_keys. intros x _ Hx. unfold has_key in Hx. by apply bool_decide_eq_true in Hx.
Qed.

Lemma sorted_keys (t t' : list CsEntry) : ce_key <$> t' = ce_key <$> t -> sorted t -> sorted t'.
Proof.
  unfold sorted. revert t'. induction t as [|x t IH]; intros [|y t'] Hk Ht; try done.
  csimpl in *. injection Hk as Hxy Hk. apply StronglySorted_inv in Ht as [Ht Hx].
  constructor; [by apply IH|]. apply Forall_forall. intros z' Hz'.
  apply (list_elem_of_fmap_2 ce_key) in Hz'. rewrite Hk in Hz'.
  apply list_elem_of_fmap in Hz' as (z & Hzz & Hz). rewrite Forall_forall in Hx. specialize (Hx z Hz).
  unfold data_lt, compareDataWithData in *. unfold ce_key, fullName in Hxy, Hzz.
  apply app_inj_tail in Hxy as [-> ->]. apply app_inj_tail in Hzz as [-> ->]. done.
Qed.

Lemma cs_insert_ok now d unsol noCache c :
  cs_ok c -> exists c', cs_insert now d unsol noCache c = Some c' /\ cs_ok c' /\
    (forall e', e' ∈ m_table c' -> ce_key e' ∈ (ce_key <$> m_table c) \/ ce_key e' = fullName d).
Proof.
  intros [Hc Hsz]. pose proof Hc as (Hs & Hp & Hk & Hl). unfold cs_insert.
  case_match; [exists c; split_and!; [done|done|]; intros e' He'; left; by apply list_elem_of_fmap_2|].
  destruct noCache; [exists c; split_and!; [done|done|]; intros e' He'; left; by apply list_elem_of_fmap_2|].
  pose proof (emplace_spec (setData now d unsol) (m_table c) Hs) as He.
  destruct (emplace _ (m_table c)) as [[t e] isNew]. destruct He as [Ht He]. destruct isNew.
  - destruct He as (-> & Hperm & Hnew). set (e := updateStaleTime now (setData now d unsol)).
    assert (ce_key e = fullName d) as Hke by done.
    set (t' := update_first _ _ t).
    assert (ce_key <$> t' = ce_key <$> t) as Hkeys by apply table_update_keys.
    assert (ce_key <$> t ≡ₚ fullName d :: (ce_key <$> m_table c)) as Hkt by (by rewrite Hperm).
    destruct (pol_insert_ok now e (m_policy c) Hp) as [Hp' Hk']; [rewrite Hk; done|].
    destruct (evict_ok (set_table t' (pol_insert now e (m_policy c)) c)) as (c' & Hev & Hok & Hl' & _ & _ & Hsub & _).
    { split_and!; [by eapply sorted_keys|done| |done]. simpl. by rewrite Hk', Hkeys, Hkt, Hk. }
    exists c'. split_and!; [done|done|]. intros e' He'. apply (elem_of_sublist _ _ _ He') in Hsub. simpl in Hsub.
    apply (list_elem_of_fmap_2 ce_key) in Hsub. rewrite Hkeys, Hkt in Hsub.
    apply elem_of_cons in Hsub as [->|?]; auto.
  - destruct He as (-> & Hin & Hkey).
    set (e1 := updateStaleTime now e).
    set (e2 := if ce_unsolicited e1 && negb unsol then unsetUnsolicited now e1 else e1).
    assert (ce_key e2 = ce_key e) as Hk2 by (unfold e2; by case_match).
    assert (ce_key <$> update_first (has_key ce_key (ce_key e2)) (fun _ => e2) (m_table c) =
      ce_key <$> m_table c) as Hkeys by apply table_update_keys.
    destruct (pol_refresh_ok now e2 (m_policy c) Hp) as [Hp' Hk'].
    { rewrite Hk, Hk2. by apply list_elem_of_fmap_2. }
    eexists. split_and!; [done| |].
    + split; [split_and!; [by eapply sorted_keys|done| |done]|]; simpl.
      * by rewrite Hk', Hkeys.
      * unfold cs_size in *. simpl. by rewrite length_update_first.
    + simpl. intros e' He'. left. apply (list_elem_of_fmap_2 ce_key) in He'. by rewrite Hkeys in He'.
Qed.

Lemma sublist_erase (x : CsEntry) l t :
  sublist (x :: l) t -> find_if (has_key ce_key (ce_key x)) t = Some x ->
  sublist l (table_erase (ce_key x) t).
Proof.
  unfold table_erase. induction t as [|y t IHt]; intros Hl Hf; [by inversion Hl|]. simpl in *.
  destruct (has_key ce_key (ce_key x) y) eqn:Ey.
  - simplify_eq. inversion Hl as [|? ? ? Hs|? ? ? Hs]; simplify_eq; [done|].
    etrans; [|exact Hs]. by apply sublist_cons.
  - inversion Hl as [|? ? ? Hs|? ? ? Hs]; simplify_eq.
    + unfold has_key in Ey. by rewrite bool_decide_eq_true_2 in Ey.
    + constructor. by apply IHt.
Qed.

Lemma erase_fold_ok : forall l c, cs_ok c -> sublist l (m_table c) ->
  cs_ok (foldl erase_step c l) /\
  sublist (m_table (foldl erase_step c l)) (m_table c) /\
  m_limit (foldl erase_step c l) = m_limit c /\
  (forall e, e ∈ m_table (foldl erase_step c l) <-> e ∈ m_table c /\ e ∉ l).
Proof.
  induction l as [|x l IH]; intros c Hc Hl; simpl; [split_and!; try done; set_solver|].
  pose proof Hc as [(Hs & Hp & Hk & Hlim) Hsz].
  assert (x ∈ m_table c) as Hx by (eapply elem_of_sublist; [by left|done]).
  assert (ce_key x ∈ pol_keys (m_policy c)) as Hkx by (rewrite Hk; by apply list_elem_of_fmap_2).
  destruct (pol_erase_ok _ _ Hp Hkx) as [Hp' Hk'].
  destruct (remove_wf c (ce_key x) _ (proj1 Hc) Hp' Hk') as (Hwf & Hlen & Hpos).
  assert (find_if (has_key ce_key (ce_key x)) (m_table c) = Some x) as Hf
    by (apply find_key_elem; [by apply sorted_uniq|done|done]).
  pose proof (erase_first_perm _ _ _ Hf) as Hperm.
  assert (NoDup (m_table c)) as Hnd by (eapply NoDup_fmap_1, sorted_uniq; done).
  assert (cs_ok (erase_step c x)) as Hc1.
  { split; [exact Hwf|]. unfold cs_size in *. simpl. rewrite Hlen. lia. }
  assert (sublist l (m_table (erase_step c x))) as Hl1.
  { by apply sublist_erase. }
  destruct (IH _ Hc1 Hl1) as (Hok & Hsub & Hlm & Hin). split_and!; [done| |done|].
  - etrans; [exact Hsub|]. apply erase_first_sublist.
  - intros e. rewrite Hin. simpl. unfold table_erase.
    set (rest := erase_first (has_key ce_key (ce_key x)) (m_table c)) in *. clearbody rest.
    assert (e ∈ m_table c <-> e = x \/ e ∈ rest) as -> by (rewrite <-Hperm; apply elem_of_cons).
    assert (x ∉ rest) by (rewrite <-Hperm in Hnd; by apply NoDup_cons in Hnd as [? _]).
    rewrite elem_of_cons. naive_solver.
Qed.

(** ** Sequences of operations *)

Inductive cs_op :=
| CsInsert (now : Z) (d : Data) (isUnsolicited noCache : bool)
| CsErase (prefix : Name) (limit : Z)
| CsFind (now : Z) (interest : Interest)
| CsSetLimit (n : Z)
| CsEnableAdmit (b : bool)
| CsEnableServe (b : bool)
| CsTimer (k : Name).

(** The Data of a hit is the answer of a find. *)
Definition cs_step c (op : cs_op) : option (Cs * option Data) :=
  match op with
  | CsInsert now d unsol noCache => c ← cs_insert now d unsol noCache c; Some (c, None)
  | CsErase prefix limit => Some ((cs_erase prefix limit c).1, None)
  | CsFind now interest => cs_find now interest c
  | CsSetLimit n => c ← setLimit n c; Some (c, None)
  | CsEnableAdmit b => Some (enableAdmit b c, None)
  | CsEnableServe b => Some (enableServe b c, None)
  | CsTimer k => Some (cs_timer k c, None)
  end.

Definition cs_op_ok (op : cs_op) : Prop :=
  match op with
  | CsInsert _ d _ _ => name_ok d
  | CsFind _ interest =>
      endsWithDigest (i_name interest) = false \/ childSelector (i_selectors interest) <> 1
  | CsSetLimit n => 0 <= n
  | _ => True
  end.

(** What a find answers in the state [c]. *)
Definition find_post (now : Z) (interest : Interest) c (r : option Data) : Prop :=
  match r with
  | Some d => exists e, e ∈ m_table c /\ ce_data e = d /\ canSatisfy now interest e = true
  | None => m_shouldServe c = false \/ m_limit c = 0 \/
      forall e, e ∈ m_table c -> canSatisfy now interest e = false
  end.

Definition step_post c (op : cs_op) (r : option Data) : Prop :=
  match op with CsFind now interest => find_post now interest c r | _ => r = None end.

Section Runs.
Context `{!SuccessorLaw C}.

Lemma slice_sublist a b (t : list CsEntry) : sublist (slice a b t) t.
Proof.
  unfold slice. etrans; [apply sublist_take|]. apply sublist_drop.
Qed.

Lemma cs_erase_ok prefix limit c :
  cs_ok c -> names_ok (m_table c) ->
  let '(c', n) := cs_erase prefix limit c in
  cs_ok c' /\ sublist (m_table c') (m_table c) /\
  exists victims, n = Z.of_nat (length victims) /\ Z.of_nat (length victims) <= Z.max 0 limit /\
    (forall e, e ∈ victims -> e ∈ m_table c /\ prefix `prefix_of` ce_key e) /\
    (Z.of_nat (length victims) < limit -> forall e, e ∈ m_table c -> prefix `prefix_of` ce_key e -> e ∈ victims) /\
    (forall e, e ∈ m_table c' <-> e ∈ m_table c /\ e ∉ victims).
Proof.
  intros Hc Hn. unfold cs_erase. destruct (prefix_range prefix (m_table c)) as [first last] eqn:Hr.
  pose proof Hc as [(Hs & _) _]. destruct (prefix_range_spec _ _ _ _ Hs Hn Hr) as [Hb Hin].
  set (victims := take (Z.to_nat limit) (slice first last (m_table c))).
  destruct (erase_fold_ok victims c Hc) as (Hok & Hsub & _ & Hel).
  { etrans; [apply sublist_take|apply slice_sublist]. }
  split_and!; [done|done|]. exists victims. split_and!; [done|unfold victims; rewrite length_take; lia| | |done].
  - intros e He. apply elem_of_take in He as (i & He & _). apply list_elem_of_lookup_2, elem_of_slice in He as (j & Hj & He).
    split; [by eapply list_elem_of_lookup_2|]. by apply (Hin j e He).
  - intros Hlt e He Hp. unfold victims in *. rewrite length_take in Hlt.
    rewrite take_ge by lia. apply elem_of_slice. apply list_elem_of_lookup in He as [j Hj].
    exists j. split; [by apply (Hin j e Hj)|done].
Qed.

Lemma names_ok_sublist (t' t : list CsEntry) : sublist t' t -> names_ok t -> names_ok t'.
Proof.
  unfold names_ok. rewrite !Forall_forall. intros Hs Ht e He. apply Ht. by eapply elem_of_sublist.
Qed.

Lemma names_ok_keys (t t' : list CsEntry) d :
  names_ok t -> name_ok d ->
  (forall e', e' ∈ t' -> ce_key e' ∈ (ce_key <$> t) \/ ce_key e' = fullName d) -> names_ok t'.
Proof.
  unfold names_ok, name_ok. rewrite !(Forall_forall _ t), !(Forall_forall _ t'). intros Ht Hd Hk e' He'.
  unfold ce_key, fullName in Hk.
  destruct (Hk e' He') as [(e & Hee & He)%list_elem_of_fmap|Hee]; apply app_inj_tail in Hee as [-> _]; auto.
Qed.

Lemma cs_find_ok now interest c :
  cs_ok c -> names_ok (m_table c) -> cs_op_ok (CsFind now interest) ->
  exists c' r, cs_find now interest c = Some (c', r) /\ cs_ok c' /\ m_table c' = m_table c /\
    find_post now interest c r.
Proof.
  intros [(Hs & Hp & Hk & Hl) Hsz] Hn Hop. unfold cs_find.
  destruct (m_shouldServe c) eqn:Esv; simpl; [|exists c, None; split_and!; [done|done|done|by left]].
  destruct (Z.eqb_spec (m_limit c) 0) as [Hz|Hz]; [exists c, None; split_and!; [done|done|done|by right; left]|].
  destruct (search_ok now interest (m_table c) Hs Hn Hop) as (r & -> & Hpost). cbn [mbind option_bind].
  destruct Hpost as [[-> Hno]|(e & He & Hsat)].
  - rewrite (proj2 (lookup_ge_None _ _)) by done. exists c, None. split_and!; [done|done|done|]. by right; right.
  - rewrite He. apply list_elem_of_lookup_2 in He as Hin.
    destruct (pol_use_ok (ce_key e) (m_policy c) Hp) as [Hp' Hk'].
    { rewrite Hk. by apply list_elem_of_fmap_2. }
    eexists _, _. split_and!; [done| |done|by exists e].
    split; [|done]. split_and!; [done|done| |done]. simpl. by rewrite Hk'.
Qed.

Lemma cs_step_ok c op :
  cs_ok c -> names_ok (m_table c) -> cs_op_ok op ->
  exists c' r, cs_step c op = Some (c', r) /\ cs_ok c' /\ names_ok (m_table c') /\ step_post c op r.
Proof.
  intros Hc Hn Hop. pose proof Hc as [(Hs & Hp & Hk & Hl) Hsz].
  destruct op as [now d unsol nc|prefix limit|now interest|n|b|b|k]; cbn [cs_step step_post].
  - destruct (cs_insert_ok now d unsol nc c Hc) as (c' & -> & Hc' & Hkeys).
    exists c', None. split_and!; [done|done| |done]. by eapply names_ok_keys.
  - pose proof (cs_erase_ok prefix limit c Hc Hn) as He. destruct (cs_erase prefix limit c) as [c' n'].
    destruct He as (Hc' & Hsub & _). exists c', None. split_and!; [done|done| |done]. by eapply names_ok_sublist.
  - destruct (cs_find_ok now interest c Hc Hn Hop) as (c' & r & -> & Hc' & Ht & Hpost).
    exists c', r. split_and!; [done|done| |done]. by rewrite Ht.
  - unfold setLimit. destruct (evict_ok (mkCs (m_table c) (m_policy c) n (m_shouldAdmit c) (m_shouldServe c)))
      as (c' & -> & Hc' & _ & _ & _ & Hsub & _); [done|].
    exists c', None. split_and!; [done|done| |done]. by eapply names_ok_sublist.
  - eexists _, _. done.
  - eexists _, _. done.
  - destruct (pol_timer_ok k (m_policy c) Hp) as [Hp' Hk']. eexists _, _. split_and!; [done| |done|done].
    split; [|done]. split_and!; [done|done| |done]. simpl. by rewrite Hk'.
Qed.

Fixpoint cs_run c (ops : list cs_op) : option (Cs * list (option Data)) :=
  match ops with
  | [] => Some (c, [])
  | op :: ops' =>
      '(c, r) ← cs_step c op;
      '(c, l) ← cs_run c ops';
      Some (c, r :: l)
  end.

Lemma cs_run_ok : forall ops c,
  cs_ok c -> names_ok (m_table c) -> Forall cs_op_ok ops ->
  exists c' l, cs_run c ops = Some (c', l) /\ cs_ok c' /\ names_ok (m_table c').
Proof.
  induction ops as [|op ops IH]; intros c Hc Hn Hops; [by exists c, []|].
  apply Forall_cons in Hops as [Hop Hops].
  destruct (cs_step_ok c op Hc Hn Hop) as (c1 & r & Hs & Hc1 & Hn1 & _).
  destruct (IH c1 Hc1 Hn1 Hops) as (c2 & l & Hr & Hc2 & Hn2).
  exists c2, (r :: l). cbn [cs_run]. rewrite Hs. cbn [mbind option_bind]. rewrite Hr. done.
Qed.

(** C23: whatever the replacement policy, every sequence of insertions,
    erasures, finds, reconfigurations and policy timers runs to its end (the
    eviction loops always find a victim), if no find asks with a full name (one
    that ends in an implicit digest) for the rightmost child, which
    [findRightmost_full_name_leaves_table] is about, and no inserted Data has a
    name that ends in a digest. The table is in canonical order, the policy holds
    exactly the entries of the table, and there are no more entries than the
    limit; and each further find is answered with satisfying Data exactly when
    the store serves and holds some. *)
Theorem cs_run_correct c ops op :
  cs_ok c -> names_ok (m_table c) -> Forall cs_op_ok ops -> cs_op_ok op ->
  exists c1 l, cs_run c ops = Some (c1, l) /\ cs_ok c1 /\
    exists c2 r, cs_step c1 op = Some (c2, r) /\ cs_ok c2 /\ step_post c1 op r.
Proof.
  intros Hc Hn Hops Hop. destruct (cs_run_ok ops c Hc Hn Hops) as (c1 & l & Hr & Hc1 & Hn1).
  exists c1, l. split_and!; [done|done|].
  destruct (cs_step_ok c1 op Hc1 Hn1 Hop) as (c2 & r & Hs & Hc2 & _ & Hpost). by exists c2, r.
Qed.

End Runs.

End Cs.
Arguments Cs C {_ _} P.

Section LruStore.
Context {C : Type} `{Packets C} `{!NameOrder C}.

Lemma lru_insert_ok now d unsol (c : Cs C Lru.LruPolicy) i q :
  cs_ok c -> m_shouldAdmit c = true -> 0 < m_limit c -> cs_size c = m_limit c ->
  fullName d ∉ ce_key <$> m_table c -> Lru.m_queue (m_policy c) = i :: q ->
  exists c', cs_insert now d unsol false c = Some c' /\ cs_ok c' /\
    Lru.m_queue (m_policy c') = q ++ [fullName d] /\
    ce_key <$> m_table c ≡ₚ i :: q /\ ce_key <$> m_table c' ≡ₚ q ++ [fullName d].
Proof.
  intros [Hc Hsz] Had Hlim Hfull Hnew Hq. pose proof Hc as (Hs & _ & Hk & _). simpl in Hk. rewrite Hq in Hk.
  unfold cs_insert. rewrite Had, (proj2 (Z.eqb_neq _ _)) by lia. cbn [negb orb].
  pose proof (emplace_spec (setData now d unsol) (m_table c) Hs) as He.
  destruct (emplace _ (m_table c)) as [[t e] isNew]. destruct He as [Ht He].
  destruct isNew; [|destruct He as (_ & Hin & Hkey); exfalso; apply Hnew;
    change (fullName d) with (ce_key (setData now d unsol)); rewrite <-Hkey; by apply list_elem_of_fmap_2].
  destruct He as (-> & Hperm & _). set (e := updateStaleTime now (setData now d unsol)).
  set (t' := update_first _ _ t).
  assert (ce_key <$> t' ≡ₚ fullName d :: (ce_key <$> m_table c)) as Hkt.
  { unfold t'. rewrite table_update_keys, Hperm. done. }
  set (c1 := set_table t' (pol_insert now e (m_policy c)) c).
  assert (Lru.m_queue (m_policy c1) = i :: q ++ [fullName d]) as Hq1.
  { unfold c1. simpl. unfold Lru.insertToQueue. rewrite Hq, bool_decide_eq_false_2; [done|].
    change (ce_key e) with (fullName d). by rewrite <-Hk in Hnew. }
  assert (length t' = S (length (m_table c))) as Hlt.
  { rewrite <-(length_fmap ce_key t'), Hkt. simpl. by rewrite length_fmap. }
  assert (cs_wf c1) as Hc1.
  { split_and!; [|done| |simpl; lia]; simpl.
    - eapply sorted_keys; [apply table_update_keys|done].
    - change (Lru.m_queue (m_policy c1) ≡ₚ ce_key <$> t'). rewrite Hq1, Hkt, <-Hk, (Permutation_app_comm q).
      simpl. apply perm_swap. }
  unfold evict. cbn [m_table set_table c1]. rewrite Hlt. unfold evictEntries. fold (evictEntries (C:=C) (P:=Lru.LruPolicy)).
  unfold cs_size in *. cbn [m_limit m_table set_table c1].
  rewrite (proj2 (Z.ltb_lt _ _)) by lia.
  assert (pol_evict (m_policy c1) = Some (i, Lru.mkLru (q ++ [fullName d]))) as Hev
    by (change (Lru.evictFront (m_policy c1) = Some (i, Lru.mkLru (q ++ [fullName d])));
        unfold Lru.evictFront; by rewrite Hq1).
  change (m_policy (set_table t' (pol_insert now e (m_policy c)) c)) with (m_policy c1). rewrite Hev.
  cbn [mbind option_bind].
  destruct (remove_wf c1 i (Lru.mkLru (q ++ [fullName d])) Hc1) as (Hc2 & Hl2 & _);
    [done|change (Lru.m_queue (m_policy c1) ≡ₚ i :: q ++ [fullName d]); by rewrite Hq1|].
  set (c2 := set_table (table_erase i (m_table c1)) _ c1) in *. cbn [m_table set_table c1] in Hl2.
  assert (cs_size c2 = m_limit c) as Hsz2.
  { unfold cs_size, c2. cbn [m_table set_table]. cbn [m_table c1 set_table] in *. rewrite Hl2. lia. }
  exists c2. split_and!.
  - destruct (m_table c); simpl in Hfull; [lia|]. cbn [length].
    unfold evictEntries. unfold cs_size in Hsz2. unfold cs_size.
    change (m_limit (set_table (table_erase i t') _ _)) with (m_limit c).
    rewrite (proj2 (Z.ltb_ge _ _)); [done|]. rewrite <-Hsz2. done.
  - split; [done|]. by rewrite Hsz2.
  - done.
  - by symmetry.
  - destruct Hc2 as (_ & _ & Hk2 & _). by symmetry.
Qed.

(** Under the LRU policy, inserting Data that is not in a full store evicts
    exactly the entry that was used least recently (the front of the queue), and
    makes the new entry the most recently used. *)
Theorem lru_insert_evicts_oldest now d unsol (c : Cs C Lru.LruPolicy) i q :
  cs_ok c -> m_shouldAdmit c = true -> 0 < m_limit c -> cs_size c = m_limit c ->
  fullName d ∉ ce_key <$> m_table c -> Lru.m_queue (m_policy c) = i :: q ->
  exists c', cs_insert now d unsol false c = Some c' /\ cs_ok c' /\
    Lru.m_queue (m_policy c') = q ++ [fullName d] /\
    ce_key <$> m_table c ≡ₚ i :: q /\ ce_key <$> m_table c' ≡ₚ q ++ [fullName d].
Proof. apply lru_insert_ok. Qed.

End LruStore.

Module CsExamples.
Import CsTableExamples.

(** A store of limit 2 with two entries, under either policy. *)
Definition fill {P} `{!CsPolicy Z P} : option (Cs Z P) :=
  c ← newCs 2;
  c ← cs_insert 0 (dataOf [1] 4 100) false false c;
  cs_insert 1 (dataOf [2] 5 100) false false c.

Definition lruStore : Cs Z Lru.LruPolicy := default (mkCs [] pol_new 0 true true) fill.
Definition fifoStore : Cs Z PriorityFifo.PriorityFifoPolicy := default (mkCs [] pol_new 0 true true) fill.

Lemma fill_ok {P} `{!CsPolicy Z P} : exists c, fill (P:=P) = Some c /\ cs_ok c /\ names_ok (m_table c).
Proof.
  assert (cs_ok (mkCs (P:=P) [] pol_new 2 true true) /\ names_ok (m_table (mkCs (P:=P) [] pol_new 2 true true)))
    as [H0 Hn0].
  { destruct pol_new_ok as [Hp Hk]. split; [|constructor]. split; [|done].
    split_and!; [apply SSorted_nil|done|simpl; by rewrite Hk|done]. }
  unfold fill. change (newCs 2) with (Some (mkCs (P:=P) [] pol_new 2 true true)). cbn [mbind option_bind].
  destruct (cs_step_ok _ (CsInsert 0 (dataOf [1] 4 100) false false) H0 Hn0) as (c1 & r1 & H1 & Hc1 & Hn1 & _);
    [repeat constructor|].
  destruct (cs_step_ok _ (CsInsert 1 (dataOf [2] 5 100) false false) Hc1 Hn1) as (c2 & r2 & H2 & Hc2 & Hn2 & _);
    [repeat constructor|].
  cbn [cs_step] in H1, H2. apply bind_Some in H1 as (c1' & -> & H1). simplify_eq. cbn [mbind option_bind].
  apply bind_Some in H2 as (c2' & -> & H2). simplify_eq. eauto.
Qed.

Lemma lruStore_ok : cs_ok lruStore /\ names_ok (m_table lruStore).
Proof. unfold lruStore. destruct (fill_ok (P:=Lru.LruPolicy)) as (c & -> & Hc). exact Hc. Qed.

Lemma fifoStore_ok : cs_ok fifoStore /\ names_ok (m_table fifoStore).
Proof.
  unfold fifoStore. destruct (fill_ok (P:=PriorityFifo.PriorityFifoPolicy)) as (c & -> & Hc). exact Hc.
Qed.

Example cs_run_correct_witness :
  exists c1 l, cs_run fifoStore [CsInsert 2 (dataOf [3] 6 100) true false; CsTimer [1; -4]] = Some (c1, l) /\
    cs_ok c1 /\ cs_size c1 <= 2.
Proof.
  destruct fifoStore_ok as [Hc Hn].
  destruct (cs_run_correct fifoStore [CsInsert 2 (dataOf [3] 6 100) true false; CsTimer [1; -4]]
    (CsEnableServe true) Hc Hn) as (c1 & l & Hr & Hc1 & _).
  - repeat constructor.
  - exact I.
  - exists c1, l. split_and!; [exact Hr|exact Hc1|]. destruct Hc1 as [_ Hsz].
    assert ((fun r => m_limit r.1) <$>
      cs_run fifoStore [CsInsert 2 (dataOf [3] 6 100) true false; CsTimer [1; -4]] = Some 2) as Hl by (by vm_compute).
    rewrite Hr in Hl. injection Hl as Hl. simpl in Hl. lia.
Defined.

Example lru_insert_evicts_oldest_witness :
  exists c', cs_insert 2 (dataOf [3] 6 100) false false lruStore = Some c' /\
    Lru.m_queue (m_policy c') = [[2; -5]; [3; -6]].
Proof.
  destruct lruStore_ok as [Hc _].
  destruct (lru_insert_evicts_oldest 2 (dataOf [3] 6 100) false lruStore [1; -4] [[2; -5]] Hc)
    as (c' & Hi & _ & Hq & _).
  - by vm_compute.
  - by vm_compute.
  - by vm_compute.
  - apply (bool_decide_unpack _). by vm_compute.
  - by vm_compute.
  - exists c'. split; [exact Hi|exact Hq].
Defined.

End CsExamples.
