(* ===== verification/FwAlgorithm.v ===== *)
(** * Forwarding algorithms and retransmission suppression

    Models [daemon/fw/algorithm.hpp/.cpp], [retx-suppression-exponential.cpp] and
    [retx-suppression-fixed.cpp]. A face pointer is an integer; what the daemon
    reads of the face behind it is a [FaceInfo]. Clock readings are nanoseconds,
    suppression intervals microseconds. A failed assertion is [None]. *)

From S2P Require Import Prelude Fp Ndn Fib Pit.
Local Open Scope Z_scope.

Inductive LinkType := LINK_TYPE_POINT_TO_POINT | LINK_TYPE_MULTI_ACCESS | LINK_TYPE_AD_HOC.
#[export] Instance LinkType_eq_dec : EqDecision LinkType.
Proof. solve_decision. Defined.

Record FaceInfo := mkFace { f_id : Z; f_local : bool; f_linkType : LinkType }.

(** The names [ndn:/localhost] and [ndn:/localhop]. *)
Class ScopePrefixes (C : Type) := { LOCALHOST : list C; LOCALHOP : list C }.

(** [std::max_element] with the comparison [key a < key b]: the first greatest. *)
Definition max_element {A : Type} (key : A -> Z) (l : list A) : option A :=
  match l with
  | [] => None
  | x :: l => Some (foldl (fun best y => if key best <? key y then y else best) x l)
  end.

Inductive RetxSuppressionResult := NEW | FORWARD | SUPPRESS.
#[export] Instance RetxSuppressionResult_eq_dec : EqDecision RetxSuppressionResult.
Proof. solve_decision. Defined.

(** [RetxSuppressionExponential]: the intervals in microseconds, the multiplier a
    [float]. *)
Record RetxSuppressionExponential := mkRetxExp {
  m_initialInterval : Z; m_multiplier : Z; m_maxInterval : Z
}.

Definition us : Z := 1000.
Definition DEFAULT_INITIAL_INTERVAL : Z := 1000.
Definition DEFAULT_MAX_INTERVAL : Z := 250000.
Definition DEFAULT_MULTIPLIER : Z := float_of_int 2.
Definition PitInfo_typeId : Z := 1020.

Definition newRetxSuppressionExponential (initialInterval multiplier maxInterval : Z) :
    option RetxSuppressionExponential :=
  if (0 <? initialInterval) && (float_of_int 1 <=? multiplier) && (initialInterval <=? maxInterval)
  then Some (mkRetxExp initialInterval multiplier maxInterval) else None.

(** [RETX_SUPPRESSION_INITIAL] and [RETX_SUPPRESSION_MAX] of the strategies. *)
Definition strategyRetx : RetxSuppressionExponential := mkRetxExp 10000 DEFAULT_MULTIPLIER 250000.

(** [min(m_maxInterval, duration_cast<Duration>(suppressionInterval * m_multiplier))]. *)
Definition increaseInterval (rs : RetxSuppressionExponential) (x : Z) : Z :=
  Z.min (m_maxInterval rs) (float_to_int (float_mul (float_of_int x) (m_multiplier rs))).

Section Scope.
Context {C : Type} `{Packets C} `{!ScopePrefixes C} (faceOf : Z -> FaceInfo).

Definition wouldViolateScope (inFace : Z) (interest : Interest C) (outFace : Z) : bool :=
  if f_local (faceOf outFace) then false
  else if isPrefixOf LOCALHOST (i_name interest) then true
  else if isPrefixOf LOCALHOP (i_name interest) then negb (f_local (faceOf inFace))
  else false.

End Scope.

Section Algorithm.
Context {C : Type} `{Packets C}.
Notation Name := (list C).
Notation Interest := (Interest C).
Notation PitEntry := (PitEntry C).
Notation InRecord := (InRecord C).
Implicit Types (pe : PitEntry) (interest : Interest) (rs : RetxSuppressionExponential).

Definition canForwardToLegacy (now : Z) pe (face : Z) : bool :=
  if existsb (fun r => (out_face r =? face) && (now <=? out_expiry r)) (m_outRecords pe) then false
  else if negb (existsb (fun r => negb (in_face r =? face) && (now <=? in_expiry r)) (m_inRecords pe))
       then false
  else true.

Definition DUPLICATE_NONCE_NONE : Z := 0.
Definition DUPLICATE_NONCE_IN_SAME : Z := Z.shiftl 1 0.
Definition DUPLICATE_NONCE_IN_OTHER : Z := Z.shiftl 1 1.
Definition DUPLICATE_NONCE_OUT_SAME : Z := Z.shiftl 1 2.
Definition DUPLICATE_NONCE_OUT_OTHER : Z := Z.shiftl 1 3.

Definition findDuplicateNonce pe (nonce face : Z) : Z :=
  let dnw := foldl (fun dnw r =>
    if in_lastNonce r =? nonce
    then Z.lor dnw (if in_face r =? face then DUPLICATE_NONCE_IN_SAME else DUPLICATE_NONCE_IN_OTHER)
    else dnw) DUPLICATE_NONCE_NONE (m_inRecords pe) in
  foldl (fun dnw r =>
    if out_lastNonce r =? nonce
    then Z.lor dnw (if out_face r =? face then DUPLICATE_NONCE_OUT_SAME else DUPLICATE_NONCE_OUT_OTHER)
    else dnw) dnw (m_outRecords pe).

Definition isPendingOut (now : Z) (r : OutRecord) : bool :=
  (now <=? out_expiry r) && match out_incomingNack r with None => true | Some _ => false end.

Definition hasPendingOutRecords (now : Z) pe : bool := existsb (isPendingOut now) (m_outRecords pe).

Definition getLastOutgoing pe : option Z := out_lastRenewed <$> max_element out_lastRenewed (m_outRecords pe).

(** ** Retransmission suppression *)

Definition decidePerPitEntry rs (now : Z) pe : option (RetxSuppressionResult * PitEntry) :=
  if negb (hasPendingOutRecords now pe) then Some (NEW, pe)
  else
    lastOutgoing ← getLastOutgoing pe;
    let sinceLastOutgoing := now - lastOutgoing in
    let '(h, interval, _) := insertStrategyInfo PitInfo_typeId (m_initialInterval rs) (pe_info pe) in
    if sinceLastOutgoing <? interval * us then Some (SUPPRESS, set_info h pe)
    else Some (FORWARD, set_info (<[PitInfo_typeId := increaseInterval rs interval]> h) pe).

Definition set_out_info (h : StrategyInfoHost) (r : OutRecord) : OutRecord :=
  mkOutRecord (out_face r) (out_lastNonce r) (out_lastRenewed r) (out_expiry r) (out_incomingNack r) h.

Definition decidePerUpstream rs (now : Z) (outFace : Z) pe : RetxSuppressionResult * PitEntry :=
  match getOutRecord outFace pe with
  | None => (NEW, pe)
  | Some outRecord =>
      let sinceLastOutgoing := now - out_lastRenewed outRecord in
      let '(h, interval, _) := insertStrategyInfo PitInfo_typeId (m_initialInterval rs) (out_info outRecord) in
      let pe := set_outRecords (update_first (has_key out_face outFace) (set_out_info h) (m_outRecords pe)) pe in
      (if sinceLastOutgoing <? interval * us then SUPPRESS else FORWARD, pe)
  end.

Definition incrementIntervalForOutRecord rs (outFace : Z) pe : PitEntry :=
  set_outRecords
    (update_first (has_key out_face outFace)
       (fun r => let '(h, interval, _) := insertStrategyInfo PitInfo_typeId (m_initialInterval rs) (out_info r) in
                 set_out_info (<[PitInfo_typeId := increaseInterval rs interval]> h) r)
       (m_outRecords pe)) pe.

(** [RetxSuppressionFixed] with the interval in milliseconds. *)
Definition DEFAULT_MIN_RETX_INTERVAL : Z := 100.

Definition decidePerPitEntry_fixed (minRetxInterval now : Z) pe : option RetxSuppressionResult :=
  if negb (hasPendingOutRecords now pe) then Some NEW
  else
    lastOutgoing ← getLastOutgoing pe;
    Some (if now - lastOutgoing <? minRetxInterval * ms then SUPPRESS else FORWARD).

(** ** Lemmas *)

Lemma max_element_None {A} (key : A -> Z) l : max_element key l = None <-> l = [].
Proof. by destruct l. Qed.

Lemma max_element_Some {A} (key : A -> Z) l x :
  max_element key l = Some x -> x ∈ l /\ forall y, y ∈ l -> key y <= key x.
Proof.
  destruct l as [|z l]; simpl; [done|]. intros [= <-]. revert z.
  induction l as [|w l IH]; intros z; simpl; [set_solver by lia|].
  destruct (IH (if key z <? key w then w else z)) as [Hin Hle].
  set (best := foldl _ _ _) in *. split.
  - destruct (key z <? key w); set_solver.
  - assert (key (if key z <? key w then w else z) <= key best) as Hb by (apply Hle; left).
    intros y [->|[->|Hy]%elem_of_cons]%elem_of_cons.
    + destruct (key z <? key w) eqn:E0; breflect; lia.
    + destruct (key z <? key w) eqn:E0; breflect; lia.
    + apply Hle. by right.
Qed.

(** A nonce found in no record gives no duplicate, one found gives some. *)
Lemma findDuplicateNonce_none pe nonce face :
  findDuplicateNonce pe nonce face = DUPLICATE_NONCE_NONE <->
  (forall r, r ∈ m_inRecords pe -> in_lastNonce r <> nonce) /\
  (forall r, r ∈ m_outRecords pe -> out_lastNonce r <> nonce).
Proof.
  assert (forall A (nn fc : A -> Z) a b, a <> 0 -> b <> 0 -> forall l d,
    foldl (fun dnw r => if nn r =? nonce then Z.lor dnw (if fc r =? face then a else b) else dnw) d l = 0 <->
    d = 0 /\ forall r, r ∈ l -> nn r <> nonce) as Hfold.
  { intros A nn fc a b Ha Hb l. induction l as [|x l IH]; intros d; simpl.
    - split; [intros ->; split; [done|set_solver]|tauto].
    - rewrite IH. destruct (nn x =? nonce) eqn:Ex; breflect.
      + rewrite Z.lor_eq_0_iff. split; [destruct (fc x =? face); tauto|].
        intros [_ Hall]. destruct (Hall x); [left|done].
      + split; intros [-> Hall]; (split; [done|]); [|set_solver].
        intros r [->|Hr]%elem_of_cons; [done|by apply Hall]. }
  unfold findDuplicateNonce, DUPLICATE_NONCE_NONE. rewrite !Hfold by done. tauto.
Qed.

(** The bit for the same face is clear unless an in-record of that face has the
    nonce. *)
Lemma findDuplicateNonce_in_same pe nonce face :
  (forall r, r ∈ m_inRecords pe -> in_lastNonce r = nonce -> in_face r <> face) ->
  Z.land (findDuplicateNonce pe nonce face) DUPLICATE_NONCE_IN_SAME = 0.
Proof.
  assert (forall A (nn fc : A -> Z) a b l d,
    (forall r, r ∈ l -> nn r = nonce -> fc r = face -> Z.land a 1 = 0) -> Z.land b 1 = 0 -> Z.land d 1 = 0 ->
    Z.land (foldl (fun dnw r => if nn r =? nonce then Z.lor dnw (if fc r =? face then a else b) else dnw) d l) 1 = 0)
    as Hfold.
  { intros A nn fc a b l. induction l as [|x l IH]; intros d Ha Hb Hd; simpl; [done|]. apply IH; [set_solver|done|].
    destruct (nn x =? nonce) eqn:En; [|done]. breflect. rewrite Z.land_lor_distr_l, Hd, Z.lor_0_l.
    destruct (fc x =? face) eqn:Ef; [|done]. breflect. apply (Ha x); [left|done|done]. }
  intros Hin. unfold findDuplicateNonce. change DUPLICATE_NONCE_IN_SAME with 1 at 2.
  apply Hfold; [done|done|]. apply Hfold; [|done|done].
  intros r Hr Hn Hf. by destruct (Hin r Hr Hn).
Qed.

Lemma hasPendingOutRecords_spec now pe :
  hasPendingOutRecords now pe = true <->
  exists r, r ∈ m_outRecords pe /\ now <= out_expiry r /\ out_incomingNack r = None.
Proof.
  unfold hasPendingOutRecords, isPendingOut. rewrite existsb_exists. split.
  - intros (r & Hr%list_elem_of_In & Hp). breflect. exists r. split_and!; [done|done|]. by case_match.
  - intros (r & Hr & He & Hn). exists r. split; [by apply list_elem_of_In|]. rewrite Hn.
    apply andb_true_intro. split; [by apply Z.leb_le|done].
Qed.

(** Whoever is told to look at the last outgoing record has one. *)
Lemma pending_last now pe :
  hasPendingOutRecords now pe = true -> exists last, getLastOutgoing pe = Some last.
Proof.
  intros (r & Hr & _)%hasPendingOutRecords_spec. unfold getLastOutgoing.
  destruct (max_element out_lastRenewed (m_outRecords pe)) eqn:E0; [by eexists|].
  apply max_element_None in E0. rewrite E0 in Hr. set_solver.
Qed.

Lemma decidePerPitEntry_total rs now pe : exists r pe', decidePerPitEntry rs now pe = Some (r, pe').
Proof.
  unfold decidePerPitEntry. destruct (hasPendingOutRecords now pe) eqn:E0; simpl; [|by eauto].
  apply pending_last in E0 as [l ->]. simpl. unfold insertStrategyInfo.
  destruct (pe_info pe !! _); simpl; case_match; eauto.
Qed.

(** The decision changes nothing but the strategy items. *)
Lemma decidePerPitEntry_frame rs now pe r pe' :
  decidePerPitEntry rs now pe = Some (r, pe') -> exists h, pe' = set_info h pe.
Proof.
  unfold decidePerPitEntry. case_match; [intros; simplify_eq; exists (pe_info pe'); by destruct pe'|].
  destruct (getLastOutgoing pe); simpl; [|done]. unfold insertStrategyInfo.
  destruct (pe_info pe !! _); case_match; intros; simplify_eq; by eexists.
Qed.

Section Exponential.
Variables (init max : Z).
Hypotheses (Hinit : 0 < init) (Hmax : init <= max) (Hfit : max < 2 ^ 23).

(** A power-of-two multiplier is exact below the precision of [float]. *)
Lemma increase_doubles x : 0 <= x <= max ->
  increaseInterval (mkRetxExp init DEFAULT_MULTIPLIER max) x = Z.min max (2 * x).
Proof using Hfit.
  intros Hx. unfold increaseInterval, DEFAULT_MULTIPLIER. simpl m_maxInterval. simpl m_multiplier. f_equal.
  rewrite !of_int_exact, fmul_def, to_int_def by lia.
  replace (x * 2 ^ 149 * (2 * 2 ^ 149)) with ((2 * x) * 2 ^ 149 * 2 ^ 149) by ring.
  rewrite fround_repr; [|lia|lia|apply repr_int; lia]. apply Z.quot_mul. lia.
Qed.

(** The interval after [k] forwarded retransmissions. *)
Definition interval_at (k : nat) : Z := Z.min max (init * 2 ^ Z.of_nat k).

Lemma interval_at_bounds k : init <= interval_at k <= max.
Proof.
  unfold interval_at. assert (1 <= 2 ^ Z.of_nat k) by (apply (Z.pow_le_mono_r 2 0); lia). nia.
Qed.

Lemma interval_at_S k :
  increaseInterval (mkRetxExp init DEFAULT_MULTIPLIER max) (interval_at k) = interval_at (S k).
Proof.
  rewrite increase_doubles by (pose proof (interval_at_bounds k); lia).
  unfold interval_at. rewrite Nat2Z.inj_succ, Z.pow_succ_r by lia. nia.
Qed.

(** A retransmission at a time: the decision, and the outgoing Interest it
    permits. *)
Definition retx_attempt rs (ev : Z * Z * Interest) pe : option (RetxSuppressionResult * PitEntry) :=
  let '(now, outFace, interest) := ev in
  '(r, pe) ← decidePerPitEntry rs now pe;
  Some (r, match r with SUPPRESS => pe | _ => insertOrUpdateOutRecord now outFace interest pe end).

Fixpoint retx_run rs (evs : list (Z * Z * Interest)) pe : option (list (Z * RetxSuppressionResult)) :=
  match evs with
  | [] => Some []
  | ev :: evs =>
      '(r, pe) ← retx_attempt rs ev pe;
      tr ← retx_run rs evs pe;
      Some ((ev.1.1, r) :: tr)
  end.

(** The outcomes allowed when the last Interest went out at [last] and [k]
    retransmissions were forwarded: a forwarded one comes no sooner than the
    interval after [last], a suppressed one sooner. *)
Fixpoint spaced (last : option Z) (k : nat) (tr : list (Z * RetxSuppressionResult)) : Prop :=
  match tr with
  | [] => True
  | (now, NEW) :: tr => spaced (Some now) k tr
  | (now, FORWARD) :: tr =>
      (exists t, last = Some t /\ interval_at k * us <= now - t) /\ spaced (Some now) (S k) tr
  | (now, SUPPRESS) :: tr => (exists t, last = Some t /\ now - t < interval_at k * us) /\ spaced last k tr
  end.

Definition retx_inv (last : option Z) (k : nat) pe : Prop :=
  default init (pe_info pe !! PitInfo_typeId) = interval_at k /\
  match last with
  | None => m_outRecords pe = []
  | Some t => getLastOutgoing pe = Some t
  end.

Lemma last_after_send now face interest pe last :
  match last with None => m_outRecords pe = [] | Some t => getLastOutgoing pe = Some t /\ t <= now end ->
  getLastOutgoing (insertOrUpdateOutRecord now face interest pe) = Some now.
Proof.
  intros Hl. assert (forall r, r ∈ m_outRecords pe -> out_lastRenewed r <= now) as Hle.
  { intros r Hr. destruct last as [t|]; [|rewrite Hl in Hr; set_solver]. destruct Hl as [Hl Ht].
    unfold getLastOutgoing in Hl. destruct (max_element _ _) as [b|] eqn:Eb; simplify_eq/=.
    apply max_element_Some in Eb as [_ Hb]. specialize (Hb _ Hr). lia. }
  set (pe' := insertOrUpdateOutRecord now face interest pe).
  assert (exists r, r ∈ m_outRecords pe' /\ out_lastRenewed r = now) as (r0 & Hr0 & Hn).
  { unfold pe', insertOrUpdateOutRecord, getOutRecord. simpl.
    destruct (find_if (has_key out_face face) (m_outRecords pe)) as [r|] eqn:Ef.
    - exists (updateOutRecord now interest r). split; [|done].
      rewrite (update_first_perm _ _ _ _ Ef). by left.
    - simpl. unfold has_key at 1. rewrite bool_decide_eq_true_2 by done.
      eexists. split; [by left|done]. }
  assert (forall r, r ∈ m_outRecords pe' -> out_lastRenewed r <= now) as Hle'.
  { intros r Hr. unfold pe', insertOrUpdateOutRecord in Hr. simpl in Hr.
    destruct (update_first_elem _ _ _ _ Hr) as (y & Hy & [->| ->]); [|done].
    destruct (getOutRecord face pe) as [r1|] eqn:Er; [by apply Hle|].
    simpl in Hr. unfold has_key at 1 in Hr. rewrite bool_decide_eq_true_2 in Hr by done.
    apply elem_of_cons in Hr as [->|Hr]; [done|by apply Hle]. }
  unfold getLastOutgoing. destruct (max_element _ _) as [b|] eqn:Eb.
  - apply max_element_Some in Eb as [Hb1 Hb2]. simpl. f_equal.
    pose proof (Hle' _ Hb1). pose proof (Hb2 _ Hr0). lia.
  - apply max_element_None in Eb. rewrite Eb in Hr0. set_solver.
Qed.

Lemma retx_attempt_ok last k ev pe :
  retx_inv last k pe -> (forall t, last = Some t -> t <= ev.1.1) ->
  exists r pe', retx_attempt (mkRetxExp init DEFAULT_MULTIPLIER max) ev pe = Some (r, pe') /\
  match r with
  | NEW => retx_inv (Some ev.1.1) k pe'
  | FORWARD => retx_inv (Some ev.1.1) (S k) pe' /\ exists t, last = Some t /\ interval_at k * us <= ev.1.1 - t
  | SUPPRESS => retx_inv last k pe' /\ exists t, last = Some t /\ ev.1.1 - t < interval_at k * us
  end.
Proof using Hinit Hmax Hfit.
  destruct ev as [[now face] interest]. simpl. intros [Hi Hl] Ht.
  assert (forall pe', m_outRecords pe' = m_outRecords pe ->
    getLastOutgoing (insertOrUpdateOutRecord now face interest pe') = Some now) as Hsend.
  { intros pe' Ho. apply (last_after_send now face interest pe' last).
    destruct last as [t|]; unfold getLastOutgoing; rewrite Ho; [split; [exact Hl|by apply Ht]|done]. }
  unfold decidePerPitEntry. destruct (hasPendingOutRecords now pe) eqn:Ep; simpl; cycle 1.
  { do 2 eexists. split; [done|]. simpl. split; [exact Hi|by apply Hsend]. }
  apply pending_last in Ep as [t Elast]. rewrite Elast. simpl.
  assert (last = Some t) as ->.
  { destruct last as [t'|]; [congruence|]. unfold getLastOutgoing in Elast. by rewrite Hl in Elast. }
  unfold insertStrategyInfo.
  assert (exists h b, match pe_info pe !! PitInfo_typeId with
      | Some y => (pe_info pe, y, false)
      | None => (<[PitInfo_typeId:=init]> (pe_info pe), init, true)
      end = (h, interval_at k, b) /\ h !! PitInfo_typeId = Some (interval_at k)) as (h & b & Eh & Hh).
  { destruct (pe_info pe !! PitInfo_typeId) eqn:E0; rewrite ?E0 in Hi; simpl in Hi; subst.
    - by eauto.
    - exists (<[PitInfo_typeId:=interval_at k]> (pe_info pe)), true.
      rewrite <-Hi. split; [done|]. apply (lookup_insert_eq (M:=gmap Z)). }
  simpl m_initialInterval. rewrite Eh.
  destruct (now - t <? interval_at k * us) eqn:Es; simpl; breflect.
  - do 2 eexists. split; [done|]. simpl. split; [|eauto]. split; [exact (f_equal (default init) Hh)|exact Elast].
  - do 2 eexists. split; [done|]. simpl. split; [|eauto].
    split; [|by apply Hsend]. etrans; [exact (f_equal (default init) (lookup_insert_eq (M:=gmap Z) _ _ _))|apply interval_at_S].
Qed.

Lemma retx_run_ok evs : forall last k pe,
  retx_inv last k pe -> StronglySorted Z.le ((fun ev => ev.1.1) <$> evs) ->
  (forall t ev, last = Some t -> ev ∈ evs -> t <= ev.1.1) ->
  exists tr, retx_run (mkRetxExp init DEFAULT_MULTIPLIER max) evs pe = Some tr /\
    tr.*1 = (fun ev => ev.1.1) <$> evs /\ spaced last k tr.
Proof using Hinit Hmax Hfit.
  induction evs as [|ev evs IH]; intros last k pe Hinv Hs Ht; [by exists []|].
  apply StronglySorted_inv in Hs as [Hs Hhd].
  assert (forall ev', ev' ∈ evs -> ev.1.1 <= ev'.1.1) as Hle.
  { intros ev' Hev. rewrite Forall_forall in Hhd. apply Hhd. apply list_elem_of_fmap. eauto. }
  destruct (retx_attempt_ok last k ev pe Hinv) as (r & pe' & Hat & Hr).
  { intros t ->. apply (Ht t ev); [done|left]. }
  cbn [retx_run]. rewrite Hat. cbn [mbind option_bind].
  destruct r.
  - destruct (IH (Some ev.1.1) k pe') as (tr & Etr & Hfst & Hsp); [done|done| |].
    { intros t ev' [= <-] Hev. by apply Hle. }
    rewrite Etr. eexists. split; [done|]. simpl. split; [by f_equal|done].
  - destruct Hr as [Hr Hgap].
    destruct (IH (Some ev.1.1) (S k) pe') as (tr & Etr & Hfst & Hsp); [done|done| |].
    { intros t ev' [= <-] Hev. by apply Hle. }
    rewrite Etr. eexists. split; [done|]. simpl. split; [by f_equal|done].
  - destruct Hr as [Hr Hgap].
    destruct (IH last k pe') as (tr & Etr & Hfst & Hsp); [done|done| |].
    { intros t ev' Hl Hev. apply Ht; [done|by right]. }
    rewrite Etr. eexists. split; [done|]. simpl. split; [by f_equal|done].
Qed.
End Exponential.

(** With the doubling multiplier, retransmissions of one pending Interest
    are decided at every arrival, a forwarded one comes at least
    [min(max, initial * 2^k)] after the previous outgoing Interest, where [k]
    counts the retransmissions forwarded before it, and a suppressed one comes
    sooner than that. *)
Theorem retx_exponential_backoff (init max : Z) interest evs :
  0 < init -> init <= max -> max < 2 ^ 23 ->
  StronglySorted Z.le ((fun ev => ev.1.1) <$> evs) ->
  exists tr, retx_run (mkRetxExp init DEFAULT_MULTIPLIER max) evs (newPitEntry interest) = Some tr /\
    tr.*1 = (fun ev => ev.1.1) <$> evs /\ spaced init max None 0 tr.
Proof.
  intros Hi Hm Hf Hs. apply retx_run_ok; try done. split; [|done]. cbn.
  change (init = Z.min max (init * 1)). lia.
Qed.
End Algorithm.

Module FwAlgorithmExamples.
Local Open Scope Z_scope.

Definition retxInterest (nonce : Z) : Interest Z := mkInterest _ _ _ [1; 2] (false, false, 0) nonce 4000 [] None.

Definition retxEvents : list (Z * Z * Interest Z) :=
  [(0, 5, retxInterest 1); (3 * ms, 6, retxInterest 2); (12 * ms, 6, retxInterest 3); (25 * ms, 5, retxInterest 4)].

(** The second attempt comes before 10 ms, the fourth before 20 ms have passed. *)
Lemma retx_exponential_backoff_witness :
  retx_run strategyRetx retxEvents (newPitEntry (retxInterest 1)) =
    Some [(0, NEW); (3 * ms, SUPPRESS); (12 * ms, FORWARD); (25 * ms, SUPPRESS)] /\
  exists tr, retx_run strategyRetx retxEvents (newPitEntry (retxInterest 1)) = Some tr /\
    tr.*1 = (fun ev => ev.1.1) <$> retxEvents /\ spaced 10000 250000 None 0 tr.
Proof.
  split; [vm_compute; reflexivity|].
  apply (retx_exponential_backoff 10000 250000 (retxInterest 1) retxEvents); [lia|lia|lia|].
  repeat constructor; vm_compute; discriminate.
Defined.
End FwAlgorithmExamples.
