(* ===== verification/RttEstimator.v ===== *)
(** * The round trip time estimator

    Models [core/rtt-estimator.hpp] and [rtt-estimator.cpp], the mean-deviation
    estimator behind the retransmission timeouts of the link service and of the
    ASF strategy. Durations are in microseconds; the estimate, its deviation and
    the gain are [double]. *)

From S2P Require Import Prelude Fp.
Local Open Scope Z_scope.

Definition u16 (x : Z) : Z := x mod 2 ^ 16.

Record RttEstimator := mkRttEstimator {
  m_maxMultiplier : Z;  (* uint16_t *)
  m_minRto : Z;         (* double *)
  m_rtt : Z;            (* double *)
  m_gain : Z;           (* double *)
  m_variance : Z;       (* double *)
  m_multiplier : Z;     (* uint16_t *)
  m_nSamples : Z        (* uint32_t *)
}.

(** One second. *)
Definition getInitialRtt : Z := 1000000.

(** The constructor. *)
Definition newRttEstimator (maxMultiplier minRto gain : Z) : RttEstimator :=
  mkRttEstimator maxMultiplier (double_of_int minRto) (double_of_int getInitialRtt) gain 0 1 0.

(** With the default arguments: 16, one millisecond and 0.1. *)
Definition defaultRttEstimator : RttEstimator := newRttEstimator 16 1000 (double_of_dec 1 10).

Definition addMeasurement (measure : Z) (e : RttEstimator) : RttEstimator :=
  let m := double_of_int measure in
  let '(rtt, variance) :=
    if 0 <? m_nSamples e then
      let err := double_sub m (m_rtt e) in
      let gErr := double_mul err (m_gain e) in
      let rtt := double_add (m_rtt e) gErr in
      let difference := double_sub (Z.abs err) (m_variance e) in
      let variance := double_add (m_variance e) (double_mul difference (m_gain e)) in
      (rtt, variance)
    else (m, m) in
  mkRttEstimator (m_maxMultiplier e) (m_minRto e) rtt (m_gain e) variance 1 (u32 (m_nSamples e + 1)).

Definition set_multiplier (k : Z) (e : RttEstimator) : RttEstimator :=
  mkRttEstimator (m_maxMultiplier e) (m_minRto e) (m_rtt e) (m_gain e) (m_variance e) k (m_nSamples e).

Definition incrementMultiplier (e : RttEstimator) : RttEstimator :=
  set_multiplier (Z.min (u16 (m_multiplier e + 1)) (m_maxMultiplier e)) e.

Definition doubleMultiplier (e : RttEstimator) : RttEstimator :=
  set_multiplier (Z.min (u16 (m_multiplier e * 2)) (m_maxMultiplier e)) e.

Definition computeRto (e : RttEstimator) : Z :=
  let rto := Z.max (m_minRto e) (double_add (m_rtt e) (double_mul (double_of_int 4) (m_variance e))) in
  let rto := double_mul rto (double_of_int (m_multiplier e)) in
  double_to_int rto.

(** ** Smoothing *)

Notation units := (2 ^ 1074).
(** The value of an integer. *)
Definition micros (n : Z) : Z := n * 2 ^ 1074.

Lemma units_pos : 0 < 2 ^ 1074.
Proof. by apply Z.pow_pos_nonneg. Qed.

(** The estimate and the deviation follow their target by a fraction of the
    difference. *)
Definition smooth (gain x target : Z) : Z := double_add x (double_mul (double_sub target x) gain).

Lemma repr_nonneg x : representable 53 x -> 0 <= x.
Proof. intros (m & e & He & Hm & ->). apply Z.mul_nonneg_nonneg; [lia|]. apply Z.pow_nonneg. lia. Qed.

(** The step is at most the difference. *)
Lemma step_bound gain e : 0 <= gain -> 4 * gain <= units -> 0 <= e ->
  0 <= double_mul (fround 53 e 1) gain <= e.
Proof.
  intros Hg0 Hg He. rewrite fmul_def. pose proof units_pos.
  assert (0 <= fround 53 e 1) by (apply fround_nonneg; lia).
  assert (fround 53 e 1 <= 2 * e) by (apply fround_half; lia).
  set (u := units) in *. clearbody u. split; [apply fround_nonneg; nia|]. apply fround_half; nia.
Qed.

Lemma smooth_between gain x t : 0 <= gain -> 4 * gain <= units -> representable 53 x -> representable 53 t ->
  Z.min x t <= smooth gain x t <= Z.max x t /\ representable 53 (smooth gain x t).
Proof.
  intros Hg0 Hg Hx Ht. pose proof (repr_nonneg x Hx). pose proof (repr_nonneg t Ht).
  unfold smooth. rewrite fadd_def, fsub_def.
  assert (forall d, 0 <= x + d -> Z.min x t <= x + d <= Z.max x t ->
    Z.min x t <= fround 53 (x + d) 1 <= Z.max x t /\ representable 53 (fround 53 (x + d) 1)) as Hgoal.
  { intros d Hd [Hlo Hhi]. split; [split|].
    - apply fround_ge_repr; [lia|lia| |lia]. by destruct (Z.min_spec x t) as [[_ ->]|[_ ->]].
    - apply fround_le_repr; [lia|lia|lia| |lia]. by destruct (Z.max_spec x t) as [[_ ->]|[_ ->]].
    - apply repr_fround; lia. }
  destruct (Z.le_ge_cases x t) as [Hle|Hge].
  - pose proof (step_bound gain (t - x) Hg0 Hg ltac:(lia)). apply Hgoal; lia.
  - pose proof (step_bound gain (x - t) Hg0 Hg ltac:(lia)) as Hs.
    replace (t - x) with (- (x - t)) by lia. rewrite fround_opp by lia. rewrite fmul_def in *. pose proof units_pos.
    rewrite Z.mul_opp_l, fround_opp by lia. apply Hgoal; lia.
Qed.

(** ** The invariant *)

(** The parameters an estimator is made with: a gain between 0 and 1/4, a minimal
    timeout below [2^32] microseconds and a multiplier that can be doubled in 16
    bits. *)
Record params_ok (minRto : Z) (e : RttEstimator) : Prop := {
  params_gain : 0 <= m_gain e /\ 4 * m_gain e <= units;
  params_max : 1 <= m_maxMultiplier e < 2 ^ 15;
  params_minRto : m_minRto e = micros minRto /\ 0 <= minRto < 2 ^ 32
}.

(** The estimate is between the bounds of the samples, the deviation at most the
    upper one. *)
Record rtt_ok (minRto lo hi : Z) (e : RttEstimator) : Prop := {
  rtt_params : params_ok minRto e;
  rtt_range : micros lo <= m_rtt e <= micros hi /\ representable 53 (m_rtt e);
  rtt_variance : 0 <= m_variance e <= micros hi /\ representable 53 (m_variance e);
  rtt_multiplier : 1 <= m_multiplier e <= m_maxMultiplier e
}.

Lemma micros_repr n : 0 <= n < 2 ^ 53 -> representable 53 (micros n).
Proof. intros Hn. apply repr_int; lia. Qed.

Lemma double_micros n : 0 <= n < 2 ^ 53 -> double_of_int n = micros n.
Proof. intros Hn. by apply of_int_exact. Qed.

Lemma micros_mono a b : a <= b -> micros a <= micros b.
Proof. intros Hab. apply Z.mul_le_mono_nonneg_r; [apply Z.pow_nonneg; lia|done]. Qed.

Lemma add_rtt_ok minRto lo hi m e : 0 <= lo <= hi -> hi < 2 ^ 32 -> lo <= m <= hi ->
  (if 0 <? m_nSamples e then rtt_ok minRto lo hi e else params_ok minRto e) ->
  rtt_ok minRto lo hi (addMeasurement m e).
Proof.
  intros Hlo Hhi Hm He. unfold addMeasurement. rewrite double_micros by lia.
  pose proof (micros_repr m ltac:(lia)) as Hmr. pose proof (micros_mono lo m ltac:(lia)). pose proof (micros_mono m hi ltac:(lia)).
  pose proof (micros_mono 0 lo ltac:(lia)) as Hz. change (micros 0) with 0 in Hz.
  destruct (Z.ltb_spec 0 (m_nSamples e)) as [Hn|Hn].
  - destruct He as [[[Hg0 Hg] Hmax HminR] [Hr Hrr] [Hv Hvr] _]. fold (smooth (m_gain e) (m_rtt e) (micros m)).
    set (err := double_sub (micros m) (m_rtt e)). fold (smooth (m_gain e) (m_variance e) (Z.abs err)).
    destruct (smooth_between (m_gain e) (m_rtt e) (micros m)) as [Hs Hsr]; [done..|].
    assert (representable 53 (Z.abs err) /\ Z.abs err <= micros hi) as [Her Hel].
    { assert (Z.abs err = fround 53 (Z.abs (micros m - m_rtt e)) 1) as ->.
      { unfold err. rewrite fsub_def. destruct (Z.le_ge_cases (m_rtt e) (micros m)).
        - rewrite (Z.abs_eq (micros m - m_rtt e)) by lia. apply Z.abs_eq, fround_nonneg; lia.
        - rewrite (Z.abs_neq (micros m - m_rtt e)) by lia. rewrite <-(Z.opp_involutive (micros m - m_rtt e)) at 1.
          rewrite fround_opp by lia. rewrite Z.abs_opp. apply Z.abs_eq, fround_nonneg; lia. }
      split; [apply repr_fround; lia|]. apply fround_le_repr; [lia|lia|lia|apply micros_repr; lia|lia]. }
    destruct (smooth_between (m_gain e) (m_variance e) (Z.abs err)) as [Hw Hwr]; [done..|].
    constructor; simpl; [by constructor|split; [lia|done]|split; [lia|done]|lia].
  - destruct He as [[Hg0 Hg] Hmax HminR]. constructor; simpl; [by constructor|split; [lia|done]|split; [lia|done]|lia].
Qed.

Lemma multiplier_rtt_ok minRto lo hi e : rtt_ok minRto lo hi e ->
  rtt_ok minRto lo hi (incrementMultiplier e) /\ rtt_ok minRto lo hi (doubleMultiplier e).
Proof.
  intros [[Hg Hmax HminR] Hr Hv Hk]. split; (constructor; simpl; [by constructor|done|done|]);
    unfold u16; rewrite Z.mod_small by lia; lia.
Qed.

(** The timeout of a state: the bounds of the samples give the bounds of the
    timeout. No rounding is lost on the bounds, which are whole microseconds. *)
Lemma computeRto_bounds minRto lo hi e : 0 <= lo <= hi -> hi < 2 ^ 32 -> rtt_ok minRto lo hi e ->
  m_multiplier e * Z.max minRto lo <= computeRto e <= m_multiplier e * Z.max minRto (5 * hi).
Proof.
  intros Hlo Hhi [[Hg Hmax [HminR Hmin]] [Hr Hrr] [Hv Hvr] Hk]. unfold computeRto. rewrite to_int_def, !fmul_def, fadd_def, HminR.
  rewrite !double_micros by lia. pose proof units_pos as Hu.
  assert (0 <= micros lo) as Hlo0 by (pose proof (micros_mono 0 lo ltac:(lia)) as Hz; change (micros 0) with 0 in Hz; lia).
  assert (forall n, micros n = n * units) as Hmic by done.
  pose proof (micros_repr lo ltac:(lia)). pose proof (micros_repr (4 * hi) ltac:(lia)). pose proof (micros_repr (5 * hi) ltac:(lia)).
  assert (forall x, 0 <= x < 2 ^ 36 -> 0 <= m_multiplier e * x < 2 ^ 53) as Hprod.
  { intros x Hx. split; [nia|]. apply Z.le_lt_trans with (2 ^ 15 * 2 ^ 36); [apply Z.mul_le_mono_nonneg; lia|by vm_compute]. }
  pose proof (micros_repr _ (Hprod (Z.max minRto lo) ltac:(lia))).
  pose proof (micros_repr _ (Hprod (Z.max minRto (5 * hi)) ltac:(lia))). clear Hprod.
  generalize dependent micros. intros mic. intros. set (u := units) in *. clearbody u.
  set (v := fround 53 (mic 4 * m_variance e) u).
  assert (0 <= v <= mic (4 * hi)) as Hv4.
  { unfold v. rewrite ?Hmic in *. split; [apply fround_nonneg; nia|apply fround_le_repr; try done; nia]. }
  set (s := fround 53 (m_rtt e + v) 1).
  assert (mic lo <= s <= mic (5 * hi)) as Hs.
  { unfold s. split; [apply fround_ge_repr|apply fround_le_repr]; try done; rewrite ?Hmic in *; lia. }
  set (r := Z.max (mic minRto) s).
  assert (mic (Z.max minRto lo) <= r <= mic (Z.max minRto (5 * hi))) as Hmax'.
  { unfold r. rewrite ?Hmic in *. destruct (Z.max_spec minRto lo) as [[? ->]|[? ->]], (Z.max_spec minRto (5 * hi)) as [[? ->]|[? ->]]; nia. }
  set (k := m_multiplier e) in *.
  assert (mic (k * Z.max minRto lo) <= fround 53 (r * mic k) u <= mic (k * Z.max minRto (5 * hi))) as [Hfl Hfu].
  { assert (0 <= mic k) by (rewrite Hmic; nia). assert (0 <= r) by (unfold r; lia).
    assert (forall x, mic (k * x) * u = mic x * mic k) as Hk' by (intros x; rewrite !Hmic; ring).
    split; [apply fround_ge_repr|apply fround_le_repr]; try done; try (rewrite Hk'; apply Z.mul_le_mono_nonneg_r; lia). nia. }
  rewrite (Hmic (k * Z.max minRto lo)) in Hfl. rewrite (Hmic (k * Z.max minRto (5 * hi))) in Hfu. assert (0 <= k * Z.max minRto lo * u) by (repeat apply Z.mul_nonneg_nonneg; lia).
  rewrite Z.quot_div_nonneg by lia. split; [apply Z.div_le_lower_bound|apply Z.div_le_upper_bound]; try lia; rewrite Z.mul_comm; done.
Qed.

(** ** Runs *)

Inductive RttEvent := Measure (m : Z) | Increment | Double.

Definition rtt_step (e : RttEstimator) (ev : RttEvent) : RttEstimator :=
  match ev with Measure m => addMeasurement m e | Increment => incrementMultiplier e | Double => doubleMultiplier e end.

Definition rtt_run (e : RttEstimator) (evs : list RttEvent) : RttEstimator := foldl rtt_step e evs.

Definition event_in (lo hi : Z) (ev : RttEvent) : Prop := match ev with Measure m => lo <= m <= hi | _ => True end.

Lemma params_multiplier minRto k e : params_ok minRto e -> params_ok minRto (set_multiplier k e).
Proof. intros [Hg Hmax Hmin]. by constructor. Qed.

Lemma rtt_run_ok minRto lo hi evs : 0 <= lo <= hi -> hi < 2 ^ 32 -> Forall (event_in lo hi) evs ->
  forall e, rtt_ok minRto lo hi e -> rtt_ok minRto lo hi (rtt_run e evs).
Proof.
  intros Hlo Hhi Hevs. unfold rtt_run. induction Hevs as [|ev evs Hev Hevs IH]; intros e He; [done|]. simpl. apply IH.
  destruct ev as [m| |]; simpl; [|by apply multiplier_rtt_ok..].
  apply add_rtt_ok; [done..|]. destruct (0 <? m_nSamples e); [done|]. apply He.
Qed.

(** C34: after at least one measurement, whatever measurements and back-offs
    follow, the timeout is a multiple of at most [m_maxMultiplier] of a value
    between the larger of the minimal timeout and the smallest measurement, and
    the larger of the minimal timeout and five times the largest: the rounding of
    the binary64 operations never takes it out of these bounds. *)
Theorem rto_bounded minRto lo hi e m evs :
  0 <= lo <= hi -> hi < 2 ^ 32 -> params_ok minRto e -> m_nSamples e = 0 -> Forall (event_in lo hi) (Measure m :: evs) ->
  let e := rtt_run e (Measure m :: evs) in
  1 <= m_multiplier e <= m_maxMultiplier e /\
  m_multiplier e * Z.max minRto lo <= computeRto e <= m_multiplier e * Z.max minRto (5 * hi).
Proof.
  intros Hlo Hhi He Hn [Hm Hevs]%Forall_cons. cbv zeta. change (rtt_run e (Measure m :: evs)) with (rtt_run (addMeasurement m e) evs).
  assert (rtt_ok minRto lo hi (rtt_run (addMeasurement m e) evs)) as Hok.
  { apply rtt_run_ok; [done..|]. apply add_rtt_ok; [done..|]. by rewrite Hn. }
  split; [apply Hok|by apply computeRto_bounds].
Qed.

Lemma default_params : params_ok 1000 defaultRttEstimator.
Proof.
  constructor; simpl; [|lia|split; [apply double_micros|]; lia]. rewrite of_dec_def.
  assert (units = 4 * 2 ^ 1072) as Hu by reflexivity.
  assert (representable 53 (2 ^ 1072)) as Hr by (rewrite <-(Z.mul_1_l (2 ^ 1072)); apply repr_int; lia).
  assert (0 < 2 ^ 1072) by (by apply Z.pow_pos_nonneg). rewrite Hu. set (v := 2 ^ 1072) in *. clearbody v. split.
  - apply fround_nonneg; lia.
  - assert (fround 53 (1 * (4 * v)) 10 <= v); [apply fround_le_repr; try done; lia|lia].
Qed.

Module RttExamples.
Lemma rto_bounded_witness :
  let e := rtt_run defaultRttEstimator [Measure 2500; Measure 1800; Double] in
  1 <= m_multiplier e <= m_maxMultiplier e /\
  m_multiplier e * 1800 <= computeRto e <= m_multiplier e * 12500.
Proof.
  apply (rto_bounded 1000 1800 2500 defaultRttEstimator 2500 [Measure 1800; Double]).
  - lia.
  - lia.
  - apply default_params.
  - reflexivity.
  - repeat constructor; simpl; lia.
Defined.
End RttExamples.
