(* ===== verification/AsfMeasurements.v ===== *)
(** * What the ASF strategy measures

    Models [daemon/fw/asf-measurements.hpp/.cpp]: the round trip statistics of a
    face, what is kept of each face in a namespace with its two timers, and the
    namespaces, which live as items of the entries of the measurements table.

    An event of the scheduler that a [FaceInfo] holds is part of its state: the
    object cancels its events when it is destroyed, so that an event is pending
    exactly as long as the object holds it. Times are in nanoseconds, round trip
    times in microseconds as [double]. *)

From S2P Require Import Prelude Fp Ndn Hashtable NameTree Fib Pit Measurements StrategyRegistry StrategyChoice StrategyItems FwAlgorithm RttEstimator.
Local Open Scope Z_scope.

(** ** Round trip statistics *)

Record RttStats := mkRttStats { st_srtt : Z; st_rtt : Z; st_rttEstimator : RttEstimator }.

Definition RTT_TIMEOUT : Z := - double_of_int 1.
Definition RTT_NO_MEASUREMENT : Z := 0.
Definition ALPHA : Z := double_of_dec 125 1000.

Definition newRttStats : RttStats := mkRttStats RTT_NO_MEASUREMENT RTT_NO_MEASUREMENT defaultRttEstimator.

Definition computeSrtt (previousSrtt currentRtt : Z) : Z :=
  if previousSrtt =? RTT_NO_MEASUREMENT then currentRtt
  else double_add (double_mul ALPHA currentRtt) (double_mul (double_sub (double_of_int 1) ALPHA) previousSrtt).

Definition addRttMeasurement (durationRtt : Z) (s : RttStats) : RttStats :=
  let rtt := double_of_int durationRtt in
  mkRttStats (computeSrtt (st_srtt s) rtt) rtt (addMeasurement durationRtt (st_rttEstimator s)).

Definition stats_recordTimeout (s : RttStats) : RttStats := mkRttStats (st_srtt s) RTT_TIMEOUT (st_rttEstimator s).

(** 300 seconds. *)
Definition MEASUREMENTS_LIFETIME : Z := 300000 * ms.

(** ** Faces of a namespace *)

(** The timeout event runs [onTimeout] for a name and a face at a time; the
    expiration event runs [expireFaceInfo] for a face in a namespace, here the
    name of the measurements entry that the namespace is placed on. *)
Record AsfFaceInfo {C : Type} := mkFaceInfo {
  rttStats : RttStats;
  lastInterestName : list C;
  measurementExpiration : option (Z * (list C * Z));
  timeoutEvent : option (Z * (list C * Z));
  isTimeoutScheduled : bool;
  nSilentTimeouts : Z
}.
Arguments AsfFaceInfo : clear implicits.
Arguments mkFaceInfo {_}.

Record NamespaceInfo {C : Type} := mkNamespace {
  m_fit : gmap Z (AsfFaceInfo C);
  isProbingDue : bool;
  isFirstProbeScheduled : bool
}.
Arguments NamespaceInfo : clear implicits.
Arguments mkNamespace {_}.

Section Faces.
Context {C : Type} `{Packets C}.
Notation Name := (list C).
Notation FaceInfo := (AsfFaceInfo C).
Notation NamespaceInfo := (NamespaceInfo C).
Implicit Types (fi : FaceInfo) (ns : NamespaceInfo) (name : Name) (faceId : Z) (pe : PitEntry C).

Definition newFaceInfo : FaceInfo := mkFaceInfo newRttStats [] None None false 0.

Definition getRtt fi : Z := st_rtt (rttStats fi).
Definition getSrtt fi : Z := st_srtt (rttStats fi).
Definition isTimeout fi : bool := getRtt fi =? RTT_TIMEOUT.
Definition hasSrttMeasurement fi : bool := negb (getSrtt fi =? RTT_NO_MEASUREMENT).
Definition face_computeRto fi : Z := computeRto (st_rttEstimator (rttStats fi)).

Definition set_stats (s : RttStats) fi : FaceInfo :=
  mkFaceInfo s (lastInterestName fi) (measurementExpiration fi) (timeoutEvent fi) (isTimeoutScheduled fi) (nSilentTimeouts fi).
Definition set_expiration (x : option (Z * (Name * Z))) fi : FaceInfo :=
  mkFaceInfo (rttStats fi) (lastInterestName fi) x (timeoutEvent fi) (isTimeoutScheduled fi) (nSilentTimeouts fi).
Definition setNSilentTimeouts (k : Z) fi : FaceInfo :=
  mkFaceInfo (rttStats fi) (lastInterestName fi) (measurementExpiration fi) (timeoutEvent fi) (isTimeoutScheduled fi) k.
(** The scheduler has run the timeout event. *)
Definition timeout_fired fi : FaceInfo :=
  mkFaceInfo (rttStats fi) (lastInterestName fi) (measurementExpiration fi) None (isTimeoutScheduled fi) (nSilentTimeouts fi).

(** [None] is the exception [FaceInfo::Error]. *)
Definition setTimeoutEvent (id : Z * (Name * Z)) (interestName : Name) fi : option FaceInfo :=
  if isTimeoutScheduled fi then None
  else Some (mkFaceInfo (rttStats fi) interestName (measurementExpiration fi) (Some id) true (nSilentTimeouts fi)).

Definition cancelTimeoutEvent_any fi : FaceInfo :=
  mkFaceInfo (rttStats fi) (lastInterestName fi) (measurementExpiration fi) None false (nSilentTimeouts fi).

Definition doesNameMatchLastInterest name fi : bool := isPrefixOf (lastInterestName fi) name.

Definition cancelTimeoutEvent (prefix : Name) fi : FaceInfo :=
  if isTimeoutScheduled fi && doesNameMatchLastInterest prefix fi then cancelTimeoutEvent_any fi else fi.

(** The duration in nanoseconds is cast to microseconds, towards zero. *)
Definition recordRtt (now : Z) pe (inFace : Z) fi : FaceInfo :=
  match getOutRecord inFace pe with
  | None => fi
  | Some outRecord => set_stats (addRttMeasurement (Z.quot (now - out_lastRenewed outRecord) 1000) (rttStats fi)) fi
  end.

Definition face_recordTimeout (interestName : Name) fi : FaceInfo :=
  cancelTimeoutEvent interestName (set_stats (stats_recordTimeout (rttStats fi)) fi).

(** ** Namespaces *)

Definition NamespaceInfo_typeId : Z := 1030.

Definition newNamespaceInfo : NamespaceInfo := mkNamespace ∅ false false.

Definition set_fit (t : gmap Z FaceInfo) ns : NamespaceInfo := mkNamespace t (isProbingDue ns) (isFirstProbeScheduled ns).
Definition setIsProbingDue (b : bool) ns : NamespaceInfo := mkNamespace (m_fit ns) b (isFirstProbeScheduled ns).
Definition setHasFirstProbeBeenScheduled (b : bool) ns : NamespaceInfo := mkNamespace (m_fit ns) (isProbingDue ns) b.

(** [getFaceInfo], [get] and [find]. *)
Definition ns_getFaceInfo faceId ns : option FaceInfo := m_fit ns !! faceId.

(** [insert]: an element of the key stays. *)
Definition ns_insert faceId ns : NamespaceInfo :=
  match m_fit ns !! faceId with Some _ => ns | None => set_fit (<[faceId := newFaceInfo]> (m_fit ns)) ns end.

Definition expireFaceInfo faceId ns : NamespaceInfo := set_fit (delete faceId (m_fit ns)) ns.

(** [self] is the namespace that the method is called on. *)
Definition extendFaceInfoLifetime (now : Z) (self : Name) faceId fi : FaceInfo :=
  set_expiration (Some (now + MEASUREMENTS_LIFETIME, (self, faceId))) fi.

Definition ns_getOrCreateFaceInfo (now : Z) (self : Name) faceId ns : NamespaceInfo :=
  match m_fit ns !! faceId with
  | None => set_fit (<[faceId := extendFaceInfoLifetime now self faceId newFaceInfo]> (m_fit ns)) ns
  | Some _ => ns
  end.

End Faces.

(** ** Smoothing *)

Lemma eighth : units = 8 * 2 ^ 1071.
Proof. reflexivity. Qed.

Lemma ALPHA_value : ALPHA = 2 ^ 1071 /\ double_sub (double_of_int 1) ALPHA = 7 * 2 ^ 1071.
Proof.
  assert (representable 53 (1 * 2 ^ 1071)) as H1 by (apply repr_int; lia).
  assert (representable 53 (7 * 2 ^ 1071)) as H7 by (apply repr_int; lia).
  assert (ALPHA = 2 ^ 1071) as Ha.
  { unfold ALPHA. rewrite of_dec_def, eighth. set (v := 2 ^ 1071) in *. clearbody v.
    replace (125 * (8 * v)) with (1 * v * 1000) by lia. rewrite fround_repr by (done || lia). lia. }
  split; [done|]. rewrite Ha, double_micros by lia. unfold micros. rewrite fsub_def, eighth. set (v := 2 ^ 1071) in *. clearbody v.
  replace (1 * (8 * v) - v) with (7 * v * 1) by lia. by apply fround_repr.
Qed.

(** A value that is measured or smoothed from values between [lo] and [hi]. *)
Definition rtt_between (lo hi x : Z) : Prop := micros lo <= x <= micros hi /\ representable 53 x.

Lemma computeSrtt_between lo hi srtt rtt : 0 <= lo <= hi -> hi < 2 ^ 32 ->
  srtt = RTT_NO_MEASUREMENT \/ rtt_between lo hi srtt -> rtt_between lo hi rtt -> rtt_between lo hi (computeSrtt srtt rtt).
Proof.
  intros Hlo Hhi Hs [Hr Hrr]. unfold computeSrtt. destruct (Z.eqb_spec srtt RTT_NO_MEASUREMENT) as [->|Hne]; [done|].
  destruct Hs as [->|[Hs Hsr]]; [done|]. destruct ALPHA_value as [-> ->]. rewrite fadd_def, !fmul_def.
  pose proof (repr_nonneg _ Hrr) as Hr0. pose proof (repr_nonneg _ Hsr) as Hs0.
  assert (forall k, 0 <= k < 2 ^ 53 -> representable 53 (k * 2 ^ 1071)) as Hrep by (intros; apply repr_int; lia).
  assert (0 < 2 ^ 1071) as Hv by (by apply Z.pow_pos_nonneg).
  unfold rtt_between, micros in *. rewrite eighth in *. set (v := 2 ^ 1071) in *. clearbody v.
  assert (lo * v <= fround 53 (v * rtt) (8 * v) <= hi * v) as Ha.
  { split; [apply fround_ge_repr|apply fround_le_repr]; try apply Hrep; try lia; nia. }
  assert (7 * lo * v <= fround 53 (7 * v * srtt) (8 * v) <= 7 * hi * v) as Hb.
  { split; [apply fround_ge_repr|apply fround_le_repr]; try apply Hrep; try lia; nia. }
  set (a := fround 53 (v * rtt) (8 * v)) in *. set (b := fround 53 (7 * v * srtt) (8 * v)) in *. clearbody a b.
  replace (lo * (8 * v)) with (8 * lo * v) by lia. replace (hi * (8 * v)) with (8 * hi * v) by lia.
  split; [|apply repr_fround; nia].
  split; [apply fround_ge_repr|apply fround_le_repr]; try apply Hrep; try lia; nia.
Qed.

(** The statistics of round trips between [lo] and [hi] microseconds: the last
    value is one of them, none, or a timeout; the smoothed value is between them,
    or none; and the estimator has its own bounds. *)
Record stats_ok (lo hi : Z) (s : RttStats) : Prop := {
  stats_rtt : st_rtt s = RTT_TIMEOUT \/ st_rtt s = RTT_NO_MEASUREMENT \/ rtt_between lo hi (st_rtt s);
  stats_srtt : st_srtt s = RTT_NO_MEASUREMENT \/ rtt_between lo hi (st_srtt s);
  stats_estimator : if 0 <? m_nSamples (st_rttEstimator s) then rtt_ok 1000 lo hi (st_rttEstimator s) else params_ok 1000 (st_rttEstimator s)
}.

Lemma newRttStats_ok lo hi : stats_ok lo hi newRttStats.
Proof. constructor; [by right; left|by left|apply default_params]. Qed.

Lemma addRttMeasurement_ok lo hi m s : 0 <= lo <= hi -> hi < 2 ^ 32 -> lo <= m <= hi -> stats_ok lo hi s -> stats_ok lo hi (addRttMeasurement m s).
Proof.
  intros Hlo Hhi Hm [_ Hs He].
  assert (rtt_between lo hi (double_of_int m)) as Hd.
  { rewrite double_micros by lia. split; [split; apply micros_mono; lia|apply micros_repr; lia]. }
  constructor; simpl; [by right; right|right; by apply computeSrtt_between|].
  pose proof (add_rtt_ok 1000 lo hi m _ Hlo Hhi Hm He) as Ha. destruct (0 <? m_nSamples (addMeasurement _ _)); [exact Ha|apply Ha].
Qed.

Lemma recordTimeout_ok lo hi s : stats_ok lo hi s -> stats_ok lo hi (stats_recordTimeout s).
Proof. intros [_ Hs He]. constructor; simpl; [by left|done|done]. Qed.

(** ** The namespaces in the measurements table *)

Section AsfMeasurements.
Context {C : Type} `{Packets C}.
Notation Name := (list C).
Notation FaceInfo := (AsfFaceInfo C).
Notation NamespaceInfo := (NamespaceInfo C).
Notation MeasurementsEntry := (MeasurementsEntry C NamespaceInfo).
Notation Entry := (Entry C (FibEntry C) (PitEntry C) MeasurementsEntry (StrategyChoiceEntry C)).
Context {T : Type} `{!NodeTable C Entry newEntry T}.
Implicit Types (st : Measurements T) (n name prefix : Name) (me : MeasurementsEntry) (ns : NamespaceInfo) (now self faceId : Z).

(** Through a reference to the namespace of the entry of [n], and to the
    information on a face of it. *)
Definition ns_read n st : option NamespaceInfo := item_read NamespaceInfo_typeId n st.
Definition ns_write n (g : NamespaceInfo -> NamespaceInfo) st : Measurements T := item_write NamespaceInfo_typeId n g st.
Definition face_read n faceId st : option FaceInfo := ns ← ns_read n st; m_fit ns !! faceId.
Definition face_write n faceId (g : FaceInfo -> FaceInfo) st : Measurements T :=
  ns_write n (fun ns => set_fit (alter g faceId (m_fit ns)) ns) st.

(** [AsfMeasurements::extendLifetime] and [insertStrategyInfo]. *)
Definition ns_refresh now n st : option (Measurements T) := refresh NamespaceInfo_typeId newNamespaceInfo now MEASUREMENTS_LIFETIME n st.

(** [AnyEntry] is the default predicate. *)
Definition getNamespaceInfo self now prefix st : option (Measurements T * option Name) :=
  me ← accessor_findLongestPrefixMatch self prefix (fun _ => true) st;
  match me with
  | None => Some (st, None)
  | Some n => st ← ns_refresh now n st; Some (st, Some n)
  end.

(** The loop over the prefixes of the name of the Interest, which has at most
    [fuel] rounds left. *)
Fixpoint prefix_loop self now name (fuel prefixLen : nat) (me : option Name) st : option (Measurements T * option Name) :=
  match fuel with
  | O => Some (st, me)
  | Datatypes.S fuel =>
      match me with
      | Some _ => Some (st, me)
      | None =>
          if (prefixLen <=? length name)%nat then
            '(st, me) ← accessor_get self now (getPrefix prefixLen name) st;
            prefix_loop self now name fuel (prefixLen + 1) me st
          else Some (st, me)
      end
  end.

(** [None] is the failed assertion that an entry was found. *)
Definition getOrCreateNamespaceInfo self now (fibEntry : FibEntry C) name st : option (Measurements T * Name) :=
  '(st, me) ← accessor_get_fib self now (fib_prefix fibEntry) st;
  '(st, me) ← prefix_loop self now name (length name) (length (fib_prefix fibEntry) + 1) me st;
  n ← me;
  st ← ns_refresh now n st;
  Some (st, n).

Definition getFaceInfo self now (fibEntry : FibEntry C) name faceId st : option (Measurements T * option FaceInfo) :=
  '(st, n) ← getOrCreateNamespaceInfo self now fibEntry name st;
  ns ← ns_read n st;
  Some (st, ns_getFaceInfo faceId ns).

(** The result is the namespace that the information is in. *)
Definition getOrCreateFaceInfo self now (fibEntry : FibEntry C) name faceId st : option (Measurements T * Name) :=
  '(st, n) ← getOrCreateNamespaceInfo self now fibEntry name st;
  Some (ns_write n (ns_getOrCreateFaceInfo now n faceId) st, n).

(** ** The namespaces as a map *)

Notation tree st := (nt_entries (ms_tree st)).
Notation choices st := (sc_view (tree st)).

(** The namespace of an entry; a new one when it has none yet. *)
Notation namespace := (item NamespaceInfo_typeId newNamespaceInfo).
Notation frame := (frame NamespaceInfo_typeId).
Notation opened := (opened NamespaceInfo_typeId).

(** The prefixes of the name from [prefixLen] components on. *)
Definition longer (prefixLen fuel : nat) name : list Name := (fun k => take getMaxDepth (take k name)) <$> seq prefixLen fuel.

(** Where the namespace of an Interest can be: at the prefix of the FIB entry, or
    at the longer prefixes of the name, shortest first. *)
Definition candidates prefix name : list Name :=
  prefix :: longer (length prefix + 1) (length name - length prefix) name.

Definition namespaceOf self (v : gmap Name (StrategyInstance C)) prefix name : option Name :=
  find_if (inCharge self v) (candidates prefix name).

(** Enough rounds: those for which the condition of the loop holds. *)
Lemma prefix_loop_ok self now name fuel : forall prefixLen st, env_ok st -> (length name < prefixLen + fuel)%nat ->
  exists st', prefix_loop self now name fuel prefixLen None st =
      Some (st', find_if (inCharge self (choices st)) (longer prefixLen (length name + 1 - prefixLen) name)) /\
    frame st st' /\ (forall k, namespace st' k = namespace st k) /\
    forall n, find_if (inCharge self (choices st)) (longer prefixLen (length name + 1 - prefixLen) name) = Some n -> is_Some (ms_map st' !! n).
Proof.
  induction fuel as [|fuel IH]; intros prefixLen st Henv Hf.
  { replace (length name + 1 - prefixLen)%nat with 0%nat by lia. exists st. split_and!; [done|apply frame_refl, Henv|done|done]. }
  cbn [prefix_loop]. destruct (Nat.leb_spec prefixLen (length name)) as [Hle|Hgt].
  - destruct (accessor_get_ok (typeId:=NamespaceInfo_typeId) (newItem:=newNamespaceInfo) self now (getPrefix prefixLen name) st Henv) as (st1 & -> & Hf1 & Hn1 & Hex1). cbn [mbind option_bind].
    replace (length name + 1 - prefixLen)%nat with (Datatypes.S (length name - prefixLen)) by lia.
    cbn [longer seq fmap list_fmap find_if]. unfold getPrefix in *.
    destruct (inCharge self (choices st) (take getMaxDepth (take prefixLen name))) eqn:Ec.
    + exists st1. split_and!; [by destruct fuel|done|done|]. intros n [= <-]. done.
    + destruct (IH (prefixLen + 1)%nat st1) as (st2 & Hl & Hf2 & Hn2 & Hex2); [by eapply frame_env|lia|].
      rewrite (frame_choices _ _ Hf1) in Hl, Hex2. unfold longer in *.
      replace (length name + 1 - (prefixLen + 1))%nat with (length name - prefixLen)%nat in * by lia.
      rewrite Nat.add_1_r in Hl, Hex2. rewrite Nat.add_1_r, Hl. exists st2. split_and!; [done|by eapply frame_trans| |done].
      intros k. by rewrite Hn2.
  - replace (length name + 1 - prefixLen)%nat with 0%nat by lia. exists st. split_and!; [done|apply frame_refl, Henv|done|done].
Qed.

Lemma getOrCreateNamespaceInfo_ok self now fibEntry name st : env_ok st -> fib_known (fib_prefix fibEntry) st ->
  match namespaceOf self (choices st) (fib_prefix fibEntry) name with
  | None => getOrCreateNamespaceInfo self now fibEntry name st = None
  | Some n => exists st', getOrCreateNamespaceInfo self now fibEntry name st = Some (st', n) /\ frame st st' /\
      (forall k, namespace st' k = namespace st k) /\ opened n (now + MEASUREMENTS_LIFETIME) st'
  end.
Proof.
  intros Henv Hk. set (prefix := fib_prefix fibEntry) in *. unfold getOrCreateNamespaceInfo, namespaceOf, candidates. fold prefix.
  destruct (accessor_get_fib_ok (typeId:=NamespaceInfo_typeId) (newItem:=newNamespaceInfo) self now prefix st Henv Hk) as (st1 & -> & Hf1 & Hn1 & Hex1). cbn [mbind option_bind find_if].
  pose proof (frame_env _ _ Henv Hf1) as Henv1.
  assert (forall n st2, env_ok st2 -> frame st st2 -> (forall k, namespace st2 k = namespace st k) -> is_Some (ms_map st2 !! n) ->
    exists st', (st' ← ns_refresh now n st2; Some (st', n)) = Some (st', n) /\ frame st st' /\
      (forall k, namespace st' k = namespace st k) /\ opened n (now + MEASUREMENTS_LIFETIME) st') as Hend.
  { intros n st2 Henv2 Hf2 Hn2 Hex2. unfold ns_refresh. destruct (refresh_ok (typeId:=NamespaceInfo_typeId) (newItem:=newNamespaceInfo) now MEASUREMENTS_LIFETIME n st2 Henv2 Hex2) as (st3 & -> & Hf3 & Hn3 & Ho).
    exists st3. split_and!; [done|by eapply frame_trans|intros k; by rewrite Hn3|done]. }
  destruct (inCharge self (choices st) prefix) eqn:Ec.
  - assert (prefix_loop self now name (length name) (length prefix + 1) (Some prefix) st1 = Some (st1, Some prefix)) as -> by (by destruct (length name)).
    cbn [mbind option_bind]. by apply Hend.
  - destruct (prefix_loop_ok self now name (length name) (length prefix + 1) st1 Henv1) as (st2 & Hl & Hf2 & Hn2 & Hex2); [lia|].
    rewrite (frame_choices _ _ Hf1) in Hl, Hex2.
    replace (length name + 1 - (length prefix + 1))%nat with (length name - length prefix)%nat in Hl, Hex2 by lia.
    rewrite Hl. cbn [mbind option_bind]. destruct (find_if _ (longer _ _ _)) as [n|]; [|done]. cbn [mbind option_bind].
    apply Hend; [by eapply frame_env|by eapply frame_trans|intros k; by rewrite Hn2|by apply Hex2].
Qed.

(** The strategy in charge of a name under the prefix finds a namespace. *)
Lemma namespaceOf_found self v prefix name : prefix `prefix_of` name -> inCharge self v name = true ->
  exists n, namespaceOf self v prefix name = Some n.
Proof.
  intros Hp Hc. destruct (namespaceOf self v prefix name) as [n|] eqn:En; [by exists n|]. exfalso.
  unfold namespaceOf in En. rewrite find_if_None in En.
  destruct (decide (prefix = name)) as [->|Hne].
  - specialize (En name). rewrite Hc in En. by discriminate En; left.
  - assert (length prefix < length name)%nat as Hlt.
    { destruct Hp as [k ->]. destruct k; [by rewrite app_nil_r in Hne|]. rewrite length_app. simpl. lia. }
    specialize (En (take getMaxDepth name)). unfold inCharge in *. rewrite charge_take, Hc in En.
    discriminate En. right. unfold longer. apply list_elem_of_fmap. exists (length name). rewrite firstn_all.
    split; [done|]. apply elem_of_seq. lia.
Qed.

Lemma getNamespaceInfo_ok self now name st : env_ok st ->
  match measured name st ≫= (fun n => if inCharge self (choices st) n then Some n else None) with
  | None => getNamespaceInfo self now name st = Some (st, None)
  | Some n => exists st', getNamespaceInfo self now name st = Some (st', Some n) /\ frame st st' /\
      (forall k, namespace st' k = namespace st k) /\ opened n (now + MEASUREMENTS_LIFETIME) st'
  end.
Proof.
  intros Henv. unfold getNamespaceInfo. destruct (accessor_lpm_ok self name st Henv) as [-> Hex]. cbn [mbind option_bind].
  destruct (measured name st) as [n|]; [|done]. cbn [mbind option_bind]. destruct (inCharge self (choices st) n); [|done].
  unfold ns_refresh. destruct (refresh_ok (typeId:=NamespaceInfo_typeId) (newItem:=newNamespaceInfo) now MEASUREMENTS_LIFETIME n st Henv)
    as (st' & -> & Hf & Hn & Ho); [by apply Hex|]. by exists st'.
Qed.

Lemma ns_read_ok n t st : env_ok st -> opened n t st -> ns_read n st = Some (namespace st n).
Proof. apply item_read_ok. Qed.

Lemma ns_write_ok n t g st : env_ok st -> opened n t st ->
  frame st (ns_write n g st) /\ opened n t (ns_write n g st) /\
  forall k, namespace (ns_write n g st) k = if decide (k = n) then g (namespace st n) else namespace st k.
Proof. apply item_write_ok. Qed.

Lemma face_write_ok n t faceId g st : env_ok st -> opened n t st ->
  frame st (face_write n faceId g st) /\ opened n t (face_write n faceId g st) /\
  forall k, namespace (face_write n faceId g st) k =
    if decide (k = n) then set_fit (alter g faceId (m_fit (namespace st n))) (namespace st n) else namespace st k.
Proof. apply (ns_write_ok n t (fun ns => set_fit (alter g faceId (m_fit ns)) ns)). Qed.

Lemma face_read_ok n t faceId st : env_ok st -> opened n t st -> face_read n faceId st = m_fit (namespace st n) !! faceId.
Proof. intros Henv Ho. unfold face_read. by rewrite (ns_read_ok n t st Henv Ho). Qed.

End AsfMeasurements.

(** The namespaces are the items of their type. *)
Notation namespace := (item NamespaceInfo_typeId newNamespaceInfo).
