(* ===== verification/Strategy.v ===== *)
(** * Strategy actions, Nack processing, best-route and multicast

    Models the outgoing pipelines of [daemon/fw/forwarder.cpp], the actions and
    default triggers of [strategy.hpp/.cpp], [process-nack-traits.*],
    [best-route-strategy2.cpp] and [multicast-strategy.cpp]. A trigger works on
    the PIT entry at hand and sends packets: it maps the entry and the packets
    sent so far to the new ones. [None] is a failed assertion or the use of a
    null pointer. *)

From S2P Require Import Prelude Fp Ndn Fib Pit FwAlgorithm.
Local Open Scope Z_scope.

(** What the daemon uses of [lp::NackReason]: reasons by number, and the
    comparison [lp::isLessSevere], documented as a strict total order in which
    NONE is the most severe. *)
Class NackReasons := {
  REASON_NONE : Z; REASON_DUPLICATE : Z; REASON_NO_ROUTE : Z;
  isLessSevere : Z -> Z -> bool;
  lessSevere_irrefl x : isLessSevere x x = false;
  lessSevere_trans x y z : isLessSevere x y = true -> isLessSevere y z = true -> isLessSevere x z = true;
  lessSevere_total x y : x = y \/ isLessSevere x y = true \/ isLessSevere y x = true;
  lessSevere_none x : isLessSevere REASON_NONE x = false
}.

(** The traversal order of a [std::set<Face*>] or [std::unordered_set<Face*>]
    filled with the faces of a list, which depends on addresses. *)
Class FaceSetOrder (enum : list Z -> list Z) : Prop := { enum_perm l : enum l ≡ₚ remove_dups l }.

Definition INVALID_FACEID : Z := 0.
Definition TimePoint_max : Z := 2 ^ 63 - 1.

Section Actions.
Context {C : Type} `{Packets C} `{!ScopePrefixes C} `{!NackReasons}.
Notation Name := (list C).
Notation Interest := (Interest C).
Notation PitEntry := (PitEntry C).
Notation InRecord := (InRecord C).
Context (faceOf : Z -> FaceInfo) (enum : list Z -> list Z) `{!FaceSetOrder enum}.

Inductive Action :=
  | SendInterest (face : Z) (interest : Interest)
  | SendData (face : Z) (data : Data)
  | SendNack (face : Z) (interest : Interest) (reason : Z).

Record Fx := mkFx { fx_pit : PitEntry; fx_sent : list Action }.
Implicit Types (fx : Fx) (interest : Interest) (data : Data) (pe : PitEntry).

(** ** Outgoing pipelines *)

Definition onOutgoingInterest (now outFace : Z) interest fx : Fx :=
  mkFx (insertOrUpdateOutRecord now outFace interest (fx_pit fx))
       (fx_sent fx ++ [SendInterest outFace interest]).

Definition onOutgoingData data (outFace : Z) (sent : list Action) : list Action :=
  if f_id (faceOf outFace) =? INVALID_FACEID then sent
  else if negb (f_local (faceOf outFace)) && isPrefixOf LOCALHOST (data_name data) then sent
  else sent ++ [SendData outFace data].

Definition onOutgoingNack (outFace reason : Z) fx : option Fx :=
  if f_id (faceOf outFace) =? INVALID_FACEID then Some fx
  else match getInRecord outFace (fx_pit fx) with
       | None => Some fx
       | Some inRecord =>
           if bool_decide (f_linkType (faceOf outFace) = LINK_TYPE_POINT_TO_POINT) then
             interest ← in_interest inRecord;
             Some (mkFx (deleteInRecord outFace (fx_pit fx))
                        (fx_sent fx ++ [SendNack outFace interest reason]))
           else Some fx
       end.

(** The duration is in milliseconds. *)
Definition setExpiryTimer (now duration : Z) fx : option Fx :=
  if duration <? 0 then None
  else Some (mkFx (set_expiryTimer (Some (now + duration * ms)) (fx_pit fx)) (fx_sent fx)).

(** ** Actions of a strategy *)

Definition sendData data (outFace : Z) fx : option Fx :=
  let pe := fx_pit fx in
  if matchesData (i_name (m_interest pe)) (i_selectors (m_interest pe)) data then
    Some (mkFx (deleteInRecord outFace pe) (onOutgoingData data outFace (fx_sent fx)))
  else None.

(** The faces that [sendDataToAll] sends to. *)
Definition isDownstream (now inFace : Z) (inRecord : InRecord) : bool :=
  (now <? in_expiry inRecord) &&
  negb ((f_id (faceOf (in_face inRecord)) =? f_id (faceOf inFace)) &&
        negb (bool_decide (f_linkType (faceOf (in_face inRecord)) = LINK_TYPE_AD_HOC))).

Definition pendingDownstreams (now inFace : Z) pe : list Z :=
  enum (in_face <$> remove_if (fun r => negb (isDownstream now inFace r)) (m_inRecords pe)).

Definition sendDataToAll (now inFace : Z) data fx : option Fx :=
  foldl (fun ofx face => fx ← ofx; sendData data face fx) (Some fx)
        (pendingDownstreams now inFace (fx_pit fx)).

Definition rejectPendingInterest (now : Z) fx : option Fx := setExpiryTimer now 0 fx.

Definition sendNacks (reason : Z) (exceptFaces : list Z) fx : option Fx :=
  foldl (fun ofx face => fx ← ofx; onOutgoingNack face reason fx) (Some fx)
        (enum (remove_if (fun f => bool_decide (f ∈ exceptFaces)) (in_face <$> m_inRecords (fx_pit fx)))).

(** The loop of [processNack]: records not Nacked, the last such face, and the
    least severe reason. *)
Definition nack_scan (acc : Z * option Z * Z) (outR : OutRecord) : Z * option Z * Z :=
  let '(nOutRecordsNotNacked, lastFaceNotNacked, leastSevereReason) := acc in
  match out_incomingNack outR with
  | None => (nOutRecordsNotNacked + 1, Some (out_face outR), leastSevereReason)
  | Some reason =>
      (nOutRecordsNotNacked, lastFaceNotNacked,
       if isLessSevere reason leastSevereReason then reason else leastSevereReason)
  end.

Definition processNack fx : option Fx :=
  let '(nOutRecordsNotNacked, lastFaceNotNacked, leastSevereReason) :=
    foldl nack_scan (0, None, REASON_NONE) (m_outRecords (fx_pit fx)) in
  bidirectional ← (if nOutRecordsNotNacked =? 1 then
      face ← lastFaceNotNacked;
      Some (match getInRecord face (fx_pit fx) with Some _ => Some face | None => None end)
    else Some None);
  match bidirectional with
  | Some face => onOutgoingNack face leastSevereReason fx
  | None => if 0 <? nOutRecordsNotNacked then Some fx else sendNacks leastSevereReason [] fx
  end.

(** ** Best route *)

Definition isNextHopEligible (inFace : Z) interest (nexthop : NextHop) pe (wantUnused : bool) (now : Z) : bool :=
  let outFace := nh_face nexthop in
  if (f_id (faceOf outFace) =? f_id (faceOf inFace)) &&
     negb (bool_decide (f_linkType (faceOf outFace) = LINK_TYPE_AD_HOC)) then false
  else if wouldViolateScope faceOf inFace interest outFace then false
  else if wantUnused && match getOutRecord outFace pe with
                        | Some outRecord => now <? out_expiry outRecord
                        | None => false
                        end then false
  else true.

Definition earliest_step (inFace : Z) interest pe (acc : option (option NextHop * Z)) (nexthop : NextHop) :
    option (option NextHop * Z) :=
  '(found, earliestRenewed) ← acc;
  if negb (isNextHopEligible inFace interest nexthop pe false TimePoint_min) then acc
  else
    outRecord ← getOutRecord (nh_face nexthop) pe;
    Some (if out_lastRenewed outRecord <? earliestRenewed then (Some nexthop, out_lastRenewed outRecord)
          else (found, earliestRenewed)).

Definition findEligibleNextHopWithEarliestOutRecord (inFace : Z) interest (nexthops : list NextHop) pe :
    option (option NextHop) :=
  fst <$> foldl (earliest_step inFace interest pe) (Some (None, TimePoint_max)) nexthops.

Definition bestRoute_afterReceiveInterest (rs : RetxSuppressionExponential) (now : Z)
    (nexthops : list NextHop) (inFace : Z) interest fx : option Fx :=
  '(suppression, pe) ← decidePerPitEntry rs now (fx_pit fx);
  let fx := mkFx pe (fx_sent fx) in
  match suppression with
  | SUPPRESS => Some fx
  | NEW =>
      match find_if (fun nh => isNextHopEligible inFace interest nh pe false TimePoint_min) nexthops with
      | None => fx ← onOutgoingNack inFace REASON_NO_ROUTE fx; rejectPendingInterest now fx
      | Some nh => Some (onOutgoingInterest now (nh_face nh) interest fx)
      end
  | FORWARD =>
      match find_if (fun nh => isNextHopEligible inFace interest nh pe true now) nexthops with
      | Some nh => Some (onOutgoingInterest now (nh_face nh) interest fx)
      | None =>
          found ← findEligibleNextHopWithEarliestOutRecord inFace interest nexthops pe;
          Some (match found with
                | None => fx
                | Some nh => onOutgoingInterest now (nh_face nh) interest fx
                end)
      end
  end.

(** ** Multicast *)

Definition multicast_step (rs : RetxSuppressionExponential) (now inFace : Z) interest
    (acc : Fx * Z * bool) (nexthop : NextHop) : Fx * Z * bool :=
  let '(fx, nEligibleNextHops, isSuppressed) := acc in
  let outFace := nh_face nexthop in
  let '(suppressResult, pe) := decidePerUpstream rs now outFace (fx_pit fx) in
  let fx := mkFx pe (fx_sent fx) in
  match suppressResult with
  | SUPPRESS => (fx, nEligibleNextHops, true)
  | _ =>
      if ((f_id (faceOf outFace) =? f_id (faceOf inFace)) &&
          negb (bool_decide (f_linkType (faceOf outFace) = LINK_TYPE_AD_HOC)))
         || wouldViolateScope faceOf inFace interest outFace
      then (fx, nEligibleNextHops, isSuppressed)
      else
        let fx := onOutgoingInterest now outFace interest fx in
        let fx := match suppressResult with
                  | FORWARD => mkFx (incrementIntervalForOutRecord rs outFace (fx_pit fx)) (fx_sent fx)
                  | _ => fx
                  end in
        (fx, nEligibleNextHops + 1, isSuppressed)
  end.

Definition multicast_afterReceiveInterest (rs : RetxSuppressionExponential) (now : Z)
    (nexthops : list NextHop) (inFace : Z) interest fx : option Fx :=
  let '(fx, nEligibleNextHops, isSuppressed) :=
    foldl (multicast_step rs now inFace interest) (fx, 0, false) nexthops in
  if (nEligibleNextHops =? 0) && negb isSuppressed then
    fx ← onOutgoingNack inFace REASON_NO_ROUTE fx; rejectPendingInterest now fx
  else Some fx.

(** ** Contracts *)

(** One record per face, and every in-record was made by an Interest. *)
Definition pe_ok pe : Prop :=
  records_ok pe /\ Forall (fun r => is_Some (in_interest r)) (m_inRecords pe).

Lemma pe_ok_remove_in pe p : pe_ok pe -> pe_ok (set_inRecords (remove_if p (m_inRecords pe)) pe).
Proof.
  intros [[Hi Ho] Hs]. split; [split; [by apply uniq_remove_if|done]|]. simpl.
  rewrite Forall_forall in Hs |- *. intros r [Hr _]%elem_of_remove_if. by apply Hs.
Qed.

Lemma deleteInRecord_remove face pe :
  pe_ok pe -> deleteInRecord face pe = set_inRecords (remove_if (has_key in_face face) (m_inRecords pe)) pe.
Proof. intros [[Hi _] _]. unfold deleteInRecord. by rewrite erase_first_remove_if. Qed.

Lemma set_inRecords_twice l l' pe : set_inRecords l (set_inRecords l' pe) = set_inRecords l pe.
Proof. done. Qed.

Lemma set_inRecords_id pe : set_inRecords (m_inRecords pe) pe = pe.
Proof. by destruct pe. Qed.

(** *** Nacks *)

Definition nackable (face : Z) : bool :=
  negb (f_id (faceOf face) =? INVALID_FACEID) &&
  bool_decide (f_linkType (faceOf face) = LINK_TYPE_POINT_TO_POINT).

(** The Nack that a downstream face gets. *)
Definition nackTo pe (reason face : Z) : option Action :=
  if nackable face then
    r ← getInRecord face pe; i ← in_interest r; Some (SendNack face i reason)
  else None.

Lemma getInRecord_interest face pe r :
  pe_ok pe -> getInRecord face pe = Some r -> exists i, in_interest r = Some i.
Proof.
  intros [_ Hs] [Hr _]%find_key_Some. rewrite Forall_forall in Hs. by apply Hs.
Qed.

Lemma onOutgoingNack_ok face reason fx :
  pe_ok (fx_pit fx) ->
  onOutgoingNack face reason fx =
    Some (mkFx (set_inRecords (remove_if (fun r => nackable (in_face r) && has_key in_face face r)
                                  (m_inRecords (fx_pit fx))) (fx_pit fx))
               (fx_sent fx ++ option_list (nackTo (fx_pit fx) reason face))).
Proof.
  intros Hok. unfold onOutgoingNack, nackTo.
  assert (forall l, nackable face = false \/ getInRecord face (fx_pit fx) = None ->
    mkFx (set_inRecords (remove_if (fun r => nackable (in_face r) && has_key in_face face r)
      (m_inRecords (fx_pit fx))) (fx_pit fx)) l = mkFx (fx_pit fx) l) as Hskip.
  { intros l Hn. rewrite remove_if_none, set_inRecords_id; [done|].
    intros r Hr. destruct (has_key in_face face r) eqn:Ek; [|by rewrite andb_false_r].
    unfold has_key in Ek. apply bool_decide_eq_true in Ek. destruct Hn as [Hn|Hn]; [by rewrite Ek, Hn|].
    apply find_key_None in Hn. destruct Hn. apply list_elem_of_fmap. eauto. }
  unfold nackable at 2. destruct (f_id (faceOf face) =? INVALID_FACEID) eqn:Ef; simpl.
  { rewrite app_nil_r, Hskip; [by destruct fx|]. left. unfold nackable. by rewrite Ef. }
  destruct (getInRecord face (fx_pit fx)) as [r|] eqn:Er; simpl; cycle 1.
  { rewrite Hskip by auto. by destruct (bool_decide _); rewrite app_nil_r; destruct fx. }
  destruct (getInRecord_interest _ _ _ Hok Er) as [i Ei]. rewrite Ei. simpl.
  destruct (bool_decide (f_linkType (faceOf face) = LINK_TYPE_POINT_TO_POINT)) eqn:El; simpl; cycle 1.
  { rewrite app_nil_r, Hskip; [by destruct fx|]. left. unfold nackable. by rewrite El, andb_false_r. }
  rewrite deleteInRecord_remove by done. do 3 f_equal. apply remove_if_ext. intros r' _.
  destruct (has_key in_face face r') eqn:E0; [|by rewrite andb_false_r]. apply bool_decide_eq_true in E0.
  unfold nackable. by rewrite E0, Ef, El.
Qed.

Lemma nackTo_other pe p reason face :
  (forall r, r ∈ m_inRecords pe -> in_face r = face -> p r = false) ->
  nackTo (set_inRecords (remove_if p (m_inRecords pe)) pe) reason face = nackTo pe reason face.
Proof.
  intros Hp. unfold nackTo, getInRecord. simpl.
  assert (find_if (has_key in_face face) (remove_if p (m_inRecords pe)) =
          find_if (has_key in_face face) (m_inRecords pe)) as ->; [|done].
  induction (m_inRecords pe) as [|r l IH]; simpl; [done|].
  assert (forall r', r' ∈ l -> in_face r' = face -> p r' = false) as Hl by (intros; apply Hp; [by right|done]).
  destruct (has_key in_face face r) eqn:Ek.
  - unfold has_key in Ek. apply bool_decide_eq_true in Ek. rewrite Hp by (done || left). simpl.
    unfold has_key at 1. by rewrite bool_decide_eq_true_2.
  - destruct (p r); simpl; [by apply IH|]. rewrite Ek. by apply IH.
Qed.

Lemma sendNacks_loop reason fs : forall fx,
  pe_ok (fx_pit fx) -> NoDup fs ->
  foldl (fun ofx face => fx ← ofx; onOutgoingNack face reason fx) (Some fx) fs =
    Some (mkFx (set_inRecords (remove_if (fun r => nackable (in_face r) && bool_decide (in_face r ∈ fs))
                                  (m_inRecords (fx_pit fx))) (fx_pit fx))
               (fx_sent fx ++ omap (nackTo (fx_pit fx) reason) fs)).
Proof.
  induction fs as [|f fs IH]; intros fx Hok Hnd.
  { simpl. rewrite app_nil_r, remove_if_none, set_inRecords_id; [by destruct fx|].
    intros. by rewrite andb_false_r. }
  apply NoDup_cons in Hnd as [Hf Hnd]. cbn [foldl mbind option_bind].
  rewrite onOutgoingNack_ok by done. rewrite IH; [|by apply pe_ok_remove_in|done]. cbn [fx_pit fx_sent].
  rewrite set_inRecords_twice. f_equal. f_equal.
  - f_equal. cbn [m_inRecords set_inRecords]. rewrite remove_if_remove_if. apply remove_if_ext. intros r _.
    unfold has_key. destruct (nackable (in_face r)); simpl; [|done].
    apply eq_true_iff_eq. rewrite orb_true_iff, !bool_decide_eq_true, elem_of_cons. done.
  - rewrite <-app_assoc. f_equal. simpl.
    assert (omap (nackTo (set_inRecords (remove_if (fun r => nackable (in_face r) && has_key in_face f r)
        (m_inRecords (fx_pit fx))) (fx_pit fx)) reason) fs = omap (nackTo (fx_pit fx) reason) fs) as ->.
    { apply list_omap_ext, Forall2_same_length_lookup_2; [done|]. intros i x y Hx Hy. simplify_eq.
      apply nackTo_other. intros r _ Hr. apply andb_false_intro2.
      apply bool_decide_eq_false. intros Hf'. apply Hf. rewrite <-Hf', Hr. by eapply list_elem_of_lookup_2. }
    by destruct (nackTo (fx_pit fx) reason f).
Qed.

(** *** Data *)

(** The Data that a downstream face gets. *)
Definition dataTo data (face : Z) : option Action :=
  if (f_id (faceOf face) =? INVALID_FACEID) ||
     (negb (f_local (faceOf face)) && isPrefixOf LOCALHOST (data_name data))
  then None else Some (SendData face data).

Lemma onOutgoingData_ok data face sent :
  onOutgoingData data face sent = sent ++ option_list (dataTo data face).
Proof. unfold onOutgoingData, dataTo. repeat case_match; simpl in *; try done; by rewrite app_nil_r. Qed.

Lemma sendData_loop data fs : forall fx,
  pe_ok (fx_pit fx) ->
  matchesData (i_name (m_interest (fx_pit fx))) (i_selectors (m_interest (fx_pit fx))) data = true ->
  foldl (fun ofx face => fx ← ofx; sendData data face fx) (Some fx) fs =
    Some (mkFx (set_inRecords (remove_if (fun r => bool_decide (in_face r ∈ fs)) (m_inRecords (fx_pit fx)))
                  (fx_pit fx))
               (fx_sent fx ++ omap (dataTo data) fs)).
Proof.
  induction fs as [|f fs IH]; intros fx Hok Hm.
  { simpl. rewrite app_nil_r, remove_if_none, set_inRecords_id; [by destruct fx|done]. }
  cbn [foldl mbind option_bind]. unfold sendData at 2. rewrite Hm, deleteInRecord_remove by done.
  rewrite IH; [|by apply pe_ok_remove_in|done]. cbn [fx_pit fx_sent].
  rewrite set_inRecords_twice. f_equal. f_equal.
  - f_equal. cbn [m_inRecords set_inRecords]. rewrite remove_if_remove_if. apply remove_if_ext. intros r _.
    unfold has_key. apply eq_true_iff_eq. rewrite orb_true_iff, !bool_decide_eq_true, elem_of_cons. done.
  - rewrite onOutgoingData_ok, <-app_assoc. f_equal. simpl. by destruct (dataTo data f).
Qed.

Lemma pendingDownstreams_spec now inFace pe f :
  f ∈ pendingDownstreams now inFace pe <->
  exists r, r ∈ m_inRecords pe /\ in_face r = f /\ isDownstream now inFace r = true.
Proof.
  unfold pendingDownstreams. rewrite enum_perm, elem_of_remove_dups, list_elem_of_fmap.
  split.
  - intros (r & -> & [Hr Hd]%elem_of_remove_if). breflect. eauto.
  - intros (r & Hr & <- & Hd). exists r. split; [done|]. apply elem_of_remove_if. by rewrite Hd.
Qed.

Lemma pendingDownstreams_NoDup now inFace pe : NoDup (pendingDownstreams now inFace pe).
Proof. unfold pendingDownstreams. rewrite enum_perm. apply NoDup_remove_dups. Qed.

(** *** Processing of Nacks *)

Definition isNacked (r : OutRecord) : bool :=
  match out_incomingNack r with Some _ => true | None => false end.

Lemma nack_scan_notNacked l : forall n f m,
  foldl nack_scan (n, f, m) l =
  (n + Z.of_nat (length (remove_if isNacked l)),
   match last (remove_if isNacked l) with
   | Some r => Some (out_face r) | None => f end,
   foldl (fun m x => if isLessSevere x m then x else m) m (omap out_incomingNack l)).
Proof.
  induction l as [|r l IH]; intros n f m; simpl; [by rewrite Z.add_0_r|].
  destruct (out_incomingNack r) as [x|] eqn:Er; rewrite IH.
  - assert (isNacked r = true) as -> by (unfold isNacked; by rewrite Er). done.
  - assert (isNacked r = false) as -> by (unfold isNacked; by rewrite Er). simpl.
    f_equal. f_equal; [lia|]. destruct (remove_if isNacked l) as [|o l0]; [done|].
    rewrite !last_cons. by destruct (last l0).
Qed.

(** The reason reported is the least severe of those received. *)
Definition least_severe (l : list Z) (m : Z) : Prop :=
  (m = REASON_NONE \/ m ∈ l) /\ forall x, x ∈ l -> isLessSevere x m = false.

Lemma lessSevere_asym x y : isLessSevere x y = true -> isLessSevere y x = false.
Proof.
  intros Hxy. destruct (isLessSevere y x) eqn:Hyx; [|done].
  pose proof (lessSevere_trans _ _ _ Hxy Hyx). by rewrite lessSevere_irrefl in *.
Qed.

Lemma fold_least l : forall l0 m,
  least_severe l0 m ->
  least_severe (l0 ++ l) (foldl (fun m x => if isLessSevere x m then x else m) m l).
Proof.
  induction l as [|x l IH]; intros l0 m Hm; simpl; [by rewrite app_nil_r|].
  rewrite cons_middle, app_assoc. apply IH. destruct Hm as [Hin Hle].
  destruct (isLessSevere x m) eqn:E0.
  - split; [right; set_solver|]. intros y [Hy| ->%list_elem_of_singleton]%elem_of_app; [|apply lessSevere_irrefl].
    destruct (isLessSevere y x) eqn:E1; [|done]. specialize (Hle _ Hy).
    by rewrite (lessSevere_trans _ _ _ E1 E0) in Hle.
  - split; [set_solver|]. intros y [Hy| ->%list_elem_of_singleton]%elem_of_app; [by apply Hle|done].
Qed.

Lemma processNack_ok fx :
  pe_ok (fx_pit fx) ->
  let pe := fx_pit fx in
  let waiting := remove_if isNacked (m_outRecords pe) in
  exists reason, least_severe (omap out_incomingNack (m_outRecords pe)) reason /\
  processNack fx = Some (
    match waiting with
    | [] =>
        mkFx (set_inRecords (remove_if (fun r => nackable (in_face r)) (m_inRecords pe)) pe)
             (fx_sent fx ++ omap (nackTo pe reason) (enum (in_face <$> m_inRecords pe)))
    | [r] => mkFx (set_inRecords (remove_if (fun r' => nackable (in_face r') && has_key in_face (out_face r) r')
                                    (m_inRecords pe)) pe)
                  (fx_sent fx ++ option_list (nackTo pe reason (out_face r)))
    | _ => fx
    end).
Proof.
  intros Hok pe waiting. unfold processNack. rewrite nack_scan_notNacked. fold pe. fold waiting.
  set (reason := foldl _ _ _). exists reason. split.
  { apply (fold_least _ []). split; [by left|set_solver]. }
  destruct waiting as [|r [|r' rest]] eqn:Ew.
  - simpl. unfold sendNacks. rewrite remove_if_none by (intros; by apply bool_decide_eq_false, not_elem_of_nil).
    rewrite sendNacks_loop; [|done|].
    + do 3 f_equal. apply remove_if_ext. intros r Hr.
      rewrite bool_decide_eq_true_2, andb_true_r; [done|].
      fold pe. rewrite enum_perm, elem_of_remove_dups. apply list_elem_of_fmap. eauto.
    + rewrite enum_perm. apply NoDup_remove_dups.
  - simpl. fold pe. destruct (getInRecord (out_face r) pe) as [inR|] eqn:Ei.
    + by rewrite onOutgoingNack_ok.
    + f_equal. unfold nackTo. rewrite Ei. rewrite remove_if_none, set_inRecords_id.
      * by destruct (nackable _), fx; rewrite app_nil_r.
      * intros x Hx. apply andb_false_intro2, bool_decide_eq_false. intros Hf.
        apply find_key_None in Ei. apply Ei, list_elem_of_fmap. eauto.
  - destruct (0 + _ =? 1) eqn:E1; breflect; [simpl in E1; lia|].
    cbn [mbind option_bind]. destruct (0 <? 0 + _) eqn:E2; breflect; [done|simpl in E2; lia].
Qed.

(** When every upstream has returned a Nack, each downstream on a valid
    point-to-point face gets a Nack of the least severe reason received, for the
    Interest of its own in-record, and the other in-records stay; when one
    upstream is left, only it gets such a Nack, and only when it is also a
    downstream; otherwise nothing is sent and nothing changes. *)
Theorem processNack_correct fx :
  pe_ok (fx_pit fx) ->
  let pe := fx_pit fx in
  let waiting := remove_if isNacked (m_outRecords pe) in
  exists reason, least_severe (omap out_incomingNack (m_outRecords pe)) reason /\
  processNack fx = Some (
    match waiting with
    | [] =>
        mkFx (set_inRecords (remove_if (fun r => nackable (in_face r)) (m_inRecords pe)) pe)
             (fx_sent fx ++ omap (nackTo pe reason) (enum (in_face <$> m_inRecords pe)))
    | [r] => mkFx (set_inRecords (remove_if (fun r' => nackable (in_face r') && has_key in_face (out_face r) r')
                                    (m_inRecords pe)) pe)
                  (fx_sent fx ++ option_list (nackTo pe reason (out_face r)))
    | _ => fx
    end).
Proof. apply processNack_ok. Qed.

(** ** Best route *)

Lemma eligible_eq inFace interest nh pe now :
  isNextHopEligible inFace interest nh pe false now =
    negb ((f_id (faceOf (nh_face nh)) =? f_id (faceOf inFace)) &&
          negb (bool_decide (f_linkType (faceOf (nh_face nh)) = LINK_TYPE_AD_HOC))
         || wouldViolateScope faceOf inFace interest (nh_face nh)).
Proof. unfold isNextHopEligible. by repeat case_match. Qed.

Lemma eligible_unused inFace interest nh pe now :
  isNextHopEligible inFace interest nh pe true now = true ->
  isNextHopEligible inFace interest nh pe false TimePoint_min = true.
Proof. unfold isNextHopEligible. repeat case_match; done. Qed.

(** A next hop that is eligible but not unused has an unexpired out-record. *)
Lemma eligible_used inFace interest nh pe now :
  isNextHopEligible inFace interest nh pe false TimePoint_min = true ->
  isNextHopEligible inFace interest nh pe true now = false ->
  exists r, getOutRecord (nh_face nh) pe = Some r /\ now < out_expiry r.
Proof.
  unfold isNextHopEligible. repeat case_match; try done; intros _ _; simplify_eq/=; breflect; eauto; done.
Qed.

Lemma earliest_loop inFace interest pe l : forall found e,
  (forall nh, nh ∈ l -> isNextHopEligible inFace interest nh pe false TimePoint_min = true ->
     exists r, getOutRecord (nh_face nh) pe = Some r) ->
  exists found' e', foldl (earliest_step inFace interest pe) (Some (found, e)) l = Some (found', e') /\
    e' <= e /\
    (forall nh r, nh ∈ l -> isNextHopEligible inFace interest nh pe false TimePoint_min = true ->
       getOutRecord (nh_face nh) pe = Some r -> e' <= out_lastRenewed r) /\
    ((found' = found /\ e' = e) \/
     exists nh r, found' = Some nh /\ nh ∈ l /\
       isNextHopEligible inFace interest nh pe false TimePoint_min = true /\
       getOutRecord (nh_face nh) pe = Some r /\ out_lastRenewed r = e').
Proof.
  induction l as [|nh l IH]; intros found e Hall; simpl.
  { do 2 eexists. split; [done|]. split_and!; [lia|set_solver|by left]. }
  assert (forall nh, nh ∈ l -> isNextHopEligible inFace interest nh pe false TimePoint_min = true ->
     exists r, getOutRecord (nh_face nh) pe = Some r) as Hall' by (intros; apply Hall; [by right|done]).
  destruct (isNextHopEligible inFace interest nh pe false TimePoint_min) eqn:Ee; simpl; cycle 1.
  { destruct (IH found e Hall') as (f' & e' & Hf & Hle & Hmin & Hc). do 2 eexists. split; [exact Hf|].
    split_and!; [done| |destruct Hc as [?|(nh' & r' & ? & ? & ?)]; [by left|right; exists nh', r'; set_solver]].
    intros nh' r [->|Hn]%elem_of_cons; [congruence|by apply Hmin]. }
  destruct (Hall nh) as [r Hr]; [left|done|]. rewrite Hr. simpl.
  destruct (out_lastRenewed r <? e) eqn:Elt; breflect.
  - destruct (IH (Some nh) (out_lastRenewed r) Hall') as (f' & e' & Hf & Hle & Hmin & Hc).
    do 2 eexists. split; [exact Hf|]. split_and!; [lia| |].
    + intros nh' r' [->|Hn]%elem_of_cons He Hr'; [simplify_eq; lia|by eapply Hmin].
    + right. destruct Hc as [[-> ->]|(nh' & r' & ? & ? & ?)]; [exists nh, r|exists nh', r']; set_solver.
  - destruct (IH found e Hall') as (f' & e' & Hf & Hle & Hmin & Hc). do 2 eexists. split; [exact Hf|].
    split_and!; [done| |destruct Hc as [?|(nh' & r' & ? & ? & ?)]; [by left|right; exists nh', r'; set_solver]].
    intros nh' r' [->|Hn]%elem_of_cons He Hr'; [simplify_eq; lia|by eapply Hmin].
Qed.

Lemma earliest_ok inFace interest nexthops pe :
  (forall nh, nh ∈ nexthops -> isNextHopEligible inFace interest nh pe false TimePoint_min = true ->
     exists r, getOutRecord (nh_face nh) pe = Some r) ->
  Forall (fun r => out_lastRenewed r < TimePoint_max) (m_outRecords pe) ->
  exists found, findEligibleNextHopWithEarliestOutRecord inFace interest nexthops pe = Some found /\
  match found with
  | None => forall nh, nh ∈ nexthops -> isNextHopEligible inFace interest nh pe false TimePoint_min = false
  | Some nh => nh ∈ nexthops /\ isNextHopEligible inFace interest nh pe false TimePoint_min = true /\
      exists r, getOutRecord (nh_face nh) pe = Some r /\
      forall nh' r', nh' ∈ nexthops -> isNextHopEligible inFace interest nh' pe false TimePoint_min = true ->
        getOutRecord (nh_face nh') pe = Some r' -> out_lastRenewed r <= out_lastRenewed r'
  end.
Proof.
  intros Hall Hmax. unfold findEligibleNextHopWithEarliestOutRecord.
  destruct (earliest_loop inFace interest pe nexthops None TimePoint_max Hall) as (f & e & -> & _ & Hmin & Hc).
  simpl. eexists. split; [done|]. destruct Hc as [[-> ->]|(nh & r & -> & Hn & He & Hr & <-)]; [|by eauto 10].
  intros nh Hn. destruct (isNextHopEligible _ _ nh _ _ _) eqn:Ee; [|done]. exfalso.
  destruct (Hall nh Hn Ee) as [r Hr]. specialize (Hmin nh r Hn Ee Hr).
  apply find_key_Some in Hr as [Hr _]. rewrite Forall_forall in Hmax. specialize (Hmax _ Hr). lia.
Qed.

(** What best route may do on the decision of the suppression. *)
Definition bestRoute_post (now : Z) (nexthops : list NextHop) (inFace : Z) interest
    (suppression : RetxSuppressionResult) fx fx' : Prop :=
  let pe := fx_pit fx in
  let eligible nh := isNextHopEligible inFace interest nh pe false TimePoint_min = true in
  let unused nh := isNextHopEligible inFace interest nh pe true now = true in
  let forwardTo nh := nh ∈ nexthops /\ eligible nh /\ fx' = onOutgoingInterest now (nh_face nh) interest fx in
  match suppression with
  | SUPPRESS => fx' = fx
  | NEW =>
      (exists nh, forwardTo nh /\ forall nh', nh' ∈ nexthops -> eligible nh' -> nh_cost nh <= nh_cost nh') \/
      ((forall nh, nh ∈ nexthops -> ~ eligible nh) /\ expiryTimer (fx_pit fx') = Some now /\
       fx_sent fx' = fx_sent fx ++ option_list (nackTo pe REASON_NO_ROUTE inFace))
  | FORWARD =>
      (exists nh, forwardTo nh /\ unused nh /\
         forall nh', nh' ∈ nexthops -> unused nh' -> nh_cost nh <= nh_cost nh') \/
      ((forall nh, nh ∈ nexthops -> ~ unused nh) /\
       ((exists nh r, forwardTo nh /\ getOutRecord (nh_face nh) pe = Some r /\
           forall nh' r', nh' ∈ nexthops -> eligible nh' -> getOutRecord (nh_face nh') pe = Some r' ->
             out_lastRenewed r <= out_lastRenewed r') \/
        ((forall nh, nh ∈ nexthops -> ~ eligible nh) /\ fx' = fx)))
  end.

Lemma pe_ok_set_info h pe : pe_ok pe -> pe_ok (set_info h pe).
Proof. done. Qed.

Lemma bestRoute_ok rs now nexthops inFace interest fx :
  pe_ok (fx_pit fx) -> Sorted (fun a b => nh_cost a <= nh_cost b) nexthops ->
  Forall (fun r => out_lastRenewed r < TimePoint_max) (m_outRecords (fx_pit fx)) ->
  exists suppression pe fx', decidePerPitEntry rs now (fx_pit fx) = Some (suppression, pe) /\
    bestRoute_afterReceiveInterest rs now nexthops inFace interest fx = Some fx' /\
    bestRoute_post now nexthops inFace interest suppression (mkFx pe (fx_sent fx)) fx'.
Proof.
  intros Hok Hsort Hmax. unfold bestRoute_afterReceiveInterest.
  destruct (decidePerPitEntry_total rs now (fx_pit fx)) as (sup & pe & Hd). rewrite Hd. cbn [mbind option_bind].
  destruct (decidePerPitEntry_frame _ _ _ _ _ Hd) as [h ->]. set (pe := set_info h (fx_pit fx)).
  exists sup, pe. assert (pe_ok pe) as Hok' by done.
  destruct sup.
  - destruct (find_if _ nexthops) as [nh|] eqn:Ef.
    + eexists. split_and!; [done..|]. left. exists nh. apply find_if_Some in Ef as Hf.
      split; [split_and!; [apply Hf|apply Hf|done]|]. intros nh' Hn He.
      by apply (find_if_sorted _ nh_cost _ _ Hsort Ef).
    + rewrite onOutgoingNack_ok by done. eexists. split_and!; [done|reflexivity|].
      rewrite find_if_None in Ef. right. split_and!; [|simpl; f_equal; lia|done].
      intros nh Hn. simpl. rewrite Ef by done. done.
  - destruct (find_if _ nexthops) as [nh|] eqn:Ef.
    + eexists. split_and!; [done..|]. left. exists nh. apply find_if_Some in Ef as Hf.
      split_and!; [apply Hf|by eapply eligible_unused, Hf|done|apply Hf|].
      intros nh' Hn He. by apply (find_if_sorted _ nh_cost _ _ Hsort Ef).
    + rewrite find_if_None in Ef.
      destruct (earliest_ok inFace interest nexthops pe) as (found & Hf & Hp); [|done|].
      { intros nh Hn He. destruct (eligible_used inFace interest nh pe now) as (r & Hr & _); eauto. }
      rewrite Hf. cbn [mbind option_bind]. eexists. split_and!; [done..|]. right. split.
      { intros nh Hn. simpl. by rewrite Ef. }
      destruct found as [nh|]; [left|right].
      * destruct Hp as (Hn & He & r & Hr & Hmin). exists nh, r. done.
      * split; [|done]. intros nh Hn. simpl. by rewrite Hp.
  - eexists. split_and!; done.
Qed.

(** C37: on a new Interest best route forwards to the cheapest eligible next hop,
    or returns a NO_ROUTE Nack and expires the entry when there is none; on a
    retransmission it prefers the cheapest next hop without an unexpired
    out-record, then the eligible one used longest ago; a suppressed one sends
    nothing. An eligible next hop is never the incoming face (unless ad hoc) and
    never violates scope. The assertion on out-records cannot fail. *)
Theorem bestRoute_correct rs now nexthops inFace interest fx :
  pe_ok (fx_pit fx) -> Sorted (fun a b => nh_cost a <= nh_cost b) nexthops ->
  Forall (fun r => out_lastRenewed r < TimePoint_max) (m_outRecords (fx_pit fx)) ->
  exists suppression pe fx', decidePerPitEntry rs now (fx_pit fx) = Some (suppression, pe) /\
    bestRoute_afterReceiveInterest rs now nexthops inFace interest fx = Some fx' /\
    bestRoute_post now nexthops inFace interest suppression (mkFx pe (fx_sent fx)) fx'.
Proof. apply bestRoute_ok. Qed.

(** ** Multicast *)

Definition suppressed (rs : RetxSuppressionExponential) (now : Z) pe (nh : NextHop) : bool :=
  bool_decide ((decidePerUpstream rs now (nh_face nh) pe).1 = SUPPRESS).

Lemma decision_of_record rs now f pe pe' :
  getOutRecord f pe = getOutRecord f pe' ->
  (decidePerUpstream rs now f pe).1 = (decidePerUpstream rs now f pe').1.
Proof.
  intros He. unfold decidePerUpstream. rewrite He. destruct (getOutRecord f pe') as [r|]; [|done].
  by destruct (insertStrategyInfo _ _ _) as [[h x] b].
Qed.

(** Changes to the out-record of one face alone. *)
Definition touches (f : Z) pe pe' : Prop :=
  m_inRecords pe' = m_inRecords pe /\ m_interest pe' = m_interest pe /\
  isSatisfied pe' = isSatisfied pe /\ dataFreshnessPeriod pe' = dataFreshnessPeriod pe /\
  (pe_ok pe -> pe_ok pe') /\ (pe_ok pe -> forall g, g <> f -> getOutRecord g pe' = getOutRecord g pe).

Lemma touches_update f g pe :
  (forall r, out_face (g r) = out_face r) ->
  touches f pe (set_outRecords (update_first (has_key out_face f) g (m_outRecords pe)) pe).
Proof.
  intros Hg. split_and!; try done.
  - intros [[Hi Ho] Hs]. split; [split; [done|]|done]. simpl. by apply uniq_update_first.
  - intros _ h Hne. unfold getOutRecord. simpl. apply find_update_other; [done|].
    intros x Hx. by rewrite Hg.
Qed.

Lemma touches_trans f pe1 pe2 pe3 : touches f pe1 pe2 -> touches f pe2 pe3 -> touches f pe1 pe3.
Proof.
  intros (A1 & A2 & A3 & A4 & A5 & A6) (B1 & B2 & B3 & B4 & B5 & B6). split_and!; try congruence; [by auto|].
  intros Hok g Hne. rewrite B6, A6 by auto. done.
Qed.

Lemma touches_decide rs now f pe : touches f pe (decidePerUpstream rs now f pe).2.
Proof.
  unfold decidePerUpstream. destruct (getOutRecord f pe); [|done].
  destruct (insertStrategyInfo _ _ _) as [[h x] b]. by apply touches_update.
Qed.

Lemma touches_send now f interest pe : touches f pe (insertOrUpdateOutRecord now f interest pe).
Proof.
  split_and!; try done.
  - intros [Hr Hs]. split; [by apply insertOrUpdateOutRecord_ok|done].
  - intros [Hr Hs] g Hne. by apply insertOrUpdateOutRecord_ok.
Qed.

Lemma touches_increment rs f pe : touches f pe (incrementIntervalForOutRecord rs f pe).
Proof. apply touches_update. intros r. by destruct (insertStrategyInfo _ _ _) as [[h x] b]. Qed.

Definition goes rs (now inFace : Z) interest pe (nh : NextHop) : bool :=
  negb (suppressed rs now pe nh) && isNextHopEligible inFace interest nh pe false TimePoint_min.

Lemma multicast_step_ok rs now inFace interest fx n s nh :
  exists pe', touches (nh_face nh) (fx_pit fx) pe' /\
  multicast_step rs now inFace interest (fx, n, s) nh =
    if goes rs now inFace interest (fx_pit fx) nh
    then (mkFx pe' (fx_sent fx ++ [SendInterest (nh_face nh) interest]), n + 1, s)
    else (mkFx pe' (fx_sent fx), n, s || suppressed rs now (fx_pit fx) nh).
Proof.
  unfold multicast_step, goes, suppressed.
  pose proof (touches_decide rs now (nh_face nh) (fx_pit fx)) as Ht.
  destruct (decidePerUpstream rs now (nh_face nh) (fx_pit fx)) as [res pe]. cbn [fst snd] in *.
  rewrite eligible_eq.
  assert (touches (nh_face nh) (fx_pit fx) (insertOrUpdateOutRecord now (nh_face nh) interest pe)) as Ht2.
  { eapply touches_trans; [exact Ht|apply touches_send]. }
  destruct res; simpl.
  - destruct (_ || wouldViolateScope _ _ _ _); simpl; eexists; (split; [|rewrite ?orb_false_r; reflexivity]);
      [exact Ht|exact Ht2].
  - destruct (_ || wouldViolateScope _ _ _ _); simpl; eexists; (split; [|rewrite ?orb_false_r; reflexivity]);
      [exact Ht|]. eapply touches_trans; [exact Ht2|apply touches_increment].
  - eexists. split; [exact Ht|]. by rewrite orb_true_r.
Qed.

Lemma multicast_loop rs now inFace interest pe0 l : forall fx n s,
  pe_ok (fx_pit fx) -> NoDup (nh_face <$> l) ->
  (forall nh, nh ∈ l -> getOutRecord (nh_face nh) (fx_pit fx) = getOutRecord (nh_face nh) pe0) ->
  exists pe', foldl (multicast_step rs now inFace interest) (fx, n, s) l =
    (mkFx pe' (fx_sent fx ++ ((fun nh => SendInterest (nh_face nh) interest) <$>
                                remove_if (fun nh => negb (goes rs now inFace interest pe0 nh)) l)),
     n + Z.of_nat (length (remove_if (fun nh => negb (goes rs now inFace interest pe0 nh)) l)),
     s || existsb (suppressed rs now pe0) l) /\
  pe_ok pe' /\ m_inRecords pe' = m_inRecords (fx_pit fx).
Proof.
  induction l as [|nh l IH]; intros fx n s Hok Hnd Hsame.
  { exists (fx_pit fx). simpl. rewrite app_nil_r, Z.add_0_r, orb_false_r. by destruct fx. }
  apply NoDup_cons in Hnd as [Hn Hnd]. cbn [foldl].
  destruct (multicast_step_ok rs now inFace interest fx n s nh) as (pe' & (Hin & _ & _ & _ & Hok' & Hother) & ->).
  assert (suppressed rs now (fx_pit fx) nh = suppressed rs now pe0 nh) as Hsup.
  { unfold suppressed. rewrite (decision_of_record _ _ _ _ pe0); [done|]. apply Hsame. left. }
  assert (goes rs now inFace interest (fx_pit fx) nh = goes rs now inFace interest pe0 nh) as Hgo.
  { unfold goes. by rewrite Hsup. }
  rewrite Hgo, Hsup.
  assert (forall nh', nh' ∈ l -> getOutRecord (nh_face nh') pe' = getOutRecord (nh_face nh') pe0) as Hl.
  { intros nh' Hn'. rewrite Hother; [apply Hsame; by right|done|]. intros He. apply Hn. rewrite <-He.
    apply list_elem_of_fmap. eauto. }
  destruct (goes rs now inFace interest pe0 nh) eqn:Eg; simpl; rewrite Eg; simpl.
  - destruct (IH (mkFx pe' (fx_sent fx ++ [SendInterest (nh_face nh) interest])) (n + 1) s) as (pe'' & -> & ? & ?);
      [by apply Hok'|done|done|]. exists pe''. simpl in *. split_and!; [|done|congruence].
    rewrite <-app_assoc. simpl. f_equal; [f_equal; lia|].
    unfold goes in Eg. breflect. by match goal with Hs : suppressed _ _ _ _ = false |- _ => rewrite Hs end.
  - destruct (IH (mkFx pe' (fx_sent fx)) n (s || suppressed rs now pe0 nh)) as (pe'' & -> & ? & ?);
      [by apply Hok'|done|done|]. exists pe''. simpl in *. split_and!; [|done|congruence].
    by rewrite orb_assoc.
Qed.

(** Multicast sends the Interest once to every next hop that is eligible and
    not suppressed, in the order of the FIB entry, and to no other face; it
    returns a NO_ROUTE Nack and expires the entry exactly when no next hop was
    eligible and none was suppressed. *)
Theorem multicast_correct rs now nexthops inFace interest fx :
  pe_ok (fx_pit fx) -> NoDup (nh_face <$> nexthops) ->
  let targets := remove_if (fun nh => negb (goes rs now inFace interest (fx_pit fx) nh)) nexthops in
  exists fx', multicast_afterReceiveInterest rs now nexthops inFace interest fx = Some fx' /\
  match targets with
  | [] =>
      if existsb (suppressed rs now (fx_pit fx)) nexthops then fx_sent fx' = fx_sent fx
      else expiryTimer (fx_pit fx') = Some now /\
           fx_sent fx' = fx_sent fx ++ option_list (nackTo (fx_pit fx) REASON_NO_ROUTE inFace)
  | _ => fx_sent fx' = fx_sent fx ++ ((fun nh => SendInterest (nh_face nh) interest) <$> targets)
  end.
Proof.
  intros Hok Hnd targets. unfold multicast_afterReceiveInterest.
  destruct (multicast_loop rs now inFace interest (fx_pit fx) nexthops fx 0 false)
    as (pe' & -> & Hok' & Hin); [done..|].
  fold targets. rewrite orb_false_l. destruct targets as [|nh rest] eqn:Et; simpl.
  - rewrite app_nil_r. destruct (existsb _ nexthops); simpl; [eauto|].
    rewrite onOutgoingNack_ok by done. eexists. split; [reflexivity|]. simpl. split; [f_equal; lia|].
    f_equal. unfold nackTo, getInRecord. by rewrite Hin.
  - eauto.
Qed.

(** ** What the forwarder may rely on

    Whatever a trigger does, it sends packets the protocol allows and leaves the
    entry fit for the next one: in-records are only deleted. *)
Definition ext (P : Action -> Prop) fx fx' : Prop :=
  pe_ok (fx_pit fx') /\ m_interest (fx_pit fx') = m_interest (fx_pit fx) /\
  isSatisfied (fx_pit fx') = isSatisfied (fx_pit fx) /\
  dataFreshnessPeriod (fx_pit fx') = dataFreshnessPeriod (fx_pit fx) /\
  sublist (m_inRecords (fx_pit fx')) (m_inRecords (fx_pit fx)) /\
  exists l, fx_sent fx' = fx_sent fx ++ l /\ Forall P l.

(** Nacks go to downstreams on point-to-point faces, for their Interest. *)
Definition nackAllowed pe (a : Action) : Prop :=
  match a with
  | SendNack f i _ => nackable f = true /\ exists r, r ∈ m_inRecords pe /\ in_face r = f /\ in_interest r = Some i
  | _ => False
  end.

(** Interests go to next hops within their scope, and not back. *)
Definition interestAllowed (nexthops : list NextHop) (inFace : Z) interest pe (a : Action) : Prop :=
  match a with
  | SendInterest f i => i = interest /\ f ∈ nh_face <$> nexthops /\
      wouldViolateScope faceOf inFace interest f = false /\
      (f_id (faceOf f) = f_id (faceOf inFace) -> f_linkType (faceOf f) = LINK_TYPE_AD_HOC)
  | _ => nackAllowed pe a
  end.

Lemma ext_refl P fx : pe_ok (fx_pit fx) -> ext P fx fx.
Proof. intros Hok. split_and!; try done. exists []. by rewrite app_nil_r. Qed.

Lemma ext_trans P fx1 fx2 fx3 : ext P fx1 fx2 -> ext P fx2 fx3 -> ext P fx1 fx3.
Proof.
  intros (A1 & A2 & A3 & A4 & A5 & l1 & A6 & A7) (B1 & B2 & B3 & B4 & B5 & l2 & B6 & B7).
  split_and!; try congruence; [by etrans|]. exists (l1 ++ l2). rewrite B6, A6, app_assoc.
  split; [done|]. by apply Forall_app.
Qed.

Lemma ext_touches P f fx pe' l :
  pe_ok (fx_pit fx) -> touches f (fx_pit fx) pe' -> Forall P l -> ext P fx (mkFx pe' (fx_sent fx ++ l)).
Proof.
  intros Hok (A1 & A2 & A3 & A4 & A5 & _) Hl. split_and!; try done; simpl; [by apply A5|by rewrite A1|eauto].
Qed.

Lemma nackTo_allowed pe reason f a : nackTo pe reason f = Some a -> nackAllowed pe a.
Proof.
  unfold nackTo. destruct (nackable f) eqn:En; [|done].
  destruct (getInRecord f pe) as [r|] eqn:Er; simpl; [|done].
  destruct (in_interest r) as [i|] eqn:Ei; simpl; [|done]. intros [= <-].
  apply find_key_Some in Er as [? ?]. split; [done|]. by exists r.
Qed.

Lemma ext_nack fx reason f :
  pe_ok (fx_pit fx) -> exists fx', onOutgoingNack f reason fx = Some fx' /\ ext (nackAllowed (fx_pit fx)) fx fx'.
Proof.
  intros Hok. rewrite onOutgoingNack_ok by done. eexists. split; [done|].
  split_and!; try done; simpl; [by apply pe_ok_remove_in|apply remove_if_sublist|].
  eexists. split; [done|]. destruct (nackTo _ _ _) eqn:En; [|constructor].
  constructor; [by eapply nackTo_allowed|constructor].
Qed.

Lemma ext_timer P now fx : pe_ok (fx_pit fx) ->
  exists fx', setExpiryTimer now 0 fx = Some fx' /\ ext P fx fx'.
Proof.
  intros Hok. unfold setExpiryTimer. simpl. eexists. split; [done|]. split_and!; try done.
  exists []. by rewrite app_nil_r.
Qed.

Lemma ext_mono (P Q : Action -> Prop) fx fx' : (forall a, P a -> Q a) -> ext P fx fx' -> ext Q fx fx'.
Proof.
  intros HPQ (A1 & A2 & A3 & A4 & A5 & l & A6 & A7). split_and!; try done. exists l. split; [done|].
  eapply Forall_impl; [done|exact HPQ].
Qed.

Lemma ext_sent P fx fx' fx'' :
  fx_pit fx' = fx_pit fx'' -> fx_sent fx' = fx_sent fx'' -> ext P fx fx' -> ext P fx fx''.
Proof. destruct fx', fx''. simpl. by intros -> ->. Qed.

Lemma eligible_allowed nexthops inFace interest nh pe pe' :
  nh ∈ nexthops -> isNextHopEligible inFace interest nh pe' false TimePoint_min = true ->
  interestAllowed nexthops inFace interest pe (SendInterest (nh_face nh) interest).
Proof.
  intros Hn. rewrite eligible_eq, negb_true_iff. intros [Hback Hscope]%orb_false_iff.
  split_and!; [done|apply list_elem_of_fmap; eauto|done|]. intros Hid.
  rewrite Hid, Z.eqb_refl in Hback. by apply negb_false_iff, bool_decide_eq_true in Hback.
Qed.

(** No next hop: a Nack, and the entry expires. *)
Lemma ext_noRoute now inFace fx nexthops interest :
  pe_ok (fx_pit fx) ->
  exists fx', (fx ← onOutgoingNack inFace REASON_NO_ROUTE fx; rejectPendingInterest now fx) = Some fx' /\
    ext (interestAllowed nexthops inFace interest (fx_pit fx)) fx fx'.
Proof.
  intros Hok. destruct (ext_nack fx REASON_NO_ROUTE inFace Hok) as (fx1 & -> & He1). cbn [mbind option_bind].
  destruct (ext_timer (nackAllowed (fx_pit fx)) now fx1) as (fx2 & He & He2); [apply He1|].
  exists fx2. split; [exact He|]. apply (ext_mono (nackAllowed (fx_pit fx))); [by intros []|].
  by eapply ext_trans.
Qed.

Lemma bestRoute_ext rs now nexthops inFace interest fx :
  pe_ok (fx_pit fx) ->
  exists fx', bestRoute_afterReceiveInterest rs now nexthops inFace interest fx = Some fx' /\
    ext (interestAllowed nexthops inFace interest (fx_pit fx)) fx fx'.
Proof.
  intros Hok. unfold bestRoute_afterReceiveInterest.
  destruct (decidePerPitEntry_total rs now (fx_pit fx)) as (sup & pe & Hd). rewrite Hd. cbn [mbind option_bind].
  destruct (decidePerPitEntry_frame _ _ _ _ _ Hd) as [h ->].
  set (fx1 := mkFx (set_info h (fx_pit fx)) (fx_sent fx)).
  set (P := interestAllowed nexthops inFace interest (fx_pit fx)).
  assert (ext P fx fx1) as H01 by (split_and!; try done; exists []; by rewrite app_nil_r).
  assert (forall nh, nh ∈ nexthops ->
    isNextHopEligible inFace interest nh (set_info h (fx_pit fx)) false TimePoint_min = true ->
    ext P fx (onOutgoingInterest now (nh_face nh) interest fx1)) as Hsend.
  { intros nh Hn He. eapply ext_trans; [exact H01|]. apply (ext_touches P (nh_face nh)); [done|apply touches_send|].
    constructor; [|constructor]. by eapply eligible_allowed. }
  destruct sup.
  - destruct (find_if _ nexthops) as [nh|] eqn:Ef.
    + apply find_if_Some in Ef as [Hn He]. eexists. split; [done|by apply Hsend].
    + destruct (ext_noRoute now inFace fx1 nexthops interest) as (fx2 & -> & He2); [done|].
      exists fx2. split; [done|]. eapply ext_trans; [exact H01|exact He2].
  - destruct (find_if _ nexthops) as [nh|] eqn:Ef.
    + apply find_if_Some in Ef as [Hn He]. eexists. split; [done|]. apply Hsend; [done|].
      by eapply eligible_unused.
    + rewrite find_if_None in Ef. unfold findEligibleNextHopWithEarliestOutRecord.
      destruct (earliest_loop inFace interest (set_info h (fx_pit fx)) nexthops None TimePoint_max)
        as (f & e & -> & _ & _ & Hc).
      { intros nh Hn He. destruct (eligible_used inFace interest nh (set_info h (fx_pit fx)) now) as (r & Hr & _); eauto. }
      simpl. eexists. split; [done|]. destruct Hc as [[-> _]|(nh & r & -> & Hn & He & _)]; [done|by apply Hsend].
  - eauto.
Qed.

Lemma multicast_ext rs now nexthops inFace interest fx :
  pe_ok (fx_pit fx) ->
  exists fx', multicast_afterReceiveInterest rs now nexthops inFace interest fx = Some fx' /\
    ext (interestAllowed nexthops inFace interest (fx_pit fx)) fx fx'.
Proof.
  intros Hok. unfold multicast_afterReceiveInterest.
  set (P := interestAllowed nexthops inFace interest (fx_pit fx)).
  assert (forall l fx0 n s, (forall nh, nh ∈ l -> nh ∈ nexthops) -> pe_ok (fx_pit fx0) ->
    m_inRecords (fx_pit fx0) = m_inRecords (fx_pit fx) ->
    exists fx1 n' s', foldl (multicast_step rs now inFace interest) (fx0, n, s) l = (fx1, n', s') /\
      ext P fx0 fx1 /\ m_inRecords (fx_pit fx1) = m_inRecords (fx_pit fx)) as Hloop.
  { induction l as [|nh l IH]; intros fx0 n s Hl Hok0 Hin0; [do 3 eexists; split_and!; [done|by apply ext_refl|done]|].
    cbn [foldl]. destruct (multicast_step_ok rs now inFace interest fx0 n s nh) as (pe' & Ht & ->).
    set (sent := if goes rs now inFace interest (fx_pit fx0) nh then [SendInterest (nh_face nh) interest] else []).
    assert (ext P fx0 (mkFx pe' (fx_sent fx0 ++ sent))) as Hx1.
    { apply (ext_touches P (nh_face nh)); [done|done|]. unfold sent, goes. case_match; [|constructor]. breflect.
      constructor; [|constructor]. eapply eligible_allowed; [apply Hl; left|done]. }
    assert (exists n1 s1, (if goes rs now inFace interest (fx_pit fx0) nh
      then (mkFx pe' (fx_sent fx0 ++ [SendInterest (nh_face nh) interest]), n + 1, s)
      else (mkFx pe' (fx_sent fx0), n, s || suppressed rs now (fx_pit fx0) nh)) =
      (mkFx pe' (fx_sent fx0 ++ sent), n1, s1)) as (n1 & s1 & ->).
    { unfold sent. case_match; rewrite ?app_nil_r; eauto. }
    destruct (IH (mkFx pe' (fx_sent fx0 ++ sent)) n1 s1) as (fx1 & n' & s' & -> & Hx2 & Hin);
      [set_solver|apply Hx1|destruct Ht as [Hi _]; simpl; congruence|].
    do 3 eexists. split_and!; [done|by eapply ext_trans|done]. }
  destruct (Hloop nexthops fx 0 false) as (fx1 & n' & s' & -> & Hx1 & Hin); [done..|].
  case_match; [|by eauto].
  destruct (ext_noRoute now inFace fx1 nexthops interest) as (fx2 & -> & Hx2); [apply Hx1|].
  exists fx2. split; [done|]. eapply ext_trans; [exact Hx1|]. eapply ext_mono; [|exact Hx2].
  unfold P. intros []; simpl; rewrite ?Hin; done.
Qed.

Lemma processNack_ext fx :
  pe_ok (fx_pit fx) -> exists fx', processNack fx = Some fx' /\ ext (nackAllowed (fx_pit fx)) fx fx'.
Proof.
  intros Hok. destruct (processNack_ok fx Hok) as (reason & _ & ->). eexists. split; [done|].
  assert (forall p l, Forall (nackAllowed (fx_pit fx)) l ->
    ext (nackAllowed (fx_pit fx)) fx
      (mkFx (set_inRecords (remove_if p (m_inRecords (fx_pit fx))) (fx_pit fx)) (fx_sent fx ++ l))) as Hext.
  { intros p l Hl. split_and!; try done; simpl; [by apply pe_ok_remove_in|apply remove_if_sublist|eauto]. }
  destruct (remove_if isNacked _) as [|r [|r' rest]].
  - apply Hext. apply Forall_forall. intros a (f & _ & Ha)%list_elem_of_omap. by eapply nackTo_allowed.
  - apply Hext. destruct (nackTo _ _ _) eqn:En; [|constructor].
    constructor; [by eapply nackTo_allowed|constructor].
  - by apply ext_refl.
Qed.

(** A strategy that keeps the default Data triggers: what it does on an Interest
    and on a Nack, and the callback before an Interest is satisfied. [St] is its
    own state. *)
Class FwStrategy (St : Type) := {
  st_afterReceiveInterest : Z -> list NextHop -> Z -> Interest -> St -> Fx -> option (St * Fx);
  st_afterReceiveNack : Z -> Z -> St -> Fx -> option (St * Fx);
  st_beforeSatisfyInterest : Z -> Z -> Data -> St -> PitEntry -> option St;
  st_interest_law now nexthops inFace interest st fx :
    pe_ok (fx_pit fx) ->
    exists st' fx', st_afterReceiveInterest now nexthops inFace interest st fx = Some (st', fx') /\
      ext (interestAllowed nexthops inFace interest (fx_pit fx)) fx fx';
  st_nack_law now inFace st fx :
    pe_ok (fx_pit fx) ->
    exists st' fx', st_afterReceiveNack now inFace st fx = Some (st', fx') /\ ext (nackAllowed (fx_pit fx)) fx fx';
  st_satisfy_law now inFace data st pe : is_Some (st_beforeSatisfyInterest now inFace data st pe)
}.

Inductive BestRouteStrategy2 := bestRoute (rs : RetxSuppressionExponential).
Inductive MulticastStrategy := multicast (rs : RetxSuppressionExponential).

#[global] Program Instance bestRoute_FwStrategy : FwStrategy BestRouteStrategy2 := {|
  st_afterReceiveInterest now nexthops inFace interest st fx :=
    let 'bestRoute rs := st in
    fx ← bestRoute_afterReceiveInterest rs now nexthops inFace interest fx; Some (st, fx);
  st_afterReceiveNack now inFace st fx := fx ← processNack fx; Some (st, fx);
  st_beforeSatisfyInterest now inFace data st pe := Some st
|}.
Next Obligation.
  intros now nexthops inFace interest [rs] fx Hok. simpl.
  destruct (bestRoute_ext rs now nexthops inFace interest fx Hok) as (fx' & -> & He). simpl. eauto.
Qed.
Next Obligation.
  intros now inFace st fx Hok. simpl. destruct (processNack_ext fx Hok) as (fx' & -> & He). simpl. eauto.
Qed.
Next Obligation. eauto. Qed.

#[global] Program Instance multicast_FwStrategy : FwStrategy MulticastStrategy := {|
  st_afterReceiveInterest now nexthops inFace interest st fx :=
    let 'multicast rs := st in
    fx ← multicast_afterReceiveInterest rs now nexthops inFace interest fx; Some (st, fx);
  st_afterReceiveNack now inFace st fx := fx ← processNack fx; Some (st, fx);
  st_beforeSatisfyInterest now inFace data st pe := Some st
|}.
Next Obligation.
  intros now nexthops inFace interest [rs] fx Hok. simpl.
  destruct (multicast_ext rs now nexthops inFace interest fx Hok) as (fx' & -> & He). simpl. eauto.
Qed.
Next Obligation.
  intros now inFace st fx Hok. simpl. destruct (processNack_ext fx Hok) as (fx' & -> & He). simpl. eauto.
Qed.
Next Obligation. eauto. Qed.
End Actions.

Module StrategyExamples.
Local Open Scope Z_scope.

(** Reasons by number, a smaller one less severe, NONE (zero) the most severe. *)
#[export] Program Instance exampleReasons : NackReasons := {|
  REASON_NONE := 0; REASON_DUPLICATE := 100; REASON_NO_ROUTE := 150;
  isLessSevere x y := if x =? 0 then false else if y =? 0 then true else x <? y
|}.
Next Obligation. intros x. simpl. repeat case_match; breflect; try done; lia. Qed.
Next Obligation. intros x y z. simpl. repeat case_match; breflect; try done; intros; breflect; try done; lia. Qed.
Next Obligation.
  intros x y. simpl. destruct (x =? 0) eqn:E0, (y =? 0) eqn:E1, (x <? y) eqn:E2, (y <? x) eqn:E3; breflect; auto; left; lia.
Qed.
Next Obligation. done. Qed.

#[export] Instance exampleScope : ScopePrefixes Z := {| LOCALHOST := [100]; LOCALHOP := [101] |}.

#[export] Instance removeDupsOrder : FaceSetOrder remove_dups := {| enum_perm l := reflexivity _ |}.

(** Faces 1 to 3 are local, faces from 8 on ad hoc. *)
Definition faces (f : Z) : FaceInfo :=
  mkFace f (f <? 4) (if f <? 8 then LINK_TYPE_POINT_TO_POINT else LINK_TYPE_AD_HOC).

Definition anInterest : Interest Z := mkInterest _ _ _ [1; 2] (false, false, 0) 7 4000 [] None.
Definition hops : list NextHop := [mkNextHop 4 0 1; mkNextHop 5 0 3; mkNextHop 9 0 5].

(** An entry with one downstream, face 4, waiting for face 5. *)
Definition pending : PitEntry Z :=
  insertOrUpdateOutRecord 0 5 anInterest (insertOrUpdateInRecord 0 4 anInterest (newPitEntry anInterest)).
Definition start : Fx := mkFx pending [].

Lemma pending_ok : pe_ok pending.
Proof.
  split; [split; vm_compute; repeat constructor; set_solver|].
  vm_compute. repeat constructor. by eexists.
Qed.

(** After a second, a retransmission goes to the unused face 9. *)
Lemma bestRoute_correct_witness :
  exists suppression pe fx', decidePerPitEntry strategyRetx (1000 * ms) (fx_pit start) = Some (suppression, pe) /\
    bestRoute_afterReceiveInterest faces strategyRetx (1000 * ms) hops 4 anInterest start = Some fx' /\
    bestRoute_post faces (1000 * ms) hops 4 anInterest suppression (mkFx pe (fx_sent start)) fx'.
Proof.
  apply (bestRoute_correct faces remove_dups strategyRetx (1000 * ms) hops 4 anInterest start pending_ok).
  - repeat constructor; simpl; lia.
  - apply Forall_cons. split; [exact (eq_refl (Z.compare 0 TimePoint_max))|apply Forall_nil; exact I].
Defined.

Example bestRoute_uses_face_9 :
  fx_sent <$> bestRoute_afterReceiveInterest faces strategyRetx (1000 * ms) hops 4 anInterest start =
    Some [SendInterest 9 anInterest].
Proof. vm_compute. reflexivity. Qed.

Definition nacked : Fx :=
  mkFx (set_outRecords [mkOutRecord 5 7 0 (4000 * ms) (Some 150) ∅] pending) [].

Lemma nacked_ok : pe_ok (fx_pit nacked).
Proof. destruct pending_ok as [[Hi _] Hs]. split; [split; [exact Hi|apply NoDup_singleton]|exact Hs]. Qed.

Lemma processNack_correct_witness :
  exists reason, least_severe (omap out_incomingNack (m_outRecords (fx_pit nacked))) reason /\
  processNack faces remove_dups nacked = Some (
    mkFx (set_inRecords (remove_if (fun r => nackable faces (in_face r)) (m_inRecords (fx_pit nacked))) (fx_pit nacked))
         (fx_sent nacked ++ omap (nackTo faces (fx_pit nacked) reason)
                              (remove_dups (in_face <$> m_inRecords (fx_pit nacked))))).
Proof. exact (processNack_correct faces remove_dups nacked nacked_ok). Defined.

Example processNack_sends :
  fx_sent <$> processNack faces remove_dups nacked = Some [SendNack 4 anInterest 150].
Proof. vm_compute. reflexivity. Qed.

(** Face 4 is the incoming face and face 5 was used a moment ago. *)
Lemma multicast_correct_witness :
  exists fx', multicast_afterReceiveInterest faces strategyRetx (1 * ms) hops 4 anInterest start = Some fx' /\
    fx_sent fx' = [SendInterest 9 anInterest].
Proof.
  destruct (multicast_correct faces strategyRetx (1 * ms) hops 4 anInterest start pending_ok) as (fx' & He & Hs).
  - repeat constructor; set_solver.
  - exists fx'. split; [exact He|]. exact Hs.
Defined.
End StrategyExamples.
