(* ===== verification/Asf.v ===== *)
(** * The ASF strategy

    Models [daemon/fw/asf-strategy.hpp/.cpp] and [asf-probing-module.hpp/.cpp]:
    the adaptive strategy that ranks next hops by smoothed round trip time, and
    from time to time sends a probe to another face. A [std::set] with a
    comparison is a list in its order, in which equivalent elements are not
    inserted again.

    Random numbers, [Interest::refreshNonce] and the conversion of text to
    numbers are arguments. *)

From Stdlib Require Import Ascii String.
From S2P Require Import Prelude Fp Ndn Hashtable NameTree Fib Pit Measurements StrategyRegistry StrategyChoice StrategyItems FwAlgorithm RttEstimator AsfMeasurements Strategy.
Local Open Scope Z_scope.

(** [std::set::insert]. *)
Fixpoint set_insert {A : Type} (lt : A -> A -> bool) (x : A) (l : list A) : list A :=
  match l with
  | [] => [x]
  | y :: l' => if lt x y then x :: l else if lt y x then y :: set_insert lt x l' else l
  end.

(** The first element that no other comes before. *)
Definition best {A : Type} (lt : A -> A -> bool) (l : list A) : option A :=
  foldl (fun acc x => match acc with None => Some x | Some y => Some (if lt x y then x else y) end) None l.

(** A set is filled element by element; its first element is the best one. *)
Lemma head_set_insert {A} (lt : A -> A -> bool) x l :
  head (set_insert lt x l) = match head l with None => Some x | Some y => Some (if lt x y then x else y) end.
Proof. destruct l as [|y l]; simpl; [done|]. repeat case_match; done. Qed.

Lemma head_set {A} (lt : A -> A -> bool) l : head (foldl (fun s x => set_insert lt x s) [] l) = best lt l.
Proof.
  unfold best. assert (forall s, head (foldl (fun s x => set_insert lt x s) s l) =
    foldl (fun acc x => match acc with None => Some x | Some y => Some (if lt x y then x else y) end) (head s) l) as Hall; [|apply (Hall [])].
  induction l as [|x l IH]; intros s; simpl; [done|]. by rewrite IH, head_set_insert.
Qed.

Lemma set_elems {A} (lt : A -> A -> bool) l : forall s x, x ∈ foldl (fun s x => set_insert lt x s) s l -> x ∈ s \/ x ∈ l.
Proof.
  assert (forall y s x, x ∈ set_insert lt y s -> x = y \/ x ∈ s) as Hins.
  { intros y s x. induction s as [|z s IH]; simpl; [by rewrite list_elem_of_singleton; auto|].
    repeat case_match; rewrite ?elem_of_cons; tauto. }
  induction l as [|y l IH]; intros s x; simpl; [auto|]. rewrite elem_of_cons. intros [[->|Hx]%Hins|Hx]%IH; auto.
Qed.

Lemma length_set {A} (lt : A -> A -> bool) l : forall s, (length (foldl (fun s x => set_insert lt x s) s l) <= length s + length l)%nat.
Proof.
  assert (forall y s, (length (set_insert lt y s) <= Datatypes.S (length s))%nat) as Hins.
  { intros y s. induction s as [|z s IH]; simpl; [lia|]. repeat case_match; simpl; lia. }
  induction l as [|y l IH]; intros s; simpl; [lia|]. etrans; [apply IH|]. specialize (Hins y s). lia.
Qed.

Section Best.
Context {A : Type} (lt : A -> A -> bool).
Hypotheses (lt_trans : forall x y z, lt x y = true -> lt y z = true -> lt x z = true)
  (lt_weak : forall x y z, lt x y = false -> lt y z = false -> lt x z = false).

Lemma best_None l : best lt l = None <-> l = [].
Proof.
  split; [|by intros ->]. destruct l as [|x l]; [done|]. unfold best. simpl.
  assert (forall y, foldl (fun acc x => match acc with None => Some x | Some y => Some (if lt x y then x else y) end) (Some y) l <> None) as Hs; [|by intros ?%Hs].
  induction l as [|z l IH]; intros y; simpl; [done|apply IH].
Qed.

Lemma best_first l x : best lt l = Some x ->
  exists l1 l2, l = l1 ++ x :: l2 /\ (forall y, y ∈ l1 -> lt x y = true) /\ (forall y, y ∈ l2 -> lt y x = false).
Proof.
  revert x. induction l as [|z l IH] using rev_ind; intros x; [done|]. unfold best. rewrite foldl_app. simpl. fold (best lt l).
  destruct (best lt l) as [y|] eqn:Eb.
  - destruct (IH y eq_refl) as (l1 & l2 & Hl & H1 & H2). destruct (lt z y) eqn:Ez; intros [= <-].
    + exists l, []. split_and!; [done| |by intros w ?%elem_of_nil]. intros w Hw. rewrite Hl in Hw.
      apply elem_of_app in Hw as [Hw|[->|Hw]%elem_of_cons]; [eauto|done|].
      destruct (lt z w) eqn:Ew; [done|]. rewrite (lt_weak z w y) in Ez by eauto. done.
    + exists l1, (l2 ++ [z]). split_and!; [by rewrite Hl, <-app_assoc|done|].
      intros w [Hw| ->%list_elem_of_singleton]%elem_of_app; [eauto|done].
  - apply best_None in Eb as ->. intros [= <-]. exists [], []. split_and!; [done|by intros w ?%elem_of_nil|by intros w ?%elem_of_nil].
Qed.
End Best.

(** ** Ranking *)

Record FaceStats := mkFaceStats { fs_face : Z; fs_rtt : Z; fs_srtt : Z; fs_cost : Z }.

(** [time::microseconds::max()] as a [double]. *)
Definition SORTING_RTT_TIMEOUT : Z := double_of_int (2 ^ 63 - 1).
Definition SORTING_RTT_NO_MEASUREMENT : Z := double_div SORTING_RTT_TIMEOUT (double_of_int 2).

Definition getValueForSorting (stats : FaceStats) : Z :=
  if fs_rtt stats =? RTT_TIMEOUT then SORTING_RTT_TIMEOUT
  else if fs_rtt stats =? RTT_NO_MEASUREMENT then SORTING_RTT_NO_MEASUREMENT
  else fs_srtt stats.

Definition ranks_before (lhs rhs : FaceStats) : bool :=
  let lhsValue := getValueForSorting lhs in
  let rhsValue := getValueForSorting rhs in
  if lhsValue <? rhsValue then true
  else if lhsValue =? rhsValue then fs_cost lhs <? fs_cost rhs
  else false.

Lemma ranks_trans x y z : ranks_before x y = true -> ranks_before y z = true -> ranks_before x z = true.
Proof.
  unfold ranks_before. intros Hxy Hyz. repeat case_match; rewrite ?Z.ltb_lt, ?Z.ltb_ge, ?Z.eqb_eq, ?Z.eqb_neq in *; first [done|lia].
Qed.

Lemma ranks_weak x y z : ranks_before x y = false -> ranks_before y z = false -> ranks_before x z = false.
Proof.
  unfold ranks_before. intros Hxy Hyz. repeat case_match; rewrite ?Z.ltb_lt, ?Z.ltb_ge, ?Z.eqb_eq, ?Z.eqb_neq in *; first [done|lia].
Qed.

(** ** Probing *)

Definition DEFAULT_PROBING_INTERVAL : Z := 60000.
Definition MIN_PROBING_INTERVAL : Z := 1000.

(** The parameter is a [size_t], the interval an [int64_t]. [None] is [std::invalid_argument]. *)
Definition setProbingInterval (probingInterval : Z) : option Z :=
  if MIN_PROBING_INTERVAL <=? i64 probingInterval then Some (i64 probingInterval) else None.

Definition getProbingProbability (rank rankSum nFaces : Z) : Z :=
  double_div (double_of_int (u64 (nFaces + 1 - rank))) (double_of_int rankSum).

(** The loop over the ranked faces; [None] is the failed assertion after it. *)
Fixpoint probability_loop (randomNumber rankSum nFaces rank offset : Z) (rankedFaces : list Z) : option Z :=
  match rankedFaces with
  | [] => None
  | face :: rest =>
      let probability := getProbingProbability rank rankSum nFaces in
      if randomNumber <=? double_add offset probability then Some face
      else probability_loop randomNumber rankSum nFaces (u64 (rank + 1)) (double_add offset probability) rest
  end.

Definition getFaceBasedOnProbability (randomNumber : Z) (rankedFaces : list Z) : option Z :=
  let size := Z.of_nat (length rankedFaces) in
  let rankSum := u64 ((size + 1) * size) / 2 in
  probability_loop randomNumber rankSum size 1 0 rankedFaces.

(** *** The probabilities in small numbers

    Rounding commutes with powers of two, so that the probabilities, which are not
    tiny, can be computed in units of [2^-70]. *)

Definition small_probability (k rankSum : Z) : Z := fround 53 (k * 2 ^ 70) rankSum.

Fixpoint small_loop (randomNumber rankSum nFaces rank offset : Z) (rankedFaces : list Z) : option Z :=
  match rankedFaces with
  | [] => None
  | face :: rest =>
      let offset := fround 53 (offset + small_probability (nFaces + 1 - rank) rankSum) 1 in
      if randomNumber <=? offset * 2 ^ 1004 then Some face
      else small_loop randomNumber rankSum nFaces (rank + 1) offset rest
  end.

Lemma small_units : units = 2 ^ 70 * 2 ^ 1004.
Proof. reflexivity. Qed.

Lemma probability_small k rankSum nFaces : 0 < nFaces + 1 - k <= rankSum -> rankSum < 2 ^ 18 ->
  getProbingProbability k rankSum nFaces = small_probability (nFaces + 1 - k) rankSum * 2 ^ 1004.
Proof.
  intros Hk Hs. unfold getProbingProbability, small_probability. set (j := nFaces + 1 - k) in *.
  rewrite u64_id, !double_micros by lia. unfold micros. rewrite fdiv_def, fround_cancel by (lia || apply units_pos).
  rewrite small_units, Z.mul_assoc. apply fround_scale; [lia|lia|lia|lia|].
  apply Z.div_le_lower_bound; [lia|]. change (2 ^ 70) with (2 ^ 18 * 2 ^ (53 - 1)). nia.
Qed.

Lemma small_probability_ge k rankSum : 0 < k <= rankSum -> rankSum < 2 ^ 18 -> 2 ^ 52 <= small_probability k rankSum.
Proof.
  intros Hk Hs. apply fround_ge_repr; [lia|lia| |].
  - rewrite <-(Z.mul_1_l (2 ^ 52)). apply repr_int; lia.
  - change (2 ^ 70) with (2 ^ 18 * 2 ^ 52). nia.
Qed.

Lemma small_loop_ok r rankSum nFaces l : nFaces <= rankSum < 2 ^ 18 -> forall rank offset, 0 < rank -> rank + Z.of_nat (length l) <= nFaces + 1 -> 0 <= offset ->
  probability_loop r rankSum nFaces rank (offset * 2 ^ 1004) l = small_loop r rankSum nFaces rank offset l.
Proof.
  intros Hs. induction l as [|face l IH]; intros rank offset Hr Hl Ho; [done|]. cbn [probability_loop small_loop]. simpl in Hl.
  rewrite probability_small by lia. pose proof (small_probability_ge (nFaces + 1 - rank) rankSum ltac:(lia) ltac:(lia)) as Hp.
  set (q := small_probability _ _) in *. clearbody q.
  assert (double_add (offset * 2 ^ 1004) (q * 2 ^ 1004) = fround 53 (offset + q) 1 * 2 ^ 1004) as Hadd.
  { rewrite fadd_def, <-Z.mul_add_distr_r. apply fround_scale; [lia|lia|lia|lia|]. rewrite Z.div_1_r. change (53 - 1) with 52. lia. }
  rewrite Hadd. case_match; [done|]. rewrite u64_id by lia. apply IH; [lia|lia|]. apply fround_nonneg; lia.
Qed.

Definition rank_sum (k : nat) : Z := (Z.of_nat k + 1) * Z.of_nat k / 2.

Lemma getFace_small r l : (0 < length l <= 8)%nat ->
  getFaceBasedOnProbability r l = small_loop r (rank_sum (length l)) (Z.of_nat (length l)) 1 0 l.
Proof.
  intros Hl. unfold getFaceBasedOnProbability. rewrite u64_id by nia. fold (rank_sum (length l)).
  rewrite <-(small_loop_ok r (rank_sum (length l)) (Z.of_nat (length l)) l); [done| |lia|lia|lia].
  unfold rank_sum. split; [apply Z.div_le_lower_bound; nia|apply Z.div_lt_upper_bound; nia].
Qed.

(** The sum of the first probabilities. *)
Fixpoint small_total (rankSum nFaces rank offset : Z) (k : nat) : Z :=
  match k with
  | O => offset
  | Datatypes.S k => small_total rankSum nFaces (rank + 1) (fround 53 (offset + small_probability (nFaces + 1 - rank) rankSum) 1) k
  end.

Lemma small_loop_Some r rankSum nFaces l : forall rank offset, l <> [] -> r <= small_total rankSum nFaces rank offset (length l) * 2 ^ 1004 ->
  exists face, face ∈ l /\ small_loop r rankSum nFaces rank offset l = Some face.
Proof.
  induction l as [|face l IH]; intros rank offset Hne Hr; [done|]. cbn [small_loop]. simpl in Hr. set (o := fround 53 _ 1) in *.
  destruct (Z.leb_spec r (o * 2 ^ 1004)) as [Hle|Hgt]; [exists face; split; [by left|done]|].
  destruct l as [|face' l]; [simpl in Hr; lia|].
  destruct (IH (rank + 1) o) as (f & Hf & ->); [done|done|]. exists f. split; [by right|done].
Qed.

(** 1 - 2^-53, the largest [double] below 1. *)
Definition below_one : Z := (2 ^ 53 - 1) * 2 ^ 17 * 2 ^ 1004.

Lemma below_one_repr : representable 53 below_one /\ below_one < units.
Proof.
  split; [change below_one with ((2 ^ 53 - 1) * 2 ^ 1021); apply repr_int; lia|].
  rewrite small_units. unfold below_one. assert (0 < 2 ^ 1004) by (by apply Z.pow_pos_nonneg). nia.
Qed.

Lemma below_one_max r : representable 53 r -> r < units -> r <= below_one.
Proof.
  intros (m & e & He & Hm & ->) Hr. change below_one with (2 ^ 53 * 2 ^ 1021 - 2 ^ 1021). change units with (2 ^ 53 * 2 ^ 1021) in Hr.
  assert (0 < 2 ^ 1021) by (by apply Z.pow_pos_nonneg). destruct (Z.le_gt_cases e 1021) as [Hle|Hgt].
  - assert (2 ^ e <= 2 ^ 1021) by (apply Z.pow_le_mono_r; lia). assert (0 < 2 ^ e) by (apply Z.pow_pos_nonneg; lia).
    set (a := 2 ^ e) in *. set (b := 2 ^ 1021) in *. clearbody a b. nia.
  - replace e with (e - 1021 + 1021) in * by lia. rewrite Z.pow_add_r in * by lia.
    set (a := 2 ^ (e - 1021)) in *. set (b := 2 ^ 1021) in *. clearbody b. rewrite Z.mul_assoc in *.
    apply Z.mul_lt_mono_pos_r in Hr; [|done]. nia.
Qed.

Lemma small_totals k : (0 < k <= 5)%nat -> (2 ^ 53 - 1) * 2 ^ 17 <= small_total (rank_sum k) (Z.of_nat k) 1 0 k.
Proof. intros Hk. apply Z.leb_le. destruct k as [|[|[|[|[|[|k]]]]]]; try lia; vm_compute; reflexivity. Qed.

(** A random number below 1 selects one of at most five faces. *)
Lemma getFace_total r l : (0 < length l <= 5)%nat -> representable 53 r -> r < units ->
  exists face, face ∈ l /\ getFaceBasedOnProbability r l = Some face.
Proof.
  intros Hl Hrep Hr. rewrite getFace_small by lia. apply small_loop_Some; [by destruct l; simpl in *; [lia|]|].
  etrans; [by apply below_one_max|]. apply Z.mul_le_mono_nonneg_r; [by apply Z.pow_nonneg|by apply small_totals].
Qed.

(** Drawing a face to probe. Every random number in [0, 1) selects one of at
    most five ranked faces; but the largest [double] below 1 is above the rounded
    sum of the probabilities of six faces, and then the assertion that some face is
    selected fails. *)
Theorem six_faces_probe_fails (faces few : list Z) r : length faces = 6%nat -> (0 < length few <= 5)%nat -> representable 53 r -> 0 <= r < units ->
  (exists face, face ∈ few /\ getFaceBasedOnProbability r few = Some face) /\
  (representable 53 below_one /\ below_one < units) /\ getFaceBasedOnProbability below_one faces = None.
Proof.
  intros H6 Hfew Hrep Hr. split_and!; [apply getFace_total; (done || lia)|apply below_one_repr..|].
  rewrite getFace_small by lia. rewrite H6.
  assert (forall x, (below_one <=? x * 2 ^ 1004) = ((2 ^ 53 - 1) * 2 ^ 17 <=? x)) as Hle.
  { intros x. assert (0 < 2 ^ 1004) by (by apply Z.pow_pos_nonneg). apply eq_true_iff_eq. rewrite !Z.leb_le. symmetry. by apply Z.mul_le_mono_pos_r. }
  do 6 (destruct faces as [|? faces]; [done|]). destruct faces; [|done]. cbn [small_loop]. rewrite !Hle. vm_compute. reflexivity.
Qed.

(** The order of the faces that could be probed. *)
Definition probes_before {C : Type} (lhs rhs : AsfFaceInfo C * Z) : bool :=
  (negb (isTimeout lhs.1) && isTimeout rhs.1) ||
  (Bool.eqb (isTimeout lhs.1) (isTimeout rhs.1) && (getSrtt lhs.1 <? getSrtt rhs.1)).

(** ** The strategy *)

(** The measurements, the scheduled probes with their times, and the
    configuration. *)
Record AsfStrategy {T C : Type} := mkAsf {
  asf_measurements : Measurements T;
  scheduledProbes : list (Z * list C);
  m_probingInterval : Z;
  m_maxSilentTimeouts : Z
}.
Arguments AsfStrategy : clear implicits.
Arguments mkAsf {_ _}.

Section Asf.
Context {C : Type} `{Packets C} `{!ScopePrefixes C} `{!NackReasons}.
Notation Name := (list C).
Notation Interest := (Interest C).
Notation AsfFaceInfo := (AsfFaceInfo C).
Notation NamespaceInfo := (NamespaceInfo C).
Notation MeasurementsEntry := (MeasurementsEntry C NamespaceInfo).
Notation Entry := (Entry C (FibEntry C) (PitEntry C) MeasurementsEntry (StrategyChoiceEntry C)).
Context {T : Type} `{!NodeTable C Entry newEntry T}.
Context (faceOf : Z -> FaceInfo) (refreshNonce : Interest -> Interest).
Notation Asf := (AsfStrategy T C).
Implicit Types (st : Measurements T) (asf : Asf) (n name prefix : Name) (interest : Interest) (fibEntry : FibEntry C)
  (pe : PitEntry C) (data : Data) (now self faceId inFace : Z) (fx : Fx (C:=C)).

Definition set_ms st asf : Asf := mkAsf st (scheduledProbes asf) (m_probingInterval asf) (m_maxSilentTimeouts asf).

(** The id of a face. *)
Notation id f := (f_id (faceOf f)).

(** *** Best face *)

Definition mayForward inFace interest (hop : NextHop) : bool :=
  negb (((id (nh_face hop) =? id inFace) && negb (bool_decide (f_linkType (faceOf (nh_face hop)) = LINK_TYPE_AD_HOC)))
        || wouldViolateScope faceOf inFace interest (nh_face hop)).

Definition stats_of (hop : NextHop) (info : option AsfFaceInfo) : FaceStats :=
  match info with
  | None => mkFaceStats (nh_face hop) RTT_NO_MEASUREMENT RTT_NO_MEASUREMENT (nh_cost hop)
  | Some info => mkFaceStats (nh_face hop) (getRtt info) (getSrtt info) (nh_cost hop)
  end.

Fixpoint rank_loop self now fibEntry interest inFace (hops : list NextHop) (rankedFaces : list FaceStats) st :
    option (Measurements T * list FaceStats) :=
  match hops with
  | [] => Some (st, rankedFaces)
  | hop :: hops =>
      if mayForward inFace interest hop then
        '(st, info) ← getFaceInfo self now fibEntry (i_name interest) (id (nh_face hop)) st;
        rank_loop self now fibEntry interest inFace hops (set_insert ranks_before (stats_of hop info) rankedFaces) st
      else rank_loop self now fibEntry interest inFace hops rankedFaces st
  end.

Definition getBestFaceForForwarding self now fibEntry interest inFace st : option (Measurements T * option Z) :=
  '(st, rankedFaces) ← rank_loop self now fibEntry interest inFace (m_nextHops fibEntry) [] st;
  Some (st, fs_face <$> head rankedFaces).

(** *** Probes *)

(** The interval is in milliseconds. *)
Definition scheduleProbe now fibEntry (interval : Z) asf : Asf :=
  mkAsf (asf_measurements asf) (scheduledProbes asf ++ [(now + interval * ms, fib_prefix fibEntry)])
    (m_probingInterval asf) (m_maxSilentTimeouts asf).

(** The scheduled function. *)
Definition onProbe self now prefix asf : option Asf :=
  '(st, info) ← getNamespaceInfo self now prefix (asf_measurements asf);
  Some (set_ms (match info with None => st | Some n => ns_write n (setIsProbingDue true) st end) asf).

Definition mayProbe inFace faceUsed interest (hop : NextHop) : bool :=
  negb ((id (nh_face hop) =? id inFace) || (id (nh_face hop) =? id faceUsed) ||
        wouldViolateScope faceOf inFace interest (nh_face hop)).

(** The loop of [getFaceToProbe]: a face to probe at once, or the ranked ones. *)
Fixpoint probe_loop self now fibEntry interest inFace faceUsed (hops : list NextHop) (rankedFaces : list (AsfFaceInfo * Z)) st :
    option (Measurements T * (Z + list (AsfFaceInfo * Z))) :=
  match hops with
  | [] => Some (st, inr rankedFaces)
  | hop :: hops =>
      if mayProbe inFace faceUsed interest hop then
        '(st, info) ← getFaceInfo self now fibEntry (i_name interest) (id (nh_face hop)) st;
        match info with
        | None => Some (st, inl (nh_face hop))
        | Some info =>
            if negb (hasSrttMeasurement info) then Some (st, inl (nh_face hop))
            else probe_loop self now fibEntry interest inFace faceUsed hops (set_insert probes_before (info, nh_face hop) rankedFaces) st
        end
      else probe_loop self now fibEntry interest inFace faceUsed hops rankedFaces st
  end.

(** [None] inside is a null pointer: there is no face to probe. *)
Definition getFaceToProbe self now (randomNumber : Z) inFace interest fibEntry faceUsed st : option (Measurements T * option Z) :=
  '(st, r) ← probe_loop self now fibEntry interest inFace faceUsed (m_nextHops fibEntry) [] st;
  match r with
  | inl face => Some (st, Some face)
  | inr [] => Some (st, None)
  | inr rankedFaces => face ← getFaceBasedOnProbability randomNumber rankedFaces.*2; Some (st, Some face)
  end.

(** [delay] is the random number between 0 and 5000. *)
Definition isProbingNeeded self now (delay : Z) fibEntry interest asf : option (Asf * bool) :=
  '(st, n) ← getOrCreateNamespaceInfo self now fibEntry (i_name interest) (asf_measurements asf);
  info ← ns_read n st;
  let asf := set_ms st asf in
  let asf := if negb (isFirstProbeScheduled info) then
      let interval := double_to_int delay in
      let asf := scheduleProbe now fibEntry interval asf in
      set_ms (ns_write n (setHasFirstProbeBeenScheduled true) (asf_measurements asf)) asf
    else asf in
  Some (asf, isProbingDue info).

Definition afterForwardingProbe self now fibEntry interest asf : option Asf :=
  '(st, n) ← getOrCreateNamespaceInfo self now fibEntry (i_name interest) (asf_measurements asf);
  let asf := set_ms (ns_write n (setIsProbingDue false) st) asf in
  Some (scheduleProbe now fibEntry (m_probingInterval asf) asf).

(** *** Triggers *)

(** The information is in the namespace of [n], and its lifetime is extended by
    the namespace of [n']. *)
Definition forwardInterest self now interest fibEntry outFace (wantNewNonce : bool) asf fx : option (Asf * Fx) :=
  let fx := onOutgoingInterest now outFace (if wantNewNonce then refreshNonce interest else interest) fx in
  '(st, n) ← getOrCreateFaceInfo self now fibEntry (i_name interest) (id outFace) (asf_measurements asf);
  '(st, n') ← getOrCreateNamespaceInfo self now fibEntry (i_name interest) st;
  let st := face_write n (id outFace) (extendFaceInfoLifetime now n' (id outFace)) st in
  faceInfo ← face_read n (id outFace) st;
  if negb (isTimeoutScheduled faceInfo) then
    let timeout := face_computeRto faceInfo in
    faceInfo ← setTimeoutEvent (now + timeout * us, (i_name interest, id outFace)) (i_name interest) faceInfo;
    Some (set_ms (face_write n (id outFace) (fun _ => faceInfo) st) asf, fx)
  else Some (set_ms st asf, fx).

Definition sendNoRouteNack inFace fx : option Fx := onOutgoingNack faceOf inFace REASON_NO_ROUTE fx.

(** [afterReceiveInterest] after the [switch]; [delay] and [randomNumber] are the
    random numbers that may be drawn. *)
Definition forwardAndProbe self now (delay randomNumber : Z) inFace interest fibEntry asf fx : option (Asf * Fx) :=
  if bool_decide (m_nextHops fibEntry = []) then
    fx ← sendNoRouteNack inFace fx; fx ← rejectPendingInterest now fx; Some (asf, fx)
  else
    '(st, faceToUse) ← getBestFaceForForwarding self now fibEntry interest inFace (asf_measurements asf);
    let asf := set_ms st asf in
    match faceToUse with
    | None => fx ← sendNoRouteNack inFace fx; fx ← rejectPendingInterest now fx; Some (asf, fx)
    | Some faceToUse =>
        '(asf, fx) ← forwardInterest self now interest fibEntry faceToUse false asf fx;
        '(asf, needed) ← isProbingNeeded self now delay fibEntry interest asf;
        if needed : bool then
          '(st, faceToProbe) ← getFaceToProbe self now randomNumber inFace interest fibEntry faceToUse (asf_measurements asf);
          let asf := set_ms st asf in
          match faceToProbe with
          | None => Some (asf, fx)
          | Some faceToProbe =>
              '(asf, fx) ← forwardInterest self now interest fibEntry faceToProbe true asf fx;
              asf ← afterForwardingProbe self now fibEntry interest asf;
              Some (asf, fx)
          end
        else Some (asf, fx)
    end.

Definition afterReceiveInterest self now (delay randomNumber : Z) inFace interest fibEntry asf fx : option (Asf * Fx) :=
  '(suppressResult, pe) ← decidePerPitEntry strategyRetx now (fx_pit fx);
  let fx := mkFx pe (fx_sent fx) in
  match suppressResult with
  | SUPPRESS => Some (asf, fx)
  | NEW | FORWARD => forwardAndProbe self now delay randomNumber inFace interest fibEntry asf fx
  end.

Definition beforeSatisfyInterest self now pe inFace data asf : option Asf :=
  '(st, namespaceInfo) ← getNamespaceInfo self now (i_name (m_interest pe)) (asf_measurements asf);
  match namespaceInfo with
  | None => Some (set_ms st asf)
  | Some n =>
      match face_read n (id inFace) st with
      | None => Some (set_ms st asf)
      | Some _ =>
          let st := face_write n (id inFace) (recordRtt now pe inFace) st in
          let st := face_write n (id inFace) (extendFaceInfoLifetime now n (id inFace)) st in
          let st := face_write n (id inFace)
            (fun faceInfo => if isTimeoutScheduled faceInfo then cancelTimeoutEvent (data_name data) faceInfo else faceInfo) st in
          Some (set_ms st asf)
      end
  end.

(** What [onTimeout] does to the information on the face. *)
Definition countTimeout now (maxSilentTimeouts : Z) n interestName faceId (faceInfo : AsfFaceInfo) : AsfFaceInfo :=
  let faceInfo := setNSilentTimeouts (u64 (nSilentTimeouts faceInfo + 1)) faceInfo in
  if nSilentTimeouts faceInfo <=? maxSilentTimeouts then
    let faceInfo := extendFaceInfoLifetime now n faceId faceInfo in
    if isTimeoutScheduled faceInfo then cancelTimeoutEvent interestName faceInfo else faceInfo
  else face_recordTimeout interestName faceInfo.

Definition onTimeout self now (interestName : Name) faceId asf : option Asf :=
  '(st, namespaceInfo) ← getNamespaceInfo self now interestName (asf_measurements asf);
  match namespaceInfo with
  | None => Some (set_ms st asf)
  | Some n =>
      let st := ns_write n (ns_insert faceId) st in
      Some (set_ms (face_write n faceId (countTimeout now (m_maxSilentTimeouts asf) n interestName faceId) st) asf)
  end.

Definition afterReceiveNack self now pe inFace asf : option Asf := onTimeout self now (i_name (m_interest pe)) (id inFace) asf.

(** *** Parameters *)

(** The bytes of a component, and Boost's [lexical_cast<uint64_t>], where [None]
    is [bad_lexical_cast]. *)
Section Params.
Context (value : C -> string) (lexical_cast : string -> option Z).

Definition getParamValue (v : string) : option Z :=
  match v with
  | String "-"%char _ => None
  | _ => lexical_cast v
  end.

(** One parameter; [None] is [std::invalid_argument]. *)
Definition processParam (component : C) asf : option Asf :=
  let parsedStr := value component in
  p ← index 0 "~" parsedStr;
  let f := substring 0 p parsedStr in
  let s := substring (p + 1) (String.length parsedStr) parsedStr in
  if (f =? "probing-interval")%string then
    x ← getParamValue s;
    interval ← setProbingInterval x;
    Some (mkAsf (asf_measurements asf) (scheduledProbes asf) interval (m_maxSilentTimeouts asf))
  else if (f =? "n-silent-timeouts")%string then
    x ← getParamValue s;
    Some (mkAsf (asf_measurements asf) (scheduledProbes asf) (m_probingInterval asf) x)
  else None.

Definition processParams (parsed : Name) asf : option Asf :=
  foldl (fun a component => asf ← a; processParam component asf) (Some asf) parsed.

(** The constructor: the strategy and its instance name. *)
Definition newAsfStrategy `{!NameOrder C} `{!NameVersions C} (strategyName name : Name) st : option (Asf * Name) :=
  let parsed := parseInstanceName name in
  asf ← processParams (parameters parsed) (mkAsf st [] DEFAULT_PROBING_INTERVAL 0);
  match version parsed, last strategyName with
  | Some v, Some v' => if toVersion v =? toVersion v' then iname ← makeInstanceName name strategyName; Some (asf, iname) else None
  | _, _ => iname ← makeInstanceName name strategyName; Some (asf, iname)
  end.
End Params.

(** ** What the operations do *)

Notation tree st := (nt_entries (ms_tree st)).
Notation choices st := (sc_view (tree st)).
Notation frame := (frame NamespaceInfo_typeId).
Notation opened := (opened NamespaceInfo_typeId).

(** The operations that only read leave all namespaces as they are. *)
Definition same st st' : Prop := frame st st' /\ forall k, namespace st' k = namespace st k.

Lemma same_refl st : env_ok st -> same st st.
Proof. intros Henv. split; [apply frame_refl, Henv|done]. Qed.

Lemma same_trans st1 st2 st3 : same st1 st2 -> same st2 st3 -> same st1 st3.
Proof. intros [Hf1 Hn1] [Hf2 Hn2]. split; [by eapply frame_trans|]. intros k. by rewrite Hn2. Qed.

Section Serving.
Context (self now : Z) (fibEntry : FibEntry C) (interest : Interest) (n : Name) (v : gmap Name (StrategyInstance C)).
Notation lifetime := (now + MEASUREMENTS_LIFETIME).

(** The strategy has its namespace for the Interest at [n]. *)
Definition serving st : Prop :=
  env_ok st /\ choices st = v /\ fib_known (fib_prefix fibEntry) st /\ namespaceOf self v (fib_prefix fibEntry) (i_name interest) = Some n.

Lemma serving_frame st st' : serving st -> frame st st' -> serving st'.
Proof.
  intros (Henv & Hv & Hk & Hn) Hf. split_and!; [by eapply frame_env|by rewrite (frame_choices _ _ Hf)|by eapply frame_known|done].
Qed.

Lemma serving_get st : serving st ->
  exists st', getOrCreateNamespaceInfo self now fibEntry (i_name interest) st = Some (st', n) /\ same st st' /\ opened n lifetime st' /\ serving st'.
Proof.
  intros Hs. pose proof Hs as (Henv & <- & Hk & Hn).
  pose proof (getOrCreateNamespaceInfo_ok self now fibEntry (i_name interest) st Henv Hk) as Hg. rewrite Hn in Hg.
  destruct Hg as (st' & -> & Hf & Hsame & Ho). exists st'. split_and!; [done|done|done|]. by apply (serving_frame st).
Qed.

Lemma serving_face st faceId : serving st ->
  exists st', getFaceInfo self now fibEntry (i_name interest) faceId st = Some (st', m_fit (namespace st n) !! faceId) /\ same st st' /\ serving st'.
Proof.
  intros Hs. unfold getFaceInfo. destruct (serving_get st Hs) as (st' & -> & Hsame & Ho & Hs'). cbn [mbind option_bind].
  rewrite (ns_read_ok n lifetime) by (done || apply Hs'). cbn [mbind option_bind]. exists st'.
  split_and!; [|done|done]. unfold ns_getFaceInfo. by destruct Hsame as [_ ->].
Qed.

(** *** Ranking *)

Notation faces st := (m_fit (namespace st n)).

Definition usable inFace : list NextHop := remove_if (fun hop => negb (mayForward inFace interest hop)) (m_nextHops fibEntry).

(** What is known of the next hops that can be used, in the order of the FIB. *)
Definition known_stats inFace (fit : gmap Z AsfFaceInfo) : list FaceStats :=
  (fun hop => stats_of hop (fit !! id (nh_face hop))) <$> usable inFace.

Lemma rank_loop_ok inFace hops : forall ranked st, serving st ->
  exists st', rank_loop self now fibEntry interest inFace hops ranked st =
      Some (st', foldl (fun l x => set_insert ranks_before x l) ranked
                   ((fun hop => stats_of hop (faces st !! id (nh_face hop))) <$> remove_if (fun hop => negb (mayForward inFace interest hop)) hops)) /\
    same st st' /\ serving st'.
Proof.
  induction hops as [|hop hops IH]; intros ranked st Hs; simpl.
  { exists st. split_and!; [done|apply same_refl, Hs|done]. }
  destruct (mayForward inFace interest hop) eqn:Em; simpl; [|by apply IH].
  destruct (serving_face st (id (nh_face hop)) Hs) as (st1 & -> & Hsame & Hs1). cbn [mbind option_bind].
  destruct (IH (set_insert ranks_before (stats_of hop (faces st !! id (nh_face hop))) ranked) st1 Hs1) as (st2 & -> & Hsame2 & Hs2).
  exists st2. split_and!; [|by eapply same_trans|done]. destruct Hsame as [_ ->]. done.
Qed.
Lemma getBestFace_ok inFace st : serving st ->
  exists st', getBestFaceForForwarding self now fibEntry interest inFace st =
      Some (st', fs_face <$> best ranks_before (known_stats inFace (faces st))) /\ same st st' /\ serving st'.
Proof.
  intros Hs. unfold getBestFaceForForwarding. destruct (rank_loop_ok inFace (m_nextHops fibEntry) [] st Hs) as (st' & -> & Hsame & Hs').
  cbn [mbind option_bind]. rewrite head_set. by exists st'.
Qed.

(** *** Probing *)

(** The faces that may be probed, up to the first one that was never measured. *)
Fixpoint probe_ranking (fit : gmap Z AsfFaceInfo) (inFace faceUsed : Z) (hops : list NextHop) (ranked : list (AsfFaceInfo * Z)) :
    Z + list (AsfFaceInfo * Z) :=
  match hops with
  | [] => inr ranked
  | hop :: hops =>
      if mayProbe inFace faceUsed interest hop then
        match fit !! id (nh_face hop) with
        | None => inl (nh_face hop)
        | Some info => if negb (hasSrttMeasurement info) then inl (nh_face hop)
                       else probe_ranking fit inFace faceUsed hops (set_insert probes_before (info, nh_face hop) ranked)
        end
      else probe_ranking fit inFace faceUsed hops ranked
  end.

Lemma probe_loop_ok inFace faceUsed hops : forall ranked st, serving st ->
  exists st', probe_loop self now fibEntry interest inFace faceUsed hops ranked st =
      Some (st', probe_ranking (faces st) inFace faceUsed hops ranked) /\ same st st' /\ serving st'.
Proof.
  induction hops as [|hop hops IH]; intros ranked st Hs; cbn [probe_loop probe_ranking].
  { exists st. split_and!; [done|apply same_refl, Hs|done]. }
  destruct (mayProbe inFace faceUsed interest hop); [|by apply IH].
  destruct (serving_face st (id (nh_face hop)) Hs) as (st1 & -> & Hsame & Hs1). cbn [mbind option_bind].
  destruct (faces st !! id (nh_face hop)) as [info|] eqn:Ef; [|by exists st1].
  destruct (negb (hasSrttMeasurement info)); [by exists st1|].
  destruct (IH (set_insert probes_before (info, nh_face hop) ranked) st1 Hs1) as (st2 & -> & Hsame2 & Hs2).
  exists st2. split_and!; [|by eapply same_trans|done]. destruct Hsame as [_ ->]. done.
Qed.

(** A next hop to which a probe may go. *)
Definition probe_target (inFace faceUsed : Z) (hops : list NextHop) (face : Z) : Prop :=
  exists hop, hop ∈ hops /\ mayProbe inFace faceUsed interest hop = true /\ face = nh_face hop.

Lemma probe_ranking_ok fit inFace faceUsed hops : forall ranked,
  match probe_ranking fit inFace faceUsed hops ranked with
  | inl face => probe_target inFace faceUsed hops face
  | inr l => (forall x, x ∈ l -> x ∈ ranked \/ probe_target inFace faceUsed hops x.2) /\
             (length l <= length ranked + length (remove_if (fun hop => negb (mayProbe inFace faceUsed interest hop)) hops))%nat
  end.
Proof.
  induction hops as [|hop hops IH]; intros ranked; simpl; [split; [auto|lia]|].
  assert (forall face, probe_target inFace faceUsed hops face -> probe_target inFace faceUsed (hop :: hops) face) as Hcons.
  { intros face (h & Hh & Hm & ->). exists h. split_and!; [by right|done|done]. }
  destruct (mayProbe inFace faceUsed interest hop) eqn:Em; simpl.
  - assert (probe_target inFace faceUsed (hop :: hops) (nh_face hop)) as Hhop by (exists hop; split_and!; [by left|done|done]).
    destruct (fit !! _) as [info|]; [|done]. destruct (negb _); [done|].
    pose proof (set_elems probes_before [(info, nh_face hop)] ranked) as He. pose proof (length_set probes_before [(info, nh_face hop)] ranked) as Hlen.
    simpl in He, Hlen. specialize (IH (set_insert probes_before (info, nh_face hop) ranked)).
    destruct (probe_ranking _ _ _ hops _) as [face|l]; [by apply Hcons|]. destruct IH as [Hin Hl]. split; [|lia].
    intros x [[Hx| ->%list_elem_of_singleton]%He|Hx]%Hin; auto.
  - specialize (IH ranked). destruct (probe_ranking _ _ _ hops _) as [face|l]; [by apply Hcons|].
    destruct IH as [Hin Hl]. split; [|lia]. intros x [Hx|Hx]%Hin; auto.
Qed.

(** The faces to choose from, when one is to be drawn. *)
Definition probe_draw (fit : gmap Z AsfFaceInfo) (inFace faceUsed : Z) : nat :=
  match probe_ranking fit inFace faceUsed (m_nextHops fibEntry) [] with inl _ => 0 | inr l => length l end.

Lemma getFaceToProbe_ok randomNumber inFace faceUsed st : serving st -> representable 53 randomNumber -> randomNumber < units ->
  (probe_draw (faces st) inFace faceUsed <= 5)%nat ->
  exists st' r, getFaceToProbe self now randomNumber inFace interest fibEntry faceUsed st = Some (st', r) /\ same st st' /\ serving st' /\
    forall face, r = Some face -> probe_target inFace faceUsed (m_nextHops fibEntry) face.
Proof.
  intros Hs Hrep Hr Hd. unfold getFaceToProbe, probe_draw in *.
  destruct (probe_loop_ok inFace faceUsed (m_nextHops fibEntry) [] st Hs) as (st' & -> & Hsame & Hs'). cbn [mbind option_bind].
  pose proof (probe_ranking_ok (faces st) inFace faceUsed (m_nextHops fibEntry) []) as Hp.
  destruct (probe_ranking _ _ _ _ _) as [face|l]; [exists st', (Some face); split_and!; [done..|by intros ? [= <-]]|].
  destruct l as [|x l]; [exists st', None; by split_and!|]. destruct Hp as [Hin _].
  destruct (getFace_total randomNumber (x :: l).*2) as (face & Hf & ->); [rewrite length_fmap; simpl in *; lia|done|done|].
  cbn [mbind option_bind]. exists st', (Some face). split_and!; [done..|]. intros ? [= <-].
  apply list_elem_of_fmap in Hf as (y & -> & Hy). by destruct (Hin y Hy) as [?%elem_of_nil|].
Qed.

(** *** Forwarding *)

(** The namespace of [n] has changed. *)
Definition updates (g : NamespaceInfo -> NamespaceInfo) st st' : Prop :=
  frame st st' /\ opened n lifetime st' /\ forall k, namespace st' k = if decide (k = n) then g (namespace st n) else namespace st k.

Lemma updates_serving g st st' : serving st -> updates g st st' -> serving st'.
Proof. intros Hs (Hf & _). by apply (serving_frame st). Qed.

Lemma same_updates g st st1 st2 : same st st1 -> updates g st1 st2 -> updates g st st2.
Proof.
  intros [Hf1 Hn1] (Hf2 & Ho & Hn2). split_and!; [by eapply frame_trans|done|]. intros k. rewrite Hn2. case_decide; by rewrite Hn1.
Qed.

Lemma updates_trans g h st st1 st2 : updates g st st1 -> updates h st1 st2 -> updates (h ∘ g) st st2.
Proof.
  intros (Hf1 & _ & Hn1) (Hf2 & Ho & Hn2). split_and!; [by eapply frame_trans|done|]. intros k. rewrite Hn2.
  case_decide as Hk; [|by rewrite Hn1, decide_False]. simpl. f_equal. by rewrite Hn1, decide_True.
Qed.

Lemma updates_same g st st1 st2 : updates g st st1 -> same st1 st2 -> updates g st st2.
Proof. intros (Hf1 & Ho & Hn1) [Hf2 Hn2]. split_and!; [by eapply frame_trans|by eapply opened_frame|]. intros k. by rewrite Hn2. Qed.

Lemma write_updates g st : serving st -> opened n lifetime st -> updates g st (ns_write n g st).
Proof. intros (Henv & _) Ho. by destruct (ns_write_ok n lifetime g st Henv Ho) as (? & ? & ?). Qed.

(** A face is used for the Interest: its information is kept, and a timeout is
    scheduled unless there is one. *)
Definition use_face faceId (fi : AsfFaceInfo) : AsfFaceInfo :=
  if isTimeoutScheduled fi then extendFaceInfoLifetime now n faceId fi
  else mkFaceInfo (rttStats fi) (i_name interest) (Some (lifetime, (n, faceId)))
         (Some (now + face_computeRto fi * us, (i_name interest, faceId))) true (nSilentTimeouts fi).

Definition ns_use faceId (ns : NamespaceInfo) : NamespaceInfo :=
  set_fit (<[faceId := use_face faceId (default newFaceInfo (m_fit ns !! faceId))]> (m_fit ns)) ns.

Lemma create_alter (g : AsfFaceInfo -> AsfFaceInfo) faceId ns : let ns' := ns_getOrCreateFaceInfo now n faceId ns in
  set_fit (alter g faceId (m_fit ns')) ns' =
  set_fit (<[faceId := g (default (extendFaceInfoLifetime now n faceId newFaceInfo) (m_fit ns !! faceId))]> (m_fit ns)) ns.
Proof.
  unfold ns_getOrCreateFaceInfo, set_fit. destruct (m_fit ns !! faceId) as [fi|] eqn:Ef; simpl; f_equal.
  - apply map_eq. intros k. rewrite lookup_alter, lookup_insert. repeat case_decide; subst; try done. by rewrite Ef.
  - rewrite alter_insert_eq. done.
Qed.

Lemma updates_ext g h st st' : (forall ns, g ns = h ns) -> updates g st st' -> updates h st st'.
Proof. intros Hgh (Hf & Ho & Hn). split_and!; [done|done|]. intros k. rewrite Hn. by rewrite Hgh. Qed.

Lemma forwardInterest_ok outFace (wantNewNonce : bool) asf fx : serving (asf_measurements asf) ->
  exists st', forwardInterest self now interest fibEntry outFace wantNewNonce asf fx =
      Some (set_ms st' asf, onOutgoingInterest now outFace (if wantNewNonce then refreshNonce interest else interest) fx) /\
    updates (ns_use (id outFace)) (asf_measurements asf) st' /\ serving st'.
Proof.
  intros Hs. set (f := id outFace). unfold forwardInterest, getOrCreateFaceInfo. fold f.
  destruct (serving_get _ Hs) as (st1 & -> & Hsame1 & Ho1 & Hs1). cbn [mbind option_bind].
  pose proof (write_updates (ns_getOrCreateFaceInfo now n f) st1 Hs1 Ho1) as Hu2. set (st2 := ns_write _ _ st1) in *.
  pose proof (updates_serving _ _ _ Hs1 Hu2) as Hs2.
  destruct (serving_get st2 Hs2) as (st3 & -> & Hsame3 & Ho3 & Hs3). cbn [mbind option_bind].
  pose proof (updates_same _ _ _ _ Hu2 Hsame3) as Hu3.
  pose proof (write_updates (fun ns => set_fit (alter (extendFaceInfoLifetime now n f) f (m_fit ns)) ns) st3 Hs3 Ho3) as Hu4.
  fold (face_write n f (extendFaceInfoLifetime now n f) st3) in Hu4. set (st4 := face_write n f _ st3) in *.
  pose proof (updates_serving _ _ _ Hs3 Hu4) as Hs4. pose proof (same_updates _ _ _ _ Hsame1 (updates_trans _ _ _ _ _ Hu3 Hu4)) as Hu.
  apply (updates_ext _ (fun ns => set_fit (<[f := extendFaceInfoLifetime now n f (default newFaceInfo (m_fit ns !! f))]> (m_fit ns)) ns)) in Hu.
  2: { intros ns. simpl. rewrite create_alter. by destruct (m_fit ns !! f). }
  pose proof Hu as (_ & Ho4 & Hn4). rewrite (face_read_ok n lifetime) by (done || apply Hs4). rewrite Hn4, decide_True by done.
  cbn [m_fit set_fit]. rewrite lookup_insert_eq. cbn [mbind option_bind]. set (fi := default newFaceInfo _) in *.
  change (isTimeoutScheduled (extendFaceInfoLifetime now n f fi)) with (isTimeoutScheduled fi).
  assert (forall h st', updates h (asf_measurements asf) st' -> m_fit (h (namespace (asf_measurements asf) n)) = <[f := use_face f fi]> (m_fit (namespace (asf_measurements asf) n)) ->
    (forall ns, set_fit (m_fit (h ns)) ns = h ns) -> updates (ns_use f) (asf_measurements asf) st') as Hend.
  { intros h st' (Hf & Ho & Hn) Hfit Hh. split_and!; [done|done|]. intros k. rewrite Hn. case_decide; [|done].
    rewrite <-Hh, Hfit. done. }
  destruct (isTimeoutScheduled fi) eqn:Et; cbn [negb].
  - exists st4. split_and!; [done| |done]. eapply Hend; [done| |done]. simpl. fold fi. unfold use_face. by rewrite Et.
  - unfold setTimeoutEvent. cbn [isTimeoutScheduled extendFaceInfoLifetime set_expiration]. rewrite Et. cbn [mbind option_bind].
    set (fi' := mkFaceInfo _ _ _ _ _ _).
    pose proof (write_updates (fun ns => set_fit (alter (fun _ => fi') f (m_fit ns)) ns) st4 Hs4 Ho4) as Hu5.
    pose proof (updates_trans _ _ _ _ _ Hu Hu5) as Hu6. eexists. split_and!; [done| |by eapply updates_serving].
    eapply Hend; [done| |done]. simpl. rewrite alter_insert_eq. unfold use_face. rewrite Et. done.
Qed.

Lemma isProbingNeeded_ok delay asf : serving (asf_measurements asf) ->
  exists asf', isProbingNeeded self now delay fibEntry interest asf = Some (asf', isProbingDue (namespace (asf_measurements asf) n)) /\
    updates (setHasFirstProbeBeenScheduled true) (asf_measurements asf) (asf_measurements asf') /\ serving (asf_measurements asf') /\
    m_probingInterval asf' = m_probingInterval asf /\ m_maxSilentTimeouts asf' = m_maxSilentTimeouts asf /\
    scheduledProbes asf' = scheduledProbes asf ++
      (if isFirstProbeScheduled (namespace (asf_measurements asf) n) then [] else [(now + double_to_int delay * ms, fib_prefix fibEntry)]).
Proof.
  intros Hs. unfold isProbingNeeded. destruct (serving_get _ Hs) as (st1 & -> & Hsame1 & Ho1 & Hs1). cbn [mbind option_bind].
  rewrite (ns_read_ok n lifetime) by (done || apply Hs1). cbn [mbind option_bind]. destruct Hsame1 as [Hf1 Hn1]. rewrite Hn1.
  destruct (isFirstProbeScheduled (namespace (asf_measurements asf) n)) eqn:Ep; cbn [negb].
  - eexists. split_and!; [done| |done|done|done|by rewrite app_nil_r]. split_and!; [done|done|]. simpl. intros k. rewrite Hn1.
    case_decide; [subst k|done]. destruct (namespace _ n). simpl in *. by subst.
  - pose proof (write_updates (setHasFirstProbeBeenScheduled true) st1 Hs1 Ho1) as Hu.
    eexists. split_and!; [done| |by apply (updates_serving _ _ _ Hs1 Hu)|done..]. by apply (same_updates _ _ st1).
Qed.

Lemma afterForwardingProbe_ok asf : serving (asf_measurements asf) ->
  exists asf', afterForwardingProbe self now fibEntry interest asf = Some asf' /\
    updates (setIsProbingDue false) (asf_measurements asf) (asf_measurements asf') /\ serving (asf_measurements asf') /\
    m_probingInterval asf' = m_probingInterval asf /\ m_maxSilentTimeouts asf' = m_maxSilentTimeouts asf /\
    scheduledProbes asf' = scheduledProbes asf ++ [(now + m_probingInterval asf * ms, fib_prefix fibEntry)].
Proof.
  intros Hs. unfold afterForwardingProbe. destruct (serving_get _ Hs) as (st1 & -> & Hsame1 & Ho1 & Hs1). cbn [mbind option_bind].
  pose proof (write_updates (setIsProbingDue false) st1 Hs1 Ho1) as Hu.
  eexists. split_and!; [done| |by apply (updates_serving _ _ _ Hs1 Hu)|done..]. by apply (same_updates _ _ st1).
Qed.

Lemma known_stats_face inFace fit x : x ∈ known_stats inFace fit ->
  exists hop, hop ∈ m_nextHops fibEntry /\ mayForward inFace interest hop = true /\ fs_face x = nh_face hop /\ fs_cost x = nh_cost hop.
Proof.
  intros (hop & -> & [Hin Hm]%elem_of_remove_if)%list_elem_of_fmap. exists hop. apply negb_false_iff in Hm.
  unfold stats_of. by case_match.
Qed.

Lemma remove_if_shorter {A} (q : A -> bool) l x : x ∈ l -> q x = true -> (length (remove_if q l) < length l)%nat.
Proof.
  assert (forall l, (length (remove_if q l) <= length l)%nat) as Hle by (intros l'; apply sublist_length, remove_if_sublist).
  intros Hx Hq. induction l as [|y l IH]; simpl; [by apply elem_of_nil in Hx|]. apply elem_of_cons in Hx as [->|Hx].
  - rewrite Hq. specialize (Hle l). lia.
  - specialize (IH Hx). specialize (Hle l). destruct (q y); simpl; lia.
Qed.

(** At most six next hops: at most five faces to draw from. *)
Lemma probe_draw_le fit inFace faceUsed : (length (m_nextHops fibEntry) <= 6)%nat ->
  (exists hop, hop ∈ m_nextHops fibEntry /\ faceUsed = nh_face hop) -> (probe_draw fit inFace faceUsed <= 5)%nat.
Proof.
  intros Hl (hop & Hhop & ->). unfold probe_draw. pose proof (probe_ranking_ok fit inFace (nh_face hop) (m_nextHops fibEntry) []) as Hp.
  destruct (probe_ranking _ _ _ _ _) as [face|l]; [lia|]. destruct Hp as [_ Hp]. simpl in Hp.
  pose proof (remove_if_shorter (fun hop' => negb (mayProbe inFace (nh_face hop) interest hop')) (m_nextHops fibEntry) hop Hhop) as Hs.
  assert (negb (mayProbe inFace (nh_face hop) interest hop) = true) as Hm by (unfold mayProbe; by rewrite Z.eqb_refl, orb_true_r, negb_involutive).
  specialize (Hs Hm). lia.
Qed.

(** What an Interest that is not suppressed leads to: the chosen face, the packets
    sent, and the state after it. *)
Definition forwarded inFace asf fx (asf' : Asf) (fx' : Fx (C:=C)) : Prop :=
  let st := asf_measurements asf in
  match best ranks_before (known_stats inFace (faces st)) with
  | None =>
      fx_sent fx' = fx_sent fx ++ option_list (nackTo faceOf (fx_pit fx) REASON_NO_ROUTE inFace) /\ expiryTimer (fx_pit fx') = Some now /\
      same st (asf_measurements asf')
  | Some x =>
      exists probe : option Z,
        fx_sent fx' = fx_sent fx ++ SendInterest (fs_face x) interest :: ((fun face => SendInterest face (refreshNonce interest)) <$> option_list probe) /\
        (forall face, probe = Some face -> isProbingDue (namespace st n) = true /\ probe_target inFace (fs_face x) (m_nextHops fibEntry) face) /\
        updates (fun ns => let ns := setHasFirstProbeBeenScheduled true (ns_use (id (fs_face x)) ns) in
                           match probe with None => ns | Some face => setIsProbingDue false (ns_use (id face) ns) end) st (asf_measurements asf')
  end.

Lemma reject_ok inFace asf fx : pe_ok (fx_pit fx) ->
  exists fx', (fx ← sendNoRouteNack inFace fx; fx ← rejectPendingInterest now fx; Some (asf, fx)) = Some (asf, fx') /\
    fx_sent fx' = fx_sent fx ++ option_list (nackTo faceOf (fx_pit fx) REASON_NO_ROUTE inFace) /\ expiryTimer (fx_pit fx') = Some now.
Proof.
  intros Hpe. unfold sendNoRouteNack. rewrite onOutgoingNack_ok by done. cbn [mbind option_bind].
  eexists. split; [done|]. split; [done|]. simpl. f_equal. lia.
Qed.

Lemma forwardAndProbe_ok delay randomNumber inFace asf fx : serving (asf_measurements asf) -> pe_ok (fx_pit fx) ->
  representable 53 randomNumber -> randomNumber < units -> (length (m_nextHops fibEntry) <= 6)%nat ->
  exists asf' fx', forwardAndProbe self now delay randomNumber inFace interest fibEntry asf fx = Some (asf', fx') /\
    serving (asf_measurements asf') /\ forwarded inFace asf fx asf' fx' /\
    forall x, x ∈ scheduledProbes asf' -> x ∈ scheduledProbes asf \/ x.2 = fib_prefix fibEntry.
Proof.
  intros Hs Hpe Hrep Hr Hl. unfold forwardAndProbe, forwarded. case_bool_decide as Hnil.
  { destruct (reject_ok inFace asf fx Hpe) as (fx' & -> & Hsent & Ht). exists asf, fx'. split_and!; [done|done| |auto].
    unfold known_stats, usable. rewrite Hnil. simpl. split_and!; [done|done|apply same_refl, Hs]. }
  destruct (getBestFace_ok inFace _ Hs) as (st1 & -> & Hsame1 & Hs1). cbn [mbind option_bind].
  destruct (best ranks_before _) as [x|] eqn:Eb; cbn [fmap option_fmap option_map].
  2: { destruct (reject_ok inFace (set_ms st1 asf) fx Hpe) as (fx' & -> & Hsent & Ht). exists (set_ms st1 asf), fx'. split_and!; [done..|auto]. }
  destruct (forwardInterest_ok (fs_face x) false (set_ms st1 asf) fx Hs1) as (st2 & -> & Hu2 & Hs2). cbn [mbind option_bind].
  apply (same_updates _ _ _ _ Hsame1) in Hu2.
  destruct (isProbingNeeded_ok delay (set_ms st2 (set_ms st1 asf)) Hs2) as (asf3 & -> & Hu3 & Hs3 & Hi3 & _ & Hp3). cbn [mbind option_bind].
  assert (forall x, x ∈ scheduledProbes asf3 -> x ∈ scheduledProbes asf \/ x.2 = fib_prefix fibEntry) as Hp.
  { intros x'. rewrite Hp3. destruct (isFirstProbeScheduled _); [rewrite app_nil_r; auto|]. intros [?| ->%list_elem_of_singleton]%elem_of_app; auto. }
  pose proof (updates_trans _ _ _ _ _ Hu2 Hu3) as Hu. cbn [asf_measurements set_ms] in *.
  assert (isProbingDue (namespace st2 n) = isProbingDue (namespace (asf_measurements asf) n)) as ->.
  { destruct Hu2 as (_ & _ & ->). by rewrite decide_True. }
  destruct (isProbingDue (namespace (asf_measurements asf) n)) eqn:Ed.
  2: { exists asf3, (onOutgoingInterest now (fs_face x) interest fx). split_and!; [done|done| |done]. exists None. split_and!; [done|done|exact Hu]. }
  assert (exists hop, hop ∈ m_nextHops fibEntry /\ fs_face x = nh_face hop) as Hhop.
  { destruct (best_first ranks_before ranks_trans ranks_weak _ _ Eb) as (l1 & l2 & Hl12 & _).
    destruct (known_stats_face inFace (faces (asf_measurements asf)) x) as (hop & Hin & _ & Hf & _); [|by exists hop].
    rewrite Hl12. apply elem_of_app. right. by left. }
  destruct (getFaceToProbe_ok randomNumber inFace (fs_face x) (asf_measurements asf3) Hs3 Hrep Hr) as (st4 & r & -> & Hsame4 & Hs4 & Htarget).
  { by apply probe_draw_le. }
  cbn [mbind option_bind]. destruct r as [face|].
  - destruct (forwardInterest_ok face true (set_ms st4 asf3) (onOutgoingInterest now (fs_face x) interest fx) Hs4) as (st5 & -> & Hu5 & Hs5).
    cbn [mbind option_bind]. destruct (afterForwardingProbe_ok (set_ms st5 (set_ms st4 asf3)) Hs5) as (asf6 & -> & Hu6 & Hs6 & _ & _ & Hp6).
    cbn [mbind option_bind]. eexists asf6, _. split_and!; [done|done| |rewrite Hp6; intros x' [?| ->%list_elem_of_singleton]%elem_of_app; auto].
    exists (Some face). split_and!.
    + simpl. rewrite <-app_assoc. done.
    + intros ? [= <-]. auto.
    + apply (same_updates _ _ _ _ Hsame4) in Hu5. exact (updates_trans _ _ _ _ _ (updates_trans _ _ _ _ _ Hu Hu5) Hu6).
  - eexists _, _. split_and!; [done|done| |done]. exists None. split_and!; [done|done|exact (updates_same _ _ _ _ Hu Hsame4)].
Qed.

End Serving.

(** C13: how ASF handles an Interest, when it is in charge of the name, the FIB
    entry is of a prefix of the name and has at most six next hops: no assertion
    fails, whatever random numbers below 1 are drawn. A suppressed Interest changes
    nothing. Otherwise the Interest goes to the usable next hop that is ranked
    first: no usable next hop has a smaller value, or the same value and a smaller
    cost, and those before it in the FIB are all ranked strictly after it. If and
    only if there is no usable next hop, a Nack is sent and the Interest rejected.
    When a probe is due, at most one copy with a new nonce goes to another next
    hop, neither the incoming nor the chosen one; probing is then no longer due.
    Every face that is used gets a timeout unless it has one, and all is recorded
    in one namespace, which is kept for at least five minutes more. *)
Theorem asf_forwards self now delay randomNumber inFace interest fibEntry asf fx :
  env_ok (asf_measurements asf) -> fib_known (fib_prefix fibEntry) (asf_measurements asf) ->
  fib_prefix fibEntry `prefix_of` i_name interest -> inCharge self (choices (asf_measurements asf)) (i_name interest) = true ->
  pe_ok (fx_pit fx) -> representable 53 randomNumber -> randomNumber < units -> (length (m_nextHops fibEntry) <= 6)%nat ->
  exists n r pe asf' fx', namespaceOf self (choices (asf_measurements asf)) (fib_prefix fibEntry) (i_name interest) = Some n /\
    decidePerPitEntry strategyRetx now (fx_pit fx) = Some (r, pe) /\
    afterReceiveInterest self now delay randomNumber inFace interest fibEntry asf fx = Some (asf', fx') /\
    env_ok (asf_measurements asf') /\
    match r with
    | SUPPRESS => asf' = asf /\ fx_sent fx' = fx_sent fx
    | _ => forwarded now fibEntry interest n inFace asf (mkFx pe (fx_sent fx)) asf' fx'
    end /\
    let known := known_stats fibEntry interest inFace (m_fit (namespace (asf_measurements asf) n)) in
    (best ranks_before known = None <-> usable fibEntry interest inFace = []) /\
    forall x, best ranks_before known = Some x ->
      exists l1 l2, known = l1 ++ x :: l2 /\ (forall y, y ∈ l1 -> ranks_before x y = true) /\ (forall y, y ∈ l2 -> ranks_before y x = false).
Proof.
  intros Henv Hk Hp Hc Hpe Hrep Hr Hl. destruct (namespaceOf_found _ _ _ _ Hp Hc) as [n Hn].
  assert (serving self fibEntry interest n (choices (asf_measurements asf)) (asf_measurements asf)) as Hs by done.
  destruct (decidePerPitEntry_total strategyRetx now (fx_pit fx)) as (r & pe & Hd).
  assert (pe_ok pe) as Hpe' by (apply decidePerPitEntry_frame in Hd as [h ->]; exact Hpe).
  destruct (forwardAndProbe_ok self now fibEntry interest n _ delay randomNumber inFace asf (mkFx pe (fx_sent fx)) Hs Hpe' Hrep Hr Hl)
    as (asf' & fx' & Hf & Hs' & Hfw & _).
  assert (exists asf' fx', afterReceiveInterest self now delay randomNumber inFace interest fibEntry asf fx = Some (asf', fx') /\
    env_ok (asf_measurements asf') /\
    match r with SUPPRESS => asf' = asf /\ fx_sent fx' = fx_sent fx
    | _ => forwarded now fibEntry interest n inFace asf (mkFx pe (fx_sent fx)) asf' fx' end) as (asf1 & fx1 & Ha1 & Ha2 & Ha3).
  { unfold afterReceiveInterest. rewrite Hd. cbn [mbind option_bind]. destruct r; try (exists asf', fx'; split_and!; [done|apply Hs'|done]).
    eexists asf, _. done. }
  exists n, r, pe, asf1, fx1. split_and!; [done|done|done|done|exact Ha3|]. cbv zeta. split.
  - rewrite best_None. unfold known_stats. by destruct (usable fibEntry interest inFace).
  - apply (best_first ranks_before ranks_trans ranks_weak).
Qed.

(** With a forwarding hint the FIB entry is that of a delegation. If it has at
    least as many components as the Interest's name, and another strategy is in
    charge of it, ASF finds no namespace, and the assertion that it has one fails,
    for every Interest that it would forward. *)
Theorem asf_hint_fails self now delay randomNumber inFace interest fibEntry asf fx r pe :
  env_ok (asf_measurements asf) -> fib_known (fib_prefix fibEntry) (asf_measurements asf) ->
  inCharge self (choices (asf_measurements asf)) (i_name interest) = true ->
  inCharge self (choices (asf_measurements asf)) (fib_prefix fibEntry) = false ->
  (length (i_name interest) <= length (fib_prefix fibEntry))%nat ->
  decidePerPitEntry strategyRetx now (fx_pit fx) = Some (r, pe) -> r <> SUPPRESS -> usable fibEntry interest inFace <> [] ->
  afterReceiveInterest self now delay randomNumber inFace interest fibEntry asf fx = None.
Proof.
  intros Henv Hk _ Hc Hl Hd Hr Hu. unfold afterReceiveInterest. rewrite Hd. cbn [mbind option_bind].
  assert (forall st, env_ok st -> choices st = choices (asf_measurements asf) -> fib_known (fib_prefix fibEntry) st ->
    getOrCreateNamespaceInfo self now fibEntry (i_name interest) st = None) as Hnone.
  { intros st Henv' Hch Hk'. pose proof (getOrCreateNamespaceInfo_ok self now fibEntry (i_name interest) st Henv' Hk') as Hg.
    unfold namespaceOf, candidates in Hg. replace (length (i_name interest) - length (fib_prefix fibEntry))%nat with 0%nat in Hg by lia.
    simpl in Hg. by rewrite Hch, Hc in Hg. }
  assert (forall hops ranked, remove_if (fun hop => negb (mayForward inFace interest hop)) hops <> [] ->
    rank_loop self now fibEntry interest inFace hops ranked (asf_measurements asf) = None) as Hloop.
  { induction hops as [|hop hops IH]; intros ranked Hne; [done|]. simpl in *. destruct (mayForward inFace interest hop); simpl in *; [|by apply IH].
    unfold getFaceInfo. by rewrite Hnone. }
  assert (forwardAndProbe self now delay randomNumber inFace interest fibEntry asf (mkFx pe (fx_sent fx)) = None) as Hf; [|by destruct r].
  unfold forwardAndProbe, getBestFaceForForwarding. rewrite bool_decide_false, Hloop by (done || (intros E0; unfold usable in Hu; by rewrite E0 in Hu)). done.
Qed.

End Asf.
