(* ===== verification/AsfRuns.v ===== *)
(** * Runs of the ASF strategy

    Everything that happens to the state of [daemon/fw/asf-strategy.cpp]: Interests,
    Data, Nacks, its timers, the timers of the measurements table, and what other
    strategies and tables do to the measurements. Every value of the state is of
    its kind in every run, and nothing that is allowed fails. *)

From S2P Require Import Prelude Fp Ndn Hashtable NameTree Fib Pit Measurements StrategyRegistry StrategyChoice StrategyItems FwAlgorithm RttEstimator AsfMeasurements Strategy Asf.
Local Open Scope Z_scope.

Section Runs.
Context {C : Type} `{Packets C} `{!ScopePrefixes C} `{!NackReasons}.
Notation Name := (list C).
Notation Interest := (Interest C).
Notation AsfFaceInfo := (AsfFaceInfo C).
Notation NamespaceInfo := (NamespaceInfo C).
Notation MeasurementsEntry := (MeasurementsEntry C NamespaceInfo).
Notation Entry := (Entry C (FibEntry C) (PitEntry C) MeasurementsEntry (StrategyChoiceEntry C)).
Context {T : Type} `{!NodeTable C Entry newEntry T}.
Context (faceOf : Z -> FaceInfo) (refreshNonce : Interest -> Interest).
Notation Asf := (AsfStrategy T C).
Notation id f := (f_id (faceOf f)).
Notation tree st := (nt_entries (ms_tree st)).
Notation choices st := (sc_view (tree st)).
Notation frame := (frame NamespaceInfo_typeId).
Notation opened := (opened NamespaceInfo_typeId).
Implicit Types (st : Measurements T) (asf : Asf) (n name prefix : Name) (interest : Interest) (fibEntry : FibEntry C)
  (pe : PitEntry C) (data : Data) (now self faceId inFace : Z) (fx : Fx (C:=C)) (fi : AsfFaceInfo) (ns : NamespaceInfo).

(** Round trip times are between [lo] and [hi] microseconds. *)
Context (lo hi : Z) (lo_hi : 0 <= lo <= hi) (hi_small : hi < 2 ^ 32).

(** ** The invariant *)

(** What is kept of a face of the namespace on an entry that expires at [expiry]:
    its own events only, the expiration not after the entry's; a timeout that is
    pending is known to be scheduled; and values of their kinds. *)
Record fi_ok n faceId (expiry : Z) fi : Prop := {
  fi_expiration due ev : measurementExpiration fi = Some (due, ev) -> ev = (n, faceId) /\ due <= expiry;
  fi_timeout due ev : timeoutEvent fi = Some (due, ev) -> isTimeoutScheduled fi = true /\ ev = (lastInterestName fi, faceId);
  fi_stats : stats_ok lo hi (rttStats fi);
  fi_multiplier : m_multiplier (st_rttEstimator (rttStats fi)) = 1;
  fi_silent : 0 <= nSilentTimeouts fi < 2 ^ 64
}.

Definition ns_ok n (expiry : Z) ns : Prop := map_Forall (fun faceId fi => fi_ok n faceId expiry fi) (m_fit ns).

Definition asf_inv st : Prop := env_ok st /\ forall n me, ms_map st !! n = Some me -> ns_ok n (me_expiry me) (item_of NamespaceInfo_typeId newNamespaceInfo me).

Lemma fi_ok_mono n faceId e e' fi : e <= e' -> fi_ok n faceId e fi -> fi_ok n faceId e' fi.
Proof. intros Hle [Hx Ht Hs Hm Hn]. constructor; [|done..]. intros due ev [-> ?]%Hx. split; [done|lia]. Qed.

Lemma ns_ok_mono n e e' ns : e <= e' -> ns_ok n e ns -> ns_ok n e' ns.
Proof. intros Hle Hns f fi Hf. eapply fi_ok_mono; [done|by apply Hns]. Qed.

Lemma new_ns_ok n e : ns_ok n e newNamespaceInfo.
Proof. apply map_Forall_empty. Qed.

Lemma new_fi_ok n faceId e : fi_ok n faceId e newFaceInfo.
Proof. constructor; simpl; [done|done|apply newRttStats_ok|done|lia]. Qed.

Lemma namespace_entry st n me : ms_map st !! n = Some me -> namespace st n = item_of NamespaceInfo_typeId newNamespaceInfo me.
Proof. intros Hme. unfold item. by rewrite Hme. Qed.

(** Entries stay, with other namespaces that are right. *)
Lemma frame_inv st st' : asf_inv st -> frame st st' ->
  (forall n me', ms_map st' !! n = Some me' -> ns_ok n (me_expiry me') (namespace st n) -> ns_ok n (me_expiry me') (namespace st' n)) -> asf_inv st'.
Proof.
  intros [Henv Hinv] Hf Hns. split; [by eapply frame_env|]. intros n me' Hme'. rewrite <-(namespace_entry st' n me') by done.
  apply (Hns n me'); [done|]. destruct (ms_map st !! n) as [me|] eqn:Hme.
  - destruct Hf as (_ & _ & Hk). destruct (Hk n me Hme) as (me1 & ? & Hle & _). simplify_eq.
    rewrite (namespace_entry st n me) by done. eapply ns_ok_mono; [done|by apply Hinv].
  - unfold item. rewrite Hme. apply new_ns_ok.
Qed.

Lemma same_inv st st' : asf_inv st -> same st st' -> asf_inv st'.
Proof. intros Hinv [Hf Hn]. apply (frame_inv st); [done|done|]. intros n me' _. by rewrite Hn. Qed.

Lemma updates_inv now n g st st' : asf_inv st -> updates now n g st st' ->
  (forall e, now + MEASUREMENTS_LIFETIME <= e -> ns_ok n e (namespace st n) -> ns_ok n e (g (namespace st n))) -> asf_inv st'.
Proof.
  intros Hinv (Hf & (me & Hme & _ & Hle) & Hn) Hg. apply (frame_inv st); [done|done|]. intros k me' Hk. rewrite Hn.
  case_decide; [subst k; simplify_eq; by apply Hg|done].
Qed.

(** ** What happens to a face *)

Notation lifetime now := (now + MEASUREMENTS_LIFETIME).

Lemma extend_face_ok now n faceId e fi : lifetime now <= e -> fi_ok n faceId e fi -> fi_ok n faceId e (extendFaceInfoLifetime now n faceId fi).
Proof. intros Hle [_ Ht Hs Hm Hn]. constructor; simpl; [|done..]. intros due ev [= <- <-]. done. Qed.

Lemma cancel_ok name n faceId e fi : fi_ok n faceId e fi -> fi_ok n faceId e (cancelTimeoutEvent name fi).
Proof. intros [Hx Ht Hs Hm Hn]. unfold cancelTimeoutEvent. case_match; [|done]. by constructor. Qed.

Lemma stats_set_ok s n faceId e fi : stats_ok lo hi s -> m_multiplier (st_rttEstimator s) = 1 -> fi_ok n faceId e fi -> fi_ok n faceId e (set_stats s fi).
Proof. intros Hs' Hm' [Hx Ht Hs Hm Hn]. by constructor. Qed.

Lemma use_face_ok now interest n faceId e fi : lifetime now <= e -> fi_ok n faceId e fi -> fi_ok n faceId e (use_face now interest n faceId fi).
Proof.
  intros Hle Hfi. unfold use_face. destruct (isTimeoutScheduled fi); [by apply extend_face_ok|]. destruct Hfi as [Hx Ht Hs Hm Hn].
  constructor; simpl; [|by intros due ev [= <- <-]|done..]. intros due ev [= <- <-]. done.
Qed.

(** The Data answers an Interest sent between [lo] and [hi] microseconds ago. *)
Definition answered_in_time now pe inFace : Prop :=
  forall r, getOutRecord inFace pe = Some r -> lo <= Z.quot (now - out_lastRenewed r) 1000 <= hi.

Lemma recordRtt_ok now pe inFace n faceId e fi : answered_in_time now pe inFace -> fi_ok n faceId e fi -> fi_ok n faceId e (recordRtt now pe inFace fi).
Proof.
  intros Hans Hfi. unfold recordRtt. destruct (getOutRecord inFace pe) as [r|] eqn:Er; [|done].
  apply stats_set_ok; [apply addRttMeasurement_ok; [done|done|exact (Hans r Er)|apply Hfi]| |done].
  unfold addRttMeasurement, addMeasurement. simpl. by destruct (0 <? _).
Qed.

Lemma countTimeout_ok now maxSilent name n faceId e fi : lifetime now <= e -> fi_ok n faceId e fi -> fi_ok n faceId e (countTimeout now maxSilent n name faceId fi).
Proof.
  intros Hle Hfi. unfold countTimeout. set (fi1 := setNSilentTimeouts _ fi).
  assert (fi_ok n faceId e fi1) as Hfi1 by (destruct Hfi as [Hx Ht Hs Hm Hn]; constructor; simpl; [done..|apply u64_range]).
  case_match.
  - pose proof (extend_face_ok now n faceId e fi1 Hle Hfi1) as He. case_match; [by apply cancel_ok|done].
  - unfold face_recordTimeout. apply cancel_ok, stats_set_ok; [apply recordTimeout_ok, Hfi1|apply Hfi1|done].
Qed.

Lemma timeout_fired_ok n faceId e fi : fi_ok n faceId e fi -> fi_ok n faceId e (timeout_fired fi).
Proof. intros [Hx Ht Hs Hm Hn]. by constructor. Qed.

Lemma alter_ns_ok n e (g : AsfFaceInfo -> AsfFaceInfo) faceId ns :
  (forall fi, fi_ok n faceId e fi -> fi_ok n faceId e (g fi)) -> ns_ok n e ns -> ns_ok n e (set_fit (alter g faceId (m_fit ns)) ns).
Proof.
  intros Hg Hns f fi. simpl. rewrite lookup_alter. case_decide; [subst f|by apply Hns].
  destruct (m_fit ns !! faceId) as [fi0|] eqn:E0; [|done]. intros [= <-]. by apply Hg, Hns.
Qed.

Lemma insert_ns_ok n e faceId fi ns : fi_ok n faceId e fi -> ns_ok n e ns -> ns_ok n e (set_fit (<[faceId := fi]> (m_fit ns)) ns).
Proof. intros Hfi Hns. by apply map_Forall_insert_2. Qed.

Lemma ns_use_ok now interest n faceId e ns : lifetime now <= e -> ns_ok n e ns -> ns_ok n e (ns_use now interest n faceId ns).
Proof.
  intros Hle Hns. apply insert_ns_ok; [|done]. apply use_face_ok; [done|].
  destruct (m_fit ns !! faceId) as [fi|] eqn:E0; [by apply Hns|apply new_fi_ok].
Qed.

Lemma ns_insert_ok n e faceId ns : ns_ok n e ns -> ns_ok n e (ns_insert faceId ns).
Proof. intros Hns. unfold ns_insert. case_match; [done|]. apply insert_ns_ok; [apply new_fi_ok|done]. Qed.

Lemma expire_ns_ok n e faceId ns : ns_ok n e ns -> ns_ok n e (expireFaceInfo faceId ns).
Proof. intros Hns. by apply map_Forall_delete. Qed.

(** ** Events *)

Inductive AsfEvent :=
  | EvInterest (delay randomNumber inFace : Z) interest fibEntry fx
  | EvData pe inFace data
  | EvNack pe inFace
  | EvTimeout n faceId
  | EvExpire n faceId
  | EvProbe (i : nat)
  | EvCleanup n
  | EvOther st.

Definition set_probes (l : list (Z * Name)) asf : Asf := mkAsf (asf_measurements asf) l (m_probingInterval asf) (m_maxSilentTimeouts asf).

(** The scheduler runs the events of faces, the probes and the timers of the
    measurements; [EvOther] is what other tables and strategies have done. *)
Definition asf_event self now (ev : AsfEvent) asf : option Asf :=
  let st := asf_measurements asf in
  match ev with
  | EvInterest delay randomNumber inFace interest fibEntry fx =>
      fst <$> afterReceiveInterest faceOf refreshNonce self now delay randomNumber inFace interest fibEntry asf fx
  | EvData pe inFace data => beforeSatisfyInterest faceOf self now pe inFace data asf
  | EvNack pe inFace => afterReceiveNack faceOf self now pe inFace asf
  | EvTimeout n faceId =>
      fi ← face_read n faceId st;
      '(_, (name, f)) ← timeoutEvent fi;
      onTimeout self now name f (set_ms (face_write n faceId timeout_fired st) asf)
  | EvExpire n faceId =>
      fi ← face_read n faceId st;
      '(_, (k, f)) ← measurementExpiration fi;
      Some (set_ms (ns_write k (expireFaceInfo f) st) asf)
  | EvProbe i => '(_, prefix) ← scheduledProbes asf !! i; onProbe self now prefix (set_probes (delete i (scheduledProbes asf)) asf)
  | EvCleanup n => st ← cleanup n st; Some (set_ms st asf)
  | EvOther st => Some (set_ms st asf)
  end.

(** An event runs when it is due; Interests are those of [asf_forwards]; others do
    not touch the namespaces, but may remove them. *)
Definition asf_allowed self now (ev : AsfEvent) asf : Prop :=
  let st := asf_measurements asf in
  match ev with
  | EvInterest delay randomNumber inFace interest fibEntry fx =>
      fib_known (fib_prefix fibEntry) st /\ fib_prefix fibEntry `prefix_of` i_name interest /\ inCharge self (choices st) (i_name interest) = true /\
      pe_ok (fx_pit fx) /\ representable 53 randomNumber /\ randomNumber < units /\ (length (m_nextHops fibEntry) <= 6)%nat
  | EvData pe inFace data => answered_in_time now pe inFace
  | EvNack pe inFace => True
  | EvTimeout n faceId => exists fi due ev, m_fit (namespace st n) !! faceId = Some fi /\ timeoutEvent fi = Some (due, ev) /\ due <= now
  | EvExpire n faceId => exists fi due ev, m_fit (namespace st n) !! faceId = Some fi /\ measurementExpiration fi = Some (due, ev) /\ due <= now
  | EvProbe i => exists due prefix, scheduledProbes asf !! i = Some (due, prefix) /\ due <= now
  | EvCleanup n => exists me due, ms_map st !! n = Some me /\ me_cleanup me = Some due /\ due <= now
  | EvOther st' => env_ok st' /\ forall n me', ms_map st' !! n = Some me' -> me_info me' !! NamespaceInfo_typeId = None \/
      exists me, ms_map st !! n = Some me /\ me_info me' !! NamespaceInfo_typeId = me_info me !! NamespaceInfo_typeId /\ me_expiry me <= me_expiry me'
  end.

(** *** Every event *)

(** Whether a probe is due in a namespace. *)
Notation due st n := (isProbingDue (namespace st n)).

Lemma write_due n t g st k : env_ok st -> opened n t st -> (forall ns, isProbingDue (g ns) = isProbingDue ns) ->
  due (ns_write n g st) k = due st k.
Proof.
  intros Henv Ho Hg. destruct (ns_write_ok n t g st Henv Ho) as (_ & _ & ->). case_decide; [subst k; apply Hg|done].
Qed.

Lemma face_step now n faceId g st : asf_inv st -> opened n (lifetime now) st ->
  (forall e fi, lifetime now <= e -> fi_ok n faceId e fi -> fi_ok n faceId e (g fi)) ->
  asf_inv (face_write n faceId g st) /\ opened n (lifetime now) (face_write n faceId g st) /\ forall k, due (face_write n faceId g st) k = due st k.
Proof.
  intros Hinv Ho Hg. destruct (face_write_ok n (lifetime now) faceId g st) as (Hf & Ho' & Hn); [apply Hinv|done|].
  split_and!; [|done|intros k; apply (write_due n (lifetime now)); [apply Hinv|done|done]].
  apply (updates_inv now n (fun ns => set_fit (alter g faceId (m_fit ns)) ns) st); [done|done|]. intros e Hle. apply alter_ns_ok. auto.
Qed.

(** A face that is known is in a namespace. *)
Lemma known_face st n faceId fi : asf_inv st -> m_fit (namespace st n) !! faceId = Some fi ->
  exists me, ms_map st !! n = Some me /\ opened n (me_expiry me) st /\ fi_ok n faceId (me_expiry me) fi.
Proof.
  intros [Henv Hinv] Hfi. unfold item in Hfi. destruct (ms_map st !! n) as [me|] eqn:Hme; simpl in Hfi; [|by rewrite lookup_empty in Hfi].
  exists me. split_and!; [done| |by apply (Hinv n me Hme)]. exists me. split_and!; [done| |lia].
  unfold item_of in Hfi. destruct (me_info me !! NamespaceInfo_typeId); [by eexists|]. simpl in Hfi. by rewrite lookup_empty in Hfi.
Qed.

(** A change that is right whatever the expiry of the entry. *)
Lemma write_inv n t g st : asf_inv st -> opened n t st -> (forall e, ns_ok n e (namespace st n) -> ns_ok n e (g (namespace st n))) ->
  asf_inv (ns_write n g st).
Proof.
  intros Hinv Ho Hg. destruct (ns_write_ok n t g st) as (Hf & _ & Hn); [apply Hinv|done|].
  apply (frame_inv st); [done|done|]. intros k me' _. rewrite Hn. case_decide; [subst k; apply Hg|done].
Qed.

(** The namespace that a name is measured in, if the strategy is in charge. *)
Lemma getNamespaceInfo_inv self now name st : asf_inv st ->
  exists st' r, getNamespaceInfo self now name st = Some (st', r) /\ asf_inv st' /\ same st st' /\
    match r with None => True | Some n => opened n (lifetime now) st' /\ n `prefix_of` name end.
Proof.
  intros Hinv. pose proof (getNamespaceInfo_ok self now name st (proj1 Hinv)) as Hg. destruct (measured name st) as [n|] eqn:Em; simpl in Hg.
  - destruct (inCharge self (choices st) n).
    + destruct Hg as (st' & -> & Hf & Hn & Ho). exists st', (Some n). split_and!; [done|by eapply same_inv|done|done|by eapply measured_prefix].
    + exists st, None. split_and!; [done|done|apply same_refl, Hinv|done].
  - exists st, None. split_and!; [done|done|apply same_refl, Hinv|done].
Qed.

(** No probe has become due, and none has been scheduled. *)
Definition no_probe asf asf' : Prop :=
  (forall k, due (asf_measurements asf') k = due (asf_measurements asf) k) /\ scheduledProbes asf' = scheduledProbes asf.

Lemma onTimeout_inv self now name faceId asf : asf_inv (asf_measurements asf) ->
  exists asf', onTimeout self now name faceId asf = Some asf' /\ asf_inv (asf_measurements asf') /\ no_probe asf asf'.
Proof.
  intros Hinv. unfold onTimeout. destruct (getNamespaceInfo_inv self now name _ Hinv) as (st' & r & -> & Hinv' & [_ Hsame] & Ho). cbn [mbind option_bind].
  destruct r as [n|]; [|eexists; split_and!; [done|done|split; [|done]]; intros k; cbn [asf_measurements set_ms]; by rewrite Hsame].
  destruct Ho as [Ho _]. eexists. split; [done|]. cbn [asf_measurements set_ms].
  pose proof (write_inv n (lifetime now) (ns_insert faceId) st' Hinv' Ho) as Hinv2.
  destruct (ns_write_ok n (lifetime now) (ns_insert faceId) st') as (_ & Ho2 & _); [apply Hinv'|done|].
  destruct (face_step now n faceId (countTimeout now (m_maxSilentTimeouts asf) n name faceId) (ns_write n (ns_insert faceId) st')) as (Hinv3 & _ & Hd);
    [by apply Hinv2; intros e; apply ns_insert_ok|done|intros e fi; apply countTimeout_ok|].
  split; [done|]. split; [|done]. intros k. cbn [asf_measurements set_ms]. rewrite Hd, (write_due n (lifetime now)), Hsame; [done|apply Hinv'|done|].
  intros ns. unfold ns_insert. by case_match.
Qed.

Lemma data_inv self now pe inFace data asf : asf_inv (asf_measurements asf) -> answered_in_time now pe inFace ->
  exists asf', beforeSatisfyInterest faceOf self now pe inFace data asf = Some asf' /\ asf_inv (asf_measurements asf') /\ no_probe asf asf'.
Proof.
  intros Hinv Hans. unfold beforeSatisfyInterest.
  destruct (getNamespaceInfo_inv self now (i_name (m_interest pe)) _ Hinv) as (st1 & r & -> & Hinv1 & [_ Hsame] & Ho1). cbn [mbind option_bind].
  assert (no_probe asf (set_ms st1 asf)) as Hno by (split; [intros k; cbn [asf_measurements set_ms]; by rewrite Hsame|done]).
  destruct r as [n|]; [|by eexists]. destruct Ho1 as [Ho1 _]. destruct (face_read n (id inFace) st1); [|by eexists].
  eexists. split; [done|]. cbn [asf_measurements set_ms].
  destruct (face_step now n (id inFace) (recordRtt now pe inFace) st1 Hinv1 Ho1) as (Hinv2 & Ho2 & Hd2); [intros e fi _; by apply recordRtt_ok|].
  destruct (face_step now n (id inFace) (extendFaceInfoLifetime now n (id inFace)) _ Hinv2 Ho2) as (Hinv3 & Ho3 & Hd3); [intros e fi; apply extend_face_ok|].
  edestruct (face_step now n (id inFace)) as (Hinv4 & _ & Hd4); [exact Hinv3|exact Ho3| |split; [exact Hinv4|split; [|done]]].
  { intros e fi _ Hfi. cbv beta. case_match; [by apply cancel_ok|done]. }
  intros k. cbn [asf_measurements set_ms]. by rewrite Hd4, Hd3, Hd2, Hsame.
Qed.

Lemma interest_inv self now delay randomNumber inFace interest fibEntry fx asf : asf_inv (asf_measurements asf) ->
  asf_allowed self now (EvInterest delay randomNumber inFace interest fibEntry fx) asf ->
  exists asf' fx', afterReceiveInterest faceOf refreshNonce self now delay randomNumber inFace interest fibEntry asf fx = Some (asf', fx') /\
    asf_inv (asf_measurements asf') /\
    (forall n, isProbingDue (namespace (asf_measurements asf') n) = true -> isProbingDue (namespace (asf_measurements asf) n) = true) /\
    (forall x, x ∈ scheduledProbes asf' -> x ∈ scheduledProbes asf \/ x.2 = fib_prefix fibEntry).
Proof.
  intros Hinv (Hk & Hp & Hc & Hpe & Hrep & Hr & Hl). destruct (namespaceOf_found _ _ _ _ Hp Hc) as [n Hn].
  assert (serving self fibEntry interest n (choices (asf_measurements asf)) (asf_measurements asf)) as Hs by (by split_and!; [apply Hinv|..]).
  unfold afterReceiveInterest. destruct (decidePerPitEntry_total strategyRetx now (fx_pit fx)) as (r & pe & Hd). rewrite Hd. cbn [mbind option_bind].
  assert (pe_ok pe) as Hpe' by (apply decidePerPitEntry_frame in Hd as [h ->]; exact Hpe).
  destruct (forwardAndProbe_ok faceOf refreshNonce self now fibEntry interest n _ delay randomNumber inFace asf (mkFx pe (fx_sent fx)) Hs Hpe' Hrep Hr Hl)
    as (asf' & fx' & Hf & Hs' & Hfw & Hprobes).
  assert (asf_inv (asf_measurements asf') /\
    forall n, isProbingDue (namespace (asf_measurements asf') n) = true -> isProbingDue (namespace (asf_measurements asf) n) = true) as [Hinv' Hdue].
  { unfold forwarded in Hfw. destruct (best ranks_before _) as [x|].
    - destruct Hfw as (probe & _ & _ & Hu). split.
      + apply (updates_inv _ _ _ _ _ Hinv Hu). intros e Hle Hns. simpl.
        destruct probe as [face|]; repeat first [apply (ns_use_ok now interest n _ e); [done|] | exact Hns].
      + intros k. destruct Hu as (_ & _ & ->). case_decide; [subst k|done]. by destruct probe.
    - destruct Hfw as (_ & _ & Hsame). split; [by eapply same_inv|]. intros k. by destruct Hsame as [_ ->]. }
  destruct r; [by exists asf', fx'..|]. eexists asf, _. split_and!; [done|done|done|auto].
Qed.

(** The prefix of the FIB entry of an Interest. *)
Definition ev_prefix (ev : AsfEvent) : option Name :=
  match ev with EvInterest _ _ _ _ fibEntry _ => Some (fib_prefix fibEntry) | _ => None end.

(** A probe can become due for the prefixes of the scheduled ones only, and those
    are scheduled for the FIB entries of Interests. *)
Definition probes_from (ev : AsfEvent) asf asf' : Prop :=
  (forall n, due (asf_measurements asf') n = true -> due (asf_measurements asf) n = true \/ exists x, x ∈ scheduledProbes asf /\ n `prefix_of` x.2) /\
  forall x, x ∈ scheduledProbes asf' -> x ∈ scheduledProbes asf \/ ev_prefix ev = Some x.2.

Lemma no_probe_from ev asf asf' : no_probe asf asf' -> probes_from ev asf asf'.
Proof. intros [Hd Hp]. split; [intros n; rewrite Hd; auto|intros x; rewrite Hp; auto]. Qed.

Lemma event_inv self now ev asf : asf_inv (asf_measurements asf) -> asf_allowed self now ev asf ->
  exists asf', asf_event self now ev asf = Some asf' /\ asf_inv (asf_measurements asf') /\ probes_from ev asf asf'.
Proof.
  intros Hinv Ha. destruct ev as [delay randomNumber inFace interest fibEntry fx|pe inFace data|pe inFace|n f|n f|i|n|st']; cbn [asf_event].
  - destruct (interest_inv self now _ _ _ _ _ _ asf Hinv Ha) as (asf' & fx' & -> & Hinv' & Hd & Hp). exists asf'. split_and!; [done|done|split; [auto|]].
    intros x [?|Hx]%Hp; [auto|]. right. simpl. by rewrite Hx.
  - destruct (data_inv self now pe inFace data asf Hinv Ha) as (asf' & -> & Hinv' & Hno). exists asf'. split_and!; [done|done|by apply no_probe_from].
  - destruct (onTimeout_inv self now (i_name (m_interest pe)) (id inFace) asf Hinv) as (asf' & Ht & Hinv' & Hno).
    exists asf'. split_and!; [done|done|by apply no_probe_from].
  - destruct Ha as (fi & t & ev & Hfi & Hev & _). destruct (known_face _ _ _ _ Hinv Hfi) as (me & Hme & Ho & Hok).
    rewrite (face_read_ok n (me_expiry me)), Hfi by (done || apply Hinv). cbn [mbind option_bind]. rewrite Hev. destruct ev as [name f']. cbn [mbind option_bind].
    set (asf1 := set_ms (face_write n f timeout_fired (asf_measurements asf)) asf).
    assert (asf_inv (asf_measurements asf1)) as Hinv1.
    { apply (write_inv n (me_expiry me)); [done|done|]. intros e. apply alter_ns_ok. intros fi'. apply timeout_fired_ok. }
    destruct (onTimeout_inv self now name f' asf1 Hinv1) as (asf' & -> & Hinv' & Hd & Hp). exists asf'. split_and!; [done|done|apply no_probe_from].
    split; [|done]. intros k. rewrite Hd. apply (write_due n (me_expiry me)); [apply Hinv|done|done].
  - destruct Ha as (fi & t & ev & Hfi & Hev & _). destruct (known_face _ _ _ _ Hinv Hfi) as (me & Hme & Ho & Hok).
    rewrite (face_read_ok n (me_expiry me)), Hfi by (done || apply Hinv). cbn [mbind option_bind]. rewrite Hev.
    destruct (fi_expiration _ _ _ _ Hok _ _ Hev) as [-> _]. cbn [mbind option_bind]. eexists. split; [done|].
    cbn [asf_measurements set_ms]. split; [apply (write_inv n (me_expiry me)); [done|done|]; intros e; apply expire_ns_ok|].
    apply no_probe_from. split; [|done]. intros k. apply (write_due n (me_expiry me)); [apply Hinv|done|done].
  - destruct Ha as (t & prefix & Hi & _). rewrite Hi. cbn [mbind option_bind]. unfold onProbe. cbn [asf_measurements set_probes].
    destruct (getNamespaceInfo_inv self now prefix _ Hinv) as (st1 & r & -> & Hinv1 & [_ Hsame] & Ho1). cbn [mbind option_bind]. eexists. split; [done|].
    assert ((t, prefix) ∈ scheduledProbes asf) as Hin by (by eapply list_elem_of_lookup_2).
    assert (forall x, x ∈ delete i (scheduledProbes asf) -> x ∈ scheduledProbes asf) as Hdel by (intros x Hx; by eapply sublist_subseteq; [apply sublist_delete|]).
    destruct r as [n|]; cbn [asf_measurements scheduledProbes set_ms set_probes].
    + destruct Ho1 as [Ho1 Hpre]. split; [by apply (write_inv n (lifetime now))|]. split; [|intros x Hx; left; by apply Hdel].
      intros k. cbn [asf_measurements set_ms]. destruct (ns_write_ok n (lifetime now) (setIsProbingDue true) st1) as (_ & _ & ->); [apply Hinv1|done|].
      case_decide; [subst k; intros _; right; by exists (t, prefix)|rewrite Hsame; auto].
    + split; [done|]. split; [|intros x Hx; left; by apply Hdel]. intros k. cbn [asf_measurements set_ms]. rewrite Hsame. auto.
  - destruct Ha as (me & t & Hme & _ & _). destruct Hinv as [Henv Hinv].
    destruct (ms_cleanup_ok n me (asf_measurements asf)) as (st' & -> & Hok & Hm & Hr); [apply Henv|done|]. cbn [mbind option_bind].
    eexists. split; [done|]. cbn [asf_measurements set_ms]. split.
    + split; [by eapply rest_env|]. intros k me'. rewrite Hm. intros [_ Hk]%lookup_delete_Some. auto.
    + split; [|auto]. intros k. cbn [asf_measurements set_ms]. unfold item. rewrite Hm, lookup_delete. case_decide; [done|auto].
  - destruct Ha as [Henv Hst]. eexists. split; [done|]. cbn [asf_measurements set_ms]. split.
    + split; [done|]. intros n me' Hn. destruct (Hst n me' Hn) as [Hnone|(me & Hme & Hi & Hle)]; unfold item_of.
      * rewrite Hnone. apply new_ns_ok.
      * rewrite Hi. eapply ns_ok_mono; [done|]. by apply Hinv.
    + split; [|auto]. intros k. cbn [asf_measurements set_ms]. unfold item. destruct (ms_map st' !! k) as [me'|] eqn:Hk; [|done]. simpl.
      destruct (Hst k me' Hk) as [Hnone|(me & Hme & Hi & Hle)]; unfold item_of; [by rewrite Hnone|]. rewrite Hme. simpl. rewrite Hi. auto.
Qed.

(** ** Runs *)

Inductive asf_run self : Asf -> list (Z * AsfEvent) -> Asf -> Prop :=
  | asf_run_nil asf : asf_run self asf [] asf
  | asf_run_cons now ev evs asf asf1 asf2 : asf_allowed self now ev asf -> asf_event self now ev asf = Some asf1 -> asf_run self asf1 evs asf2 ->
      asf_run self asf ((now, ev) :: evs) asf2.

Lemma asf_run_inv self asf evs asf' : asf_run self asf evs asf' -> asf_inv (asf_measurements asf) -> asf_inv (asf_measurements asf').
Proof.
  induction 1 as [|now ev evs asf asf1 asf2 Ha Hs _ IH]; intros Hinv; [done|]. apply IH.
  destruct (event_inv self now ev asf Hinv Ha) as (asf' & Hs' & Hinv' & _). by simplify_eq.
Qed.

(** The measurements before the strategy has used them. *)
Definition asf_initial st : Prop := env_ok st /\ forall n, namespace st n = newNamespaceInfo.

Lemma initial_inv st : asf_initial st -> asf_inv st.
Proof.
  intros [Henv Hnew]. split; [done|]. intros n me Hme. rewrite <-(namespace_entry st n me), Hnew by done. apply new_ns_ok.
Qed.

(** C14: the state of ASF is well typed in every run of Interests, Data, Nacks and
    timers in which ASF is in charge of the name of each Interest, its FIB entry is
    of a prefix of that name and has at most six next hops, and Data comes between
    [lo] and [hi] microseconds after the Interest ([asf_allowed]; the other cases
    are those of [asf_hint_fails] and [six_faces_probe_fails]). No such event fails;
    the last round trip time is the timeout mark, the mark of no measurement or a
    [double] between the bounds; the smoothed one is 0 or between the bounds, the
    roundings included; the number of silent timeouts fits [size_t]; once measured,
    a face times out after between the minimal timeout or [lo], and the minimal
    timeout or five times [hi]; a pending timeout is for the last Interest on this
    face and known to be scheduled; and a face's information expires no later than
    the entry that it is placed on. *)
Theorem asf_state_typed self asf0 evs asf now ev : asf_initial (asf_measurements asf0) -> asf_run self asf0 evs asf -> asf_allowed self now ev asf ->
  (exists asf', asf_event self now ev asf = Some asf') /\
  forall n faceId fi, m_fit (namespace (asf_measurements asf) n) !! faceId = Some fi ->
    (getRtt fi = RTT_TIMEOUT \/ getRtt fi = RTT_NO_MEASUREMENT \/ rtt_between lo hi (getRtt fi)) /\
    (getSrtt fi = RTT_NO_MEASUREMENT \/ rtt_between lo hi (getSrtt fi)) /\
    0 <= nSilentTimeouts fi < 2 ^ 64 /\
    (0 < m_nSamples (st_rttEstimator (rttStats fi)) -> Z.max 1000 lo <= face_computeRto fi <= Z.max 1000 (5 * hi)) /\
    (forall t e, timeoutEvent fi = Some (t, e) -> isTimeoutScheduled fi = true /\ e = (lastInterestName fi, faceId)) /\
    (forall t e, measurementExpiration fi = Some (t, e) ->
      e = (n, faceId) /\ exists me, ms_map (asf_measurements asf) !! n = Some me /\ t <= me_expiry me).
Proof.
  intros Hinit%initial_inv Hrun Ha. pose proof (asf_run_inv self asf0 evs asf Hrun Hinit) as Hinv.
  split; [destruct (event_inv self now ev asf Hinv Ha) as (asf' & Hs & _); by exists asf'|].
  intros n faceId fi Hfi. destruct (known_face _ _ _ _ Hinv Hfi) as (me & Hme & _ & [Hx Ht [Hr Hs He] Hm Hn]). split_and!; try done; try lia.
  - intros Hpos. rewrite (proj2 (Z.ltb_lt _ _) Hpos) in He. pose proof (computeRto_bounds 1000 lo hi _ lo_hi hi_small He) as Hb. rewrite Hm in Hb.
    unfold face_computeRto. lia.
  - intros t e Hev. destruct (Hx t e Hev) as [-> Hle]. split; [done|]. by exists me.
Qed.

(** A namespace below the FIB entries that Interests use it through. *)
Lemma asf_run_due self asf0 evs asf n : asf_run self asf0 evs asf -> asf_inv (asf_measurements asf0) ->
  (forall now ev prefix, (now, ev) ∈ evs -> ev_prefix ev = Some prefix -> ~ n `prefix_of` prefix) ->
  (forall x, x ∈ scheduledProbes asf0 -> ~ n `prefix_of` x.2) -> due (asf_measurements asf0) n = false ->
  due (asf_measurements asf) n = false.
Proof.
  induction 1 as [|now ev evs asf asf1 asf2 Ha Hs _ IH]; intros Hinv Hevs Hp Hd; [done|].
  destruct (event_inv self now ev asf Hinv Ha) as (asf' & Hs' & Hinv' & Hdue & Hprobes). simplify_eq.
  apply IH; [done|intros; eapply Hevs; [by right|done]| |].
  - intros x [Hx|Hx]%Hprobes; [by apply Hp|]. eapply Hevs; [by left|done].
  - destruct (due (asf_measurements asf1) n) eqn:E0; [|done]. apply Hdue in E0 as [E0|(x & Hx & Hpre)]; [by rewrite E0 in Hd|].
    exfalso. by eapply Hp.
Qed.

(** ASF never probes in a namespace below the prefixes of the FIB entries that
    its Interests use, as when the strategy is chosen for a longer prefix than the
    route: probes are scheduled for the prefix of the FIB entry, and mark only the
    namespaces that are prefixes of it. In every such run, each Interest served
    from that namespace is sent once, however many other next hops there are. *)
Theorem asf_never_probes self asf0 evs asf n now delay randomNumber inFace interest fibEntry fx asf' fx' :
  asf_initial (asf_measurements asf0) -> scheduledProbes asf0 = [] -> asf_run self asf0 evs asf ->
  (forall t ev prefix, (t, ev) ∈ evs -> ev_prefix ev = Some prefix -> ~ n `prefix_of` prefix) ->
  asf_allowed self now (EvInterest delay randomNumber inFace interest fibEntry fx) asf ->
  namespaceOf self (choices (asf_measurements asf)) (fib_prefix fibEntry) (i_name interest) = Some n ->
  afterReceiveInterest faceOf refreshNonce self now delay randomNumber inFace interest fibEntry asf fx = Some (asf', fx') ->
  due (asf_measurements asf) n = false /\
  (fx_sent fx' = fx_sent fx \/ (exists face, fx_sent fx' = fx_sent fx ++ [SendInterest face interest]) \/
   usable faceOf fibEntry interest inFace = []).
Proof.
  intros [Henv Hnew] Hnone Hrun Hevs (Hk & Hp & Hc & Hpe & Hrep & Hr & Hl) Hn Hres.
  assert (asf_inv (asf_measurements asf0)) as Hinv0 by (by apply initial_inv).
  assert (due (asf_measurements asf) n = false) as Hd.
  { eapply asf_run_due; [done|done|done| |by rewrite Hnew]. intros x. rewrite Hnone. by intros ?%elem_of_nil. }
  split; [done|]. pose proof (asf_run_inv self asf0 evs asf Hrun Hinv0) as Hinv.
  assert (serving self fibEntry interest n (choices (asf_measurements asf)) (asf_measurements asf)) as Hs by (by split_and!; [apply Hinv|..]).
  unfold afterReceiveInterest in Hres. destruct (decidePerPitEntry strategyRetx now (fx_pit fx)) as [[r pe]|] eqn:Ed; [|done].
  cbn [mbind option_bind] in Hres.
  assert (pe_ok pe) as Hpe' by (apply decidePerPitEntry_frame in Ed as [h ->]; exact Hpe).
  destruct (forwardAndProbe_ok faceOf refreshNonce self now fibEntry interest n _ delay randomNumber inFace asf (mkFx pe (fx_sent fx)) Hs Hpe' Hrep Hr Hl)
    as (asf1 & fx1 & Hf & _ & Hfw & _).
  assert (r = SUPPRESS /\ fx_sent fx' = fx_sent fx \/ fx' = fx1) as [[_ ->]| ->];
    [destruct r; rewrite ?Hf in Hres; simplify_eq; auto|by left|]. right.
  unfold forwarded in Hfw. destruct (best ranks_before _) as [x|] eqn:Eb.
  - left. destruct Hfw as (probe & Hsent & Hprobe & _). destruct probe as [face|]; [destruct (Hprobe face eq_refl) as [Hd' _]; by rewrite Hd' in Hd|].
    exists (fs_face x). done.
  - right. apply best_None in Eb. unfold known_stats in Eb. by apply fmap_nil_inv in Eb.
Qed.

(** A timeout is recorded where the name is measured, not where it was scheduled. *)

(** When a longer prefix of the name has an entry by the time a timeout runs, the
    face keeps its last round trip time, and is left marked as having a timeout
    scheduled while none is pending; using it again does not schedule one. *)
Theorem timeout_misplaced self now n faceId asf fi t name f asf' : asf_inv (asf_measurements asf) ->
  m_fit (namespace (asf_measurements asf) n) !! faceId = Some fi -> timeoutEvent fi = Some (t, (name, f)) ->
  measured name (asf_measurements asf) <> Some n -> asf_event self now (EvTimeout n faceId) asf = Some asf' ->
  exists fi', m_fit (namespace (asf_measurements asf') n) !! faceId = Some fi' /\ getRtt fi' = getRtt fi /\
    isTimeoutScheduled fi' = true /\ timeoutEvent fi' = None /\ forall now' interest, timeoutEvent (use_face now' interest n faceId fi') = None.
Proof.
  intros Hinv Hfi Hev Hm. destruct (known_face _ _ _ _ Hinv Hfi) as (me & Hme & Ho & Hok). cbn [asf_event].
  rewrite (face_read_ok n (me_expiry me)), Hfi by (done || apply Hinv). cbn [mbind option_bind]. rewrite Hev. cbn [mbind option_bind].
  unfold onTimeout. cbn [asf_measurements set_ms m_maxSilentTimeouts]. set (st1 := face_write n faceId timeout_fired (asf_measurements asf)).
  destruct (face_write_ok n (me_expiry me) faceId timeout_fired (asf_measurements asf)) as (Hf1 & Ho1 & Hn1); [apply Hinv|done|]. fold st1 in Hf1, Ho1, Hn1.
  assert (env_ok st1) as Henv1 by (eapply frame_env; [apply Hinv|done]).
  assert (measured name st1 = measured name (asf_measurements asf)) as Hm1 by (apply measured_ext; intros k; apply (write_dom n (me_expiry me)); [apply Hinv|done]).
  assert (m_fit (namespace st1 n) !! faceId = Some (timeout_fired fi)) as Hfi1.
  { rewrite Hn1, decide_True by done. simpl. by rewrite lookup_alter_eq, Hfi. }
  destruct (fi_timeout _ _ _ _ Hok _ _ Hev) as [Hsch _].
  assert (forall st', m_fit (namespace st' n) !! faceId = Some (timeout_fired fi) ->
    exists fi', m_fit (namespace st' n) !! faceId = Some fi' /\ getRtt fi' = getRtt fi /\
    isTimeoutScheduled fi' = true /\ timeoutEvent fi' = None /\ forall now' interest, timeoutEvent (use_face now' interest n faceId fi') = None) as Hend.
  { intros st' Hst'. exists (timeout_fired fi). split_and!; [done..|]. intros. unfold use_face. simpl. by rewrite Hsch. }
  pose proof (getNamespaceInfo_ok self now name st1 Henv1) as Hg. rewrite Hm1 in Hg.
  destruct (measured name (asf_measurements asf)) as [k|]; cbn [mbind option_bind] in Hg; [|rewrite Hg; intros [= <-]; by apply Hend].
  destruct (inCharge self (choices st1) k) eqn:Ec; [|rewrite Hg; intros [= <-]; by apply Hend].
  destruct Hg as (st2 & -> & Hf2 & Hn2 & Ho2). cbn [mbind option_bind]. intros [= <-]. apply Hend. cbn [asf_measurements set_ms].
  assert (env_ok st2) as Henv2 by (by eapply frame_env). assert (n <> k) as Hne by congruence.
  destruct (ns_write_ok k (lifetime now) (ns_insert f) st2 Henv2 Ho2) as (Hf3 & Ho3 & Hn3).
  destruct (face_write_ok k (lifetime now) f (countTimeout now (m_maxSilentTimeouts asf) k name f) (ns_write k (ns_insert f) st2)) as (_ & _ & Hn4);
    [by eapply frame_env|done|]. rewrite Hn4, decide_False, Hn3, decide_False, Hn2 by done. done.
Qed.

End Runs.
