(* ===== verification/AsfExamples.v ===== *)
(** * Concrete runs of ASF

    A name tree on which another strategy is the default, ASF is chosen for one
    prefix, and the FIB has an entry: the states in which the theorems on ASF are
    applied. *)

From S2P Require Import Prelude Fp Ndn Hashtable NameTree Fib Pit Measurements StrategyRegistry StrategyChoice StrategyItems FwAlgorithm RttEstimator AsfMeasurements Strategy Asf AsfRuns.
Import StrategyExamples.
Local Open Scope Z_scope.

Import ItemExamples.

Notation AsfEntry := (Entry Z (FibEntry Z) (PitEntry Z) (MeasurementsEntry Z (NamespaceInfo Z)) (StrategyChoiceEntry Z)).
Notation AsfTree := (Hashtable Z AsfEntry).

(** ASF at 5 without measurements. *)
Definition routed (prefix : list Z) : AsfStrategy AsfTree Z := mkAsf (routed_tree prefix) [] 60000 0.

Lemma routed_ok prefix : (length prefix <= getMaxDepth)%nat ->
  asf_initial (asf_measurements (routed prefix)) /\ sc_view (nt_entries (newEntry:=newEntry) (ms_tree (asf_measurements (routed prefix)))) = choices0 /\
  fib_known prefix (asf_measurements (routed prefix)).
Proof.
  intros Hl. destruct (routed_tree_ok (I:=NamespaceInfo Z) prefix Hl) as (He & Hm & Hv & Hk). split_and!; [|exact Hv|exact Hk].
  split; [exact He|]. intros n. unfold item. cbn [routed asf_measurements]. rewrite Hm, lookup_empty. reflexivity.
Qed.

Definition newNonce (i : Interest Z) : Interest Z :=
  mkInterest _ _ _ (i_name i) (i_selectors i) (i_nonce i + 1) (i_lifetime i) (i_forwardingHint i) (i_nextHopFaceId i).

Definition fx0 : Fx (C:=Z) := mkFx (insertOrUpdateInRecord 0 2 anInterest (newPitEntry anInterest)) [].

Lemma fx0_ok : pe_ok (fx_pit fx0).
Proof. split; [split; [apply NoDup_singleton|apply NoDup_nil; exact Logic.I]|]. repeat constructor. by eexists. Qed.

Lemma anInterest_charge : inCharge 5 choices0 (i_name anInterest) = true.
Proof. reflexivity. Qed.

Lemma zero_repr : representable 53 0.
Proof. exists 0, 0. split_and!; [lia..|done]. Qed.

(** Zero is below 1. *)
Lemma zero_below : 0 < units.
Proof. apply units_pos. Qed.

Example six_faces_probe_fails_witness : getFaceBasedOnProbability below_one [1; 2; 3; 4; 5; 6] = None.
Proof.
  destruct (six_faces_probe_fails [1; 2; 3; 4; 5; 6] [7] 0) as (_ & _ & Hf).
  - reflexivity.
  - simpl. lia.
  - apply zero_repr.
  - split; [lia|apply zero_below].
  - exact Hf.
Defined.

Example asf_forwards_witness : exists asf' fx', afterReceiveInterest faces newNonce 5 0 0 0 2 anInterest (route [1]) (routed [1]) fx0 = Some (asf', fx').
Proof.
  destruct (routed_ok [1]) as ([Henv _] & Hv & Hk); [apply Nat.leb_le; reflexivity|].
  destruct (asf_forwards faces newNonce 5 0 0 0 2 anInterest (route [1]) (routed [1]) fx0) as (n & r & pe & asf' & fx' & _ & _ & Ha & _).
  - exact Henv.
  - exact Hk.
  - exists [2]. reflexivity.
  - rewrite Hv. apply anInterest_charge.
  - apply fx0_ok.
  - apply zero_repr.
  - apply zero_below.
  - simpl. lia.
  - exists asf', fx'. exact Ha.
Defined.

(** The Interest has a delegation to [/9/8] as its forwarding hint. *)
Example asf_hint_fails_witness : afterReceiveInterest faces newNonce 5 0 0 0 2 anInterest (route [9; 8]) (routed [9; 8]) fx0 = None.
Proof.
  destruct (routed_ok [9; 8]) as ([Henv _] & Hv & Hk); [apply Nat.leb_le; reflexivity|].
  apply (asf_hint_fails faces newNonce 5 0 0 0 2 anInterest (route [9; 8]) (routed [9; 8]) fx0 NEW (fx_pit fx0)).
  - exact Henv.
  - exact Hk.
  - rewrite Hv. apply anInterest_charge.
  - rewrite Hv. reflexivity.
  - simpl. lia.
  - reflexivity.
  - discriminate.
  - discriminate.
Defined.

Lemma bounds0 : 0 <= 1000 <= 5000 /\ 5000 < 2 ^ 32.
Proof. lia. Qed.

(** The route is the default route: the first Interest, then a second one. *)
Definition ev0 : AsfEvent (T:=AsfTree) := EvInterest 0 0 2 anInterest (route []) fx0.

Lemma ev0_allowed : asf_allowed (T:=AsfTree) 1000 5000 5 0 ev0 (routed []).
Proof.
  destruct (routed_ok []) as ([Henv _] & Hv & Hk); [apply Nat.leb_le; reflexivity|].
  split_and!; [exact Hk|by exists [1; 2]|rewrite Hv; apply anInterest_charge|apply fx0_ok|apply zero_repr|apply zero_below|simpl; lia].
Qed.

Lemma default_route_serving : serving 5 (route []) anInterest [1] choices0 (asf_measurements (routed [])).
Proof.
  destruct (routed_ok []) as ([Henv _] & Hv & Hk); [apply Nat.leb_le; reflexivity|]. split_and!; [exact Henv|exact Hv|exact Hk|reflexivity].
Qed.

Lemma ev0_served : exists asf1, asf_event faces newNonce 5 0 ev0 (routed []) = Some asf1 /\ serving 5 (route []) anInterest [1] choices0 (asf_measurements asf1).
Proof.
  destruct (forwardAndProbe_ok faces newNonce 5 0 (route []) anInterest [1] choices0 0 0 2 (routed []) fx0) as (asf1 & fx1 & Hf & Hs & _);
    [apply default_route_serving|apply fx0_ok|apply zero_repr|apply zero_below|simpl; lia|].
  exists asf1. split; [|exact Hs]. cbn [asf_event ev0]. unfold afterReceiveInterest.
  change (decidePerPitEntry strategyRetx 0 (fx_pit fx0)) with (Some (NEW, fx_pit fx0)). cbn [mbind option_bind].
  change (mkFx (fx_pit fx0) (fx_sent fx0)) with fx0. rewrite Hf. reflexivity.
Qed.

(** The first Interest is sent to face 5, which then has a timeout. *)
Lemma ev0_known : exists asf1, asf_event faces newNonce 5 0 ev0 (routed []) = Some asf1 /\
  exists fi due ev, m_fit (namespace (asf_measurements asf1) [1]) !! 5 = Some fi /\ timeoutEvent fi = Some (due, ev).
Proof.
  destruct (forwardAndProbe_ok faces newNonce 5 0 (route []) anInterest [1] choices0 0 0 2 (routed []) fx0) as (asf1 & fx1 & Hf & _ & Hfw & _);
    [apply default_route_serving|apply fx0_ok|apply zero_repr|apply zero_below|simpl; lia|].
  exists asf1. split.
  - cbn [asf_event ev0]. unfold afterReceiveInterest.
    change (decidePerPitEntry strategyRetx 0 (fx_pit fx0)) with (Some (NEW, fx_pit fx0)). cbn [mbind option_bind].
    change (mkFx (fx_pit fx0) (fx_sent fx0)) with fx0. rewrite Hf. reflexivity.
  - destruct (routed_ok []) as ([_ Hnew] & _ & _); [apply Nat.leb_le; reflexivity|]. unfold forwarded in Hfw. rewrite Hnew in Hfw.
    match type of Hfw with match ?b with Some _ => _ | None => _ end => assert (fs_face <$> b = Some 5) as Hb by (vm_compute; reflexivity); destruct b as [x|]; [|discriminate] end.
    injection Hb as Hx. rewrite Hx in Hfw. destruct Hfw as (probe & _ & Hp & _ & _ & Hns).
    destruct probe as [face|]; [destruct (Hp face eq_refl) as [Hd _]; discriminate Hd|].
    rewrite Hns, decide_True by done. cbv zeta. unfold setHasFirstProbeBeenScheduled, ns_use, set_fit.
    cbn [m_fit]. eexists _, _, _. split; [apply lookup_insert_eq|]. unfold use_face. rewrite Hnew. cbn [newNamespaceInfo m_fit]. rewrite lookup_empty.
    cbn [default newFaceInfo isTimeoutScheduled]. cbn [timeoutEvent]. reflexivity.
Qed.

(** An Interest, then the timeout of the face that it was sent to. *)
Example asf_state_typed_witness : exists asf1 asf2 fi now, asf_run faces newNonce 1000 5000 5 (routed []) [(0, ev0)] asf1 /\
  m_fit (namespace (asf_measurements asf1) [1]) !! 5 = Some fi /\ isTimeoutScheduled fi = true /\
  asf_event faces newNonce 5 now (EvTimeout [1] 5) asf1 = Some asf2.
Proof.
  destruct (routed_ok []) as (Hinit & _ & _); [apply Nat.leb_le; reflexivity|]. destruct ev0_known as (asf1 & Hev & fi & due & ev & Hfi & Hto).
  assert (asf_run faces newNonce 1000 5000 5 (routed []) [(0, ev0)] asf1) as Hrun by (eapply asf_run_cons; [apply ev0_allowed|exact Hev|constructor]).
  destruct (asf_state_typed faces newNonce 1000 5000 (proj1 bounds0) (proj2 bounds0) 5 (routed []) [(0, ev0)] asf1 due (EvTimeout [1] 5)) as [[asf2 Hs] Ht].
  - exact Hinit.
  - exact Hrun.
  - exists fi, due, ev. split; [exact Hfi|]. split; [exact Hto|lia].
  - exists asf1, asf2, fi, due. split; [exact Hrun|]. split; [exact Hfi|]. split; [|exact Hs].
    destruct (Ht [1] 5 fi Hfi) as (_ & _ & _ & _ & Hsch & _). apply (Hsch due ev Hto).
Defined.

Example asf_never_probes_witness : exists asf1, asf_run faces newNonce 1000 5000 5 (routed []) [(0, ev0)] asf1 /\
  isProbingDue (namespace (asf_measurements asf1) [1]) = false.
Proof.
  destruct (routed_ok []) as (Hinit & _ & _); [apply Nat.leb_le; reflexivity|]. destruct ev0_served as (asf1 & Hev & Henv & Hv & Hk & Hn).
  assert (asf_allowed 1000 5000 5 1 ev0 asf1) as Hal.
  { split_and!; [exact Hk|by exists [1; 2]|rewrite Hv; apply anInterest_charge|apply fx0_ok|apply zero_repr|apply zero_below|simpl; lia]. }
  assert (asf_run faces newNonce 1000 5000 5 (routed []) [(0, ev0)] asf1) as Hrun by (eapply asf_run_cons; [apply ev0_allowed|exact Hev|constructor]).
  exists asf1. split; [exact Hrun|].
  destruct (interest_inv faces newNonce 1000 5000 5 1 0 0 2 anInterest (route []) fx0 asf1) as (asf2 & fx2 & Ha & _).
  - eapply asf_run_inv; [apply (proj1 bounds0)|apply (proj2 bounds0)|exact Hrun|by apply initial_inv].
  - exact Hal.
  - apply (asf_never_probes faces newNonce 1000 5000 (proj1 bounds0) (proj2 bounds0) 5 (routed []) [(0, ev0)] asf1 [1] 1 0 0 2 anInterest (route []) fx0 asf2 fx2).
    + exact Hinit.
    + reflexivity.
    + exact Hrun.
    + intros t ev prefix [= -> ->]%list_elem_of_singleton [= <-] [k Hk']. discriminate Hk'.
    + exact Hal.
    + rewrite Hv. exact Hn.
    + exact Ha.
Defined.
