(* ===== verification/Access.v ===== *)
(** * The access router strategy, and best-route version 1

    Models [daemon/fw/access-strategy.hpp/.cpp], which sends Interests to the face
    that last answered under the parent of the Data name, and multicasts them when
    there is none or it does not answer in time; and
    [daemon/fw/best-route-strategy.cpp].

    The timer that [PitInfo] holds for a PIT entry is passed along with the entry:
    its time, the incoming face and the face that was tried first. [faceById] is
    [Forwarder::getFace]. *)

From S2P Require Import Prelude Fp Ndn Hashtable NameTree Fib Pit Measurements StrategyRegistry StrategyChoice StrategyItems FwAlgorithm RttEstimator Strategy.
Local Open Scope Z_scope.

(** [RttEstimator(1, 1_ms, 0.1)]. *)
Definition accessEstimator : RttEstimator := newRttEstimator 1 1000 (double_of_dec 1 10).

Record MtInfo := mkMtInfo { lastNexthop : Z; mt_rtt : RttEstimator }.
Definition MtInfo_typeId : Z := 1011.
Definition newMtInfo : MtInfo := mkMtInfo INVALID_FACEID accessEstimator.

(** 8 seconds. *)
Definition ACCESS_LIFETIME : Z := 8000 * ms.

(** The measurements, and the estimator of each face. *)
Record AccessStrategy {T : Type} := mkAccess { acc_measurements : Measurements T; acc_fit : gmap Z RttEstimator }.
Arguments AccessStrategy : clear implicits.
Arguments mkAccess {_}.

Section Access.
Context {C : Type} `{Packets C} `{!ScopePrefixes C} `{!NackReasons}.
Notation Name := (list C).
Notation Interest := (Interest C).
Notation MeasurementsEntry := (MeasurementsEntry C MtInfo).
Notation Entry := (Entry C (FibEntry C) (PitEntry C) MeasurementsEntry (StrategyChoiceEntry C)).
Context {T : Type} `{!NodeTable C Entry newEntry T}.
Context (faceOf : Z -> FaceInfo) (faceById : Z -> option Z).
Notation id f := (f_id (faceOf f)).
Notation Access := (AccessStrategy T).
Notation RtoTimer := (option (Z * (Z * Z))).
Implicit Types (st : Measurements T) (acc : Access) (n name prefix : Name) (interest : Interest) (fibEntry : FibEntry C)
  (pe : PitEntry C) (data : Data) (now self inFace : Z) (fx : Fx (C:=C)) (mi : MtInfo) (rtoTimer : RtoTimer).

(** ** Best route version 1 *)

Fixpoint bestRoute1_loop now inFace interest (nexthops : list NextHop) fx : option Fx :=
  match nexthops with
  | [] => None
  | nexthop :: rest =>
      let outFace := nh_face nexthop in
      if negb (wouldViolateScope faceOf inFace interest outFace) && canForwardToLegacy now (fx_pit fx) outFace
      then Some (onOutgoingInterest now outFace interest fx)
      else bestRoute1_loop now inFace interest rest fx
  end.

Definition bestRoute1_afterReceiveInterest now inFace interest fibEntry fx : option Fx :=
  if hasPendingOutRecords now (fx_pit fx) then Some fx
  else match bestRoute1_loop now inFace interest (m_nextHops fibEntry) fx with
       | Some fx => Some fx
       | None => rejectPendingInterest now fx
       end.

(** ** Measurements *)

(** [None] outside is the failed assertion that the entry has an item. *)
Definition findPrefixMeasurements self pe st : option (option (Name * MtInfo)) :=
  me ← accessor_findLongestPrefixMatch self (i_name (m_interest pe)) (fun _ => true) st;
  match me with
  | None => Some None
  | Some n => mi ← item_read MtInfo_typeId n st; Some (Some (n, mi))
  end.

(** The result is where the item is; [None] is the failed assertion that the
    strategy is in charge of the Data name. *)
Definition addPrefixMeasurements self now data st : option (Measurements T * Name) :=
  '(st, me) ← (if bool_decide (data_name data = []) then Some (st, None)
               else accessor_get self now (parentName (data_name data)) st);
  '(st, me) ← match me with
              | Some n => Some (st, Some n)
              | None => accessor_get self now (data_name data) st
              end;
  n ← me;
  st ← refresh MtInfo_typeId newMtInfo now ACCESS_LIFETIME n st;
  Some (st, n).

(** The item after a round trip from a face, whose estimator is [faceRtt]. *)
Definition update_item (faceId rtt : Z) (faceRtt : RttEstimator) mi : MtInfo :=
  if negb (lastNexthop mi =? faceId) then mkMtInfo faceId faceRtt
  else mkMtInfo (lastNexthop mi) (addMeasurement rtt (mt_rtt mi)).

Definition updateMeasurements self now inFace data (rtt : Z) acc : option Access :=
  let fi := addMeasurement rtt (default accessEstimator (acc_fit acc !! id inFace)) in
  '(st, n) ← addPrefixMeasurements self now data (acc_measurements acc);
  Some (mkAccess (item_write MtInfo_typeId n (update_item (id inFace) rtt fi) st) (<[id inFace := fi]> (acc_fit acc))).

Definition removeFaceInfo (face : Z) acc : Access := mkAccess (acc_measurements acc) (delete (id face) (acc_fit acc)).

(** ** Forwarding *)

Definition multicastTo inFace interest (exceptFace : Z) (nexthop : NextHop) : bool :=
  negb ((nh_face nexthop =? inFace) || (id (nh_face nexthop) =? exceptFace) || wouldViolateScope faceOf inFace interest (nh_face nexthop)).

(** The number of Interests sent is an [int]. *)
Fixpoint multicast_loop now inFace interest (exceptFace : Z) (nexthops : list NextHop) (nSent : Z) fx : Fx * Z :=
  match nexthops with
  | [] => (fx, nSent)
  | nexthop :: rest =>
      if multicastTo inFace interest exceptFace nexthop
      then multicast_loop now inFace interest exceptFace rest (nSent + 1) (onOutgoingInterest now (nh_face nexthop) interest fx)
      else multicast_loop now inFace interest exceptFace rest nSent fx
  end.

Definition multicast now inFace interest fibEntry (exceptFace : Z) fx : Fx * Z :=
  multicast_loop now inFace interest exceptFace (m_nextHops fibEntry) 0 fx.

(** [None] when nothing is sent. *)
Definition sendToLastNexthop now inFace interest mi fibEntry fx : option (Fx * RtoTimer) :=
  if lastNexthop mi =? INVALID_FACEID then None
  else if lastNexthop mi =? id inFace then None
  else
    outFace ← faceById (lastNexthop mi);
    if negb (hasNextHop outFace 0 fibEntry) then None
    else if wouldViolateScope faceOf inFace interest outFace then None
    else
      let rto := computeRto (mt_rtt mi) in
      Some (onOutgoingInterest now outFace interest fx, Some (now + rto * us, (id inFace, lastNexthop mi))).

Definition afterReceiveNewInterest self now inFace interest fibEntry st fx rtoTimer : option (Fx * RtoTimer) :=
  m ← findPrefixMeasurements self (fx_pit fx) st;
  match m ≫= (fun nmi => sendToLastNexthop now inFace interest nmi.2 fibEntry fx) with
  | Some r => Some r
  | None =>
      let '(fx, nMulticastSent) := multicast now inFace interest fibEntry INVALID_FACEID fx in
      if nMulticastSent <? 1 then fx ← rejectPendingInterest now fx; Some (fx, rtoTimer) else Some (fx, rtoTimer)
  end.

Definition afterReceiveRetxInterest now inFace interest fibEntry fx rtoTimer : Fx * RtoTimer :=
  ((multicast now inFace interest fibEntry INVALID_FACEID fx).1, rtoTimer).

Definition acc_afterReceiveInterest self now inFace interest fibEntry acc fx rtoTimer : option (Fx * RtoTimer) :=
  suppressResult ← decidePerPitEntry_fixed DEFAULT_MIN_RETX_INTERVAL now (fx_pit fx);
  match suppressResult with
  | NEW => afterReceiveNewInterest self now inFace interest fibEntry (acc_measurements acc) fx rtoTimer
  | FORWARD => Some (afterReceiveRetxInterest now inFace interest fibEntry fx rtoTimer)
  | SUPPRESS => Some (fx, rtoTimer)
  end.

(** [None] is the failed assertion that the in-record exists. *)
Definition afterRtoTimeout now (inFaceId firstOutFaceId : Z) fibEntry fx : option Fx :=
  match faceById inFaceId with
  | None => Some fx
  | Some inFace =>
      inRecord ← getInRecord inFace (fx_pit fx);
      interest ← in_interest inRecord;
      Some (multicast now inFace interest fibEntry firstOutFaceId fx).1
  end.

(** The timer is cancelled. *)
Definition acc_beforeSatisfyInterest self now pe inFace data acc : option (Access * RtoTimer) :=
  if negb (hasInRecords pe) then Some (acc, None)
  else match getOutRecord inFace pe with
       | None => Some (acc, None)
       | Some outRecord =>
           acc ← updateMeasurements self now inFace data (Z.quot (now - out_lastRenewed outRecord) 1000) acc;
           Some (acc, None)
       end.

(** ** Correctness *)

Notation tree st := (nt_entries (ms_tree st)).
Notation choices st := (sc_view (tree st)).
Notation frame := (frame MtInfo_typeId).
Notation opened := (opened MtInfo_typeId).
Notation mt_item := (item MtInfo_typeId newMtInfo).

(** The next hops that a multicast goes to. *)
Definition multicast_faces inFace interest (exceptFace : Z) fibEntry : list Z :=
  nh_face <$> remove_if (fun nh => negb (multicastTo inFace interest exceptFace nh)) (m_nextHops fibEntry).

Lemma multicast_ok now inFace interest exceptFace fibEntry fx :
  let r := multicast now inFace interest fibEntry exceptFace fx in
  fx_sent r.1 = fx_sent fx ++ ((fun face => SendInterest face interest) <$> multicast_faces inFace interest exceptFace fibEntry) /\
  r.2 = Z.of_nat (length (multicast_faces inFace interest exceptFace fibEntry)).
Proof.
  unfold multicast, multicast_faces. cbv zeta.
  assert (forall l k fx, let r := multicast_loop now inFace interest exceptFace l k fx in
    let m := nh_face <$> remove_if (fun nh => negb (multicastTo inFace interest exceptFace nh)) l in
    fx_sent r.1 = fx_sent fx ++ ((fun face => SendInterest face interest) <$> m) /\ r.2 = k + Z.of_nat (length m)) as Hall.
  { induction l as [|nh l IH]; intros k fx'; cbv zeta; simpl; [split; [by rewrite app_nil_r|lia]|].
    destruct (multicastTo inFace interest exceptFace nh); cbn [negb]; [|apply IH].
    destruct (IH (k + 1) (onOutgoingInterest now (nh_face nh) interest fx')) as [-> ->]. split; [cbn [onOutgoingInterest fx_sent]; by rewrite <-app_assoc|rewrite fmap_cons; cbn [length]; lia]. }
  destruct (Hall (m_nextHops fibEntry) 0 fx) as [-> ->]. split; [done|lia].
Qed.

(** Best route version 1 sends an Interest without pending out-records to one face:
    of the next hops it may go to, which are those not used before and not the only
    downstream, a cheapest one when the FIB entry is ordered; and rejects it when
    there is none. *)
Theorem bestRoute1_correct now inFace interest fibEntry fx : entry_ok fibEntry ->
  let allowed nh := negb (wouldViolateScope faceOf inFace interest (nh_face nh)) && canForwardToLegacy now (fx_pit fx) (nh_face nh) in
  exists fx', bestRoute1_afterReceiveInterest now inFace interest fibEntry fx = Some fx' /\
    if hasPendingOutRecords now (fx_pit fx) then fx' = fx
    else (exists nh, nh ∈ m_nextHops fibEntry /\ allowed nh = true /\ fx' = onOutgoingInterest now (nh_face nh) interest fx /\
            forall nh', nh' ∈ m_nextHops fibEntry -> allowed nh' = true -> nh_cost nh <= nh_cost nh') \/
         ((forall nh, nh ∈ m_nextHops fibEntry -> allowed nh = false) /\ fx_sent fx' = fx_sent fx /\ expiryTimer (fx_pit fx') = Some now).
Proof.
  intros [_ Hsorted] allowed. unfold bestRoute1_afterReceiveInterest. destruct (hasPendingOutRecords now (fx_pit fx)); [by exists fx|].
  assert (forall l, bestRoute1_loop now inFace interest l fx = (fun nh => onOutgoingInterest now (nh_face nh) interest fx) <$> find_if allowed l) as ->.
  { induction l as [|nh l IH]; [done|]. cbn [bestRoute1_loop find_if]. fold (allowed nh). by destruct (allowed nh). }
  destruct (find_if allowed (m_nextHops fibEntry)) as [nh|] eqn:Ef; simpl.
  - eexists. split; [done|]. left. exists nh. destruct (find_if_Some _ _ _ Ef) as [Hin Ha]. split_and!; [done|done|done|].
    by apply (find_if_sorted allowed nh_cost (m_nextHops fibEntry) nh).
  - eexists. split; [done|]. right. split_and!; [by apply find_if_None|done|]. simpl. f_equal. lia.
Qed.

(** Where the item of a name is: the longest measured prefix, if it is the
    strategy's own. *)
Definition own_prefix self name st : option Name := measured name st ≫= (fun n => if inCharge self (choices st) n then Some n else None).

Lemma findPrefix_ok self pe st : env_ok st ->
  findPrefixMeasurements self pe st =
    match own_prefix self (i_name (m_interest pe)) st with
    | None => Some None
    | Some n => mi ← item_read MtInfo_typeId n st; Some (Some (n, mi))
    end.
Proof.
  intros Henv. unfold findPrefixMeasurements. destruct (accessor_lpm_ok self (i_name (m_interest pe)) st Henv) as [-> _]. done.
Qed.

(** What is sent for a new Interest, when the last working next hop is [mi]'s. *)
Definition new_interest now inFace interest fibEntry fx (mi : option MtInfo) (fx' : Fx (C:=C)) : Prop :=
  match mi ≫= (fun mi => sendToLastNexthop now inFace interest mi fibEntry fx) with
  | Some (fx1, _) => fx' = fx1
  | None =>
      fx_sent fx' = fx_sent fx ++ ((fun face => SendInterest face interest) <$> multicast_faces inFace interest INVALID_FACEID fibEntry) /\
      (multicast_faces inFace interest INVALID_FACEID fibEntry = [] -> expiryTimer (fx_pit fx') = Some now)
  end.

Lemma afterReceiveNew_ok self now inFace interest fibEntry st fx rtoTimer m : findPrefixMeasurements self (fx_pit fx) st = Some m ->
  exists fx' t', afterReceiveNewInterest self now inFace interest fibEntry st fx rtoTimer = Some (fx', t') /\
    new_interest now inFace interest fibEntry fx (snd <$> m) fx'.
Proof.
  intros Hm. unfold afterReceiveNewInterest, new_interest. rewrite Hm. cbn [mbind option_bind].
  assert (m ≫= (fun nmi => sendToLastNexthop now inFace interest nmi.2 fibEntry fx) =
    (snd <$> m) ≫= (fun mi => sendToLastNexthop now inFace interest mi fibEntry fx)) as -> by (by destruct m).
  destruct ((snd <$> m) ≫= _) as [[fx1 t1]|]; [by exists fx1, t1|].
  destruct (multicast_ok now inFace interest INVALID_FACEID fibEntry fx) as [Hs Hn].
  destruct (multicast now inFace interest fibEntry INVALID_FACEID fx) as [fx1 k]. simpl in Hs, Hn. destruct (Z.ltb_spec k 1) as [Hk|Hk].
  - eexists _, _. split; [done|]. split; [done|]. intros _. simpl. f_equal. lia.
  - exists fx1, rtoTimer. split; [done|]. split; [done|]. intros Hnil. rewrite Hnil in Hn. simpl in Hn. lia.
Qed.

(** *** Learning *)

Notation dataPrefix data := (take getMaxDepth (parentName (data_name data))).

Lemma addPrefix_ok self now data st : env_ok st -> data_name data <> [] -> inCharge self (choices st) (dataPrefix data) = true ->
  exists st', addPrefixMeasurements self now data st = Some (st', dataPrefix data) /\ frame st st' /\
    (forall k, mt_item st' k = mt_item st k) /\ opened (dataPrefix data) (now + ACCESS_LIFETIME) st' /\
    forall k, is_Some (ms_map st' !! k) <-> is_Some (ms_map st !! k) \/ k = dataPrefix data.
Proof.
  intros Henv Hne Hc. unfold addPrefixMeasurements. rewrite bool_decide_false by done.
  destruct (accessor_get_ok (typeId:=MtInfo_typeId) (newItem:=newMtInfo) self now (parentName (data_name data)) st Henv) as (st1 & Hg & Hf1 & Hn1 & Hex1).
  pose proof (fun k => accessor_get_dom _ _ _ _ _ _ k (proj1 Henv) Hg) as Hdom1. rewrite Hg, Hc. cbn [mbind option_bind].
  pose proof (frame_env _ _ Henv Hf1) as Henv1.
  destruct (refresh_ok (typeId:=MtInfo_typeId) (newItem:=newMtInfo) now ACCESS_LIFETIME (dataPrefix data) st1 Henv1 Hex1) as (st2 & Hr & Hf2 & Hn2 & Ho).
  pose proof (fun k => refresh_dom _ _ _ _ _ k Henv1 Hex1 Hr) as Hdom2. rewrite Hr. cbn [mbind option_bind].
  exists st2. split_and!; [done|by eapply frame_trans|intros k; by rewrite Hn2|done|]. intros k. by rewrite Hdom2, Hdom1.
Qed.

(** C36: the strategy learns from Data. When the Data answers a pending Interest of
    a name whose parent the strategy is in charge of, the face it came from becomes
    the last working next hop of that parent; and each later new Interest whose
    longest measured prefix is that parent goes to this face alone, with a timer
    for the round trip estimate, as long as the face is a next hop that the
    Interest may go to. *)
Theorem access_learns self now pe inFace data acc outRecord :
  env_ok (acc_measurements acc) -> data_name data <> [] -> inCharge self (choices (acc_measurements acc)) (dataPrefix data) = true ->
  hasInRecords pe = true -> getOutRecord inFace pe = Some outRecord ->
  exists acc' mi, acc_beforeSatisfyInterest self now pe inFace data acc = Some (acc', None) /\ env_ok (acc_measurements acc') /\
    ms_read (dataPrefix data) (acc_measurements acc') ≫= (fun me => me_info me !! MtInfo_typeId) = Some mi /\ lastNexthop mi = id inFace /\
    forall now' inFace' interest fibEntry fx rtoTimer outFace,
      covers (ms_map (acc_measurements acc)) (dataPrefix data) (take getMaxDepth (i_name (m_interest (fx_pit fx)))) ->
      decidePerPitEntry_fixed DEFAULT_MIN_RETX_INTERVAL now' (fx_pit fx) = Some NEW ->
      faceById (id inFace) = Some outFace -> hasNextHop outFace 0 fibEntry = true -> wouldViolateScope faceOf inFace' interest outFace = false ->
      id inFace <> id inFace' -> id inFace <> INVALID_FACEID ->
      acc_afterReceiveInterest self now' inFace' interest fibEntry acc' fx rtoTimer =
        Some (onOutgoingInterest now' outFace interest fx, Some (now' + computeRto (mt_rtt mi) * us, (id inFace', id inFace))).
Proof.
  intros Henv Hne Hc Hin Hout. unfold acc_beforeSatisfyInterest. rewrite Hin, Hout. cbn [negb]. unfold updateMeasurements.
  destruct (addPrefix_ok self now data _ Henv Hne Hc) as (st1 & -> & Hf1 & Hn1 & Ho1 & Hdom). cbn [mbind option_bind].
  set (fi := addMeasurement _ _). set (g := update_item _ _ fi). pose proof (frame_env _ _ Henv Hf1) as Henv1.
  destruct (item_write_ok (newItem:=newMtInfo) (dataPrefix data) (now + ACCESS_LIFETIME) g st1 Henv1 Ho1) as (Hf2 & Ho2 & Hn2).
  set (st2 := item_write MtInfo_typeId (dataPrefix data) g st1) in *. pose proof (frame_env _ _ Henv1 Hf2) as Henv2.
  set (mi := g (mt_item st1 (dataPrefix data))).
  assert (item_read MtInfo_typeId (dataPrefix data) st2 = Some mi) as Hmi.
  { rewrite (item_read_ok (newItem:=newMtInfo) (dataPrefix data) (now + ACCESS_LIFETIME)) by done. by rewrite Hn2, decide_True. }
  assert (lastNexthop mi = id inFace) as Hlast.
  { unfold mi, g, update_item. destruct (Z.eqb_spec (lastNexthop (mt_item st1 (dataPrefix data))) (id inFace)); simpl; done. }
  eexists _, mi. split_and!; [done|done|exact Hmi|done|].
  intros now' inFace' interest fibEntry fx rtoTimer outFace Hcov Hnew Hface Hhop Hscope Hne1 Hne2.
  unfold acc_afterReceiveInterest, afterReceiveNewInterest. rewrite Hnew. cbn [mbind option_bind acc_measurements]. rewrite findPrefix_ok by done.
  unfold own_prefix. assert (measured (i_name (m_interest (fx_pit fx))) st2 = Some (dataPrefix data)) as ->.
  { apply measured_covers; [|destruct Ho2 as (me & -> & _); by eexists]. destruct Hcov as [Hp Hk]. split; [done|]. intros k Hk1 Hk2 Hk3.
    destruct (ms_map st2 !! k) eqn:Ek; [|done]. exfalso.
    assert (is_Some (ms_map st2 !! k)) as Hs by (by eexists). unfold st2 in Hs. rewrite (write_dom (dataPrefix data) (now + ACCESS_LIFETIME)) in Hs by done.
    apply Hdom in Hs as [Hs| ->]; [|done]. rewrite (Hk k) in Hs by done. by destruct Hs. }
  cbn [mbind option_bind]. rewrite (frame_choices _ _ Hf2), (frame_choices _ _ Hf1), Hc. rewrite Hmi. cbn [mbind option_bind snd].
  unfold sendToLastNexthop. rewrite Hlast. rewrite (proj2 (Z.eqb_neq _ _) Hne2), (proj2 (Z.eqb_neq _ _) Hne1), Hface. cbn [mbind option_bind].
  by rewrite Hhop, Hscope.
Qed.

(** An entry that another strategy makes. A strategy that asks for the entry of
    a FIB entry, as ASF does for each Interest, makes one in the measurements table
    also where the access strategy is in charge, and gets nothing. The next new
    Interest for which that is the longest measured prefix then finds an entry
    without an item, and the assertion that it has one fails. *)
Theorem access_foreign_entry_fails self other now prefix acc :
  env_ok (acc_measurements acc) -> fib_known prefix (acc_measurements acc) -> self <> other ->
  inCharge self (choices (acc_measurements acc)) prefix = true -> ms_map (acc_measurements acc) !! prefix = None ->
  exists st', accessor_get_fib other now prefix (acc_measurements acc) = Some (st', None) /\ env_ok st' /\
    forall now' inFace interest fibEntry fx rtoTimer,
      covers (ms_map (acc_measurements acc)) prefix (take getMaxDepth (i_name (m_interest (fx_pit fx)))) ->
      decidePerPitEntry_fixed DEFAULT_MIN_RETX_INTERVAL now' (fx_pit fx) = Some NEW ->
      acc_afterReceiveInterest self now' inFace interest fibEntry (mkAccess st' (acc_fit acc)) fx rtoTimer = None.
Proof.
  intros Henv Hk Hne Hc Hnone. unfold accessor_get_fib. set (st := acc_measurements acc) in *.
  destruct (ms_get_fib_ok now prefix st) as (st' & -> & Hg); [apply Henv| |].
  { destruct Hk as [[f Hf]| ->]; [left|by right]. destruct Henv as ((Hok & _) & _). rewrite deref_spec by done.
    unfold fib_at, tables_at in Hf. destruct (tree st !! prefix); [by exists f|done]. }
  cbn [mbind option_bind]. rewrite (got_filter (typeId:=MtInfo_typeId) (newItem:=newMtInfo) other now prefix st st') by done.
  destruct (got_frame (typeId:=MtInfo_typeId) (newItem:=newMtInfo) now prefix st st' Hg) as (Hf & _ & Hex).
  assert (inCharge other (choices st) prefix = false) as ->.
  { unfold inCharge in *. destruct (charge (choices st) prefix) as [s|]; [|done]. apply Z.eqb_eq in Hc. apply Z.eqb_neq. lia. }
  exists st'. split_and!; [done|by eapply frame_env|]. intros now' inFace interest fibEntry fx rtoTimer Hcov Hnew.
  unfold acc_afterReceiveInterest, afterReceiveNewInterest. rewrite Hnew. cbn [mbind option_bind acc_measurements].
  rewrite findPrefix_ok by (by eapply frame_env). unfold own_prefix.
  assert (measured (i_name (m_interest (fx_pit fx))) st' = Some prefix) as ->.
  { apply measured_covers; [|done]. destruct Hcov as [Hp Hcov]. split; [done|]. intros k Hk1 Hk2 Hk3. destruct Hg as (_ & Hm & _).
    rewrite Hm, lookup_insert_ne by done. by apply Hcov. }
  cbn [mbind option_bind]. rewrite (frame_choices _ _ Hf), Hc. unfold item_read. destruct Hg as (Hok' & Hm & _).
  rewrite ms_read_ok by apply Hok'. rewrite Hm, lookup_insert_eq. unfold get_entry. rewrite Hnone. reflexivity.
Qed.

End Access.

(** ** A strategy at 5, chosen for [/1], and Data [/1/2/3] from face 4 *)
Module AccessExamples.
Import StrategyExamples ItemExamples.

Definition acc0 (prefix : list Z) : AccessStrategy (Hashtable Z (Entry Z (FibEntry Z) (PitEntry Z) (MeasurementsEntry Z MtInfo) (StrategyChoiceEntry Z))) :=
  mkAccess (routed_tree prefix) ∅.

Definition pe0 : PitEntry Z := insertOrUpdateOutRecord 0 4 anInterest (insertOrUpdateInRecord 0 2 anInterest (newPitEntry anInterest)).
Definition data0 : Data (C:=Z) := ([1; 2; 3], 5%positive, 0).

Example access_learns_witness : exists acc' mi, acc_beforeSatisfyInterest faces 5 2000000 pe0 4 data0 (acc0 [1]) = Some (acc', None) /\
  ms_read [1; 2] (acc_measurements acc') ≫= (fun me => me_info me !! MtInfo_typeId) = Some mi /\ lastNexthop mi = 4.
Proof.
  destruct (routed_tree_ok (I:=MtInfo) [1]) as (Henv & Hm & Hv & Hk); [apply Nat.leb_le; reflexivity|].
  destruct (access_learns faces (fun f => Some f) 5 2000000 pe0 4 data0 (acc0 [1]) (updateOutRecord 0 anInterest (newOutRecord 4)))
    as (acc' & mi & Hb & _ & Hmi & Hl & _).
  - exact Henv.
  - discriminate.
  - cbn [acc0 acc_measurements]. rewrite Hv. reflexivity.
  - reflexivity.
  - reflexivity.
  - exists acc', mi. split; [exact Hb|]. split; [exact Hmi|exact Hl].
Defined.

Example access_foreign_entry_fails_witness : exists st', accessor_get_fib 9 0 [1] (acc_measurements (acc0 [1])) = Some (st', None) /\
  acc_afterReceiveInterest faces (fun f => Some f) 5 0 2 anInterest (route [1]) (mkAccess st' ∅) (mkFx (newPitEntry anInterest) []) None = None.
Proof.
  destruct (routed_tree_ok (I:=MtInfo) [1]) as (Henv & Hm & Hv & Hk); [apply Nat.leb_le; reflexivity|].
  destruct (access_foreign_entry_fails faces (fun f => Some f) 5 9 0 [1] (acc0 [1])) as (st' & Hg & _ & Hf).
  - exact Henv.
  - exact Hk.
  - discriminate.
  - cbn [acc0 acc_measurements]. rewrite Hv. reflexivity.
  - cbn [acc0 acc_measurements]. rewrite Hm. apply lookup_empty.
  - exists st'. split; [exact Hg|]. apply Hf; [|reflexivity]. cbn [acc0 acc_measurements]. rewrite Hm.
    split; [by exists [2]|]. intros k _ _ _. apply lookup_empty.
Defined.

End AccessExamples.
