(* ===== verification/Ncc.v ===== *)
(** * The NCC strategy

    Models [daemon/fw/ncc-strategy.hpp/.cpp]: the face that answered last for a
    name is tried first, for as long as the prediction says; then the Interest is
    propagated to one next hop after another.

    [PitEntryInfo] of a PIT entry, with its two timers, is passed along with the
    entry; [None] is an entry without one. [alive] tells which weak pointers to
    faces can be locked, [faceById] is [Forwarder::getFace], and [draw hi] is what
    the uniform distribution from 0 to [hi] gives. *)

From S2P Require Import Prelude Ndn Hashtable NameTree Fib Pit Measurements StrategyRegistry StrategyChoice StrategyItems FwAlgorithm Strategy.
Local Open Scope Z_scope.

(** ** Items *)

(** Of a measurements entry; the prediction is in microseconds. *)
Record NccInfo := mkNccInfo { bestFace : option Z; previousFace : option Z; prediction : Z }.
Definition NccInfo_typeId : Z := 1000.

Definition INITIAL_PREDICTION : Z := 8192.
Definition MIN_PREDICTION : Z := 127.
Definition MAX_PREDICTION : Z := 160 * 1000.
Definition ADJUST_PREDICT_DOWN_SHIFT : Z := 7.
Definition ADJUST_PREDICT_UP_SHIFT : Z := 3.

Definition newNccInfo : NccInfo := mkNccInfo None None INITIAL_PREDICTION.

Definition adjustPredictDown (m : NccInfo) : NccInfo :=
  mkNccInfo (bestFace m) (previousFace m)
    (Z.max MIN_PREDICTION (prediction m - Z.shiftr (prediction m) ADJUST_PREDICT_DOWN_SHIFT)).
Definition adjustPredictUp (m : NccInfo) : NccInfo :=
  mkNccInfo (bestFace m) (previousFace m)
    (Z.min MAX_PREDICTION (prediction m + Z.shiftr (prediction m) ADJUST_PREDICT_UP_SHIFT)).
Definition ageBestFace (m : NccInfo) : NccInfo := mkNccInfo None (bestFace m) (prediction m).

(** Of a PIT entry: when its timers fire, the second with the incoming face, and the interval in microseconds. *)
Record NccPitInfo := mkNccPitInfo { bestFaceTimeout : option Z; propagateTimer : option (Z * Z); maxInterval : Z }.

(** In microseconds; the last one in nanoseconds. *)
Definition DEFER_FIRST_WITHOUT_BEST_FACE : Z := 4 * 1000.
Definition DEFER_RANGE_WITHOUT_BEST_FACE : Z := 75 * 1000.
Definition UPDATE_MEASUREMENTS_N_LEVELS : nat := 2.
Definition MEASUREMENTS_LIFETIME : Z := 16000 * ms.

Section Ncc.
Context {C : Type} `{Packets C} `{!ScopePrefixes C} `{!NackReasons}.
Notation Name := (list C).
Notation Interest := (Interest C).
Notation MeasurementsEntry := (MeasurementsEntry C NccInfo).
Notation Entry := (Entry C (FibEntry C) (PitEntry C) MeasurementsEntry (StrategyChoiceEntry C)).
Context {T : Type} `{!NodeTable C Entry newEntry T}.
Context (faceOf : Z -> FaceInfo) (faceById : Z -> option Z) (alive : Z -> bool) (draw : Z -> Z).
Notation id f := (f_id (faceOf f)).
Implicit Types (st : Measurements T) (n : Name) (interest : Interest) (fibEntry : FibEntry C)
  (pe : PitEntry C) (now self inFace : Z) (fx : Fx (C:=C)) (m : NccInfo) (pi : NccPitInfo).

Definition lock (face : option Z) : option Z := match face with Some f => if alive f then Some f else None | None => None end.

(** The best face is renewed from the previous one when it is gone. *)
Definition getBestFace m : option Z * NccInfo :=
  match lock (bestFace m) with
  | Some best => (Some best, m)
  | None => let best := lock (previousFace m) in (best, mkNccInfo best (previousFace m) (prediction m))
  end.

Definition updateBestFace (face : Z) m : NccInfo :=
  match lock (bestFace m) with
  | None => mkNccInfo (Some face) (previousFace m) (prediction m)
  | Some best => if best =? face then adjustPredictDown m else mkNccInfo (Some face) (bestFace m) (prediction m)
  end.

(** The item of an entry, a new one as that of the parent. [None] is also the
    end of the fuel, the number of components of the name and one. *)
Fixpoint inheritInfo (fuel : nat) self now n st : option (Measurements T) :=
  match fuel with
  | O => None
  | Datatypes.S fuel =>
      me ← ms_read n st;
      match me_info me !! NccInfo_typeId with
      | Some _ => Some st
      | None =>
          let st := ms_write n (insertItem NccInfo_typeId newNccInfo) st in
          '(st, parentEntry) ← accessor_getParent self now n st;
          match parentEntry with
          | None => Some st
          | Some p =>
              st ← inheritInfo fuel self now p st;
              parentInfo ← item_read NccInfo_typeId p st;
              Some (item_write NccInfo_typeId n (fun _ => parentInfo) st)
          end
      end
  end.

Definition getMeasurementsEntryInfo self now n st : option (Measurements T) := inheritInfo (Datatypes.S (length n)) self now n st.

(** With the entry that the item is on; [None] is the failed assertion that there is one. *)
Definition getMeasurementsEntryInfo_pit self now pe st : option (Measurements T * Name) :=
  '(st, me) ← accessor_get_pit self now (pit_key pe) st;
  n ← me;
  st ← getMeasurementsEntryInfo self now n st;
  Some (st, n).

(** ** Forwarding *)

Definition canSend now inFace interest pe (outFace : Z) : bool :=
  negb (wouldViolateScope faceOf inFace interest outFace) && canForwardToLegacy now pe outFace.

(** A face of an item, if it is alive, a next hop, and one the Interest may go to. *)
Definition usableFace now inFace interest fibEntry pe (face : option Z) : option Z :=
  match face with
  | Some f => if hasNextHop f 0 fibEntry && canSend now inFace interest pe f then Some f else None
  | None => None
  end.

(** The interval in microseconds; the operands are unsigned 64-bit integers. *)
Definition nextInterval (deferFirst deferRange nUpstreams : Z) : Z :=
  if 0 <? nUpstreams then Z.max 1 (u64 (2 * deferRange + nUpstreams - 1) / nUpstreams) else deferFirst.

(** A new item of a PIT entry, whose interval is not initialised. *)
Definition insertPitInfo (garbage : Z) (info : option NccPitInfo) : NccPitInfo := default (mkNccPitInfo None None garbage) info.

Definition ncc_afterReceiveInterest self (garbage : Z) now inFace interest fibEntry st fx (info : option NccPitInfo)
    : option (Measurements T * Fx * option NccPitInfo) :=
  let nexthops := m_nextHops fibEntry in
  if bool_decide (nexthops = []) then fx ← rejectPendingInterest now fx; Some (st, fx, info)
  else
    let pi := insertPitInfo garbage info in
    if hasPendingOutRecords now (fx_pit fx) then Some (st, fx, Some pi)
    else
      '(st, n) ← getMeasurementsEntryInfo_pit self now (fx_pit fx) st;
      m ← item_read NccInfo_typeId n st;
      let nUpstreams := Z.of_nat (length nexthops) in
      let '(best, m) := getBestFace m in
      let st := item_write NccInfo_typeId n (fun _ => m) st in
      let r := match usableFace now inFace interest fibEntry (fx_pit fx) best with
               | Some f =>
                   Some (onOutgoingInterest now f interest fx, prediction m, Z.quot (prediction m + 1) 2, u64 (nUpstreams - 1),
                         Some (now + prediction m * us))
               | None =>
                   nh ← find_if (fun nh => canSend now inFace interest (fx_pit fx) (nh_face nh)) nexthops;
                   Some (onOutgoingInterest now (nh_face nh) interest fx, DEFER_FIRST_WITHOUT_BEST_FACE, DEFER_RANGE_WITHOUT_BEST_FACE, nUpstreams,
                         bestFaceTimeout pi)
               end in
      match r with
      | None => fx ← rejectPendingInterest now fx; Some (st, fx, Some pi)
      | Some (fx, deferFirst, deferRange, nUpstreams, timeout) =>
          let nUpstreams := match usableFace now inFace interest fibEntry (fx_pit fx) (lock (previousFace m)) with
                            | Some _ => u64 (nUpstreams - 1)
                            | None => nUpstreams
                            end in
          Some (st, fx, Some (mkNccPitInfo timeout (Some (now + deferFirst * us, id inFace)) (nextInterval deferFirst deferRange nUpstreams)))
      end.

(** The timer has fired or is cancelled. *)
Definition stopPropagation pi : NccPitInfo := mkNccPitInfo (bestFaceTimeout pi) None (maxInterval pi).

(** The event of [propagateTimer]. [None] is the failed assertion that the PIT
    entry has its item, a null pointer, or an empty range of the distribution. *)
Definition doPropagate self now (inFaceId : Z) fibEntry st fx (info : option NccPitInfo) : option (Measurements T * Fx * option NccPitInfo) :=
  let info := stopPropagation <$> info in
  match faceById inFaceId with
  | None => Some (st, fx, info)
  | Some inFace =>
      match getInRecord inFace (fx_pit fx) with
      | None => Some (st, fx, info)
      | Some inRecord =>
          interest ← in_interest inRecord;
          pi ← info;
          '(st, n) ← getMeasurementsEntryInfo_pit self now (fx_pit fx) st;
          m ← item_read NccInfo_typeId n st;
          let fx := match usableFace now inFace interest fibEntry (fx_pit fx) (lock (previousFace m)) with
                    | Some f => onOutgoingInterest now f interest fx
                    | None => fx
                    end in
          match find_if (fun nh => canSend now inFace interest (fx_pit fx) (nh_face nh)) (m_nextHops fibEntry) with
          | Some nh =>
              if maxInterval pi - 1 <? 0 then None
              else Some (st, onOutgoingInterest now (nh_face nh) interest fx,
                         Some (mkNccPitInfo (bestFaceTimeout pi) (Some (now + draw (maxInterval pi - 1), inFaceId)) (maxInterval pi)))
          | None => Some (st, fx, Some pi)
          end
      end
  end.

(** ** Measurements *)

(** The loop over an entry and its parents; with whether it stayed in the strategy's namespace. *)
Fixpoint updateLevels (levels : nat) (update : NccInfo -> NccInfo) self now (entry : option Name) st : option (Measurements T * bool) :=
  match levels with
  | O => Some (st, true)
  | Datatypes.S levels =>
      match entry with
      | None => Some (st, false)
      | Some n =>
          st ← extendLifetime now n MEASUREMENTS_LIFETIME st;
          st ← getMeasurementsEntryInfo self now n st;
          let st := item_write NccInfo_typeId n update st in
          '(st, parentEntry) ← accessor_getParent self now n st;
          updateLevels levels update self now parentEntry st
      end
  end.

Definition timeoutOnBestFace self now pe st : option (Measurements T) :=
  '(st, me) ← accessor_get_pit self now (pit_key pe) st;
  '(st, _) ← updateLevels UPDATE_MEASUREMENTS_N_LEVELS adjustPredictUp self now me st;
  Some st.

Definition ncc_beforeSatisfyInterest self now pe inFace st (info : option NccPitInfo) : option (Measurements T * option NccPitInfo) :=
  if negb (hasInRecords pe) then Some (st, info)
  else
    '(st, me) ← accessor_get_pit self now (pit_key pe) st;
    '(st, inside) ← updateLevels UPDATE_MEASUREMENTS_N_LEVELS (updateBestFace inFace) self now me st;
    if negb inside then Some (st, info)
    else match info with
         | None => Some (st, None)
         | Some pi =>
             '(st, n) ← getMeasurementsEntryInfo_pit self now pe st;
             m ← item_read NccInfo_typeId n st;
             let '(best, m) := getBestFace m in
             let st := item_write NccInfo_typeId n (fun _ => m) st in
             Some (st, Some (mkNccPitInfo (if bool_decide (best = Some inFace) then None else bestFaceTimeout pi) None (maxInterval pi)))
         end.

(** ** Correctness *)

Notation tree st := (nt_entries (ms_tree st)).
Notation choices st := (sc_view (tree st)).
Notation frame := (frame NccInfo_typeId).
Notation opened := (opened NccInfo_typeId).
Notation ncc_item := (item NccInfo_typeId newNccInfo).

Definition pred_ok m : Prop := MIN_PREDICTION <= prediction m <= MAX_PREDICTION.
Definition preds_ok st : Prop := forall k, pred_ok (ncc_item st k).

(** The strategy is in charge of an attached PIT entry, and the predictions are within their bounds. *)
Definition ncc_ok self (key : Name * Selectors) st : Prop :=
  env_ok st /\ pit_attached key (ms_tree st) /\ inCharge self (choices st) (take getMaxDepth key.1) = true /\ preds_ok st.

Lemma adjustPredictDown_ok m : pred_ok m -> pred_ok (adjustPredictDown m).
Proof.
  unfold pred_ok, adjustPredictDown, ADJUST_PREDICT_DOWN_SHIFT, MIN_PREDICTION, MAX_PREDICTION. simpl. intros [Hl Hu].
  rewrite Z.shiftr_div_pow2 by lia. assert (0 <= prediction m / 2 ^ 7) by (apply Z.div_pos; lia). lia.
Qed.

Lemma adjustPredictUp_ok m : pred_ok m -> pred_ok (adjustPredictUp m).
Proof.
  unfold pred_ok, adjustPredictUp, ADJUST_PREDICT_UP_SHIFT, MIN_PREDICTION, MAX_PREDICTION. simpl. intros [Hl Hu].
  rewrite Z.shiftr_div_pow2 by lia. assert (0 <= prediction m / 2 ^ 3) by (apply Z.div_pos; lia). lia.
Qed.

Lemma updateBestFace_ok face m : pred_ok m -> pred_ok (updateBestFace face m).
Proof. unfold updateBestFace. repeat case_match; try done. apply adjustPredictDown_ok. Qed.

Lemma ncc_getBestFace_ok m : pred_ok m -> pred_ok (getBestFace m).2 /\ prediction (getBestFace m).2 = prediction m.
Proof. unfold getBestFace. by case_match. Qed.

Lemma ncc_frame self key st st' : ncc_ok self key st -> frame st st' -> preds_ok st' -> ncc_ok self key st'.
Proof.
  intros (Henv & Ha & Hc & _) Hf Hp. split_and!; [by eapply frame_env|by eapply frame_attached|by rewrite (frame_choices _ _ Hf)|done].
Qed.

Lemma write_preds n t g st : env_ok st -> opened n t st -> preds_ok st -> pred_ok (g (ncc_item st n)) ->
  frame st (item_write NccInfo_typeId n g st) /\ preds_ok (item_write NccInfo_typeId n g st) /\ opened n t (item_write NccInfo_typeId n g st).
Proof.
  intros Henv Ho Hp Hg. destruct (item_write_ok (newItem:=newNccInfo) n t g st Henv Ho) as (Hf & Ho' & Hi). split_and!; [done| |done].
  intros k. rewrite Hi. by case_decide; [subst|].
Qed.

(** A new item inherits from the parent, as far as the strategy is in charge. *)
Lemma inherit_ok self now fuel : forall n st, (length n < fuel)%nat -> env_ok st -> is_Some (ms_map st !! n) -> preds_ok st ->
  exists st' t, inheritInfo fuel self now n st = Some st' /\ frame st st' /\ preds_ok st' /\ opened n t st'.
Proof.
  induction fuel as [|fuel IH]; intros n st Hl Henv [me Hme] Hp; [lia|]. cbn [inheritInfo]. rewrite ms_read_ok by apply Henv. rewrite Hme.
  cbn [mbind option_bind]. destruct (me_info me !! NccInfo_typeId) as [m|] eqn:Em.
  { exists st, (me_expiry me). split_and!; [done|apply frame_refl, Henv|done|]. exists me. split_and!; [done|by exists m|lia]. }
  destruct (insertItem_ok (typeId:=NccInfo_typeId) (newItem:=newNccInfo) n me st Henv Hme) as (Hf1 & Hi1 & Ho1). set (st1 := ms_write n _ st) in *.
  pose proof (frame_env _ _ Henv Hf1) as Henv1.
  destruct (accessor_getParent_ok (typeId:=NccInfo_typeId) (newItem:=newNccInfo) self now n st1 Henv1 (opened_exists _ _ _ Ho1)) as (st2 & -> & Hf2 & Hi2 & Hex).
  cbn [mbind option_bind]. pose proof (frame_env _ _ Henv1 Hf2) as Henv2. pose proof (opened_frame _ _ _ _ Hf2 Ho1) as Ho2.
  assert (preds_ok st2) as Hp2 by (intros k; rewrite Hi2, Hi1; apply Hp).
  assert (frame st st2) as Hf12 by (by eapply frame_trans).
  destruct (parent_of n) as [p|] eqn:Ep; cbn [mbind option_bind]; [|by exists st2, (me_expiry me)].
  destruct (inCharge self _ p); [|by exists st2, (me_expiry me)].
  destruct (IH p st2) as (st3 & t3 & -> & Hf3 & Hp3 & Ho3); [apply parent_of_length in Ep; lia|done|by apply Hex|done|]. cbn [mbind option_bind].
  pose proof (frame_env _ _ Henv2 Hf3) as Henv3. rewrite (item_read_ok (newItem:=newNccInfo) p t3) by done. cbn [mbind option_bind].
  destruct (write_preds n (me_expiry me) (fun _ => ncc_item st3 p) st3) as (Hf4 & Hp4 & Ho4); [done|by eapply opened_frame|done|apply Hp3|].
  eexists _, (me_expiry me). split_and!; [done|by do 2 (eapply frame_trans; [eassumption|])|done|done].
Qed.

Lemma entryInfo_ok self now n st : env_ok st -> is_Some (ms_map st !! n) -> preds_ok st ->
  exists st' t, getMeasurementsEntryInfo self now n st = Some st' /\ frame st st' /\ preds_ok st' /\ opened n t st'.
Proof. intros. apply inherit_ok; auto. Qed.

Lemma pitInfo_ok self now pe st : ncc_ok self (pit_key pe) st ->
  exists st' t, getMeasurementsEntryInfo_pit self now pe st = Some (st', take getMaxDepth (pit_key pe).1) /\ ncc_ok self (pit_key pe) st' /\
    opened (take getMaxDepth (pit_key pe).1) t st'.
Proof.
  intros Hok. pose proof Hok as (Henv & Ha & Hc & Hp). unfold getMeasurementsEntryInfo_pit.
  destruct (accessor_get_pit_ok (typeId:=NccInfo_typeId) (newItem:=newNccInfo) self now (pit_key pe) st Henv Ha) as (st1 & -> & Hf1 & Hi1 & Hex).
  rewrite Hc. cbn [mbind option_bind]. destruct (entryInfo_ok self now (take getMaxDepth (pit_key pe).1) st1) as (st2 & t & -> & Hf2 & Hp2 & Ho2);
    [by eapply frame_env|done|intros k; rewrite Hi1; apply Hp|].
  exists st2, t. split_and!; [done| |done]. eapply ncc_frame; [done|by eapply frame_trans|done].
Qed.

Lemma updateLevels_ok self now update levels : (forall m, pred_ok m -> pred_ok (update m)) -> forall entry st, env_ok st -> preds_ok st ->
  (forall n, entry = Some n -> is_Some (ms_map st !! n)) ->
  exists st' inside, updateLevels levels update self now entry st = Some (st', inside) /\ frame st st' /\ preds_ok st'.
Proof.
  intros Hu. induction levels as [|levels IH]; intros entry st Henv Hp Hex; cbn [updateLevels]; [exists st, true; split_and!; [done|apply frame_refl, Henv|done]|].
  destruct entry as [n|]; [|exists st, false; split_and!; [done|apply frame_refl, Henv|done]].
  destruct (item_extend_ok (typeId:=NccInfo_typeId) (newItem:=newNccInfo) now n MEASUREMENTS_LIFETIME st Henv (Hex _ eq_refl)) as (st1 & -> & Hf1 & Hi1 & Hex1).
  cbn [mbind option_bind]. pose proof (frame_env _ _ Henv Hf1) as Henv1.
  destruct (entryInfo_ok self now n st1) as (st2 & t & -> & Hf2 & Hp2 & Ho2); [done|done|intros k; rewrite Hi1; apply Hp|]. cbn [mbind option_bind].
  pose proof (frame_env _ _ Henv1 Hf2) as Henv2. destruct (write_preds n t update st2) as (Hf3 & Hp3 & Ho3); [done|done|done|apply Hu, Hp2|].
  set (st3 := item_write _ _ _ _) in *. pose proof (frame_env _ _ Henv2 Hf3) as Henv3.
  destruct (accessor_getParent_ok (typeId:=NccInfo_typeId) (newItem:=newNccInfo) self now n st3 Henv3 (opened_exists _ _ _ Ho3)) as (st4 & -> & Hf4 & Hi4 & Hex4).
  cbn [mbind option_bind]. set (parent := p ← parent_of n; _).
  destruct (IH parent st4) as (st5 & inside & -> & Hf5 & Hp5);
    [by eapply frame_env|intros k; rewrite Hi4; apply Hp3| |].
  { unfold parent. intros p. destruct (parent_of n) as [q|]; [|done]. cbn [mbind option_bind]. case_match; [|done]. intros [= <-]. by apply Hex4. }
  exists st5, inside. split_and!; [done| |done]. by do 4 (eapply frame_trans; [eassumption|]).
Qed.

(** The update of the two levels above a PIT entry. *)
Lemma pitLevels_ok self now key update st : (forall m, pred_ok m -> pred_ok (update m)) -> ncc_ok self key st ->
  exists st' inside, ('(st, me) ← accessor_get_pit self now key st; updateLevels UPDATE_MEASUREMENTS_N_LEVELS update self now me st) = Some (st', inside) /\
    ncc_ok self key st'.
Proof.
  intros Hu Hok. pose proof Hok as (Henv & Ha & Hc & Hp).
  destruct (accessor_get_pit_ok (typeId:=NccInfo_typeId) (newItem:=newNccInfo) self now key st Henv Ha) as (st1 & -> & Hf1 & Hi1 & Hex). rewrite Hc. cbn [mbind option_bind].
  destruct (updateLevels_ok self now update UPDATE_MEASUREMENTS_N_LEVELS Hu (Some (take getMaxDepth key.1)) st1) as (st2 & inside & -> & Hf2 & Hp2);
    [by eapply frame_env|intros k; rewrite Hi1; apply Hp|by intros ? [= <-]|].
  exists st2, inside. split; [done|]. eapply ncc_frame; [done|by eapply frame_trans|done].
Qed.

(** The predictions stay within their bounds, and no assertion fails, when the best face times out and when Data arrives. *)
Lemma timeout_ok self now pe st : ncc_ok self (pit_key pe) st -> exists st', timeoutOnBestFace self now pe st = Some st' /\ ncc_ok self (pit_key pe) st'.
Proof.
  intros Hok. destruct (pitLevels_ok self now (pit_key pe) adjustPredictUp st adjustPredictUp_ok Hok) as (st' & inside & Hs & Hok'). unfold timeoutOnBestFace.
  destruct (accessor_get_pit _ _ _ _) as [[st1 me]|]; [|done]. cbn [mbind option_bind] in *. rewrite Hs. cbn [mbind option_bind]. by exists st'.
Qed.

Lemma renewBest_ok self pe t st : ncc_ok self (pit_key pe) st -> opened (take getMaxDepth (pit_key pe).1) t st ->
  let n := take getMaxDepth (pit_key pe).1 in ncc_ok self (pit_key pe) (item_write NccInfo_typeId n (fun _ => (getBestFace (ncc_item st n)).2) st).
Proof.
  intros Hok Ho n. pose proof Hok as (Henv & _ & _ & Hp).
  destruct (write_preds n t (fun _ => (getBestFace (ncc_item st n)).2) st) as (Hf & Hp' & _); [done|done|done|apply ncc_getBestFace_ok, Hp|]. by eapply ncc_frame.
Qed.

Lemma ncc_satisfy_ok self now pe inFace st info : ncc_ok self (pit_key pe) st ->
  exists st' info', ncc_beforeSatisfyInterest self now pe inFace st info = Some (st', info') /\ ncc_ok self (pit_key pe) st'.
Proof.
  intros Hok. unfold ncc_beforeSatisfyInterest. destruct (hasInRecords pe); cbn [negb]; [|by exists st, info].
  destruct (pitLevels_ok self now (pit_key pe) (updateBestFace inFace) st (updateBestFace_ok inFace) Hok) as (st1 & inside & Hs & Hok1).
  destruct (accessor_get_pit _ _ _ _) as [[st0 me]|]; [|done]. cbn [mbind option_bind] in *. rewrite Hs. cbn [mbind option_bind].
  destruct inside; cbn [negb]; [|by exists st1, info]. destruct info as [pi|]; [|by exists st1, None].
  destruct (pitInfo_ok self now pe st1 Hok1) as (st2 & t & -> & Hok2 & Ho2). cbn [mbind option_bind].
  rewrite (item_read_ok (newItem:=newNccInfo) _ t) by (done || apply Hok2). cbn [mbind option_bind].
  pose proof (renewBest_ok self pe t st2 Hok2 Ho2) as Hok3. cbv zeta in Hok3. destruct (getBestFace _) as [best m]. eexists _, _. split; [done|exact Hok3].
Qed.

(** *** Exploration *)

(** The timers of the entry run until none is left; [None] is also the end of the fuel. *)
Fixpoint explore (fuel : nat) self fibEntry st fx (info : option NccPitInfo) : option (Measurements T * Fx * option NccPitInfo) :=
  match fuel with
  | O => None
  | Datatypes.S fuel =>
      match info ≫= propagateTimer with
      | None => Some (st, fx, info)
      | Some (now, inFaceId) =>
          '(st, fx, info) ← doPropagate self now inFaceId fibEntry st fx info;
          explore fuel self fibEntry st fx info
      end
  end.

Lemma explore_S fuel self fibEntry st fx (pi : NccPitInfo) : explore (Datatypes.S fuel) self fibEntry st fx (Some pi) =
  match propagateTimer pi with
  | None => Some (st, fx, Some pi)
  | Some (now, inFaceId) => '(st, fx, info) ← doPropagate self now inFaceId fibEntry st fx (Some pi); explore fuel self fibEntry st fx info
  end.
Proof. done. Qed.

Section Explore.
Context (self t0 until inFace : Z) (interest : Interest) (fibEntry : FibEntry C) (pe0 : PitEntry C) (sent0 : list (Action (C:=C))).

(** Where the Interest may go at first. *)
Definition eligible (f : Z) : Prop := f ∈ (nh_face <$> m_nextHops fibEntry) /\ canSend t0 inFace interest pe0 f = true.

Context (Hold : forall r, r ∈ m_outRecords pe0 -> out_expiry r < t0) (Hin : forall r, r ∈ m_inRecords pe0 -> until <= in_expiry r)
  (Hlife : until <= t0 + lifetime_of interest) (Ht0 : t0 <= until).

(** The Interest has been sent to the faces [s], one after the other. *)
Record explored (s : list Z) fx : Prop := {
  ex_nodup : NoDup s;
  ex_eligible f : f ∈ s -> eligible f;
  ex_sent : fx_sent fx = sent0 ++ ((fun f => SendInterest f interest) <$> s);
  ex_in : m_inRecords (fx_pit fx) = m_inRecords pe0;
  ex_key : pit_key (fx_pit fx) = pit_key pe0;
  ex_ok : records_ok (fx_pit fx);
  ex_new f : f ∈ s -> exists r, r ∈ m_outRecords (fx_pit fx) /\ out_face r = f /\ until <= out_expiry r;
  ex_old r : r ∈ m_outRecords (fx_pit fx) -> out_face r ∉ s -> out_expiry r < t0
}.

Lemma canSend_explored s fx t f : explored s fx -> t0 <= t <= until ->
  canSend t inFace interest (fx_pit fx) f = bool_decide (f ∉ s) && canSend t0 inFace interest pe0 f.
Proof.
  intros [_ _ _ Hi _ _ Hn Ho] Ht. unfold canSend, canForwardToLegacy. destruct (wouldViolateScope _ _ _ _); cbn [negb andb]; [by rewrite andb_false_r|].
  assert (existsb (fun r => (out_face r =? f) && (t0 <=? out_expiry r)) (m_outRecords pe0) = false) as ->.
  { apply not_true_iff_false. rewrite existsb_exists. intros (r & Hr%list_elem_of_In & E). apply Hold in Hr. lia. }
  assert (existsb (fun r => (out_face r =? f) && (t <=? out_expiry r)) (m_outRecords (fx_pit fx)) = negb (bool_decide (f ∉ s))) as ->.
  { apply eq_true_iff_eq. rewrite existsb_exists, negb_true_iff, bool_decide_eq_false. split.
    - intros (r & Hr%list_elem_of_In & E) Hf. apply andb_true_iff in E as [E1 E2]. apply Z.eqb_eq in E1. subst f. specialize (Ho r Hr Hf). lia.
    - intros Hf. apply dec_stable in Hf. destruct (Hn f Hf) as (r & Hr & Ef & Hx). exists r. split; [by apply list_elem_of_In|]. lia. }
  assert (forall u, u <= until -> existsb (fun r => negb (in_face r =? f) && (u <=? in_expiry r)) (m_inRecords pe0) = existsb (fun r => negb (in_face r =? f)) (m_inRecords pe0)) as Hu.
  { intros u Hle. apply eq_true_iff_eq. rewrite !existsb_exists. split; intros (r & Hr & E); exists r; (split; [done|]); [lia|].
    apply list_elem_of_In, Hin in Hr. lia. }
  rewrite Hi, (Hu t) by lia. rewrite (Hu t0) by lia. destruct (bool_decide (f ∉ s)); cbn [negb andb]; done.
Qed.

Lemma explored_send s fx t f : explored s fx -> t0 <= t <= until -> f ∈ (nh_face <$> m_nextHops fibEntry) ->
  canSend t inFace interest (fx_pit fx) f = true -> explored (s ++ [f]) (onOutgoingInterest t f interest fx).
Proof.
  intros Hex Ht Hf. rewrite (canSend_explored s fx t f Hex Ht). intros [Hs He]%andb_true_iff. apply bool_decide_eq_true in Hs.
  destruct Hex as [Hnd Hel Hse Hi Hk Hok Hn Ho]. destruct (insertOrUpdateOutRecord_ok t f interest (fx_pit fx) Hok) as (Hok' & Hk' & Hi' & (r & Hr & _ & _ & Hx) & Hother).
  assert (forall g r, g <> f -> r ∈ m_outRecords (insertOrUpdateOutRecord t f interest (fx_pit fx)) -> out_face r = g -> r ∈ m_outRecords (fx_pit fx)) as Hback.
  { intros g r' Hg Hr' Eg. apply (find_key_elem out_face g) in Hr'; [|apply Hok'|done]. specialize (Hother g Hg). unfold getOutRecord in Hother.
    rewrite Hother in Hr'. by apply find_key_Some in Hr' as [? _]. }
  constructor; cbn [fx_pit fx_sent onOutgoingInterest].
  - apply NoDup_app. split_and!; [done|set_solver|apply NoDup_singleton].
  - intros g [Hg| ->%list_elem_of_singleton]%elem_of_app; [auto|by split].
  - by rewrite Hse, fmap_app, app_assoc.
  - by rewrite Hi'.
  - by rewrite Hk'.
  - done.
  - intros g Hg. destruct (decide (g = f)) as [->|Hne].
    + apply find_key_Some in Hr as [Hr1 Hr2]. exists r. split_and!; [done|done|lia].
    + assert (g ∈ s) as Hgs by set_solver. destruct (Hn g Hgs) as (r' & Hr' & Eg & Hxr). exists r'. split_and!; [|done|done].
      apply (find_key_elem out_face g) in Hr'; [|apply Hok|done]. specialize (Hother g Hne). unfold getOutRecord in Hother. rewrite <-Hother in Hr'.
      by apply find_key_Some in Hr' as [? _].
  - intros r' Hr' Hns. apply (Ho r'); [|set_solver]. apply (Hback (out_face r')); [set_solver|done|done].
Qed.

Lemma hasNextHop_elem f (e : FibEntry C) : hasNextHop f 0 e = true -> f ∈ (nh_face <$> m_nextHops e).
Proof.
  unfold hasNextHop, findNextHop. destruct (find_if _ _) as [nh|] eqn:E; [|done]. intros _. apply find_key_Some in E as [Hin' Hk].
  apply list_elem_of_fmap. exists nh. split; [|done]. by injection Hk.
Qed.

(** A face of the measurements, if it may be used. *)
Lemma explored_usable s fx t face : explored s fx -> t0 <= t <= until ->
  match usableFace t inFace interest fibEntry (fx_pit fx) face with
  | Some f => explored (s ++ [f]) (onOutgoingInterest t f interest fx)
  | None => True
  end.
Proof.
  intros Hex Ht. unfold usableFace. destruct face as [f|]; [|done]. destruct (hasNextHop f 0 fibEntry && _) eqn:E; [|done].
  apply andb_true_iff in E as [E1 E2]. apply explored_send; [done|done|by apply hasNextHop_elem|done].
Qed.

(** The first next hop to which the Interest may go; with none, it has been everywhere. *)
Lemma explored_first s fx t : explored s fx -> t0 <= t <= until ->
  match find_if (fun nh => canSend t inFace interest (fx_pit fx) (nh_face nh)) (m_nextHops fibEntry) with
  | Some nh => explored (s ++ [nh_face nh]) (onOutgoingInterest t (nh_face nh) interest fx)
  | None => forall f, eligible f -> f ∈ s
  end.
Proof.
  intros Hex Ht. destruct (find_if _ _) as [nh|] eqn:E.
  - apply find_if_Some in E as [E1 E2]. apply explored_send; [done|done| |done]. apply list_elem_of_fmap. by exists nh.
  - intros f [Hf Hc]. apply list_elem_of_fmap in Hf as (nh & -> & Hnh). pose proof (proj1 (find_if_None _ _) E nh Hnh) as Hn. cbv beta in Hn.
    rewrite (canSend_explored s fx t _ Hex Ht), Hc, andb_true_r in Hn. apply bool_decide_eq_false in Hn. by apply dec_stable.
Qed.

Lemma explored_length s fx : explored s fx -> (length s <= length (m_nextHops fibEntry))%nat.
Proof.
  intros [Hnd Hel _ _ _ _ _ _]. rewrite <-(length_fmap nh_face). apply submseteq_length, NoDup_submseteq; [done|]. intros f Hf. by apply Hel.
Qed.

Context (Hdraw : forall hi, 0 <= hi -> 0 <= draw hi <= hi).
Context (inRecord : InRecord C) (Hface : faceById (id inFace) = Some inFace) (Hrec : getInRecord inFace pe0 = Some inRecord) (Hint : in_interest inRecord = Some interest).

Definition interval_ok pi : Prop := 1 <= maxInterval pi <= MAX_PREDICTION.

(** One step: more faces are tried and the timer is set again, or there are none left. *)
Lemma propagate_ok s st fx pi t : explored s fx -> ncc_ok self (pit_key pe0) st -> interval_ok pi -> t0 <= t <= until ->
  exists st' fx' pi' s', doPropagate self t (id inFace) fibEntry st fx (Some pi) = Some (st', fx', Some pi') /\
    ncc_ok self (pit_key pe0) st' /\ explored s' fx' /\ interval_ok pi' /\
    match propagateTimer pi' with
    | None => forall f, eligible f -> f ∈ s'
    | Some (t', i) => i = id inFace /\ t <= t' <= t + MAX_PREDICTION /\ (length s < length s')%nat
    end.
Proof.
  intros Hex Hok Hint' Ht. pose proof (ex_in _ _ Hex) as Hi. pose proof (ex_key _ _ Hex) as Hk. unfold doPropagate. rewrite Hface.
  unfold getInRecord in *. rewrite Hi, Hrec, Hint. cbn [mbind option_bind fmap option_fmap option_map].
  destruct (pitInfo_ok self t (fx_pit fx) st) as (st1 & t1 & -> & Hok1 & Ho1); [by rewrite Hk|]. cbn [mbind option_bind]. rewrite Hk in *.
  rewrite (item_read_ok (newItem:=newNccInfo) _ t1) by (done || apply Hok1). cbn [mbind option_bind]. set (m := ncc_item st1 _).
  set (fx1 := match usableFace _ _ _ _ _ _ with Some f => _ | None => fx end).
  assert (exists s1, explored s1 fx1 /\ (length s <= length s1)%nat) as (s1 & Hex1 & Hl1).
  { pose proof (explored_usable s fx t (lock (previousFace m)) Hex Ht) as Hu. unfold fx1. destruct (usableFace _ _ _ _ _ _) as [f|]; [|by exists s].
    exists (s ++ [f]). split; [done|]. rewrite length_app. simpl. lia. }
  pose proof (explored_first s1 fx1 t Hex1 Ht) as Hf. destruct (find_if _ (m_nextHops fibEntry)) as [nh|].
  - unfold interval_ok in Hint'. cbn [maxInterval stopPropagation]. rewrite (proj2 (Z.ltb_ge _ _)) by lia. eexists _, _, _, _. split; [reflexivity|]. split_and!; [exact Hok1|exact Hf|exact Hint'|].
    simpl. specialize (Hdraw (maxInterval pi - 1) ltac:(lia)). split_and!; [done|lia|lia|]. rewrite length_app. simpl. lia.
  - eexists _, _, _, s1. split; [reflexivity|]. split_and!; [exact Hok1|exact Hex1|exact Hint'|]. simpl. exact Hf.
Qed.

(** The whole exploration, from a timer set. *)
Lemma explore_ok fuel : forall s st fx pi t, explored s fx -> ncc_ok self (pit_key pe0) st -> interval_ok pi -> propagateTimer pi = Some (t, id inFace) ->
  t0 <= t -> t + (Z.of_nat (length (m_nextHops fibEntry)) - Z.of_nat (length s)) * MAX_PREDICTION <= until -> (length (m_nextHops fibEntry) < length s + fuel)%nat ->
  exists st' fx' pi' s', explore (Datatypes.S fuel) self fibEntry st fx (Some pi) = Some (st', fx', Some pi') /\ propagateTimer pi' = None /\
    ncc_ok self (pit_key pe0) st' /\ explored s' fx' /\ forall f, eligible f -> f ∈ s'.
Proof.
  induction fuel as [|fuel IH]; intros s st fx pi t Hex Hok Hpi Hp Ht Hu Hl.
  { apply explored_length in Hex. lia. }
  rewrite explore_S, Hp. pose proof (explored_length _ _ Hex) as Hlen.
  destruct (propagate_ok s st fx pi t Hex Hok Hpi) as (st1 & fx1 & pi1 & s1 & -> & Hok1 & Hex1 & Hpi1 & Hm).
  { split; [done|]. unfold MAX_PREDICTION in *. nia. }
  cbn [mbind option_bind]. destruct (propagateTimer pi1) as [[t' i]|] eqn:E1.
  - destruct Hm as (-> & Ht' & Hl1). apply (IH s1 st1 fx1 pi1 t'); [done|done|done|done|lia| |lia]. unfold MAX_PREDICTION in *. nia.
  - exists st1, fx1, pi1, s1. by rewrite explore_S, E1.
Qed.
End Explore.

Lemma nextInterval_ok deferFirst deferRange nUpstreams : 1 <= deferFirst <= MAX_PREDICTION -> 1 <= deferRange <= 80000 -> 0 <= nUpstreams ->
  1 <= nextInterval deferFirst deferRange nUpstreams <= MAX_PREDICTION.
Proof.
  intros Hf Hr Hn. unfold nextInterval. destruct (Z.ltb_spec 0 nUpstreams) as [Hp|Hp]; [|done]. split; [lia|]. apply Z.max_lub; [done|].
  assert (0 <= u64 (2 * deferRange + nUpstreams - 1) <= 2 * deferRange + nUpstreams - 1) as Hu by (unfold u64; split; [apply Z.mod_pos_bound; lia|apply Z.mod_le; lia]).
  assert (u64 (2 * deferRange + nUpstreams - 1) / nUpstreams < 2 * deferRange + 1); [apply Z.div_lt_upper_bound; nia|]. unfold MAX_PREDICTION. lia.
Qed.

(** A rejected Interest has been sent nowhere, and there is no timer. *)
Lemma ncc_reject_ok t0 fx : exists fx', rejectPendingInterest t0 fx = Some fx' /\ fx_sent fx' = fx_sent fx /\ expiryTimer (fx_pit fx') = Some t0.
Proof. eexists. split; [done|]. split; [done|]. simpl. f_equal. lia. Qed.

Lemma explore_stop fuel self fibEntry st fx (info : option NccPitInfo) : info ≫= propagateTimer = None ->
  explore (fuel + 2) self fibEntry st fx info = Some (st, fx, info).
Proof. intros Hi. rewrite Nat.add_comm. cbn [Nat.add explore]. by rewrite Hi. Qed.

(** What the theorem says of the result [r] of the handler. *)
Definition explores self t0 inFace interest fibEntry fx (r : option (Measurements T * Fx * option NccPitInfo)) : Prop :=
  exists st1 fx1 info1 st' fx' info' faces, r = Some (st1, fx1, info1) /\
    explore (length (m_nextHops fibEntry) + 2) self fibEntry st1 fx1 info1 = Some (st', fx', info') /\ info' ≫= propagateTimer = None /\
    fx_sent fx' = fx_sent fx ++ ((fun f => SendInterest f interest) <$> faces) /\ NoDup faces /\
    (forall f, f ∈ faces <-> eligible t0 inFace interest fibEntry (fx_pit fx) f) /\
    (faces = [] -> expiryTimer (fx_pit fx') = Some t0) /\ ncc_ok self (pit_key (fx_pit fx)) st'.

Lemma explores_reject self t0 inFace interest fibEntry st fx (info : option NccPitInfo) : ncc_ok self (pit_key (fx_pit fx)) st -> info ≫= propagateTimer = None ->
  (forall f, ~ eligible t0 inFace interest fibEntry (fx_pit fx) f) ->
  explores self t0 inFace interest fibEntry fx (fx ← rejectPendingInterest t0 fx; Some (st, fx, info)).
Proof.
  intros Hok Hp Hno. destruct (ncc_reject_ok t0 fx) as (fx' & -> & Hs & Ht). eexists _, _, _, _, _, _, []. split; [done|].
  split; [by apply explore_stop|]. rewrite app_nil_r. split_and!; [done|done|apply NoDup_nil_2| |done|done]. intros f. split; [set_solver|by intros ?%Hno].
Qed.

Section Handler.
Context (self t0 inFace : Z) (interest : Interest) (fibEntry : FibEntry C) (fx0 : Fx (C:=C)) (inRecord : InRecord C).
Let until : Z := t0 + MAX_PREDICTION * us + Z.of_nat (length (m_nextHops fibEntry)) * MAX_PREDICTION.
Context (Hdraw : forall hi, 0 <= hi -> 0 <= draw hi <= hi) (Hrok : records_ok (fx_pit fx0))
  (Hold : forall r, r ∈ m_outRecords (fx_pit fx0) -> out_expiry r < t0) (Hin : forall r, r ∈ m_inRecords (fx_pit fx0) -> until <= in_expiry r)
  (Hlife : until <= t0 + lifetime_of interest)
  (Hface : faceById (id inFace) = Some inFace) (Hrec : getInRecord inFace (fx_pit fx0) = Some inRecord) (Hint : in_interest inRecord = Some interest).
Notation explored := (explored t0 until inFace interest fibEntry (fx_pit fx0) (fx_sent fx0)).

Lemma until_after : t0 <= until.
Proof. unfold until, MAX_PREDICTION, us. lia. Qed.

Lemma explored_nil : explored [] fx0.
Proof. constructor; try done; [apply NoDup_nil_2|set_solver|by rewrite app_nil_r|set_solver|auto]. Qed.

(** The first face is sent to and the timers are set. *)
Lemma explores_first st fx f deferFirst deferRange nUpstreams (face : option Z) timeout : explored [f] fx -> ncc_ok self (pit_key (fx_pit fx0)) st ->
  1 <= deferFirst <= MAX_PREDICTION -> 1 <= deferRange <= 80000 -> 0 <= nUpstreams ->
  explores self t0 inFace interest fibEntry fx0
    (let nUpstreams := match face with Some _ => u64 (nUpstreams - 1) | None => nUpstreams end in
     Some (st, fx, Some (mkNccPitInfo timeout (Some (t0 + deferFirst * us, id inFace)) (nextInterval deferFirst deferRange nUpstreams)))).
Proof.
  intros Hex Hok Hf Hr Hn. pose proof until_after as Hu. cbv zeta. set (n' := match face with Some _ => _ | None => _ end).
  assert (0 <= n') as Hn' by (unfold n'; destruct face; [unfold u64; apply Z.mod_pos_bound; lia|done]).
  pose proof (nextInterval_ok deferFirst deferRange n' Hf Hr Hn') as Hi. set (pi := mkNccPitInfo _ _ _).
  pose proof (explored_length t0 until inFace interest fibEntry (fx_pit fx0) (fx_sent fx0) _ _ Hex) as Hl. simpl in Hl.
  destruct (explore_ok self t0 until inFace interest fibEntry (fx_pit fx0) (fx_sent fx0) Hold Hin Hlife Hu Hdraw inRecord Hface Hrec Hint
    (length (m_nextHops fibEntry) + 1) [f] st fx pi (t0 + deferFirst * us)) as (st' & fx' & pi' & s' & He & Hp & Hok' & Hex' & Hall);
    [done|done|done|done|unfold us; lia| |simpl; lia|].
  { unfold until, MAX_PREDICTION, us in *. simpl length. lia. }
  exists st, fx, (Some pi), st', fx', (Some pi'), s'. split; [done|]. replace (length (m_nextHops fibEntry) + 2)%nat with (Datatypes.S (length (m_nextHops fibEntry) + 1)) by lia.
  split; [done|]. split_and!; [done|apply Hex'|apply Hex'| | |done].
  - intros g. split; [apply Hex'|apply Hall].
  - intros ->. exfalso. specialize (Hall f). assert (f ∈ (@nil Z)) as Hno; [|set_solver]. apply Hall, Hex. set_solver.
Qed.
End Handler.

(** C31: an Interest that the strategy forwards explores all of its next hops. With
    the strategy in charge of the PIT entry, whose older out-records have expired,
    and as long as the Interest and its in-records last for 160 milliseconds and
    160 microseconds per next hop: no assertion fails, the timers of the entry end
    after at most one event per next hop, and until then the Interest is sent once
    to each next hop that it may go to, which are those that do not violate scope
    and are not its only downstream, and to no other face. When there is none it is
    rejected. The predictions stay between 127 microseconds and 160 milliseconds. *)
Theorem ncc_explores self garbage t0 inFace interest fibEntry st fx (info : option NccPitInfo) inRecord :
  let k := length (m_nextHops fibEntry) in let until := t0 + MAX_PREDICTION * us + Z.of_nat k * MAX_PREDICTION in
  (forall hi, 0 <= hi -> 0 <= draw hi <= hi) ->
  ncc_ok self (pit_key (fx_pit fx)) st -> records_ok (fx_pit fx) ->
  (forall r, r ∈ m_outRecords (fx_pit fx) -> out_expiry r < t0) -> (forall r, r ∈ m_inRecords (fx_pit fx) -> until <= in_expiry r) ->
  until <= t0 + lifetime_of interest -> info ≫= propagateTimer = None ->
  faceById (id inFace) = Some inFace -> getInRecord inFace (fx_pit fx) = Some inRecord -> in_interest inRecord = Some interest ->
  exists st1 fx1 info1 st' fx' info' faces,
    ncc_afterReceiveInterest self garbage t0 inFace interest fibEntry st fx info = Some (st1, fx1, info1) /\
    explore (k + 2) self fibEntry st1 fx1 info1 = Some (st', fx', info') /\ info' ≫= propagateTimer = None /\
    fx_sent fx' = fx_sent fx ++ ((fun f => SendInterest f interest) <$> faces) /\ NoDup faces /\
    (forall f, f ∈ faces <-> f ∈ (nh_face <$> m_nextHops fibEntry) /\ canSend t0 inFace interest (fx_pit fx) f = true) /\
    (faces = [] -> expiryTimer (fx_pit fx') = Some t0) /\ ncc_ok self (pit_key (fx_pit fx)) st'.
Proof.
  intros k until Hdraw Hok Hrok Hold Hin Hlife Hinfo Hface Hrec Hint.
  change (explores self t0 inFace interest fibEntry fx (ncc_afterReceiveInterest self garbage t0 inFace interest fibEntry st fx info)). unfold ncc_afterReceiveInterest.
  destruct (bool_decide (m_nextHops fibEntry = [])) eqn:En.
  { apply explores_reject; [done|done|]. intros f [Hf _]. apply bool_decide_eq_true in En. rewrite En in Hf. set_solver. }
  assert (hasPendingOutRecords t0 (fx_pit fx) = false) as ->.
  { apply not_true_iff_false. unfold hasPendingOutRecords, isPendingOut. rewrite existsb_exists. intros (r & Hr%list_elem_of_In%Hold & E). lia. }
  destruct (pitInfo_ok self t0 (fx_pit fx) st Hok) as (st1 & t1 & -> & Hok1 & Ho1). cbn [mbind option_bind].
  rewrite (item_read_ok (newItem:=newNccInfo) _ t1) by (done || apply Hok1). cbn [mbind option_bind].
  pose proof (renewBest_ok self (fx_pit fx) t1 st1 Hok1 Ho1) as Hok2. cbv zeta in Hok2.
  destruct (ncc_getBestFace_ok (ncc_item st1 (take getMaxDepth (pit_key (fx_pit fx)).1))) as [Hm _]; [apply Hok1|].
  destruct (getBestFace _) as [best m]. cbn [snd] in *. set (st2 := item_write _ _ _ _) in *.
  assert (explored t0 until inFace interest fibEntry (fx_pit fx) (fx_sent fx) [] fx) as Hex0 by (eapply explored_nil; eassumption).
  assert (t0 <= t0 <= until) as Htu by (split; [lia|apply (until_after t0 fibEntry)]).
  pose proof (explored_usable t0 until inFace interest fibEntry (fx_pit fx) (fx_sent fx) Hold Hin Hlife (until_after t0 fibEntry) [] fx t0 best Hex0 Htu) as Hb.
  pose proof (explored_first t0 until inFace interest fibEntry (fx_pit fx) (fx_sent fx) Hold Hin Hlife (until_after t0 fibEntry) [] fx t0 Hex0 Htu) as Hfirst.
  unfold pred_ok, MIN_PREDICTION in Hm. destruct (usableFace t0 inFace interest fibEntry (fx_pit fx) best) as [f|].
  - eapply explores_first; try eassumption; [lia| |unfold u64; apply Z.mod_pos_bound; lia].
    rewrite Z.quot_div_nonneg by lia. unfold MAX_PREDICTION in Hm. split; [apply Z.div_le_lower_bound; lia|]. apply Z.lt_succ_r, Z.div_lt_upper_bound; lia.
  - destruct (find_if _ (m_nextHops fibEntry)) as [nh|]; cbn [mbind option_bind].
    + eapply explores_first; try eassumption; unfold DEFER_FIRST_WITHOUT_BEST_FACE, DEFER_RANGE_WITHOUT_BEST_FACE, MAX_PREDICTION; lia.
    + apply explores_reject; [done| |intros f Hf; apply Hfirst in Hf; set_solver]. unfold insertPitInfo. by destruct info.
Qed.
End Ncc.

(** ** A strategy at 5, chosen for [/1], with an Interest [/1/2] from face 2 and a route to faces 4 and 5 *)
Module NccExamples.
Import StrategyExamples ItemExamples.

Definition pending : PitEntry Z := insertOrUpdateInRecord 0 2 anInterest (newPitEntry anInterest).

Definition ncc_tree : Hashtable Z (Entry Z (FibEntry Z) (PitEntry Z) (MeasurementsEntry Z NccInfo) (StrategyChoiceEntry Z)) :=
  put [1; 2] (insertPitEntry pending) (put [1] (setFibEntry (Some (route [1]))) tree0).

Lemma ncc_tree_ok : ncc_ok 5 (pit_key pending) (mkMeasurements ncc_tree 0).
Proof.
  assert (holds ncc_tree choices0 (<[ [1] := route [1] ]> ∅) (<[ [1; 2] := [pending] ]> ∅)) as Hh.
  { apply (put_pit [1; 2] pending); [apply put_fib; [apply tree0_holds|]|]; apply Nat.leb_le; reflexivity. }
  destruct (holds_initial _ _ _ _ Hh) as (He & Hm & Hv & _); [by eexists|]. split_and!; [exact He| | |].
  - eapply (holds_attached _ _ _ _ _ [pending] pending Hh); reflexivity.
  - cbn [ms_tree]. rewrite Hv. reflexivity.
  - intros k. unfold item. rewrite Hm, lookup_empty. simpl. unfold pred_ok. simpl. unfold INITIAL_PREDICTION, MIN_PREDICTION, MAX_PREDICTION. lia.
Qed.

Lemma route_faces f : f ∈ (nh_face <$> m_nextHops (route [1])) <-> f = 4 \/ f = 5.
Proof. unfold route. simpl. set_solver. Qed.

Example ncc_explores_witness : exists st1 fx1 info1 st' fx' info' sent,
  ncc_afterReceiveInterest faces (fun _ => true) 5 0 0 2 anInterest (route [1]) (mkMeasurements ncc_tree 0) (mkFx pending []) None = Some (st1, fx1, info1) /\
  explore faces (fun f => Some f) (fun _ => true) (fun hi => hi) 4 5 (route [1]) st1 fx1 info1 = Some (st', fx', info') /\
  fx_sent fx' = (fun f => SendInterest f anInterest) <$> sent /\ forall f, f ∈ sent <-> f = 4 \/ f = 5.
Proof.
  destruct (ncc_explores faces (fun f => Some f) (fun _ => true) (fun hi => hi) 5 0 0 2 anInterest (route [1]) (mkMeasurements ncc_tree 0) (mkFx pending []) None
    (updateInRecord 0 anInterest (newInRecord 2))) as (st1 & fx1 & info1 & st' & fx' & info' & sent & Ha & He & _ & Hs & _ & Hall & _).
  - intros hi Hhi. lia.
  - exact ncc_tree_ok.
  - split; [apply NoDup_singleton|apply NoDup_nil_2].
  - intros r Hr. exfalso. by apply not_elem_of_nil in Hr.
  - intros r Hr%list_elem_of_singleton. subst r. vm_compute. discriminate.
  - vm_compute. discriminate.
  - reflexivity.
  - reflexivity.
  - reflexivity.
  - reflexivity.
  - exists st1, fx1, info1, st', fx', info', sent. split; [exact Ha|]. split; [exact He|]. split; [exact Hs|]. intros f. rewrite Hall. split.
    + intros [Hf _]. by apply route_faces in Hf.
    + intros Hf. split; [by apply route_faces|]. by destruct Hf as [-> | ->].
Defined.
End NccExamples.
