(* ===== verification/FwTables.v ===== *)
(** * What the forwarder promises itself of its tables

    The forwarding pipelines are written against two interfaces. [Tables] is the
    PIT and the FIB on their name tree: a finite map from (name, selectors) to
    PIT entries, and longest prefix matches in the FIB, which PIT operations leave
    alone. [ContentStore] answers a lookup with Data that satisfies the Interest.
    The name tree with [Pit] and [Fib] implements the first, [Cs] under any
    replacement policy the second. *)

From S2P Require Import Prelude Ndn Hashtable NameTree Fib Pit CsTable Cs.
Local Open Scope Z_scope.

Section Interfaces.
Context {C : Type} `{Packets C}.
Notation Name := (list C).
Notation Key := (list C * Selectors)%type.
Notation Interest := (Interest C).
Notation PitEntry := (PitEntry C).
Notation FibEntry := (FibEntry C).

Class Tables (PT : Type) := {
  tb_ok : PT -> Prop;
  tb_at : Key -> PT -> option PitEntry;
  tb_fib : PT -> gmap Name FibEntry;
  tb_insert : Interest -> PT -> option (PT * Key);
  tb_find : Interest -> PT -> option (option Key);
  tb_read : Key -> PT -> option PitEntry;
  tb_write : Key -> PitEntry -> PT -> PT;
  tb_erase : Key -> PT -> option PT;
  tb_matches : Data -> PT -> option (list PitEntry);
  tb_lpm_pit : Key -> PT -> option FibEntry;
  tb_lpm : Name -> PT -> option FibEntry;
  tb_read_law k t : tb_ok t -> tb_read k t = tb_at k t;
  tb_at_law k t pe : tb_ok t -> tb_at k t = Some pe -> pit_key pe = k /\ records_ok pe;
  tb_insert_law i t : tb_ok t ->
    exists t', tb_insert i t = Some (t', interest_key i) /\ tb_ok t' /\ tb_fib t' = tb_fib t /\
      forall k, tb_at k t' = if decide (k = interest_key i)
        then Some (default (newPitEntry i) (tb_at k t)) else tb_at k t;
  tb_find_law i t : tb_ok t -> tb_find i t = Some (pit_key <$> tb_at (interest_key i) t);
  tb_write_law k pe pe' t : tb_ok t -> tb_at k t = Some pe -> pit_key pe' = k -> records_ok pe' ->
    tb_ok (tb_write k pe' t) /\ tb_fib (tb_write k pe' t) = tb_fib t /\
    forall k', tb_at k' (tb_write k pe' t) = if decide (k' = k) then Some pe' else tb_at k' t;
  tb_erase_law k pe t : tb_ok t -> tb_at k t = Some pe ->
    exists t', tb_erase k t = Some t' /\ tb_ok t' /\ tb_fib t' = tb_fib t /\
      forall k', tb_at k' t' = if decide (k' = k) then None else tb_at k' t;
  tb_matches_law d t : tb_ok t ->
    exists l, tb_matches d t = Some l /\
      forall pe, pe ∈ l <-> tb_at (pit_key pe) t = Some pe /\
        matchesData (i_name (m_interest pe)) (i_selectors (m_interest pe)) d = true;
  tb_lpm_law n t : tb_ok t ->
    exists f, tb_lpm n t = Some f /\ (hasNextHops f = false -> fib_prefix f = []);
  tb_lpm_pit_law k t pe : tb_ok t -> tb_at k t = Some pe -> tb_lpm_pit k t = tb_lpm k.1 t
}.

Class ContentStore (CT : Type) := {
  cst_ok : CT -> Prop;
  cst_data_ok : Data -> Prop;
  cst_query_ok : Interest -> Prop;
  cst_insert : Z -> Data -> bool -> bool -> CT -> option CT;
  cst_find : Z -> Interest -> CT -> option (CT * option Data);
  cst_insert_law now d unsolicited noCache c : cst_ok c -> cst_data_ok d ->
    exists c', cst_insert now d unsolicited noCache c = Some c' /\ cst_ok c';
  cst_find_law now i c : cst_ok c -> cst_query_ok i ->
    exists c' r, cst_find now i c = Some (c', r) /\ cst_ok c' /\
      forall d, r = Some d -> matchesData (i_name i) (i_selectors i) d = true
}.

(** ** The name tree implements the tables *)

Section NameTreeTables.
Context {M S : Type} {T : Type} `{!NodeTable C (Entry C FibEntry PitEntry M S) newEntry T}.
Notation Entry := (Entry C FibEntry PitEntry M S).

Record NfdTables := mkNfdTables { nt_tree : T; nt_nPit : Z; nt_nFib : Z }.
Implicit Types t : NfdTables.

Definition nt_pit t : Pit T := mkPit (nt_tree t) (nt_nPit t).
Definition nt_fib t : Fib T := mkFib (nt_tree t) (nt_nFib t).
Definition of_pit (p : Pit T) (nFib : Z) : NfdTables := mkNfdTables (pit_tree p) (pit_nItems p) nFib.

(** Every FIB entry has a next hop: the operations of the FIB erase an entry
    that lost its last one. *)
Definition nfd_ok t : Prop :=
  pit_ok (nt_pit t) /\ fib_ok (nt_fib t) /\
  forall n f, view (nt_fib t) !! n = Some f -> hasNextHops f = true.

(** The FIB that a name tree holds. *)
Lemma fib_kept t t' :
  (forall n, (tables_at n (nt_entries (nt_tree t'))).1.1.1 = (tables_at n (nt_entries (nt_tree t))).1.1.1) ->
  nt_nFib t' = nt_nFib t -> nfd_ok t -> pit_ok (nt_pit t') ->
  nfd_ok t' /\ view (nt_fib t') = view (nt_fib t).
Proof.
  intros Hf Hn (_ & Hfib & Hall) Hp.
  assert (fib_view (nt_entries (nt_tree t')) = fib_view (nt_entries (nt_tree t))) as Hv.
  { apply map_eq. intros n. by rewrite !fib_view_lookup, Hf. }
  destruct Hfib as (_ & _ & He & Hc). destruct Hp as (Hok & Hwf & Hpp).
  unfold view in *. simpl in *. split; [|done]. split_and!; [done| |].
  - split_and!; simpl; [done|done| |]; rewrite Hv; [done|congruence].
  - unfold view. simpl. by rewrite Hv.
Qed.

Lemma alter_fib (g : list PitEntry -> list PitEntry) n m k :
  (tables_at k (alter (fun e : Entry => set_pitEntries (g (m_pitEntries e)) e) n m)).1.1.1 = (tables_at k m).1.1.1.
Proof.
  destruct (decide (k = n)) as [->|Hne]; [|by rewrite alter_tables].
  unfold tables_at. rewrite lookup_alter_eq. by destruct (m !! n).
Qed.

Lemma update_fib (t : T) n (g : list PitEntry -> list PitEntry) k :
  nt_ok t ->
  (tables_at k (nt_entries (nt_update n (fun e => set_pitEntries (g (m_pitEntries e)) e) t))).1.1.1 =
  (tables_at k (nt_entries t)).1.1.1.
Proof.
  intros Hok. destruct (nt_update_spec t n (fun e => set_pitEntries (g (m_pitEntries e)) e) Hok) as [_ ->].
  apply alter_fib.
Qed.

Lemma insert_fib i (p p' : Pit T) k b n :
  pit_ok p -> pit_insert i p = Some (p', k, b) ->
  (tables_at n (nt_entries (pit_tree p'))).1.1.1 = (tables_at n (nt_entries (pit_tree p))).1.1.1.
Proof.
  intros (Hok & Hwf & _). unfold pit_insert, pit_findOrInsert. destruct (nteDepth_le (i_name i)) as [Hd1 Hd2].
  destruct (lookup_ok (pit_tree p) (i_name i) (nteDepth (i_name i)) Hok Hwf Hd1 Hd2)
    as (t' & -> & Hok' & Hwf' & _ & Htab). cbn [mbind option_bind].
  destruct (deref _ t'); cbn [mbind option_bind]; [|done].
  destruct (find_if _ _); intros [= <- _ _]; simpl; [by rewrite Htab|].
  change (insertPitEntry (newPitEntry i)) with
    (fun e : Entry => set_pitEntries ((fun l => l ++ [newPitEntry i]) (m_pitEntries e)) e).
  by rewrite (update_fib t' _ (fun l => l ++ [newPitEntry i])), Htab.
Qed.

Lemma erase_fib key pe (p p' : Pit T) n :
  pit_ok p -> pit_at key p = Some pe -> pit_erase key true p = Some p' ->
  (tables_at n (nt_entries (pit_tree p'))).1.1.1 = (tables_at n (nt_entries (pit_tree p))).1.1.1.
Proof.
  intros (Hok & Hwf & _) Hat. unfold pit_erase.
  destruct (pit_at_in _ _ _ Hat) as (e & He & _).
  destruct (update_ok (pit_tree p) (nteName key.1) (erasePitEntry (has_key pit_key key)) Hok Hwf)
    as (Hok1 & Hwf1 & He1); [done|].
  destruct (eraseIfEmpty_ok (nt_update (nteName key.1) (erasePitEntry (has_key pit_key key)) (pit_tree p))
    (nteName key.1) true Hok1 Hwf1) as (t2 & c & -> & _ & _ & Htab & _).
  { rewrite He1. apply lookup_alter_is_Some. by eexists. }
  simpl. intros [= <-]. simpl. rewrite Htab, He1. apply alter_fib.
Qed.

Definition overwrite (k : Key) (pe' pe : PitEntry) : PitEntry :=
  if decide (pit_key pe = k) then pe' else pe.

Definition nfd_insert (i : Interest) t : option (NfdTables * Key) :=
  '(p, k, _) ← pit_insert i (nt_pit t); k ← k; Some (of_pit p (nt_nFib t), k).
Definition nfd_write (k : Key) (pe : PitEntry) t : NfdTables :=
  of_pit (pit_write k (overwrite k pe) (nt_pit t)) (nt_nFib t).
Definition nfd_erase (k : Key) t : option NfdTables :=
  p ← pit_erase k true (nt_pit t); Some (of_pit p (nt_nFib t)).

#[global] Program Instance nfd_Tables : Tables NfdTables := {|
  tb_ok := nfd_ok;
  tb_at k t := pit_at k (nt_pit t);
  tb_fib t := view (nt_fib t);
  tb_insert := nfd_insert;
  tb_find i t := pit_find i (nt_pit t);
  tb_read k t := pit_read k (nt_pit t);
  tb_write := nfd_write;
  tb_erase := nfd_erase;
  tb_matches d t := pit_findAllDataMatches d (nt_pit t);
  tb_lpm_pit k t := fib_findLongestPrefixMatch_pit k.1 (nteName k.1) (nt_fib t);
  tb_lpm n t := fib_findLongestPrefixMatch n (nt_fib t)
|}.
Next Obligation. intros k t (Hp & _). by apply pit_read_ok. Qed.
Next Obligation.
  intros k t pe (Hp & _) Hat. destruct (pit_at_in _ _ _ Hat) as (e & He & Hin & Hk & _).
  split; [done|]. destruct Hp as (_ & _ & Hpits & _). specialize (Hpits (nteName k.1)).
  rewrite (pits_at_lookup _ _ _ He) in Hpits. destruct Hpits as [_ Hall].
  rewrite Forall_forall in Hall. by apply Hall.
Qed.
Next Obligation.
  intros i t Ht. pose proof Ht as (Hp & _). destruct (pit_insert_ok i (nt_pit t) Hp) as (p' & Hi & Hp' & Hat).
  unfold nfd_insert. rewrite Hi. cbn [mbind option_bind]. eexists. split; [done|].
  destruct (fib_kept t (of_pit p' (nt_nFib t))) as [Hok Hv]; [|done|done|by destruct p'|].
  { intros n. exact (insert_fib i (nt_pit t) p' _ _ n Hp Hi). }
  split_and!; [done|done|]. intros k. by destruct p'.
Qed.
Next Obligation. intros i t (Hp & _). by apply pit_find_ok. Qed.
Next Obligation.
  intros k pe pe' t Ht Hat Hk Hr. pose proof Ht as (Hp & _).
  destruct (pit_write_ok k (overwrite k pe') pe (nt_pit t) Hp Hat) as [Hp' Hat'].
  { intros x. unfold overwrite. by case_decide; congruence. }
  { unfold overwrite. destruct (pit_at_in _ _ _ Hat) as (e & _ & _ & Hk' & _). by rewrite decide_True. }
  destruct (fib_kept t (of_pit (pit_write k (overwrite k pe') (nt_pit t)) (nt_nFib t))) as [Hok Hv]; [|done|done|done|].
  { intros n. simpl. apply (update_fib (nt_tree t) _ (update_first (has_key pit_key k) (overwrite k pe'))), Hp. }
  split_and!; [done|done|]. intros k'. simpl.
  etrans; [exact (Hat' k')|]. case_decide; [|done]. unfold overwrite.
  destruct (pit_at_in _ _ _ Hat) as (e & _ & _ & Hk' & _). by rewrite decide_True.
Qed.
Next Obligation.
  intros k pe t Ht Hat. pose proof Ht as (Hp & _).
  destruct (pit_erase_ok k true pe (nt_pit t) Hp Hat) as (p' & He & Hp' & Hat' & _).
  unfold nfd_erase. rewrite He. simpl. eexists. split; [done|].
  destruct (fib_kept t (of_pit p' (nt_nFib t))) as [Hok Hv]; [|done|done|by destruct p'|].
  { intros n. by apply (erase_fib k pe (nt_pit t) p'). }
  split_and!; [done|done|]. intros k'. by destruct p'.
Qed.
Next Obligation. intros d t (Hp & _). by apply findAllDataMatches_ok. Qed.
Next Obligation.
  intros n t (_ & Hf & Hall). rewrite fib_lpm_ok by done. eexists. split; [done|].
  destruct (abs_match _ _ _) as [[n' f]|] eqn:Ea; [|done].
  apply abs_match_lookup in Ea. by rewrite (Hall _ _ Ea).
Qed.
Next Obligation.
  intros k t pe (Hp & Hf & Hall) Hat. unfold fib_findLongestPrefixMatch_pit, fib_findLongestPrefixMatch. f_equal.
  destruct (pit_at_in _ _ _ Hat) as (e & He & _). destruct Hp as (Hok & Hwf & _).
  destruct (nteDepth_le k.1) as [Hd _]. apply findLPM_pit_ok; [done|done|done|]. by exists e.
Qed.
End NameTreeTables.

(** ** The content store *)

#[global] Program Instance cs_ContentStore {P : Type} `{!NameOrder C} `{!CsPolicy C P} `{!SuccessorLaw C} :
    ContentStore (Cs C P) := {|
  cst_ok c := cs_ok c /\ names_ok (m_table c);
  cst_data_ok d := name_ok d;
  cst_query_ok i := endsWithDigest (i_name i) = false \/ childSelector (i_selectors i) <> 1;
  cst_insert := cs_insert;
  cst_find := cs_find
|}.
Next Obligation.
  intros P ??? now d u nc c [Hc Hn] Hd. destruct (cs_insert_ok now d u nc c Hc) as (c' & -> & Hc' & Hk).
  exists c'. split_and!; [done|done|]. by eapply names_ok_keys.
Qed.
Next Obligation.
  intros P ??? now i c [Hc Hn] Hq. destruct (cs_find_ok now i c Hc Hn Hq) as (c' & r & -> & Hc' & Ht & Hp).
  exists c', r. split_and!; [done|done|by rewrite Ht|]. intros d ->. destruct Hp as (e & _ & <- & Hs).
  unfold canSatisfy in Hs. by destruct (matchesData _ _ _).
Qed.
End Interfaces.
Arguments NfdTables : clear implicits.
