(* ===== verification/Forwarder.v ===== *)
(** * The forwarding pipelines

    Models [daemon/fw/forwarder.cpp] with [unsolicited-data-policy.*],
    [daemon/table/network-region-table.cpp], [Strategy::lookupFib] and the default
    Data triggers of [strategy.cpp]. The pipelines compose the tables, the content
    store, the dead nonce list and a strategy through their interfaces. The
    strategies in effect are one value with its own state; the signals for
    observers outside the forwarder are left out. A scheduled expiry is the time
    in the PIT entry; the scheduler's call is the event [EvExpire]. *)

From S2P Require Import Prelude Fp Ndn DeadNonceList Fib Pit FwAlgorithm Strategy FwTables.
Local Open Scope Z_scope.

Inductive Counter :=
  nInInterests | nOutInterests | nInData | nOutData | nInNacks | nOutNacks
  | nSatisfiedInterests | nUnsatisfiedInterests | nCsHits | nCsMisses.
#[export] Instance Counter_eq_dec : EqDecision Counter.
Proof. solve_decision. Defined.

Inductive UnsolicitedDataPolicy := DropAll | AdmitLocal | AdmitNetwork | AdmitAll.

Definition bump (c : Counter) (cs : Counter -> Z) : Counter -> Z :=
  fun c' => if decide (c' = c) then u64 (cs c' + 1) else cs c'.

Section Forwarder.
Context {C : Type} `{Packets C} `{!ScopePrefixes C} `{!NackReasons}.
Notation Name := (list C).
Notation Key := (list C * Selectors)%type.
Notation Interest := (Interest C).
Notation PitEntry := (PitEntry C).
Notation InRecord := (InRecord C).
Notation FibEntry := (FibEntry C).
Context (faceOf : Z -> FaceInfo) (enum : list Z -> list Z) `{!FaceSetOrder enum}.
Context {PT CT St : Type} `{!Tables PT} `{!ContentStore CT} `{!FwStrategy faceOf St}.
(** The TLV encoding of a name, the face of a face identifier, the face that
    stands for the content store, the names of the network regions, and the policy
    for unsolicited Data. *)
Context (nameWire : Name -> list Z) (faceById : Z -> option Z) (csFace : Z).
Context (regions : list Name) (unsolicitedPolicy : UnsolicitedDataPolicy).

Record Forwarder := mkForwarder {
  fw_tables : PT;
  fw_dnl : DeadNonceList;
  fw_cs : CT;
  fw_st : St;
  m_counters : Counter -> Z;
  fw_log : list Action
}.
Implicit Types (fw : Forwarder) (interest : Interest) (data : Data) (key : Key) (pe : PitEntry).

Definition set_tables (t : PT) fw := mkForwarder t (fw_dnl fw) (fw_cs fw) (fw_st fw) (m_counters fw) (fw_log fw).
Definition set_dnl (d : DeadNonceList) fw :=
  mkForwarder (fw_tables fw) d (fw_cs fw) (fw_st fw) (m_counters fw) (fw_log fw).
Definition set_cs (c : CT) fw := mkForwarder (fw_tables fw) (fw_dnl fw) c (fw_st fw) (m_counters fw) (fw_log fw).
Definition count (c : Counter) fw :=
  mkForwarder (fw_tables fw) (fw_dnl fw) (fw_cs fw) (fw_st fw) (bump c (m_counters fw)) (fw_log fw).
Definition emit (a : Action) fw :=
  mkForwarder (fw_tables fw) (fw_dnl fw) (fw_cs fw) (fw_st fw) (m_counters fw) (fw_log fw ++ [a]).

(** The counter that an outgoing pipeline increments. *)
Definition outCounter (a : Action) : Counter :=
  match a with SendInterest _ _ => nOutInterests | SendData _ _ => nOutData | SendNack _ _ _ => nOutNacks end.

(** A packet that leaves through an outgoing pipeline. *)
Definition sendCounted fw (a : Action) : Forwarder := count (outCounter a) (emit a fw).

(** A part of a pipeline, or a strategy trigger, that works on one PIT entry. *)
Definition onEntry key (f : St -> Fx -> option (St * Fx)) fw : option Forwarder :=
  pe ← tb_read key (fw_tables fw);
  '(st, fx) ← f (fw_st fw) (mkFx pe []);
  Some (foldl sendCounted
          (mkForwarder (tb_write key (fx_pit fx) (fw_tables fw)) (fw_dnl fw) (fw_cs fw) st (m_counters fw) (fw_log fw))
          (fx_sent fx)).

(** ** FIB lookup of a strategy *)

Definition isInProducerRegion (forwardingHint : list Name) : bool :=
  existsb (fun regionName => existsb (fun delegation => isPrefixOf delegation regionName) forwardingHint) regions.

Fixpoint delegation_loop (fh : list Name) (fibEntry : option FibEntry) (t : PT) : option FibEntry :=
  match fh with
  | [] => f ← fibEntry; if bool_decide (fib_prefix f = []) then Some f else None
  | del :: fh =>
      f ← tb_lpm del t;
      if hasNextHops f then Some f
      else if bool_decide (fib_prefix f = []) then delegation_loop fh (Some f) t else None
  end.

Definition lookupFib key (t : PT) : option FibEntry :=
  pe ← tb_read key t;
  match i_forwardingHint (m_interest pe) with
  | [] => tb_lpm_pit key t
  | fh => if isInProducerRegion fh then None else delegation_loop fh None t
  end.

(** ** Interest pipelines *)

Definition onInterestLoop (inFace : Z) interest fw : Forwarder :=
  if bool_decide (f_linkType (faceOf inFace) = LINK_TYPE_POINT_TO_POINT)
  then emit (SendNack inFace interest REASON_DUPLICATE) fw else fw.

Definition onContentStoreMiss (now inFace : Z) key interest fw : option Forwarder :=
  let fw := count nCsMisses fw in
  fw ← onEntry key (fun st fx =>
    let pe := insertOrUpdateInRecord now inFace interest (fx_pit fx) in
    lastExpiring ← max_element in_expiry (m_inRecords pe);
    let lastExpiryFromNow := in_expiry lastExpiring - now in
    fx ← setExpiryTimer now (Z.quot lastExpiryFromNow ms) (mkFx pe (fx_sent fx));
    Some (st, fx)) fw;
  match i_nextHopFaceId interest with
  | Some id =>
      match faceById id with
      | Some nextHopFace => onEntry key (fun st fx => Some (st, onOutgoingInterest now nextHopFace interest fx)) fw
      | None => Some fw
      end
  | None =>
      fibEntry ← lookupFib key (fw_tables fw);
      onEntry key (st_afterReceiveInterest faceOf now (m_nextHops fibEntry) inFace interest) fw
  end.

Definition satisfy (now : Z) data fx : option Fx :=
  setExpiryTimer now 0 (mkFx (set_freshness (data_freshness data) (set_satisfied true (fx_pit fx))) (fx_sent fx)).

Definition beforeSatisfy (now inFace : Z) data (st : St) fx : option (St * Fx) :=
  st ← st_beforeSatisfyInterest faceOf now inFace data st (fx_pit fx); Some (st, fx).

Definition onContentStoreHit (now inFace : Z) key data fw : option Forwarder :=
  let fw := count nCsHits fw in
  fw ← onEntry key (fun st fx => fx ← satisfy now data fx; Some (st, fx)) fw;
  fw ← onEntry key (beforeSatisfy now csFace data) fw;
  onEntry key (fun st fx => fx ← sendData faceOf data inFace fx; Some (st, fx)) fw.

Definition stripHint interest : Interest :=
  match i_forwardingHint interest with
  | [] => interest
  | fh => if isInProducerRegion fh
          then mkInterest _ _ _ (i_name interest) (i_selectors interest) (i_nonce interest)
                 (i_lifetime interest) [] (i_nextHopFaceId interest)
          else interest
  end.

Definition violatesLocalhost (face : Z) (name : Name) : bool :=
  negb (f_local (faceOf face)) && isPrefixOf LOCALHOST name.

Definition onIncomingInterest (now inFace : Z) interest fw : option Forwarder :=
  let fw := count nInInterests fw in
  if violatesLocalhost inFace (i_name interest) then Some fw
  else if DeadNonceList.has nameWire (i_name interest) (i_nonce interest) (fw_dnl fw)
  then Some (onInterestLoop inFace interest fw)
  else
    let interest := stripHint interest in
    '(t, key) ← tb_insert interest (fw_tables fw);
    let fw := set_tables t fw in
    pe ← tb_read key t;
    let dnw := findDuplicateNonce pe (i_nonce interest) inFace in
    let hasDuplicateNonceInPit := negb (dnw =? DUPLICATE_NONCE_NONE) in
    let hasDuplicateNonceInPit :=
      if bool_decide (f_linkType (faceOf inFace) = LINK_TYPE_POINT_TO_POINT)
      then hasDuplicateNonceInPit && (Z.land dnw DUPLICATE_NONCE_IN_SAME =? 0)
      else hasDuplicateNonceInPit in
    if hasDuplicateNonceInPit then Some (onInterestLoop inFace interest fw)
    else if negb (hasInRecords pe) then
      '(cs, hit) ← cst_find now interest (fw_cs fw);
      let fw := set_cs cs fw in
      match hit with
      | Some data => onContentStoreHit now inFace key data fw
      | None => onContentStoreMiss now inFace key interest fw
      end
    else onContentStoreMiss now inFace key interest fw.

(** [insertDeadNonceList(pitEntry, upstream)]; the DNL lifetime is in
    nanoseconds. *)
Definition insertDeadNonceList pe (upstream : option Z) (d : DeadNonceList) : option DeadNonceList :=
  needDnl ← (if isSatisfied pe then
      if dataFreshnessPeriod pe <? 0 then None
      else Some (mustBeFresh (i_selectors (m_interest pe)) && (dataFreshnessPeriod pe * ms <? m_lifetime d))
    else Some true);
  if negb needDnl then Some d
  else
    let name := i_name (m_interest pe) in
    match upstream with
    | None => Some (foldl (fun d r => DeadNonceList.add nameWire name (out_lastNonce r) d) d (m_outRecords pe))
    | Some face =>
        Some (match getOutRecord face pe with
              | Some r => DeadNonceList.add nameWire name (out_lastNonce r) d
              | None => d
              end)
    end.

Definition onInterestFinalize key fw : option Forwarder :=
  pe ← tb_read key (fw_tables fw);
  d ← insertDeadNonceList pe None (fw_dnl fw);
  let fw := count (if isSatisfied pe then nSatisfiedInterests else nUnsatisfiedInterests) (set_dnl d fw) in
  t ← tb_erase key (fw_tables fw);
  Some (set_tables t fw).

(** ** Data pipelines *)

Definition decide_unsolicited (inFace : Z) : bool :=
  match unsolicitedPolicy with
  | DropAll => false
  | AdmitLocal => f_local (faceOf inFace)
  | AdmitNetwork => negb (f_local (faceOf inFace))
  | AdmitAll => true
  end.

Definition onDataUnsolicited (now inFace : Z) data (noCache : bool) fw : option Forwarder :=
  if decide_unsolicited inFace then cs ← cst_insert now data true noCache (fw_cs fw); Some (set_cs cs fw)
  else Some fw.

(** The end of both branches: the Dead Nonce List and the out-record of the
    upstream. *)
Definition afterData (inFace : Z) key fw : option Forwarder :=
  pe ← tb_read key (fw_tables fw);
  d ← insertDeadNonceList pe (Some inFace) (fw_dnl fw);
  onEntry key (fun st fx => Some (st, mkFx (deleteOutRecord inFace (fx_pit fx)) (fx_sent fx))) (set_dnl d fw).

Definition setSatisfied data (st : St) fx : option (St * Fx) :=
  Some (st, mkFx (set_freshness (data_freshness data) (set_satisfied true (fx_pit fx))) (fx_sent fx)).

(** One matching PIT entry: the default [afterReceiveData] of the strategy. *)
Definition onDataMatch (now inFace : Z) data key fw : option Forwarder :=
  fw ← onEntry key (fun st fx => fx ← setExpiryTimer now 0 fx; Some (st, fx)) fw;
  fw ← onEntry key (fun st fx =>
    '(st, fx) ← beforeSatisfy now inFace data st fx;
    fx ← sendDataToAll faceOf enum now inFace data fx; Some (st, fx)) fw;
  fw ← onEntry key (setSatisfied data) fw;
  afterData inFace key fw.

(** One of several matching PIT entries: the pending downstreams are collected. *)
Definition onDataMatches_step (now inFace : Z) data (acc : option (list Z * Forwarder)) key :
    option (list Z * Forwarder) :=
  '(pendingDownstreams, fw) ← acc;
  pe ← tb_read key (fw_tables fw);
  let pendingDownstreams := pendingDownstreams ++
    (in_face <$> remove_if (fun r => negb (now <? in_expiry r)) (m_inRecords pe)) in
  fw ← onEntry key (fun st fx => fx ← setExpiryTimer now 0 fx; Some (st, fx)) fw;
  fw ← onEntry key (beforeSatisfy now inFace data) fw;
  fw ← onEntry key (setSatisfied data) fw;
  pe ← tb_read key (fw_tables fw);
  d ← insertDeadNonceList pe (Some inFace) (fw_dnl fw);
  fw ← onEntry key (fun st fx =>
    Some (st, mkFx (deleteOutRecord inFace (clearInRecords (fx_pit fx))) (fx_sent fx))) (set_dnl d fw);
  Some (pendingDownstreams, fw).

Definition sendDownstream (inFace : Z) data fw (pendingDownstream : Z) : Forwarder :=
  if (f_id (faceOf pendingDownstream) =? f_id (faceOf inFace)) &&
     negb (bool_decide (f_linkType (faceOf pendingDownstream) = LINK_TYPE_AD_HOC)) then fw
  else foldl sendCounted fw (onOutgoingData faceOf data pendingDownstream []).

Definition onIncomingData (now inFace : Z) data (noCache : bool) fw : option Forwarder :=
  let fw := count nInData fw in
  if violatesLocalhost inFace (data_name data) then Some fw
  else
    pitMatches ← tb_matches data (fw_tables fw);
    match pit_key <$> pitMatches with
    | [] => onDataUnsolicited now inFace data noCache fw
    | keys =>
        cs ← cst_insert now data false noCache (fw_cs fw);
        let fw := set_cs cs fw in
        match keys with
        | [key] => onDataMatch now inFace data key fw
        | _ =>
            '(pendingDownstreams, fw) ← foldl (onDataMatches_step now inFace data) (Some ([], fw)) keys;
            Some (foldl (sendDownstream inFace data) fw (enum pendingDownstreams))
        end
    end.

(** ** Nack pipeline *)

Definition onIncomingNack (now inFace : Z) interest (reason : Z) fw : option Forwarder :=
  let fw := count nInNacks fw in
  if negb (bool_decide (f_linkType (faceOf inFace) = LINK_TYPE_POINT_TO_POINT)) then Some fw
  else
    key ← tb_find interest (fw_tables fw);
    match key with
    | None => Some fw
    | Some key =>
        pe ← tb_read key (fw_tables fw);
        match getOutRecord inFace pe with
        | None => Some fw
        | Some outRecord =>
            if negb (i_nonce interest =? out_lastNonce outRecord) then Some fw
            else
              fw ← onEntry key (fun st fx =>
                let pe := set_outRecords
                  (update_first (has_key out_face inFace)
                     (fun r => (setIncomingNack (i_nonce interest) reason r).1) (m_outRecords (fx_pit fx)))
                  (fx_pit fx) in
                fx ← (if negb (hasPendingOutRecords now pe) then setExpiryTimer now 0 (mkFx pe (fx_sent fx))
                      else Some (mkFx pe (fx_sent fx)));
                Some (st, fx)) fw;
              onEntry key (st_afterReceiveNack faceOf now inFace) fw
        end
    end.

(** ** Events *)

Inductive fw_event :=
  | EvInterest (now inFace : Z) (interest : Interest)
  | EvData (now inFace : Z) (data : Data) (noCache : bool)
  | EvNack (now inFace : Z) (interest : Interest) (reason : Z)
  | EvExpire (now : Z) (key : Key).

(** The scheduler calls [onInterestFinalize] when the time in the entry has come. *)
Definition fw_step fw (ev : fw_event) : option Forwarder :=
  match ev with
  | EvInterest now inFace interest => onIncomingInterest now inFace interest fw
  | EvData now inFace data noCache => onIncomingData now inFace data noCache fw
  | EvNack now inFace interest reason => onIncomingNack now inFace interest reason fw
  | EvExpire now key =>
      match tb_read key (fw_tables fw) with
      | Some pe =>
          match expiryTimer pe with
          | Some t => if t <=? now then onInterestFinalize key fw else Some fw
          | None => Some fw
          end
      | None => Some fw
      end
  end.

Fixpoint fw_run fw (evs : list fw_event) : option Forwarder :=
  match evs with
  | [] => Some fw
  | ev :: evs => fw ← fw_step fw ev; fw_run fw evs
  end.

(** ** Invariant *)

(** Every in-record was made by an Interest of the entry's name, from a face
    that may send such Interests. *)
Definition entry_inv pe : Prop :=
  pe_ok pe /\ isInProducerRegion (i_forwardingHint (m_interest pe)) = false /\ 0 <= dataFreshnessPeriod pe /\
  Forall (fun r => (forall i, in_interest r = Some i -> i_name i = i_name (m_interest pe)) /\
                   violatesLocalhost (in_face r) (i_name (m_interest pe)) = false) (m_inRecords pe).

(** A packet under [/localhost] goes to local faces only; an Interest with a
    NextHopFaceId tag is exempt, since it comes from a privileged application. *)
Definition confined (a : Action) : Prop :=
  match a with
  | SendInterest f i => i_nextHopFaceId i = None -> violatesLocalhost f (i_name i) = false
  | SendData f d => violatesLocalhost f (data_name d) = false
  | SendNack f i _ => violatesLocalhost f (i_name i) = false
  end.

Definition fw_inv fw : Prop :=
  tb_ok (fw_tables fw) /\ cst_ok (fw_cs fw) /\
  (forall key pe, tb_at key (fw_tables fw) = Some pe -> entry_inv pe) /\
  Forall confined (fw_log fw).

Lemma foldl_sendCounted l : forall fw,
  let fw' := foldl sendCounted fw l in
  fw_tables fw' = fw_tables fw /\ fw_dnl fw' = fw_dnl fw /\ fw_cs fw' = fw_cs fw /\ fw_st fw' = fw_st fw /\
  fw_log fw' = fw_log fw ++ l.
Proof.
  induction l as [|a l IH]; intros fw; simpl; [by rewrite app_nil_r|].
  destruct (IH (sendCounted fw a)) as (-> & -> & -> & -> & ->). simpl. by rewrite <-app_assoc.
Qed.

Lemma entry_inv_sub pe pe' :
  entry_inv pe -> pe_ok pe' -> m_interest pe' = m_interest pe -> 0 <= dataFreshnessPeriod pe' ->
  (forall r, r ∈ m_inRecords pe' -> r ∈ m_inRecords pe) -> entry_inv pe'.
Proof.
  intros (_ & Hh & _ & Hin) Hok Hi Hf Hsub. split_and!; [done|by rewrite Hi|done|].
  rewrite Hi. rewrite Forall_forall in Hin |- *. intros r Hr. by apply Hin, Hsub.
Qed.

Lemma ext_inv P pe fx' : entry_inv pe -> ext P (mkFx pe []) fx' -> entry_inv (fx_pit fx').
Proof.
  intros Hpe (Hok & Hi & _ & Hf & Hsub & _). apply (entry_inv_sub pe); simpl in *; [done|done|done| |].
  - rewrite Hf. apply Hpe.
  - intros r Hr. by eapply elem_of_sublist.
Qed.

Lemma ext_confined P pe fx' :
  (forall a, P a -> confined a) -> ext P (mkFx pe []) fx' -> Forall confined (fx_sent fx').
Proof.
  intros HP (_ & _ & _ & _ & _ & l & -> & Hl). simpl. eapply Forall_impl; [exact Hl|exact HP].
Qed.

(** A step on one entry keeps the invariant when its result is fit. *)
Lemma onEntry_ok fw key pe f st' fx' :
  fw_inv fw -> tb_at key (fw_tables fw) = Some pe -> f (fw_st fw) (mkFx pe []) = Some (st', fx') ->
  m_interest (fx_pit fx') = m_interest pe -> entry_inv (fx_pit fx') -> Forall confined (fx_sent fx') ->
  exists fw', onEntry key f fw = Some fw' /\ fw_inv fw' /\ tb_at key (fw_tables fw') = Some (fx_pit fx') /\
    (forall k, k <> key -> tb_at k (fw_tables fw') = tb_at k (fw_tables fw)) /\
    fw_dnl fw' = fw_dnl fw /\ fw_log fw' = fw_log fw ++ fx_sent fx'.
Proof.
  intros (Ht & Hc & He & Hl) Hat Hf Hi Hinv Hs. unfold onEntry. rewrite tb_read_law, Hat by done.
  cbn [mbind option_bind]. rewrite Hf. cbn [mbind option_bind]. eexists. split; [done|].
  destruct (tb_at_law _ _ _ Ht Hat) as [Hk Hr].
  destruct (tb_write_law key pe (fx_pit fx') (fw_tables fw) Ht Hat) as (Ht' & _ & Hat').
  { unfold pit_key in *. by rewrite Hi. }
  { apply Hinv. }
  match goal with |- context [foldl sendCounted ?fw0 ?l] => destruct (foldl_sendCounted l fw0) as (E1 & E2 & E3 & E4 & E5) end.
  unfold fw_inv. rewrite E1, E2, E3, E5. simpl. split_and!; try done.
  - intros k pe0. rewrite Hat'. case_decide; [intros; by simplify_eq|]. apply He.
  - by apply Forall_app.
  - by rewrite Hat', decide_True.
  - intros k Hne. by rewrite Hat', decide_False.
Qed.

(** The same for a step that obeys a contract. *)
Lemma onEntry_ext fw key pe f st' fx' P :
  fw_inv fw -> tb_at key (fw_tables fw) = Some pe -> f (fw_st fw) (mkFx pe []) = Some (st', fx') ->
  ext P (mkFx pe []) fx' -> (forall a, P a -> confined a) ->
  exists fw', onEntry key f fw = Some fw' /\ fw_inv fw' /\ tb_at key (fw_tables fw') = Some (fx_pit fx') /\
    (forall k, k <> key -> tb_at k (fw_tables fw') = tb_at k (fw_tables fw)) /\
    fw_dnl fw' = fw_dnl fw /\ fw_log fw' = fw_log fw ++ fx_sent fx'.
Proof.
  intros Hinv Hat Hf Hext HP. pose proof Hinv as (_ & _ & He & _). specialize (He _ _ Hat).
  eapply onEntry_ok; [done|done|done| |by eapply ext_inv|by eapply ext_confined].
  by destruct Hext as (_ & ? & _).
Qed.

Lemma count_inv c fw : fw_inv fw -> fw_inv (count c fw).
Proof. done. Qed.

Lemma nackAllowed_confined pe a : entry_inv pe -> nackAllowed faceOf pe a -> confined a.
Proof.
  intros (_ & _ & _ & Hin). destruct a as [| |f i reason]; simpl; try done.
  intros (_ & r & Hr & <- & Hi). rewrite Forall_forall in Hin. destruct (Hin r Hr) as [Hn Hv]. by rewrite (Hn i).
Qed.

Lemma interestAllowed_confined nexthops inFace interest pe a :
  entry_inv pe -> interestAllowed faceOf nexthops inFace interest pe a -> confined a.
Proof.
  intros Hinv. destruct a as [f i| |f i reason]; [|by apply nackAllowed_confined..].
  simpl. intros (-> & _ & Hv & _) _. revert Hv. unfold wouldViolateScope, violatesLocalhost.
  destruct (f_local (faceOf f)); simpl; [done|]. by destruct (isPrefixOf LOCALHOST (i_name interest)).
Qed.

Lemma dataTo_confined data f a : dataTo faceOf data f = Some a -> confined a.
Proof.
  unfold dataTo. case_match eqn:E0; [done|]. intros [= <-]. simpl. by apply orb_false_iff in E0 as [_ ?].
Qed.

Lemma stripHint_region interest : isInProducerRegion (i_forwardingHint (stripHint interest)) = false.
Proof.
  assert (isInProducerRegion [] = false) as Hnil.
  { unfold isInProducerRegion. induction regions; [done|]. by simpl. }
  unfold stripHint. destruct (i_forwardingHint interest) as [|d fh] eqn:Eh; [by rewrite Eh|].
  destruct (isInProducerRegion (d :: fh)) eqn:Ei; [done|by rewrite Eh].
Qed.

Lemma stripHint_key interest :
  interest_key (stripHint interest) = interest_key interest /\ i_name (stripHint interest) = i_name interest /\
  i_nonce (stripHint interest) = i_nonce interest.
Proof. unfold stripHint. destruct (i_forwardingHint interest); [done|]. by case_match. Qed.

(** ** FIB lookup *)

Lemma delegation_loop_ok (t : PT) fh : forall fe,
  tb_ok t -> (fh = [] -> exists f, fe = Some f /\ fib_prefix f = []) ->
  exists f, delegation_loop fh fe t = Some f.
Proof.
  induction fh as [|del fh IH]; intros fe Ht Hfe; simpl.
  - destruct Hfe as (f & -> & Hf); [done|]. simpl. rewrite bool_decide_eq_true_2 by done. eauto.
  - destruct (tb_lpm_law del t Ht) as (f & -> & Hf). simpl.
    destruct (hasNextHops f); [eauto|]. rewrite bool_decide_eq_true_2 by auto. apply IH; [done|]. eauto.
Qed.

Lemma lookupFib_ok fw key pe :
  fw_inv fw -> tb_at key (fw_tables fw) = Some pe -> exists f, lookupFib key (fw_tables fw) = Some f.
Proof.
  intros (Ht & _ & He & _) Hat. unfold lookupFib. rewrite tb_read_law, Hat by done. cbn [mbind option_bind].
  destruct (He _ _ Hat) as (_ & Hh & _).
  destruct (i_forwardingHint (m_interest pe)) as [|d fh].
  - rewrite (tb_lpm_pit_law key (fw_tables fw) pe) by done.
    destruct (tb_lpm_law key.1 (fw_tables fw) Ht) as (f & -> & _). eauto.
  - rewrite Hh. by apply delegation_loop_ok.
Qed.

(** ** Interest pipelines keep the invariant *)

Lemma in_after_insert now inFace interest pe r :
  r ∈ m_inRecords (insertOrUpdateInRecord now inFace interest pe) ->
  r ∈ m_inRecords pe \/ (in_face r = inFace /\ in_interest r = Some interest).
Proof.
  unfold insertOrUpdateInRecord, getInRecord. simpl.
  destruct (find_if (has_key in_face inFace) (m_inRecords pe)) as [r0|] eqn:Ef.
  - rewrite (update_first_perm _ _ _ _ Ef). apply find_key_Some in Ef as [_ Hf].
    intros [->|Hr]%elem_of_cons; [by right|]. left. by eapply elem_of_sublist, erase_first_sublist.
  - simpl. unfold has_key at 1. rewrite bool_decide_eq_true_2 by done.
    intros [->|Hr]%elem_of_cons; [by right|by left].
Qed.

Lemma insertIn_inv now inFace interest pe :
  entry_inv pe -> i_name interest = i_name (m_interest pe) ->
  violatesLocalhost inFace (i_name interest) = false ->
  entry_inv (insertOrUpdateInRecord now inFace interest pe).
Proof.
  intros ([Hr Hs] & Hh & Hf & Hin) Hn Hv. rewrite Forall_forall in Hin, Hs.
  split_and!; [|done|done|].
  - split; [by apply insertOrUpdateInRecord_ok|]. apply Forall_forall.
    intros r [Hr'|[_ ->]]%in_after_insert; [by apply Hs|by eexists].
  - apply Forall_forall. intros r [Hr'|[-> ->]]%in_after_insert; [by apply Hin|].
    split; [by intros i [= <-]|]. simpl. by rewrite <-Hn.
Qed.

Lemma lifetime_nonneg interest : 0 <= lifetime_of interest.
Proof. unfold lifetime_of, ms. pose proof default_lifetime_nonneg. case_match; breflect; lia. Qed.

(** The expiry of the entry is never set in the past. *)
Lemma miss_timer now inFace interest pe :
  pe_ok pe ->
  exists fx last, max_element in_expiry (m_inRecords (insertOrUpdateInRecord now inFace interest pe)) = Some last /\
    setExpiryTimer now (Z.quot (in_expiry last - now) ms)
      (mkFx (insertOrUpdateInRecord now inFace interest pe) []) = Some fx /\
    fx = mkFx (set_expiryTimer (Some (now + Z.quot (in_expiry last - now) ms * ms))
                 (insertOrUpdateInRecord now inFace interest pe)) [].
Proof.
  intros [Hr _]. destruct (insertOrUpdateInRecord_ok now inFace interest pe Hr) as (_ & _ & _ & Hget & _).
  apply find_key_Some in Hget as [Hget _].
  destruct (max_element _ _) as [last|] eqn:El; cycle 1.
  { apply max_element_None in El. rewrite El in Hget. by apply not_elem_of_nil in Hget. }
  apply max_element_Some in El as [_ Hmax]. specialize (Hmax _ Hget). simpl in Hmax.
  pose proof (lifetime_nonneg interest). unfold setExpiryTimer.
  assert (0 <= Z.quot (in_expiry last - now) ms) as Hq by (apply Z.quot_pos; unfold ms; lia).
  eexists _, last. split_and!; [done| |done]. by rewrite (proj2 (Z.ltb_ge _ _)).
Qed.

Lemma entry_inv_timer x pe : entry_inv pe -> entry_inv (set_expiryTimer x pe).
Proof. done. Qed.

Lemma onContentStoreMiss_ok now inFace key interest pe fw :
  fw_inv fw -> tb_at key (fw_tables fw) = Some pe -> interest_key interest = key ->
  violatesLocalhost inFace (i_name interest) = false ->
  exists fw', onContentStoreMiss now inFace key interest fw = Some fw' /\ fw_inv fw'.
Proof.
  intros Hinv Hat Hk Hv. unfold onContentStoreMiss. pose proof Hinv as (Ht & _ & He & _).
  pose proof (He _ _ Hat) as Hpe. destruct (tb_at_law _ _ _ Ht Hat) as [Hkey _].
  assert (i_name interest = i_name (m_interest pe)) as Hn.
  { rewrite <-Hk in Hkey. unfold pit_key, interest_key in Hkey. by injection Hkey. }
  destruct (miss_timer now inFace interest pe) as (fx & last & Hmax & Hset & ->); [apply Hpe|].
  match goal with |- context [onEntry key ?f (count nCsMisses fw)] =>
    destruct (onEntry_ok (count nCsMisses fw) key pe f (fw_st fw)
      (mkFx (set_expiryTimer (Some (now + Z.quot (in_expiry last - now) ms * ms))
                 (insertOrUpdateInRecord now inFace interest pe)) []))
      as (fw1 & -> & Hinv1 & Hat1 & _ & _); [done|done| |done| |done|] end.
  { cbn [fx_pit fx_sent]. rewrite Hmax. cbn [mbind option_bind]. rewrite Hset. done. }
  { by apply entry_inv_timer, insertIn_inv. }
  cbn [mbind option_bind fx_pit] in *. set (pe1 := set_expiryTimer _ _) in *.
  pose proof Hinv1 as (_ & _ & He1 & _). pose proof (He1 _ _ Hat1) as Hpe1.
  destruct (i_nextHopFaceId interest) as [id|] eqn:Etag.
  - destruct (faceById id) as [f|]; [|by eauto].
    eapply (onEntry_ext _ _ _ _ _ _ (fun a => a = SendInterest f interest)) in Hat1 as (fw2 & -> & Hinv2 & _); [by eauto|done|done| |].
    + apply (ext_touches _ f (mkFx pe1 [])); [apply Hpe1|apply touches_send|]. constructor; [done|constructor].
    + intros a ->. simpl. by rewrite Etag.
  - destruct (lookupFib_ok _ _ _ Hinv1 Hat1) as (f & ->). cbn [mbind option_bind].
    destruct (st_interest_law faceOf now (m_nextHops f) inFace interest (fw_st fw1) (mkFx pe1 []))
      as (st' & fx' & Hst & Hext); [apply Hpe1|].
    eapply onEntry_ext in Hext as (fw2 & -> & Hinv2 & _); [by eauto|done|exact Hat1|exact Hst|].
    intros a. by apply interestAllowed_confined.
Qed.

Lemma satisfy_ok now data pe :
  entry_inv pe ->
  exists pe', satisfy now data (mkFx pe []) = Some (mkFx pe' []) /\ entry_inv pe' /\ m_interest pe' = m_interest pe /\
    m_inRecords pe' = m_inRecords pe.
Proof.
  intros Hpe. unfold satisfy, setExpiryTimer. simpl. eexists. split; [done|]. split_and!; [|done|done].
  apply (entry_inv_sub pe); [done|apply Hpe|done|apply data_freshness_nonneg|done].
Qed.

Lemma beforeSatisfy_ok now inFace data st pe :
  exists st', beforeSatisfy now inFace data st (mkFx pe []) = Some (st', mkFx pe []).
Proof.
  unfold beforeSatisfy. destruct (st_satisfy_law faceOf now inFace data st pe) as [st' Hst].
  simpl. rewrite Hst. simpl. eauto.
Qed.

(** A step that changes the entry and sends nothing. *)
Lemma onEntry_quiet fw key pe f st' pe' :
  fw_inv fw -> tb_at key (fw_tables fw) = Some pe -> f (fw_st fw) (mkFx pe []) = Some (st', mkFx pe' []) ->
  m_interest pe' = m_interest pe -> entry_inv pe' ->
  exists fw', onEntry key f fw = Some fw' /\ fw_inv fw' /\ tb_at key (fw_tables fw') = Some pe' /\
    (forall k, k <> key -> tb_at k (fw_tables fw') = tb_at k (fw_tables fw)) /\
    fw_dnl fw' = fw_dnl fw /\ fw_log fw' = fw_log fw.
Proof.
  intros Hinv Hat Hf Hi Hpe'. destruct (onEntry_ok fw key pe f st' (mkFx pe' [])) as (fw' & Ho & A & B & D & E & F);
    [done..|constructor|]. exists fw'. simpl in F. rewrite app_nil_r in F. done.
Qed.

Lemma entry_inv_of fw key pe : fw_inv fw -> tb_at key (fw_tables fw) = Some pe -> entry_inv pe.
Proof. intros (_ & _ & He & _). apply He. Qed.

Lemma onContentStoreHit_ok now inFace key data pe fw :
  fw_inv fw -> tb_at key (fw_tables fw) = Some pe -> matchesData key.1 key.2 data = true ->
  exists fw', onContentStoreHit now inFace key data fw = Some fw' /\ fw_inv fw'.
Proof.
  intros Hinv Hat Hm. unfold onContentStoreHit. pose proof (entry_inv_of _ _ _ Hinv Hat) as Hpe.
  destruct (tb_at_law _ _ _ (proj1 Hinv) Hat) as [Hkey _].
  destruct (satisfy_ok now data pe Hpe) as (pe1 & Hs & Hpe1 & Hi1 & _).
  destruct (onEntry_quiet (count nCsHits fw) key pe (fun st fx => fx ← satisfy now data fx; Some (st, fx)) (fw_st fw) pe1)
    as (fw1 & -> & Hinv1 & Hat1 & _); [done|done|by rewrite Hs|done|done|]. cbn [mbind option_bind].
  destruct (beforeSatisfy_ok now csFace data (fw_st fw1) pe1) as (st2 & Hb).
  destruct (onEntry_quiet fw1 key pe1 (beforeSatisfy now csFace data) st2 pe1)
    as (fw2 & -> & Hinv2 & Hat2 & _); [done..|]. cbn [mbind option_bind].
  destruct (onEntry_ok fw2 key pe1 (fun st fx => fx ← sendData faceOf data inFace fx; Some (st, fx)) (fw_st fw2)
    (mkFx (deleteInRecord inFace pe1) (option_list (dataTo faceOf data inFace)))) as (fw3 & -> & Hinv3 & _);
    [done|done| |done| | |by eauto].
  - unfold sendData. cbn [fx_pit fx_sent]. rewrite Hi1. unfold pit_key in Hkey. rewrite <-Hkey in Hm. simpl in Hm.
    rewrite Hm. cbn [mbind option_bind]. by rewrite onOutgoingData_ok.
  - rewrite deleteInRecord_remove by apply Hpe1. apply (entry_inv_sub pe1); [done| |done|apply Hpe1|].
    + by apply pe_ok_remove_in, Hpe1.
    + simpl. intros r Hr. by apply elem_of_remove_if in Hr as [? _].
  - destruct (dataTo faceOf data inFace) eqn:Ed; constructor; [by eapply dataTo_confined|constructor].
Qed.

Lemma newPit_inv interest :
  isInProducerRegion (i_forwardingHint interest) = false -> entry_inv (newPitEntry interest).
Proof.
  intros Hh. split_and!; [|done|done|constructor]. split; [apply newPitEntry_ok|constructor].
Qed.

Lemma onInterestLoop_ok inFace interest fw :
  fw_inv fw -> violatesLocalhost inFace (i_name interest) = false -> fw_inv (onInterestLoop inFace interest fw).
Proof.
  intros (Ht & Hc & He & Hl) Hv. unfold onInterestLoop. case_match; [|done]. split_and!; try done. simpl.
  apply Forall_app. split; [done|]. constructor; [done|constructor].
Qed.

Lemma set_tables_inv t fw :
  fw_inv fw -> tb_ok t -> (forall key pe, tb_at key t = Some pe -> entry_inv pe) -> fw_inv (set_tables t fw).
Proof. by intros (_ & Hc & _ & Hl). Qed.

Lemma set_cs_inv c fw : fw_inv fw -> cst_ok c -> fw_inv (set_cs c fw).
Proof. by intros (Ht & _ & He & Hl). Qed.

Lemma onIncomingInterest_ok now inFace interest fw :
  fw_inv fw -> cst_query_ok (stripHint interest) ->
  exists fw', onIncomingInterest now inFace interest fw = Some fw' /\ fw_inv fw'.
Proof.
  intros Hinv Hq. unfold onIncomingInterest.
  destruct (violatesLocalhost inFace (i_name interest)) eqn:Ev; [by eauto|].
  destruct (DeadNonceList.has _ _ _ _); [eexists; split; [done|by apply onInterestLoop_ok]|].
  destruct (stripHint_key interest) as (Hk & Hn & _). set (i := stripHint interest) in *.
  cbv zeta. destruct (tb_insert_law i (fw_tables fw) (proj1 Hinv)) as (t & Hi & Ht & _ & Hat).
  change (fw_tables (count nInInterests fw)) with (fw_tables fw). rewrite Hi. cbn [mbind option_bind].
  assert (fw_inv (set_tables t (count nInInterests fw))) as Hinv1.
  { apply set_tables_inv; [done|done|]. intros key pe. rewrite Hat. case_decide; [|apply Hinv].
    intros [= <-]. destruct (tb_at key (fw_tables fw)) eqn:E0; simpl; [by eapply Hinv|].
    apply newPit_inv, stripHint_region. }
  set (fw1 := set_tables t (count nInInterests fw)) in *.
  pose proof (Hat (interest_key i)) as Hat1. rewrite decide_True in Hat1 by done.
  set (pe := default (newPitEntry i) _) in *. rewrite tb_read_law, Hat1 by done. cbn [mbind option_bind].
  assert (violatesLocalhost inFace (i_name i) = false) as Hv by (by rewrite Hn).
  match goal with |- context [if ?b then Some _ else _] => destruct b end.
  { eexists. split; [done|]. by apply onInterestLoop_ok. }
  destruct (hasInRecords pe); cbn [negb].
  - by eapply onContentStoreMiss_ok.
  - destruct (cst_find_law now i (fw_cs fw1)) as (cs & hit & -> & Hcs & Hhit); [apply Hinv1|done|].
    cbn [mbind option_bind]. assert (fw_inv (set_cs cs fw1)) as Hinv2 by by apply set_cs_inv.
    destruct hit as [data|].
    + by eapply onContentStoreHit_ok; [done|exact Hat1|apply Hhit].
    + by eapply onContentStoreMiss_ok.
Qed.

(** ** The other pipelines *)

Lemma insertDnl_ok pe up d : entry_inv pe -> exists d', insertDeadNonceList pe up d = Some d'.
Proof.
  intros (_ & _ & Hf & _). unfold insertDeadNonceList. rewrite (proj2 (Z.ltb_ge _ _)) by done.
  destruct (isSatisfied pe); cbn [mbind option_bind]; [destruct (mustBeFresh _ && _)|]; simpl; destruct up; eauto.
Qed.

Lemma onInterestFinalize_ok key pe fw :
  fw_inv fw -> tb_at key (fw_tables fw) = Some pe ->
  exists fw', onInterestFinalize key fw = Some fw' /\ fw_inv fw' /\ tb_at key (fw_tables fw') = None.
Proof.
  intros Hinv Hat. unfold onInterestFinalize. rewrite tb_read_law, Hat by apply Hinv. cbn [mbind option_bind].
  destruct (insertDnl_ok pe None (fw_dnl fw)) as (d & ->); [by eapply entry_inv_of|]. cbn [mbind option_bind].
  destruct (tb_erase_law key pe (fw_tables fw) (proj1 Hinv) Hat) as (t & He & Ht & _ & Hat').
  simpl. rewrite He. simpl. eexists. split; [done|]. split.
  - apply (set_tables_inv t (count _ (set_dnl d fw))); [done|done|]. intros k pe'. rewrite Hat'.
    case_decide; [done|]. apply Hinv.
  - simpl. by rewrite Hat', decide_True.
Qed.

Lemma deleteOut_inv f pe : entry_inv pe -> entry_inv (deleteOutRecord f pe).
Proof.
  intros Hpe. apply (entry_inv_sub pe); [done| |done|apply Hpe|done].
  destruct Hpe as ([[Hi Ho] Hs] & _). split; [split; [done|by apply uniq_erase_first]|done].
Qed.

Lemma clearIn_inv pe : entry_inv pe -> entry_inv (clearInRecords pe).
Proof.
  intros Hpe. apply (entry_inv_sub pe); [done| |done|apply Hpe|].
  - destruct Hpe as ([[Hi Ho] Hs] & _). split; [split; [by apply NoDup_nil|done]|constructor].
  - intros r Hr. by apply not_elem_of_nil in Hr.
Qed.

Lemma setSatisfied_inv data pe :
  entry_inv pe -> entry_inv (set_freshness (data_freshness data) (set_satisfied true pe)).
Proof. intros Hpe. apply (entry_inv_sub pe); [done|apply Hpe|done|apply data_freshness_nonneg|done]. Qed.

Lemma set_dnl_inv d fw : fw_inv fw -> fw_inv (set_dnl d fw).
Proof. done. Qed.

(** What the Data trigger does to an entry it satisfies. *)
Definition afterDataEntry (now inFace : Z) data pe : PitEntry :=
  deleteOutRecord inFace (set_freshness (data_freshness data) (set_satisfied true
    (set_inRecords (remove_if (fun r => bool_decide (in_face r ∈ pendingDownstreams faceOf enum now inFace pe))
                      (m_inRecords pe)) (set_expiryTimer (Some now) pe)))).

Lemma sendDataToAll_ok now inFace data pe :
  pe_ok pe -> matchesData (i_name (m_interest pe)) (i_selectors (m_interest pe)) data = true ->
  sendDataToAll faceOf enum now inFace data (mkFx pe []) =
    Some (mkFx (set_inRecords (remove_if (fun r => bool_decide (in_face r ∈ pendingDownstreams faceOf enum now inFace pe))
                                 (m_inRecords pe)) pe)
               (omap (dataTo faceOf data) (pendingDownstreams faceOf enum now inFace pe))).
Proof. intros Hok Hm. unfold sendDataToAll. by rewrite sendData_loop. Qed.

Lemma onDataMatch_ok now inFace data key pe fw :
  fw_inv fw -> tb_at key (fw_tables fw) = Some pe -> matchesData key.1 key.2 data = true ->
  exists fw', onDataMatch now inFace data key fw = Some fw' /\ fw_inv fw' /\
    fw_log fw' = fw_log fw ++ omap (dataTo faceOf data) (pendingDownstreams faceOf enum now inFace pe) /\
    tb_at key (fw_tables fw') = Some (afterDataEntry now inFace data pe) /\
    (forall k, k <> key -> tb_at k (fw_tables fw') = tb_at k (fw_tables fw)).
Proof.
  intros Hinv Hat Hm. unfold onDataMatch. pose proof (entry_inv_of _ _ _ Hinv Hat) as Hpe.
  destruct (tb_at_law _ _ _ (proj1 Hinv) Hat) as [Hkey _].
  set (pe1 := set_expiryTimer (Some now) pe).
  destruct (onEntry_quiet fw key pe (fun st fx => fx ← setExpiryTimer now 0 fx; Some (st, fx)) (fw_st fw) pe1)
    as (fw1 & -> & Hinv1 & Hat1 & Ho1 & _ & Hl1); [done|done| |done|done|].
  { unfold setExpiryTimer. simpl. by rewrite Z.add_0_r. }
  cbn [mbind option_bind]. destruct (beforeSatisfy_ok now inFace data (fw_st fw1) pe1) as (st2 & Hb).
  pose proof (sendDataToAll_ok now inFace data pe1) as Hsend.
  set (sent := omap (dataTo faceOf data) (pendingDownstreams faceOf enum now inFace pe1)) in *.
  set (pe2 := set_inRecords _ pe1) in Hsend.
  assert (entry_inv pe2) as Hpe2.
  { apply (entry_inv_sub pe); [done|apply pe_ok_remove_in, Hpe|done|apply Hpe|].
    intros r Hr. by apply elem_of_remove_if in Hr as [? _]. }
  match goal with |- context [onEntry key ?f fw1] =>
    destruct (onEntry_ok fw1 key pe1 f st2 (mkFx pe2 sent))
      as (fw2 & -> & Hinv2 & Hat2 & Ho2 & _ & Hl2); [done|done| |done|done| |] end.
  { rewrite Hb. cbn [mbind option_bind]. rewrite Hsend; [done|apply Hpe|].
    unfold pit_key in Hkey. by rewrite <-Hkey in Hm. }
  { apply Forall_forall. intros a (f & _ & Ha)%list_elem_of_omap. by eapply dataTo_confined. }
  cbn [mbind option_bind fx_pit fx_sent] in *.
  pose proof (setSatisfied_inv data pe2 Hpe2) as Hpe3. set (pe3 := set_freshness _ _) in Hpe3.
  destruct (onEntry_quiet fw2 key pe2 (setSatisfied data) (fw_st fw2) pe3)
    as (fw3 & -> & Hinv3 & Hat3 & Ho3 & _ & Hl3); [done..|]. cbn [mbind option_bind].
  unfold afterData. rewrite tb_read_law, Hat3 by apply Hinv3. cbn [mbind option_bind].
  destruct (insertDnl_ok pe3 (Some inFace) (fw_dnl fw3)) as (d & ->); [done|]. cbn [mbind option_bind].
  destruct (onEntry_quiet (set_dnl d fw3) key pe3
    (fun st fx => Some (st, mkFx (deleteOutRecord inFace (fx_pit fx)) (fx_sent fx))) (fw_st fw3) (deleteOutRecord inFace pe3))
    as (fw4 & -> & Hinv4 & Hat4 & Ho4 & _ & Hl4); [done|done|done|done|by apply deleteOut_inv|].
  exists fw4. split_and!; [done|done| |exact Hat4|].
  - rewrite Hl4. simpl. by rewrite Hl3, Hl2, Hl1.
  - intros k Hne. rewrite (Ho4 k Hne). simpl. by rewrite (Ho3 k Hne), (Ho2 k Hne), (Ho1 k Hne).
Qed.

Lemma onDataMatches_step_ok now inFace data key pe pend fw :
  fw_inv fw -> tb_at key (fw_tables fw) = Some pe ->
  exists fw', onDataMatches_step now inFace data (Some (pend, fw)) key =
      Some (pend ++ (in_face <$> remove_if (fun r => negb (now <? in_expiry r)) (m_inRecords pe)), fw') /\
    fw_inv fw' /\ fw_log fw' = fw_log fw /\ is_Some (tb_at key (fw_tables fw')) /\
    (forall k, k <> key -> tb_at k (fw_tables fw') = tb_at k (fw_tables fw)).
Proof.
  intros Hinv Hat. unfold onDataMatches_step. cbn [mbind option_bind].
  rewrite tb_read_law, Hat by apply Hinv. cbn [mbind option_bind].
  pose proof (entry_inv_of _ _ _ Hinv Hat) as Hpe. set (pe1 := set_expiryTimer (Some now) pe).
  destruct (onEntry_quiet fw key pe (fun st fx => fx ← setExpiryTimer now 0 fx; Some (st, fx)) (fw_st fw) pe1)
    as (fw1 & -> & Hinv1 & Hat1 & Ho1 & _ & Hl1); [done|done| |done|done|].
  { unfold setExpiryTimer. simpl. by rewrite Z.add_0_r. }
  cbn [mbind option_bind]. destruct (beforeSatisfy_ok now inFace data (fw_st fw1) pe1) as (st2 & Hb).
  destruct (onEntry_quiet fw1 key pe1 (beforeSatisfy now inFace data) st2 pe1)
    as (fw2 & -> & Hinv2 & Hat2 & Ho2 & _ & Hl2); [done..|]. cbn [mbind option_bind].
  pose proof (setSatisfied_inv data pe1 Hpe) as Hpe3. set (pe3 := set_freshness _ _) in Hpe3.
  destruct (onEntry_quiet fw2 key pe1 (setSatisfied data) (fw_st fw2) pe3)
    as (fw3 & -> & Hinv3 & Hat3 & Ho3 & _ & Hl3); [done..|]. cbn [mbind option_bind].
  rewrite tb_read_law, Hat3 by apply Hinv3. cbn [mbind option_bind].
  destruct (insertDnl_ok pe3 (Some inFace) (fw_dnl fw3)) as (d & ->); [done|]. cbn [mbind option_bind].
  match goal with |- context [onEntry key ?f (set_dnl d fw3)] =>
    destruct (onEntry_quiet (set_dnl d fw3) key pe3 f (fw_st fw3) (deleteOutRecord inFace (clearInRecords pe3)))
      as (fw4 & -> & Hinv4 & Hat4 & Ho4 & _ & Hl4);
      [done|done|done|done|by apply deleteOut_inv, clearIn_inv|] end.
  cbn [mbind option_bind]. exists fw4. split_and!; [done|done| |by eexists|].
  - rewrite Hl4. simpl. congruence.
  - intros k Hne. rewrite (Ho4 k Hne). simpl. by rewrite (Ho3 k Hne), (Ho2 k Hne), (Ho1 k Hne).
Qed.

Lemma onDataMatches_ok now inFace data keys : forall pend fw,
  fw_inv fw -> (forall key, key ∈ keys -> is_Some (tb_at key (fw_tables fw))) ->
  exists pend' fw', foldl (onDataMatches_step now inFace data) (Some (pend, fw)) keys = Some (pend', fw') /\
    fw_inv fw' /\ fw_log fw' = fw_log fw.
Proof.
  induction keys as [|key keys IH]; intros pend fw Hinv Hkeys; [by eauto|].
  destruct (Hkeys key) as [pe Hat]; [left|]. cbn [foldl].
  destruct (onDataMatches_step_ok now inFace data key pe pend fw Hinv Hat) as (fw1 & -> & Hinv1 & Hl1 & Hs & Ho).
  set (pend1 := pend ++ _). destruct (IH pend1 fw1 Hinv1) as (pend' & fw2 & -> & Hinv2 & Hl2).
  - intros k Hk. destruct (decide (k = key)) as [->|Hne]; [done|]. rewrite Ho by done. apply Hkeys. by right.
  - eexists _, fw2. split_and!; [done|done|congruence].
Qed.

Lemma sendDownstream_ok inFace data fs : forall fw,
  fw_inv fw -> fw_inv (foldl (sendDownstream inFace data) fw fs).
Proof.
  induction fs as [|f fs IH]; intros fw Hinv; [done|]. cbn [foldl]. apply IH.
  unfold sendDownstream. case_match; [done|]. rewrite onOutgoingData_ok. simpl.
  destruct (dataTo faceOf data f) as [a|] eqn:Ea; simpl; [|done].
  destruct Hinv as (Ht & Hc & He & Hl). split_and!; try done. simpl. apply Forall_app. split; [done|].
  constructor; [by eapply dataTo_confined|constructor].
Qed.

Lemma matching_key (t : PT) data l :
  tb_ok t -> tb_matches data t = Some l ->
  forall key, key ∈ pit_key <$> l -> exists pe, pe ∈ l /\ tb_at key t = Some pe /\ matchesData key.1 key.2 data = true.
Proof.
  intros Ht Hm key (pe & -> & Hpe)%list_elem_of_fmap.
  destruct (tb_matches_law data t Ht) as (l' & Hl' & Hspec). assert (l' = l) as -> by congruence.
  apply Hspec in Hpe as Hp. destruct Hp as [Hat Hmd]. exists pe. done.
Qed.

Lemma onIncomingData_ok now inFace data noCache fw :
  fw_inv fw -> cst_data_ok data ->
  exists fw', onIncomingData now inFace data noCache fw = Some fw' /\ fw_inv fw'.
Proof.
  intros Hinv Hd. unfold onIncomingData. destruct (violatesLocalhost inFace (data_name data)); [by eauto|].
  cbv zeta. change (fw_tables (count nInData fw)) with (fw_tables fw).
  destruct (tb_matches_law data (fw_tables fw) (proj1 Hinv)) as (l & Hl & _). rewrite Hl. cbn [mbind option_bind].
  pose proof (matching_key _ _ _ (proj1 Hinv) Hl) as Hkeys.
  assert (forall u, exists cs, cst_insert now data u noCache (fw_cs (count nInData fw)) = Some cs /\ cst_ok cs) as Hcs.
  { intros u. apply cst_insert_law; [apply Hinv|done]. }
  destruct (pit_key <$> l) as [|key [|key' rest]] eqn:Ek.
  - unfold onDataUnsolicited. case_match; [|by eauto]. destruct (Hcs true) as (cs & -> & Hcs'). simpl.
    eexists. split; [done|]. by apply set_cs_inv.
  - destruct (Hcs false) as (cs & -> & Hcs'). cbn [mbind option_bind].
    destruct (Hkeys key) as (pe & _ & Hat & Hm); [left|].
    destruct (onDataMatch_ok now inFace data key pe (set_cs cs (count nInData fw))) as (fw' & -> & Hinv' & _);
      [by apply set_cs_inv|done|done|by eauto].
  - destruct (Hcs false) as (cs & -> & Hcs'). cbn [mbind option_bind].
    destruct (onDataMatches_ok now inFace data (key :: key' :: rest) [] (set_cs cs (count nInData fw)))
      as (pend & fw' & -> & Hinv' & _); [by apply set_cs_inv| |].
    { intros k Hk. destruct (Hkeys k Hk) as (pe & _ & Hat & _). by exists pe. }
    cbn [mbind option_bind]. eexists. split; [done|]. by apply sendDownstream_ok.
Qed.

Lemma setNack_inv inFace nonce reason pe :
  entry_inv pe ->
  entry_inv (set_outRecords (update_first (has_key out_face inFace) (fun r => (setIncomingNack nonce reason r).1)
    (m_outRecords pe)) pe).
Proof.
  intros Hpe. apply (entry_inv_sub pe); [done| |done|apply Hpe|done].
  destruct Hpe as ([[Hi Ho] Hs] & _). split; [split; [done|]|done]. simpl. apply uniq_update_first; [|done].
  intros r _ _. unfold setIncomingNack. by case_match.
Qed.

Lemma onIncomingNack_ok now inFace interest reason fw :
  fw_inv fw -> exists fw', onIncomingNack now inFace interest reason fw = Some fw' /\ fw_inv fw'.
Proof.
  intros Hinv. unfold onIncomingNack. case_match; [by eauto|]. cbv zeta.
  change (fw_tables (count nInNacks fw)) with (fw_tables fw). rewrite tb_find_law by apply Hinv. cbn [mbind option_bind].
  destruct (tb_at (interest_key interest) (fw_tables fw)) as [pe|] eqn:Hat; simpl; [|by eauto].
  destruct (tb_at_law _ _ _ (proj1 Hinv) Hat) as [-> _]. rewrite tb_read_law, Hat by apply Hinv. cbn [mbind option_bind].
  destruct (getOutRecord inFace pe) as [r|]; [|by eauto]. destruct (negb (i_nonce interest =? _)); [by eauto|].
  pose proof (entry_inv_of _ _ _ Hinv Hat) as Hpe.
  pose proof (setNack_inv inFace (i_nonce interest) reason pe Hpe) as Hpe1. set (pe1 := set_outRecords _ pe) in *.
  set (pe2 := if negb (hasPendingOutRecords now pe1) then set_expiryTimer (Some now) pe1 else pe1).
  match goal with |- context [onEntry ?key ?f (count nInNacks fw)] =>
    destruct (onEntry_quiet (count nInNacks fw) key pe f (fw_st fw) pe2) as (fw1 & -> & Hinv1 & Hat1 & _);
      [done|done| | | |] end.
  { cbn [fx_pit fx_sent]. fold pe1. unfold pe2.
    destruct (negb (hasPendingOutRecords now pe1)); [|done]. unfold setExpiryTimer. simpl. by rewrite Z.add_0_r. }
  { unfold pe2. by destruct (negb (hasPendingOutRecords now pe1)). }
  { unfold pe2. by destruct (negb (hasPendingOutRecords now pe1)). }
  cbn [mbind option_bind]. pose proof (entry_inv_of _ _ _ Hinv1 Hat1) as Hpe2.
  destruct (st_nack_law faceOf now inFace (fw_st fw1) (mkFx pe2 [])) as (st' & fx' & Hst & Hext); [apply Hpe2|].
  eapply onEntry_ext in Hext as (fw2 & -> & Hinv2 & _); [by eauto|done|exact Hat1|exact Hst|].
  intros a. by apply nackAllowed_confined.
Qed.

(** ** Runs *)

(** What the content store asks of the packets. *)
Definition ev_ok (ev : fw_event) : Prop :=
  match ev with
  | EvInterest _ _ interest => cst_query_ok (stripHint interest)
  | EvData _ _ data _ => cst_data_ok data
  | _ => True
  end.

Lemma fw_step_ok fw ev : fw_inv fw -> ev_ok ev -> exists fw', fw_step fw ev = Some fw' /\ fw_inv fw'.
Proof.
  intros Hinv Hev. destruct ev as [now f i|now f d nc|now f i r|now key]; cbn [fw_step].
  - by apply onIncomingInterest_ok.
  - by apply onIncomingData_ok.
  - by apply onIncomingNack_ok.
  - rewrite tb_read_law by apply Hinv. destruct (tb_at key (fw_tables fw)) as [pe|] eqn:Hat; [|by eauto].
    destruct (expiryTimer pe) as [t|]; [|by eauto]. destruct (t <=? now); [|by eauto].
    destruct (onInterestFinalize_ok key pe fw Hinv Hat) as (fw' & -> & Hinv' & _). eauto.
Qed.

Lemma fw_run_ok evs : forall fw, fw_inv fw -> Forall ev_ok evs -> exists fw', fw_run fw evs = Some fw' /\ fw_inv fw'.
Proof.
  induction evs as [|ev evs IH]; intros fw Hinv Hevs; [by eauto|].
  apply Forall_cons in Hevs as [Hev Hevs]. cbn [fw_run].
  destruct (fw_step_ok fw ev Hinv Hev) as (fw1 & -> & Hinv1). by apply IH.
Qed.

(** ** Properties *)


(** C10: whatever the sequence of packets, an Interest, Data or Nack whose name is
    under [/localhost] leaves through a non-local face only if it is an Interest
    that a privileged application directed there with a NextHopFaceId tag. *)
Theorem localhost_confined fw evs fw' a :
  fw_inv fw -> Forall ev_ok evs -> fw_run fw evs = Some fw' -> a ∈ fw_log fw' ->
  match a with
  | SendInterest f i => f_local (faceOf f) = false -> LOCALHOST `prefix_of` i_name i -> is_Some (i_nextHopFaceId i)
  | SendData f d => f_local (faceOf f) = false -> ~ LOCALHOST `prefix_of` data_name d
  | SendNack f i _ => f_local (faceOf f) = false -> ~ LOCALHOST `prefix_of` i_name i
  end.
Proof.
  intros Hinv Hevs Hr Ha. destruct (fw_run_ok evs fw Hinv Hevs) as (fw1 & Hr1 & _ & _ & _ & Hl).
  rewrite Hr in Hr1. simplify_eq. rewrite Forall_forall in Hl. specialize (Hl a Ha).
  assert (forall f name, violatesLocalhost f name = false -> f_local (faceOf f) = false ->
    ~ LOCALHOST `prefix_of` name) as Hv.
  { intros f name Hviol Hf Hp%isPrefixOf_true. unfold violatesLocalhost in Hviol. by rewrite Hf, Hp in Hviol. }
  destruct a as [f i|f d|f i r]; simpl in Hl; [|by apply Hv..].
  intros Hf Hp. destruct (i_nextHopFaceId i) eqn:Et; [by eexists|]. by destruct (Hv _ _ (Hl eq_refl) Hf).
Qed.


(** An Interest that has looped (its nonce is in the dead nonce list, or in
    a record of its PIT entry and not in the in-record of the same face) is not
    forwarded: a DUPLICATE Nack goes back on a point-to-point face, nothing else
    is sent, and no PIT entry changes. *)
Theorem looping_interest_dropped now inFace interest fw :
  fw_inv fw -> violatesLocalhost inFace (i_name interest) = false ->
  DeadNonceList.has nameWire (i_name interest) (i_nonce interest) (fw_dnl fw) = true \/
  (exists pe, tb_at (interest_key interest) (fw_tables fw) = Some pe /\
     ((exists r, r ∈ m_inRecords pe /\ in_lastNonce r = i_nonce interest) \/
      (exists r, r ∈ m_outRecords pe /\ out_lastNonce r = i_nonce interest)) /\
     (forall r, r ∈ m_inRecords pe -> in_lastNonce r = i_nonce interest -> in_face r <> inFace)) ->
  exists fw' i, onIncomingInterest now inFace interest fw = Some fw' /\
    fw_log fw' = fw_log fw ++
      (if bool_decide (f_linkType (faceOf inFace) = LINK_TYPE_POINT_TO_POINT)
       then [SendNack inFace i REASON_DUPLICATE] else []) /\
    (i_name i, i_nonce i) = (i_name interest, i_nonce interest) /\
    forall k, tb_at k (fw_tables fw') = tb_at k (fw_tables fw).
Proof.
  intros Hinv Hv Hdup. unfold onIncomingInterest. rewrite Hv.
  assert (forall i fw0, fw_log (onInterestLoop inFace i fw0) = fw_log fw0 ++
      (if bool_decide (f_linkType (faceOf inFace) = LINK_TYPE_POINT_TO_POINT)
       then [SendNack inFace i REASON_DUPLICATE] else []) /\
      fw_tables (onInterestLoop inFace i fw0) = fw_tables fw0) as Hloop.
  { intros i fw0. unfold onInterestLoop. case_match; [done|]. by rewrite app_nil_r. }
  change (fw_dnl (count nInInterests fw)) with (fw_dnl fw).
  destruct (DeadNonceList.has _ _ _ _) eqn:Ed.
  { eexists _, interest. split; [done|]. destruct (Hloop interest (count nInInterests fw)) as [-> ->]. done. }
  destruct Hdup as [?|(pe & Hat & Hrec & Hsame)]; [done|].
  destruct (stripHint_key interest) as (Hk & Hn & Hnonce). set (i := stripHint interest) in *.
  cbv zeta. destruct (tb_insert_law i (fw_tables fw) (proj1 Hinv)) as (t & Hi & Ht & _ & Hat').
  change (fw_tables (count nInInterests fw)) with (fw_tables fw). rewrite Hi. cbn [mbind option_bind].
  rewrite tb_read_law, Hat', decide_True, Hk, Hat by done. cbn [mbind option_bind]. change (default (newPitEntry i) (Some pe)) with pe.
  assert (negb (findDuplicateNonce pe (i_nonce i) inFace =? DUPLICATE_NONCE_NONE) = true) as ->.
  { apply negb_true_iff, Z.eqb_neq. rewrite findDuplicateNonce_none, Hnonce. intros [A B].
    destruct Hrec as [(r & Hr & Hx)|(r & Hr & Hx)]; [by apply (A r)|by apply (B r)]. }
  rewrite findDuplicateNonce_in_same by (by rewrite Hnonce).
  replace (if bool_decide _ then true && (0 =? 0) else true) with true by (by destruct (bool_decide _)).
  eexists _, i. split; [done|]. destruct (Hloop i (set_tables t (count nInInterests fw))) as [-> ->].
  split_and!; [done|by rewrite Hn, Hnonce|]. intros k. change (tb_at k t = tb_at k (fw_tables fw)).
  rewrite Hat'. destruct (decide (k = interest_key i)) as [->|_]; [by rewrite Hk, Hat|done].
Qed.
End Forwarder.

(** ** A forwarder with empty tables, a content store and best route *)
From S2P Require Import Hashtable NameTree CsTable Cs.
Module ForwarderExamples.
Import StrategyExamples CsTableExamples CsExamples.
Local Open Scope Z_scope.

Notation FwTree := (Hashtable Z (NameTree.Entry Z (FibEntry Z) (PitEntry Z) Z Z)).

Definition tables0 : NfdTables FwTree := mkNfdTables (newHashtable (newOptions 4)) 0 0.

Lemma tables0_ok : nfd_ok tables0.
Proof.
  destruct (ht_new_ok (C:=Z) (E:=NameTree.Entry Z (FibEntry Z) (PitEntry Z) Z Z) (newOptions 4)) as [Hok He].
  { split; [simpl; lia|]. apply Z.leb_le. by vm_compute. }
  assert (nt_wf (nt_entries (newEntry:=newEntry) (nt_tree tables0))) as Hwf.
  { intros n e Hn. simpl in Hn. by rewrite He, lookup_empty in Hn. }
  split_and!.
  - unfold pit_ok, pits_at, pit_count, pit_view, tables_at. simpl. simpl in Hwf. rewrite He.
    split_and!; [done|by rewrite <-He| |by rewrite omap_empty, map_fold_empty].
    intros n. rewrite lookup_empty. apply pits_ok_nil.
  - unfold fib_ok. simpl. simpl in Hwf. rewrite He. split_and!; [done|by rewrite <-He| |done].
    intros n f Hn. unfold fib_view in Hn. by rewrite omap_empty, lookup_empty in Hn.
  - intros n f Hn. unfold view, fib_view in Hn. simpl in Hn. by rewrite He, omap_empty, lookup_empty in Hn.
Qed.

Notation ExForwarder := (Forwarder (PT:=NfdTables FwTree) (CT:=Cs Z Lru.LruPolicy) (St:=BestRouteStrategy2)).

Definition fw0 : ExForwarder := mkForwarder tables0 dnl0 lruStore (bestRoute strategyRetx) (fun _ => 0) [].

Notation inv0 := (fw_inv faces []).
Notation run := (fw_run faces remove_dups exampleNameWire Some 254 [] DropAll).

Lemma fw0_inv : inv0 fw0.
Proof.
  split_and!; [exact tables0_ok|exact lruStore_ok| |constructor].
  intros key pe Hat. exfalso. destruct (pit_at_in _ _ _ Hat) as (e & He & _).
  destruct (ht_new_ok (C:=Z) (E:=NameTree.Entry Z (FibEntry Z) (PitEntry Z) Z Z) (newOptions 4)) as [_ He0].
  { split; [simpl; lia|]. apply Z.leb_le. by vm_compute. }
  simpl in He. by rewrite He0, lookup_empty in He.
Qed.

(** An Interest directed to face 5, and one without a route. *)
Definition directed : Interest Z := mkInterest _ _ _ [1; 2] (false, false, 0) 7 4000 [] (Some 5).
Definition unroutable : Interest Z := mkInterest _ _ _ [3] (false, false, 0) 8 4000 [] None.
Definition answer : @Data Z _ examplePackets := dataOf [1; 2] 9 100.
Definition evs0 : list (fw_event (C:=Z)) := [EvInterest 0 4 directed; EvInterest 1 4 unroutable].

Lemma evs0_ok : Forall (ev_ok (CT:=Cs Z Lru.LruPolicy) []) evs0.
Proof. repeat constructor. Qed.

Definition fw1 : ExForwarder := default fw0 (run fw0 evs0).

Lemma fw1_inv : inv0 fw1 /\ run fw0 evs0 = Some fw1.
Proof.
  destruct (fw_run_ok faces remove_dups exampleNameWire Some 254 [] DropAll evs0 fw0 fw0_inv evs0_ok)
    as (fw & Hr & Hinv).
  unfold fw1. rewrite Hr. split; [exact Hinv|reflexivity].
Qed.


(** What the run sends: the Interest as directed, and a Nack. *)
Example fw1_log : fw_log fw1 = [SendInterest 5 directed; SendNack 4 unroutable 150].
Proof. vm_compute. reflexivity. Qed.

Lemma localhost_confined_witness :
  f_local (faces 4) = false /\ isPrefixOf [100] (i_name unroutable) = false.
Proof.
  split; [reflexivity|]. destruct fw1_inv as [_ Hr].
  destruct (isPrefixOf [100] (i_name unroutable)) eqn:Ep; [exfalso|reflexivity].
  apply (localhost_confined faces remove_dups exampleNameWire Some 254 [] DropAll fw0 evs0 fw1
           (SendNack 4 unroutable 150) fw0_inv evs0_ok Hr).
  - rewrite fw1_log. right. left.
  - reflexivity.
  - apply isPrefixOf_true. exact Ep.
Defined.

Definition pe1 : PitEntry Z := default (newPitEntry directed) (tb_read ([1; 2], (false, false, 0)) (fw_tables fw1)).

Lemma pe1_matches : tb_matches answer (fw_tables fw1) = Some [pe1].
Proof. vm_compute. reflexivity. Qed.

Lemma pe1_at : tb_at (interest_key directed) (fw_tables fw1) = Some pe1.
Proof.
  destruct fw1_inv as [(Ht & _) _]. etrans; [symmetry; apply (tb_read_law _ _ Ht)|]. vm_compute. reflexivity.
Qed.


(** The Interest comes back on face 6. *)
Lemma looping_interest_dropped_witness :
  exists fw' i, onIncomingInterest faces exampleNameWire Some 254 [] ms 6 directed fw1 = Some fw' /\
    fw_log fw' = fw_log fw1 ++ [SendNack 6 i 100].
Proof.
  destruct fw1_inv as [Hinv _].
  destruct (looping_interest_dropped faces exampleNameWire Some 254 [] ms 6 directed fw1 Hinv)
    as (fw' & i & Hd & Hl & _).
  - reflexivity.
  - right. exists pe1. split; [rewrite <-tb_read_law by apply Hinv; vm_compute; reflexivity|]. split.
    + left. eexists. split; [vm_compute; left|reflexivity].
    + intros r. assert (m_inRecords pe1 = [mkInRecord 4 7 0 (4000 * ms) (Some directed) ∅]) as -> by (vm_compute; reflexivity).
      intros ->%list_elem_of_singleton _. discriminate.
  - exists fw', i. split; [exact Hd|exact Hl].
Defined.
End ForwarderExamples.
