(* ===== verification/QosStrategy.v ===== *)
(** * The QoS strategy

    Models [daemon/fw/qos-strategy.hpp/.cpp]: Interests and Data are classified by
    the second component of their name, queued per outgoing face and priority
    level, and sent when the face's device has room and the level's token bucket a
    token; Interests of a class are sent to as many faces as the estimated loss
    rates ask for. Queue items hold pointers to PIT entries that may outlive the
    PIT, so the entries are in a store by address. An undefined access (a vector
    out of range, a null pointer), a failed assertion or a decoding error is
    [None].

    From the simulator come the packets waiting in a face's device and the token
    driver, which after [setUp] holds the strategy's buckets. Reading a missing
    entry of an [unordered_map] with [operator[]] is reading 0. *)

From S2P Require Import Prelude Fp Ndn TokenBucket QosQueue Fib Pit FwAlgorithm Strategy.
Import TB.
Local Open Scope Z_scope.

(** The components [typeI], [typeII] and [typeIII]. *)
Class PriorityTypes (C : Type) := { TYPE_I : C; TYPE_II : C; TYPE_III : C }.

(** The success probability that is asked for each class of Interests, set by
    [setSuccessReqs]: there is one priority level per element, and fewer than the
    level of names without a class. *)
Class SuccessReqs := {
  m_successReqs : list Z;
  successReqs_levels : (0 < length m_successReqs <= 715)%nat
}.

(** ndn-cxx's encoding of packets to blocks and back; a decoded Interest has lost
    its tags. *)
Class PacketWire (C B : Type) `{Packets C} := {
  wire_block :: NdnBlock B;
  encodeInterest : Interest C -> B;
  decodeInterest : B -> option (Interest C);
  encodeData : Data -> B;
  decodeData : B -> option Data;
  decode_encode_Interest i :
    decodeInterest (encodeInterest i) =
      Some (mkInterest _ _ _ (i_name i) (i_selectors i) (i_nonce i) (i_lifetime i) (i_forwardingHint i) None);
  decode_encode_Data d : decodeData (encodeData d) = Some d
}.

(** [latency] and [latencyVariance] are never read or written. *)
Record FaceStats := mkFaceStats {
  absLossRate : gmap Z Z;
  relaLossRate : gmap Z Z;
  bootstrapped : bool;
  totalPacketsSent : Z
}.

Definition newFaceStats : FaceStats := mkFaceStats ∅ ∅ false 0.

Section Qos.
Context {C B : Type} `{PacketWire C B} `{!ScopePrefixes C} `{!NackReasons} `{!PriorityTypes C} `{!SuccessReqs}.
Notation Name := (list C).
Notation Interest := (Interest C).
Notation PitEntry := (PitEntry C).
Notation Item := (QueueItem B positive).
Notation TxQueue := (NdnPriorityTxQueue B positive).
Context (faceOf : Z -> FaceInfo) (enum : list Z -> list Z) `{!FaceSetOrder enum}.
(** The face of an identifier, the packets waiting in the device of a face (when
    it is a net device), and the next hops that the FIB has for a PIT entry. *)
Context (faceById : Z -> option Z) (devQueue : Z -> option Z) (nextHopsOf : PitEntry -> list NextHop).
(** The order in which an [unordered_map] of transmit queues is traversed. *)
Context (order : gmap Z TxQueue -> list Z).

Record QosStrategy := mkQos {
  m_tx_queue : gmap Z TxQueue;
  buckets : list TokenBucket;
  m_faceStats : gmap Name FaceStats;
  rejectedInterests : list Name;
  pits : gmap positive PitEntry;
  qos_sent : list (Action (C:=C))
}.
Implicit Types (q : QosStrategy) (interest : Interest) (data : Data) (name : Name) (p : positive).

Definition set_tx (m : gmap Z TxQueue) q : QosStrategy :=
  mkQos m (buckets q) (m_faceStats q) (rejectedInterests q) (pits q) (qos_sent q).
Definition set_buckets (l : list TokenBucket) q : QosStrategy :=
  mkQos (m_tx_queue q) l (m_faceStats q) (rejectedInterests q) (pits q) (qos_sent q).
Definition set_stats (m : gmap Name FaceStats) q : QosStrategy :=
  mkQos (m_tx_queue q) (buckets q) m (rejectedInterests q) (pits q) (qos_sent q).
Definition set_rejected (l : list Name) q : QosStrategy :=
  mkQos (m_tx_queue q) (buckets q) (m_faceStats q) l (pits q) (qos_sent q).

(** A step on the PIT entry behind a pointer. *)
Definition onPit p (f : Fx -> option Fx) q : option QosStrategy :=
  pe ← pits q !! p;
  fx ← f (mkFx pe []);
  Some (mkQos (m_tx_queue q) (buckets q) (m_faceStats q) (rejectedInterests q)
          (<[p := fx_pit fx]> (pits q)) (qos_sent q ++ fx_sent fx)).

(** The number of priority levels. *)
Notation nLevels := (length m_successReqs).

Definition getPrType name : Z :=
  if decide (getSubName 1 1 name = [TYPE_I]) then 0
  else if decide (getSubName 1 1 name = [TYPE_II]) then 1
  else if decide (getSubName 1 1 name = [TYPE_III]) then 2
  else 715.

(** [getSubName(0, size() - k)]: an underflowing length takes the whole name. *)
Definition dropLast (k : nat) name : Name :=
  if (length name <? k)%nat then name else take (length name - k) name.

(** The identifier of a face as a [uint32_t]. *)
Definition faceId (f : Z) : Z := u32 (f_id (faceOf f)).

(** ** Face statistics *)

Definition beta : Z := double_of_dec 833 1000.
Definition ewma (x rate : Z) : Z :=
  double_add (double_mul beta x) (double_mul (double_sub one beta) rate).

Definition set_abs (f v : Z) (s : FaceStats) : FaceStats :=
  mkFaceStats (<[f := v]> (absLossRate s)) (relaLossRate s) (bootstrapped s) (totalPacketsSent s).
Definition set_rela (f v : Z) (s : FaceStats) : FaceStats :=
  mkFaceStats (absLossRate s) (<[f := v]> (relaLossRate s)) (bootstrapped s) (totalPacketsSent s).

(** [unordered_map::insert] keeps an existing entry. *)
Definition map_insert (f v : Z) (m : gmap Z Z) : gmap Z Z := match m !! f with Some _ => m | None => <[f := v]> m end.

Definition initialize_stats (name : Name) p q : option QosStrategy :=
  pe ← pits q !! p;
  inR ← head (m_inRecords pe);
  let inFace := in_face inR in
  let inFaceId := u32 (f_id (faceOf inFace)) in
  let add s nexthop :=
    let outFace := nh_face nexthop in
    if ((f_id (faceOf outFace) =? inFaceId) &&
        negb (bool_decide (f_linkType (faceOf outFace) = LINK_TYPE_AD_HOC)))
       || wouldViolateScope faceOf inFace (m_interest pe) outFace then s
    else mkFaceStats (map_insert (faceId outFace) 0 (absLossRate s)) (map_insert (faceId outFace) 0 (relaLossRate s))
           (bootstrapped s) (totalPacketsSent s) in
  Some (set_stats (<[name := foldl add newFaceStats (nextHopsOf pe)]> (m_faceStats q)) q).

Definition getFaceProb (s : FaceStats) (f : Z) (rel : bool) : Z :=
  if negb (bootstrapped s) then 0
  else
    let prob := if negb rel then double_sub one (at0 (absLossRate s) f)
                else double_sub one (at0 (relaLossRate s) f) in
    if prob =? 0 then 0 else prob.

Definition beforeSatisfyInterest (inFace : Z) p data q : option QosStrategy :=
  let namePrefix := dropLast 2 (data_name data) in
  match m_faceStats q !! namePrefix with
  | None => Some q
  | Some s =>
      pe ← pits q !! p;
      let f := faceId inFace in
      let s := set_abs f (ewma 0 (at0 (absLossRate s) f)) s in
      let s := set_rela f (ewma 0 (at0 (relaLossRate s) f)) s in
      let s := foldl (fun s out =>
        if f_id (faceOf inFace) =? f_id (faceOf (out_face out)) then s
        else let g := faceId (out_face out) in set_abs g (ewma one (at0 (absLossRate s) g)) s)
        s (m_outRecords pe) in
      Some (set_stats (<[namePrefix := s]> (m_faceStats q)) q)
  end.

Definition wasRejected name q : QosStrategy * bool :=
  match find_if (fun n => bool_decide (n = name)) (rejectedInterests q) with
  | Some _ => (set_rejected (erase_first (fun n => bool_decide (n = name)) (rejectedInterests q)) q, true)
  | None => (q, false)
  end.

(** Both assignments of the loop are to [absLossRate]. *)
Definition beforeExpirePendingInterest (pe : PitEntry) q : QosStrategy :=
  let name := i_name (m_interest pe) in
  let '(q, rejected) := wasRejected name q in
  if rejected then q
  else
    let namePrefix := dropLast 2 name in
    match m_faceStats q !! namePrefix with
    | None => q
    | Some s =>
        let s := foldl (fun s out =>
          let f := faceId (out_face out) in
          let s := set_abs f (ewma one (at0 (absLossRate s) f)) s in
          set_abs f (ewma one (at0 (relaLossRate s) f)) s) s (m_outRecords pe) in
        set_stats (<[namePrefix := s]> (m_faceStats q)) q
    end.

(** ** Sending *)

(** The queues of a face, created with one level per class. *)
Definition txQueueOf (f : Z) q : TxQueue :=
  match m_tx_queue q !! f with
  | Some t => t
  | None => initialize (Z.of_nat (length m_successReqs)) (newTxQueue 0)
  end.

Definition enqueue (simNow f : Z) (item : Item) (pr_level : Z) q : option (QosStrategy * bool) :=
  '(t, ok) ← DoEnqueue simNow item pr_level (txQueueOf f q);
  Some (set_tx (<[f := t]> (m_tx_queue q)) q, ok).

Definition set_hasFaces (b : TokenBucket) : TokenBucket :=
  mkTokenBucket true (m_atCapacity b) (m_tokens b) (m_need b) (m_capacity b).

(** The dispatch on the type of a dequeued packet. *)
Definition sendItem (now : Z) (item : Item) q : option QosStrategy :=
  match packetType item with
  | INTEREST =>
      interest ← decodeInterest (wireEncode item);
      p ← pitEntry item; outFace ← outface item;
      onPit p (fun fx => Some (onOutgoingInterest now outFace interest fx)) q
  | DATA =>
      data ← decodeData (wireEncode item);
      p ← pitEntry item; outFace ← outface item;
      onPit p (sendData faceOf data outFace) q
  | NACK =>
      _ ← decodeInterest (wireEncode item);
      p ← pitEntry item; inFace ← inface item;
      onPit p (processNack faceOf enum) q
  | INVALID => Some q
  end.

Definition need_all (f : Z) (t : TxQueue) (bs : list TokenBucket) : option (list TokenBucket) :=
  foldr (fun ib acc => l ← acc; r ← tokenReq (Z.of_nat ib.1) t; Some (set_need f (double_of_int r) ib.2 :: l))
        (Some []) (imap pair bs).

(** The inner loop of [prioritySend] at a face; the boolean is [tokenwait]. *)
Fixpoint send_loop (fuel : nat) (now f rate : Z) (tokenwait : bool) q : option (QosStrategy * bool) :=
  match fuel with
  | O => None
  | S fuel =>
      t ← m_tx_queue q !! f;
      empty ← TxIsEmpty t;
      if negb empty && negb tokenwait && (rate <? 25) then
        choice ← SelectQueueToSend ((fun b => available b f) <$> buckets q) t;
        if negb (choice =? -1) then
          b ← buckets q !! Z.to_nat choice;
          let b := set_need f 0 (consumeToken one f (set_hasFaces b)).1 in
          let q := set_buckets (<[Z.to_nat choice := b]> (buckets q)) q in
          '(t, item) ← DoDequeue choice t;
          let q := set_tx (<[f := t]> (m_tx_queue q)) q in
          q ← sendItem now item q;
          send_loop fuel now f (rate + 1) tokenwait q
        else
          bs ← need_all f t (buckets q);
          send_loop fuel now f rate true (set_buckets bs q)
      else Some (q, tokenwait)
  end.

(** The loop makes at most 25 sends and one wait. *)
Definition prioritySend_step (now : Z) (acc : option (QosStrategy * bool)) (f : Z) : option (QosStrategy * bool) :=
  '(q, tokenwait) ← acc;
  outFace ← faceById f;
  let rate := default 25 (devQueue outFace) in
  send_loop 27 now f rate tokenwait q.

Definition prioritySend (now : Z) q : option QosStrategy :=
  fst <$> foldl (prioritySend_step now) (Some (q, false)) (order (m_tx_queue q)).

(** ** Interests *)

Definition set_pit p (pe : PitEntry) q : QosStrategy :=
  mkQos (m_tx_queue q) (buckets q) (m_faceStats q) (rejectedInterests q) (<[p := pe]> (pits q)) (qos_sent q).

(** The search for the best face among the next hops: [isSuppressed],
    [nEligibleNextHops], [bestFaceID], [bestProb] and [bestFace]. *)
Record Best := mkBest {
  isSuppressed : bool; nEligibleNextHops : Z; bestFaceID : Z; bestProb : Z; bestFace : option Z
}.

Definition best_step (now inFace : Z) interest p (namePrefix : Name) (seenFaces : gset Z)
    (acc : option (QosStrategy * Best)) (nexthop : NextHop) : option (QosStrategy * Best) :=
  '(q, b) ← acc;
  pe ← pits q !! p;
  let outFace := nh_face nexthop in
  let '(suppressResult, pe) := decidePerUpstream strategyRetx now outFace pe in
  let q := set_pit p pe q in
  Some (match suppressResult with
  | SUPPRESS => (q, mkBest true (nEligibleNextHops b) (bestFaceID b) (bestProb b) (bestFace b))
  | _ =>
      if ((f_id (faceOf outFace) =? f_id (faceOf inFace)) &&
          negb (bool_decide (f_linkType (faceOf outFace) = LINK_TYPE_AD_HOC)))
         || wouldViolateScope faceOf inFace interest outFace then (q, b)
      else
        let f := faceId outFace in
        if bool_decide (f ∈ seenFaces) then (q, b)
        else
          let s := default newFaceStats (m_faceStats q !! namePrefix) in
          let faceProb := getFaceProb s f (negb (bestFaceID b =? 0)) in
          if bestProb b <=? faceProb
          then (q, mkBest (isSuppressed b) (nEligibleNextHops b + 1) f faceProb (Some outFace))
          else (q, mkBest (isSuppressed b) (nEligibleNextHops b + 1) (bestFaceID b) (bestProb b) (bestFace b))
  end).

(** The [while] loop: one face per turn until the success probability is met. *)
Fixpoint forward_loop (fuel : nat) (now simNow inFace : Z) interest p (namePrefix : Name)
    (nexthops : list NextHop) (pr_level successProb : Z)
    (first : bool) (prob : Z) (hasOptions : bool) (seenFaces : gset Z)
    (suppr : bool) (nEligible : Z) (forwarded : bool) q : option (QosStrategy * bool * Z * bool) :=
  match fuel with
  | O => None
  | S fuel =>
      if first || ((prob <? successProb) && hasOptions) then
        '(q, b) ← foldl (best_step now inFace interest p namePrefix seenFaces)
                    (Some (q, mkBest suppr nEligible 0 0 None)) nexthops;
        if bestFaceID b =? 0 then
          forward_loop fuel now simNow inFace interest p namePrefix nexthops pr_level successProb
            false prob false seenFaces (isSuppressed b) (nEligibleNextHops b) forwarded q
        else
          let item := mkQueueItem (encodeInterest interest) INTEREST (Some p) (Some inFace) (bestFace b) in
          '(q, ok) ← enqueue simNow (bestFaceID b) item pr_level q;
          forward_loop fuel now simNow inFace interest p namePrefix nexthops pr_level successProb
            false (double_add prob (bestProb b)) hasOptions ({[bestFaceID b]} ∪ seenFaces)
            (isSuppressed b) (nEligibleNextHops b) (forwarded || ok) q
      else Some (q, suppr, nEligible, forwarded)
  end.

Definition countPacket (s : FaceStats) : FaceStats :=
  let total := u32 (totalPacketsSent s + 1) in
  mkFaceStats (absLossRate s) (relaLossRate s)
    (if negb (bootstrapped s) && (3 <? total) then true else bootstrapped s) total.

Definition nackNoRoute (now inFace : Z) fx : option Fx :=
  fx ← onOutgoingNack faceOf inFace REASON_NO_ROUTE fx; rejectPendingInterest now fx.

(** The end of the handler: an Interest that entered no queue is rejected. *)
Definition finishInterest (now : Z) interest p (forwarded : bool) q : option QosStrategy :=
  if negb forwarded then
    q ← onPit p (rejectPendingInterest now) q;
    Some (set_rejected (rejectedInterests q ++ [i_name interest]) q)
  else prioritySend now q.

Definition qos_isNextHopEligible (inFace : Z) interest (nexthop : NextHop) (pe : PitEntry)
    (wantUnused : bool) (now : Z) : bool :=
  if isNextHopEligible faceOf inFace interest nexthop pe wantUnused now then
    match devQueue (nh_face nexthop) with
    | None => false
    | Some rate => if 100 <? rate then false else true
    end
  else false.

Definition qos_earliest_step (inFace : Z) interest (pe : PitEntry) (acc : option (option NextHop * Z))
    (nexthop : NextHop) : option (option NextHop * Z) :=
  '(found, earliestRenewed) ← acc;
  if negb (qos_isNextHopEligible inFace interest nexthop pe false TimePoint_min) then acc
  else
    outRecord ← getOutRecord (nh_face nexthop) pe;
    Some (if out_lastRenewed outRecord <? earliestRenewed then (Some nexthop, out_lastRenewed outRecord)
          else (found, earliestRenewed)).

(** The branch for a name of no class. *)
Definition unclassifiedInterest (now simNow inFace : Z) interest p (pr_level : Z) q : option QosStrategy :=
  pe ← pits q !! p;
  '(suppression, pe) ← decidePerPitEntry strategyRetx now pe;
  let q := set_pit p pe q in
  let nexthops := nextHopsOf pe in
  let forwardTo nh :=
    let item := mkQueueItem (encodeInterest interest) INTEREST (Some p) (Some inFace) (Some (nh_face nh)) in
    '(q, _) ← enqueue simNow (faceId (nh_face nh)) item pr_level q;
    prioritySend now q in
  match suppression with
  | SUPPRESS => Some q
  | NEW =>
      match find_if (fun nh => qos_isNextHopEligible inFace interest nh pe false TimePoint_min) nexthops with
      | None => onPit p (nackNoRoute now inFace) q
      | Some nh => forwardTo nh
      end
  | FORWARD =>
      match find_if (fun nh => qos_isNextHopEligible inFace interest nh pe true now) nexthops with
      | Some nh => forwardTo nh
      | None =>
          '(found, _) ← foldl (qos_earliest_step inFace interest pe) (Some (None, TimePoint_max)) nexthops;
          match found with
          | Some nh => forwardTo nh
          | None => finishInterest now interest p false q
          end
      end
  end.

Definition classifiedInterest (now simNow inFace : Z) interest p (pr_level successProb : Z) q :
    option QosStrategy :=
  let namePrefix := dropLast 1 (i_name interest) in
  q ← (match m_faceStats q !! namePrefix with
       | None => initialize_stats namePrefix p q
       | Some _ => Some q
       end);
  s ← m_faceStats q !! namePrefix;
  let q := set_stats (<[namePrefix := countPacket s]> (m_faceStats q)) q in
  pe ← pits q !! p;
  let nexthops := nextHopsOf pe in
  '(q, suppr, nEligible, forwarded) ←
    forward_loop (length nexthops + 2) now simNow inFace interest p namePrefix nexthops pr_level successProb
      true 0 true ∅ false 0 false q;
  q ← prioritySend now q;
  q ← (if (nEligible =? 0) && negb suppr then onPit p (nackNoRoute now inFace) q else Some q);
  pe ← pits q !! p;
  '(suppression, pe) ← decidePerPitEntry strategyRetx now pe;
  let q := set_pit p pe q in
  match suppression with
  | SUPPRESS => Some q
  | _ => finishInterest now interest p forwarded q
  end.

(** The handler once the class is known; [getPrType] is virtual. *)
Definition interestOfClass (now simNow inFace : Z) interest p (pr_level : Z) q : option QosStrategy :=
  match m_successReqs !! Z.to_nat pr_level with
  | Some successProb => classifiedInterest now simNow inFace interest p pr_level successProb q
  | None => unclassifiedInterest now simNow inFace interest p pr_level q
  end.

Definition qos_afterReceiveInterest (now simNow inFace : Z) interest p q : option QosStrategy :=
  interestOfClass now simNow inFace interest p (getPrType (i_name interest)) q.

(** ** Nacks and Data *)

(** The handler returns at once. *)
Definition qos_afterReceiveNack (inFace : Z) p q : QosStrategy := q.

(** The loop body of [afterReceiveData]: the Data is queued for a downstream. *)
Definition enqueueData (simNow inFace : Z) data p (pr_level : Z) (acc : option QosStrategy) (downstream : Z) :
    option QosStrategy :=
  q ← acc;
  let item := mkQueueItem (encodeData data) DATA (Some p) (Some inFace) (Some downstream) in
  '(q, _) ← enqueue simNow (faceId downstream) item pr_level q;
  Some q.

(** The handler after [beforeSatisfyInterest], which is virtual as well. *)
Definition dataOfClass (now simNow inFace : Z) data p (pr_level : Z) q : option QosStrategy :=
  pe ← pits q !! p;
  q ← foldl (enqueueData simNow inFace data p pr_level) (Some q) (pendingDownstreams faceOf enum now inFace pe);
  prioritySend now q.

Definition qos_afterReceiveData (now simNow inFace : Z) data p q : option QosStrategy :=
  q ← beforeSatisfyInterest inFace p data q;
  dataOfClass now simNow inFace data p (getPrType (data_name data)) q.

(** ** Loss rates *)

Lemma one_bits : one = 2 ^ 53 * 2 ^ 1021.
Proof. unfold one. rewrite of_int_exact by lia. rewrite <-Z.pow_add_r by lia. rewrite Z.mul_1_l. f_equal. Qed.

Lemma beta_bits : beta = 7502996979199246 * 2 ^ 1021.
Proof. vm_compute. reflexivity. Qed.

(** The complement of the weight is exact. *)
Lemma sub_beta : double_sub one beta = 1504202275541746 * 2 ^ 1021.
Proof.
  rewrite fsub_def, one_bits, beta_bits, <-Z.mul_sub_distr_r. set (m := _ - _). rewrite <-(Z.mul_1_r (m * _)).
  rewrite fround_repr; [done|lia|lia|]. apply repr_int; unfold m; lia.
Qed.

Lemma one_repr : representable 53 one.
Proof. rewrite one_bits. apply (repr_pow 53); lia. Qed.

Lemma ewma_range x r : x = 0 \/ x = one -> 0 <= r <= one -> 0 <= ewma x r <= one.
Proof.
  intros Hx Hr. unfold ewma. rewrite sub_beta, fadd_def, !fmul_def, beta_bits.
  pose proof one_repr as Hone. set (w := 2 ^ 1021) in *.
  assert (2 ^ 1074 = 2 ^ 53 * w) as Hu by (unfold w; by rewrite <-Z.pow_add_r by lia).
  assert (0 < w) as Hw by (apply Z.pow_pos_nonneg; lia).
  assert (one = 2 ^ 53 * w) as Hone1 by apply one_bits. rewrite Hu.
  assert (forall m y, 0 <= m < 2 ^ 53 -> 0 <= y <= one -> 0 <= fround 53 (m * w * y) (2 ^ 53 * w) <= m * w) as Hmul.
  { intros m y Hm Hy. split; [apply fround_nonneg; nia|].
    apply fround_le_repr; [lia|nia|nia|by apply repr_int|]. nia. }
  assert (0 <= x <= one) as Hx' by (destruct Hx as [->| ->]; nia).
  pose proof (Hmul 7502996979199246 x ltac:(lia) Hx') as Hb. pose proof (Hmul 1504202275541746 r ltac:(lia) Hr) as Hc.
  split; [apply fround_nonneg; lia|]. apply fround_le_repr; [lia|lia|lia|done|]. rewrite Hone1. lia.
Qed.

Lemma ewma_zero : ewma 0 0 = 0.
Proof.
  unfold ewma. rewrite fadd_def, !fmul_def, !Z.mul_0_r.
  assert (fround 53 0 (2 ^ 1074) = 0) as Hz.
  { apply (fround_repr 53 ltac:(lia) 0 (2 ^ 1074)); [lia|]. exists 0, 0. lia. }
  rewrite !Hz. apply (fround_repr 53 ltac:(lia) 0 1); [lia|]. exists 0, 0. lia.
Qed.

(** Absolute loss rates are between 0 and 1; the relative ones are 0. *)
Definition stats_ok (s : FaceStats) : Prop :=
  (forall f r, absLossRate s !! f = Some r -> 0 <= r <= one) /\
  (forall f r, relaLossRate s !! f = Some r -> r = 0).

Definition rates_ok (m : gmap Name FaceStats) : Prop := forall n s, m !! n = Some s -> stats_ok s.

Lemma one_pos : 0 <= one.
Proof. rewrite one_bits. lia. Qed.

Lemma at0_abs s f : stats_ok s -> 0 <= at0 (absLossRate s) f <= one.
Proof.
  intros [Ha _]. unfold at0. destruct (absLossRate s !! f) eqn:E0; [by eapply Ha|]. pose proof one_pos. simpl. lia.
Qed.

Lemma at0_rela s f : stats_ok s -> at0 (relaLossRate s) f = 0.
Proof. intros [_ Hr]. unfold at0. destruct (relaLossRate s !! f) eqn:E0; [by eapply Hr|done]. Qed.

Lemma set_abs_ok f v s : stats_ok s -> 0 <= v <= one -> stats_ok (set_abs f v s).
Proof. intros [Ha Hr] Hv. split; [|done]. simpl. intros g r [[_ <-]|[_ ?]]%lookup_insert_Some; [done|by eapply Ha]. Qed.

Lemma set_rela_ok f s : stats_ok s -> stats_ok (set_rela f (ewma 0 (at0 (relaLossRate s) f)) s).
Proof.
  intros Hs. pose proof (at0_rela s f Hs) as H0'. destruct Hs as [Ha Hr]. split; [done|]. simpl.
  intros g r [[_ <-]|[_ ?]]%lookup_insert_Some; [by rewrite H0', ewma_zero|by eapply Hr].
Qed.

Lemma fold_stats {A} (g : FaceStats -> A -> FaceStats) l : forall s,
  (forall s x, stats_ok s -> stats_ok (g s x)) -> stats_ok s -> stats_ok (foldl g s l).
Proof. induction l as [|x l IH]; intros s Hg Hs; simpl; [done|]. apply IH; auto. Qed.

Lemma rates_insert n s m : rates_ok m -> stats_ok s -> rates_ok (<[n := s]> m).
Proof. intros Hm Hs k s' [[_ <-]|[_ ?]]%lookup_insert_Some; [done|by eapply Hm]. Qed.

Lemma newFaceStats_ok : stats_ok newFaceStats.
Proof. split; intros f r Hf; simpl in Hf; by rewrite lookup_empty in Hf. Qed.

Lemma map_insert_lookup f (m : gmap Z Z) g r : map_insert f 0 m !! g = Some r -> r = 0 \/ m !! g = Some r.
Proof.
  unfold map_insert. destruct (m !! f); [auto|]. intros [[_ <-]|[_ ?]]%lookup_insert_Some; auto.
Qed.

Lemma getFaceProb_range s f rel : stats_ok s -> 0 <= getFaceProb s f rel <= one.
Proof.
  intros Hs. unfold getFaceProb. pose proof one_pos. destruct (bootstrapped s); simpl; [|lia].
  pose proof one_repr as Hone.
  assert (forall x, 0 <= x <= one -> 0 <= double_sub one x <= one) as Hsub.
  { intros x Hx. rewrite fsub_def. split; [apply fround_nonneg; lia|]. apply fround_le_repr; [lia|lia|lia|done|lia]. }
  pose proof (Hsub _ (at0_abs s f Hs)). pose proof (Hsub 0 ltac:(lia)). pose proof (at0_rela s f Hs) as Hz.
  destruct rel; simpl; rewrite ?Hz; case_match; lia.
Qed.

Lemma initialize_stats_ok name p q pe :
  rates_ok (m_faceStats q) -> pits q !! p = Some pe -> m_inRecords pe <> [] ->
  exists s, initialize_stats name p q = Some (set_stats (<[name := s]> (m_faceStats q)) q) /\ stats_ok s.
Proof.
  intros Hr Hp Hin. unfold initialize_stats. rewrite Hp. cbn [mbind option_bind].
  destruct (m_inRecords pe) as [|r rs]; [done|]. simpl. eexists. split; [done|].
  apply fold_stats; [|apply newFaceStats_ok]. intros s nh [Ha Hrl]. case_match; [done|]. pose proof one_pos.
  split; simpl; intros f x [->|Hx]%map_insert_lookup; [lia|by eapply Ha|done|by eapply Hrl].
Qed.

Lemma beforeSatisfy_rates inFace p data q pe :
  rates_ok (m_faceStats q) -> pits q !! p = Some pe ->
  exists m, beforeSatisfyInterest inFace p data q = Some (set_stats m q) /\ rates_ok m.
Proof.
  intros Hr Hp. unfold beforeSatisfyInterest. destruct (m_faceStats q !! _) as [s|] eqn:Es.
  - rewrite Hp. cbn [mbind option_bind]. eexists. split; [done|]. apply rates_insert; [done|].
    apply Hr in Es. apply fold_stats.
    + intros s' out Hs'. case_match; [done|]. apply set_abs_ok; [done|]. apply ewma_range; [auto|by apply at0_abs].
    + apply set_rela_ok, set_abs_ok; [done|]. apply ewma_range; [auto|by apply at0_abs].
  - exists (m_faceStats q). by destruct q.
Qed.

Lemma beforeExpire_rates pe q :
  rates_ok (m_faceStats q) -> rates_ok (m_faceStats (beforeExpirePendingInterest pe q)).
Proof.
  intros Hr. unfold beforeExpirePendingInterest, wasRejected.
  destruct (find_if _ (rejectedInterests q)); [done|]. destruct (m_faceStats q !! _) as [s|] eqn:Es; [|done].
  apply rates_insert; [done|]. apply Hr in Es. apply fold_stats; [|done]. intros s' out Hs'.
  pose proof one_pos. apply set_abs_ok; [apply set_abs_ok; [done|]|].
  - apply ewma_range; [auto|by apply at0_abs].
  - apply ewma_range; [auto|]. simpl. rewrite at0_rela by done. lia.
Qed.

(** ** The strategy's invariant *)

(** PIT entries keep their Interest and stay well formed. *)
Definition pits_le (m m' : gmap positive PitEntry) : Prop := forall p,
  option_Forall2 (fun pe pe' => m_interest pe' = m_interest pe /\ (pe_ok pe -> pe_ok pe')) (m !! p) (m' !! p).

(** An item points to a PIT entry and a face, and holds the encoding of an
    Interest or of a Data that its entry accepts. *)
Definition item_ok (m : gmap positive PitEntry) (item : Item) : Prop :=
  exists p pe out, pitEntry item = Some p /\ m !! p = Some pe /\ outface item = Some out /\
  match packetType item with
  | INTEREST => exists i, wireEncode item = encodeInterest i
  | DATA => exists d, wireEncode item = encodeData d /\
              matchesData (i_name (m_interest pe)) (i_selectors (m_interest pe)) d = true
  | _ => False
  end.

Definition items_ok (m : gmap positive PitEntry) (t : TxQueue) : Prop :=
  tx_ok t /\ length (m_priorityQueues t) = nLevels /\
  forall i qi, m_priorityQueues t !! i = Some qi -> Forall (item_ok m) (m_queue qi).

Definition queues_ok (m : gmap positive PitEntry) (txs : gmap Z TxQueue) : Prop :=
  forall f t, txs !! f = Some t -> is_Some (faceById f) /\ items_ok m t.

Definition qos_ok q : Prop :=
  queues_ok (pits q) (m_tx_queue q) /\
  (length (buckets q) = nLevels /\ Forall bucket_ok (buckets q)) /\
  (forall p pe, pits q !! p = Some pe -> pe_ok pe) /\ rates_ok (m_faceStats q).

#[local] Instance pits_le_preorder : PreOrder pits_le.
Proof.
  split.
  - intros m p. destruct (m !! p); by constructor.
  - intros a b c Hab Hbc p. specialize (Hab p). specialize (Hbc p).
    destruct Hab as [x y [Hi Ho]|]; inversion Hbc as [? z [Hi' Ho']|]; constructor. split; [congruence|auto].
Qed.

Lemma pits_le_insert m p pe pe' :
  m !! p = Some pe -> m_interest pe' = m_interest pe -> (pe_ok pe -> pe_ok pe') -> pits_le m (<[p := pe']> m).
Proof.
  intros Hp Hi Ho k. destruct (decide (k = p)) as [->|Hne].
  - rewrite Hp, lookup_insert_eq. by constructor.
  - rewrite lookup_insert_ne by done. destruct (m !! k); by constructor.
Qed.

Lemma pits_le_lookup m m' p pe : pits_le m m' -> m !! p = Some pe ->
  exists pe', m' !! p = Some pe' /\ m_interest pe' = m_interest pe.
Proof. intros Hle Hp. specialize (Hle p). rewrite Hp in Hle. inversion Hle as [? pe' [Hi _]|]. eauto. Qed.

Lemma pits_le_ok m m' : pits_le m m' -> (forall p pe, m !! p = Some pe -> pe_ok pe) ->
  forall p pe, m' !! p = Some pe -> pe_ok pe.
Proof. intros Hle Hm p pe Hp. specialize (Hle p). rewrite Hp in Hle. inversion Hle as [pe0 ? [_ Ho]|]. subst. eauto. Qed.

Lemma item_ok_le m m' item : pits_le m m' -> item_ok m item -> item_ok m' item.
Proof.
  intros Hle (p & pe & out & Hp & Hm & Ho & Hw). destruct (pits_le_lookup _ _ _ _ Hle Hm) as (pe' & Hm' & Hi).
  exists p, pe', out. by rewrite Hi.
Qed.

Lemma items_ok_le m m' t : pits_le m m' -> items_ok m t -> items_ok m' t.
Proof.
  intros Hle (Ht & Hl & Hi). split_and!; [done|done|]. intros i qi Hq. eapply Forall_impl; [by eapply Hi|].
  intros. by eapply item_ok_le.
Qed.

Lemma queues_ok_le m m' txs : pits_le m m' -> queues_ok m txs -> queues_ok m' txs.
Proof. intros Hle Hq f t Hf. destruct (Hq f t Hf). split; [done|by eapply items_ok_le]. Qed.

Lemma queues_ok_insert m txs f t :
  queues_ok m txs -> is_Some (faceById f) -> items_ok m t -> queues_ok m (<[f := t]> txs).
Proof. intros Hq Hf Ht g t' [[<- <-]|[_ Hg]]%lookup_insert_Some; [done|by apply Hq]. Qed.

(** A step on the entry behind a pointer that keeps the contract of triggers. *)
Lemma onPit_ok P p f q pe :
  pits q !! p = Some pe -> pe_ok pe ->
  (exists fx', f (mkFx pe []) = Some fx' /\ ext P (mkFx pe []) fx') ->
  exists pe' l, onPit p f q = Some (mkQos (m_tx_queue q) (buckets q) (m_faceStats q) (rejectedInterests q)
                                     (<[p := pe']> (pits q)) (qos_sent q ++ l)) /\
    f (mkFx pe []) = Some (mkFx pe' l) /\ pits_le (pits q) (<[p := pe']> (pits q)) /\ Forall P l.
Proof.
  intros Hp Hok ([pe' l] & Hf & Hext). exists pe', l. unfold onPit. rewrite Hp. cbn [mbind option_bind].
  rewrite Hf. split_and!; [done|done| |].
  - destruct Hext as (? & ? & _). by eapply pits_le_insert.
  - destruct Hext as (_ & _ & _ & _ & _ & l' & Hl & Hall). simpl in Hl. by subst l'.
Qed.

(** ** What a send round does *)

(** The packets that an item becomes on the wire. *)
Definition emitted (item : Item) : list Action :=
  match packetType item, outface item with
  | INTEREST, Some out => match decodeInterest (wireEncode item) with Some i => [SendInterest out i] | None => [] end
  | DATA, Some out => match decodeData (wireEncode item) with
                      | Some d => option_list (dataTo faceOf d out)
                      | None => []
                      end
  | _, _ => []
  end.

Lemma sendItem_ok now item q :
  item_ok (pits q) item -> (forall p pe, pits q !! p = Some pe -> pe_ok pe) ->
  exists m, pits_le (pits q) m /\
    sendItem now item q = Some (mkQos (m_tx_queue q) (buckets q) (m_faceStats q) (rejectedInterests q) m
                                  (qos_sent q ++ emitted item)).
Proof.
  intros (p & pe & out & Hp & Hm & Ho & Hw) Hok. unfold sendItem, emitted. rewrite Hp, Ho.
  destruct (packetType item); try done.
  - destruct Hw as [i ->]. rewrite decode_encode_Interest. cbn [mbind option_bind].
    destruct (onPit_ok (fun _ => True) p (fun fx => Some (onOutgoingInterest now out
      (mkInterest _ _ _ (i_name i) (i_selectors i) (i_nonce i) (i_lifetime i) (i_forwardingHint i) None) fx)) q pe)
      as (pe' & l & He & Hf & Hle & _); [done|by eapply Hok| |].
    { eexists. split; [done|]. apply (ext_touches _ out); [by eapply Hok|apply touches_send|by repeat constructor]. }
    exists (<[p := pe']> (pits q)). split; [done|]. rewrite He. injection Hf as _ <-. done.
  - destruct Hw as (d & -> & Hd). rewrite decode_encode_Data. cbn [mbind option_bind].
    destruct (onPit_ok (fun _ => True) p (sendData faceOf d out) q pe)
      as (pe' & l & He & Hf & Hle & _); [done|by eapply Hok| |].
    { unfold sendData. cbn [fx_pit]. rewrite Hd. eexists. split; [done|].
      rewrite deleteInRecord_remove by (by eapply Hok). split_and!; try done; simpl.
      - apply pe_ok_remove_in. by eapply Hok.
      - apply remove_if_sublist.
      - eexists. split; [done|]. apply Forall_true. done. }
    exists (<[p := pe']> (pits q)). split; [done|]. rewrite He. unfold sendData in Hf. cbn [fx_pit] in Hf.
    rewrite Hd, onOutgoingData_ok in Hf. injection Hf as _ <-. done.
Qed.

(** The items that a trace (face, level, item) takes from a level of a face. *)
Notation Trace := (list (Z * nat * Item)).
Definition sent_at (f : Z) (i : nat) (tr : Trace) : list Item := snd <$> filter (fun x => x.1 = (f, i)) tr.
Definition sent_to (f : Z) (tr : Trace) : Z := Z.of_nat (length (filter (fun x => x.1.1 = f) tr)).

(** Sending a trace takes its items from the front of their queues and a token
    each from the bucket of their level, and sends what they encode. *)
Definition transmits q (tr : Trace) q' : Prop :=
  (forall f t, m_tx_queue q !! f = Some t -> exists t', m_tx_queue q' !! f = Some t' /\
     forall i qi, m_priorityQueues t !! i = Some qi ->
       exists qi', m_priorityQueues t' !! i = Some qi' /\ m_queue qi = sent_at f i tr ++ m_queue qi') /\
  (forall f, m_tx_queue q !! f = None -> m_tx_queue q' !! f = None) /\
  (forall i b, buckets q !! i = Some b -> exists b', buckets q' !! i = Some b' /\
     forall f, available b' f = available b f - whole (Z.of_nat (length (sent_at f i tr)))) /\
  pits_le (pits q) (pits q') /\
  qos_sent q' = qos_sent q ++ (tr ≫= fun x => emitted x.2) /\
  m_faceStats q' = m_faceStats q /\ rejectedInterests q' = rejectedInterests q.

Lemma sent_at_app f i (tr tr' : Trace) : sent_at f i (tr ++ tr') = sent_at f i tr ++ sent_at f i tr'.
Proof. unfold sent_at. by rewrite filter_app, fmap_app. Qed.

Lemma sent_to_app f (tr tr' : Trace) : sent_to f (tr ++ tr') = sent_to f tr + sent_to f tr'.
Proof. unfold sent_to. rewrite filter_app, length_app. lia. Qed.

Lemma transmits_nil q q' :
  m_tx_queue q' = m_tx_queue q -> pits q' = pits q -> qos_sent q' = qos_sent q ->
  m_faceStats q' = m_faceStats q -> rejectedInterests q' = rejectedInterests q ->
  (forall i b, buckets q !! i = Some b -> exists b', buckets q' !! i = Some b' /\
     forall f, available b' f = available b f) -> transmits q [] q'.
Proof.
  intros Ht Hp Hs Hf Hr Hb. unfold transmits. rewrite Ht, Hp, Hs, Hf, Hr. split_and!; try done.
  - intros f t Hft. exists t. split; [done|]. intros i qi Hq. by exists qi.
  - intros i b Hib. destruct (Hb i b Hib) as (b' & Hb' & Ha). exists b'. split; [done|].
    intros f. rewrite Ha. unfold sent_at, whole. simpl. lia.
  - simpl. by rewrite app_nil_r.
Qed.

Lemma transmits_refl q : transmits q [] q.
Proof. apply transmits_nil; try done. intros i b Hb. by exists b. Qed.

Lemma transmits_app q1 q2 q3 tr tr' :
  transmits q1 tr q2 -> transmits q2 tr' q3 -> transmits q1 (tr ++ tr') q3.
Proof.
  intros (A1 & A2 & A3 & A4 & A5 & A6 & A7) (B1 & B2 & B3 & B4 & B5 & B6 & B7). split_and!.
  - intros f t Hf. destruct (A1 f t Hf) as (t2 & Ht2 & Hq2). destruct (B1 f t2 Ht2) as (t3 & Ht3 & Hq3).
    exists t3. split; [done|]. intros i qi Hi. destruct (Hq2 i qi Hi) as (qi2 & Hi2 & ->).
    destruct (Hq3 i qi2 Hi2) as (qi3 & Hi3 & ->). exists qi3. by rewrite sent_at_app, app_assoc.
  - auto.
  - intros i b Hb. destruct (A3 i b Hb) as (b2 & Hb2 & Ha2). destruct (B3 i b2 Hb2) as (b3 & Hb3 & Ha3).
    exists b3. split; [done|]. intros f. rewrite Ha3, Ha2, sent_at_app, length_app. unfold whole. lia.
  - by etrans.
  - by rewrite B5, A5, bind_app, app_assoc.
  - congruence.
  - congruence.
Qed.

(** A bucket after one packet of a face. *)
Lemma charge_ok f b :
  bucket_ok b -> one <= available b f ->
  let b' := set_need f 0 (consumeToken one f (set_hasFaces b)).1 in
  bucket_ok b' /\ forall g, available b' g = available b g - whole (if decide (g = f) then 1 else 0).
Proof.
  intros Hb Hone b'. assert (bucket_ok (set_hasFaces b)) as Hb1 by exact Hb.
  split; [exact (consumeToken_ok _ _ Hb1 Hone)|]. intros g.
  destruct (available_ok b f Hb) as (k & Hk & Ha).
  assert (1 <= k) by (rewrite Ha, one_whole in Hone; unfold whole in Hone; nia).
  destruct (consumeToken_eq (set_hasFaces b) f k Hb1 Ha) as [Ht Hcap]; [done|].
  unfold b', available in *. simpl. rewrite Ht, Hcap. simpl. case_decide as Hg.
  - subst g. rewrite lookup_insert_eq, Ha. unfold whole. lia.
  - rewrite lookup_insert_ne by done. unfold whole. lia.
Qed.

(** What is asked of the bucket of a level: a token when the level has packets. *)
Definition need_of (t : TxQueue) (i : nat) : Z := double_of_int (default 0 (tokenReq (Z.of_nat i) t)).

Lemma need_all_ok f t bs :
  (length bs <= length (m_priorityQueues t))%nat ->
  need_all f t bs = Some (imap (fun i b => set_need f (need_of t i) b) bs).
Proof.
  intros Hlen. unfold need_all.
  assert (forall l : list (nat * TokenBucket), (forall x, x ∈ l -> (x.1 < length (m_priorityQueues t))%nat) ->
    foldr (fun ib acc => l ← acc; r ← tokenReq (Z.of_nat ib.1) t; Some (set_need f (double_of_int r) ib.2 :: l))
      (Some []) l = Some ((fun ib => set_need f (need_of t ib.1) ib.2) <$> l)) as Hf.
  { induction l as [|x l IH]; intros Hl; [done|]. cbn [foldr]. rewrite IH by (intros; apply Hl; by right).
    cbn [mbind option_bind]. unfold need_of, tokenReq. rewrite level_at_nat.
    destruct (lookup_lt_is_Some_2 (m_priorityQueues t) x.1) as [qi Hqi]; [apply Hl; by left|].
    csimpl. rewrite level_at_nat, Hqi. done. }
  rewrite Hf.
  - f_equal. apply list_eq. intros i. rewrite list_lookup_fmap, !list_lookup_imap. by destruct (bs !! i).
  - intros x (i & Hi)%list_elem_of_lookup. rewrite list_lookup_imap in Hi.
    destruct (bs !! i) eqn:Eb; simplify_eq/=. apply lookup_lt_Some in Eb. lia.
Qed.

Notation tokensOf q f := ((fun b => available b f) <$> buckets q).

Lemma sent_at_one f k (item : Item) g i :
  sent_at g i [(f, k, item)] = if decide (g = f /\ i = k) then [item] else [].
Proof.
  unfold sent_at. rewrite filter_cons, filter_nil. simpl.
  destruct (decide (g = f /\ i = k)) as [[-> ->]|Hn]; [by rewrite decide_True|].
  rewrite decide_False; [done|]. intros [= -> ->]. tauto.
Qed.

(** One packet of an eligible level. *)
Lemma send_step now f q t k qk :
  qos_ok q -> m_tx_queue q !! f = Some t -> eligible (m_priorityQueues t) (tokensOf q f) k qk ->
  exists b t' item q1, buckets q !! k = Some b /\ DoDequeue (Z.of_nat k) t = Some (t', item) /\
    sendItem now item (set_tx (<[f := t']> (m_tx_queue q))
      (set_buckets (<[k := set_need f 0 (consumeToken one f (set_hasFaces b)).1]> (buckets q)) q)) = Some q1 /\
    qos_ok q1 /\ transmits q [(f, k, item)] q1 /\ m_tx_queue q1 !! f = Some t'.
Proof.
  intros (Hqs & [Hbl Hb] & Hp & Hr) Hf (Hk & Hne & tk & Htk & Hone).
  destruct (Hqs f t Hf) as (Hface & Htx & Hlen & Hitems).
  destruct (m_queue qk) as [|item rest] eqn:Eq; [done|].
  destruct (DoDequeue_ok k qk item rest t Htx Hk Eq) as (t' & Hd & Htx' & Htot & Hlen' & Hother & q' & Hq' & Hrest).
  rewrite list_lookup_fmap in Htk. destruct (buckets q !! k) as [b|] eqn:Eb; simplify_eq/=.
  assert (bucket_ok b) as Hbk by (rewrite Forall_lookup in Hb; by eapply Hb).
  destruct (charge_ok f b Hbk Hone) as [Hcb Hca]. set (b' := set_need f 0 _) in *.
  set (q0 := set_tx (<[f := t']> (m_tx_queue q)) (set_buckets (<[k := b']> (buckets q)) q)). pose proof (Hitems k qk Hk) as Hik. rewrite Eq in Hik.
  apply Forall_cons in Hik as [Hitem Hik].
  destruct (sendItem_ok now item q0 Hitem Hp) as (m & Hle & Hs).
  eexists b, t', item, _. split_and!; [done|done|exact Hs| |split_and!|simpl; by rewrite lookup_insert_eq].
  - assert (items_ok (pits q) t') as Hit'.
    { split_and!; [done|congruence|]. intros i qi Hi. destruct (decide (i = k)) as [->|Hik']; [by simplify_eq|].
      rewrite Hother in Hi by done. by eapply Hitems. }
    split_and!; simpl; [|by rewrite length_insert|by apply Forall_insert|by eapply pits_le_ok|done].
    apply queues_ok_le with (pits q); [done|]. by apply queues_ok_insert.
  - intros g tg Hg. simpl. destruct (decide (g = f)) as [->|Hgf].
    + exists t'. rewrite lookup_insert_eq. split; [done|]. intros i qi Hi. simplify_eq. rewrite sent_at_one.
      case_decide as Hd'; [destruct Hd' as [_ ->]; simplify_eq; exists q'; split; [done|]; by rewrite Eq|].
      exists qi. rewrite Hother by (intros ->; tauto). done.
    + exists tg. rewrite lookup_insert_ne by done. split; [done|]. intros i qi Hi. exists qi.
      rewrite sent_at_one, decide_False by tauto. done.
  - intros g Hg. simpl. rewrite lookup_insert_ne; [done|]. congruence.
  - intros i bi Hi. simpl. destruct (decide (i = k)) as [->|Hik'].
    + simplify_eq. exists b'. rewrite list_lookup_insert_eq by (by eapply lookup_lt_Some). split; [done|].
      intros g. rewrite Hca, sent_at_one. repeat case_decide; simpl; first [tauto|done].
    + exists bi. rewrite list_lookup_insert_ne by done. split; [done|]. intros g.
      rewrite sent_at_one, decide_False by tauto. unfold whole. simpl. lia.
  - exact Hle.
  - simpl. by rewrite app_nil_r.
  - done.
  - done.
Qed.

(** A face that waits: no level can send, and the buckets know which levels have
    packets. *)
Definition waits (f : Z) q : Prop :=
  forall t, m_tx_queue q !! f = Some t ->
    (forall i qi, ~ eligible (m_priorityQueues t) (tokensOf q f) i qi) /\
    forall i qi b, m_priorityQueues t !! i = Some qi -> buckets q !! i = Some b ->
      at0 (m_need b) f = if IsEmpty qi then 0 else one.

Definition emptied (f : Z) q : Prop :=
  forall t i qi, m_tx_queue q !! f = Some t -> m_priorityQueues t !! i = Some qi -> m_queue qi = [].

Lemma TxIsEmpty_ok (t : TxQueue) : tx_ok t ->
  exists e, TxIsEmpty t = Some e /\
    (e = true -> forall i qi, m_priorityQueues t !! i = Some qi -> m_queue qi = []).
Proof.
  intros Ht. unfold TxIsEmpty. rewrite levels_ok by done. cbn [mbind option_bind]. rewrite empty_levels.
  eexists. split; [done|]. intros He i qi Hi. rewrite forallb_forall in He.
  specialize (He qi). unfold IsEmpty in He. destruct (m_queue qi); [done|]. discriminate He.
  apply list_elem_of_In. by eapply list_elem_of_lookup_2.
Qed.

Lemma wait_step f q t :
  qos_ok q -> m_tx_queue q !! f = Some t ->
  (forall i qi, ~ eligible (m_priorityQueues t) (tokensOf q f) i qi) ->
  let q' := set_buckets (imap (fun i b => set_need f (need_of t i) b) (buckets q)) q in
  qos_ok q' /\ transmits q [] q' /\ waits f q'.
Proof.
  intros (Hqs & [Hbl Hb] & Hp & Hr) Hf Hno q'. split_and!.
  - split_and!; simpl; [done|by rewrite length_imap| |done|done]. apply Forall_lookup. intros i b Hi.
    rewrite list_lookup_imap in Hi. destruct (buckets q !! i) as [b0|] eqn:E0; simplify_eq/=.
    rewrite Forall_lookup in Hb. exact (Hb _ _ E0).
  - apply transmits_nil; try done. simpl. intros i b Hi. eexists. rewrite list_lookup_imap, Hi. done.
  - intros t' Ht'. simpl in Ht'. simplify_eq. split.
    + intros i qi (Hi & Hne & tk & Htk & Hone). apply (Hno i qi). split_and!; [done|done|]. exists tk.
      split; [|done]. simpl in Htk. rewrite list_lookup_fmap, list_lookup_imap in Htk. rewrite list_lookup_fmap.
      by destruct (buckets q !! i).
    + intros i qi b Hi Hb'. simpl in Hb'. rewrite list_lookup_imap in Hb'.
      destruct (buckets q !! i) as [b0|] eqn:E0; simplify_eq/=. unfold at0, need_of, tokenReq.
      rewrite lookup_insert_eq, level_at_nat, Hi. simpl. by destruct (IsEmpty qi).
Qed.

Lemma send_loop_ok now f fuel : forall (rate : Z) (tokenwait : bool) q t,
  qos_ok q -> m_tx_queue q !! f = Some t ->
  Z.max 0 (25 - rate) + (if tokenwait then 0 else 1) < Z.of_nat fuel ->
  exists q' w' (tr : Trace), send_loop fuel now f rate tokenwait q = Some (q', w') /\
    qos_ok q' /\ transmits q tr q' /\ Forall (fun x => x.1.1 = f) tr /\
    Z.of_nat (length tr) <= Z.max 0 (25 - rate) /\
    if tokenwait then q' = q /\ w' = true /\ tr = []
    else if w' then waits f q' else emptied f q' \/ Z.max 0 (25 - rate) <= Z.of_nat (length tr).
Proof.
  induction fuel as [|fuel IH]; intros rate w q t Hok Hf Hfuel; [destruct w; lia|].
  cbn [send_loop]. rewrite Hf. cbn [mbind option_bind].
  pose proof Hok as (Hqs & [Hbl Hb] & _). destruct (Hqs f t Hf) as (_ & Htx & Hlen & _).
  destruct (TxIsEmpty_ok t Htx) as (e & -> & He). cbn [mbind option_bind].
  destruct (negb e && negb w && (rate <? 25)) eqn:Ec; cycle 1.
  { exists q, w, []. split_and!; [done|done|apply transmits_refl|constructor|simpl; lia|].
    destruct w; [done|]. destruct e; [left|].
    - intros t' i qi Ht' Hi. simplify_eq. by eapply He.
    - right. simpl in Ec. breflect. simpl. lia. }
  breflect. destruct w; [done|]. destruct e; [done|].
  destruct (SelectQueueToSend_ok (tokensOf q f) t Htx) as (r & -> & Hr); [rewrite length_fmap; lia|].
  cbn [mbind option_bind]. destruct Hr as [[-> Hno]|(k & qk & -> & Hel & _)].
  - cbn [negb Z.eqb Pos.eqb]. rewrite need_all_ok by lia. cbn [mbind option_bind].
    destruct (wait_step f q t Hok Hf Hno) as (Hok' & Htr & Hw). set (q1 := set_buckets _ q) in *.
    destruct (IH rate true q1 t Hok' Hf) as (q' & w' & tr & -> & _ & _ & _ & _ & -> & -> & ->); [lia|].
    exists q1, true, []. split_and!; [done|done|done|constructor|simpl; lia|done].
  - destruct (send_step now f q t k qk Hok Hf Hel) as (b & t' & item & q1 & Hbk & Hd & Hs & Hok1 & Htr1 & Hf1).
    destruct (Z.of_nat k =? -1) eqn:Ek; breflect; [lia|]. cbn [negb].
    rewrite Nat2Z.id, Hbk. cbn [mbind option_bind]. rewrite Hd. cbn [mbind option_bind].
    cbn [m_tx_queue set_buckets] in *. rewrite Hs. cbn [mbind option_bind].
    destruct (IH (rate + 1) false q1 t' Hok1 Hf1) as (q' & w' & tr & Hl & Hok' & Htr & Hall & Hlt & Hpost); [lia|].
    exists q', w', ((f, k, item) :: tr). split_and!; [done|done| |by constructor|simpl; lia|].
    + by apply (transmits_app _ q1 _ [(f, k, item)]).
    + destruct w'; [done|]. destruct Hpost as [?|?]; [by left|right; simpl; lia].
Qed.

(** The packets waiting in the device of a face, and how many more it takes. *)
Definition occupancy (f : Z) : Z := match faceById f with Some out => default 25 (devQueue out) | None => 25 end.
Definition room (f : Z) : Z := Z.max 0 (25 - occupancy f).

(** A face has nothing left to send or its device took all it takes. *)
Definition drained (f : Z) (tr : Trace) q : Prop := emptied f q \/ room f <= sent_to f tr.

Lemma drained_mono f tr tr' q1 q2 :
  qos_ok q1 -> qos_ok q2 -> transmits q1 tr' q2 -> drained f tr q1 -> drained f (tr ++ tr') q2.
Proof.
  intros (Hq1 & _) (Hq2 & _) (A1 & A2 & _) [He|Hr]; [left|right; rewrite sent_to_app; unfold sent_to in *; lia].
  intros t2 i qi2 Ht2 Hi2. destruct (m_tx_queue q1 !! f) as [t1|] eqn:E1; [|rewrite A2 in Ht2; done].
  destruct (A1 f t1 E1) as (t2' & Ht2' & Hq). simplify_eq.
  destruct (Hq1 f t1 E1) as (_ & _ & Hl1 & _), (Hq2 f t2 Ht2) as (_ & _ & Hl2 & _).
  destruct (lookup_lt_is_Some_2 (m_priorityQueues t1) i) as [qi Hi].
  { apply lookup_lt_Some in Hi2. lia. }
  destruct (Hq i qi Hi) as (qi' & Hi' & Hqq). simplify_eq. rewrite (He t1 i qi E1 Hi) in Hqq.
  symmetry in Hqq. by apply app_eq_nil in Hqq as [_ ->].
Qed.

Lemma sent_to_all f g (tr : Trace) :
  Forall (fun x => x.1.1 = f) tr -> sent_to g tr = if decide (g = f) then Z.of_nat (length tr) else 0.
Proof.
  intros Hall. unfold sent_to. induction Hall as [|x tr Hx _ IH]; [by case_decide|].
  rewrite filter_cons. repeat case_decide; simpl; try congruence; lia.
Qed.

Lemma sent_to_none g (tr : Trace) : (forall x, x ∈ tr -> x.1.1 <> g) -> sent_to g tr = 0.
Proof.
  intros Hall. unfold sent_to. assert (filter (fun x => x.1.1 = g) tr = []) as ->; [|done].
  induction tr as [|x tr IH]; [done|]. rewrite filter_cons, decide_False by (apply Hall; by left).
  apply IH. intros y Hy. apply Hall. by right.
Qed.

(** Where a round stops: every face is drained up to the first one that waits,
    and those after it get nothing. *)
Definition round_end (fs : list Z) (tr : Trace) (w : bool) q : Prop :=
  if w then exists l1 f l2, fs = l1 ++ f :: l2 /\ (forall g, g ∈ l1 -> drained g tr q) /\ waits f q /\
              forall x, x ∈ tr -> x.1.1 ∉ l2
  else forall g, g ∈ fs -> drained g tr q.

Hypothesis devQueue_nonneg : forall f n, devQueue f = Some n -> 0 <= n.
Hypothesis order_keys : forall m, order m ≡ₚ (map_to_list m).*1.

Lemma occupancy_nonneg f : 0 <= occupancy f.
Proof using devQueue_nonneg.
  unfold occupancy. destruct (faceById f) as [out|]; [|lia]. destruct (devQueue out) eqn:E0; simpl; [eauto|lia].
Qed.

Lemma send_face now f q w :
  qos_ok q -> is_Some (m_tx_queue q !! f) ->
  exists q' w' (tr : Trace), prioritySend_step now (Some (q, w)) f = Some (q', w') /\
    qos_ok q' /\ transmits q tr q' /\ Forall (fun x : Z * nat * Item => x.1.1 = f) tr /\
    (forall g, sent_to g tr <= room g) /\
    if w then q' = q /\ w' = true /\ tr = [] else if w' then waits f q' else drained f tr q'.
Proof using devQueue_nonneg.
  intros Hok [t Hf]. pose proof Hok as (Hqs & _). destruct (Hqs f t Hf) as [[out Hout] _].
  unfold prioritySend_step. cbn [mbind option_bind]. rewrite Hout. cbn [mbind option_bind].
  pose proof (occupancy_nonneg f) as Hocc. unfold occupancy in Hocc. rewrite Hout in Hocc.
  destruct (send_loop_ok now f 27 (default 25 (devQueue out)) w q t Hok Hf)
    as (q' & w' & tr & Hl & Hok' & Htr & Hall & Hlen & Hpost); [destruct w; lia|].
  assert (room f = Z.max 0 (25 - default 25 (devQueue out))) as Hroom by (unfold room, occupancy; by rewrite Hout).
  exists q', w', tr. split_and!; [done|done|done|done| |].
  - intros g. rewrite (sent_to_all f) by done. case_decide; [subst g; lia|]. unfold room. lia.
  - destruct w; [done|]. destruct w'; [done|]. destruct Hpost as [?|Hpost]; [by left|right].
    rewrite (sent_to_all f), decide_True by done. lia.
Qed.

Lemma prioritySend_loop now fs : forall q w,
  qos_ok q -> NoDup fs -> (forall f, f ∈ fs -> is_Some (m_tx_queue q !! f)) ->
  exists q' w' (tr : Trace), foldl (prioritySend_step now) (Some (q, w)) fs = Some (q', w') /\
    qos_ok q' /\ transmits q tr q' /\ (forall x, x ∈ tr -> x.1.1 ∈ fs) /\ (forall g, sent_to g tr <= room g) /\
    if w then q' = q /\ w' = true /\ tr = [] else round_end fs tr w' q'.
Proof using devQueue_nonneg.
  clear order_keys order FaceSetOrder0. induction fs as [|f fs IH]; intros q w Hok Hnd Hin.
  { exists q, w, []. split_and!; [done|done|apply transmits_refl|set_solver| |destruct w; [done|simpl; set_solver]].
    intros g. unfold room, sent_to. simpl. lia. }
  apply NoDup_cons in Hnd as [Hfn Hnd]. cbn [foldl].
  destruct (send_face now f q w Hok) as (q1 & w1 & tr1 & -> & Hok1 & Htr1 & Hall1 & Hroom1 & Hpost1);
    [apply Hin; by left|]. rewrite Forall_forall in Hall1.
  destruct (IH q1 w1 Hok1 Hnd) as (q2 & w2 & tr2 & -> & Hok2 & Htr2 & Hall2 & Hroom2 & Hpost2).
  { intros g Hg. destruct (Hin g) as [t Ht]; [by right|]. destruct Htr1 as (Hq & _).
    destruct (Hq g t Ht) as (t' & -> & _). eauto. }
  exists q2, w2, (tr1 ++ tr2). split_and!; [done|done|by eapply transmits_app| | |].
  - intros x [Hx|Hx]%elem_of_app; [rewrite (Hall1 x Hx); by left|right; by apply Hall2].
  - intros g. rewrite sent_to_app. destruct (decide (g = f)) as [->|Hne].
    + rewrite (sent_to_none f tr2); [rewrite Z.add_0_r; apply Hroom1|]. intros x Hx <-. by apply Hfn, Hall2.
    + rewrite (sent_to_none g tr1); [apply Hroom2|]. intros x Hx. rewrite (Hall1 x Hx). done.
  - destruct w; [destruct Hpost1 as (-> & -> & ->); by destruct Hpost2 as (-> & -> & ->)|].
    destruct w1.
    { destruct Hpost2 as (-> & -> & ->). exists [], f, fs. rewrite app_nil_r. split_and!; [done|set_solver|done|].
      intros x Hx. by rewrite (Hall1 x Hx). }
    assert (drained f (tr1 ++ tr2) q2) as Hdf by exact (drained_mono f tr1 tr2 q1 q2 Hok1 Hok2 Htr2 Hpost1).
    assert (forall g, drained g tr2 q2 -> drained g (tr1 ++ tr2) q2) as Hmono.
    { intros g [?|?]; [by left|right]. rewrite sent_to_app. unfold sent_to in *. lia. }
    destruct w2; simpl in *.
    + destruct Hpost2 as (l1 & g & l2 & -> & Hd & Hw & Hno). exists (f :: l1), g, l2. split_and!; [done| |done|].
      * intros h [->|Hh]%elem_of_cons; [done|]. by apply Hmono, Hd.
      * intros x [Hx|Hx]%elem_of_app; [|by apply Hno]. rewrite (Hall1 x Hx). set_solver.
    + intros h [->|Hh]%elem_of_cons; [done|]. by apply Hmono, Hpost2.
Qed.

Lemma prioritySend_ok now q :
  qos_ok q ->
  exists q' w (tr : Trace), prioritySend now q = Some q' /\ qos_ok q' /\ transmits q tr q' /\
    (forall f, sent_to f tr <= room f) /\ round_end (order (m_tx_queue q)) tr w q'.
Proof using devQueue_nonneg order_keys.
  intros Hok. unfold prioritySend.
  destruct (prioritySend_loop now (order (m_tx_queue q)) q false Hok) as (q' & w & tr & -> & Hok' & Htr & _ & Hroom & Hend).
  - rewrite order_keys. apply NoDup_fst_map_to_list.
  - intros f. rewrite order_keys, list_elem_of_fmap. intros ([g t] & -> & Hg%elem_of_map_to_list). eauto.
  - exists q', w, tr. done.
Qed.

(** C7: a send round never fails. Some trace of items is sent: at each face and
    level they come from the front of the queue in order, each costs one token
    of the bucket of its level and nothing else changes a token count, their
    packets are what goes out, and a face gets no more packets than bring its
    device to 25. The strategy's invariant is kept, so no bucket goes below 0.
    The round stops early only for tokens: either every face has empty queues or
    a full device, or there is a first face, in the order of the map, none of
    whose levels has both a packet and a token; that face has asked its buckets
    for a token for each level with packets, the faces before it are drained,
    and the faces after it get nothing, whatever tokens they have. *)
Theorem prioritySend_correct now q :
  qos_ok q ->
  exists q' w (tr : Trace), prioritySend now q = Some q' /\ qos_ok q' /\ transmits q tr q' /\
    (forall f, sent_to f tr <= room f) /\ round_end (order (m_tx_queue q)) tr w q'.
Proof using devQueue_nonneg order_keys. apply prioritySend_ok. Qed.

(** ** Queueing an Interest *)

Definition set_pits (m : gmap positive PitEntry) q : QosStrategy :=
  mkQos (m_tx_queue q) (buckets q) (m_faceStats q) (rejectedInterests q) m (qos_sent q).

Lemma set_pits_ok m q : qos_ok q -> pits_le (pits q) m -> qos_ok (set_pits m q).
Proof.
  intros (Hqs & Hb & Hp & Hr) Hle. split_and!; simpl; try done; try apply Hb; [by eapply queues_ok_le|by eapply pits_le_ok].
Qed.

Lemma txQueueOf_ok f q : qos_ok q -> items_ok (pits q) (txQueueOf f q).
Proof.
  intros (Hqs & _). unfold txQueueOf. destruct (m_tx_queue q !! f) as [t|] eqn:E0; [by apply (Hqs f t)|].
  pose proof successReqs_levels as Hn.
  destruct (initialize_ok (B:=B) (P:=positive) nLevels 0) as (Ht & _ & Hi); [lia|lia|].
  assert (length (m_priorityQueues (initialize (B:=B) (P:=positive) (Z.of_nat nLevels) (newTxQueue 0))) = nLevels) as Hl
    by (apply Nat2Z.inj; symmetry; exact (proj1 Ht)).
  split_and!; [done|exact Hl|]. intros i qi Hqi.
  destruct (Hi i) as (qi' & Hqi' & Hnil & _); [apply lookup_lt_Some in Hqi; lia|]. simplify_eq. by rewrite Hnil.
Qed.

Lemma enqueue_ok simNow f item (i : nat) q :
  qos_ok q -> is_Some (faceById f) -> item_ok (pits q) item -> (i < nLevels)%nat ->
  exists t ok, enqueue simNow f item (Z.of_nat i) q = Some (set_tx (<[f := t]> (m_tx_queue q)) q, ok) /\
    qos_ok (set_tx (<[f := t]> (m_tx_queue q)) q) /\
    forall j qj', m_priorityQueues t !! j = Some qj' -> exists qj, m_priorityQueues (txQueueOf f q) !! j = Some qj /\
      (m_queue qj' = m_queue qj \/ j = i /\ m_queue qj' = m_queue qj ++ [item]).
Proof.
  intros Hok Hface Hitem Hi. destruct (txQueueOf_ok f q Hok) as (Htx & Hlen & Hitems).
  destruct (DoEnqueue_total simNow item i (txQueueOf f q) Htx) as (t & ok & He & Htx' & Hlen' & Hq); [lia|].
  exists t, ok. unfold enqueue. rewrite He. split; [done|]. split; [|done].
  destruct Hok as (Hqs & Hb & Hp & Hr). split_and!; simpl; try done; try apply Hb.
  apply queues_ok_insert; [done|done|]. split_and!; [done|lia|]. intros j qj' Hj.
  destruct (Hq j qj' Hj) as (qj & Hqj & [->|[_ ->]]); [by eapply Hitems|].
  apply Forall_app. split; [by eapply Hitems|]. by repeat constructor.
Qed.

(** The hops an Interest may be queued for. *)
Notation allowed nexthops inFace interest pe out :=
  (interestAllowed faceOf nexthops inFace interest pe (SendInterest out interest)).

Definition best_ok (nexthops : list NextHop) (inFace : Z) interest (pe : PitEntry) (seen : gset Z) (b : Best) : Prop :=
  bestFaceID b = 0 \/
  exists out, bestFace b = Some out /\ bestFaceID b = faceId out /\ faceId out ∉ seen /\
    allowed nexthops inFace interest pe out.

Lemma best_step_ok now inFace interest p namePrefix seen pe nexthops nh q b :
  is_Some (pits q !! p) -> nh ∈ nexthops -> best_ok nexthops inFace interest pe seen b ->
  exists m b', best_step now inFace interest p namePrefix seen (Some (q, b)) nh = Some (set_pits m q, b') /\
    pits_le (pits q) m /\ best_ok nexthops inFace interest pe seen b'.
Proof.
  intros [pe0 Hp] Hn Hb. unfold best_step. cbn [mbind option_bind]. rewrite Hp. cbn [mbind option_bind].
  pose proof (touches_decide strategyRetx now (nh_face nh) pe0) as Ht.
  destruct (decidePerUpstream strategyRetx now (nh_face nh) pe0) as [r pe1]. simpl in Ht.
  assert (pits_le (pits q) (<[p := pe1]> (pits q))) as Hle.
  { destruct Ht as (_ & Hi & _ & _ & Ho & _). by eapply pits_le_insert. }
  exists (<[p := pe1]> (pits q)).
  assert (forall pe', isNextHopEligible faceOf inFace interest nh pe' false TimePoint_min = true ->
    faceId (nh_face nh) ∉ seen -> forall s n pr, best_ok nexthops inFace interest pe seen
      (mkBest s n (faceId (nh_face nh)) pr (Some (nh_face nh)))) as Hnew.
  { intros pe' He Hs s n pr. right. exists (nh_face nh). split_and!; [done|done|done|]. by eapply eligible_allowed. }
  destruct r; [| |eexists; split_and!; [reflexivity|done|exact Hb]];
    (destruct (_ || wouldViolateScope _ _ _ _) eqn:Ee; [by eexists|];
     destruct (bool_decide (faceId (nh_face nh) ∈ seen)) eqn:Es; [by eexists|];
     apply bool_decide_eq_false in Es; destruct (bestProb b <=? _);
     (eexists; split_and!; [reflexivity|done|]); [|exact Hb];
     apply (Hnew pe1); [|done]; rewrite eligible_eq, Ee; done).
Qed.

Lemma best_loop_ok now inFace interest p namePrefix seen pe nexthops l : forall q b,
  is_Some (pits q !! p) -> l ⊆ nexthops -> best_ok nexthops inFace interest pe seen b ->
  exists m b', foldl (best_step now inFace interest p namePrefix seen) (Some (q, b)) l = Some (set_pits m q, b') /\
    pits_le (pits q) m /\ best_ok nexthops inFace interest pe seen b'.
Proof.
  induction l as [|nh l IH]; intros q b Hp Hl Hb.
  { exists (pits q), b. split_and!; [by destruct q|reflexivity|done]. }
  cbn [foldl]. destruct (best_step_ok now inFace interest p namePrefix seen pe nexthops nh q b) as (m & b' & -> & Hle & Hb');
    [done|apply Hl; by left|done|].
  destruct (IH (set_pits m q) b') as (m' & b'' & -> & Hle' & Hb''); [|intros x Hx; apply Hl; by right|done|].
  - destruct Hp as [pe0 Hp]. destruct (pits_le_lookup _ _ _ _ Hle Hp) as (pe1 & ? & _). by exists pe1.
  - exists m', b''. split_and!; [done|by etrans|done].
Qed.

Definition interestItem (inFace : Z) interest p (out : Z) : Item :=
  mkQueueItem (encodeInterest interest) INTEREST (Some p) (Some inFace) (Some out).

(** Every queue is as before, or has the Interest once more at the end of the
    level of its class, for an allowed hop whose face the queue is of. *)
Definition queued_once (nexthops : list NextHop) (inFace : Z) interest p (pe : PitEntry) (i : nat) q q' : Prop :=
  forall g t' j qj', m_tx_queue q' !! g = Some t' -> m_priorityQueues t' !! j = Some qj' ->
  exists qj, m_priorityQueues (txQueueOf g q) !! j = Some qj /\
    (m_queue qj' = m_queue qj \/
     j = i /\ exists out, faceId out = g /\ allowed nexthops inFace interest pe out /\
       m_queue qj' = m_queue qj ++ [interestItem inFace interest p out]).

(** Nothing but the queues and the PIT entries has changed. *)
Definition only_queues q q' : Prop :=
  buckets q' = buckets q /\ m_faceStats q' = m_faceStats q /\ rejectedInterests q' = rejectedInterests q /\
  qos_sent q' = qos_sent q /\ pits_le (pits q) (pits q').

#[local] Instance only_queues_preorder : PreOrder only_queues.
Proof.
  split; [done|]. intros a b c (A1 & A2 & A3 & A4 & A5) (B1 & B2 & B3 & B4 & B5).
  split_and!; try congruence. by etrans.
Qed.

Lemma queued_once_refl nexthops inFace interest p pe i q q' :
  m_tx_queue q' = m_tx_queue q -> queued_once nexthops inFace interest p pe i q q'.
Proof. intros Hq g t' j qj' Hg Hj. rewrite Hq in Hg. unfold txQueueOf. rewrite Hg. eauto. Qed.

Definition unseen (seen : gset Z) (nexthops : list NextHop) : nat :=
  length (filter (fun nh => faceId (nh_face nh) ∉ seen) nexthops).

Lemma unseen_le seen nexthops : (unseen seen nexthops <= length nexthops)%nat.
Proof. clear. unfold unseen. induction nexthops; [done|]. rewrite filter_cons. case_decide; simpl; lia. Qed.

Lemma unseen_lt seen nexthops out :
  out ∈ nh_face <$> nexthops -> faceId out ∉ seen ->
  (unseen ({[faceId out]} ∪ seen) nexthops < unseen seen nexthops)%nat.
Proof.
  clear. intros (nh & -> & Hn)%list_elem_of_fmap Hs. unfold unseen.
  induction nexthops as [|x l IH]; [by apply not_elem_of_nil in Hn|].
  assert (length (filter (fun nh' => faceId (nh_face nh') ∉ {[faceId (nh_face nh)]} ∪ seen) l) <=
          length (filter (fun nh' => faceId (nh_face nh') ∉ seen) l))%nat as Hle.
  { clear. induction l as [|y l IH]; [done|]. rewrite !filter_cons. repeat case_decide; simpl; try lia. set_solver. }
  rewrite !filter_cons. apply elem_of_cons in Hn as [->|Hn].
  - rewrite decide_False by set_solver. rewrite decide_True by done. simpl. lia.
  - specialize (IH Hn). repeat case_decide; simpl; try lia. set_solver.
Qed.

(** The face is in the face table. *)
Definition known (f : Z) : Prop := is_Some (faceById (faceId f)).
Definition hops_known (nexthops : list NextHop) : Prop := forall nh, nh ∈ nexthops -> known (nh_face nh).

Lemma forward_loop_ok now simNow inFace interest p namePrefix nexthops (i : nat) successProb pe fuel :
  (i < nLevels)%nat -> hops_known nexthops -> forall first prob hasOptions seen suppr nEligible forwarded q,
  qos_ok q -> is_Some (pits q !! p) ->
  (unseen seen nexthops + (if first || hasOptions then 1 else 0) < fuel)%nat ->
  exists q' s' n' fw',
    forward_loop fuel now simNow inFace interest p namePrefix nexthops (Z.of_nat i) successProb
      first prob hasOptions seen suppr nEligible forwarded q = Some (q', s', n', fw') /\
    qos_ok q' /\ only_queues q q' /\ (forall g, g ∈ seen -> m_tx_queue q' !! g = m_tx_queue q !! g) /\
    queued_once nexthops inFace interest p pe i q q'.
Proof.
  clear order_keys order FaceSetOrder0 devQueue_nonneg devQueue nextHopsOf.
  intros Hi Hkn. induction fuel as [|fuel IH]; intros first prob hasOptions seen suppr n fw q Hok Hp Hfuel; [lia|].
  cbn [forward_loop]. destruct (first || ((prob <? successProb) && hasOptions)) eqn:Ec; cycle 1.
  { exists q, suppr, n, fw. split_and!; try done. by apply queued_once_refl. }
  assert (unseen seen nexthops < fuel)%nat as Hfuel'.
  { destruct first, hasOptions; simpl in *; lia || (by rewrite andb_false_r in Ec). }
  destruct (best_loop_ok now inFace interest p namePrefix seen pe nexthops nexthops q (mkBest suppr n 0 0 None))
    as (m & b & -> & Hle & Hb); [done|done|by left|]. cbn [mbind option_bind].
  pose proof (set_pits_ok m q Hok Hle) as Hok1. set (q1 := set_pits m q) in *.
  assert (is_Some (pits q1 !! p)) as [pe1 Hp1].
  { destruct Hp as [pe0 Hp]. destruct (pits_le_lookup _ _ _ _ Hle Hp) as (pe1 & ? & _). by exists pe1. }
  destruct (bestFaceID b =? 0) eqn:Eb; breflect.
  { destruct (IH false prob false seen (isSuppressed b) (nEligibleNextHops b) fw q1 Hok1)
      as (q' & s' & n' & fw' & He & Hok' & Hoq & Hs & Hq); [done|simpl; lia|].
    exists q', s', n', fw'. split_and!; try done. by transitivity q1. }
  destruct Hb as [?|(out & Ho & Hid & Hns & Hall)]; [done|]. rewrite Ho, Hid.
  assert (known out) as Hko.
  { destruct Hall as (_ & Hn & _). apply list_elem_of_fmap in Hn as (nh & -> & Hn). by apply Hkn. }
  destruct (enqueue_ok simNow (faceId out) (interestItem inFace interest p out) i q1) as (t & ok & He & Hok2 & Hq2);
    [done|exact Hko|exists p, pe1, out; split_and!; [done|done|done|by eexists]|done|].
  unfold interestItem in He. rewrite He. cbn [mbind option_bind].
  set (q2 := set_tx _ q1) in *.
  destruct (IH false (double_add prob (bestProb b)) hasOptions ({[faceId out]} ∪ seen) (isSuppressed b)
    (nEligibleNextHops b) (fw || ok) q2 Hok2) as (q' & s' & n' & fw' & Hf & Hok' & Hoq & Hs & Hq);
    [by eexists| |].
  { destruct Hall as (_ & Hn & _). pose proof (unseen_lt seen nexthops out Hn Hns). destruct hasOptions; simpl; lia. }
  exists q', s', n', fw'. split_and!; try done; [by transitivity q2| |].
  - intros g Hg. rewrite Hs by set_solver. simpl. rewrite lookup_insert_ne; [done|]. intros <-. done.
  - intros g t' j qj' Hg Hj. destruct (decide (g = faceId out)) as [->|Hne].
    + rewrite Hs in Hg by set_solver. simpl in Hg. rewrite lookup_insert_eq in Hg. injection Hg as <-.
      destruct (Hq2 j qj' Hj) as (qj & Hqj & Hc). exists qj. split; [exact Hqj|].
      destruct Hc as [?|[-> ?]]; [by left|right]. split; [done|]. by exists out.
    + destruct (Hq g t' j qj' Hg Hj) as (qj & Hqj & Hc). exists qj. split; [|done].
      unfold txQueueOf in *. simpl in Hqj. rewrite lookup_insert_ne in Hqj by done. done.
Qed.

(** C25: the loop that forwards an Interest of a class ends within one turn per
    next hop and two more, and queues the Interest at most once per face, at the
    end of the level of its class, only for next hops within its scope and not
    back to where it came from; a full level refuses it, and nothing else
    changes. *)
Theorem interest_queued_once now simNow inFace interest p namePrefix nexthops (i : nat) successProb pe q :
  (i < nLevels)%nat -> hops_known nexthops -> qos_ok q -> pits q !! p = Some pe ->
  exists q' s' n' fw',
    forward_loop (length nexthops + 2) now simNow inFace interest p namePrefix nexthops (Z.of_nat i) successProb
      true 0 true ∅ false 0 false q = Some (q', s', n', fw') /\
    qos_ok q' /\ only_queues q q' /\ queued_once nexthops inFace interest p pe i q q'.
Proof.
  intros Hi Hkn Hok Hp.
  destruct (forward_loop_ok now simNow inFace interest p namePrefix nexthops i successProb pe (length nexthops + 2) Hi Hkn
    true 0 true ∅ false 0 false q Hok) as (q' & s' & n' & fw' & He & Hok' & Hoq & _ & Hq); [by eexists| |by eauto 10].
  pose proof (unseen_le ∅ nexthops). simpl. lia.
Qed.

(** ** The strategy's triggers *)

Lemma set_stats_ok m q : qos_ok q -> rates_ok m -> qos_ok (set_stats m q).
Proof. intros (Hqs & Hb & Hp & Hr) Hm. split_and!; simpl; try done; apply Hb. Qed.

Lemma set_rejected_ok l q : qos_ok q -> qos_ok (set_rejected l q).
Proof. done. Qed.

Lemma onPit_qos P p f q pe :
  qos_ok q -> pits q !! p = Some pe ->
  (exists fx', f (mkFx pe []) = Some fx' /\ ext P (mkFx pe []) fx') ->
  exists q', onPit p f q = Some q' /\ qos_ok q' /\ is_Some (pits q' !! p).
Proof.
  intros (Hqs & Hb & Hp & Hr) Hpe Hf.
  destruct (onPit_ok P p f q pe Hpe (Hp _ _ Hpe) Hf) as (pe' & l & -> & _ & Hle & _).
  eexists. split; [done|]. split; [|simpl; rewrite lookup_insert_eq; by eexists].
  split_and!; simpl; try done; try apply Hb; [by eapply queues_ok_le|by eapply pits_le_ok].
Qed.

Lemma prioritySend_qos now q p :
  qos_ok q -> is_Some (pits q !! p) ->
  exists q', prioritySend now q = Some q' /\ qos_ok q' /\ is_Some (pits q' !! p).
Proof using devQueue_nonneg order_keys.
  intros Hok [pe Hp]. destruct (prioritySend_ok now q Hok) as (q' & w & tr & -> & Hok' & Htr & _).
  destruct Htr as (_ & _ & _ & Hle & _). destruct (pits_le_lookup _ _ _ _ Hle Hp) as (pe' & Hp' & _). eauto.
Qed.

Lemma finishInterest_qos now interest p forwarded q :
  qos_ok q -> is_Some (pits q !! p) ->
  exists q', finishInterest now interest p forwarded q = Some q' /\ qos_ok q'.
Proof using devQueue_nonneg order_keys.
  intros Hok [pe Hp]. unfold finishInterest. destruct forwarded; simpl.
  - destruct (prioritySend_qos now q p Hok) as (q' & -> & Hok' & _); eauto.
  - destruct (onPit_qos (fun _ => True) p (rejectPendingInterest now) q pe Hok Hp) as (q' & -> & Hok' & _).
    { apply ext_timer. by apply Hok in Hp. }
    eexists. split; [done|]. by apply set_rejected_ok.
Qed.

Lemma nackNoRoute_qos now inFace p q :
  qos_ok q -> is_Some (pits q !! p) ->
  exists q', onPit p (nackNoRoute now inFace) q = Some q' /\ qos_ok q' /\ is_Some (pits q' !! p).
Proof.
  intros Hok [pe Hp]. assert (pe_ok pe) as Hpe by (by apply Hok in Hp).
  apply (onPit_qos (interestAllowed faceOf [] inFace (m_interest pe) pe) p _ q pe Hok Hp).
  by apply (ext_noRoute faceOf now inFace (mkFx pe []) [] (m_interest pe)).
Qed.

Lemma countPacket_ok s : stats_ok s -> stats_ok (countPacket s).
Proof. done. Qed.

Lemma classifiedInterest_ok now simNow inFace interest p (i : nat) successProb q pe :
  (i < nLevels)%nat -> qos_ok q -> pits q !! p = Some pe -> m_inRecords pe <> [] -> hops_known (nextHopsOf pe) ->
  exists q', classifiedInterest now simNow inFace interest p (Z.of_nat i) successProb q = Some q' /\ qos_ok q'.
Proof using devQueue_nonneg order_keys.
  intros Hi Hok Hp Hin Hkn. unfold classifiedInterest. set (pre := dropLast 1 (i_name interest)).
  assert (exists m s, match m_faceStats q !! pre with None => initialize_stats pre p q | Some _ => Some q end
    = Some (set_stats m q) /\ m !! pre = Some s /\ rates_ok m) as (m & s & -> & Hs & Hm).
  { pose proof Hok as (_ & _ & _ & Hr). destruct (m_faceStats q !! pre) as [s|] eqn:Es.
    - exists (m_faceStats q), s. by destruct q.
    - destruct (initialize_stats_ok pre p q pe Hr Hp Hin) as (s & -> & Hs).
      exists (<[pre := s]> (m_faceStats q)), s. rewrite lookup_insert_eq. split_and!; [done..|by apply rates_insert]. }
  cbn [mbind option_bind m_faceStats set_stats]. rewrite Hs. cbn [mbind option_bind].
  set (q1 := set_stats _ _). assert (qos_ok q1) as Hok1.
  { apply set_stats_ok; [by apply set_stats_ok|]. apply rates_insert; [done|]. apply countPacket_ok. by eapply Hm. }
  assert (pits q1 !! p = Some pe) as Hp1 by done. rewrite Hp1. cbn [mbind option_bind].
  destruct (forward_loop_ok now simNow inFace interest p pre (nextHopsOf pe) i successProb pe
    (length (nextHopsOf pe) + 2) Hi Hkn true 0 true ∅ false 0 false q1 Hok1)
    as (q2 & suppr & n & fw & -> & Hok2 & Hoq & _); [by eexists| |].
  { pose proof (unseen_le ∅ (nextHopsOf pe)). simpl. lia. }
  destruct Hoq as (_ & _ & _ & _ & Hle). destruct (pits_le_lookup _ _ _ _ Hle Hp1) as (pe2 & Hp2 & _).
  cbn [mbind option_bind]. destruct (prioritySend_qos now q2 p Hok2) as (q3 & -> & Hok3 & Hp3); [by eexists|].
  cbn [mbind option_bind].
  assert (exists q4, (if (n =? 0) && negb suppr then onPit p (nackNoRoute now inFace) q3 else Some q3) = Some q4 /\
    qos_ok q4 /\ is_Some (pits q4 !! p)) as (q4 & -> & Hok4 & [pe4 Hp4]).
  { destruct (_ && _); [by apply nackNoRoute_qos|]. by exists q3. }
  cbn [mbind option_bind]. rewrite Hp4. cbn [mbind option_bind].
  destruct (decidePerPitEntry_total strategyRetx now pe4) as (r & pe5 & Hd). rewrite Hd. cbn [mbind option_bind].
  destruct (decidePerPitEntry_frame _ _ _ _ _ Hd) as [h ->].
  assert (qos_ok (set_pits (<[p := set_info h pe4]> (pits q4)) q4)) as Hok5.
  { apply set_pits_ok; [done|]. by eapply pits_le_insert. }
  destruct r; [| |by eexists]; (eapply finishInterest_qos; [exact Hok5|]; simpl; rewrite lookup_insert_eq; by eexists).
Qed.

Lemma dataItems_ok simNow inFace data p (i : nat) fs : forall q pe,
  (forall f, f ∈ fs -> known f) -> (i < nLevels)%nat -> qos_ok q -> pits q !! p = Some pe ->
  matchesData (i_name (m_interest pe)) (i_selectors (m_interest pe)) data = true ->
  exists q', foldl (enqueueData simNow inFace data p (Z.of_nat i)) (Some q) fs = Some q' /\
    qos_ok q' /\ pits q' = pits q.
Proof.
  induction fs as [|f fs IH]; intros q pe Hkn Hi Hok Hp Hm; [by exists q|]. cbn [foldl]. unfold enqueueData at 2.
  cbn [mbind option_bind]. set (item := mkQueueItem _ _ _ _ _).
  destruct (enqueue_ok simNow (faceId f) item i q) as (t & ok & -> & Hok' & _);
    [done|apply Hkn; by left|exists p, pe, f; split_and!; [done|done|done|by eexists]|done|].
  cbn [mbind option_bind]. by destruct (IH (set_tx (<[faceId f := t]> (m_tx_queue q)) q) pe (fun g Hg => Hkn g ltac:(by right)) Hi Hok' Hp Hm) as (q' & ? & ? & ?);
    exists q'.
Qed.

Lemma interestOfClass_ok now simNow inFace interest p (i : nat) q pe :
  (i < nLevels)%nat -> qos_ok q -> pits q !! p = Some pe -> m_inRecords pe <> [] -> hops_known (nextHopsOf pe) ->
  exists q', interestOfClass now simNow inFace interest p (Z.of_nat i) q = Some q' /\ qos_ok q'.
Proof using devQueue_nonneg order_keys.
  intros Hi Hok Hp Hin Hkn. unfold interestOfClass. rewrite Nat2Z.id.
  destruct (lookup_lt_is_Some_2 m_successReqs i) as [r ->]; [exact Hi|]. by eapply classifiedInterest_ok.
Qed.

Lemma qos_beforeSatisfy_ok inFace p data q pe :
  qos_ok q -> pits q !! p = Some pe ->
  exists q', beforeSatisfyInterest inFace p data q = Some q' /\ qos_ok q' /\ pits q' = pits q.
Proof.
  intros Hok Hp. destruct (beforeSatisfy_rates inFace p data q pe) as (m & -> & Hr); [apply Hok|done|].
  eexists. split; [done|]. split; [by apply set_stats_ok|done].
Qed.

Lemma beforeExpire_ok pe q :
  qos_ok q -> qos_ok (beforeExpirePendingInterest pe q) /\ pits (beforeExpirePendingInterest pe q) = pits q.
Proof.
  intros Hok. pose proof Hok as (Hqs & Hb & Hp & Hr).
  apply (beforeExpire_rates pe q) in Hr. revert Hr. unfold beforeExpirePendingInterest, wasRejected.
  destruct (find_if _ _); [by intros _; split; [apply set_rejected_ok|]|].
  destruct (m_faceStats q !! _); [|done]. intros Hr. by split; [apply set_stats_ok|].
Qed.

Lemma dataOfClass_ok now simNow inFace data p (i : nat) q pe :
  (i < nLevels)%nat -> qos_ok q -> pits q !! p = Some pe ->
  matchesData (i_name (m_interest pe)) (i_selectors (m_interest pe)) data = true -> (forall r, r ∈ m_inRecords pe -> known (in_face r)) ->
  exists q', dataOfClass now simNow inFace data p (Z.of_nat i) q = Some q' /\ qos_ok q'.
Proof using devQueue_nonneg order_keys FaceSetOrder0.
  intros Hi Hok Hp Hm Hkn. unfold dataOfClass. rewrite Hp. cbn [mbind option_bind].
  destruct (dataItems_ok simNow inFace data p i (pendingDownstreams faceOf enum now inFace pe) q pe)
    as (q2 & -> & Hok2 & Hp2); [|done..|].
  { intros f. unfold pendingDownstreams. rewrite enum_perm, elem_of_remove_dups. intros (r & -> & Hr)%list_elem_of_fmap.
    apply elem_of_remove_if in Hr as [Hr _]. by apply Hkn. }
  cbn [mbind option_bind]. destruct (prioritySend_qos now q2 p Hok2) as (q3 & -> & Hok3 & _); [|by eauto].
  rewrite Hp2. by eexists.
Qed.

(** *** Runs of the strategy *)

(** What happens to the strategy: the triggers, a refill of a bucket by the token
    driver (whose signal runs a send round), and a PIT entry that is created or that
    the forwarder changes. *)
Inductive QosEvent :=
  | AfterReceiveInterest (now simNow inFace : Z) (interest : Interest) (p : positive)
  | AfterReceiveData (now simNow inFace : Z) (data : Data) (p : positive)
  | BeforeSatisfy (inFace : Z) (data : Data) (p : positive)
  | AfterReceiveNack (inFace : Z) (p : positive)
  | BeforeExpire (p : positive)
  | AddToken (now : Z) (i : nat)
  | NewPitEntry (p : positive) (pe : PitEntry)
  | PitChanged (p : positive) (pe : PitEntry).

(** The driver's refill of bucket [i], with the signal [setUp] connects. *)
Definition refillBucket (now : Z) (i : nat) q : option QosStrategy :=
  b ← buckets q !! i;
  let '(b, callsend) := addToken b in
  let q := set_buckets (<[i := b]> (buckets q)) q in
  if callsend then prioritySend now q else Some q.

Definition qos_handle (e : QosEvent) q : option QosStrategy :=
  match e with
  | AfterReceiveInterest now simNow inFace interest p => qos_afterReceiveInterest now simNow inFace interest p q
  | AfterReceiveData now simNow inFace data p => qos_afterReceiveData now simNow inFace data p q
  | BeforeSatisfy inFace data p => beforeSatisfyInterest inFace p data q
  | AfterReceiveNack inFace p => Some (qos_afterReceiveNack inFace p q)
  | BeforeExpire p => pe ← pits q !! p; Some (beforeExpirePendingInterest pe q)
  | AddToken now i => refillBucket now i q
  | NewPitEntry p pe | PitChanged p pe => Some (set_pit p pe q)
  end.

(** What an event requires: the names of packets are of a class, the Interest and
    the Data belong to the PIT entry, and the faces of the next hops and of the
    in-records that are used are in the face table. *)
Definition admissible q (e : QosEvent) : Prop :=
  match e with
  | AfterReceiveInterest _ _ _ interest p => getPrType (i_name interest) < Z.of_nat nLevels /\
      exists pe, pits q !! p = Some pe /\ m_inRecords pe <> [] /\ hops_known (nextHopsOf pe)
  | AfterReceiveData _ _ _ data p => getPrType (data_name data) < Z.of_nat nLevels /\
      exists pe, pits q !! p = Some pe /\
        matchesData (i_name (m_interest pe)) (i_selectors (m_interest pe)) data = true /\ forall r, r ∈ m_inRecords pe -> known (in_face r)
  | AfterReceiveNack _ _ => True
  | BeforeSatisfy _ _ p | BeforeExpire p => is_Some (pits q !! p)
  | AddToken _ i => (i < nLevels)%nat
  | NewPitEntry p pe => pits q !! p = None /\ pe_ok pe
  | PitChanged p pe => pe_ok pe /\ exists pe0, pits q !! p = Some pe0 /\ m_interest pe = m_interest pe0
  end.

Lemma getPrType_class name :
  getPrType name < Z.of_nat nLevels -> exists i : nat, getPrType name = Z.of_nat i /\ (i < nLevels)%nat.
Proof.
  pose proof successReqs_levels.
  unfold getPrType. repeat case_decide; intros ?; [exists 0%nat|exists 1%nat|exists 2%nat|]; split_and?; lia.
Qed.

Lemma addPitEntry_ok p pe q : qos_ok q -> pits q !! p = None -> pe_ok pe -> qos_ok (set_pit p pe q).
Proof.
  intros (Hqs & Hb & Hp & Hr) Hnew Hpe. split; [|split; [exact Hb|split; [|exact Hr]]].
  - intros f t Hf. destruct (Hqs f t Hf) as (Hface & Ht & Hl & Hi). split; [done|]. split; [done|]. split; [done|].
    intros j qj Hj. eapply Forall_impl; [by eapply Hi|]. intros x (p' & pe' & out & A1 & A2 & A3 & A4).
    exists p', pe', out. split; [done|]. split; [|done]. simpl. rewrite lookup_insert_ne; [done|]. congruence.
  - intros p' pe'. simpl. intros [[_ <-]|[_ ?]]%lookup_insert_Some; [done|by eapply Hp].
Qed.

Lemma refillBucket_ok now (i : nat) q :
  (i < nLevels)%nat -> qos_ok q -> exists q', refillBucket now i q = Some q' /\ qos_ok q'.
Proof using devQueue_nonneg order_keys.
  intros Ha Hok. pose proof Hok as (Hqs & [Hbl Hb] & Hp & Hr).
  destruct (lookup_lt_is_Some_2 (buckets q) i) as [b Eb]; [lia|].
  unfold refillBucket. rewrite Eb. cbn [mbind option_bind]. destruct (addToken b) as [b' cs] eqn:Ea.
  assert (bucket_ok b') as Hb'.
  { replace b' with (addToken b).1 by (by rewrite Ea). rewrite Forall_lookup in Hb.
    apply (step_ok b Refill); [by eapply Hb|constructor]. }
  assert (qos_ok (set_buckets (<[i := b']> (buckets q)) q)) as Hok'.
  { split_and!; simpl; try done; [by rewrite length_insert|by apply Forall_insert]. }
  destruct cs; [|by eexists]. destruct (prioritySend_ok now _ Hok') as (q' & w & tr & -> & ? & _). by eexists.
Qed.

Lemma qos_handle_ok q e :
  qos_ok q -> admissible q e -> exists q', qos_handle e q = Some q' /\ qos_ok q'.
Proof using devQueue_nonneg order_keys FaceSetOrder0.
  intros Hok Ha. destruct e as [now simNow inFace interest p|now simNow inFace data p|inFace data p|inFace p|p|now i|p pe|p pe]; simpl in *.
  - destruct Ha as (Hpr & pe & Hp & Hin & Hkn). apply getPrType_class in Hpr as (i & Hpr & Hi).
    unfold qos_afterReceiveInterest. rewrite Hpr. by eapply interestOfClass_ok.
  - destruct Ha as (Hpr & pe & Hp & Hm & Hkn). apply getPrType_class in Hpr as (i & Hpr & Hi).
    unfold qos_afterReceiveData. destruct (qos_beforeSatisfy_ok inFace p data q pe Hok Hp) as (q1 & -> & Hok1 & Hp1).
    cbn [mbind option_bind]. rewrite Hpr. eapply dataOfClass_ok; [done..| |done|done]. by rewrite Hp1.
  - destruct Ha as [pe Hp]. destruct (qos_beforeSatisfy_ok inFace p data q pe Hok Hp) as (q1 & -> & ? & _). by eexists.
  - by eexists.
  - destruct Ha as [pe ->]. eexists. split; [done|]. by apply beforeExpire_ok.
  - by apply refillBucket_ok.
  - destruct Ha as [Hnew Hpe]. eexists. split; [done|]. by apply addPitEntry_ok.
  - destruct Ha as (Hpe & pe0 & Hp & Hi). eexists. split; [done|]. apply set_pits_ok; [done|]. by eapply pits_le_insert.
Qed.

(** C40: an Interest whose name is of no class, and which has a next hop it can
    be sent to, is queued at level 715 of a vector of fewer levels: an undefined
    access. *)
Theorem unclassified_interest_undefined now simNow inFace interest p pe nh q :
  qos_ok q -> getPrType (i_name interest) = 715 -> pits q !! p = Some pe -> m_outRecords pe = [] ->
  nh ∈ nextHopsOf pe -> qos_isNextHopEligible inFace interest nh pe false TimePoint_min = true ->
  qos_afterReceiveInterest now simNow inFace interest p q = None.
Proof.
  intros Hok Hpr Hp Hout Hn He. unfold qos_afterReceiveInterest, interestOfClass. pose proof successReqs_levels. rewrite Hpr, lookup_ge_None_2 by lia.
  unfold unclassifiedInterest. rewrite Hp. cbn [mbind option_bind].
  unfold decidePerPitEntry, hasPendingOutRecords. rewrite Hout. cbn [existsb negb mbind option_bind].
  destruct (find_if _ (nextHopsOf pe)) as [nh'|] eqn:Ef; cycle 1.
  { exfalso. apply (proj1 (find_if_None _ _)) with (x := nh) in Ef; [congruence|done]. }
  unfold enqueue. rewrite DoEnqueue_out_of_range; [done|].
  assert (qos_ok (set_pits (<[p := pe]> (pits q)) q)) as Hok1 by (apply set_pits_ok; [done|by eapply pits_le_insert]).
  destruct (txQueueOf_ok (faceId (nh_face nh')) _ Hok1) as (_ & Hl & _).
  change (set_pit p pe q) with (set_pits (<[p := pe]> (pits q)) q). rewrite Hl. lia.
Qed.
End Qos.

(** ** Runs with a changing environment *)

(** What the strategy finds at an event: the face table, the device queues of the
    simulator, the FIB, and the order of its unordered map of transmit queues. *)
Record QosEnv {C B : Type} `{Packets C} := mkQosEnv {
  env_faceById : Z -> option Z;
  env_devQueue : Z -> option Z;
  env_nextHopsOf : PitEntry C -> list NextHop;
  env_order : gmap Z (NdnPriorityTxQueue B positive) -> list Z
}.

Section QosRuns.
Context {C B : Type} `{PacketWire C B} `{!ScopePrefixes C} `{!NackReasons} `{!PriorityTypes C} `{!SuccessReqs}.
Notation QosStrategy := (QosStrategy (C:=C) (B:=B)).
Notation QosEvent := (QosEvent (C:=C)).
Notation QosEnv := (QosEnv (C:=C) (B:=B)).
Context (faceOf : Z -> FaceInfo) (enum : list Z -> list Z) `{!FaceSetOrder enum}.
Implicit Types (q : QosStrategy) (env : QosEnv).

Definition handleIn env (e : QosEvent) q : option QosStrategy :=
  qos_handle faceOf enum (env_faceById env) (env_devQueue env) (env_nextHopsOf env) (env_order env) e q.

Definition qosEnv_ok env : Prop :=
  (forall f n, env_devQueue env f = Some n -> 0 <= n) /\ (forall m, env_order env m ≡ₚ (map_to_list m).*1).

(** No face that has a transmit queue has left the face table. *)
Definition queues_known env q : Prop := forall f t, m_tx_queue q !! f = Some t -> is_Some (env_faceById env f).

Definition possibleIn env (e : QosEvent) q : Prop :=
  qosEnv_ok env /\ queues_known env q /\ admissible faceOf (env_faceById env) (env_nextHopsOf env) q e.

Inductive qos_run : QosStrategy -> list (QosEnv * QosEvent) -> QosStrategy -> Prop :=
  | qos_run_nil q : qos_run q [] q
  | qos_run_cons q env e q' es q'' :
      possibleIn env e q -> handleIn env e q = Some q' -> qos_run q' es q'' -> qos_run q ((env, e) :: es) q''.

Lemma qos_ok_known (faceById : Z -> option Z) env q : qos_ok faceById q -> queues_known env q -> qos_ok (env_faceById env) q.
Proof.
  intros (Hqs & Hb & Hp & Hr) Hk. split; [|done]. intros f t Hf. destruct (Hqs f t Hf) as [_ Ht]. split; [by eapply Hk|done].
Qed.

Lemma handleIn_ok (faceById : Z -> option Z) env e q : qos_ok faceById q -> possibleIn env e q ->
  qos_ok (env_faceById env) q /\ exists q', handleIn env e q = Some q' /\ qos_ok (env_faceById env) q'.
Proof.
  intros Hok ((Hd & Ho) & Hk & Ha). pose proof (qos_ok_known _ _ _ Hok Hk) as Hok'. split; [done|]. by apply qos_handle_ok.
Qed.

(** C1: along every run of the strategy in which the names of packets are of one
    of its classes and no face with a transmit queue leaves the face table, the
    strategy's invariant holds, and the next such event is handled without an
    undefined access, a failed assertion or a decoding error. The run is any
    sequence of triggers, refills, and PIT entries that the forwarder creates or
    changes, while the face table, the device queues and the FIB may change from
    one event to the next. The invariant bounds the queues and the token counts,
    says that queued items are sound, and that the absolute loss rates are between
    0 and 1 while the relative ones are never anything but 0. *)
Theorem qos_run_safe faceById q0 es q env e :
  qos_ok faceById q0 -> qos_run q0 es q -> possibleIn env e q ->
  qos_ok (env_faceById env) q /\ exists q', handleIn env e q = Some q' /\ qos_ok (env_faceById env) q'.
Proof.
  intros Hok Hrun. revert faceById Hok. induction Hrun as [q|q1 env1 e1 q' es q'' Hp Hh _ IH]; intros faceById Hok Ha; [by eapply handleIn_ok|].
  destruct (handleIn_ok faceById env1 e1 q1 Hok Hp) as (_ & q2 & Hq2 & Hok2). rewrite Hh in Hq2. injection Hq2 as <-. by eapply IH.
Qed.
End QosRuns.

(** [setSuccessReqs({1.0, 1.0, 0.4})], in the constructor. *)
Lemma three_levels : (0 < length [double_of_int 1; double_of_int 1; double_of_dec 4 10] <= 715)%nat.
Proof. simpl. lia. Qed.

Definition qosReqs : SuccessReqs := Build_SuccessReqs _ three_levels.
#[local] Existing Instance qosReqs.

(** ** A concrete node *)

Module QosStrategyExamples.
Import StrategyExamples.

#[export] Instance exampleTypes : PriorityTypes Z := {| TYPE_I := 51; TYPE_II := 52; TYPE_III := 53 |}.

(** Blocks that carry what they encode. *)
Inductive Wire := WireNone | WireInterest (i : Interest Z) | WireData (d : Data).

Definition decodeI (w : Wire) : option (Interest Z) :=
  match w with
  | WireInterest i => Some (mkInterest _ _ _ (i_name i) (i_selectors i) (i_nonce i) (i_lifetime i) (i_forwardingHint i) None)
  | _ => None
  end.
Definition decodeD (w : Wire) : option Data := match w with WireData d => Some d | _ => None end.

#[export] Instance exampleWire : PacketWire Z Wire := {|
  wire_block := {| block0 := WireNone; block_size _ := 40 |};
  encodeInterest := WireInterest; decodeInterest := decodeI; encodeData := WireData; decodeData := decodeD;
  decode_encode_Interest _ := eq_refl; decode_encode_Data _ := eq_refl
|}.

Definition allFaces (f : Z) : option Z := Some f.
Definition idleDevices (f : Z) : option Z := Some 0.
Definition twoHops (pe : PitEntry Z) : list NextHop := [mkNextHop 5 0 3; mkNextHop 9 0 5].
Definition keyOrder (m : gmap Z (NdnPriorityTxQueue Wire positive)) : list Z := (map_to_list m).*1.

Definition typeI : Interest Z := mkInterest _ _ _ [1; 51; 7; 8] (true, false, 0) 7 4000 [] None.
Definition untyped : Interest Z := mkInterest _ _ _ [1; 2; 7; 8] (true, false, 0) 7 4000 [] None.
Definition entryOf (i : Interest Z) : PitEntry Z := insertOrUpdateInRecord 0 4 i (newPitEntry i).

Definition bucket20 : TokenBucket := mkTokenBucket false false ∅ ∅ 20.
Definition node (i : Interest Z) : QosStrategy (C:=Z) (B:=Wire) :=
  mkQos ∅ [bucket20; bucket20; bucket20] ∅ [] {[ 1%positive := entryOf i ]} [].

Lemma entryOf_ok i : pe_ok (entryOf i).
Proof.
  split; [split|]; [apply NoDup_singleton|apply NoDup_nil_2|].
  apply Forall_cons. split; [by eexists|by apply Forall_nil].
Qed.

Lemma node_ok i : qos_ok allFaces (node i).
Proof.
  split; [|split; [split|split]].
  - intros f t Hf. simpl in Hf. by rewrite lookup_empty in Hf.
  - done.
  - repeat constructor; simpl; try lia; intros f v Hv; by rewrite lookup_empty in Hv.
  - intros p pe. simpl. intros [<- <-]%lookup_singleton_Some. apply entryOf_ok.
  - intros n s Hs. simpl in Hs. by rewrite lookup_empty in Hs.
Qed.

Lemma keyOrder_keys m : keyOrder m ≡ₚ (map_to_list m).*1.
Proof. done. Qed.

Lemma idle_nonneg f n : idleDevices f = Some n -> 0 <= n.
Proof. intros [= <-]. lia. Qed.

Lemma allFaces_known f : is_Some (allFaces (faceId faces f)).
Proof. by eexists. Qed.

(** The node with an Interest waiting for face 5. *)
Definition waiting : QosStrategy (C:=Z) (B:=Wire) :=
  match enqueue 0 5 (interestItem 4 typeI 1 5) 0 (node typeI) with Some (q, _) => q | None => node typeI end.

Lemma waiting_ok : qos_ok allFaces waiting.
Proof.
  unfold waiting.
  destruct (enqueue_ok allFaces 0 5 (interestItem 4 typeI 1 5) 0 (node typeI)) as (t & ok & He & Hok & _).
  - apply node_ok.
  - by eexists.
  - exists 1%positive, (entryOf typeI), 5. split; [done|]. split; [done|]. split; [done|]. by eexists.
  - simpl. lia.
  - change (Z.of_nat 0) with 0 in He. rewrite He. exact Hok.
Qed.

Example waiting_is_sent :
  qos_sent <$> prioritySend faces remove_dups allFaces idleDevices keyOrder 0 waiting = Some [SendInterest 5 typeI].
Proof. vm_compute. reflexivity. Qed.

Lemma prioritySend_correct_witness :
  exists q', prioritySend faces remove_dups allFaces idleDevices keyOrder 0 waiting = Some q' /\ qos_ok allFaces q'.
Proof.
  destruct (prioritySend_correct faces remove_dups allFaces idleDevices keyOrder idle_nonneg keyOrder_keys 0 waiting waiting_ok)
    as (q' & w & tr & He & Hok & _).
  exists q'. split; [exact He|exact Hok].
Defined.

Lemma interest_queued_once_witness :
  exists q' s n fw, forward_loop faces 4 0 0 4 typeI 1 [1; 51; 7] (twoHops (entryOf typeI)) 0 (double_of_int 1)
    true 0 true ∅ false 0 false (node typeI) = Some (q', s, n, fw) /\
    queued_once faces (twoHops (entryOf typeI)) 4 typeI 1 (entryOf typeI) 0 (node typeI) q'.
Proof.
  destruct (interest_queued_once faces allFaces 0 0 4 typeI 1 [1; 51; 7] (twoHops (entryOf typeI)) 0
    (double_of_int 1) (entryOf typeI) (node typeI)) as (q' & s & n & fw & He & _ & _ & Hq).
  - simpl. lia.
  - intros nh _. apply allFaces_known.
  - apply node_ok.
  - reflexivity.
  - exists q', s, n, fw. split; [exact He|exact Hq].
Defined.

(** A refill with all faces, and then an Interest when face 9 has gone. *)
Definition env0 : QosEnv (C:=Z) (B:=Wire) := mkQosEnv _ _ _ _ allFaces idleDevices twoHops keyOrder.
Definition env1 : QosEnv (C:=Z) (B:=Wire) :=
  mkQosEnv _ _ _ _ (fun f => if f =? 9 then None else Some f) idleDevices (fun _ => [mkNextHop 5 0 3]) keyOrder.
Definition refilled : QosStrategy (C:=Z) (B:=Wire) := default waiting (handleIn faces remove_dups env0 (AddToken 0 0) waiting).

Lemma refilled_queues : map_to_list (m_tx_queue refilled) = [(5, txQueueOf 5 refilled)].
Proof. vm_compute. reflexivity. Qed.

Lemma qos_run_safe_witness :
  exists q', handleIn faces remove_dups env1 (AfterReceiveInterest 0 0 4 typeI 1) refilled = Some q' /\ qos_ok (env_faceById env1) q'.
Proof.
  apply (qos_run_safe faces remove_dups allFaces waiting [(env0, AddToken 0 0)] refilled env1 (AfterReceiveInterest 0 0 4 typeI 1)).
  - apply waiting_ok.
  - apply (qos_run_cons faces remove_dups waiting env0 (AddToken 0 0) refilled []); [|vm_compute; reflexivity|apply qos_run_nil].
    split; [split; [exact idle_nonneg|exact keyOrder_keys]|]. split; [intros f t _; by eexists|simpl; lia].
  - split; [split; [exact idle_nonneg|exact keyOrder_keys]|]. split.
    + intros f t Hf%elem_of_map_to_list. rewrite refilled_queues in Hf. apply list_elem_of_singleton in Hf. injection Hf as -> _. by eexists.
    + split; [vm_compute; reflexivity|]. eexists. split; [vm_compute; reflexivity|]. split; [discriminate|].
      intros nh Hnh%list_elem_of_singleton. subst nh. by eexists.
Defined.

Lemma unclassified_interest_undefined_witness :
  qos_afterReceiveInterest faces remove_dups allFaces idleDevices twoHops keyOrder 0 0 4 untyped 1 (node untyped) = None.
Proof.
  apply (unclassified_interest_undefined faces remove_dups allFaces idleDevices twoHops keyOrder 0 0 4 untyped 1
    (entryOf untyped) (mkNextHop 5 0 3)).
  - apply node_ok.
  - reflexivity.
  - reflexivity.
  - reflexivity.
  - apply elem_of_cons. left. reflexivity.
  - reflexivity.
Defined.
End QosStrategyExamples.
