(* ===== verification/QosMitigation.v ===== *)
(** * The QoS strategy with mitigation

    Models [daemon/fw/qos-mitigation-strategy.hpp/.cpp]: a QoS strategy that
    watches the loss rate of its Interests, and when too many of them are lost
    puts the most frequent flow of the last hundred outcomes (the names without
    their last component) under observation. Packets of an observed flow whose
    loss rate is above 0.8 go to a fourth, lowest level.

    The class derives from [QosStrategy] and overrides [getPrType] and
    [beforeSatisfyInterest]; the handler of the expiry signal is not virtual and
    both constructors connect to the signal, so that both handlers run. The
    [unordered_map]s are finite maps: only their entries matter here. *)

From S2P Require Import Prelude Fp Ndn TokenBucket QosQueue Fib Pit FwAlgorithm Strategy QosStrategy.
Import TB.
Local Open Scope Z_scope.

Lemma four_levels : (0 < length [double_of_int 1; double_of_int 1; double_of_dec 4 10; double_of_int 0] <= 715)%nat.
Proof. simpl. lia. Qed.

(** [setSuccessReqs({1.0, 1.0, 0.4, 0})]. *)
Definition mitigationReqs : SuccessReqs := Build_SuccessReqs _ four_levels.
#[local] Existing Instance mitigationReqs.

Section Mitigation.
Context {C B : Type} `{PacketWire C B} `{!ScopePrefixes C} `{!NackReasons} `{!PriorityTypes C}.
Notation Name := (list C).
Notation Interest := (Interest C).
Notation PitEntry := (PitEntry C).
Notation TxQueue := (NdnPriorityTxQueue B positive).
Context (faceOf : Z -> FaceInfo) (enum : list Z -> list Z) `{!FaceSetOrder enum}.
Context (faceById : Z -> option Z) (devQueue : Z -> option Z) (nextHopsOf : PitEntry -> list NextHop).
Context (order : gmap Z TxQueue -> list Z).

Record QosMitigation := mkMitigation {
  qosBase : QosStrategy (C:=C) (B:=B);
  lastHundred : list Name;
  monitored : gmap Name Z;
  totalLossRate : Z
}.
Implicit Types (m : QosMitigation) (name namePrefix : Name) (p : positive) (data : Data) (pe : PitEntry).

Definition set_base (q : QosStrategy) m : QosMitigation :=
  mkMitigation q (lastHundred m) (monitored m) (totalLossRate m).

(** A new strategy has no outcomes and watches no flow. *)
Definition newMitigation (q : QosStrategy) : QosMitigation := mkMitigation q [] ∅ 0.

Definition mit_getPrType m name : Z :=
  match monitored m !! dropLast 1 name with
  | Some rate => if double_of_dec 8 10 <? rate then 3 else getPrType name
  | None => getPrType name
  end.

(** [lastHundred.push_back(namePrefix)], and the oldest is erased. *)
Definition pushOutcome namePrefix (l : list Name) : list Name :=
  let l := l ++ [namePrefix] in if (100 <? length l)%nat then tail l else l.

(** The outcome [x], 0 or 1, of an Interest of a flow. *)
Definition recordOutcome (x : Z) namePrefix m : QosMitigation :=
  let l := pushOutcome namePrefix (lastHundred m) in
  match monitored m !! namePrefix with
  | Some rate => mkMitigation (qosBase m) l (<[namePrefix := ewma x rate]> (monitored m)) (totalLossRate m)
  | None => mkMitigation (qosBase m) l (monitored m) (ewma x (totalLossRate m))
  end.

(** The body of the loop of [findSusFlow]: [pop_map], [maxCount], [mostPopName]. *)
Definition sus_step (acc : gmap Name Z * Z * Name) name : gmap Name Z * Z * Name :=
  let '(pop_map, maxCount, mostPopName) := acc in
  let pop_map := <[name := default 0 (pop_map !! name) + 1]> pop_map in
  if maxCount <? default 0 (pop_map !! name)
  then (pop_map, default 0 (pop_map !! name), name)
  else (pop_map, maxCount, mostPopName).

Definition mostPopular (l : list Name) : Name := (foldl sus_step (∅, 0, []) l).2.

Definition findSusFlow m : QosMitigation :=
  mkMitigation (qosBase m) [] (<[mostPopular (lastHundred m) := 0]> (monitored m)) 0.

Definition mit_beforeSatisfyInterest (inFace : Z) p data m : option QosMitigation :=
  pe ← pits (qosBase m) !! p;
  let m := recordOutcome 0 (dropLast 1 (i_name (m_interest pe))) m in
  q ← beforeSatisfyInterest faceOf inFace p data (qosBase m);
  Some (set_base q m).

(** [totalLossRate > 0.6 && lastHundred.size() == 100]. *)
Definition suspicious m : bool :=
  (double_of_dec 6 10 <? totalLossRate m) && (length (lastHundred m) =? 100)%nat.

Definition mit_beforeExpirePendingInterest pe m : QosMitigation :=
  let name := i_name (m_interest pe) in
  let '(q, rejected) := wasRejected name (qosBase m) in
  let m := set_base q m in
  if rejected then m
  else
    let m := recordOutcome one (dropLast 1 name) m in
    let m := if suspicious m then findSusFlow m else m in
    set_base (beforeExpirePendingInterest faceOf pe (qosBase m)) m.

(** The signal of the forwarder: the handler that the base class connected runs
    first, then that of the derived class. *)
Definition mit_expire pe m : QosMitigation :=
  mit_beforeExpirePendingInterest pe (set_base (beforeExpirePendingInterest faceOf pe (qosBase m)) m).

Definition mit_afterReceiveInterest (now simNow inFace : Z) (interest : Interest) p m : option QosMitigation :=
  q ← interestOfClass faceOf enum faceById devQueue nextHopsOf order now simNow inFace interest p
        (mit_getPrType m (i_name interest)) (qosBase m);
  Some (set_base q m).

(** The class of the Data is determined after its outcome is recorded. *)
Definition mit_afterReceiveData (now simNow inFace : Z) data p m : option QosMitigation :=
  m ← mit_beforeSatisfyInterest inFace p data m;
  q ← dataOfClass faceOf enum faceById devQueue order now simNow inFace data p
        (mit_getPrType m (data_name data)) (qosBase m);
  Some (set_base q m).

(** [setUp] adds a fourth bucket, which is refilled and signals as the others. *)
Definition mit_handle (e : QosEvent (C:=C)) m : option QosMitigation :=
  match e with
  | AfterReceiveInterest now simNow inFace interest p => mit_afterReceiveInterest now simNow inFace interest p m
  | AfterReceiveData now simNow inFace data p => mit_afterReceiveData now simNow inFace data p m
  | BeforeSatisfy inFace data p => mit_beforeSatisfyInterest inFace p data m
  | AfterReceiveNack inFace p => Some (set_base (qos_afterReceiveNack inFace p (qosBase m)) m)
  | BeforeExpire p => pe ← pits (qosBase m) !! p; Some (mit_expire pe m)
  | AddToken now i =>
      q ← refillBucket faceOf enum faceById devQueue order now i (qosBase m); Some (set_base q m)
  | NewPitEntry p pe | PitChanged p pe => Some (set_base (set_pit p pe (qosBase m)) m)
  end.

(** ** Loss rates of flows *)

Lemma one_pow : one = 2 ^ 1074.
Proof. rewrite one_bits. symmetry. apply (Z.pow_add_r 2 53 1021); lia. Qed.

(** The moving average is dominated by the last outcome. *)
Lemma ewma_loss r : 0 <= r <= one -> beta <= ewma one r.
Proof.
  intros Hr. unfold ewma. rewrite sub_beta, fadd_def, !fmul_def, beta_bits.
  rewrite one_pow.
  assert (representable 53 (7502996979199246 * 2 ^ 1021)) as Hrep by (apply repr_int; lia).
  rewrite (fround_repr 53 ltac:(lia) (7502996979199246 * 2 ^ 1021) (2 ^ 1074)); [|lia|exact Hrep].
  assert (0 < 2 ^ 1021) as Hw by (apply Z.pow_pos_nonneg; lia).
  assert (0 <= fround 53 (1504202275541746 * 2 ^ 1021 * r) (2 ^ 1074)) as Hn by (apply fround_nonneg; [lia..|nia]).
  apply fround_ge_repr; [lia|lia|exact Hrep|lia].
Qed.

Lemma ewma_success r : 0 <= r <= one -> ewma 0 r <= double_sub one beta.
Proof.
  intros Hr. unfold ewma. rewrite !sub_beta, fadd_def, !fmul_def, beta_bits.
  assert (representable 53 (1504202275541746 * 2 ^ 1021)) as Hrep by (apply repr_int; lia).
  assert (0 < 2 ^ 1021) as Hw by (apply Z.pow_pos_nonneg; lia).
  assert (fround 53 0 (2 ^ 1074) = 0) as Hz by (apply (fround_repr 53 ltac:(lia) 0); [lia|exists 0, 0; lia]).
  rewrite Z.mul_0_r, Hz.
  assert (0 <= fround 53 (1504202275541746 * 2 ^ 1021 * r) (2 ^ 1074) <= 1504202275541746 * 2 ^ 1021) as [Hn Hm].
  { split; [apply fround_nonneg; [lia..|nia]|].
    apply fround_le_repr; [lia|lia|nia|exact Hrep|]. rewrite <-one_pow. nia. }
  apply fround_le_repr; [lia|lia|lia|exact Hrep|]. lia.
Qed.

Lemma threshold_between : double_sub one beta <= double_of_dec 8 10 < beta.
Proof. vm_compute. split; [discriminate|reflexivity]. Qed.

Lemma one_beta_pos : 0 <= double_sub one beta.
Proof. vm_compute. discriminate. Qed.

(** ** The most frequent flow *)

Definition occurrences name (l : list Name) : Z := Z.of_nat (length (filter (fun n => n = name) l)).

Lemma occurrences_snoc name l n :
  occurrences name (l ++ [n]) = occurrences name l + (if decide (n = name) then 1 else 0).
Proof.
  unfold occurrences. rewrite filter_app, length_app, filter_cons, filter_nil. destruct (decide (n = name)); simpl; lia.
Qed.

Lemma occurrences_nonneg name l : 0 <= occurrences name l.
Proof. unfold occurrences. lia. Qed.

(** The loop counts the names; its choice is the name that was first to reach the
    largest count. *)
Lemma sus_loop l :
  exists pop mx best, foldl sus_step (∅, 0, []) l = (pop, mx, best) /\
    (forall n, default 0 (pop !! n) = occurrences n l) /\ (forall n, occurrences n l <= mx) /\
    (l <> [] -> 0 < mx /\ occurrences best l = mx /\ exists l1 l2, l = l1 ++ l2 /\ occurrences best l1 = mx /\
       forall n, n <> best -> occurrences n l1 < mx) /\ (l = [] -> mx = 0).
Proof.
  induction l as [|name l IH] using rev_ind.
  { exists ∅, 0, []. split; [done|]. split; [intros n; by rewrite lookup_empty|]. by split; [intros n|]. }
  destruct IH as (pop & mx & best & E & Hpop & Hmx & Hbest & Hnil). rewrite foldl_app, E. cbn [foldl sus_step].
  set (pop' := <[name := _]> pop).
  assert (forall n, default 0 (pop' !! n) = occurrences n (l ++ [name])) as Hpop'.
  { intros n. rewrite occurrences_snoc. unfold pop'. destruct (decide (name = n)) as [->|Hne].
    - rewrite lookup_insert_eq. simpl. by rewrite Hpop.
    - rewrite lookup_insert_ne by done. rewrite Hpop. lia. }
  rewrite Hpop'.
  assert (0 <= mx) as Hmx0 by (pose proof (Hmx name); pose proof (occurrences_nonneg name l); lia).
  destruct (Z.ltb_spec mx (occurrences name (l ++ [name]))) as [Hlt|Hge].
  - eexists _, _, _. split; [done|]. split; [done|]. split; [|split; [|by intros ?%app_nil; destruct_and!]].
    + intros n. destruct (decide (name = n)) as [->|Hne]; [done|].
      rewrite (occurrences_snoc n l), decide_False by done. specialize (Hmx n). lia.
    + intros _. split_and!; [lia|done|]. exists (l ++ [name]), []. rewrite app_nil_r. split_and!; [done|done|].
      intros n Hn. rewrite (occurrences_snoc n), decide_False by congruence. specialize (Hmx n). lia.
  - exists pop', mx, best. split; [done|]. split; [done|].
    assert (l <> []) as Hl.
    { intros ->. rewrite Hnil in Hge by done. rewrite occurrences_snoc, decide_True in Hge by done.
      pose proof (occurrences_nonneg name []). lia. }
    destruct (Hbest Hl) as (Hpos & Hocc & l1 & l2 & -> & Hc1 & Hc2).
    split; [|split; [|by intros ?%app_nil; destruct_and!]].
    + intros n. rewrite occurrences_snoc. specialize (Hmx n). case_decide; [subst|lia].
      rewrite occurrences_snoc, decide_True in Hge by done. lia.
    + intros _. split; [done|]. split.
      * rewrite occurrences_snoc. case_decide; [subst|lia].
        rewrite occurrences_snoc, decide_True in Hge by done. lia.
      * exists l1, (l2 ++ [name]). by rewrite <-app_assoc.
Qed.

(** When losses are too many, [findSusFlow] puts under observation the flow
    that is the most frequent among the last outcomes (of several, the one that
    was first to reach that count), with a loss rate of 0, and starts to count
    again; no other flow is affected. *)
Theorem findSusFlow_correct m :
  lastHundred m <> [] ->
  exists flow l1 l2, findSusFlow m = mkMitigation (qosBase m) [] (<[flow := 0]> (monitored m)) 0 /\
    flow ∈ lastHundred m /\ (forall n, occurrences n (lastHundred m) <= occurrences flow (lastHundred m)) /\
    lastHundred m = l1 ++ l2 /\ occurrences flow l1 = occurrences flow (lastHundred m) /\
    (forall n, n <> flow -> occurrences n l1 < occurrences flow l1).
Proof.
  intros Hl. destruct (sus_loop (lastHundred m)) as (pop & mx & best & E & _ & Hmx & Hb & _).
  destruct (Hb Hl) as (Hpos & Hocc & l1 & l2 & Hsplit & Hc1 & Hc2). exists best, l1, l2.
  unfold findSusFlow, mostPopular. rewrite E. split; [done|]. split_and!; [|by rewrite Hocc|done|congruence|by rewrite Hc1].
  rewrite <-Hocc in Hpos. unfold occurrences in Hpos.
  destruct (filter (fun n => n = best) (lastHundred m)) as [|x f] eqn:Ef; [simpl in Hpos; lia|].
  assert (x ∈ filter (fun n => n = best) (lastHundred m)) as [-> ?]%list_elem_of_filter by (rewrite Ef; by left). done.
Qed.

(** ** Rejected Interests *)

Notation named name := (fun n : Name => bool_decide (n = name)).

Lemma occurrences_erase name l :
  occurrences name (erase_first (named name) l) = Z.max 0 (occurrences name l - 1).
Proof.
  unfold occurrences. induction l as [|n l IH]; [done|]. cbn [erase_first]. rewrite filter_cons.
  destruct (decide (n = name)) as [->|Hne].
  - rewrite bool_decide_eq_true_2 by done. simpl. lia.
  - rewrite bool_decide_eq_false_2 by done. rewrite filter_cons, decide_False by done. exact IH.
Qed.

Lemma occurrences_0 name l : occurrences name l = 0 <-> find_if (named name) l = None.
Proof.
  unfold occurrences. induction l as [|n l IH]; [done|]. rewrite filter_cons. cbn [find_if].
  destruct (decide (n = name)) as [->|Hne].
  - rewrite bool_decide_eq_true_2 by done. simpl. split; [lia|done].
  - by rewrite bool_decide_eq_false_2 by done.
Qed.

Lemma wasRejected_spec name (q : QosStrategy (C:=C) (B:=B)) :
  wasRejected name q =
    (set_rejected (erase_first (named name) (rejectedInterests q)) q, 0 <? occurrences name (rejectedInterests q)).
Proof.
  unfold wasRejected. pose proof (occurrences_nonneg name (rejectedInterests q)) as Hn.
  pose proof (occurrences_0 name (rejectedInterests q)) as Ho.
  destruct (find_if _ _) as [x|] eqn:E; f_equal.
  - symmetry. apply Z.ltb_lt. assert (occurrences name (rejectedInterests q) <> 0); [|lia]. intros ?%Ho. done.
  - rewrite erase_first_id by done. by destruct q.
  - symmetry. apply Z.ltb_ge. rewrite (proj2 Ho); done.
Qed.

Lemma beforeExpire_rejected pe (q : QosStrategy (C:=C) (B:=B)) :
  rejectedInterests (beforeExpirePendingInterest faceOf pe q) =
  erase_first (named (i_name (m_interest pe))) (rejectedInterests q).
Proof.
  unfold beforeExpirePendingInterest. rewrite wasRejected_spec. repeat case_match; done.
Qed.

(** What a strategy with mitigation knows of flows. *)
Definition flows m : list Name * gmap Name Z * Z := (lastHundred m, monitored m, totalLossRate m).

(** The outcome of an Interest that is lost. *)
Definition lossOf namePrefix m : QosMitigation :=
  let m := recordOutcome one namePrefix m in if suspicious m then findSusFlow m else m.

(** Outcomes change what is known of flows from what is known of flows. *)
Lemma lossOf_flows namePrefix m q : flows (lossOf namePrefix (set_base q m)) = flows (lossOf namePrefix m).
Proof.
  unfold lossOf, recordOutcome, suspicious. cbn [set_base monitored qosBase lastHundred totalLossRate].
  destruct (monitored m !! namePrefix); cbn [totalLossRate lastHundred]; destruct (_ && _); reflexivity.
Qed.

Lemma lossOf_base namePrefix m : qosBase (lossOf namePrefix m) = qosBase m.
Proof.
  unfold lossOf. assert (qosBase (recordOutcome one namePrefix m) = qosBase m) as Hr
    by (unfold recordOutcome; by destruct (monitored m !! namePrefix)).
  destruct (suspicious _); exact Hr.
Qed.

Lemma expiry_flows pe m :
  let name := i_name (m_interest pe) in
  let n := occurrences name (rejectedInterests (qosBase m)) in
  flows (mit_expire pe m) = flows (if n <=? 1 then lossOf (dropLast 1 name) m else m) /\
  occurrences name (rejectedInterests (qosBase (mit_expire pe m))) = Z.max 0 (n - 2).
Proof.
  cbv zeta. set (name := i_name (m_interest pe)). set (n := occurrences name _).
  pose proof (occurrences_nonneg name (rejectedInterests (qosBase m)) : 0 <= n) as Hn.
  unfold mit_expire, mit_beforeExpirePendingInterest. fold name. rewrite wasRejected_spec.
  cbn [set_base qosBase]. rewrite beforeExpire_rejected. fold name. rewrite occurrences_erase. fold n.
  destruct (Z.ltb_spec 0 (Z.max 0 (n - 1))) as [Hlt|Hge].
  - rewrite (proj2 (Z.leb_gt n 1)) by lia. split; [done|]. cbn [set_base qosBase rejectedInterests set_rejected].
    rewrite !occurrences_erase. fold n. lia.
  - rewrite (proj2 (Z.leb_le n 1)) by lia.
    match goal with |- context [recordOutcome one (dropLast 1 name) ?m1] =>
      fold (lossOf (dropLast 1 name) m1); set (m' := m1) end.
    split.
    + apply (lossOf_flows (dropLast 1 name) m (qosBase m')).
    + cbn [set_base qosBase]. rewrite lossOf_base, beforeExpire_rejected. fold name.
      unfold m'. cbn [set_base qosBase set_rejected rejectedInterests]. rewrite !occurrences_erase. fold n. lia.
Qed.

(** An Interest that expires counts as a loss of its flow unless the strategy
    has rejected it, but since both handlers of the signal run and each consumes
    one rejection, an Interest that was rejected once counts as lost all the
    same: only one that was rejected twice is left out. *)
Theorem expiry_counts_rejected pe m :
  let name := i_name (m_interest pe) in
  let n := occurrences name (rejectedInterests (qosBase m)) in
  flows (mit_expire pe m) = flows (if n <=? 1 then lossOf (dropLast 1 name) m else m) /\
  occurrences name (rejectedInterests (qosBase (mit_expire pe m))) = Z.max 0 (n - 2).
Proof. apply expiry_flows. Qed.

(** ** The class of an observed flow *)

Definition mit_ok m : Prop :=
  qos_ok faceById (qosBase m) /\ (length (lastHundred m) <= 100)%nat /\
  (forall n r, monitored m !! n = Some r -> 0 <= r <= one) /\ 0 <= totalLossRate m <= one.

Lemma pushOutcome_length namePrefix l : (length l <= 100)%nat -> (length (pushOutcome namePrefix l) <= 100)%nat.
Proof.
  intros Hl. unfold pushOutcome. destruct (Nat.ltb_spec 100 (length (l ++ [namePrefix]))) as [Hlt|Hge]; [|lia].
  rewrite length_app in Hlt. simpl in Hlt. rewrite length_tl, length_app. simpl. lia.
Qed.

Lemma recordOutcome_ok x namePrefix m : x = 0 \/ x = one -> mit_ok m -> mit_ok (recordOutcome x namePrefix m).
Proof.
  intros Hx (Hq & Hl & Hm & Ht). unfold recordOutcome. apply (pushOutcome_length namePrefix) in Hl.
  destruct (monitored m !! namePrefix) as [r|] eqn:E; (split; [exact Hq|split; [exact Hl|split]]).
  - cbn [monitored]. intros n r' [[_ <-]|[_ Hn]]%lookup_insert_Some; [|by eapply Hm].
    apply ewma_range; [exact Hx|by eapply Hm].
  - exact Ht.
  - exact Hm.
  - apply ewma_range; assumption.
Qed.

Lemma findSusFlow_ok m : mit_ok m -> mit_ok (findSusFlow m).
Proof.
  intros (Hq & Hl & Hm & Ht). split; [exact Hq|]. split; [apply Nat.le_0_l|].
  split; [|split; [apply Z.le_refl|apply one_pos]].
  cbn [findSusFlow monitored]. intros n r [[_ <-]|[_ Hn]]%lookup_insert_Some; [split; [apply Z.le_refl|apply one_pos]|by eapply Hm].
Qed.

Lemma lossOf_ok namePrefix m : mit_ok m -> mit_ok (lossOf namePrefix m).
Proof.
  intros Hok. unfold lossOf. apply (recordOutcome_ok one namePrefix) in Hok; [|by right].
  destruct (suspicious _); [apply findSusFlow_ok|]; exact Hok.
Qed.

Lemma set_base_ok q m : mit_ok m -> qos_ok faceById q -> mit_ok (set_base q m).
Proof. intros (_ & Hm) Hq. exact (conj Hq Hm). Qed.

Lemma getPrType_flows m m' name : monitored m = monitored m' -> mit_getPrType m name = mit_getPrType m' name.
Proof. unfold mit_getPrType. by intros ->. Qed.

Lemma demoted_class m flow r name :
  monitored m !! flow = Some r -> dropLast 1 name = flow -> beta <= r -> mit_getPrType m name = 3.
Proof.
  intros Hr <- Hb. unfold mit_getPrType. rewrite Hr. pose proof threshold_between as [_ Ht].
  by rewrite (proj2 (Z.ltb_lt _ _) (Z.lt_le_trans _ _ _ Ht Hb)).
Qed.

Lemma restored_class m flow r name :
  monitored m !! flow = Some r -> dropLast 1 name = flow -> r <= double_sub one beta -> mit_getPrType m name = getPrType name.
Proof.
  intros Hr <- Hb. unfold mit_getPrType. rewrite Hr. pose proof threshold_between as [Ht _].
  by rewrite (proj2 (Z.ltb_ge _ _) (Z.le_trans _ _ _ Hb Ht)).
Qed.

Lemma recordOutcome_monitored x flow r m :
  monitored m !! flow = Some r -> monitored (recordOutcome x flow m) = <[flow := ewma x r]> (monitored m).
Proof. intros Hr. unfold recordOutcome. by rewrite Hr. Qed.

(** Storage for PIT entries is all that the handlers need. *)
Lemma mit_beforeSatisfy_ok inFace p data pe m :
  mit_ok m -> pits (qosBase m) !! p = Some pe ->
  exists q, mit_beforeSatisfyInterest inFace p data m =
      Some (set_base q (recordOutcome 0 (dropLast 1 (i_name (m_interest pe))) m)) /\
    mit_ok (set_base q (recordOutcome 0 (dropLast 1 (i_name (m_interest pe))) m)) /\ pits q = pits (qosBase m).
Proof.
  intros Hok Hp. unfold mit_beforeSatisfyInterest. rewrite Hp. cbn [mbind option_bind].
  set (flow := dropLast 1 _). pose proof (recordOutcome_ok 0 flow m (or_introl eq_refl) Hok) as Hok1.
  assert (qosBase (recordOutcome 0 flow m) = qosBase m) as Hb
    by (unfold recordOutcome; by destruct (monitored m !! flow)).
  destruct (qos_beforeSatisfy_ok faceOf faceById inFace p data (qosBase m) pe) as (q & Hq & Hqok & Hpits);
    [apply Hok|exact Hp|].
  exists q. rewrite Hb, Hq. split; [reflexivity|]. split; [apply set_base_ok; assumption|exact Hpits].
Qed.

(** The level of an observed flow follows its last outcome: after a loss all
    packets of the flow are of the fourth level, unless the flow is at that moment
    chosen for observation again, and after one satisfied Interest they are back
    at the level of their name. *)
Theorem observed_class inFace p data pe m flow r name :
  mit_ok m -> monitored m !! flow = Some r -> dropLast 1 name = flow ->
  pits (qosBase m) !! p = Some pe -> dropLast 1 (i_name (m_interest pe)) = flow ->
  occurrences (i_name (m_interest pe)) (rejectedInterests (qosBase m)) <= 1 ->
  let m1 := recordOutcome one flow m in
  mit_getPrType (mit_expire pe m) name =
    (if suspicious m1 && bool_decide (mostPopular (lastHundred m1) = flow) then getPrType name else 3) /\
  exists m', mit_beforeSatisfyInterest inFace p data m = Some m' /\ mit_getPrType m' name = getPrType name.
Proof.
  intros Hok Hr Hname Hp Hflow Hrej m1. assert (0 <= r <= one) as Hrange by (destruct Hok as (_ & _ & Hm & _); by eapply Hm).
  split.
  - destruct (expiry_flows pe m) as [Hf _]. rewrite (proj2 (Z.leb_le _ _) Hrej), Hflow in Hf.
    assert (monitored (mit_expire pe m) = monitored (lossOf flow m)) as Hmon
      by exact (f_equal (fun x => x.1.2) Hf).
    rewrite (getPrType_flows _ _ name Hmon). unfold lossOf. fold m1.
    assert (monitored m1 !! flow = Some (ewma one r)) as Hm1
      by (unfold m1; rewrite (recordOutcome_monitored one flow r m Hr); apply lookup_insert_eq).
    destruct (suspicious m1); cbn [andb]; [|by apply (demoted_class _ flow (ewma one r)), ewma_loss].
    case_bool_decide as Hpop.
    + apply (restored_class _ flow 0); [|exact Hname|apply one_beta_pos].
      cbn [findSusFlow monitored]. rewrite Hpop. apply lookup_insert_eq.
    + apply (demoted_class _ flow (ewma one r)); [|exact Hname|by apply ewma_loss].
      cbn [findSusFlow monitored]. rewrite lookup_insert_ne by exact Hpop. exact Hm1.
  - destruct (mit_beforeSatisfy_ok inFace p data pe m Hok Hp) as (q & -> & _). eexists. split; [reflexivity|].
    rewrite Hflow. apply (restored_class _ flow (ewma 0 r)); [|exact Hname|by apply ewma_success].
    cbn [set_base monitored]. rewrite (recordOutcome_monitored 0 flow r m Hr). apply lookup_insert_eq.
Qed.

(** ** Runs *)

(** As for the QoS strategy; the fourth level is not a class of names. *)
Definition mit_admissible m (e : QosEvent (C:=C)) : Prop := admissible faceOf faceById nextHopsOf (qosBase m) e.

Lemma mit_class m name :
  getPrType name < Z.of_nat (length m_successReqs) ->
  exists i : nat, mit_getPrType m name = Z.of_nat i /\ (i < length m_successReqs)%nat.
Proof.
  intros Hn. unfold mit_getPrType. destruct (monitored m !! _) as [r|]; [destruct (_ <? _)|];
    [exists 3%nat; split; [done|simpl; lia]|by apply getPrType_class..].
Qed.

Lemma mit_expire_ok pe m : mit_ok m -> mit_ok (mit_expire pe m).
Proof.
  intros Hok. unfold mit_expire, mit_beforeExpirePendingInterest. rewrite wasRejected_spec.
  pose proof (beforeExpire_ok faceOf faceById pe (qosBase m) (proj1 Hok)) as [Hq _].
  cbn [set_base qosBase]. set (q1 := set_rejected _ _).
  assert (qos_ok faceById q1) as Hq1 by (by apply set_rejected_ok).
  assert (mit_ok (set_base q1 m)) as Hm1 by (by apply set_base_ok). fold (set_base q1 m).
  destruct (0 <? _); [exact Hm1|].
  pose proof (lossOf_ok (dropLast 1 (i_name (m_interest pe))) (set_base q1 m) Hm1) as Hl.
  apply set_base_ok; [exact Hl|]. apply beforeExpire_ok, Hl.
Qed.

Hypothesis devQueue_nonneg : forall f n, devQueue f = Some n -> 0 <= n.
Hypothesis order_keys : forall txs, order txs ≡ₚ (map_to_list txs).*1.

Lemma mit_handle_ok m e :
  mit_ok m -> mit_admissible m e -> exists m', mit_handle e m = Some m' /\ mit_ok m'.
Proof using devQueue_nonneg order_keys FaceSetOrder0.
  intros Hok Ha. pose proof Hok as [Hq _].
  destruct e as [now simNow inFace interest p|now simNow inFace data p|inFace data p|inFace p|p|now i|p pe|p pe];
    cbn [mit_handle mit_admissible admissible] in *; unfold mit_admissible in Ha; cbn [admissible] in Ha.
  - destruct Ha as (Hpr & pe & Hp & Hin & Hkn). apply (mit_class m) in Hpr as (i & Hpr & Hi).
    unfold mit_afterReceiveInterest. rewrite Hpr.
    destruct (interestOfClass_ok faceOf enum faceById devQueue nextHopsOf order devQueue_nonneg order_keys
      now simNow inFace interest p i (qosBase m) pe Hi Hq Hp Hin Hkn) as (q & -> & Hqok).
    eexists. split; [reflexivity|]. by apply set_base_ok.
  - destruct Ha as (Hpr & pe & Hp & Hm & Hkn). unfold mit_afterReceiveData.
    destruct (mit_beforeSatisfy_ok inFace p data pe m Hok Hp) as (q & -> & Hok1 & Hpits). cbn [mbind option_bind].
    match goal with |- context [mit_getPrType ?m1 _] => destruct (mit_class m1 _ Hpr) as (i & Hcl & Hi) end.
    rewrite Hcl. cbn [set_base qosBase].
    destruct (dataOfClass_ok faceOf enum faceById devQueue order devQueue_nonneg order_keys
      now simNow inFace data p i q pe Hi (proj1 Hok1)) as (q' & -> & Hqok); [by rewrite Hpits|exact Hm|exact Hkn|].
    eexists. split; [reflexivity|]. eapply set_base_ok; [exact Hok1|exact Hqok].
  - destruct Ha as [pe Hp]. destruct (mit_beforeSatisfy_ok inFace p data pe m Hok Hp) as (q & -> & Hok1 & _).
    eexists. split; [reflexivity|exact Hok1].
  - eexists. split; [reflexivity|]. by apply set_base_ok.
  - destruct Ha as [pe ->]. eexists. split; [reflexivity|]. by apply mit_expire_ok.
  - destruct (refillBucket_ok faceOf enum faceById devQueue order devQueue_nonneg order_keys now i (qosBase m) Ha Hq)
      as (q & -> & Hqok). eexists. split; [reflexivity|]. by apply set_base_ok.
  - destruct Ha as [Hnew Hpe]. eexists. split; [reflexivity|]. apply set_base_ok; [exact Hok|]. by apply addPitEntry_ok.
  - destruct Ha as (Hpe & pe0 & Hp & Hi). eexists. split; [reflexivity|]. apply set_base_ok; [exact Hok|]. apply set_pits_ok; [exact Hq|].
    eapply pits_le_insert; [exact Hp|exact Hi|by intros _].
Qed.
End Mitigation.

(** ** Runs with a changing environment *)

Section MitigationRuns.
Context {C B : Type} `{PacketWire C B} `{!ScopePrefixes C} `{!NackReasons} `{!PriorityTypes C}.
Notation QosMitigation := (QosMitigation (C:=C) (B:=B)).
Notation QosEnv := (QosEnv (C:=C) (B:=B)).
Context (faceOf : Z -> FaceInfo) (enum : list Z -> list Z) `{!FaceSetOrder enum}.
Implicit Types (m : QosMitigation) (env : QosEnv) (e : QosEvent (C:=C)).

Definition mit_handleIn env e m : option QosMitigation :=
  mit_handle faceOf enum (env_faceById env) (env_devQueue env) (env_nextHopsOf env) (env_order env) e m.

Inductive mit_run : QosMitigation -> list (QosEnv * QosEvent (C:=C)) -> QosMitigation -> Prop :=
  | mit_run_nil m : mit_run m [] m
  | mit_run_cons m env e m' es m'' :
      possibleIn faceOf env e (qosBase m) -> mit_handleIn env e m = Some m' -> mit_run m' es m'' -> mit_run m ((env, e) :: es) m''.

Lemma mit_handleIn_ok (faceById : Z -> option Z) env e m : mit_ok faceById m -> possibleIn faceOf env e (qosBase m) ->
  mit_ok (env_faceById env) m /\ exists m', mit_handleIn env e m = Some m' /\ mit_ok (env_faceById env) m'.
Proof.
  intros [Hq Hm] ((Hd & Ho) & Hk & Ha). assert (mit_ok (env_faceById env) m) as Hok.
  { split; [|exact Hm]. eapply qos_ok_known; [exact Hq|exact Hk]. }
  split; [exact Hok|]. by apply mit_handle_ok.
Qed.

(** C12: from a strategy that has just been created, along every run of triggers,
    expiries, refills of the four buckets, and PIT entries created or changed, in
    which the names of packets are of a class and no face with a transmit queue
    leaves the face table, while the face table, the device queues and the FIB may
    change from one event to the next, the invariant holds: that of the QoS
    strategy with four levels, at most a hundred outcomes, all loss rates between 0
    and 1; and the next such event is handled without an undefined access, a failed
    assertion or a decoding error. *)
Theorem mitigation_run_safe faceById q0 es m env e :
  qos_ok faceById q0 -> mit_run (newMitigation q0) es m -> possibleIn faceOf env e (qosBase m) ->
  mit_ok (env_faceById env) m /\ exists m', mit_handleIn env e m = Some m' /\ mit_ok (env_faceById env) m'.
Proof.
  intros Hq Hrun Ha. assert (mit_ok faceById (newMitigation q0)) as Hnew.
  { split; [exact Hq|]. split; [apply Nat.le_0_l|]. split; [|split; [apply Z.le_refl|apply one_pos]].
    intros n r Hn. cbn [newMitigation monitored] in Hn. by rewrite lookup_empty in Hn. }
  clear Hq. revert faceById Hnew Ha.
  induction Hrun as [m0|m1 env1 e1 m' es m'' Hp Hh _ IH]; intros faceById Hok Ha; [by eapply mit_handleIn_ok|].
  destruct (mit_handleIn_ok faceById env1 e1 m1 Hok Hp) as (_ & m2 & Hm2 & Hok2). rewrite Hh in Hm2. injection Hm2 as <-. by eapply IH.
Qed.
End MitigationRuns.

(** ** A concrete node *)

Module MitigationExamples.
Import StrategyExamples QosStrategyExamples.
#[local] Existing Instance mitigationReqs.

Definition mnode : QosStrategy (C:=Z) (B:=Wire) :=
  mkQos ∅ [bucket20; bucket20; bucket20; bucket20] ∅ [] {[ 1%positive := entryOf typeI ]} [].

Lemma mnode_ok : qos_ok allFaces mnode.
Proof.
  split; [|split; [split|split]].
  - intros f t Hf. simpl in Hf. by rewrite lookup_empty in Hf.
  - done.
  - repeat constructor; simpl; try lia; intros f v Hv; by rewrite lookup_empty in Hv.
  - intros p pe. simpl. intros [<- <-]%lookup_singleton_Some. apply entryOf_ok.
  - intros n s Hs. simpl in Hs. by rewrite lookup_empty in Hs.
Qed.

(** A node that observes the flow of the Interest and has rejected it once. *)
Definition observing : QosMitigation (C:=Z) (B:=Wire) :=
  mkMitigation (set_rejected [i_name typeI] mnode) [] {[ [1; 51; 7] := 0 ]} 0.

Lemma observing_ok : mit_ok allFaces observing.
Proof.
  split; [apply set_rejected_ok, mnode_ok|]. split; [apply Nat.le_0_l|].
  split; [|split; [apply Z.le_refl|apply one_pos]].
  intros n r. cbn [observing monitored]. intros [_ <-]%lookup_singleton_Some. split; [apply Z.le_refl|apply one_pos].
Qed.

Lemma findSusFlow_correct_witness :
  exists flow, findSusFlow (mkMitigation mnode [[1; 51]; [1; 52]; [1; 52]] ∅ 0)
    = mkMitigation mnode [] {[ flow := 0 ]} 0 /\ flow ∈ [[1; 51]; [1; 52]; [1; 52]].
Proof.
  destruct (findSusFlow_correct (mkMitigation mnode [[1; 51]; [1; 52]; [1; 52]] ∅ 0))
    as (flow & l1 & l2 & He & Hin & _); [discriminate|].
  exists flow. split; [exact He|exact Hin].
Defined.

Definition answer : Data := ([1; 51; 7; 8], 9%positive, 0).

Lemma observed_class_witness :
  let m1 := recordOutcome one [1; 51; 7] observing in
  mit_getPrType (mit_expire faces (entryOf typeI) observing) [1; 51; 7; 9] =
    (if suspicious m1 && bool_decide (mostPopular (lastHundred m1) = [1; 51; 7]) then getPrType [1; 51; 7; 9] else 3) /\
  exists m', mit_beforeSatisfyInterest faces 4 1 answer observing = Some m' /\
    mit_getPrType m' [1; 51; 7; 9] = getPrType [1; 51; 7; 9].
Proof.
  apply (observed_class faces allFaces 4 1 answer (entryOf typeI) observing [1; 51; 7] 0).
  - exact observing_ok.
  - reflexivity.
  - reflexivity.
  - reflexivity.
  - reflexivity.
  - discriminate.
Defined.

Lemma mitigation_run_safe_witness :
  exists m', mit_handleIn faces remove_dups env1 (AfterReceiveInterest 0 0 4 typeI 1) (newMitigation mnode) = Some m' /\ mit_ok (env_faceById env1) m'.
Proof.
  apply (mitigation_run_safe faces remove_dups allFaces mnode [(env0, AfterReceiveNack 5 1)] (newMitigation mnode) env1 (AfterReceiveInterest 0 0 4 typeI 1)).
  - exact mnode_ok.
  - apply (mit_run_cons faces remove_dups (newMitigation mnode) env0 (AfterReceiveNack 5 1) (newMitigation mnode) []); [|reflexivity|apply mit_run_nil].
    split; [split; [exact idle_nonneg|exact keyOrder_keys]|]. split; [intros f t _; by eexists|exact I].
  - split; [split; [exact idle_nonneg|exact keyOrder_keys]|]. split; [intros f t Hf; simpl in Hf; by rewrite lookup_empty in Hf|].
    split; [vm_compute; reflexivity|]. exists (entryOf typeI). split; [reflexivity|]. split; [discriminate|].
    intros nh Hnh%list_elem_of_singleton. subst nh. by eexists.
Defined.

Example rejected_is_demoted : mit_getPrType (mit_expire faces (entryOf typeI) observing) (i_name typeI) = 3.
Proof. vm_compute. reflexivity. Qed.
End MitigationExamples.
