(* ===== verification/Rib.v ===== *)
(** * The routing information base

    Models [rib/route.hpp], [rib-entry.hpp/.cpp] and the table of [rib/rib.hpp/.cpp]:
    RIB entries hold the routes of a prefix and are linked into a tree by prefix;
    a lookup table lists the entries by face. Entries are shared pointers to the
    mapped values of [m_rib] and are named by their prefix. A failed assertion is
    [None]. The signals that the RIB emits and the scheduler events that it
    cancels are recorded in order. *)

From S2P Require Import Prelude Ndn.
Local Open Scope Z_scope.

(** The flags of ndn-cxx's [RouteFlags], of which each is a single bit. *)
Class RouteFlags := {
  ROUTE_FLAG_CHILD_INHERIT : Z;
  ROUTE_FLAG_CAPTURE : Z;
  child_inherit_bit f : Z.land f ROUTE_FLAG_CHILD_INHERIT = 0 \/
                        Z.land f ROUTE_FLAG_CHILD_INHERIT = ROUTE_FLAG_CHILD_INHERIT;
  child_inherit_nonzero : ROUTE_FLAG_CHILD_INHERIT <> 0
}.

Section Rib.
Context {C : Type} `{NameOrder C} {Ann : Type} `{!RouteFlags}.
Notation Name := (list C).

(** ** Routes *)

(** [m_expirationEvent] is a handle of the scheduler, empty when not scheduled. *)
Record Route := mkRoute {
  r_faceId : Z;
  r_origin : Z;
  r_cost : Z;
  r_flags : Z;
  r_expires : option Z;
  r_announcement : option Ann;
  r_annExpires : Z;
  r_expirationEvent : option Z
}.

Definition isChildInherit (r : Route) : bool := negb (Z.land (r_flags r) ROUTE_FLAG_CHILD_INHERIT =? 0).
Definition isRibCapture (r : Route) : bool := negb (Z.land (r_flags r) ROUTE_FLAG_CAPTURE =? 0).

(** [compareFaceIdAndOrigin] and [compareFaceId]. *)
Definition route_key (r : Route) : Z * Z := (r_faceId r, r_origin r).
Definition onFace (f : Z) (r : Route) : bool := r_faceId r =? f.

(** ** RIB entries *)

Record RibEntry := mkRibEntry {
  re_name : Name;
  re_children : list Name;
  re_parent : option Name;
  re_routes : list Route;
  re_inheritedRoutes : list Route;
  re_nRoutesWithCaptureSet : Z
}.
Implicit Types (e : RibEntry) (r : Route) (m : gmap Name RibEntry) (n p c : Name).

Definition set_routes (l : list Route) (k : Z) e : RibEntry :=
  mkRibEntry (re_name e) (re_children e) (re_parent e) l (re_inheritedRoutes e) k.
Definition set_re_parent (p : option Name) e : RibEntry :=
  mkRibEntry (re_name e) (re_children e) p (re_routes e) (re_inheritedRoutes e) (re_nRoutesWithCaptureSet e).
Definition set_re_children (l : list Name) e : RibEntry :=
  mkRibEntry (re_name e) l (re_parent e) (re_routes e) (re_inheritedRoutes e) (re_nRoutesWithCaptureSet e).
Definition set_inherited (l : list Route) e : RibEntry :=
  mkRibEntry (re_name e) (re_children e) (re_parent e) (re_routes e) l (re_nRoutesWithCaptureSet e).

(** [make_shared<RibEntry>()] with [setName]. *)
Definition newRibEntry n : RibEntry := mkRibEntry n [] None [] [] 0.

Definition findRoute r e : option Route := find_if (has_key route_key (route_key r)) (re_routes e).

(** The boolean says whether the route was inserted. *)
Definition insertRoute r e : RibEntry * bool :=
  match findRoute r e with
  | None =>
      let k := if isRibCapture r then u64 (re_nRoutesWithCaptureSet e + 1) else re_nRoutesWithCaptureSet e in
      (set_routes (re_routes e ++ [r]) k e, true)
  | Some _ => (e, false)
  end.

(** The erased route's event is cancelled. *)
Definition eraseRoute r e : RibEntry * list Z :=
  match findRoute r e with
  | None => (e, [])
  | Some route =>
      let k := if isRibCapture route then u64 (re_nRoutesWithCaptureSet e - 1) else re_nRoutesWithCaptureSet e in
      (set_routes (erase_first (has_key route_key (route_key r)) (re_routes e)) k e,
       option_list (r_expirationEvent route))
  end.

Definition hasRoute r e : bool := match findRoute r e with Some _ => true | None => false end.
Definition hasFaceId (f : Z) e : bool := existsb (onFace f) (re_routes e).
Definition getNRoutes e : Z := Z.of_nat (length (re_routes e)).

Definition addInheritedRoute r e : RibEntry := set_inherited (re_inheritedRoutes e ++ [r]) e.
Definition removeInheritedRoute r e : RibEntry :=
  set_inherited (remove_if (onFace (r_faceId r)) (re_inheritedRoutes e)) e.
Definition hasInheritedRoute r e : bool := existsb (onFace (r_faceId r)) (re_inheritedRoutes e).
Definition hasCapture e : bool := 0 <? re_nRoutesWithCaptureSet e.
Definition hasChildInheritOnFaceId (f : Z) e : bool := existsb (fun r => onFace f r && isChildInherit r) (re_routes e).

(** The first of the cheapest routes that satisfy a test. *)
Definition lowest_step (sel : Route -> bool) (candidate : option Route) r : option Route :=
  if sel r then
    match candidate with
    | None => Some r
    | Some c => if r_cost r <? r_cost c then Some r else candidate
    end
  else candidate.

Definition getRouteWithLowestCostByFaceId (f : Z) e : option Route :=
  foldl (lowest_step (onFace f)) None (re_routes e).

Definition getRouteWithLowestCostAndChildInheritByFaceId (f : Z) e : option Route :=
  foldl (lowest_step (fun r => onFace f r &&
           (Z.land (r_flags r) ROUTE_FLAG_CHILD_INHERIT =? ROUTE_FLAG_CHILD_INHERIT))) None (re_routes e).

(** [std::nth_element] puts at index 1 the element that a sort would put there;
    among routes of equal cost it is not specified which. *)
Definition getRouteWithSecondLowestCostByFaceId (nth : list Route -> option Route) (f : Z) e : option Route :=
  let matches := filter (fun r => onFace f r = true) (re_routes e) in
  if (length matches <? 2)%nat then None else nth matches.

(** ** The RIB *)

Inductive RibSignal :=
  | AfterInsertEntry (prefix : Name)
  | AfterEraseEntry (prefix : Name)
  | AfterAddRoute (prefix : Name) (route : Route)
  | BeforeRemoveRoute (prefix : Name) (route : Route).

Record Rib := mkRib {
  m_rib : gmap Name RibEntry;
  m_faceMap : gmap Z (list Name);
  m_nItems : Z;
  rib_signals : list RibSignal;
  rib_cancelled : list Z
}.
Implicit Types rib : Rib.

Definition newRib : Rib := mkRib ∅ ∅ 0 [] [].

Definition rib_find n r rib : option Route := e ← m_rib rib !! n; findRoute r e.

(** [for (int i = prefix.size() - 1; i >= 0; i--)] over the proper prefixes. *)
Fixpoint findParent_loop (k : nat) n m : option Name :=
  match k with
  | O => None
  | S k => match m !! getPrefix k n with Some _ => Some (getPrefix k n) | None => findParent_loop k n m end
  end.

Definition findParent n m : option Name := findParent_loop (length n) n m.

Definition findLongestPrefix n r rib : option Route :=
  match rib_find n r rib with
  | Some route => Some route
  | None => parent ← findParent n (m_rib rib); rib_find parent r rib
  end.

(** The names in the order of [std::map]. *)
Definition name_le (a b : Name) : Prop := name_compare a b <> Gt.
#[global] Instance name_le_dec a b : Decision (name_le a b).
Proof. unfold name_le. destruct (name_compare a b); [left|left|right]; congruence. Defined.
Definition sortedNames m : list Name := merge_sort name_le (map_to_list m).*1.

(** The elements after the first occurrence of [n]. *)
Fixpoint after n (l : list Name) : list Name :=
  match l with [] => [] | x :: l => if decide (x = n) then l else after n l end.

Fixpoint take_while {A} (t : A -> bool) (l : list A) : list A :=
  match l with [] => [] | x :: l => if t x then x :: take_while t l else [] end.

Definition findDescendants n m : list Name :=
  match m !! n with
  | Some _ => take_while (isPrefixOf n) (after n (sortedNames m))
  | None => []
  end.

Definition findDescendantsForNonInsertedName n m : list Name :=
  filter (fun k => isPrefixOf n k = true) (sortedNames m).

Definition addChild p c m : option (gmap Name RibEntry) :=
  child ← m !! c;
  match re_parent child with
  | Some _ => None
  | None =>
      let m := <[c := set_re_parent (Some p) child]> m in
      parent ← m !! p;
      Some (<[p := set_re_children (re_children parent ++ [c]) parent]> m)
  end.

Definition removeChild p c m : option (gmap Name RibEntry) :=
  child ← m !! c;
  if bool_decide (re_parent child = Some p) then
    let m := <[c := set_re_parent None child]> m in
    parent ← m !! p;
    Some (<[p := set_re_children (remove_if (fun n => bool_decide (n = c)) (re_children parent)) parent]> m)
  else None.

(** A descendant that had the new entry's parent becomes a child of the entry. *)
Definition adopt (parent : option Name) n (om : option (gmap Name RibEntry)) c : option (gmap Name RibEntry) :=
  m ← om;
  child ← m !! c;
  if bool_decide (re_parent child = parent) then
    m ← (match parent with Some p => removeChild p c m | None => Some m end);
    addChild n c m
  else Some m.

Definition faces_push (f : Z) n (fm : gmap Z (list Name)) : gmap Z (list Name) :=
  <[f := default [] (fm !! f) ++ [n]]> fm.

Definition rib_insert n r rib : option Rib :=
  match m_rib rib !! n with
  | Some entry =>
      let '(entry', didInsert) := insertRoute r entry in
      if didInsert then
        Some (mkRib (<[n := entry']> (m_rib rib)) (faces_push (r_faceId r) n (m_faceMap rib)) (m_nItems rib + 1)
                (rib_signals rib ++ [AfterAddRoute n r]) (rib_cancelled rib))
      else
        route ← findRoute r entry;
        let routes := update_first (has_key route_key (route_key r)) (fun _ => r) (re_routes entry) in
        Some (mkRib (<[n := set_routes routes (re_nRoutesWithCaptureSet entry) entry]> (m_rib rib))
                (m_faceMap rib) (m_nItems rib) (rib_signals rib)
                (rib_cancelled rib ++ option_list (r_expirationEvent route)))
  | None =>
      let m := <[n := (insertRoute r (newRibEntry n)).1]> (m_rib rib) in
      let parent := findParent n m in
      m ← (match parent with Some p => addChild p n m | None => Some m end);
      m ← foldl (adopt parent n) (Some m) (findDescendants n m);
      Some (mkRib m (faces_push (r_faceId r) n (m_faceMap rib)) (m_nItems rib + 1)
              (rib_signals rib ++ [AfterInsertEntry n; AfterAddRoute n r]) (rib_cancelled rib))
  end.

Definition orphan (parent : option Name) n (om : option (gmap Name RibEntry)) c : option (gmap Name RibEntry) :=
  m ← om;
  m ← removeChild n c m;
  match parent with Some p => addChild p c m | None => Some m end.

Definition eraseEntry n m : option (gmap Name RibEntry) :=
  entry ← m !! n;
  let parent := re_parent entry in
  m ← (match parent with Some p => removeChild p n m | None => Some m end);
  m ← foldl (orphan parent n) (Some m) (re_children entry);
  Some (delete n m).

Definition rib_erase n r rib : option Rib :=
  match m_rib rib !! n with
  | None => Some rib
  | Some entry =>
      match findRoute r entry with
      | None => Some rib
      | Some route =>
          let '(entry, cancelled) := eraseRoute r entry in
          let m := <[n := entry]> (m_rib rib) in
          let fm := m_faceMap rib in
          let fm := if negb (hasFaceId (r_faceId r) entry)
                    then <[r_faceId r := remove_if (fun k => bool_decide (k = n)) (default [] (fm !! r_faceId r))]> fm
                    else fm in
          let sig := rib_signals rib ++ [BeforeRemoveRoute n route] in
          let cnc := rib_cancelled rib ++ cancelled in
          if bool_decide (re_routes entry = []) then
            m ← eraseEntry n m;
            Some (mkRib m fm (m_nItems rib - 1) (sig ++ [AfterEraseEntry n]) cnc)
          else Some (mkRib m fm (m_nItems rib - 1) sig cnc)
      end
  end.

Definition findRoutesWithFaceId (f : Z) rib : option (list (Name * Route)) :=
  foldr (fun n acc => l ← acc; e ← m_rib rib !! n;
           Some ((pair n <$> filter (fun r => onFace f r = true) (re_routes e)) ++ l))
        (Some []) (default [] (m_faceMap rib !! f)).

(** ** Nearest ancestors *)

(** A proper prefix. *)
Definition sp (a n : Name) : Prop := a `prefix_of` n /\ a <> n.

#[global] Instance sp_dec a n : Decision (sp a n).
Proof. unfold sp. apply _. Defined.

Lemma sp_take a n : sp a n <-> exists j, (j < length n)%nat /\ a = take j n.
Proof.
  split.
  - intros [[k ->] Hne]. exists (length a). rewrite length_app. split.
    + destruct k; [by rewrite app_nil_r in Hne|simpl; lia].
    + by rewrite take_app_length.
  - intros (j & Hj & ->). split.
    + exists (drop j n). by rewrite take_drop.
    + intros Heq. apply (f_equal length) in Heq. rewrite length_take in Heq. lia.
Qed.

Lemma sp_trans a b n : sp a b -> b `prefix_of` n -> sp a n.
Proof.
  intros [Hab Hne] Hbn. split; [by trans b|]. intros ->. apply Hne. by apply (anti_symm prefix).
Qed.

Lemma sp_trans_l a b n : a `prefix_of` b -> sp b n -> sp a n.
Proof.
  intros Hab [Hbn Hne]. split; [by trans b|]. intros ->. apply Hne. by apply (anti_symm prefix).
Qed.

Lemma sp_irrefl n : ~ sp n n.
Proof. by intros [_ []]. Qed.

(** Two prefixes of a name are comparable. *)
Lemma sp_total a b n : a `prefix_of` n -> b `prefix_of` n -> a <> b -> sp a b \/ sp b a.
Proof. intros Ha Hb Hne. destruct (prefix_weak_total _ _ _ Ha Hb); [left|right]; by split. Qed.

(** [a] is the longest proper prefix of [n] that has an entry. *)
Definition nearest m n (o : option Name) : Prop :=
  match o with
  | Some a => is_Some (m !! a) /\ sp a n /\ forall b, is_Some (m !! b) -> sp b n -> b `prefix_of` a
  | None => forall b, is_Some (m !! b) -> ~ sp b n
  end.

Lemma nearest_unique m n o o' : nearest m n o -> nearest m n o' -> o = o'.
Proof.
  destruct o as [a|], o' as [b|]; simpl.
  - intros (A1 & A2 & A3) (B1 & B2 & B3). f_equal. by apply (anti_symm prefix); [apply B3|apply A3].
  - intros (A1 & A2 & _) HB. by destruct (HB a).
  - intros HA (B1 & B2 & _). by destruct (HA b).
  - done.
Qed.

Lemma findParent_nearest m n : nearest m n (findParent n m).
Proof.
  assert (forall k, (k <= length n)%nat -> match findParent_loop k n m with
    | Some a => is_Some (m !! a) /\ exists j, (j < k)%nat /\ a = take j n /\
                  forall i, (j < i < k)%nat -> m !! take i n = None
    | None => forall i, (i < k)%nat -> m !! take i n = None
    end) as Hloop.
  { induction k as [|k IH]; intros Hk; simpl; [lia|]. unfold getPrefix in *.
    destruct (m !! take k n) eqn:Ek.
    - split; [by eexists|]. exists k. split_and!; [lia|done|lia].
    - specialize (IH ltac:(lia)). destruct (findParent_loop k n m).
      + destruct IH as (Hs & j & Hj & -> & Hi). split; [done|]. exists j. split_and!; [lia|done|].
        intros i Hij. destruct (decide (i = k)) as [->|]; [done|]. apply Hi. lia.
      + intros i Hi. destruct (decide (i = k)) as [->|]; [done|]. apply IH. lia. }
  specialize (Hloop (length n) (Nat.le_refl _)). unfold findParent.
  destruct (findParent_loop _ _ _) as [a|]; simpl.
  - destruct Hloop as (Hs & j & Hj & -> & Hi). split_and!; [done|apply sp_take; by exists j|].
    intros b [eb Hb] (i & Hlt & ->)%sp_take. destruct (decide (j < i)%nat) as [Hji|Hji].
    + rewrite Hi in Hb by lia. done.
    + replace (take i n) with (take i (take j n)) by (rewrite take_take; f_equal; lia).
      exists (drop i (take j n)). by rewrite take_drop.
  - intros b [eb Hb] (i & Hlt & ->)%sp_take. by rewrite Hloop in Hb.
Qed.

Lemma findParent_eq m n o : nearest m n o -> findParent n m = o.
Proof. intros Ho. eapply nearest_unique; [apply findParent_nearest|done]. Qed.

Lemma findParent_dom m m' n : (forall k, is_Some (m !! k) <-> is_Some (m' !! k)) -> findParent n m' = findParent n m.
Proof.
  intros Hd. apply findParent_eq. pose proof (findParent_nearest m n) as Hn.
  destruct (findParent n m) as [a|]; simpl in *.
  - destruct Hn as (A1 & A2 & A3). split_and!; [by apply Hd|done|]. intros b Hb. apply A3. by apply Hd.
  - intros b Hb. apply Hn. by apply Hd.
Qed.

Lemma findParent_insert_new m x e n :
  m !! x = None ->
  findParent n (<[x := e]> m) =
    if decide (sp x n) then (if decide (findParent n m = findParent x m) then Some x else findParent n m)
    else findParent n m.
Proof.
  intros Hx. apply findParent_eq. pose proof (findParent_nearest m n) as Hn. pose proof (findParent_nearest m x) as Hnx.
  assert (forall b, is_Some (<[x := e]> m !! b) -> b = x \/ is_Some (m !! b)) as Hin.
  { intros b. rewrite lookup_insert_is_Some'. naive_solver. }
  assert (forall b, is_Some (m !! b) -> is_Some (<[x := e]> m !! b)) as Hin'.
  { intros b Hb. rewrite lookup_insert_is_Some'. by right. }
  case_decide as Hsp; [|].
  2:{ destruct (findParent n m) as [a|]; simpl in *.
      - destruct Hn as (A1 & A2 & A3). split_and!; [by apply Hin'|done|].
        intros b [->|Hb]%Hin Hbn; [done|by apply A3].
      - intros b [->|Hb]%Hin; [done|by apply Hn]. }
  case_decide as Heq.
  - rewrite Heq in Hn. simpl. split_and!; [rewrite lookup_insert_eq; by eexists|done|].
    intros b [->|Hb]%Hin Hbn; [done|]. destruct (findParent x m) as [a|]; simpl in *.
    + destruct Hn as (_ & _ & A3), Hnx as (_ & [A4 _] & _). trans a; [by apply A3|done].
    + by destruct (Hn b).
  - destruct (findParent n m) as [a|]; simpl in *.
    + destruct Hn as (A1 & A2 & A3). split_and!; [by apply Hin'|done|].
      intros b [->|Hb]%Hin Hbn; [|by apply A3].
      assert (a <> x) as Hax by (intros ->; destruct A1; congruence).
      destruct (sp_total a x n) as [Hs|[Hs _]]; [apply A2|apply Hsp|done| |done].
      exfalso. apply Heq. symmetry. apply (nearest_unique m x); [done|]. simpl. split_and!; [done|done|].
      intros b Hb Hbx. apply A3; [done|]. by eapply sp_trans; [|apply Hsp].
    + exfalso. apply Heq. symmetry. apply (nearest_unique m x); [done|]. simpl.
      intros b Hb Hbx. apply (Hn b Hb). by eapply sp_trans; [|apply Hsp].
Qed.

Lemma findParent_delete m x n :
  is_Some (m !! x) ->
  findParent n (delete x m) = if decide (findParent n m = Some x) then findParent x m else findParent n m.
Proof.
  intros Hx. apply findParent_eq. pose proof (findParent_nearest m n) as Hn. pose proof (findParent_nearest m x) as Hnx.
  assert (forall b, is_Some (delete x m !! b) <-> b <> x /\ is_Some (m !! b)) as Hin.
  { intros b. rewrite lookup_delete_is_Some. naive_solver. }
  case_decide as Heq.
  - rewrite Heq in Hn. simpl in Hn. destruct Hn as (_ & A2 & A3).
    destruct (findParent x m) as [a|]; simpl in *.
    + destruct Hnx as (B1 & B2 & B3). split_and!.
      * apply Hin. split; [|done]. intros ->. by apply sp_irrefl in B2.
      * eapply sp_trans; [done|apply A2].
      * intros b [Hb1 Hb2]%Hin Hbn. apply B3; [done|]. split; [by apply A3|done].
    + intros b [Hb1 Hb2]%Hin Hbn. apply (Hnx b Hb2). split; [by apply A3|done].
  - destruct (findParent n m) as [a|]; simpl in *.
    + destruct Hn as (A1 & A2 & A3). split_and!; [apply Hin; split; [congruence|done]|done|].
      intros b [_ Hb]%Hin. by apply A3.
    + intros b [_ Hb]%Hin. by apply Hn.
Qed.

(** ** Links between entries *)

Definition par m n : option Name := m !! n ≫= re_parent.

(** Parents and children agree. *)
Definition links_ok m : Prop :=
  (forall n e, m !! n = Some e -> re_name e = n /\ NoDup (re_children e) /\
     forall c, c ∈ re_children e <-> par m c = Some n) /\
  (forall c p, par m c = Some p -> is_Some (m !! p)).

(** All of an entry but its links. *)
Definition body e := (re_name e, re_routes e, re_inheritedRoutes e, re_nRoutesWithCaptureSet e).

Lemma body_dom m m' k : body <$> m' = body <$> m -> is_Some (m !! k) <-> is_Some (m' !! k).
Proof. intros Hb. apply (f_equal (lookup k)) in Hb. rewrite !lookup_fmap in Hb. destruct (m !! k), (m' !! k); naive_solver. Qed.

Lemma body_insert m k e e' : m !! k = Some e -> body e' = body e -> body <$> <[k := e']> m = body <$> m.
Proof. intros Hk Hb. rewrite fmap_insert, Hb. apply insert_id. by rewrite lookup_fmap, Hk. Qed.

Lemma par_insert m k e n : par (<[k := e]> m) n = if decide (n = k) then re_parent e else par m n.
Proof. unfold par. rewrite lookup_insert. repeat case_decide; congruence || done. Qed.

Lemma addChild_ok p c m :
  links_ok m -> is_Some (m !! c) -> is_Some (m !! p) -> p <> c -> par m c = None ->
  exists m', addChild p c m = Some m' /\ links_ok m' /\ body <$> m' = body <$> m /\
    forall n, par m' n = if decide (n = c) then Some p else par m n.
Proof.
  intros [Hl Hd] [ec Hc] [ep Hp] Hne Hpc. unfold addChild. rewrite Hc. cbn [mbind option_bind].
  assert (re_parent ec = None) as Hpar by (unfold par in Hpc; by rewrite Hc in Hpc). rewrite Hpar.
  rewrite lookup_insert_ne, Hp by done. cbn [mbind option_bind]. eexists. split; [done|].
  set (ec' := set_re_parent (Some p) ec). set (ep' := set_re_children _ ep).
  assert (forall n, par (<[p := ep']> (<[c := ec']> m)) n = if decide (n = c) then Some p else par m n) as Hpar'.
  { intros n. rewrite !par_insert. repeat case_decide; subst; try done. unfold par. by rewrite Hp. }
  split_and!; [split| |done].
  - intros n e Hn.
    assert (exists e0, m !! n = Some e0 /\ re_name e = re_name e0 /\
      re_children e = if decide (n = p) then re_children e0 ++ [c] else re_children e0) as (e0 & He0 & Hnm & Hch).
    { destruct (decide (n = p)) as [->|Hnp].
      - rewrite lookup_insert_eq in Hn. simplify_eq. by exists ep.
      - rewrite lookup_insert_ne in Hn by done. destruct (decide (n = c)) as [->|Hnc].
        + rewrite lookup_insert_eq in Hn. simplify_eq. by exists ec.
        + rewrite lookup_insert_ne in Hn by done. by exists e. }
    destruct (Hl n e0 He0) as (A1 & A2 & A3). rewrite Hnm, Hch. split; [done|].
    assert (c ∉ re_children e0) as Hcn by (rewrite A3, Hpc; done).
    split.
    + case_decide; [|done]. apply NoDup_app. split_and!; [done| |apply NoDup_singleton].
      intros x Hx ->%list_elem_of_singleton. done.
    + intros x. rewrite Hpar'. case_decide as Hnp.
      * subst n. rewrite elem_of_app, list_elem_of_singleton, A3. case_decide; naive_solver.
      * rewrite A3. case_decide; [subst x; rewrite Hpc; naive_solver|done].
  - intros x y. rewrite Hpar'. assert (forall k, is_Some (m !! k) -> is_Some (<[p := ep']> (<[c := ec']> m) !! k)) as Hk.
    { intros k Hk. rewrite !lookup_insert_is_Some'. auto. }
    case_decide; [intros [= <-]; apply Hk; by eexists|]. intros Hxy. apply Hk. by eapply Hd.
  - rewrite (body_insert _ p ep); [|by rewrite lookup_insert_ne|done]. by apply (body_insert m c ec).
Qed.

Lemma removeChild_ok p c m :
  links_ok m -> p <> c -> par m c = Some p ->
  exists m', removeChild p c m = Some m' /\ links_ok m' /\ body <$> m' = body <$> m /\
    forall n, par m' n = if decide (n = c) then None else par m n.
Proof.
  intros [Hl Hd] Hne Hpc. destruct (Hd c p Hpc) as [ep Hp]. unfold removeChild.
  unfold par in Hpc. destruct (m !! c) as [ec|] eqn:Hc; [|done]. simpl in Hpc. cbn [mbind option_bind].
  rewrite bool_decide_eq_true_2 by done. rewrite lookup_insert_ne, Hp by done. cbn [mbind option_bind].
  eexists. split; [done|]. set (ec' := set_re_parent None ec). set (ep' := set_re_children _ ep).
  assert (forall n, par (<[p := ep']> (<[c := ec']> m)) n = if decide (n = c) then None else par m n) as Hpar'.
  { intros n. rewrite !par_insert. repeat case_decide; subst; try done. unfold par. by rewrite Hp. }
  split_and!; [split| |done].
  - intros n e Hn.
    assert (exists e0, m !! n = Some e0 /\ re_name e = re_name e0 /\
      re_children e = if decide (n = p) then remove_if (fun k => bool_decide (k = c)) (re_children e0) else re_children e0)
      as (e0 & He0 & Hnm & Hch).
    { destruct (decide (n = p)) as [->|Hnp].
      - rewrite lookup_insert_eq in Hn. simplify_eq. by exists ep.
      - rewrite lookup_insert_ne in Hn by done. destruct (decide (n = c)) as [->|Hnc].
        + rewrite lookup_insert_eq in Hn. simplify_eq. by exists ec.
        + rewrite lookup_insert_ne in Hn by done. by exists e. }
    destruct (Hl n e0 He0) as (A1 & A2 & A3). rewrite Hnm, Hch. split; [done|]. split.
    + case_decide; [|done]. eapply sublist_NoDup; [done|apply remove_if_sublist].
    + intros x. rewrite Hpar'. case_decide as Hnp.
      * subst n. rewrite elem_of_remove_if, A3, bool_decide_eq_false. case_decide; naive_solver.
      * rewrite A3. case_decide; [|done]. subst x. unfold par. rewrite Hc. simpl. rewrite Hpc. naive_solver.
  - intros x y. rewrite Hpar'. case_decide; [done|]. intros Hxy. rewrite !lookup_insert_is_Some'. right. right. by eapply Hd.
  - rewrite (body_insert _ p ep); [|by rewrite lookup_insert_ne|done]. by apply (body_insert m c ec).
Qed.

(** The loop of [insert] over the descendants of the new entry [n]. *)
Lemma adopt_loop parent n ds : forall m,
  links_ok m -> is_Some (m !! n) -> NoDup ds -> (forall p, parent = Some p -> p ∉ ds) -> n ∉ ds ->
  (forall d, d ∈ ds -> is_Some (m !! d)) ->
  exists m', foldl (adopt parent n) (Some m) ds = Some m' /\ links_ok m' /\ body <$> m' = body <$> m /\
    forall k, par m' k = if decide (k ∈ ds /\ par m k = parent) then Some n else par m k.
Proof.
  induction ds as [|d ds IH]; intros m Hl Hn Hnd Hpd Hnn Hds.
  { exists m. split_and!; [done..|]. intros k. rewrite decide_False by (intros [?%not_elem_of_nil _]; done). done. }
  apply NoDup_cons in Hnd as [Hd Hnd]. apply not_elem_of_cons in Hnn as [Hnd' Hnn]. cbn [foldl].
  assert (exists m1, adopt parent n (Some m) d = Some m1 /\ links_ok m1 /\ body <$> m1 = body <$> m /\
    forall k, par m1 k = if decide (k = d /\ par m k = parent) then Some n else par m k) as (m1 & -> & Hl1 & Hb1 & Hp1).
  { destruct (Hds d) as [ed Hed]; [by left|]. unfold adopt. cbn [mbind option_bind]. rewrite Hed. cbn [mbind option_bind].
    assert (par m d = re_parent ed) as Hpe by (unfold par; by rewrite Hed).
    destruct (bool_decide (re_parent ed = parent)) eqn:Eb; breflect; cycle 1.
    { exists m. split_and!; [done..|]. intros k. rewrite decide_False; [done|]. intros [-> ?]. congruence. }
    destruct parent as [p|].
    - destruct (removeChild_ok p d m Hl) as (m0 & -> & Hl0 & Hb0 & Hp0); [intros ->; by eapply Hpd; [done|left]|congruence|].
      cbn [mbind option_bind].
      destruct (addChild_ok n d m0 Hl0) as (m1 & -> & Hl1 & Hb1 & Hp1).
      + apply (body_dom m m0); [done|by eexists].
      + by apply (body_dom m m0).
      + done.
      + by rewrite Hp0, decide_True.
      + exists m1. split_and!; [done|done|congruence|]. intros k. rewrite Hp1, Hp0. repeat case_decide; naive_solver congruence.
    - cbn [mbind option_bind]. destruct (addChild_ok n d m Hl) as (m1 & -> & Hl1 & Hb1 & Hp1); [by eexists|done|done|congruence|].
      exists m1. split_and!; [done|done|done|]. intros k. rewrite Hp1. repeat case_decide; naive_solver congruence. }
  destruct (IH m1 Hl1) as (m2 & -> & Hl2 & Hb2 & Hp2).
  - by apply (body_dom m m1).
  - done.
  - intros p Hp Hin. eapply Hpd; [done|by right].
  - done.
  - intros x Hx. apply (body_dom m m1); [done|]. apply Hds. by right.
  - exists m2. split_and!; [done|done|congruence|]. intros k. rewrite Hp2, !Hp1. pose proof (elem_of_cons ds k d).
    repeat case_decide; naive_solver congruence.
Qed.

(** Every entry's parent is its nearest ancestor. *)
Definition tree m : Prop := forall k, is_Some (m !! k) -> par m k = findParent k m.

Lemma par_dom m k p : par m k = Some p -> is_Some (m !! k).
Proof. unfold par. destruct (m !! k); [by eexists|done]. Qed.

Lemma par_sp m k p : tree m -> par m k = Some p -> sp p k.
Proof.
  intros Ht Hp. pose proof (findParent_nearest m k) as Hn. rewrite <-Ht, Hp in Hn by (by eapply par_dom).
  by destruct Hn as (_ & ? & _).
Qed.

Lemma orphan_loop parent n cs : forall m,
  links_ok m -> NoDup cs -> n ∉ cs -> (forall p, parent = Some p -> p ∉ cs /\ is_Some (m !! p)) ->
  (forall c, c ∈ cs -> par m c = Some n) ->
  exists m', foldl (orphan parent n) (Some m) cs = Some m' /\ links_ok m' /\ body <$> m' = body <$> m /\
    forall k, par m' k = if decide (k ∈ cs) then parent else par m k.
Proof.
  induction cs as [|c cs IH]; intros m Hl Hnd Hn Hpar Hcs; [by exists m|].
  apply NoDup_cons in Hnd as [Hc Hnd]. apply not_elem_of_cons in Hn as [Hnc Hn]. cbn [foldl].
  unfold orphan at 2. cbn [mbind option_bind].
  destruct (removeChild_ok n c m Hl Hnc) as (m0 & -> & Hl0 & Hb0 & Hp0); [apply Hcs; by left|]. cbn [mbind option_bind].
  assert (exists m1, match parent with Some p => addChild p c m0 | None => Some m0 end = Some m1 /\ links_ok m1 /\
    body <$> m1 = body <$> m /\ forall k, par m1 k = if decide (k = c) then parent else par m k)
    as (m1 & -> & Hl1 & Hb1 & Hp1).
  { destruct parent as [p|]; [|by exists m0]. destruct (Hpar p eq_refl) as [Hpc Hps].
    destruct (addChild_ok p c m0 Hl0) as (m1 & -> & Hl1 & Hb1 & Hp1).
    - apply (body_dom m m0); [done|]. eapply par_dom. apply Hcs. by left.
    - by apply (body_dom m m0).
    - intros ->. apply Hpc. by left.
    - by rewrite Hp0, decide_True.
    - exists m1. split_and!; [done|done|congruence|]. intros k. rewrite Hp1, Hp0. by repeat case_decide. }
  destruct (IH m1 Hl1 Hnd Hn) as (m2 & -> & Hl2 & Hb2 & Hp2).
  - intros p Hp. destruct (Hpar p Hp) as [Hpc Hps]. apply not_elem_of_cons in Hpc as [_ Hpc]. split; [done|].
    by apply (body_dom m m1).
  - intros x Hx. rewrite Hp1, decide_False by (intros ->; done). apply Hcs. by right.
  - exists m2. split_and!; [done|done|congruence|]. intros k. rewrite Hp2, Hp1.
    pose proof (elem_of_cons cs k c). repeat case_decide; naive_solver.
Qed.

Lemma par_delete m n k : par (delete n m) k = if decide (k = n) then None else par m k.
Proof. unfold par. rewrite lookup_delete. repeat case_decide; congruence || done. Qed.

Lemma eraseEntry_ok n m e :
  links_ok m -> tree m -> m !! n = Some e ->
  exists m', eraseEntry n m = Some m' /\ links_ok m' /\ body <$> m' = delete n (body <$> m) /\
    forall k, k <> n -> par m' k = if decide (par m k = Some n) then par m n else par m k.
Proof.
  intros Hl Ht Hn. pose proof Hl as [Hc Hd]. destruct (Hc n e Hn) as (_ & Hnd & Hch).
  assert (par m n = re_parent e) as Hpn by (unfold par; by rewrite Hn).
  unfold eraseEntry. rewrite Hn. cbn [mbind option_bind]. rewrite <-Hpn.
  assert (exists m1, match par m n with Some p => removeChild p n m | None => Some m end = Some m1 /\ links_ok m1 /\
    body <$> m1 = body <$> m /\ forall k, par m1 k = if decide (k = n) then None else par m k)
    as (m1 & -> & Hl1 & Hb1 & Hp1).
  { destruct (par m n) as [p|] eqn:Ep.
    - apply removeChild_ok; [done| |done]. intros ->. by apply par_sp, sp_irrefl in Ep.
    - exists m. split_and!; [done..|]. intros k. by case_decide; subst. }
  cbn [mbind option_bind].
  assert (forall p, par m n = Some p -> par m p <> Some n) as Hcyc.
  { intros p Hp%par_sp Hpp%par_sp; [|done..]. destruct Hp as [Hp1' Hp2'], Hpp as [Hp3 _].
    by apply Hp2', (anti_symm prefix). }
  assert (n ∉ re_children e) as Hnn by (rewrite Hch; intros Hx%par_sp; [by apply sp_irrefl in Hx|done]).
  destruct (orphan_loop (par m n) n (re_children e) m1 Hl1 Hnd Hnn) as (m2 & -> & Hl2 & Hb2 & Hp2).
  - intros p Hp. split; [rewrite Hch; by apply Hcyc|]. apply (body_dom m m1); [done|]. by eapply Hd.
  - intros c Hcc. rewrite Hp1, decide_False by (intros ->; done). by apply Hch.
  - cbn [mbind option_bind]. eexists. split; [done|].
    assert (forall k, par m2 k = if decide (par m k = Some n) then par m n
                                 else if decide (k = n) then None else par m k) as Hp3.
    { intros k. rewrite Hp2, Hp1. pose proof (Hch k) as Hk. repeat case_decide; naive_solver. }
    assert (forall k, par m2 k <> Some n) as Hno.
    { intros k. rewrite Hp3. repeat case_decide; [|done|done].
      intros Hx%par_sp; [by apply sp_irrefl in Hx|done]. }
    split_and!.
    + destruct Hl2 as [Hc2 Hd2]. split.
      * intros k ek [Hkn Hk]%lookup_delete_Some. destruct (Hc2 k ek Hk) as (A1 & A2 & A3). split_and!; [done|done|].
        intros c. rewrite A3, par_delete. case_decide; [subst c|done]. rewrite Hp3.
        repeat case_decide; try done. intuition congruence.
      * intros c p. rewrite par_delete. case_decide; [done|]. intros Hcp. rewrite lookup_delete_is_Some.
        split; [intros <-; by destruct (Hno c)|by eapply Hd2].
    + by rewrite fmap_delete, Hb2, Hb1.
    + intros k Hk. rewrite par_delete, decide_False, Hp3 by done. by rewrite (decide_False (P := k = n)).
Qed.

(** ** Descendants in the order of names *)

#[local] Instance name_le_trans : Transitive name_le.
Proof.
  intros a b c Hab Hbc. unfold name_le in *. destruct (name_compare a b) eqn:E1; [|clear Hab|done].
  - by apply name_compare_eq in E1 as ->.
  - destruct (name_compare b c) eqn:E2; [|clear Hbc|done].
    + apply name_compare_eq in E2 as ->. by rewrite E1.
    + by rewrite (name_compare_trans a b c).
Qed.

#[local] Instance name_le_total : Total name_le.
Proof.
  intros a b. unfold name_le. rewrite (name_compare_antisym a b). destruct (name_compare a b); simpl; [left|left|right]; done.
Qed.

Lemma name_le_antisym a b : name_le a b -> name_le b a -> a = b.
Proof.
  unfold name_le. rewrite (name_compare_antisym a b). destruct (name_compare a b) eqn:E0; simpl; [|done|done].
  by apply name_compare_eq in E0.
Qed.

(** What is under a prefix is contiguous. *)
Lemma prefix_convex n : forall x y, name_le n x -> name_le x y -> n `prefix_of` y -> n `prefix_of` x.
Proof.
  unfold name_le. induction n as [|a n IH]; intros x y Hnx Hxy Hp; [apply prefix_nil|].
  destruct Hp as [t ->]. destruct x as [|b x]; [done|]. simpl in *.
  destruct (comp_compare a b) eqn:Eab.
  - apply comp_compare_eq in Eab as <-. rewrite comp_compare_refl in Hxy. apply prefix_cons.
    apply (IH x (n ++ t)); [done|done|by exists t].
  - rewrite comp_compare_antisym, Eab in Hxy. done.
  - done.
Qed.

Lemma sortedNames_spec m :
  StronglySorted name_le (sortedNames m) /\ NoDup (sortedNames m) /\
  forall k, k ∈ sortedNames m <-> is_Some (m !! k).
Proof.
  unfold sortedNames. split_and!.
  - apply Sorted_StronglySorted; [apply _|]. apply Sorted_merge_sort, _.
  - rewrite merge_sort_Permutation. apply NoDup_fst_map_to_list.
  - intros k. rewrite merge_sort_Permutation, list_elem_of_fmap. split.
    + intros ([k' e] & -> & Hk%elem_of_map_to_list). by eexists.
    + intros [e He]. exists (k, e). split; [done|]. by apply elem_of_map_to_list.
Qed.

Lemma take_while_filter {A} (t : A -> bool) (R : A -> A -> Prop) l :
  StronglySorted R l -> (forall x y, R x y -> t y = true -> t x = true) -> take_while t l = filter (fun x => t x = true) l.
Proof.
  intros Hs Ht.
  assert (forall l, Forall (fun y => t y = false) l -> filter (fun x => t x = true) l = []) as Hnone.
  { induction 1 as [|y l' Hy _ IH]; [done|]. rewrite filter_cons, decide_False by congruence. done. }
  induction Hs as [|x l Hs IH Hx]; [done|]. simpl. rewrite filter_cons.
  destruct (t x) eqn:Ex; [rewrite decide_True by done; by rewrite IH|]. rewrite decide_False by done.
  symmetry. apply Hnone. eapply Forall_impl; [done|]. intros y Hxy. destruct (t y) eqn:Ey; [|done].
  by rewrite (Ht x y Hxy Ey) in Ex.
Qed.

Lemma after_spec n l : StronglySorted name_le l -> NoDup l -> n ∈ l ->
  StronglySorted name_le (after n l) /\ NoDup (after n l) /\
  (forall k, k ∈ after n l <-> k ∈ l /\ k <> n /\ name_le n k).
Proof.
  intros Hs Hnd Hn. induction Hs as [|x l Hs IH Hx]; [by apply not_elem_of_nil in Hn|].
  apply NoDup_cons in Hnd as [Hxl Hnd]. rewrite Forall_forall in Hx. simpl. case_decide as Hxn.
  - subst x. split_and!; [done|done|]. intros k. rewrite elem_of_cons. split.
    + intros Hk. split_and!; [by right|intros ->; done|by apply Hx].
    + intros ([->|Hk] & Hne & _); [done|done].
  - apply elem_of_cons in Hn as [->|Hn]; [done|]. destruct (IH Hnd Hn) as (A1 & A2 & A3). split_and!; [done|done|].
    intros k. rewrite A3, elem_of_cons. split; [naive_solver|].
    intros ([->|Hk] & Hne & Hle); [|done]. destruct Hxn. apply name_le_antisym; [by apply Hx|done].
Qed.

Lemma findDescendants_spec n m :
  is_Some (m !! n) -> NoDup (findDescendants n m) /\
  forall k, k ∈ findDescendants n m <-> is_Some (m !! k) /\ sp n k.
Proof.
  intros [e Hn]. unfold findDescendants. rewrite Hn. destruct (sortedNames_spec m) as (Hs & Hnd & Hin).
  destruct (after_spec n (sortedNames m) Hs Hnd) as (A1 & A2 & A3); [apply Hin; by eexists|].
  assert (take_while (isPrefixOf n) (after n (sortedNames m)) =
          filter (fun k => isPrefixOf n k = true) (after n (sortedNames m))) as ->.
  { assert (forall l, StronglySorted name_le l -> (forall k, k ∈ l -> name_le n k) ->
      StronglySorted (fun x y => name_le n x /\ name_le x y) l) as Hstr.
    { intros l Hl. induction Hl as [|x l Hl IH Hx]; intros Hk; constructor.
      - apply IH. intros k Hkl. apply Hk. by right.
      - eapply Forall_impl; [done|]. intros y Hy. split; [apply Hk; by left|done]. }
    eapply take_while_filter; [apply Hstr; [done|]; intros k Hk; by apply A3 in Hk as (_ & _ & ?)|].
    intros x y [Hnx Hxy] Hp%isPrefixOf_true. apply isPrefixOf_true. by eapply prefix_convex. }
  split; [by apply NoDup_filter|]. intros k. rewrite list_elem_of_filter, A3, Hin, isPrefixOf_true. unfold sp, name_le. split.
  - intros (Hp & Hk & Hne & _). done.
  - intros (Hk & Hp & Hne). split_and!; [done|done|done|]. by apply name_compare_prefix.
Qed.

Lemma findDescendantsForNonInsertedName_spec n m k :
  k ∈ findDescendantsForNonInsertedName n m <-> is_Some (m !! k) /\ n `prefix_of` k.
Proof.
  unfold findDescendantsForNonInsertedName. destruct (sortedNames_spec m) as (_ & _ & Hin).
  rewrite list_elem_of_filter, Hin, isPrefixOf_true. tauto.
Qed.

(** ** The RIB as a map from prefixes to routes *)

Notation RouteMap := (gmap Name (list Route)).

Definition abs_insert n r (a : RouteMap) : RouteMap :=
  match a !! n with
  | None => <[n := [r]]> a
  | Some l =>
      match find_if (has_key route_key (route_key r)) l with
      | None => <[n := l ++ [r]]> a
      | Some _ => <[n := update_first (has_key route_key (route_key r)) (fun _ => r) l]> a
      end
  end.

Definition abs_erase n r (a : RouteMap) : RouteMap :=
  match a !! n with
  | None => a
  | Some l => match erase_first (has_key route_key (route_key r)) l with [] => delete n a | l' => <[n := l']> a end
  end.

Definition total (a : RouteMap) : nat := map_fold (fun _ l k => length l + k)%nat 0%nat a.

Lemma total_new n (l : list Route) (a : RouteMap) : a !! n = None -> total (<[n := l]> a) = (length l + total a)%nat.
Proof. intros Hn. unfold total. rewrite map_fold_insert_L; [done| |done]. intros. lia. Qed.

Lemma total_delete n (l : list Route) (a : RouteMap) : a !! n = Some l -> total a = (length l + total (delete n a))%nat.
Proof. intros Hn. rewrite <-(insert_delete_id a n l Hn) at 1. apply total_new, lookup_delete_eq. Qed.

Lemma total_update n (l l' : list Route) (a : RouteMap) :
  a !! n = Some l -> (total (<[n := l']> a) + length l = length l' + total a)%nat.
Proof.
  intros Hn. rewrite <-insert_delete_eq, total_new by apply lookup_delete_eq. rewrite (total_delete n l a Hn). lia.
Qed.

(** Well-formed RIBs. *)
Definition rib_ok rib : Prop :=
  let m := m_rib rib in
  links_ok m /\ tree m /\
  (forall n e, m !! n = Some e -> re_routes e <> [] /\ uniq_keys route_key (re_routes e)) /\
  (forall f n, n ∈ default [] (m_faceMap rib !! f) <-> exists e, m !! n = Some e /\ hasFaceId f e = true) /\
  m_nItems rib = Z.of_nat (total (re_routes <$> m)).

(** A change of the contents of an entry. *)
Lemma links_update m n e e' :
  links_ok m -> m !! n = Some e -> re_name e' = re_name e -> re_children e' = re_children e ->
  re_parent e' = re_parent e -> links_ok (<[n := e']> m) /\ forall k, par (<[n := e']> m) k = par m k.
Proof.
  intros [Hl Hd] Hn Hnm Hc Hp.
  assert (forall k, par (<[n := e']> m) k = par m k) as Hpar.
  { intros k. rewrite par_insert. case_decide; [|done]. subst k. unfold par. by rewrite Hn, Hp. }
  split; [split|done].
  - intros k ek Hk. assert (exists e0, m !! k = Some e0 /\ re_name ek = re_name e0 /\ re_children ek = re_children e0)
      as (e0 & He0 & Hnm0 & Hc0).
    { apply lookup_insert_Some in Hk as [[<- <-]|[_ Hk]]; eauto. }
    destruct (Hl k e0 He0) as (A1 & A2 & A3). rewrite Hnm0, Hc0. split_and!; [done|done|].
    intros c. by rewrite Hpar.
  - intros c p. rewrite Hpar. intros Hcp. apply lookup_insert_is_Some'. right. by eapply Hd.
Qed.

Lemma tree_update m n e e' : tree m -> m !! n = Some e -> (forall k, par (<[n := e']> m) k = par m k) -> tree (<[n := e']> m).
Proof.
  intros Ht Hn Hp k Hk. rewrite Hp, (findParent_dom m).
  - apply Ht. apply lookup_insert_is_Some' in Hk as [->|Hk]; [by eexists|done].
  - intros j. rewrite lookup_insert_is_Some'. split; [auto|]. intros [->|?]; [by eexists|done].
Qed.

Lemma hasFaceId_true f e : hasFaceId f e = true <-> exists r, r ∈ re_routes e /\ r_faceId r = f.
Proof.
  unfold hasFaceId. rewrite existsb_exists. unfold onFace. setoid_rewrite Z.eqb_eq. setoid_rewrite list_elem_of_In. done.
Qed.

Lemma faces_push_elem f n fm g k :
  k ∈ default [] (faces_push f n fm !! g) <-> k ∈ default [] (fm !! g) \/ (g = f /\ k = n).
Proof.
  unfold faces_push. rewrite lookup_insert. case_decide; [subst g; simpl; rewrite elem_of_app, list_elem_of_singleton|];
    naive_solver.
Qed.

Lemma uniq_snoc r l : uniq_keys route_key l -> find_if (has_key route_key (route_key r)) l = None -> uniq_keys route_key (l ++ [r]).
Proof.
  unfold uniq_keys. intros Hu Hn%find_key_None. rewrite fmap_app. apply NoDup_app. split_and!; [done| |apply NoDup_singleton].
  intros x Hx ->%list_elem_of_singleton. done.
Qed.

(** [insert] at a prefix that has an entry. *)
Lemma insert_existing n r rib e :
  rib_ok rib -> m_rib rib !! n = Some e ->
  exists rib', rib_insert n r rib = Some rib' /\ rib_ok rib' /\
    re_routes <$> m_rib rib' = abs_insert n r (re_routes <$> m_rib rib).
Proof.
  intros (Hl & Ht & Hr & Hf & Hc) Hn. unfold rib_insert, insertRoute, abs_insert. rewrite Hn, lookup_fmap, Hn. simpl.
  fold (findRoute r e). destruct (Hr n e Hn) as [Hne Hu].
  destruct (findRoute r e) as [r0|] eqn:Er.
  - cbn [mbind option_bind]. eexists. split; [done|]. set (l' := update_first _ _ (re_routes e)).
    set (e' := set_routes l' _ e). destruct (links_update _ n e e' Hl Hn) as [Hl' Hp']; [done..|].
    pose proof (tree_update _ n e e' Ht Hn Hp') as Ht'. split; [|simpl; by rewrite fmap_insert].
    assert (forall f, hasFaceId f e' = hasFaceId f e) as Hhf.
    { intros f. apply eq_true_iff_eq. rewrite !hasFaceId_true. simpl.
      assert (r_faceId <$> l' = r_faceId <$> re_routes e) as Hkeys.
      { apply update_first_keys. intros x _ Ex. apply bool_decide_eq_true in Ex. unfold route_key in Ex. by injection Ex. }
      transitivity (f ∈ r_faceId <$> l'); [rewrite list_elem_of_fmap; naive_solver|]. rewrite Hkeys, list_elem_of_fmap. naive_solver. }
    split_and!; simpl; [done|done| | |].
    + intros k ek [[<- <-]|[_ Hk]]%lookup_insert_Some; [|by eapply Hr]. split.
      * intros Hnil. apply (f_equal length) in Hnil. simpl in Hnil. unfold l' in Hnil.
        rewrite length_update_first in Hnil. by destruct (re_routes e).
      * apply uniq_update_first; [|done]. intros x _ Hx. by apply bool_decide_eq_true in Hx.
    + intros f k. rewrite Hf. setoid_rewrite lookup_insert_Some. split.
      * intros (e0 & He0 & Hh). destruct (decide (k = n)) as [->|Hkn]; [|exists e0; naive_solver].
        simplify_eq. exists e'. rewrite Hhf. naive_solver.
      * intros (e0 & [[<- <-]|[_ He0]] & Hh); [|by exists e0]. exists e. by rewrite <-Hhf.
    + rewrite fmap_insert, Hc. simpl. f_equal.
      pose proof (total_update n (re_routes e) l' (re_routes <$> m_rib rib)) as Htot.
      rewrite lookup_fmap, Hn in Htot. specialize (Htot eq_refl). unfold l' in *. rewrite length_update_first in Htot. lia.
  - eexists. split; [done|]. set (e' := set_routes _ _ e).
    destruct (links_update _ n e e' Hl Hn) as [Hl' Hp']; [done..|].
    pose proof (tree_update _ n e e' Ht Hn Hp') as Ht'. split; [|simpl; by rewrite fmap_insert].
    split_and!; simpl; [done|done| | |].
    + intros k ek [[<- <-]|[_ Hk]]%lookup_insert_Some; [|by eapply Hr]. simpl. split; [by destruct (re_routes e)|by apply uniq_snoc].
    + intros f k. rewrite faces_push_elem, Hf. setoid_rewrite lookup_insert_Some.
      assert (hasFaceId f e' = true <-> hasFaceId f e = true \/ f = r_faceId r) as Hhf.
      { rewrite !hasFaceId_true. simpl. setoid_rewrite elem_of_app. setoid_rewrite list_elem_of_singleton. naive_solver. }
      split.
      * intros [(e0 & He0 & Hh)|[-> ->]]; [|exists e'; naive_solver].
        destruct (decide (k = n)) as [->|Hkn]; [|exists e0; naive_solver]. simplify_eq. exists e'. naive_solver.
      * intros (e0 & [[<- <-]|[_ He0]] & Hh); [|left; by exists e0]. apply Hhf in Hh as [?| ->]; [left; by exists e|by right].
    + rewrite fmap_insert, Hc. simpl.
      pose proof (total_update n (re_routes e) (re_routes e ++ [r]) (re_routes <$> m_rib rib)) as Htot.
      rewrite lookup_fmap, Hn in Htot. specialize (Htot eq_refl). rewrite length_app in Htot. simpl in Htot. lia.
Qed.

Lemma links_new m n e : links_ok m -> m !! n = None -> (forall k, par m k <> Some n) ->
  re_name e = n -> re_children e = [] -> re_parent e = None ->
  links_ok (<[n := e]> m) /\ forall k, par (<[n := e]> m) k = par m k.
Proof.
  intros [Hl Hd] Hn Hno Hnm Hc Hp.
  assert (forall k, par (<[n := e]> m) k = par m k) as Hpar.
  { intros k. rewrite par_insert. case_decide; [|done]. subst k. unfold par. by rewrite Hn, Hp. }
  split; [split|done].
  - intros k ek [[<- <-]|[Hne Hk]]%lookup_insert_Some.
    + rewrite Hc. split_and!; [done|apply NoDup_nil_2|]. intros c. rewrite Hpar. split; [by intros ?%not_elem_of_nil|].
      intros Hx. by destruct (Hno c).
    + destruct (Hl k ek Hk) as (A1 & A2 & A3). split_and!; [done|done|]. intros c. by rewrite Hpar.
  - intros c p. rewrite Hpar. intros Hcp. apply lookup_insert_is_Some'. right. by eapply Hd.
Qed.

Lemma routes_of_body m m' : body <$> m' = body <$> m -> re_routes <$> m' = re_routes <$> m.
Proof.
  intros Hb. apply map_eq. intros k. apply (f_equal (lookup k)) in Hb. rewrite !lookup_fmap in *.
  destruct (m !! k), (m' !! k); simpl in *; try done. unfold body in Hb. by injection Hb as _ -> _ _.
Qed.

(** The contents of a RIB, without its links. *)
Definition contents_ok m (fm : gmap Z (list Name)) (items : Z) : Prop :=
  (forall n e, m !! n = Some e -> re_routes e <> [] /\ uniq_keys route_key (re_routes e)) /\
  (forall f n, n ∈ default [] (fm !! f) <-> exists e, m !! n = Some e /\ hasFaceId f e = true) /\
  items = Z.of_nat (total (re_routes <$> m)).

Lemma rib_ok_relink rib m : contents_ok m (m_faceMap rib) (m_nItems rib) ->
  links_ok (m_rib rib) -> tree (m_rib rib) -> body <$> m_rib rib = body <$> m -> rib_ok rib.
Proof.
  intros (Hr & Hf & Hc) Hl Ht Hb.
  assert (forall n e, m_rib rib !! n = Some e -> exists e0, m !! n = Some e0 /\ re_routes e0 = re_routes e) as Hto.
  { intros n e Hn. apply (f_equal (lookup n)) in Hb. rewrite !lookup_fmap, Hn in Hb.
    destruct (m !! n) as [e0|]; [|done]. exists e0. split; [done|]. unfold body in Hb. simpl in Hb. by injection Hb as _ -> _ _. }
  assert (forall n e, m !! n = Some e -> exists e0, m_rib rib !! n = Some e0 /\ re_routes e0 = re_routes e) as Hfrom.
  { intros n e Hn. apply (f_equal (lookup n)) in Hb. rewrite !lookup_fmap, Hn in Hb.
    destruct (m_rib rib !! n) as [e0|]; [|done]. exists e0. split; [done|]. unfold body in Hb. simpl in Hb. by injection Hb as _ -> _ _. }
  split_and!; simpl; [done|done| | |by rewrite (routes_of_body _ _ Hb)].
  - intros n e (e0 & He0 & <-)%Hto. by apply (Hr n).
  - intros f n. rewrite Hf. unfold hasFaceId. split.
    + intros (e & He & Hh). destruct (Hfrom n e He) as (e0 & He0 & Heq). exists e0. by rewrite Heq.
    + intros (e & He & Hh). destruct (Hto n e He) as (e0 & He0 & Heq). exists e0. by rewrite Heq.
Qed.

Lemma no_child m n : links_ok m -> m !! n = None -> forall k, par m k <> Some n.
Proof. intros [_ Hd] Hn k Hk%Hd. destruct Hk. congruence. Qed.

(** The links of a new entry and of those around it. *)
Lemma link_new m n e :
  links_ok m -> tree m -> m !! n = None -> re_name e = n -> re_children e = [] -> re_parent e = None ->
  let m1 := <[n := e]> m in
  exists m2 m3, match findParent n m1 with Some p => addChild p n m1 | None => Some m1 end = Some m2 /\
    foldl (adopt (findParent n m1) n) (Some m2) (findDescendants n m2) = Some m3 /\
    links_ok m3 /\ tree m3 /\ body <$> m3 = body <$> m1.
Proof.
  intros Hl Ht Hn Hnm Hc Hp m1. destruct (links_new m n e Hl Hn (no_child m n Hl Hn) Hnm Hc Hp) as [Hl1 Hp1]. fold m1 in Hl1, Hp1.
  assert (findParent n m1 = findParent n m) as Hfp.
  { unfold m1. rewrite findParent_insert_new by done. rewrite decide_False; [done|apply sp_irrefl]. }
  pose proof (findParent_nearest m n) as Hnear. rewrite <-Hfp in Hnear. set (parent := findParent n m1) in *.
  assert (par m1 n = None) as Hpn by (rewrite Hp1; unfold par; by rewrite Hn).
  assert (is_Some (m1 !! n)) as Hn1 by (unfold m1; rewrite lookup_insert_eq; by eexists).
  assert (exists m2, match parent with Some p => addChild p n m1 | None => Some m1 end = Some m2 /\ links_ok m2 /\
    body <$> m2 = body <$> m1 /\ forall k, par m2 k = if decide (k = n) then parent else par m1 k)
    as (m2 & He2 & Hl2 & Hb2 & Hp2).
  { destruct parent as [p|].
    - destruct Hnear as (A1 & A2 & _). apply addChild_ok; [done|done| |by intros ->; apply sp_irrefl in A2|done].
      unfold m1. apply lookup_insert_is_Some'. by right.
    - exists m1. split_and!; [done..|]. intros k. case_decide; [by subst|done]. }
  assert (is_Some (m2 !! n)) as Hn2 by (by apply (body_dom m1 m2)).
  destruct (findDescendants_spec n m2 Hn2) as [Hnd Hds].
  destruct (adopt_loop parent n (findDescendants n m2) m2 Hl2 Hn2 Hnd) as (m3 & He3 & Hl3 & Hb3 & Hp3).
  - intros p Hpp Hin. apply Hds in Hin as [_ Hin]. rewrite Hpp in Hnear. destruct Hnear as (_ & A2 & _).
    apply (sp_irrefl n). by eapply sp_trans; [|apply A2].
  - intros Hin. apply Hds in Hin as [_ Hin]. by apply sp_irrefl in Hin.
  - intros d Hd. by apply Hds in Hd as [? _].
  - exists m2, m3. split_and!; [done|done|done| |congruence]. intros k Hk.
    assert (is_Some (m1 !! k)) as Hk1 by (apply (body_dom m1 m3); [congruence|done]).
    rewrite (findParent_dom m1 m3); [|intros j; apply body_dom; congruence].
    rewrite Hp3, !Hp2, !Hp1. unfold m1. rewrite findParent_insert_new by done.
    assert (k ∈ findDescendants n m2 <-> sp n k) as Hdk.
    { rewrite Hds. split; [by intros [_ ?]|]. intros Hs. split; [|done]. apply (body_dom m1 m2); done. }
    destruct (decide (k = n)) as [->|Hkn].
    + rewrite decide_False by (intros [Hx _]; apply Hdk, sp_irrefl in Hx; done).
      rewrite (decide_False (P := sp n n)) by apply sp_irrefl. done.
    + assert (is_Some (m !! k)) as Hkm by (unfold m1 in Hk1; apply lookup_insert_is_Some' in Hk1 as [->|?]; done).
      rewrite (Ht k Hkm), <-Hfp. fold parent.
      destruct (decide (sp n k)) as [Hs|Hs].
      * repeat case_decide; try done; tauto.
      * rewrite decide_False; [done|]. intros [Hx _]. apply Hdk in Hx. done.
Qed.

Lemma insert_new n r rib :
  rib_ok rib -> m_rib rib !! n = None ->
  exists rib', rib_insert n r rib = Some rib' /\ rib_ok rib' /\
    body <$> m_rib rib' = <[n := body (insertRoute r (newRibEntry n)).1]> (body <$> m_rib rib).
Proof.
  intros (Hl & Ht & Hr & Hf & Hc) Hn. unfold rib_insert. rewrite Hn.
  change (insertRoute r (newRibEntry n)).1 with
    (set_routes [r] (if isRibCapture r then u64 (0 + 1) else 0) (newRibEntry n)).
  set (e := set_routes _ _ _).
  destruct (link_new (m_rib rib) n e Hl Ht Hn) as (m2 & m3 & -> & He3 & Hl3 & Ht3 & Hb3); [done..|].
  cbn [mbind option_bind]. rewrite He3. cbn [mbind option_bind]. eexists. split; [done|].
  split; [|simpl; rewrite Hb3, fmap_insert; done].
  eapply (rib_ok_relink _ (<[n := e]> (m_rib rib))); [|done|done|done]. split_and!; simpl.
  - intros k ek [[<- <-]|[_ Hk]]%lookup_insert_Some; [|by eapply Hr]. split; [done|apply NoDup_singleton].
  - intros f k. rewrite faces_push_elem, Hf. setoid_rewrite lookup_insert_Some.
    assert (hasFaceId f e = true <-> f = r_faceId r) as Hhf.
    { rewrite hasFaceId_true. simpl. setoid_rewrite list_elem_of_singleton. naive_solver. }
    split.
    + intros [(e0 & He0 & Hh)|[-> ->]]; [|exists e; naive_solver]. exists e0. split; [|done]. right. split; [congruence|done].
    + intros (e0 & [[<- <-]|[_ He0]] & Hh); [|left; by exists e0]. right. by apply Hhf in Hh.
  - rewrite fmap_insert, total_new by (by rewrite lookup_fmap, Hn). simpl. lia.
Qed.

Lemma find_erase_None {A} (t : A -> bool) l : find_if t l = None -> erase_first t l = l.
Proof. apply erase_first_id. Qed.

Lemma erase_contents n r rib e r0 k :
  rib_ok rib -> m_rib rib !! n = Some e -> findRoute r e = Some r0 ->
  let l := erase_first (has_key route_key (route_key r)) (re_routes e) in
  let e' := set_routes l k e in
  let fm := if negb (hasFaceId (r_faceId r) e')
            then <[r_faceId r := remove_if (fun k => bool_decide (k = n)) (default [] (m_faceMap rib !! r_faceId r))]> (m_faceMap rib)
            else m_faceMap rib in
  uniq_keys route_key l /\ re_routes e ≡ₚ r0 :: l /\
  (forall f x, x ∈ default [] (fm !! f) <->
     exists e0, <[n := e']> (m_rib rib) !! x = Some e0 /\ hasFaceId f e0 = true) /\
  m_nItems rib - 1 = Z.of_nat (total (<[n := l]> (re_routes <$> m_rib rib))).
Proof.
  intros (Hl & Ht & Hr & Hf & Hc) Hn Hfr l e' fm. destruct (Hr n e Hn) as [Hne Hu].
  pose proof (erase_first_perm _ _ _ Hfr) as Hperm. fold l in Hperm. symmetry in Hperm.
  pose proof Hfr as [Hin0 Hk0]%find_key_Some. split_and!; [by apply uniq_erase_first|done| |].
  - intros f x. setoid_rewrite lookup_insert_Some.
    assert (forall f, hasFaceId f e = true <-> f = r_faceId r \/ hasFaceId f e' = true) as Hhf.
    { intros f'. rewrite !hasFaceId_true. simpl. setoid_rewrite Hperm. setoid_rewrite elem_of_cons.
      unfold route_key in Hk0. injection Hk0 as Hk0 _. naive_solver. }
    assert (x ∈ default [] (fm !! f) <->
      if decide (f = r_faceId r /\ hasFaceId f e' = false) then x ∈ default [] (m_faceMap rib !! f) /\ x <> n
      else x ∈ default [] (m_faceMap rib !! f)) as ->.
    { unfold fm. destruct (hasFaceId (r_faceId r) e') eqn:Eh; simpl.
      - rewrite decide_False; [done|]. intros [-> ?]. congruence.
      - rewrite lookup_insert. case_decide as Hfr'.
        + subst f. rewrite decide_True by done. simpl. rewrite elem_of_remove_if, bool_decide_eq_false. done.
        + rewrite decide_False; [done|]. intros [-> _]. done. }
    specialize (Hhf f). case_decide as Hd; rewrite Hf; destruct (decide (n = x)) as [<-|Hx].
    + destruct Hd as [_ Hd]. split; [naive_solver|]. intros (e0 & [[_ <-]|[? _]] & Hh); congruence.
    + split; naive_solver.
    + assert (hasFaceId f e = true <-> hasFaceId f e' = true) as He.
      { rewrite Hhf. split; [|by right]. intros [->|?]; [|done]. destruct (hasFaceId (r_faceId r) e'); [done|]. by destruct Hd. }
      split; [intros (e0 & He0 & Hh); simplify_eq; exists e'; naive_solver|].
      intros (e0 & [[_ <-]|[? _]] & Hh); [|done]. exists e. naive_solver.
    + split; naive_solver.
  - pose proof (total_update n (re_routes e) l (re_routes <$> m_rib rib)) as Htot.
    rewrite lookup_fmap, Hn in Htot. specialize (Htot eq_refl). rewrite Hperm in Htot. simpl in Htot. lia.
Qed.

Lemma rib_erase_ok n r rib :
  rib_ok rib ->
  exists rib', rib_erase n r rib = Some rib' /\ rib_ok rib' /\
    re_routes <$> m_rib rib' = abs_erase n r (re_routes <$> m_rib rib).
Proof.
  intros Hok. unfold rib_erase, abs_erase. rewrite lookup_fmap.
  destruct (m_rib rib !! n) as [e|] eqn:Hn; [|by exists rib]. cbn [fmap option_fmap option_map].
  pose proof Hok as (Hl & Ht & Hr & Hf & Hc). unfold eraseRoute.
  destruct (findRoute r e) as [r0|] eqn:Er.
  2:{ exists rib. split_and!; [done|done|]. rewrite find_erase_None by exact Er. destruct (Hr n e Hn) as [Hne _].
      destruct (re_routes e) eqn:El; [done|]. rewrite <-El. symmetry. apply insert_id. by rewrite lookup_fmap, Hn. }
  set (k := if isRibCapture r0 then _ else _).
  destruct (erase_contents n r rib e r0 k Hok Hn Er) as (Hu & Hperm & Hfm & Htot).
  set (l := erase_first _ _) in *. set (e' := set_routes l k e) in *. set (fm := if negb _ then _ else _) in *.
  destruct (links_update (m_rib rib) n e e' Hl Hn) as [Hl1 Hp1]; [done..|].
  pose proof (tree_update _ n e e' Ht Hn Hp1) as Ht1. change (re_routes e') with l.
  assert (forall x ex, <[n := e']> (m_rib rib) !! x = Some ex -> x <> n -> re_routes ex <> [] /\ uniq_keys route_key (re_routes ex)) as Hother.
  { intros x ex [[<- _]|[_ Hx]]%lookup_insert_Some Hxn; [done|by eapply Hr]. }
  destruct (bool_decide (l = [])) eqn:Eb; breflect.
  - destruct (eraseEntry_ok n (<[n := e']> (m_rib rib)) e' Hl1 Ht1) as (m2 & -> & Hl2 & Hb2 & Hp2); [apply lookup_insert_eq|].
    cbn [mbind option_bind]. rewrite Eb. eexists. split; [done|].
    assert (re_routes <$> m2 = delete n (re_routes <$> m_rib rib)) as Hrt.
    { rewrite <-fmap_delete in Hb2. apply routes_of_body in Hb2. rewrite Hb2, fmap_delete, fmap_insert. apply delete_insert_eq. }
    split; [|done]. eapply (rib_ok_relink _ (delete n (<[n := e']> (m_rib rib)))); simpl.
    + split_and!; simpl.
      * intros x ex [Hxn Hx]%lookup_delete_Some. by eapply Hother.
      * intros f x. rewrite Hfm. setoid_rewrite lookup_delete_Some. split; [|naive_solver].
        intros (e0 & He0 & Hh). exists e0. split; [|done]. split; [|done]. intros <-. rewrite lookup_insert_eq in He0.
        injection He0 as <-. unfold hasFaceId in Hh. change (re_routes e') with l in Hh. by rewrite Eb in Hh.
      * rewrite Htot, fmap_delete, fmap_insert, Eb. f_equal. change (re_routes e') with l. rewrite Eb.
        rewrite delete_insert_eq, <-insert_delete_eq, total_new by apply lookup_delete_eq. done.
    + done.
    + intros x Hx. assert (x <> n /\ is_Some (<[n := e']> (m_rib rib) !! x)) as [Hxn Hx1].
      { rewrite <-fmap_delete in Hb2. apply (body_dom _ _ x) in Hb2. apply Hb2, lookup_delete_is_Some in Hx. naive_solver. }
      rewrite (findParent_dom (delete n (<[n := e']> (m_rib rib)))).
      * rewrite Hp2 by done. rewrite findParent_delete by (rewrite lookup_insert_eq; by eexists).
        rewrite !Ht1; [done|rewrite lookup_insert_eq; by eexists|done].
      * intros j. apply body_dom. by rewrite Hb2, fmap_delete.
    + by rewrite Hb2, fmap_delete.
  - eexists. split; [done|]. split.
    2:{ simpl. rewrite fmap_insert. change (re_routes e') with l. revert Eb. generalize l. by intros [|??]. }
    split_and!; simpl; [done|done| |done|rewrite fmap_insert; exact Htot].
    intros x ex Hx. destruct (decide (x = n)) as [->|Hxn]; [|by eapply Hother].
    rewrite lookup_insert_eq in Hx. injection Hx as <-. done.
Qed.

(** ** Runs of the RIB *)

Inductive RibOp := Insert (prefix : Name) (route : Route) | Erase (prefix : Name) (route : Route).

Definition rib_step (op : RibOp) rib : option Rib :=
  match op with Insert n r => rib_insert n r rib | Erase n r => rib_erase n r rib end.

Definition rib_run (ops : list RibOp) rib : option Rib := foldl (fun o op => rib ← o; rib_step op rib) (Some rib) ops.

Definition abs_step (a : RouteMap) (op : RibOp) : RouteMap :=
  match op with Insert n r => abs_insert n r a | Erase n r => abs_erase n r a end.

Lemma rib_step_ok op rib : rib_ok rib ->
  exists rib', rib_step op rib = Some rib' /\ rib_ok rib' /\
    re_routes <$> m_rib rib' = abs_step (re_routes <$> m_rib rib) op.
Proof.
  intros Hok. destruct op as [n r|n r]; simpl; [|by apply rib_erase_ok].
  destruct (m_rib rib !! n) eqn:En; [by eapply insert_existing|].
  destruct (insert_new n r rib Hok En) as (rib' & -> & Hok' & Hb). exists rib'. split_and!; [done|done|].
  rewrite <-fmap_insert in Hb. rewrite (routes_of_body _ _ Hb), fmap_insert. unfold abs_insert. by rewrite lookup_fmap, En.
Qed.

Lemma rib_run_ok ops : forall rib, rib_ok rib ->
  exists rib', rib_run ops rib = Some rib' /\ rib_ok rib' /\
    re_routes <$> m_rib rib' = foldl abs_step (re_routes <$> m_rib rib) ops.
Proof.
  induction ops as [|op ops IH]; intros rib Hok; [by exists rib|]. unfold rib_run. cbn [foldl mbind option_bind].
  destruct (rib_step_ok op rib Hok) as (rib1 & -> & Hok1 & <-). by apply IH.
Qed.

Lemma newRib_ok : rib_ok newRib.
Proof.
  split_and!; simpl.
  - split; [by intros n e ?|]. intros c p. unfold par. by rewrite lookup_empty.
  - intros k [e Hk]. by rewrite lookup_empty in Hk.
  - by intros n e ?.
  - intros f n. rewrite lookup_empty. simpl. split; [by intros ?%not_elem_of_nil|]. intros (e & He & _). by rewrite lookup_empty in He.
  - rewrite fmap_empty. done.
Qed.

Lemma findRoutesWithFaceId_ok f rib : rib_ok rib ->
  exists l, findRoutesWithFaceId f rib = Some l /\
    forall n r, (n, r) ∈ l <-> exists e, m_rib rib !! n = Some e /\ r ∈ re_routes e /\ r_faceId r = f.
Proof.
  intros (_ & _ & _ & Hf & _). unfold findRoutesWithFaceId. specialize (Hf f).
  assert (forall ns, (forall n, n ∈ ns -> is_Some (m_rib rib !! n)) -> exists l,
    foldr (fun n acc => l ← acc; e ← m_rib rib !! n;
      Some ((pair n <$> filter (fun r => onFace f r = true) (re_routes e)) ++ l)) (Some []) ns = Some l /\
    forall n r, (n, r) ∈ l <-> n ∈ ns /\ exists e, m_rib rib !! n = Some e /\ r ∈ re_routes e /\ r_faceId r = f) as Hloop.
  { induction ns as [|n ns IH]; intros Hns.
    { exists []. split; [done|]. intros n r. split; [by intros ?%not_elem_of_nil|]. by intros [?%not_elem_of_nil _]. }
    destruct IH as (l & Hl & Hin); [intros k Hk; apply Hns; by right|]. destruct (Hns n) as [e He]; [by left|].
    cbn [foldr]. rewrite Hl. cbn [mbind option_bind]. rewrite He. cbn [mbind option_bind]. eexists. split; [done|].
    intros k r. rewrite elem_of_app, elem_of_cons, Hin, list_elem_of_fmap. setoid_rewrite list_elem_of_filter.
    unfold onFace. setoid_rewrite Z.eqb_eq. naive_solver. }
  destruct (Hloop (default [] (m_faceMap rib !! f))) as (l & Hl & Hin).
  { intros n (e & He & _)%Hf. by eexists. }
  exists l. split; [exact Hl|]. intros n r. rewrite Hin, Hf. split; [naive_solver|]. intros (e & He & Hr & Hfr).
  split; [|by exists e]. exists e. split; [done|]. apply hasFaceId_true. by exists r.
Qed.

(** ** The routes one by one *)

(** The route of a name with a face and an origin. *)
Definition route_at n (k : Z * Z) rib : option Route :=
  l ← (re_routes <$> m_rib rib) !! n; find_if (has_key route_key k) l.

Lemma rib_find_at n r rib : rib_find n r rib = route_at n (route_key r) rib.
Proof. unfold rib_find, route_at. rewrite lookup_fmap. by destruct (m_rib rib !! n). Qed.

Lemma route_at_insert n r rib rib' (m : Name) (k : Z * Z) :
  rib_ok rib -> re_routes <$> m_rib rib' = abs_insert n r (re_routes <$> m_rib rib) ->
  route_at m k rib' = if decide ((m, k) = (n, route_key r)) then Some r else route_at m k rib.
Proof.
  intros Hok Ha. unfold route_at. rewrite Ha. unfold abs_insert.
  destruct ((re_routes <$> m_rib rib) !! n) as [l|] eqn:El.
  - assert (route_at n (route_key r) rib = find_if (has_key route_key (route_key r)) l) as Hat
      by (unfold route_at; by rewrite El).
    destruct (find_if (has_key route_key (route_key r)) l) as [r0|] eqn:Ef;
      (destruct (decide (m = n)) as [->|Hm];
        [rewrite lookup_insert_eq, El; cbn [mbind option_bind]
        |rewrite lookup_insert_ne by done; rewrite decide_False by congruence; done]).
    + destruct (decide (k = route_key r)) as [->|Hk].
      * rewrite decide_True by done. by rewrite (find_update_same route_key _ _ _ r0).
      * rewrite decide_False by congruence. by apply find_update_other.
    + rewrite find_if_app. destruct (decide (k = route_key r)) as [->|Hk].
      * rewrite decide_True, Ef by done. simpl. unfold has_key. by rewrite bool_decide_eq_true_2.
      * rewrite decide_False by congruence. destruct (find_if (has_key route_key k) l); [done|].
        simpl. unfold has_key. by rewrite bool_decide_eq_false_2.
  - destruct (decide (m = n)) as [->|Hm].
    + rewrite lookup_insert_eq, El. cbn [mbind option_bind find_if]. unfold has_key.
      destruct (decide (k = route_key r)) as [->|Hk].
      * by rewrite bool_decide_eq_true_2, decide_True.
      * rewrite bool_decide_eq_false_2, decide_False by congruence. done.
    + rewrite lookup_insert_ne by done. by rewrite decide_False by congruence.
Qed.

Lemma route_at_erase n r rib rib' (m : Name) (k : Z * Z) :
  rib_ok rib -> re_routes <$> m_rib rib' = abs_erase n r (re_routes <$> m_rib rib) ->
  route_at m k rib' = if decide ((m, k) = (n, route_key r)) then None else route_at m k rib.
Proof.
  intros (_ & _ & Hu & _) Ha. unfold route_at. rewrite Ha. unfold abs_erase.
  destruct ((re_routes <$> m_rib rib) !! n) as [l|] eqn:El.
  - assert (uniq_keys route_key l) as Hul.
    { rewrite lookup_fmap in El. destruct (m_rib rib !! n) as [e|] eqn:En; [|done]. injection El as <-. by eapply Hu. }
    assert (forall o : option (list Route), default [] o = erase_first (has_key route_key (route_key r)) l ->
      (l' ← o; find_if (has_key route_key k) l') =
        if decide (k = route_key r) then None else find_if (has_key route_key k) l) as Hfind.
    { intros o Ho. assert ((l' ← o; find_if (has_key route_key k) l') = find_if (has_key route_key k) (default [] o)) as ->
        by (by destruct o). rewrite Ho. case_decide as Hk; [subst; by apply find_erase_same|by apply find_erase_other]. }
    destruct (decide (m = n)) as [->|Hm].
    + rewrite El. cbn [mbind option_bind]. rewrite Hfind.
      * repeat case_decide; congruence.
      * destruct (erase_first _ l); [by rewrite lookup_delete_eq|by rewrite lookup_insert_eq].
    + rewrite decide_False by congruence.
      destruct (erase_first _ l); [by rewrite lookup_delete_ne|by rewrite lookup_insert_ne].
  - destruct (decide ((m, k) = (n, route_key r))) as [[= -> ->]|]; [|done]. by rewrite El.
Qed.

(** The parent of an entry and the entries under it are those of the prefix
    order; routes and counts are those of the map. *)
Definition rib_view (a : RouteMap) rib : Prop :=
  (forall n r, rib_find n r rib = (l ← a !! n; find_if (has_key route_key (route_key r)) l)) /\
  (forall n e, m_rib rib !! n = Some e ->
     re_parent e = findParent n (m_rib rib) /\
     forall c, c ∈ re_children e <-> is_Some (a !! c) /\ findParent c (m_rib rib) = Some n) /\
  (forall f, exists l, findRoutesWithFaceId f rib = Some l /\
     forall n r, (n, r) ∈ l <-> exists l', a !! n = Some l' /\ r ∈ l' /\ r_faceId r = f) /\
  m_nItems rib = Z.of_nat (total a).

Lemma rib_ok_view rib : rib_ok rib -> rib_view (re_routes <$> m_rib rib) rib.
Proof.
  intros Hok. pose proof Hok as ([Hl Hd] & Ht & Hr & Hf & Hc). split_and!; [| | |done].
  - intros n r. unfold rib_find. rewrite lookup_fmap. by destruct (m_rib rib !! n).
  - intros n e He. assert (par (m_rib rib) n = re_parent e) as Hpe by (unfold par; by rewrite He).
    split; [rewrite <-Hpe; apply Ht; by eexists|]. destruct (Hl n e He) as (_ & _ & Hch). intros c.
    rewrite Hch, lookup_fmap, fmap_is_Some. split.
    + intros Hp. pose proof (par_dom _ _ _ Hp). split; [done|]. by rewrite <-Ht.
    + intros [Hs Hp]. by rewrite Ht.
  - intros f. destruct (findRoutesWithFaceId_ok f rib Hok) as (l & Hl' & Hin). exists l. split; [done|].
    intros n r. rewrite Hin, lookup_fmap. split; [intros (e & -> & ?); simpl; eauto|].
    destruct (m_rib rib !! n) as [e|]; simpl; [|naive_solver]. intros (l' & [= <-] & ?). by exists e.
Qed.

(** C17: any sequence of insertions and erasures of routes is carried out without
    a failed assertion, and the RIB answers as the map from prefixes to routes on
    which the same insertions and erasures are made: routes are found by prefix,
    face and origin, every entry is linked to its nearest ancestor and to the
    entries whose nearest ancestor it is, the routes of a face are exactly those
    that the face table yields, and the item counter is their number. *)
Theorem rib_refines ops :
  exists rib, rib_run ops newRib = Some rib /\ rib_view (foldl abs_step ∅ ops) rib.
Proof.
  destruct (rib_run_ok ops newRib newRib_ok) as (rib & Hr & Hok & Ha). exists rib. split; [done|].
  change (re_routes <$> m_rib newRib) with (re_routes <$> (∅ : gmap Name RibEntry)) in Ha. rewrite fmap_empty in Ha.
  rewrite <-Ha. by apply rib_ok_view.
Qed.

(** Re-registering a route replaces it in place without adjusting the number
    of routes with the capture flag. A route that gains the flag does not make the
    prefix capture; and when it is erased afterwards the counter wraps, so that the
    prefix captures although none of its routes has the flag. *)
Theorem update_loses_capture n r s r' rib e :
  m_rib rib !! n = Some e -> re_routes e = [r; s] -> re_nRoutesWithCaptureSet e = 0 ->
  route_key r' = route_key r -> isRibCapture r' = true -> isRibCapture s = false ->
  exists rib1 e1 rib2 e2, rib_insert n r' rib = Some rib1 /\ m_rib rib1 !! n = Some e1 /\
    re_routes e1 = [r'; s] /\ hasCapture e1 = false /\
    rib_erase n r' rib1 = Some rib2 /\ m_rib rib2 !! n = Some e2 /\ hasCapture e2 = true /\
    re_routes e2 = [s] /\ Forall (fun x => isRibCapture x = false) (re_routes e2).
Proof.
  intros Hn Hr Hz Hk Hcap Hs. unfold rib_insert, insertRoute, findRoute. rewrite Hn, Hr. simpl.
  unfold has_key at 1 2. rewrite bool_decide_eq_true_2 by done. simpl. unfold has_key. rewrite bool_decide_eq_true_2 by done.
  do 4 eexists. split; [done|]. simpl. rewrite lookup_insert_eq. split; [done|]. simpl. split; [done|].
  split; [unfold hasCapture; simpl; by rewrite Hz|].
  unfold rib_erase. simpl. rewrite lookup_insert_eq. unfold eraseRoute, findRoute. simpl. unfold has_key.
  rewrite bool_decide_eq_true_2 by done. simpl. rewrite Hcap, Hz.
  split; [done|]. simpl. rewrite lookup_insert_eq. split; [done|]. simpl. split; [done|]. split; [done|]. by apply Forall_singleton.
Qed.
End Rib.

Module RibExamples.
#[export] Instance exampleFlags : RouteFlags.
Proof.
  refine {| ROUTE_FLAG_CHILD_INHERIT := 1; ROUTE_FLAG_CAPTURE := 2 |}.
  - intros f. assert (Z.land f 1 = f mod 2) as -> by (apply (Z.land_ones f 1); lia). pose proof (Z.mod_pos_bound f 2 ltac:(lia)). lia.
  - lia.
Defined.

Definition route (face origin cost flags : Z) : Route (Ann:=unit) := mkRoute face origin cost flags None None 0 None.
Definition twoRoutes : option (Rib (C:=Z)) := rib_run [Insert [1] (route 5 0 10 0); Insert [1] (route 5 255 20 0)] newRib.

Example nearest_is_linked :
  (fun rib : Rib => par (m_rib rib) [1; 2; 3]) <$> rib_run (C:=Z) [Insert [1] (route 5 0 10 0); Insert [1; 2; 3] (route 6 0 10 0);
     Insert [1; 2] (route 7 0 10 0); Erase [1; 2] (route 7 0 10 0)] newRib = Some (Some [1]).
Proof. vm_compute. reflexivity. Qed.

Lemma update_loses_capture_witness :
  exists rib rib1 rib2 e2, twoRoutes = Some rib /\ rib_insert [1] (route 5 0 10 2) rib = Some rib1 /\
    rib_erase [1] (route 5 0 10 2) rib1 = Some rib2 /\ m_rib rib2 !! [1] = Some e2 /\ hasCapture e2 = true.
Proof.
  destruct twoRoutes as [rib|] eqn:E; [|discriminate E].
  destruct (m_rib rib !! [1]) as [e|] eqn:He; [|exfalso; revert He; injection E as <-; vm_compute; discriminate].
  assert (re_routes e = [route 5 0 10 0; route 5 255 20 0] /\ re_nRoutesWithCaptureSet e = 0) as [Hr Hz].
  { revert He. injection E as <-. vm_compute. intros [= <-]. split; reflexivity. }
  destruct (update_loses_capture [1] (route 5 0 10 0) (route 5 255 20 0) (route 5 0 10 2) rib e)
    as (rib1 & e1 & rib2 & e2 & H1 & _ & _ & _ & H2 & H3 & H4 & _);
    [exact He|exact Hr|exact Hz|reflexivity|reflexivity|reflexivity|].
  exists rib, rib1, rib2, e2. split; [reflexivity|]. split; [exact H1|]. split; [exact H2|]. split; [exact H3|exact H4].
Defined.
End RibExamples.
