(* ===== verification/Readvertise.v ===== *)
(** * Readvertising routes

    Models [rib/readvertise/]: routes of the RIB that a policy selects are
    announced to a destination (another RIB, reached by management commands) under
    a prefix of the policy's choice, announced again at intervals, and withdrawn
    when no route needs the prefix any more. Commands are answered later, and a
    failed one is tried again after a delay that doubles.

    The set [m_rrs] is ordered by prefix. An iterator into it is a prefix with the
    address of the set's node for it: a node that is erased and created again has
    another address, and using an iterator to an erased node is undefined. A
    callback or a timer holds such an iterator. An undefined access or a failed
    assertion is [None]. The controller's requests that are under way have
    numbers; the events of the scheduler are kept with the route that owns them
    and are cancelled with it. The random part of a delay is an argument. *)

From S2P Require Import Prelude Ndn Rib.
Local Open Scope Z_scope.

(** A policy decides under which prefix a route is announced, and signed by whom;
    the decision is about the name, the face and the origin of a route. *)
Class ReadvertisePolicy (C Ann Signer : Type) `{NameOrder C} := {
  handleNewRoute : list C -> Route (Ann:=Ann) -> option (list C * Signer);
  getRefreshInterval : Z;
  refreshInterval_nonneg : 0 <= getRefreshInterval;
  handleNewRoute_key n r r' : route_key r = route_key r' -> handleNewRoute n r = handleNewRoute n r'
}.

Inductive Task := ADVERTISE | WITHDRAW.

#[export] Instance task_eq_dec : EqDecision Task.
Proof. solve_decision. Defined.

Section Readvertise.
Context {C Ann Signer : Type} `{ReadvertisePolicy C Ann Signer}.
Notation Name := (list C).
Notation Route := (Route (Ann:=Ann)).
(** The default-constructed signer, and the prefix of the destination's commands. *)
Context (noSigner : Signer) (commandPrefix : Name).

Notation Iterator := (Name * Z)%type.
(** [RibRouteRef]s are compared by name, face and origin. *)
Notation RibRouteRef := (Name * (Z * Z))%type.

Definition RETRY_DELAY_MIN : Z := 50000.
Definition RETRY_DELAY_MAX : Z := 3600000.

(** [rr_retryEvt]: what the pending event will do, and its delay. *)
Record ReadvertisedRoute := mkRr {
  rr_node : Z;
  rr_signer : Signer;
  rr_nRibRoutes : Z;
  rr_retryDelay : Z;
  rr_retryEvt : option (Task * Z)
}.

Record Request := mkRequest { rq_task : Task; rq_iter : Iterator; rq_signer : Signer }.

Record Readvertise := mkReadvertise {
  m_rrs : gmap Name ReadvertisedRoute;
  m_routeToRr : gmap RibRouteRef Iterator;
  m_isAvailable : bool;
  requests : gmap Z Request;
  nextAddress : Z
}.
Implicit Types (st : Readvertise) (rr : ReadvertisedRoute) (it : Iterator) (p n : Name) (r : Route) (c : Request).

Definition newReadvertise : Readvertise := mkReadvertise ∅ ∅ false ∅ 0.

Definition set_rrs (m : gmap Name ReadvertisedRoute) st : Readvertise :=
  mkReadvertise m (m_routeToRr st) (m_isAvailable st) (requests st) (nextAddress st).
Definition set_index (m : gmap RibRouteRef Iterator) st : Readvertise :=
  mkReadvertise (m_rrs st) m (m_isAvailable st) (requests st) (nextAddress st).
Definition set_available (b : bool) st : Readvertise :=
  mkReadvertise (m_rrs st) (m_routeToRr st) b (requests st) (nextAddress st).
Definition set_requests (m : gmap Z Request) st : Readvertise :=
  mkReadvertise (m_rrs st) (m_routeToRr st) (m_isAvailable st) m (nextAddress st).

Definition set_signer (s : Signer) rr : ReadvertisedRoute :=
  mkRr (rr_node rr) s (rr_nRibRoutes rr) (rr_retryDelay rr) (rr_retryEvt rr).
Definition set_nRibRoutes (k : Z) rr : ReadvertisedRoute :=
  mkRr (rr_node rr) (rr_signer rr) k (rr_retryDelay rr) (rr_retryEvt rr).
Definition set_retryDelay (d : Z) rr : ReadvertisedRoute :=
  mkRr (rr_node rr) (rr_signer rr) (rr_nRibRoutes rr) d (rr_retryEvt rr).
Definition set_retryEvt (e : option (Task * Z)) rr : ReadvertisedRoute :=
  mkRr (rr_node rr) (rr_signer rr) (rr_nRibRoutes rr) (rr_retryDelay rr) e.

(** [*it]. *)
Definition rr_at it st : option ReadvertisedRoute :=
  rr ← m_rrs st !! it.1; if rr_node rr =? it.2 then Some rr else None.

(** A change of [*it]. *)
Definition modify it (f : ReadvertisedRoute -> ReadvertisedRoute) st : option Readvertise :=
  rr ← rr_at it st; Some (set_rrs (<[it.1 := f rr]> (m_rrs st)) st).

(** [m_rrs.erase(it)]. *)
Definition erase_rr it st : option Readvertise :=
  _ ← rr_at it st; Some (set_rrs (delete it.1 (m_rrs st)) st).

(** [m_rrs.emplace(prefix)]. *)
Definition emplace p st : Readvertise * Iterator :=
  match m_rrs st !! p with
  | Some rr => (st, (p, rr_node rr))
  | None =>
      (mkReadvertise (<[p := mkRr (nextAddress st) noSigner 0 0 None]> (m_rrs st)) (m_routeToRr st)
         (m_isAvailable st) (requests st) (nextAddress st + 1),
       (p, nextAddress st))
  end.

(** The distribution is asked for numbers between -5 and 5 as unsigned numbers, a
    lower bound above the upper one, so that what is drawn is not specified: any
    number of milliseconds stands for it. *)
Definition randomizeTimer (base jitter : Z) : Z := Z.max (base + jitter) 0.

(** [m_destination->advertise] and [m_destination->withdraw] start a command. *)
Definition startRequest (t : Task) it (s : Signer) st : Readvertise :=
  mkReadvertise (m_rrs st) (m_routeToRr st) (m_isAvailable st)
    (<[nextAddress st := mkRequest t it s]> (requests st)) (nextAddress st + 1).

Definition advertise it st : option Readvertise :=
  rr ← rr_at it st;
  if rr_nRibRoutes rr =? 0 then None
  else if negb (m_isAvailable st) then Some st
  else Some (startRequest ADVERTISE it (rr_signer rr) st).

Definition withdraw it st : option Readvertise :=
  rr ← rr_at it st;
  if negb (rr_nRibRoutes rr =? 0) then None
  else if negb (m_isAvailable st) then erase_rr it st
  else Some (startRequest WITHDRAW it (rr_signer rr) st).

Definition afterAddRoute n r st : option Readvertise :=
  match handleNewRoute n r with
  | None => Some st
  | Some (prefix, signer) =>
      let '(st, it) := emplace prefix st in
      st ← modify it (set_signer signer) st;
      match m_routeToRr st !! (n, route_key r) with
      | Some _ => None
      | None =>
          let st := set_index (<[(n, route_key r) := it]> (m_routeToRr st)) st in
          rr ← rr_at it st;
          st ← modify it (set_nRibRoutes (u64 (rr_nRibRoutes rr + 1))) st;
          if 0 <? rr_nRibRoutes rr then Some st
          else
            st ← modify it (set_retryDelay RETRY_DELAY_MIN) st;
            advertise it st
      end
  end.

Definition beforeRemoveRoute n r st : option Readvertise :=
  match m_routeToRr st !! (n, route_key r) with
  | None => Some st
  | Some it =>
      let st := set_index (delete (n, route_key r) (m_routeToRr st)) st in
      rr ← rr_at it st;
      let k := u64 (rr_nRibRoutes rr - 1) in
      st ← modify it (set_nRibRoutes k) st;
      if 0 <? k then Some st
      else
        st ← modify it (set_retryDelay RETRY_DELAY_MIN) st;
        withdraw it st
  end.

(** The prefixes of [m_rrs] in its order. *)
Definition prefixes st : list Name := merge_sort name_le (map_to_list (m_rrs st)).*1.

Definition available_step (o : option Readvertise) p : option Readvertise :=
  st ← o;
  rr ← m_rrs st !! p;
  st ← modify (p, rr_node rr) (set_retryDelay RETRY_DELAY_MIN) st;
  advertise (p, rr_node rr) st.

Definition afterDestinationAvailable st : option Readvertise :=
  foldl available_step (Some st) (prefixes st).

Definition unavailable_step (o : option Readvertise) p : option Readvertise :=
  st ← o;
  rr ← m_rrs st !! p;
  if 0 <? rr_nRibRoutes rr then modify (p, rr_node rr) (set_retryEvt None) st
  else erase_rr (p, rr_node rr) st.

Definition afterDestinationUnavailable st : option Readvertise :=
  foldl unavailable_step (Some st) (prefixes st).

Definition doubled rr : Z := Z.min RETRY_DELAY_MAX (rr_retryDelay rr * 2).

(** The callbacks of the commands. *)
Definition onSuccess (t : Task) (jitter : Z) it st : option Readvertise :=
  match t with
  | ADVERTISE =>
      modify it (fun rr => set_retryEvt (Some (ADVERTISE, randomizeTimer getRefreshInterval jitter))
                             (set_retryDelay RETRY_DELAY_MIN rr)) st
  | WITHDRAW => erase_rr it st
  end.

Definition onFailure (t : Task) (jitter : Z) it st : option Readvertise :=
  modify it (fun rr => set_retryEvt (Some (t, randomizeTimer (doubled rr) jitter)) (set_retryDelay (doubled rr) rr)) st.

(** The answer to request [i]. *)
Definition onAnswer (i : Z) (success : bool) (jitter : Z) st : option Readvertise :=
  c ← requests st !! i;
  let st := set_requests (delete i (requests st)) st in
  if success then onSuccess (rq_task c) jitter (rq_iter c) st else onFailure (rq_task c) jitter (rq_iter c) st.

(** The pending event of a readvertised route. *)
Definition onTimer p st : option Readvertise :=
  rr ← m_rrs st !! p;
  match rr_retryEvt rr with
  | None => None
  | Some (t, _) =>
      st ← modify (p, rr_node rr) (set_retryEvt None) st;
      match t with ADVERTISE => advertise (p, rr_node rr) st | WITHDRAW => withdraw (p, rr_node rr) st end
  end.

(** ** The destination *)

Definition setAvailability (b : bool) st : option Readvertise :=
  if Bool.eqb (m_isAvailable st) b then Some st
  else
    let st := set_available b st in
    if b then afterDestinationAvailable st else afterDestinationUnavailable st.

Definition handleRibInsert n st : option Readvertise :=
  if isPrefixOf n commandPrefix then setAvailability true st else Some st.
Definition handleRibErase n st : option Readvertise :=
  if isPrefixOf n commandPrefix then setAvailability false st else Some st.

(** The signals of the RIB. *)
Definition onSignal (s : RibSignal (C:=C) (Ann:=Ann)) st : option Readvertise :=
  match s with
  | AfterInsertEntry n => handleRibInsert n st
  | AfterEraseEntry n => handleRibErase n st
  | AfterAddRoute n r => afterAddRoute n r st
  | BeforeRemoveRoute n r => beforeRemoveRoute n r st
  end.

Definition onSignals (l : list RibSignal) st : option Readvertise := foldl (fun o s => st ← o; onSignal s st) (Some st) l.

(** ** One readvertised prefix *)

(** The requests and the routes of the RIB that concern a prefix. *)
Definition requestsOf p st : gmap Z Request := filter (fun ic => (rq_iter ic.2).1 = p) (requests st).
Definition routesOf p st : gmap RibRouteRef Iterator := filter (fun ki => ki.2.1 = p) (m_routeToRr st).

(** What is pending for a prefix: with routes that need it, only announcements,
    one of which is under way or will be when the destination is available;
    without, exactly one withdrawal, under way or to be tried again. *)
Definition pending_ok rr (cs : gmap Z Request) (av : bool) : Prop :=
  if decide (rr_nRibRoutes rr = 0) then
    av = true /\
    ((exists i s, cs = {[ i := mkRequest WITHDRAW s.1 s.2 ]} /\ forall d, rr_retryEvt rr <> Some (WITHDRAW, d)) \/
     (cs = ∅ /\ exists d, rr_retryEvt rr = Some (WITHDRAW, d)))
  else
    (forall i c, cs !! i = Some c -> rq_task c = ADVERTISE) /\ (forall d, rr_retryEvt rr <> Some (WITHDRAW, d)) /\
    (av = true -> cs <> ∅ \/ exists d, rr_retryEvt rr = Some (ADVERTISE, d)).

Definition route_ok p (orr : option ReadvertisedRoute) (cs : gmap Z Request) (ix : gmap RibRouteRef Iterator)
    (av : bool) (fresh : Z) : Prop :=
  match orr with
  | None => cs = ∅ /\ ix = ∅
  | Some rr =>
      rr_node rr < fresh /\ rr_nRibRoutes rr = Z.of_nat (size ix) /\
      (forall k it, ix !! k = Some it -> it = (p, rr_node rr)) /\
      (forall i c, cs !! i = Some c -> i < fresh /\ rq_iter c = (p, rr_node rr)) /\
      RETRY_DELAY_MIN <= rr_retryDelay rr <= RETRY_DELAY_MAX /\
      (forall t d, rr_retryEvt rr = Some (t, d) -> 0 <= d) /\
      pending_ok rr cs av
  end.

Definition at_ok p st : Prop :=
  route_ok p (m_rrs st !! p) (requestsOf p st) (routesOf p st) (m_isAvailable st) (nextAddress st).

Definition rv_ok st : Prop := forall p, at_ok p st.

(** A prefix that a step does not concern. *)
Definition same_at p st st' : Prop :=
  m_rrs st' !! p = m_rrs st !! p /\ requestsOf p st' = requestsOf p st /\ routesOf p st' = routesOf p st.

Lemma route_ok_mono p orr cs ix av fresh fresh' :
  fresh <= fresh' -> route_ok p orr cs ix av fresh -> route_ok p orr cs ix av fresh'.
Proof.
  intros Hle. destruct orr as [rr|]; [|done]. intros (A & B & D & E & R). split; [lia|]. split; [done|]. split; [done|].
  split; [|done]. intros i c Hc. destruct (E i c Hc). split; [lia|done].
Qed.

Lemma rv_ok_frame p st st' :
  rv_ok st -> m_isAvailable st' = m_isAvailable st -> nextAddress st <= nextAddress st' ->
  (forall q, q <> p -> same_at q st st') -> at_ok p st' -> rv_ok st'.
Proof.
  intros Hok Hav Hfr Hsame Hp q. destruct (decide (q = p)) as [->|Hq]; [exact Hp|].
  destruct (Hsame q Hq) as (E1 & E2 & E3). unfold at_ok. rewrite E1, E2, E3, Hav.
  eapply route_ok_mono; [exact Hfr|]. apply Hok.
Qed.

Lemma requests_new st (av : Name -> bool) i :
  (forall p, route_ok p (m_rrs st !! p) (requestsOf p st) (routesOf p st) (av p) (nextAddress st)) ->
  nextAddress st <= i -> requests st !! i = None.
Proof.
  intros Hok Hi. destruct (requests st !! i) as [c|] eqn:E; [|done]. exfalso.
  specialize (Hok (rq_iter c).1). unfold route_ok in Hok.
  assert (requestsOf (rq_iter c).1 st !! i = Some c) as Hc by (by apply map_lookup_filter_Some).
  destruct (m_rrs st !! _) as [rr|].
  - destruct Hok as (_ & _ & _ & Hcs & _). apply Hcs in Hc as [? _]. lia.
  - destruct Hok as [Hcs _]. by rewrite Hcs, lookup_empty in Hc.
Qed.

Lemma requests_fresh st i : rv_ok st -> nextAddress st <= i -> requests st !! i = None.
Proof. intros Hok. apply (requests_new st (fun _ => m_isAvailable st)). exact Hok. Qed.

Lemma rr_at_ok p rr st : m_rrs st !! p = Some rr -> rr_at (p, rr_node rr) st = Some rr.
Proof. intros Hp. unfold rr_at. simpl. rewrite Hp. simpl. by rewrite Z.eqb_refl. Qed.

Lemma modify_ok p rr f st :
  m_rrs st !! p = Some rr -> modify (p, rr_node rr) f st = Some (set_rrs (<[p := f rr]> (m_rrs st)) st).
Proof. intros Hp. unfold modify. by rewrite (rr_at_ok p rr st Hp). Qed.

Lemma erase_rr_ok p rr st :
  m_rrs st !! p = Some rr -> erase_rr (p, rr_node rr) st = Some (set_rrs (delete p (m_rrs st)) st).
Proof. intros Hp. unfold erase_rr. by rewrite (rr_at_ok p rr st Hp). Qed.

(** What the steps do to requests and routes of a prefix. *)
Lemma requestsOf_start t p a s st :
  requestsOf p (startRequest t (p, a) s st) = <[nextAddress st := mkRequest t (p, a) s]> (requestsOf p st).
Proof. unfold requestsOf. by rewrite <-map_filter_insert_True. Qed.

Lemma requestsOf_start_ne t p a s q st :
  requests st !! nextAddress st = None -> q <> p -> requestsOf q (startRequest t (p, a) s st) = requestsOf q st.
Proof.
  intros Hf Hq. unfold requestsOf. simpl. apply map_filter_insert_not'; [naive_solver|]. intros y. by rewrite Hf.
Qed.

Lemma requestsOf_answer i c p st :
  requests st !! i = Some c -> (rq_iter c).1 = p ->
  requestsOf p (set_requests (delete i (requests st)) st) = delete i (requestsOf p st) /\
  forall q, q <> p -> requestsOf q (set_requests (delete i (requests st)) st) = requestsOf q st.
Proof.
  intros Hc Hp. unfold requestsOf. simpl. split; [apply map_filter_delete|]. intros q Hq.
  apply map_filter_delete_not. intros y Hy. rewrite Hc in Hy. simplify_eq/=. done.
Qed.

Lemma routesOf_insert k p a st :
  m_routeToRr st !! k = None ->
  routesOf p (set_index (<[k := (p, a)]> (m_routeToRr st)) st) = <[k := (p, a)]> (routesOf p st) /\
  forall q, q <> p -> routesOf q (set_index (<[k := (p, a)]> (m_routeToRr st)) st) = routesOf q st.
Proof.
  intros Hk. unfold routesOf. simpl. split; [by rewrite map_filter_insert_True|]. intros q Hq.
  apply map_filter_insert_not'; [naive_solver|]. intros y. by rewrite Hk.
Qed.

Lemma routesOf_delete k it st :
  m_routeToRr st !! k = Some it ->
  routesOf it.1 (set_index (delete k (m_routeToRr st)) st) = delete k (routesOf it.1 st) /\
  forall q, q <> it.1 -> routesOf q (set_index (delete k (m_routeToRr st)) st) = routesOf q st.
Proof.
  intros Hk. unfold routesOf. simpl. split; [apply map_filter_delete|]. intros q Hq.
  apply map_filter_delete_not. intros y Hy. rewrite Hk in Hy. by simplify_eq/=.
Qed.

Lemma routesOf_elem k it st : m_routeToRr st !! k = Some it -> routesOf it.1 st !! k = Some it.
Proof. intros Hk. by apply map_lookup_filter_Some. Qed.

Lemma size_routesOf p st : (size (routesOf p st) <= size (m_routeToRr st))%nat.
Proof. unfold routesOf. apply map_subseteq_size, map_filter_subseteq. Qed.

Lemma pending_positive rr cs av : 0 < rr_nRibRoutes rr ->
  (forall i c, cs !! i = Some c -> rq_task c = ADVERTISE) -> (forall d, rr_retryEvt rr <> Some (WITHDRAW, d)) ->
  (av = true -> cs <> ∅ \/ exists d, rr_retryEvt rr = Some (ADVERTISE, d)) -> pending_ok rr cs av.
Proof. intros Hn A B D. unfold pending_ok. rewrite decide_False by lia. done. Qed.

Lemma pending_zero rr cs : rr_nRibRoutes rr = 0 ->
  ((exists i s, cs = {[ i := mkRequest WITHDRAW s.1 s.2 ]} /\ forall d, rr_retryEvt rr <> Some (WITHDRAW, d)) \/
   (cs = ∅ /\ exists d, rr_retryEvt rr = Some (WITHDRAW, d))) -> pending_ok rr cs true.
Proof. intros Hn A. unfold pending_ok. by rewrite decide_True by done. Qed.

Lemma pending_positive_inv rr cs av : 0 < rr_nRibRoutes rr -> pending_ok rr cs av ->
  (forall i c, cs !! i = Some c -> rq_task c = ADVERTISE) /\ (forall d, rr_retryEvt rr <> Some (WITHDRAW, d)) /\
  (av = true -> cs <> ∅ \/ exists d, rr_retryEvt rr = Some (ADVERTISE, d)).
Proof. intros Hn. unfold pending_ok. by rewrite decide_False by lia. Qed.

Lemma pending_zero_inv rr cs av : rr_nRibRoutes rr = 0 -> pending_ok rr cs av ->
  av = true /\
  ((exists i s, cs = {[ i := mkRequest WITHDRAW s.1 s.2 ]} /\ forall d, rr_retryEvt rr <> Some (WITHDRAW, d)) \/
   (cs = ∅ /\ exists d, rr_retryEvt rr = Some (WITHDRAW, d))).
Proof. intros Hn. unfold pending_ok. by rewrite decide_True by done. Qed.

(** *** New routes *)

(** The state with an announcement started, if the destination is available. *)
Definition announced it (s : Signer) st : Readvertise :=
  if m_isAvailable st then startRequest ADVERTISE it s st else st.

Lemma advertise_ok p rr st :
  m_rrs st !! p = Some rr -> rr_nRibRoutes rr <> 0 ->
  advertise (p, rr_node rr) st = Some (announced (p, rr_node rr) (rr_signer rr) st).
Proof.
  intros Hp Hn. unfold advertise, announced. rewrite (rr_at_ok p rr st Hp). cbn [mbind option_bind].
  rewrite (proj2 (Z.eqb_neq _ _) Hn). by destruct (m_isAvailable st).
Qed.

Lemma announced_frame p a s st :
  requests st !! nextAddress st = None ->
  m_rrs (announced (p, a) s st) = m_rrs st /\ m_routeToRr (announced (p, a) s st) = m_routeToRr st /\
  m_isAvailable (announced (p, a) s st) = m_isAvailable st /\
  nextAddress st <= nextAddress (announced (p, a) s st) /\
  (forall q, q <> p -> requestsOf q (announced (p, a) s st) = requestsOf q st) /\
  (forall i c, requestsOf p (announced (p, a) s st) !! i = Some c ->
     requestsOf p st !! i = Some c \/
     i = nextAddress st /\ i < nextAddress (announced (p, a) s st) /\ c = mkRequest ADVERTISE (p, a) s) /\
  (m_isAvailable st = true -> requestsOf p (announced (p, a) s st) <> ∅).
Proof.
  intros Hf. unfold announced. destruct (m_isAvailable st) eqn:Ea.
  - split_and!; simpl; try done; try lia.
    + intros q Hq. by apply requestsOf_start_ne.
    + intros i c. rewrite requestsOf_start. intros [[<- <-]|[_ Hc]]%lookup_insert_Some; [right|by left]. split_and!; lia || done.
    + intros _. rewrite requestsOf_start. apply insert_non_empty.
  - split_and!; try done; try lia. intros i c Hc. by left.
Qed.

(** An announcement repairs a prefix for which none is pending. *)
Lemma announce_at p rr st :
  requests st !! nextAddress st = None -> m_rrs st !! p = Some rr -> 0 < rr_nRibRoutes rr ->
  route_ok p (Some rr) (requestsOf p st) (routesOf p st) false (nextAddress st) ->
  at_ok p (announced (p, rr_node rr) (rr_signer rr) st).
Proof.
  intros Hnone Hp Hn (A1 & A2 & A3 & A4 & A5 & A6 & A7).
  destruct (announced_frame p (rr_node rr) (rr_signer rr) st Hnone) as (B1 & B2 & B3 & B4 & B5 & B6 & B7).
  apply pending_positive_inv in A7 as (A7 & A8 & _); [|exact Hn].
  unfold at_ok. rewrite B1, Hp, B3. assert (routesOf p (announced (p, rr_node rr) (rr_signer rr) st) = routesOf p st) as ->
    by (unfold routesOf; by rewrite B2).
  split; [lia|]. split; [exact A2|]. split; [exact A3|]. split; [|split; [exact A5|split; [exact A6|]]].
  - intros i c [Hc|(_ & ? & ->)]%B6; [|done]. destruct (A4 i c Hc). split; [lia|done].
  - apply pending_positive; [exact Hn| |exact A8|intros E; left; by apply B7].
    intros i c [Hc|(_ & _ & ->)]%B6; [by eapply A7|done].
Qed.

Lemma announced_same p a s q st :
  requests st !! nextAddress st = None -> q <> p -> same_at q st (announced (p, a) s st).
Proof.
  intros Hnone Hq. destruct (announced_frame p a s st Hnone) as (B1 & B2 & _ & _ & B5 & _).
  split_and!; [by rewrite B1|by apply B5|]. unfold routesOf. by rewrite B2.
Qed.

Lemma same_at_trans q st1 st2 st3 : same_at q st1 st2 -> same_at q st2 st3 -> same_at q st1 st3.
Proof. intros (A1 & A2 & A3) (B1 & B2 & B3). split_and!; congruence. Qed.

Lemma announce_ok p rr st0 st :
  rv_ok st0 -> (forall q, q <> p -> same_at q st0 st) -> m_isAvailable st = m_isAvailable st0 ->
  nextAddress st0 <= nextAddress st -> requests st !! nextAddress st = None ->
  m_rrs st !! p = Some rr -> 0 < rr_nRibRoutes rr ->
  route_ok p (Some rr) (requestsOf p st) (routesOf p st) false (nextAddress st) ->
  advertise (p, rr_node rr) st = Some (announced (p, rr_node rr) (rr_signer rr) st) /\
  rv_ok (announced (p, rr_node rr) (rr_signer rr) st) /\
  m_routeToRr (announced (p, rr_node rr) (rr_signer rr) st) = m_routeToRr st.
Proof.
  intros Hok Hsame Hav Hfr Hnone Hp Hn Hat.
  destruct (announced_frame p (rr_node rr) (rr_signer rr) st Hnone) as (B1 & B2 & B3 & B4 & _).
  split; [apply advertise_ok; [exact Hp|lia]|]. split; [|exact B2].
  apply (rv_ok_frame p st0); [exact Hok|by rewrite B3|lia| |by apply announce_at].
  intros q Hq. eapply same_at_trans; [by apply Hsame|by apply announced_same].
Qed.

(** The premises of a calm addition: no withdrawal of the prefix is pending. *)
Definition calm_add n r st : Prop :=
  Z.of_nat (size (m_routeToRr st)) < 2 ^ 64 - 1 /\
  forall p s rr, handleNewRoute n r = Some (p, s) -> m_rrs st !! p = Some rr -> 0 < rr_nRibRoutes rr.

(** A further route for a prefix that is announced already. *)
Lemma afterAddRoute_existing n r st p s rr :
  rv_ok st -> m_routeToRr st !! (n, route_key r) = None -> Z.of_nat (size (m_routeToRr st)) < 2 ^ 64 - 1 ->
  handleNewRoute n r = Some (p, s) -> m_rrs st !! p = Some rr -> 0 < rr_nRibRoutes rr ->
  exists st', afterAddRoute n r st = Some st' /\ rv_ok st' /\
    exists a, m_routeToRr st' = <[(n, route_key r) := (p, a)]> (m_routeToRr st).
Proof.
  intros Hok Hk Hsize Eh Ep Hcalm. unfold afterAddRoute. rewrite Eh.
  pose proof (Hok p) as Hp. unfold at_ok in Hp. pose proof (size_routesOf p st) as Hrs.
  unfold emplace. rewrite Ep in Hp |- *.
  destruct Hp as (A1 & A2 & A3 & A4 & A5 & A6 & A7).
  rewrite (modify_ok p rr _ st Ep). cbn [mbind option_bind set_rrs m_routeToRr]. rewrite Hk.
  set (rr1 := set_signer s rr). set (st1 := set_index _ _).
  assert (m_rrs st1 !! p = Some rr1) as E1 by apply lookup_insert_eq.
  change (rr_node rr) with (rr_node rr1). rewrite (rr_at_ok p rr1 st1 E1).
  cbn [mbind option_bind]. rewrite (modify_ok p rr1 _ st1 E1). cbn [mbind option_bind]. change (rr_nRibRoutes rr1) with (rr_nRibRoutes rr).
  rewrite (proj2 (Z.ltb_lt _ _) Hcalm). eexists. split; [reflexivity|].
  destruct (routesOf_insert (n, route_key r) p (rr_node rr1) st Hk) as [R1 R2]. split; [|by exists (rr_node rr1)].
  apply (rv_ok_frame p st); [exact Hok|done|simpl; lia| |].
  + intros q Hq. split_and!; [simpl; by rewrite !lookup_insert_ne|done|by rewrite <-(R2 q Hq)].
  + unfold at_ok. simpl. rewrite lookup_insert_eq.
    change (routesOf p _) with (routesOf p (set_index (<[(n, route_key r) := (p, rr_node rr1)]> (m_routeToRr st)) st)).
    rewrite R1. apply pending_positive_inv in A7 as (B1 & B2 & B3); [|exact Hcalm].
    assert (routesOf p st !! (n, route_key r) = None) as Hn by (apply map_lookup_filter_None; by left).
    assert (u64 (rr_nRibRoutes rr + 1) = rr_nRibRoutes rr + 1) as Hu by (apply u64_id; lia).
    split; [exact A1|]. split; [rewrite map_size_insert_None by exact Hn; simpl; lia|].
    split; [intros k it [[_ <-]|[_ ?]]%lookup_insert_Some; [done|by eapply A3]|].
    split; [exact A4|]. split; [exact A5|]. split; [exact A6|].
    apply pending_positive; [simpl; lia|exact B1|exact B2|exact B3].
Qed.

(** The first route for a prefix. *)
Lemma afterAddRoute_new n r st p s :
  rv_ok st -> m_routeToRr st !! (n, route_key r) = None ->
  handleNewRoute n r = Some (p, s) -> m_rrs st !! p = None ->
  exists st', afterAddRoute n r st = Some st' /\ rv_ok st' /\
    exists a, m_routeToRr st' = <[(n, route_key r) := (p, a)]> (m_routeToRr st).
Proof.
  intros Hok Hk Eh Ep. unfold afterAddRoute. rewrite Eh. pose proof (Hok p) as Hp. unfold at_ok in Hp.
  pose proof (requests_fresh st (nextAddress st + 1) Hok ltac:(lia)) as Hf1.
  unfold emplace. rewrite Ep in Hp |- *.
  destruct Hp as [Hcs Hix]. set (rr0 := mkRr (nextAddress st) noSigner 0 0 None). set (st0 := mkReadvertise _ _ _ _ _).
  assert (m_rrs st0 !! p = Some rr0) as E0 by apply lookup_insert_eq.
  change (nextAddress st) with (rr_node rr0). rewrite (modify_ok p rr0 _ st0 E0).
  cbn [mbind option_bind set_rrs m_routeToRr]. change (m_routeToRr st0) with (m_routeToRr st). rewrite Hk.
  set (rr1 := set_signer s rr0). set (st1 := set_index _ _).
  assert (m_rrs st1 !! p = Some rr1) as E1 by apply lookup_insert_eq.
  change (rr_node rr0) with (rr_node rr1). rewrite (rr_at_ok p rr1 st1 E1).
  cbn [mbind option_bind]. rewrite (modify_ok p rr1 _ st1 E1). cbn [mbind option_bind]. change (rr_nRibRoutes rr1) with 0. change (0 <? 0) with false. cbn iota.
  set (rr2 := set_nRibRoutes (u64 (0 + 1)) rr1). set (st2 := set_rrs _ st1).
  assert (m_rrs st2 !! p = Some rr2) as E2 by apply lookup_insert_eq.
  change (rr_node rr1) with (rr_node rr2). rewrite (modify_ok p rr2 _ st2 E2). cbn [mbind option_bind].
  set (rr3 := set_retryDelay RETRY_DELAY_MIN rr2). set (st3 := set_rrs _ st2).
  assert (m_rrs st3 !! p = Some rr3) as E3 by apply lookup_insert_eq.
  change (rr_node rr2) with (rr_node rr3).
  destruct (routesOf_insert (n, route_key r) p (nextAddress st) st Hk) as [R1 R2].
  destruct (announce_ok p rr3 st st3) as (-> & Hok' & Hix'); try done.
  + intros q Hq. split_and!; [simpl; by rewrite !lookup_insert_ne|done|by rewrite <-(R2 q Hq)].
  + simpl. lia.
  + change (routesOf p st3) with (routesOf p (set_index (<[(n, route_key r) := (p, nextAddress st)]> (m_routeToRr st)) st)).
    change (requestsOf p st3) with (requestsOf p st). rewrite R1, Hix, Hcs.
    split; [simpl; lia|]. split; [by rewrite insert_empty, map_size_singleton|].
    split; [intros k it [[_ <-]|[_ ?]]%lookup_insert_Some; [done|by rewrite lookup_empty in *]|].
    split; [intros i c ?; by rewrite lookup_empty in *|]. split; [unfold RETRY_DELAY_MIN, RETRY_DELAY_MAX; simpl; unfold RETRY_DELAY_MIN; lia|].
    split; [done|]. apply pending_positive; [by vm_compute|intros i c ?; by rewrite lookup_empty in *|done|done].
  + eexists. split; [reflexivity|]. split; [exact Hok'|]. rewrite Hix'. by eexists.
Qed.

Lemma afterAddRoute_ok n r st :
  rv_ok st -> m_routeToRr st !! (n, route_key r) = None -> calm_add n r st ->
  exists st', afterAddRoute n r st = Some st' /\ rv_ok st' /\
    match handleNewRoute n r with
    | None => st' = st
    | Some (p, _) => exists a, m_routeToRr st' = <[(n, route_key r) := (p, a)]> (m_routeToRr st)
    end.
Proof.
  intros Hok Hk [Hsize Hcalm]. destruct (handleNewRoute n r) as [[p s]|] eqn:Eh.
  - destruct (m_rrs st !! p) as [rr|] eqn:Ep; [|by eapply afterAddRoute_new].
    eapply afterAddRoute_existing; [done..|]. by eapply Hcalm.
  - exists st. unfold afterAddRoute. by rewrite Eh.
Qed.

(** *** Removed routes *)

Lemma withdraw_ok p rr st0 st :
  rv_ok st0 -> (forall q, q <> p -> same_at q st0 st) -> m_isAvailable st = m_isAvailable st0 ->
  nextAddress st0 <= nextAddress st -> requests st !! nextAddress st = None ->
  m_rrs st !! p = Some rr -> rr_nRibRoutes rr = 0 -> requestsOf p st = ∅ -> routesOf p st = ∅ ->
  rr_node rr < nextAddress st -> RETRY_DELAY_MIN <= rr_retryDelay rr <= RETRY_DELAY_MAX ->
  (forall t d, rr_retryEvt rr = Some (t, d) -> t = ADVERTISE /\ 0 <= d) ->
  exists st', withdraw (p, rr_node rr) st = Some st' /\ rv_ok st' /\ m_routeToRr st' = m_routeToRr st.
Proof.
  intros Hok Hsame Hav Hfr Hnone Hp Hn Hcs Hix Hnode Hdelay Hevt.
  unfold withdraw. rewrite (rr_at_ok p rr st Hp). cbn [mbind option_bind]. rewrite Hn. cbn [Z.eqb negb].
  destruct (m_isAvailable st) eqn:Ea; cbn [negb].
  - eexists. split; [reflexivity|]. split; [|done]. apply (rv_ok_frame p st0); [exact Hok|by rewrite <-Hav|simpl; lia| |].
    + intros q Hq. destruct (Hsame q Hq) as (E1 & E2 & E3). split_and!; [done| |done]. by rewrite requestsOf_start_ne.
    + unfold at_ok. simpl. rewrite Hp, requestsOf_start, Hcs, insert_empty.
      change (routesOf p (startRequest _ _ _ _)) with (routesOf p st). rewrite Hix, Ea.
      split; [lia|]. split; [done|]. split; [intros k it ?; by rewrite lookup_empty in *|].
      split; [intros i c [<- <-]%lookup_singleton_Some; split; [lia|done]|]. split; [done|].
      split; [intros t d Ht; by apply Hevt in Ht as [_ ?]|]. apply pending_zero; [done|]. left.
      exists (nextAddress st), ((p, rr_node rr), rr_signer rr). split; [done|]. intros d Hd. by apply Hevt in Hd as [? _].
  - rewrite (erase_rr_ok p rr st Hp). eexists. split; [reflexivity|]. split; [|done].
    apply (rv_ok_frame p st0); [exact Hok|by rewrite <-Hav|simpl; lia| |].
    + intros q Hq. destruct (Hsame q Hq) as (E1 & E2 & E3). split_and!; [simpl; by rewrite lookup_delete_ne|done|done].
    + unfold at_ok. simpl. by rewrite lookup_delete_eq.
Qed.

(** A calm removal: no announcement is under way for a prefix that loses its last
    route. *)
Definition calm_remove n r st : Prop :=
  forall it, m_routeToRr st !! (n, route_key r) = Some it -> size (routesOf it.1 st) = 1%nat -> requestsOf it.1 st = ∅.

Lemma beforeRemoveRoute_ok n r st :
  rv_ok st -> Z.of_nat (size (m_routeToRr st)) < 2 ^ 64 -> calm_remove n r st ->
  exists st', beforeRemoveRoute n r st = Some st' /\ rv_ok st' /\
    m_routeToRr st' = delete (n, route_key r) (m_routeToRr st).
Proof.
  intros Hok Hsize Hcalm. unfold beforeRemoveRoute.
  destruct (m_routeToRr st !! (n, route_key r)) as [it|] eqn:Ek; [|exists st; by rewrite delete_id].
  specialize (Hcalm it Ek). pose proof (routesOf_elem _ _ _ Ek) as Hin. destruct it as [p a]. simpl in Hin, Hcalm.
  pose proof (Hok p) as Hp. unfold at_ok in Hp. destruct (m_rrs st !! p) as [rr|] eqn:Ep;
    [|destruct Hp as [_ Hix]; by rewrite Hix, lookup_empty in Hin].
  destruct Hp as (A1 & A2 & A3 & A4 & A5 & A6 & A7). pose proof (A3 _ _ Hin) as [= ->].
  destruct (routesOf_delete _ _ _ Ek) as [R1 R2]. simpl in R1, R2.
  set (st1 := set_index _ st) in *. assert (m_rrs st1 !! p = Some rr) as E1 by exact Ep.
  rewrite (rr_at_ok p rr st1 E1). cbn [mbind option_bind]. rewrite (modify_ok p rr _ st1 E1). cbn [mbind option_bind].
  pose proof (size_routesOf p st) as Hrs. assert (size (routesOf p st) <> 0%nat) as Hnz.
  { intros Hz%map_size_empty_iff. by rewrite Hz, lookup_empty in Hin. }
  pose proof (map_size_delete_Some (n, route_key r) (routesOf p st) (mk_is_Some _ _ Hin)) as Hdel. rewrite <-R1 in Hdel.
  assert (u64 (rr_nRibRoutes rr - 1) = Z.of_nat (size (routesOf p st1))) as Hu by (rewrite u64_id; lia). rewrite Hu.
  apply pending_positive_inv in A7 as (B1 & B2 & B3); [|lia].
  set (rr1 := set_nRibRoutes _ rr). set (st2 := set_rrs _ st1).
  assert (m_rrs st2 !! p = Some rr1) as E2 by apply lookup_insert_eq.
  assert (forall q, q <> p -> same_at q st st2) as Hsame.
  { intros q Hq. split_and!; [simpl; by rewrite lookup_insert_ne|done|by rewrite <-(R2 q Hq)]. }
  assert (forall k it, routesOf p st1 !! k = Some it -> it = (p, rr_node rr)) as A3'.
  { intros k it. rewrite R1. intros [_ ?]%lookup_delete_Some. by eapply A3. }
  destruct (Z.ltb_spec 0 (Z.of_nat (size (routesOf p st1)))) as [Hpos|Hzero].
  - eexists. split; [reflexivity|]. split; [|done]. apply (rv_ok_frame p st); [done..|simpl; lia|done|].
    unfold at_ok. rewrite E2. change (routesOf p st2) with (routesOf p st1). change (requestsOf p st2) with (requestsOf p st).
    split; [done|]. split; [done|]. split; [done|]. split; [done|]. split; [done|]. split; [done|].
    by apply pending_positive.
  - change (rr_node rr) with (rr_node rr1). rewrite (modify_ok p rr1 _ st2 E2). cbn [mbind option_bind].
    set (rr2 := set_retryDelay _ rr1). set (st3 := set_rrs _ st2). change (rr_node rr1) with (rr_node rr2).
    destruct (withdraw_ok p rr2 st st3) as (st' & -> & Hok' & Hix); try done.
    + intros q Hq. destruct (Hsame q Hq) as (F1 & F2 & F3). split_and!; [simpl; by rewrite !lookup_insert_ne|done|done].
    + by apply (requests_fresh st).
    + apply lookup_insert_eq.
    + simpl. lia.
    + apply Hcalm. lia.
    + change (routesOf p st3) with (routesOf p st1). apply map_size_empty_iff. lia.
    + intros t d Ht. split; [|by eapply A6]. destruct t; [done|]. by apply B2 in Ht.
    + exists st'. split; [done|]. split; [done|]. by rewrite Hix.
Qed.

(** *** Answers and timers *)

Lemma request_at i c st :
  rv_ok st -> requests st !! i = Some c ->
  exists rr, m_rrs st !! (rq_iter c).1 = Some rr /\ rq_iter c = ((rq_iter c).1, rr_node rr) /\
    requestsOf (rq_iter c).1 st !! i = Some c.
Proof.
  intros Hok Hc. assert (requestsOf (rq_iter c).1 st !! i = Some c) as Hin by (by apply map_lookup_filter_Some).
  specialize (Hok (rq_iter c).1). unfold at_ok in Hok. destruct (m_rrs st !! _) as [rr|].
  - exists rr. destruct Hok as (_ & _ & _ & Hcs & _). by destruct (Hcs i c Hin) as [_ ->].
  - destruct Hok as [Hcs _]. by rewrite Hcs, lookup_empty in Hin.
Qed.

Lemma doubled_range rr :
  RETRY_DELAY_MIN <= rr_retryDelay rr -> RETRY_DELAY_MIN <= doubled rr <= RETRY_DELAY_MAX.
Proof. unfold doubled, RETRY_DELAY_MIN, RETRY_DELAY_MAX. lia. Qed.

Lemma randomizeTimer_nonneg base j : 0 <= randomizeTimer base j.
Proof. unfold randomizeTimer. lia. Qed.

(** The prefix of a request gets a new delay and event when the request fails or
    an announcement succeeds. *)
Lemma rescheduled_ok i c rr st d e :
  rv_ok st -> requests st !! i = Some c -> m_rrs st !! (rq_iter c).1 = Some rr ->
  RETRY_DELAY_MIN <= d <= RETRY_DELAY_MAX -> 0 <= e ->
  let st1 := set_requests (delete i (requests st)) st in
  rv_ok (set_rrs (<[(rq_iter c).1 := set_retryEvt (Some (rq_task c, e)) (set_retryDelay d rr)]> (m_rrs st1)) st1).
Proof.
  intros Hok Hc Ep Hd He st1. destruct (request_at i c st Hok Hc) as (rr' & Ep' & Hit & Hin).
  rewrite Ep in Ep'. injection Ep' as <-. set (p := (rq_iter c).1) in *.
  destruct (requestsOf_answer i c p st Hc eq_refl) as [Q1 Q2]. pose proof (Hok p) as Hp. unfold at_ok in Hp. rewrite Ep in Hp.
  destruct Hp as (A1 & A2 & A3 & A4 & A5 & A6 & A7).
  apply (rv_ok_frame p st); [exact Hok|done|simpl; lia| |].
  { intros q Hq. split_and!; [simpl; by rewrite lookup_insert_ne|by rewrite <-(Q2 q Hq)|done]. }
  unfold at_ok. simpl. rewrite lookup_insert_eq. change (requestsOf p (set_rrs _ _)) with (requestsOf p (set_requests (delete i (requests st)) st)). rewrite Q1.
  split; [exact A1|]. split; [exact A2|]. split; [exact A3|].
  split; [intros j c' [_ Hc']%lookup_delete_Some; by apply A4|]. split; [exact Hd|]. split; [by intros t e' [= <- <-]|].
  destruct (decide (rr_nRibRoutes rr = 0)) as [Hz|Hnz].
  - apply pending_zero_inv in A7 as [-> [(j & s & Hcs & He')|[Hcs _]]]; [|by rewrite Hcs, lookup_empty in Hin|exact Hz].
    rewrite Hcs in Hin. apply lookup_singleton_Some in Hin as [-> <-]. apply pending_zero; [exact Hz|]. right.
    split; [rewrite Hcs; apply delete_singleton_eq|]. by exists e.
  - apply pending_positive_inv in A7 as (B1 & B2 & B3); [|lia]. pose proof (B1 i c Hin) as Ht.
    apply pending_positive; [simpl; lia| | |].
    + intros j c' [_ Hc']%lookup_delete_Some. by eapply B1.
    + intros d'. simpl. rewrite Ht. by intros [=].
    + intros _. right. exists e. simpl. by rewrite Ht.
Qed.

Lemma onAnswer_ok i success jitter st :
  rv_ok st -> is_Some (requests st !! i) ->
  exists st', onAnswer i success jitter st = Some st' /\ rv_ok st' /\ m_routeToRr st' = m_routeToRr st.
Proof.
  intros Hok [c Hc]. unfold onAnswer. rewrite Hc. cbn [mbind option_bind].
  destruct (request_at i c st Hok Hc) as (rr & Ep & Hit & Hin). set (st1 := set_requests _ st).
  assert (m_rrs st1 !! (rq_iter c).1 = Some rr) as E1 by exact Ep.
  pose proof (Hok (rq_iter c).1) as Hp. unfold at_ok in Hp. rewrite Ep in Hp.
  destruct Hp as (A1 & A2 & A3 & A4 & A5 & A6 & A7). rewrite Hit.
  destruct success.
  - unfold onSuccess. destruct (rq_task c) eqn:Et.
    + rewrite (modify_ok _ rr _ st1 E1). eexists. split; [reflexivity|]. split; [|done]. rewrite <-Et.
      apply (rescheduled_ok i c rr st); try done. apply randomizeTimer_nonneg.
    + rewrite (erase_rr_ok _ rr st1 E1). eexists. split; [reflexivity|]. split; [|done].
      set (p := (rq_iter c).1) in *. destruct (requestsOf_answer i c p st Hc eq_refl) as [Q1 Q2].
      assert (rr_nRibRoutes rr = 0) as Hz.
      { destruct (decide (rr_nRibRoutes rr = 0)); [done|]. apply pending_positive_inv in A7 as (B1 & _); [|lia].
        apply B1 in Hin. congruence. }
      apply pending_zero_inv in A7 as [_ [(j & s & Hcs & _)|[Hcs _]]]; [|by rewrite Hcs, lookup_empty in Hin|exact Hz].
      rewrite Hcs in Hin. apply lookup_singleton_Some in Hin as [-> _].
      apply (rv_ok_frame p st); [exact Hok|done|simpl; lia| |].
      * intros q Hq. split_and!; [simpl; by rewrite lookup_delete_ne|by rewrite <-(Q2 q Hq)|done].
      * unfold at_ok. simpl. rewrite lookup_delete_eq. change (requestsOf p (set_rrs _ _)) with (requestsOf p (set_requests (delete i (requests st)) st)).
        rewrite Q1, Hcs. split; [apply delete_singleton_eq|]. change (routesOf p st = ∅). apply map_size_empty_iff. lia.
  - unfold onFailure. rewrite (modify_ok _ rr _ st1 E1). eexists. split; [reflexivity|]. split; [|done].
    apply (rescheduled_ok i c rr st); try done; [|apply randomizeTimer_nonneg]. apply doubled_range, A5.
Qed.

(** A calm event: the refresh of an announcement does not fire while the prefix is
    being withdrawn. *)
Definition calm_timer p st : Prop :=
  exists rr t d, m_rrs st !! p = Some rr /\ rr_retryEvt rr = Some (t, d) /\ (rr_nRibRoutes rr = 0 -> t = WITHDRAW).

Lemma onTimer_ok p st :
  rv_ok st -> calm_timer p st ->
  exists st', onTimer p st = Some st' /\ rv_ok st' /\ m_routeToRr st' = m_routeToRr st.
Proof.
  intros Hok (rr & t & d & Ep & Et & Hcalm). unfold onTimer. rewrite Ep. cbn [mbind option_bind]. rewrite Et.
  rewrite (modify_ok p rr _ st Ep). cbn [mbind option_bind]. set (rr1 := set_retryEvt None rr). set (st1 := set_rrs _ st).
  change (rr_node rr) with (rr_node rr1). assert (m_rrs st1 !! p = Some rr1) as E1 by apply lookup_insert_eq.
  pose proof (Hok p) as Hp. unfold at_ok in Hp. rewrite Ep in Hp. destruct Hp as (A1 & A2 & A3 & A4 & A5 & A6 & A7).
  assert (forall q, q <> p -> same_at q st st1) as Hsame by (intros q Hq; split_and!; [simpl; by rewrite lookup_insert_ne|done|done]).
  pose proof (requests_fresh st (nextAddress st) Hok ltac:(lia)) as Hf.
  destruct (decide (rr_nRibRoutes rr = 0)) as [Hz|Hnz].
  - rewrite (Hcalm Hz) in *. apply pending_zero_inv in A7 as [Hav [(j & s & _ & He)|[Hcs _]]]; [by apply He in Et| |exact Hz].
    apply (withdraw_ok p rr1 st st1); try done. change (routesOf p st = ∅). apply map_size_empty_iff. lia.
  - apply pending_positive_inv in A7 as (B1 & B2 & B3); [|lia]. destruct t; [|by apply B2 in Et].
    eexists. apply (announce_ok p rr1 st st1); try done; [simpl; lia|].
    split; [done|]. split; [done|]. split; [done|]. split; [done|]. split; [done|]. split; [by intros ??|].
    apply pending_positive; [simpl; lia|done|done|done].
Qed.

(** *** Availability of the destination *)

(** The prefixes of [l] are as before the change to [b], the others as after. *)
Definition half_ok (b : bool) (l : list Name) st : Prop :=
  m_isAvailable st = b /\ (forall p, p ∈ l -> is_Some (m_rrs st !! p)) /\
  forall p, route_ok p (m_rrs st !! p) (requestsOf p st) (routesOf p st) (if decide (p ∈ l) then negb b else b) (nextAddress st).

Lemma half_ok_frame b p l st st' :
  half_ok b (p :: l) st -> p ∉ l -> m_isAvailable st' = b -> nextAddress st <= nextAddress st' ->
  (forall q, q <> p -> same_at q st st') -> at_ok p st' -> half_ok b l st'.
Proof.
  intros (Hav & Hl & Hok) Hp Hav' Hfr Hsame Hat. split; [exact Hav'|]. split.
  - intros q Hq. destruct (Hsame q) as (-> & _); [by intros ->|]. apply Hl. by right.
  - intros q. destruct (decide (q = p)) as [->|Hne].
    + unfold at_ok in Hat. rewrite Hav' in Hat. rewrite decide_False by done. exact Hat.
    + destruct (Hsame q Hne) as (-> & -> & ->). eapply route_ok_mono; [exact Hfr|]. specialize (Hok q).
      destruct (decide (q ∈ l)) as [Hq|Hq].
      * by rewrite decide_True in Hok by (by right).
      * by rewrite decide_False in Hok by (intros [?|?]%elem_of_cons; done).
Qed.

Lemma half_ok_nil b st : half_ok b [] st -> rv_ok st.
Proof. intros (Hav & _ & Hok) p. unfold at_ok. rewrite Hav. exact (Hok p). Qed.

Lemma available_loop l : forall st,
  NoDup l -> half_ok true l st ->
  exists st', foldl available_step (Some st) l = Some st' /\ rv_ok st' /\ m_routeToRr st' = m_routeToRr st.
Proof.
  induction l as [|p l IH]; intros st Hnd Hst; [exists st; split; [done|]; split; [by eapply half_ok_nil|done]|].
  apply NoDup_cons in Hnd as [Hp Hnd]. cbn [foldl]. pose proof Hst as (Hav & Hl & Hok).
  destruct (Hl p) as [rr Ep]; [by left|]. pose proof (Hok p) as Hat. rewrite Ep, decide_True in Hat by (by left).
  unfold available_step at 2. cbn [mbind option_bind]. rewrite Ep. cbn [mbind option_bind].
  rewrite (modify_ok p rr _ st Ep). cbn [mbind option_bind]. set (rr1 := set_retryDelay _ rr). set (st1 := set_rrs _ st).
  assert (m_rrs st1 !! p = Some rr1) as E1 by apply lookup_insert_eq. change (rr_node rr) with (rr_node rr1).
  destruct Hat as (A1 & A2 & A3 & A4 & A5 & A6 & A7).
  assert (rr_nRibRoutes rr <> 0) as Hnz by (intros Hz; by apply pending_zero_inv in A7 as [? _]).
  rewrite (advertise_ok p rr1 st1 E1 Hnz).
  assert (requests st1 !! nextAddress st1 = None) as Hnone by (eapply (requests_new st); [exact Hok|done]).
  destruct (announced_frame p (rr_node rr1) (rr_signer rr1) st1 Hnone) as (_ & B2 & B3 & B4 & _).
  destruct (IH (announced (p, rr_node rr1) (rr_signer rr1) st1)) as (st' & -> & Hok' & Hix); [exact Hnd| |].
  - eapply (half_ok_frame true p l st); [exact Hst|exact Hp|by rewrite B3|exact B4| |].
    + intros q Hq. eapply same_at_trans; [|by apply announced_same]. split_and!; [simpl; by rewrite lookup_insert_ne|done|done].
    + apply announce_at; [exact Hnone|exact E1|simpl; lia|].
      split; [done|]. split; [done|]. split; [done|]. split; [done|].
      split; [unfold rr1, RETRY_DELAY_MAX; simpl; unfold RETRY_DELAY_MIN; lia|]. split; [done|].
      apply pending_positive_inv in A7 as (C1 & C2 & C3); [|lia]. by apply pending_positive; [simpl; lia|..].
  - exists st'. split; [done|]. split; [done|]. by rewrite Hix, B2.
Qed.

Lemma unavailable_loop l : forall st,
  NoDup l -> half_ok false l st -> (forall i c, requests st !! i = Some c -> rq_task c = ADVERTISE) ->
  exists st', foldl unavailable_step (Some st) l = Some st' /\ rv_ok st' /\ m_routeToRr st' = m_routeToRr st.
Proof.
  induction l as [|p l IH]; intros st Hnd Hst Hcalm; [exists st; split; [done|]; split; [by eapply half_ok_nil|done]|].
  apply NoDup_cons in Hnd as [Hp Hnd]. cbn [foldl]. pose proof Hst as (Hav & Hl & Hok).
  destruct (Hl p) as [rr Ep]; [by left|]. pose proof (Hok p) as Hat. rewrite Ep, decide_True in Hat by (by left).
  unfold unavailable_step at 2. cbn [mbind option_bind]. rewrite Ep. cbn [mbind option_bind].
  destruct Hat as (A1 & A2 & A3 & A4 & A5 & A6 & A7).
  assert (forall st', (forall q, q <> p -> same_at q st st') -> at_ok p st' -> m_isAvailable st' = false ->
    nextAddress st' = nextAddress st -> requests st' = requests st -> m_routeToRr st' = m_routeToRr st ->
    exists st'', foldl unavailable_step (Some st') l = Some st'' /\ rv_ok st'' /\ m_routeToRr st'' = m_routeToRr st) as Hnext.
  { intros st' Hsame Hat' Hav' Hfr Hrq Hix. destruct (IH st') as (st'' & -> & Hok'' & Hix''); [exact Hnd| | |].
    - eapply half_ok_frame; [exact Hst|exact Hp|exact Hav'|lia|exact Hsame|exact Hat'].
    - by rewrite Hrq.
    - exists st''. split; [done|]. split; [done|]. congruence. }
  destruct (Z.ltb_spec 0 (rr_nRibRoutes rr)) as [Hpos|Hzero].
  - rewrite (modify_ok p rr _ st Ep). apply Hnext; try done.
    + intros q Hq. split_and!; [simpl; by rewrite lookup_insert_ne|done|done].
    + unfold at_ok. simpl. rewrite lookup_insert_eq, Hav.
      split; [done|]. split; [done|]. split; [done|]. split; [done|]. split; [done|]. split; [done|].
      apply pending_positive_inv in A7 as (C1 & C2 & C3); [|lia]. by apply pending_positive; [simpl; lia|..].
  - rewrite (erase_rr_ok p rr st Ep). apply Hnext; try done.
    + intros q Hq. split_and!; [simpl; by rewrite lookup_delete_ne|done|done].
    + unfold at_ok. simpl. rewrite lookup_delete_eq. assert (rr_nRibRoutes rr = 0) as Hz by lia.
      split; [|change (routesOf p st = ∅); apply map_size_empty_iff; lia].
      apply pending_zero_inv in A7 as [_ [(j & s & Hcs & _)|[Hcs _]]]; [|exact Hcs|exact Hz]. exfalso.
      assert (requestsOf p st !! j = Some (mkRequest WITHDRAW s.1 s.2)) as Hj by (rewrite Hcs; apply lookup_singleton_eq).
      apply map_lookup_filter_Some in Hj as [Hj _]. by apply Hcalm in Hj.
Qed.

Lemma prefixes_spec st : NoDup (prefixes st) /\ forall p, p ∈ prefixes st <-> is_Some (m_rrs st !! p).
Proof.
  unfold prefixes. split.
  - rewrite merge_sort_Permutation. apply NoDup_fst_map_to_list.
  - intros p. rewrite merge_sort_Permutation, list_elem_of_fmap. split.
    + intros ([p' rr] & -> & Hp%elem_of_map_to_list). by eexists.
    + intros [rr Hp]. exists (p, rr). split; [done|]. by apply elem_of_map_to_list.
Qed.

(** A calm loss of the destination: no withdrawal is under way. *)
Definition calm_unavailable st : Prop := forall i c, requests st !! i = Some c -> rq_task c = ADVERTISE.

Lemma setAvailability_ok b st :
  rv_ok st -> (b = false -> calm_unavailable st) ->
  exists st', setAvailability b st = Some st' /\ rv_ok st' /\ m_routeToRr st' = m_routeToRr st.
Proof.
  intros Hok Hcalm. unfold setAvailability. destruct (Bool.eqb (m_isAvailable st) b) eqn:Eb; [by exists st|].
  assert (m_isAvailable st = negb b) as Hav by (by destruct (m_isAvailable st), b).
  destruct (prefixes_spec (set_available b st)) as [Hnd Hin].
  assert (half_ok b (prefixes (set_available b st)) (set_available b st)) as Hh.
  { split; [done|]. split; [intros p Hp; by apply Hin|]. intros p. pose proof (Hok p) as Hp. unfold at_ok in Hp.
    rewrite Hav in Hp. case_decide as Hd; [exact Hp|]. destruct (m_rrs st !! p) as [rr|] eqn:Ep.
    - exfalso. apply Hd, Hin. by exists rr.
    - simpl. rewrite Ep. exact Hp. }
  destruct b.
  - destruct (available_loop _ _ Hnd Hh) as (st' & He & Hok' & Hix). exists st'. by split.
  - destruct (unavailable_loop _ _ Hnd Hh (Hcalm eq_refl)) as (st' & He & Hok' & Hix). exists st'. by split.
Qed.
End Readvertise.
