(* ===== verification/ReadvertiseSystem.v ===== *)
(** * Readvertising a RIB

    The RIB ([rib/rib.cpp]) with its readvertisement ([rib/readvertise/]): the
    signals of the RIB reach the readvertisement and its destination, the answers
    to commands and the scheduled events come in any order. Runs are calm when a
    prefix is not announced again while its withdrawal is pending, not withdrawn
    while its announcement is under way, and the destination is not lost while a
    withdrawal is under way; without this the code uses erased nodes. The two
    policies that the daemon has are at the end. *)

From S2P Require Import Prelude Ndn Rib Readvertise.
Local Open Scope Z_scope.

Section System.
Context {C Ann Signer : Type} `{ReadvertisePolicy C Ann Signer} `{!RouteFlags}.
Notation Name := (list C).
Notation Route := (Route (Ann:=Ann)).
Notation Rib := (Rib (C:=C) (Ann:=Ann)).
Notation Readvertise := (Readvertise (C:=C) (Signer:=Signer)).
Context (noSigner : Signer) (commandPrefix : Name).
Implicit Types (n p : Name) (r : Route) (rib : Rib) (st : Readvertise) (k : Z * Z).

(** ** The signals of the RIB *)

(** The signals that an operation on the RIB emits. *)
Definition emitted rib rib' : list RibSignal := drop (length (rib_signals rib)) (rib_signals rib').

Lemma emitted_app rib rib' l : rib_signals rib' = rib_signals rib ++ l -> emitted rib rib' = l.
Proof. intros Hl. unfold emitted. by rewrite Hl, drop_app_length. Qed.

Lemma insert_signals n r rib rib' :
  rib_insert n r rib = Some rib' ->
  match route_at n (route_key r) rib with
  | Some _ => emitted rib rib' = []
  | None => emitted rib rib' = [AfterAddRoute n r] \/ emitted rib rib' = [AfterInsertEntry n; AfterAddRoute n r]
  end.
Proof.
  rewrite <-rib_find_at. unfold rib_insert, rib_find. destruct (m_rib rib !! n) as [e|] eqn:En; cbn [mbind option_bind].
  - unfold insertRoute. destruct (findRoute r e) as [r0|] eqn:Ef; cbn [mbind option_bind]; intros [= <-].
    + apply emitted_app. by rewrite app_nil_r.
    + left. by apply emitted_app.
  - intros Hi. right. apply emitted_app. destruct (findParent n _) as [q|]; [destruct (addChild q n _); [|done]|];
      cbn [mbind option_bind] in Hi; (destruct (foldl _ _ _); [|done]); cbn [mbind option_bind] in Hi; by injection Hi as <-.
Qed.

Lemma erase_signals n r rib rib' :
  rib_erase n r rib = Some rib' ->
  match route_at n (route_key r) rib with
  | None => emitted rib rib' = []
  | Some route => emitted rib rib' = [BeforeRemoveRoute n route] \/
                  emitted rib rib' = [BeforeRemoveRoute n route; AfterEraseEntry n]
  end.
Proof.
  rewrite <-rib_find_at. unfold rib_erase, rib_find. destruct (m_rib rib !! n) as [e|] eqn:En; cbn [mbind option_bind].
  - unfold eraseRoute. destruct (findRoute r e) as [r0|] eqn:Ef.
    + case_bool_decide.
      * destruct (eraseEntry n _); cbn [mbind option_bind]; intros [= <-]. right. apply emitted_app. simpl. by rewrite <-app_assoc.
      * intros [= <-]. left. by apply emitted_app.
    + intros [= <-]. apply emitted_app. by rewrite app_nil_r.
  - intros [= <-]. apply emitted_app. by rewrite app_nil_r.
Qed.

(** ** The system *)

Record System := mkSystem { sys_rib : Rib; sys_rv : Readvertise }.
Implicit Types s : System.

Definition newSystem : System := mkSystem newRib newReadvertise.

(** An operation on the RIB with its signals, the answer to a request with the
    random part of the next delay, and an event of the scheduler. *)
Inductive SystemEvent :=
  | RibChange (op : RibOp (C:=C) (Ann:=Ann))
  | Answer (i : Z) (success : bool) (jitter : Z)
  | Timer (prefix : Name).

Definition sys_step (e : SystemEvent) s : option System :=
  match e with
  | RibChange op =>
      rib ← rib_step op (sys_rib s);
      rv ← onSignals noSigner commandPrefix (emitted (sys_rib s) rib) (sys_rv s);
      Some (mkSystem rib rv)
  | Answer i success jitter => rv ← onAnswer (Ann:=Ann) i success jitter (sys_rv s); Some (mkSystem (sys_rib s) rv)
  | Timer p => rv ← onTimer p (sys_rv s); Some (mkSystem (sys_rib s) rv)
  end.

Definition calm_signal (x : RibSignal) st : Prop :=
  match x with
  | AfterInsertEntry _ => True
  | AfterEraseEntry n => isPrefixOf n commandPrefix = true -> calm_unavailable st
  | AfterAddRoute n r => calm_add n r st
  | BeforeRemoveRoute n r => calm_remove n r st
  end.

(** Every signal is calm when it is delivered. *)
Fixpoint calm_signals (l : list RibSignal) st : Prop :=
  match l with
  | [] => True
  | x :: l => calm_signal x st /\ forall st', onSignal noSigner commandPrefix x st = Some st' -> calm_signals l st'
  end.

Definition calm (e : SystemEvent) s : Prop :=
  match e with
  | RibChange op => forall rib, rib_step op (sys_rib s) = Some rib -> calm_signals (emitted (sys_rib s) rib) (sys_rv s)
  | Answer i _ _ => is_Some (requests (sys_rv s) !! i)
  | Timer p => calm_timer p (sys_rv s)
  end.

(** The prefix under which the policy announces the route of a key. *)
Definition wanted n k rib : option Name := r ← route_at n k rib; fst <$> handleNewRoute n r.

(** Routes are indexed under the prefix that the policy wants for them. *)
Definition index_ok rib st : Prop := forall n k, fst <$> m_routeToRr st !! (n, k) = wanted n k rib.

Definition sys_ok s : Prop :=
  rib_ok (sys_rib s) /\ rv_ok (sys_rv s) /\ index_ok (sys_rib s) (sys_rv s) /\
  Z.of_nat (size (m_routeToRr (sys_rv s))) < 2 ^ 64.

Lemma newSystem_ok : sys_ok newSystem.
Proof.
  split; [apply newRib_ok|]. split; [|split; [|done]].
  - intros p. unfold at_ok. simpl. rewrite lookup_empty. unfold requestsOf, routesOf. simpl. by rewrite !map_filter_empty.
  - intros n k. unfold wanted, route_at. simpl. by rewrite lookup_empty, fmap_empty, lookup_empty.
Qed.

(** Signals of availability leave the index. *)
Lemma availability_ok n x st :
  x = AfterInsertEntry n \/ x = AfterEraseEntry n -> rv_ok st -> calm_signal x st ->
  exists st', onSignal noSigner commandPrefix x st = Some st' /\ rv_ok st' /\ m_routeToRr st' = m_routeToRr st.
Proof.
  intros [-> | ->] Hok Hcalm; simpl; [unfold handleRibInsert|unfold handleRibErase];
    (destruct (isPrefixOf n commandPrefix) eqn:Ep; [|by exists st]).
  - by apply setAvailability_ok.
  - apply setAvailability_ok; [done|]. intros _. by apply Hcalm.
Qed.

Lemma onSignals_cons x l st st' :
  onSignal noSigner commandPrefix x st = Some st' ->
  onSignals noSigner commandPrefix (x :: l) st = onSignals noSigner commandPrefix l st'.
Proof. intros Hx. unfold onSignals. cbn [foldl mbind option_bind]. by rewrite Hx. Qed.

Lemma wanted_key n k rib r : route_at n k rib = Some r -> route_key r = k.
Proof.
  unfold route_at. destruct ((re_routes <$> m_rib rib) !! n); cbn [mbind option_bind]; [|done].
  by intros [_ ?]%find_key_Some.
Qed.

Lemma insert_ok n r s rib :
  sys_ok s -> rib_insert n r (sys_rib s) = Some rib -> rib_ok rib ->
  re_routes <$> m_rib rib = abs_insert n r (re_routes <$> m_rib (sys_rib s)) ->
  calm_signals (emitted (sys_rib s) rib) (sys_rv s) ->
  exists rv, onSignals noSigner commandPrefix (emitted (sys_rib s) rib) (sys_rv s) = Some rv /\ sys_ok (mkSystem rib rv).
Proof.
  intros (Hrib & Hrv & Hix & Hsize) Hi Hrib' Habs Hcalm. pose proof (insert_signals n r _ _ Hi) as Hsig.
  assert (forall m k, wanted m k rib = if decide ((m, k) = (n, route_key r)) then fst <$> handleNewRoute n r
    else wanted m k (sys_rib s)) as Hw.
  { intros m k. unfold wanted. rewrite (route_at_insert n r _ _ m k Hrib Habs). case_decide as Hd; [|done].
    by injection Hd as -> ->. }
  destruct (route_at n (route_key r) (sys_rib s)) as [r0|] eqn:Er.
  - rewrite Hsig. exists (sys_rv s). split; [done|]. split; [done|]. split; [done|]. split; [|done].
    intros m k. rewrite Hw. simpl. case_decide as Hd; [|apply Hix]. injection Hd as -> ->. rewrite Hix. unfold wanted. rewrite Er.
    cbn [mbind option_bind]. by rewrite (handleNewRoute_key n r0 r (wanted_key _ _ _ _ Er)).
  - assert (forall st, rv_ok st -> m_routeToRr st = m_routeToRr (sys_rv s) -> calm_add n r st ->
      exists rv, onSignals noSigner commandPrefix [AfterAddRoute n r] st = Some rv /\ sys_ok (mkSystem rib rv)) as Hadd.
    { intros st Hst Hsti Hc. assert (m_routeToRr st !! (n, route_key r) = None) as Hk.
      { specialize (Hix n (route_key r)). rewrite Hsti. unfold wanted in Hix. rewrite Er in Hix. cbn [mbind option_bind] in Hix.
        by destruct (m_routeToRr (sys_rv s) !! _). }
      destruct (afterAddRoute_ok noSigner n r st Hst Hk Hc) as (rv & He & Hrv' & Hrvi). exists rv. unfold onSignals.
      cbn [foldl mbind option_bind onSignal]. split; [exact He|]. split; [done|]. split; [done|]. destruct Hc as [Hc _].
      destruct (handleNewRoute n r) as [[p sg]|] eqn:Eh.
      - destruct Hrvi as [a Hrvi]. split.
        + intros m k. simpl. rewrite Hrvi, Hw. case_decide as Hd; [injection Hd as -> ->; by rewrite lookup_insert_eq|].
          rewrite lookup_insert_ne by congruence. rewrite Hsti. apply Hix.
        + simpl. rewrite Hrvi, map_size_insert_None by done. lia.
      - subst rv. simpl. rewrite Hsti. split; [|done]. intros m k. rewrite Hw. simpl. rewrite Hsti.
        case_decide as Hd; [|apply Hix]. injection Hd as -> ->. rewrite <-Hsti, Hk. done. }
    destruct Hsig as [Hsig|Hsig]; rewrite Hsig in Hcalm |- *; simpl in Hcalm.
    + apply Hadd; [done|done|apply Hcalm].
    + destruct Hcalm as [Hc0 Hc]. destruct (availability_ok n (AfterInsertEntry n) (sys_rv s)) as (st & Hst & Hok & Hi'); [by left|done|done|].
      rewrite (onSignals_cons _ _ _ _ Hst). apply Hadd; [done|done|]. by apply (Hc st Hst).
Qed.

Lemma erase_ok n r s rib :
  sys_ok s -> rib_erase n r (sys_rib s) = Some rib -> rib_ok rib ->
  re_routes <$> m_rib rib = abs_erase n r (re_routes <$> m_rib (sys_rib s)) ->
  calm_signals (emitted (sys_rib s) rib) (sys_rv s) ->
  exists rv, onSignals noSigner commandPrefix (emitted (sys_rib s) rib) (sys_rv s) = Some rv /\ sys_ok (mkSystem rib rv).
Proof.
  intros (Hrib & Hrv & Hix & Hsize) Hi Hrib' Habs Hcalm. pose proof (erase_signals n r _ _ Hi) as Hsig.
  assert (forall m k, wanted m k rib = if decide ((m, k) = (n, route_key r)) then None else wanted m k (sys_rib s)) as Hw.
  { intros m k. unfold wanted. rewrite (route_at_erase n r _ _ m k Hrib Habs). by case_decide. }
  destruct (route_at n (route_key r) (sys_rib s)) as [r0|] eqn:Er.
  - pose proof (wanted_key _ _ _ _ Er) as Hkey.
    assert (forall rv, rv_ok rv -> m_routeToRr rv = delete (n, route_key r0) (m_routeToRr (sys_rv s)) ->
      sys_ok (mkSystem rib rv)) as Hdone.
    { intros rv Hok Hd. split; [done|]. split; [done|]. split.
      - intros m k. simpl. rewrite Hd, Hw, Hkey. case_decide as He; [injection He as -> ->; by rewrite lookup_delete_eq|].
        rewrite lookup_delete_ne by congruence. apply Hix.
      - simpl. rewrite Hd. pose proof (map_subseteq_size _ _ (delete_subseteq (m_routeToRr (sys_rv s)) (n, route_key r0))). lia. }
    assert (calm_remove n r0 (sys_rv s)) as Hc by (destruct Hsig as [Hsig|Hsig]; rewrite Hsig in Hcalm; apply Hcalm).
    destruct (beforeRemoveRoute_ok n r0 (sys_rv s) Hrv Hsize Hc) as (st & Hst & Hok & Hd).
    destruct Hsig as [Hsig|Hsig]; rewrite Hsig in Hcalm |- *; rewrite (onSignals_cons (BeforeRemoveRoute n r0) _ _ st Hst).
    + exists st. split; [done|]. by apply Hdone.
    + destruct Hcalm as [_ Hc']. specialize (Hc' st Hst) as [Hc' _].
      destruct (availability_ok n (AfterEraseEntry n) st) as (rv & Hrv1 & Hok1 & Hd1); [by right|done|done|].
      rewrite (onSignals_cons _ _ _ rv Hrv1). exists rv. split; [done|]. apply Hdone; [done|]. congruence.
  - rewrite Hsig. exists (sys_rv s). split; [done|]. split; [done|]. split; [done|]. split; [|done].
    intros m k. simpl. rewrite Hw. case_decide as Hd; [|apply Hix]. injection Hd as -> ->. rewrite Hix. unfold wanted. by rewrite Er.
Qed.

Lemma sys_step_ok e s : sys_ok s -> calm e s -> exists s', sys_step e s = Some s' /\ sys_ok s'.
Proof.
  intros Hok Hcalm. pose proof Hok as (Hrib & Hrv & Hix & Hsize). destruct e as [op|i success jitter|p]; simpl in *.
  - destruct (rib_step_ok op (sys_rib s) Hrib) as (rib & Hr & Hrib' & Habs). rewrite Hr. cbn [mbind option_bind].
    specialize (Hcalm rib Hr).
    assert (exists rv, onSignals noSigner commandPrefix (emitted (sys_rib s) rib) (sys_rv s) = Some rv /\
      sys_ok (mkSystem rib rv)) as (rv & -> & Hok') by (destruct op; [by eapply insert_ok|by eapply erase_ok]).
    by eexists.
  - destruct (onAnswer_ok i success jitter (sys_rv s) Hrv Hcalm) as (rv & -> & Hok' & Hd). eexists. split; [done|].
    split; [done|]. split; [done|]. unfold index_ok. simpl. by rewrite Hd.
  - destruct (onTimer_ok p (sys_rv s) Hrv Hcalm) as (rv & -> & Hok' & Hd). eexists. split; [done|].
    split; [done|]. split; [done|]. unfold index_ok. simpl. by rewrite Hd.
Qed.

Inductive calm_run : System -> list SystemEvent -> System -> Prop :=
  | calm_run_nil s : calm_run s [] s
  | calm_run_cons s e s' es s'' : calm e s -> sys_step e s = Some s' -> calm_run s' es s'' -> calm_run s (e :: es) s''.

Lemma calm_run_ok s es s' : sys_ok s -> calm_run s es s' -> sys_ok s'.
Proof.
  intros Hok Hrun. induction Hrun as [|s e s1 es s2 Hc He _ IH]; [done|]. apply IH.
  destruct (sys_step_ok e s Hok Hc) as (s1' & He' & ?). by simplify_eq.
Qed.

(** C19: in every calm run no erased node is used and no assertion fails, whatever
    the order of operations on the RIB, answers and scheduled events: requests and
    indexed routes have a node, each withdrawal is under way once, and delays stay
    between their bounds. *)
Theorem readvertise_safe es s e :
  calm_run newSystem es s -> calm e s -> sys_ok s /\ exists s', sys_step e s = Some s' /\ sys_ok s'.
Proof.
  intros Hrun Hc. assert (sys_ok s) as Hok by (by eapply calm_run_ok; [apply newSystem_ok|]).
  split; [exact Hok|]. by apply sys_step_ok.
Qed.

(** A task is under way or scheduled for a prefix. *)
Definition pending (t : Task) p st : Prop :=
  exists rr, m_rrs st !! p = Some rr /\
    ((exists i c, requests st !! i = Some c /\ rq_task c = t /\ rq_iter c = (p, rr_node rr)) \/
     exists d, rr_retryEvt rr = Some (t, d)).

Lemma index_wanted p s : sys_ok s ->
  (exists n k, wanted n k (sys_rib s) = Some p) <-> routesOf p (sys_rv s) <> ∅.
Proof.
  intros (_ & _ & Hix & _). split.
  - intros (n & k & Hw) He. rewrite <-Hix in Hw. destruct (m_routeToRr (sys_rv s) !! (n, k)) as [[p' a]|] eqn:E; [|done].
    simpl in Hw. simplify_eq. apply (routesOf_elem _ _ _) in E. simpl in E. by rewrite He, lookup_empty in E.
  - intros [[n k] [it Hit]]%map_choose. apply map_lookup_filter_Some in Hit as [Hit Hp]. simpl in Hp.
    exists n, k. by rewrite <-Hix, Hit, <-Hp.
Qed.

(** C18: the readvertised prefixes follow the RIB: after any calm run a prefix is
    counted as needed exactly when the policy wants it for some route of the RIB;
    when the destination is available, a prefix that is needed has an announcement
    under way or scheduled, and one that is in the set but not needed has a
    withdrawal under way or scheduled. *)
Theorem readvertise_follows es s p :
  calm_run newSystem es s ->
  ((exists n k, wanted n k (sys_rib s) = Some p) <->
     exists rr, m_rrs (sys_rv s) !! p = Some rr /\ 0 < rr_nRibRoutes rr) /\
  (m_isAvailable (sys_rv s) = true -> (exists n k, wanted n k (sys_rib s) = Some p) -> pending ADVERTISE p (sys_rv s)) /\
  (forall rr, m_rrs (sys_rv s) !! p = Some rr -> ~ (exists n k, wanted n k (sys_rib s) = Some p) ->
     pending WITHDRAW p (sys_rv s)).
Proof.
  intros Hrun. assert (sys_ok s) as Hok by (by eapply calm_run_ok; [apply newSystem_ok|]).
  pose proof (index_wanted p s Hok) as Hw. rewrite Hw. destruct Hok as (_ & Hrv & _). specialize (Hrv p). unfold at_ok in Hrv. unfold pending.
  destruct (m_rrs (sys_rv s) !! p) as [rr|] eqn:Ep; cycle 1.
  { destruct Hrv as [_ Hix]. split; [split; [done|by intros (rr & ? & _)]|]. split; [done|by intros rr ?]. }
  destruct Hrv as (A1 & A2 & A3 & A4 & A5 & A6 & A7).
  assert (forall i c, requestsOf p (sys_rv s) !! i = Some c ->
    requests (sys_rv s) !! i = Some c /\ rq_iter c = (p, rr_node rr)) as Hreq.
  { intros i c Hc. split; [by apply map_lookup_filter_Some in Hc as [? _]|by apply A4 in Hc as [_ ?]]. }
  assert (routesOf p (sys_rv s) <> ∅ <-> 0 < rr_nRibRoutes rr) as Hn.
  { rewrite <-map_size_non_empty_iff. lia. }
  split; [rewrite Hn; split; [by exists rr|by intros (? & [= <-] & ?)]|]. split.
  - intros Hav Hr. exists rr. split; [done|]. apply pending_positive_inv in A7 as (B1 & _ & B3); [|by apply Hn].
    destruct (B3 Hav) as [[i [c Hc]]%map_choose|?]; [left|by right]. exists i, c. destruct (Hreq i c Hc). split_and!; [done| |done].
    by eapply B1.
  - intros rr' [= <-] Hr. rewrite Hw, Hn in Hr. exists rr. split; [done|]. apply pending_zero_inv in A7 as [_ [(i & sg & Hcs & _)|[_ ?]]];
      [left|by right|lia]. exists i, (mkRequest WITHDRAW sg.1 sg.2).
    destruct (Hreq i (mkRequest WITHDRAW sg.1 sg.2)); [rewrite Hcs; apply lookup_singleton_eq|]. by split_and!.
Qed.

(** C38: when a route is added for a prefix whose withdrawal is under way, the
    success of the withdrawal erases the node that the new route is indexed under:
    the index then has an iterator to an erased node, and removing the route uses
    it. *)
Theorem reannounced_while_withdrawn n r p sg rr i sg' jitter st :
  rv_ok st -> handleNewRoute n r = Some (p, sg) -> m_rrs st !! p = Some rr -> rr_nRibRoutes rr = 0 ->
  m_routeToRr st !! (n, route_key r) = None -> requests st !! i = Some (mkRequest WITHDRAW (p, rr_node rr) sg') ->
  exists st1 st2, afterAddRoute noSigner n r st = Some st1 /\ onAnswer (Ann:=Ann) i true jitter st1 = Some st2 /\
    m_rrs st2 !! p = None /\ m_routeToRr st2 !! (n, route_key r) = Some (p, rr_node rr) /\
    beforeRemoveRoute n r st2 = None.
Proof.
  intros Hok Hh Ep Hz Hk Hi. assert (i < nextAddress st) as Hlt.
  { destruct (Z.lt_ge_cases i (nextAddress st)) as [|Hge]; [done|].
    by rewrite (requests_fresh st i Hok Hge) in Hi. }
  assert (m_isAvailable st = true) as Hav.
  { specialize (Hok p). unfold at_ok in Hok. rewrite Ep in Hok. destruct Hok as (_ & _ & _ & _ & _ & _ & Hp).
    by apply pending_zero_inv in Hp as [? _]. }
  unfold afterAddRoute. rewrite Hh. unfold emplace. rewrite Ep, (modify_ok p rr _ st Ep). cbn [mbind option_bind].
  cbn [set_rrs m_routeToRr]. rewrite Hk. set (st1 := set_index _ _). set (rr1 := set_signer sg rr).
  assert (m_rrs st1 !! p = Some rr1) as E1 by apply lookup_insert_eq. change (rr_node rr) with (rr_node rr1).
  rewrite (rr_at_ok p rr1 st1 E1). cbn [mbind option_bind]. rewrite (modify_ok p rr1 _ st1 E1). cbn [mbind option_bind].
  change (rr_nRibRoutes rr1) with (rr_nRibRoutes rr). rewrite Hz. change (0 <? 0) with false. cbn iota.
  set (rr2 := set_nRibRoutes (u64 (0 + 1)) rr1). set (st2 := set_rrs _ st1).
  assert (m_rrs st2 !! p = Some rr2) as E2 by apply lookup_insert_eq. change (rr_node rr1) with (rr_node rr2).
  rewrite (modify_ok p rr2 _ st2 E2). cbn [mbind option_bind]. set (rr3 := set_retryDelay _ rr2). set (st3 := set_rrs _ st2).
  assert (m_rrs st3 !! p = Some rr3) as E3 by apply lookup_insert_eq. change (rr_node rr2) with (rr_node rr3).
  rewrite (advertise_ok p rr3 st3 E3) by done. unfold announced. change (m_isAvailable st3) with (m_isAvailable st). rewrite Hav.
  set (st4 := startRequest _ _ _ st3). assert (requests st4 !! i = Some (mkRequest WITHDRAW (p, rr_node rr3) sg')) as E4.
  { unfold st4. simpl. rewrite lookup_insert_ne by lia. exact Hi. }
  unfold onAnswer. eexists _, _. split; [reflexivity|]. rewrite E4. cbn [mbind option_bind rq_task rq_iter onSuccess].
  rewrite (erase_rr_ok p rr3 (set_requests _ st4)) by exact E3. split; [reflexivity|]. split; [apply lookup_delete_eq|].
  split; [apply lookup_insert_eq|]. unfold beforeRemoveRoute. simpl. rewrite lookup_insert_eq. unfold rr_at. simpl.
  by rewrite lookup_delete_eq.
Qed.
End System.

(** ** The policies *)

(** [ClientToNlsrReadvertisePolicy]: the routes of clients, under their own names
    and with the default signer. *)
Section ClientToNlsr.
Context {C Ann Signer : Type} `{NameOrder C} (ROUTE_ORIGIN_CLIENT : Z) (defaultSigner : Signer).

Definition clientToNlsr (n : list C) (r : Route (Ann:=Ann)) : option (list C * Signer) :=
  if r_origin r =? ROUTE_ORIGIN_CLIENT then Some (n, defaultSigner) else None.

Lemma clientToNlsr_key n r r' : route_key r = route_key r' -> clientToNlsr n r = clientToNlsr n r'.
Proof. unfold clientToNlsr, route_key. by intros [= _ ->]. Qed.

Lemma one_hour : 0 <= 3600000.
Proof. lia. Qed.

Definition ClientToNlsrReadvertisePolicy : ReadvertisePolicy C Ann Signer :=
  Build_ReadvertisePolicy C Ann Signer _ _ clientToNlsr 3600000 one_hour clientToNlsr_key.
End ClientToNlsr.

(** [HostToGatewayReadvertisePolicy]: the identities of the key chain in the order
    in which they are enumerated, and the interval of the configuration. *)
Section HostToGateway.
Context {C Ann Signer Identity : Type} `{NameOrder C}.
Notation Name := (list C).
Context (identities : list (Name * Identity)) (signingByIdentity : Identity -> Signer).
Context (IGNORE_COMPONENT : C) (localhost localhopTop : Name).
Context (refresh_interval : option Z) (interval_nonneg : 0 <= default 25 refresh_interval).
Implicit Types (n p : Name) (x : Name * Identity).

(** The name of an identity without a last component [nrd]. *)
Definition identityPrefix (name : Name) : Name :=
  match last name with
  | Some c => if decide (IGNORE_COMPONENT = c) then parentName name else name
  | None => name
  end.

(** The loop over the identities: [prefixToAdvertise] and [signingIdentity], which
    is empty while [isFound] is false. *)
Definition identity_step (acc : Name * option Identity) x : Name * option Identity :=
  let '(prefixToAdvertise, _) := acc in
  if isPrefixOf (identityPrefix x.1) prefixToAdvertise then (identityPrefix x.1, Some x.2) else acc.

Definition hostToGateway n (r : Route (Ann:=Ann)) : option (Name * Signer) :=
  if isPrefixOf localhost n || bool_decide (n = localhopTop) then None
  else
    match foldl identity_step (n, None) identities with
    | (p, Some identity) => Some (p, signingByIdentity identity)
    | (_, None) => None
    end.

Lemma hostToGateway_key n r r' : route_key r = route_key r' -> hostToGateway n r = hostToGateway n r'.
Proof. done. Qed.

Lemma interval_ms : 0 <= default 25 refresh_interval * 1000.
Proof using interval_nonneg. lia. Qed.

Definition HostToGatewayReadvertisePolicy : ReadvertisePolicy C Ann Signer :=
  Build_ReadvertisePolicy C Ann Signer _ _ hostToGateway (default 25 refresh_interval * 1000) interval_ms hostToGateway_key.

(** Two prefixes of a name are comparable. *)
Lemma prefix_comparable (a b n : Name) : a `prefix_of` n -> b `prefix_of` n -> a `prefix_of` b \/ b `prefix_of` a.
Proof. apply prefix_weak_total. Qed.

Lemma identity_loop n l :
  exists p found, foldl identity_step (n, None) l = (p, found) /\ p `prefix_of` n /\
    match found with
    | None => p = n /\ forall x, x ∈ l -> ~ identityPrefix x.1 `prefix_of` n
    | Some identity => (exists name, (name, identity) ∈ l /\ p = identityPrefix name) /\
        forall x, x ∈ l -> identityPrefix x.1 `prefix_of` n -> p `prefix_of` identityPrefix x.1
    end.
Proof.
  induction l as [|x l IH] using rev_ind; [exists n, None; split_and!; [done|done|done|by intros x ?%not_elem_of_nil]|].
  destruct IH as (p & found & E & Hp & Hf). rewrite foldl_app, E. cbn [foldl identity_step].
  destruct (isPrefixOf (identityPrefix x.1) p) eqn:Ex.
  - apply isPrefixOf_true in Ex. exists (identityPrefix x.1), (Some x.2). split; [done|]. split; [by etrans|]. split.
    + exists x.1. split; [|done]. apply elem_of_app. right. destruct x. by left.
    + intros y [Hy| ->%list_elem_of_singleton]%elem_of_app Hyn; [|done]. destruct found as [identity|].
      * destruct Hf as [_ Hmin]. etrans; [exact Ex|by apply Hmin].
      * destruct Hf as [_ Hno]. by apply Hno in Hy.
  - assert (~ identityPrefix x.1 `prefix_of` p) as Hx by (intros Hpre; apply isPrefixOf_true in Hpre; congruence).
    exists p, found. split; [done|]. split; [done|]. destruct found as [identity|].
    + destruct Hf as [(name & Hin & Heq) Hmin]. split; [exists name; split; [apply elem_of_app; by left|done]|].
      intros y [Hy| ->%list_elem_of_singleton]%elem_of_app Hyn; [by apply Hmin|].
      by destruct (prefix_comparable _ _ n Hp Hyn).
    + destruct Hf as [-> Hno]. split; [done|]. intros y [Hy| ->%list_elem_of_singleton]%elem_of_app; [by apply Hno|done].
Qed.

(** A route is announced to the gateway under the shortest name of an identity
    (without [nrd]) that is a prefix of the name, signed by such an identity; names
    of the local scopes and those under no identity are not announced. *)
Theorem hostToGateway_correct n (r : Route (Ann:=Ann)) :
  match hostToGateway n r with
  | Some (p, signer) =>
      ~ localhost `prefix_of` n /\ n <> localhopTop /\ p `prefix_of` n /\
      (exists name identity, (name, identity) ∈ identities /\ p = identityPrefix name /\ signer = signingByIdentity identity) /\
      forall x, x ∈ identities -> identityPrefix x.1 `prefix_of` n -> p `prefix_of` identityPrefix x.1
  | None =>
      localhost `prefix_of` n \/ n = localhopTop \/ forall x, x ∈ identities -> ~ identityPrefix x.1 `prefix_of` n
  end.
Proof.
  unfold hostToGateway. destruct (isPrefixOf localhost n) eqn:El; [left; by apply isPrefixOf_true|].
  cbn [orb]. case_bool_decide as Eh; [by right; left|].
  destruct (identity_loop n identities) as (p & found & -> & Hp & Hf). destruct found as [identity|].
  - destruct Hf as [(name & Hin & Heq) Hmin]. split; [intros Hl; apply isPrefixOf_true in Hl; congruence|].
    split; [done|]. split; [done|]. split; [by exists name, identity|exact Hmin].
  - right. right. apply Hf.
Qed.
End HostToGateway.

(** ** A concrete system *)

Module ReadvertiseExamples.
Import RibExamples.

(** The origin of clients is 65; the destination is reached under [/9]. *)
#[export] Instance examplePolicy : ReadvertisePolicy Z unit unit := ClientToNlsrReadvertisePolicy 65 tt.

Definition reachable : SystemEvent (C:=Z) (Ann:=unit) := RibChange (Insert [9] (route 4 0 0 0)).
Definition client : SystemEvent (C:=Z) (Ann:=unit) := RibChange (Insert [1] (route 5 65 0 0)).
Definition gone : SystemEvent (C:=Z) (Ann:=unit) := RibChange (Erase [1] (route 5 65 0 0)).

(** The destination is available, the route of a client is announced, the command
    succeeds, and the route is removed. *)
Example announced_and_withdrawn :
  (fun s => (fst <$> map_to_list (m_rrs (sys_rv s)), rq_task <$> (map_to_list (requests (sys_rv s))).*2)) <$>
    foldl (fun o e => s ← o; sys_step (Signer:=unit) tt [9] e s) (Some newSystem) [reachable; client; Answer 1 true 0; gone]
  = Some ([[1]], [WITHDRAW]).
Proof. vm_compute. reflexivity. Qed.

Definition afterEvents (es : list SystemEvent) : System (C:=Z) (Ann:=unit) (Signer:=unit) :=
  match foldl (fun o e => s ← o; sys_step tt [9] e s) (Some newSystem) es with Some s => s | None => newSystem end.

(** The calls of the examples are calm. *)
Ltac calm_change :=
  intros rib Hr; vm_compute in Hr; injection Hr as <-;
  match goal with |- context [emitted ?a ?b] => let l := eval vm_compute in (emitted a b) in
    replace (emitted a b) with l by (vm_compute; reflexivity) end;
  cbn [calm_signals calm_signal].

Lemma reachable_calm : calm tt [9] reachable newSystem.
Proof.
  calm_change. split; [exact I|]. intros st' [= <-]. split; [|intros; exact I].
  split; [vm_compute; reflexivity|]. intros p s rr [=].
Qed.

Lemma client_calm : calm tt [9] client (afterEvents [reachable]).
Proof.
  calm_change. split; [exact I|]. intros st' [= <-]. split; [|intros; exact I].
  split; [vm_compute; reflexivity|]. intros p s rr [= <- <-]. vm_compute. discriminate.
Qed.

Lemma gone_calm : calm tt [9] gone (afterEvents [reachable; client; Answer 1 true 0]).
Proof.
  calm_change. split; [|intros st' _; split; [vm_compute; discriminate|intros; exact I]].
  intros it Hit _. vm_compute in Hit. injection Hit as <-. vm_compute. reflexivity.
Qed.

Lemma calm_after1 : calm_run tt [9] newSystem [reachable] (afterEvents [reachable]).
Proof. eapply calm_run_cons; [exact reachable_calm|vm_compute; reflexivity|apply calm_run_nil]. Qed.

Lemma calm_after2 : calm_run tt [9] newSystem [reachable; client] (afterEvents [reachable; client]).
Proof.
  eapply calm_run_cons; [exact reachable_calm|reflexivity|].
  eapply calm_run_cons; [exact client_calm|reflexivity|apply calm_run_nil].
Qed.

Lemma calm_after4 :
  calm_run tt [9] newSystem [reachable; client; Answer 1 true 0; gone] (afterEvents [reachable; client; Answer 1 true 0; gone]).
Proof.
  eapply calm_run_cons; [exact reachable_calm|reflexivity|].
  eapply calm_run_cons; [exact client_calm|reflexivity|].
  eapply calm_run_cons; [|reflexivity|eapply calm_run_cons; [exact gone_calm|reflexivity|apply calm_run_nil]].
  vm_compute. eexists. reflexivity.
Qed.

Lemma readvertise_safe_witness :
  sys_ok (afterEvents [reachable]) /\ exists s', sys_step tt [9] client (afterEvents [reachable]) = Some s' /\ sys_ok s'.
Proof. exact (readvertise_safe tt [9] [reachable] (afterEvents [reachable]) client calm_after1 client_calm). Defined.

Lemma readvertise_follows_witness : pending ADVERTISE [1] (sys_rv (afterEvents [reachable; client])).
Proof.
  destruct (readvertise_follows tt [9] [reachable; client] (afterEvents [reachable; client]) [1] calm_after2) as (_ & Hp & _).
  apply Hp; [vm_compute; reflexivity|]. exists [1], (5, 65). vm_compute. reflexivity.
Defined.

Lemma reannounced_while_withdrawn_witness :
  let st := sys_rv (afterEvents [reachable; client; Answer 1 true 0; gone]) in
  exists st1 st2, afterAddRoute tt [1] (route 5 65 0 0) st = Some st1 /\ onAnswer (Ann:=unit) 2 true 0 st1 = Some st2 /\
    m_rrs st2 !! [1] = None /\ m_routeToRr st2 !! ([1], (5, 65)) = Some ([1], 0) /\
    beforeRemoveRoute [1] (route 5 65 0 0) st2 = None.
Proof.
  apply (reannounced_while_withdrawn tt [1] (route 5 65 0 0) [1] tt (mkRr 0 tt 0 RETRY_DELAY_MIN (Some (ADVERTISE, 3600000))) 2 tt).
  - exact (proj1 (proj2 (calm_run_ok tt [9] _ _ _ newSystem_ok calm_after4))).
  - reflexivity.
  - vm_compute. reflexivity.
  - reflexivity.
  - vm_compute. reflexivity.
  - vm_compute. reflexivity.
Defined.
End ReadvertiseExamples.
