(* ===== verification/FibUpdater.v ===== *)
(** * FIB updates from RIB updates

    Models [rib/fib-update.*], [rib/rib-update.*], [rib/fib-updater.*] and the update
    queue of [rib/rib.cpp]: a route that is registered or unregistered changes the
    next hops of its prefix and, by inheritance, of the prefixes below. The
    updater computes the changes from the RIB as it is before the update, sends
    them to the FIB as commands and reports success or failure; the RIB then
    carries out the update and advances its queue. [None] is a failed assertion,
    the use of a null pointer or the exception for a non-recoverable error. *)

From S2P Require Import Prelude Ndn Rib.
Local Open Scope Z_scope.

Inductive FibAction := ADD_NEXTHOP | REMOVE_NEXTHOP.
Inductive RibAction := REGISTER | UNREGISTER | REMOVE_FACE.

#[export] Instance FibAction_eq_dec : EqDecision FibAction.
Proof. solve_decision. Defined.

(** What the updater uses of ndn-cxx's [Controller]: the code of a timeout. *)
Class ControllerErrors := { ERROR_TIMEOUT : Z }.
Definition MAX_NUM_TIMEOUTS : Z := 10.
Definition ERROR_FACE_NOT_FOUND : Z := 410.

Section FibUpdater.
Context {C : Type} `{NameOrder C} {Ann : Type} `{!RouteFlags} `{!ControllerErrors}.
Notation Name := (list C).
Notation Route := (Route (Ann:=Ann)).
Notation RibEntry := (RibEntry (C:=C) (Ann:=Ann)).
(** What [std::nth_element] leaves at index 1. *)
Context (nth : list Route -> option Route).

Record FibUpdate := mkFibUpdate { fu_name : Name; fu_faceId : Z; fu_cost : Z; fu_action : FibAction }.
Record RibUpdate := mkRibUpdate { ru_action : RibAction; ru_name : Name; ru_route : Route }.

#[export] Instance FibUpdate_eq_dec : EqDecision FibUpdate.
Proof. solve_decision. Defined.

Definition createAddUpdate (name : Name) (faceId cost : Z) : FibUpdate := mkFibUpdate name faceId cost ADD_NEXTHOP.
Definition createRemoveUpdate (name : Name) (faceId : Z) : FibUpdate := mkFibUpdate name faceId 0 REMOVE_NEXTHOP.

Record FibUpdater := mkFibUpdater {
  m_batchFaceId : Z;
  m_updatesForBatchFaceId : list FibUpdate;
  m_updatesForNonBatchFaceId : list FibUpdate;
  m_inheritedRoutes : list RibUpdate;
  fu_cancelled : list Z
}.
Implicit Types (st : FibUpdater) (e entry : RibEntry) (route r : Route) (m : gmap Name RibEntry) (name : Name).

(** [std::set<Route>] ordered by face: at most one route per face, an insertion
    of a second one is refused. *)
Notation RouteSet := (list Route).

Fixpoint rs_insert r (s : RouteSet) : RouteSet :=
  match s with
  | [] => [r]
  | x :: s' => if r_faceId r <? r_faceId x then r :: s
               else if r_faceId x <? r_faceId r then x :: rs_insert r s' else s
  end.
Definition rs_find r (s : RouteSet) : option Route := find_if (onFace (r_faceId r)) s.
Definition rs_erase r (s : RouteSet) : RouteSet := erase_first (onFace (r_faceId r)) s.

(** The walk up the tree from [parent]; a parent's name is shorter than the
    child's, so one step more than the length of the first name is enough. *)
Fixpoint ancestors_loop (fuel : nat) (parent : option Name) (s : RouteSet) m : option RouteSet :=
  match fuel with
  | O => None
  | S fuel =>
      match parent with
      | None => Some s
      | Some p =>
          e ← m !! p;
          let s := foldl (fun s r => if isChildInherit r then rs_insert r s else s) s (re_routes e) in
          if hasCapture e then Some s else ancestors_loop fuel (re_parent e) s m
      end
  end.

Definition getAncestorRoutes entry m : option RouteSet :=
  ancestors_loop (S (length (re_name entry))) (re_parent entry) [] m.
Definition getAncestorRoutes_name name m : option RouteSet :=
  ancestors_loop (S (length name)) (findParent name m) [] m.

(** ** Collecting updates *)

Definition sameTarget (u v : FibUpdate) : bool :=
  bool_decide (fu_name u = fu_name v) && (fu_faceId u =? fu_faceId v).

Definition put_update (u : FibUpdate) (l : list FibUpdate) : list FibUpdate :=
  match find_if (sameTarget u) l with
  | Some _ => update_first (sameTarget u) (fun x => mkFibUpdate (fu_name x) (fu_faceId x) (fu_cost u) (fu_action u)) l
  | None => l ++ [u]
  end.

Definition addFibUpdate (u : FibUpdate) st : FibUpdater :=
  if fu_faceId u =? m_batchFaceId st
  then mkFibUpdater (m_batchFaceId st) (put_update u (m_updatesForBatchFaceId st)) (m_updatesForNonBatchFaceId st)
         (m_inheritedRoutes st) (fu_cancelled st)
  else mkFibUpdater (m_batchFaceId st) (m_updatesForBatchFaceId st) (put_update u (m_updatesForNonBatchFaceId st))
         (m_inheritedRoutes st) (fu_cancelled st).

Definition push_inherited (u : RibUpdate) st : FibUpdater :=
  mkFibUpdater (m_batchFaceId st) (m_updatesForBatchFaceId st) (m_updatesForNonBatchFaceId st)
    (m_inheritedRoutes st ++ [u]) (fu_cancelled st).
Definition fu_addInheritedRoute name route st : FibUpdater := push_inherited (mkRibUpdate REGISTER name route) st.
Definition fu_removeInheritedRoute name route st : FibUpdater := push_inherited (mkRibUpdate UNREGISTER name route) st.

Definition addInheritedRoutes entry (routesToAdd : RouteSet) st : FibUpdater :=
  foldl (fun st route =>
    if negb (hasFaceId (r_faceId route) entry)
    then addFibUpdate (createAddUpdate (re_name entry) (r_faceId route) (r_cost route))
           (fu_addInheritedRoute (re_name entry) route st)
    else st) st routesToAdd.

Definition addInheritedRoutes_name name (routesToAdd : RouteSet) (ignore : Route) st : FibUpdater :=
  foldl (fun st route =>
    if negb (r_faceId route =? r_faceId ignore)
    then addFibUpdate (createAddUpdate name (r_faceId route) (r_cost route)) (fu_addInheritedRoute name route st)
    else st) st routesToAdd.

Definition removeInheritedRoutes entry (routesToRemove : RouteSet) st : FibUpdater :=
  foldl (fun st route =>
    if hasInheritedRoute route entry
    then addFibUpdate (createRemoveUpdate (re_name entry) (r_faceId route))
           (fu_removeInheritedRoute (re_name entry) route st)
    else st) st routesToRemove.

(** ** The subtree below an entry *)

(** The two loops of [traverseSubTree] at an entry; the routes that are kept go
    on to the children. *)
Definition remove_here entry (routes : RouteSet) st : FibUpdater :=
  foldl (fun st route =>
    if hasChildInheritOnFaceId (r_faceId route) entry then st
    else if hasInheritedRoute route entry
    then addFibUpdate (createRemoveUpdate (re_name entry) (r_faceId route))
           (fu_removeInheritedRoute (re_name entry) route st)
    else st) st routes.

Definition add_here entry (routes : RouteSet) st : FibUpdater :=
  foldl (fun st route =>
    if hasChildInheritOnFaceId (r_faceId route) entry then st
    else if negb (hasFaceId (r_faceId route) entry)
    then addFibUpdate (createAddUpdate (re_name entry) (r_faceId route) (r_cost route))
           (fu_addInheritedRoute (re_name entry) route st)
    else st) st routes.

Definition passed_on entry (routes : RouteSet) : RouteSet :=
  remove_if (fun route => hasChildInheritOnFaceId (r_faceId route) entry) routes.

Fixpoint traverseSubTree (fuel : nat) m entry (routesToAdd routesToRemove : RouteSet) st : option FibUpdater :=
  match fuel with
  | O => None
  | S fuel =>
      if hasCapture entry then Some st
      else
        let st := remove_here entry routesToRemove st in
        let st := add_here entry routesToAdd st in
        foldl (fun ost c => st ← ost; child ← m !! c;
                 traverseSubTree fuel m child (passed_on entry routesToAdd) (passed_on entry routesToRemove) st)
              (Some st) (re_children entry)
  end.

(** Names get longer on the way down. *)
Definition maxLength m : nat := map_fold (fun name _ k => Nat.max (length name) k) 0%nat m.

Definition modifyChildrensInheritedRoutes m (children : list Name) (routesToAdd routesToRemove : RouteSet) st :
    option FibUpdater :=
  foldl (fun ost c => st ← ost; child ← m !! c; traverseSubTree (S (maxLength m)) m child routesToAdd routesToRemove st)
        (Some st) children.

(** ** The kinds of RIB updates *)

Definition createFibUpdatesForNewRibEntry m name route (children : list Name) st : option FibUpdater :=
  let st := addFibUpdate (createAddUpdate name (r_faceId route) (r_cost route)) st in
  if negb (isChildInherit route) && negb (isRibCapture route) then
    anc ← getAncestorRoutes_name name m;
    Some (addInheritedRoutes_name name anc route st)
  else if isChildInherit route && isRibCapture route then
    anc ← getAncestorRoutes_name name m;
    modifyChildrensInheritedRoutes m children (rs_insert route []) anc st
  else if isChildInherit route then
    anc ← getAncestorRoutes_name name m;
    let st := addInheritedRoutes_name name anc route st in
    let anc := match rs_find route anc with Some _ => rs_erase route anc | None => anc end in
    modifyChildrensInheritedRoutes m children (rs_insert route anc) [] st
  else
    anc ← getAncestorRoutes_name name m;
    modifyChildrensInheritedRoutes m children [] anc st.

Definition createFibUpdatesForNewRoute m entry route (captureWasTurnedOn : bool) st : option FibUpdater :=
  let prevRoute := getRouteWithLowestCostAndChildInheritByFaceId (r_faceId route) entry in
  let routesToAdd :=
    if isChildInherit route &&
       match prevRoute with None => true | Some prev => r_cost route <=? r_cost prev end
    then rs_insert route [] else [] in
  '(st, routesToRemove) ← (if captureWasTurnedOn then
      anc ← getAncestorRoutes entry m; Some (removeInheritedRoutes entry anc st, anc)
    else Some (st, []));
  st ← modifyChildrensInheritedRoutes m (re_children entry) routesToAdd routesToRemove st;
  let other := getRouteWithLowestCostByFaceId (r_faceId route) entry in
  Some (if match other with None => true | Some o => r_cost route <=? r_cost o end
        then addFibUpdate (createAddUpdate (re_name entry) (r_faceId route) (r_cost route)) st else st).

(** The update of the entry itself when the cost of a route changes. *)
Definition updateCost entry route (existingRoute : Route) (prevRoute : option Route) st : option FibUpdater :=
  lowest ← getRouteWithLowestCostByFaceId (r_faceId route) entry;
  if r_cost route <=? r_cost lowest
  then Some (addFibUpdate (createAddUpdate (re_name entry) (r_faceId route) (r_cost route)) st)
  else if r_cost existingRoute <? r_cost lowest then
    prev ← prevRoute;
    Some (addFibUpdate (createAddUpdate (re_name entry) (r_faceId prev) (r_cost prev)) st)
  else Some st.

Definition childInheritChange m entry route (existingRoute : Route) (prevRoute : option Route) st : option FibUpdater :=
  if negb (isChildInherit existingRoute) && isChildInherit route then
    if match prevRoute with None => true | Some prev => r_cost route <=? r_cost prev end
    then modifyChildrensInheritedRoutes m (re_children entry) (rs_insert route []) [] st
    else Some st
  else if isChildInherit existingRoute && negb (isChildInherit route) then
    routesToAdd ← (match prevRoute with
      | Some prev => Some (rs_insert prev [])
      | None => anc ← getAncestorRoutes entry m;
                Some (match rs_find route anc with Some a => rs_insert a [] | None => [] end)
      end);
    modifyChildrensInheritedRoutes m (re_children entry) routesToAdd (rs_insert route []) st
  else Some st.

Definition captureChange m entry route (existingRoute : Route) st : option FibUpdater :=
  if negb (isRibCapture existingRoute) && isRibCapture route then
    anc ← getAncestorRoutes entry m;
    modifyChildrensInheritedRoutes m (re_children entry) [] anc (removeInheritedRoutes entry anc st)
  else if isRibCapture existingRoute && negb (isRibCapture route) then
    anc ← getAncestorRoutes entry m;
    modifyChildrensInheritedRoutes m (re_children entry) anc [] (addInheritedRoutes entry anc st)
  else Some st.

Definition createFibUpdatesForUpdatedRoute m entry route (existingRoute : Route) st : option FibUpdater :=
  let costDidChange := negb (r_cost route =? r_cost existingRoute) in
  let prevRoute := getRouteWithLowestCostAndChildInheritByFaceId (r_faceId route) entry in
  if (r_flags route =? r_flags existingRoute) && negb costDidChange then Some st
  else
    st ← (if costDidChange then updateCost entry route existingRoute prevRoute st else Some st);
    if costDidChange && match prevRoute with None => true | Some prev => r_cost route <=? r_cost prev end
       && (r_flags route =? r_flags existingRoute) && isChildInherit route
    then modifyChildrensInheritedRoutes m (re_children entry) (rs_insert route []) [] st
    else
      st ← childInheritChange m entry route existingRoute prevRoute st;
      captureChange m entry route existingRoute st.

Definition createFibUpdatesForErasedRoute m entry route (captureWasTurnedOff : bool) st : option FibUpdater :=
  let st := addFibUpdate (createRemoveUpdate (re_name entry) (r_faceId route)) st in
  let unblocked st :=
    if captureWasTurnedOff && negb (getNRoutes entry =? 0) then
      anc ← getAncestorRoutes entry m; Some (addInheritedRoutes entry anc st, anc)
    else Some (st, []) in
  st ← (if isChildInherit route && isRibCapture route then
      '(st, routesToAdd) ← unblocked st;
      modifyChildrensInheritedRoutes m (re_children entry) routesToAdd (rs_insert route []) st
    else if isChildInherit route then
      routesToAdd ← (if negb (hasCapture entry) then getAncestorRoutes entry m else Some []);
      modifyChildrensInheritedRoutes m (re_children entry) routesToAdd (rs_insert route []) st
    else if isRibCapture route then
      '(st, routesToAdd) ← unblocked st;
      modifyChildrensInheritedRoutes m (re_children entry) routesToAdd [] st
    else Some st);
  anc ← getAncestorRoutes entry m;
  Some (if negb (hasCapture entry) && negb (getNRoutes entry =? 0) then
          match rs_find route anc with
          | Some a => addFibUpdate (createAddUpdate (re_name entry) (r_faceId a) (r_cost a))
                        (fu_addInheritedRoute (re_name entry) a st)
          | None => st
          end
        else st).

Definition createFibUpdatesForErasedRibEntry entry st : FibUpdater :=
  foldl (fun st route => addFibUpdate (createRemoveUpdate (re_name entry) (r_faceId route)) st) st
        (re_inheritedRoutes entry).

Definition computeUpdatesForRegistration m (update : RibUpdate) st : option FibUpdater :=
  let prefix := ru_name update in
  let route := ru_route update in
  match m !! prefix with
  | Some entry =>
      match findRoute route entry with
      | None => createFibUpdatesForNewRoute m entry route (negb (hasCapture entry) && isRibCapture route) st
      | Some existingRoute =>
          let change x := mkRoute (r_faceId x) (r_origin x) (r_cost route) (r_flags route) (r_expires route)
                            (r_announcement x) (r_annExpires x) (r_expirationEvent x) in
          let entryCopy := set_routes (update_first (has_key route_key (route_key route)) change (re_routes entry))
                             (re_nRoutesWithCaptureSet entry) entry in
          createFibUpdatesForUpdatedRoute m entryCopy route existingRoute st
      end
  | None =>
      let parent := findParent prefix m in
      let children := filter (fun d => m !! d ≫= re_parent = parent) (findDescendantsForNonInsertedName prefix m) in
      createFibUpdatesForNewRibEntry m prefix route children st
  end.

(** [temp] is a copy whose routes share the scheduled events of the entry. *)
Definition computeUpdatesForUnregistration m (update : RibUpdate) st : option FibUpdater :=
  let prefix := ru_name update in
  let route := ru_route update in
  match m !! prefix with
  | None => Some st
  | Some entry =>
      match findRoute route entry with
      | None => Some st
      | Some existing =>
          let '(temp, cancelled) := eraseRoute route entry in
          let st := mkFibUpdater (m_batchFaceId st) (m_updatesForBatchFaceId st) (m_updatesForNonBatchFaceId st)
                      (m_inheritedRoutes st) (fu_cancelled st ++ cancelled) in
          let captureWasTurnedOff := hasCapture entry && negb (hasCapture temp) in
          st ← createFibUpdatesForErasedRoute m temp existing captureWasTurnedOff st;
          st ← (match getRouteWithSecondLowestCostByFaceId nth (r_faceId route) entry with
                | Some next => createFibUpdatesForNewRoute m temp next false st
                | None => Some st
                end);
          Some (if getNRoutes entry =? 1 then createFibUpdatesForErasedRibEntry entry st else st)
      end
  end.

Definition computeUpdate m (update : RibUpdate) st : option FibUpdater :=
  match ru_action update with
  | REGISTER => computeUpdatesForRegistration m update st
  | UNREGISTER => computeUpdatesForUnregistration m update st
  | REMOVE_FACE =>
      st ← computeUpdatesForUnregistration m update st;
      Some (mkFibUpdater (m_batchFaceId st) [] (m_updatesForNonBatchFaceId st) (m_inheritedRoutes st) (fu_cancelled st))
  end.

Definition computeUpdates m (batch : list RibUpdate) st : option FibUpdater :=
  foldl (fun ost u => st ← ost; computeUpdate m u st) (Some st) batch.

(** ** Sending the updates *)

(** A command to the FIB manager: the update, whether it adds or removes a next
    hop, and the number of timeouts so far. *)
Record Command := mkCommand { cmd_update : FibUpdate; cmd_add : bool; cmd_nTimeouts : Z }.

(** [onSuccess] or [onFailure] has been called, or responses are awaited. *)
Inductive Outcome := Waiting | Success (inherited : list RibUpdate) | Failure (code : Z).

Definition sendUpdates (updates : list FibUpdate) : list Command :=
  (fun u => mkCommand u (bool_decide (fu_action u = ADD_NEXTHOP)) 0) <$> updates.

Definition sendUpdatesForNonBatchFaceId st : list Command * Outcome :=
  match m_updatesForNonBatchFaceId st with
  | [] => ([], Success (m_inheritedRoutes st))
  | l => (sendUpdates l, Waiting)
  end.

Definition sendUpdatesForBatchFaceId st : list Command * Outcome :=
  match m_updatesForBatchFaceId st with
  | [] => sendUpdatesForNonBatchFaceId st
  | l => (sendUpdates l, Waiting)
  end.

Definition computeAndSendFibUpdates m (faceId : Z) (batch : list RibUpdate) st :
    option (FibUpdater * (list Command * Outcome)) :=
  st ← computeUpdates m batch (mkFibUpdater faceId [] [] [] (fu_cancelled st));
  Some (st, sendUpdatesForBatchFaceId st).

Definition without (u : FibUpdate) (l : list FibUpdate) : list FibUpdate := remove_if (fun x => bool_decide (x = u)) l.

Definition set_batch_updates (l : list FibUpdate) st : FibUpdater :=
  mkFibUpdater (m_batchFaceId st) l (m_updatesForNonBatchFaceId st) (m_inheritedRoutes st) (fu_cancelled st).
Definition set_nonbatch_updates (l : list FibUpdate) st : FibUpdater :=
  mkFibUpdater (m_batchFaceId st) (m_updatesForBatchFaceId st) l (m_inheritedRoutes st) (fu_cancelled st).

(** A next hop of a face that is not the batch's is done with. *)
Definition finishNonBatch (u : FibUpdate) st : FibUpdater * (list Command * Outcome) :=
  let st := set_nonbatch_updates (without u (m_updatesForNonBatchFaceId st)) st in
  (st, ([], match m_updatesForNonBatchFaceId st with [] => Success (m_inheritedRoutes st) | _ => Waiting end)).

Definition onUpdateSuccess (u : FibUpdate) st : FibUpdater * (list Command * Outcome) :=
  if fu_faceId u =? m_batchFaceId st then
    let st := set_batch_updates (without u (m_updatesForBatchFaceId st)) st in
    (st, match m_updatesForBatchFaceId st with [] => sendUpdatesForNonBatchFaceId st | _ => ([], Waiting) end)
  else finishNonBatch u st.

(** After a timeout the command that is sent adds the next hop, whatever the
    update's action. *)
Definition onUpdateError (u : FibUpdate) (code nTimeouts : Z) st : option (FibUpdater * (list Command * Outcome)) :=
  if (code =? ERROR_TIMEOUT) && (nTimeouts <? MAX_NUM_TIMEOUTS) then
    Some (st, ([mkCommand u true (nTimeouts + 1)], Waiting))
  else if code =? ERROR_FACE_NOT_FOUND then
    if fu_faceId u =? m_batchFaceId st then Some (st, ([], Failure code)) else Some (finishNonBatch u st)
  else None.

(** ** The queue of the RIB *)

(** Every batch is one update. The commands sent and the completed updates, with
    their success, are recorded in order. *)
Record RibQueue := mkRibQueue {
  q_rib : Rib (C:=C) (Ann:=Ann);
  q_updater : FibUpdater;
  m_updateBatches : list RibUpdate;
  q_current : option RibUpdate;   (* the batch bound to the callbacks while [m_isUpdateInProgress] *)
  q_commands : list Command;
  q_completed : list (RibUpdate * bool)
}.
Implicit Types q : RibQueue.

Definition modifyInherited_step (om : option (gmap Name RibEntry)) (update : RibUpdate) : option (gmap Name RibEntry) :=
  m ← om;
  entry ← m !! ru_name update;
  Some (match ru_action update with
        | REGISTER => <[ru_name update := addInheritedRoute (ru_route update) entry]> m
        | UNREGISTER => <[ru_name update := removeInheritedRoute (ru_route update) entry]> m
        | REMOVE_FACE => m
        end).

Definition modifyInheritedRoutes (inherited : list RibUpdate) m : option (gmap Name RibEntry) :=
  foldl modifyInherited_step (Some m) inherited.

Definition set_m_rib m (rib : Rib) : Rib :=
  mkRib m (m_faceMap rib) (m_nItems rib) (rib_signals rib) (rib_cancelled rib).

(** The RIB's part of [onFibUpdateSuccess]. *)
Definition applyUpdate (update : RibUpdate) (inherited : list RibUpdate) (rib : Rib) : option Rib :=
  rib ← (match ru_action update with
         | REGISTER => rib_insert (ru_name update) (ru_route update) rib
         | _ => rib_erase (ru_name update) (ru_route update) rib
         end);
  m ← modifyInheritedRoutes inherited (m_rib rib);
  Some (set_m_rib m rib).

(** [onFibUpdateSuccess] and [onFibUpdateFailure] up to advancing the queue. *)
Definition complete (o : Outcome) q : option RibQueue :=
  match o, q_current q with
  | Success inherited, Some update =>
      rib ← applyUpdate update inherited (q_rib q);
      Some (mkRibQueue rib (q_updater q) (m_updateBatches q) None (q_commands q) (q_completed q ++ [(update, true)]))
  | Failure _, Some update =>
      Some (mkRibQueue (q_rib q) (q_updater q) (m_updateBatches q) None (q_commands q) (q_completed q ++ [(update, false)]))
  | _, _ => Some q
  end.

(** A batch that needs no command completes at once; every turn takes one batch. *)
Fixpoint sendBatchFromQueue (fuel : nat) q : option RibQueue :=
  match fuel with
  | O => None
  | S fuel =>
      match m_updateBatches q, q_current q with
      | update :: rest, None =>
          '(st, (cmds, o)) ← computeAndSendFibUpdates (m_rib (q_rib q)) (r_faceId (ru_route update)) [update] (q_updater q);
          q ← complete o (mkRibQueue (q_rib q) st rest (Some update) (q_commands q ++ cmds) (q_completed q));
          sendBatchFromQueue fuel q
      | _, _ => Some q
      end
  end.

Definition advance q : option RibQueue := sendBatchFromQueue (S (S (length (m_updateBatches q)))) q.

Definition addUpdateToQueue (update : RibUpdate) q : RibQueue :=
  mkRibQueue (q_rib q) (q_updater q) (m_updateBatches q ++ [update]) (q_current q) (q_commands q) (q_completed q).

Definition beginApplyUpdate (update : RibUpdate) q : option RibQueue := advance (addUpdateToQueue update q).

Definition onRouteExpiration name route q : option RibQueue := beginApplyUpdate (mkRibUpdate UNREGISTER name route) q.

Definition beginRemoveFace (faceId : Z) q : option RibQueue :=
  routes ← findRoutesWithFaceId faceId (q_rib q);
  advance (foldl (fun q nr => addUpdateToQueue (mkRibUpdate REMOVE_FACE nr.1 nr.2) q) q routes).

(** A response to a command: success, or an error code. *)
Definition onResponse (cmd : Command) (code : option Z) q : option RibQueue :=
  '(st, (cmds, o)) ← (match code with
                      | None => Some (onUpdateSuccess (cmd_update cmd) (q_updater q))
                      | Some c => onUpdateError (cmd_update cmd) c (cmd_nTimeouts cmd) (q_updater q)
                      end);
  q ← complete o (mkRibQueue (q_rib q) st (m_updateBatches q) (q_current q) (q_commands q ++ cmds) (q_completed q));
  advance q.
End FibUpdater.
