(* ===== verification/FibConsistency.v ===== *)
(** * The FIB follows the RIB

    What the next hops of a prefix are, as a function of the RIB alone, and that
    the updates that [rib/fib-updater.cpp] computes for a newly registered prefix
    bring the FIB from the next hops of the old RIB to those of the new one; that
    a batch completes when its commands succeed; and the updates after which the
    FIB does not follow the RIB. *)

From S2P Require Import Prelude Ndn Rib FibUpdater.
Local Open Scope Z_scope.

Section Consistency.
Context {C : Type} `{NameOrder C} {Ann : Type} `{!RouteFlags}.
Notation Name := (list C).
Notation Route := (Route (Ann:=Ann)).
Notation RibEntry := (RibEntry (C:=C) (Ann:=Ann)).
Notation Rib := (Rib (C:=C) (Ann:=Ann)).
Notation FibUpdater := (FibUpdater (C:=C) (Ann:=Ann)).
Notation FibUpdate := (FibUpdate (C:=C)).
Notation RibUpdate := (RibUpdate (C:=C) (Ann:=Ann)).
(** The next hops of the FIB: the cost for a prefix and a face. *)
Notation FibMap := (gmap (Name * Z) Z).
Implicit Types (m : gmap Name RibEntry) (e : RibEntry) (r route : Route) (n k a : Name) (f : Z)
  (A R : list Route) (st : FibUpdater) (fib : FibMap).

(** ** The next hops that a RIB means *)

(** The route on a face that the prefixes of [k] of fewer than [j] components pass
    down: the nearest entry with a route to inherit gives it, unless an entry in
    between captures. *)
Fixpoint inherited (j : nat) k m f : option Route :=
  match j with
  | O => None
  | S j =>
      match m !! take j k with
      | None => inherited j k m f
      | Some e =>
          match getRouteWithLowestCostAndChildInheritByFaceId f e with
          | Some r => Some r
          | None => if hasCapture e then None else inherited j k m f
          end
      end
  end.

(** What an entry inherits on a face: nothing if it captures or has the face itself. *)
Definition inherits m k f : option Route :=
  e ← m !! k; if hasFaceId f e || hasCapture e then None else inherited (length k) k m f.

Definition nexthop m k f : option Z :=
  e ← m !! k;
  match getRouteWithLowestCostByFaceId f e with
  | Some r => Some (r_cost r)
  | None => r_cost <$> inherits m k f
  end.

Definition fib_follows m fib : Prop := forall k f, fib !! (k, f) = nexthop m k f.

Definition hasInherited m k f : bool :=
  match m !! k with Some e => existsb (onFace f) (re_inheritedRoutes e) | None => false end.

Definition inherited_follows m : Prop := forall k f, hasInherited m k f = bool_decide (is_Some (inherits m k f)).

(** The first of the routes on a face that children inherit is the cheapest one. *)
Definition inherit_order m : Prop := forall k e f, m !! k = Some e ->
  find_if (fun r => onFace f r && isChildInherit r) (re_routes e) = getRouteWithLowestCostAndChildInheritByFaceId f e.

(** ** The FIB after the updates *)

Definition fu_target (u : FibUpdate) : Name * Z := (fu_name u, fu_faceId u).
Definition fu_result (u : FibUpdate) : option Z :=
  match fu_action u with ADD_NEXTHOP => Some (fu_cost u) | REMOVE_NEXTHOP => None end.
Definition fib_apply fib (u : FibUpdate) : FibMap := partial_alter (fun _ => fu_result u) (fu_target u) fib.
Definition all_updates st : list FibUpdate := m_updatesForBatchFaceId st ++ m_updatesForNonBatchFaceId st.

Lemma fib_apply_all l : forall fib t, uniq_keys fu_target l ->
  foldl fib_apply fib l !! t = match find_if (has_key fu_target t) l with Some u => fu_result u | None => fib !! t end.
Proof.
  induction l as [|u l IH]; intros fib t Hu; [done|]. unfold uniq_keys in Hu. simpl in Hu. apply NoDup_cons in Hu as [Hu Hl].
  simpl. rewrite IH by done. unfold has_key at 2. case_bool_decide as E.
  - assert (find_if (has_key fu_target t) l = None) as -> by (apply find_key_None; by rewrite <-E).
    unfold fib_apply. by rewrite <-E, lookup_partial_alter_eq.
  - unfold fib_apply. by rewrite lookup_partial_alter_ne.
Qed.

(** Each next hop has at most one update, in the list of its face. *)
Definition lists_ok st : Prop :=
  uniq_keys fu_target (m_updatesForBatchFaceId st) /\ uniq_keys fu_target (m_updatesForNonBatchFaceId st) /\
  (forall u, u ∈ m_updatesForBatchFaceId st -> fu_faceId u = m_batchFaceId st) /\
  (forall u, u ∈ m_updatesForNonBatchFaceId st -> fu_faceId u <> m_batchFaceId st).

Definition pending st (t : Name * Z) : option (option Z) := fu_result <$> find_if (has_key fu_target t) (all_updates st).

Lemma all_updates_uniq st : lists_ok st -> uniq_keys fu_target (all_updates st).
Proof.
  intros (A1 & A2 & A3 & A4). unfold uniq_keys, all_updates. rewrite fmap_app. apply NoDup_app. split_and!; [done| |done].
  intros t (u & -> & Hu)%list_elem_of_fmap (v & E & Hv)%list_elem_of_fmap. apply A3 in Hu. apply A4 in Hv.
  unfold fu_target in E. congruence.
Qed.

Lemma fib_after st fib t : lists_ok st ->
  foldl fib_apply fib (all_updates st) !! t = match pending st t with Some v => v | None => fib !! t end.
Proof.
  intros Hok. rewrite fib_apply_all by (by apply all_updates_uniq). unfold pending. by destruct (find_if _ _).
Qed.

Lemma sameTarget_key u v : sameTarget u v = has_key fu_target (fu_target u) v.
Proof.
  unfold sameTarget, has_key, fu_target. apply eq_true_iff_eq. rewrite andb_true_iff, !bool_decide_eq_true, Z.eqb_eq.
  split; [intros [-> ->]; done|intros [= -> ->]; done].
Qed.

Lemma put_update_ok u l : uniq_keys fu_target l ->
  uniq_keys fu_target (put_update u l) /\ (forall v, v ∈ put_update u l -> fu_faceId v = fu_faceId u \/ exists y, y ∈ l /\ fu_faceId v = fu_faceId y) /\
  forall t, fu_result <$> find_if (has_key fu_target t) (put_update u l) =
    if decide (t = fu_target u) then Some (fu_result u) else fu_result <$> find_if (has_key fu_target t) l.
Proof.
  intros Hu. unfold put_update. set (upd := fun x : FibUpdate => mkFibUpdate _ _ _ _).
  assert (forall p : FibUpdate -> bool, (forall v, sameTarget u v = p v) -> find_if (sameTarget u) l = find_if p l) as Hf
    by (intros p Hp; apply find_if_ext; auto).
  rewrite (Hf _ (sameTarget_key u)).
  assert (update_first (sameTarget u) upd l = update_first (has_key fu_target (fu_target u)) upd l) as ->.
  { clear. induction l as [|x l IH]; [done|]. simpl. by rewrite sameTarget_key, IH. }
  destruct (find_if (has_key fu_target (fu_target u)) l) as [x|] eqn:E.
  - split_and!.
    + apply uniq_update_first; [|done]. done.
    + intros v (y & Hy & Hv)%update_first_elem. right. exists y. split; [done|]. by destruct Hv as [->| ->].
    + intros t. case_decide as Ht.
      * subst t. rewrite (find_update_same _ _ upd l x) by (try done; by apply find_key_Some in E as [_ ?]). done.
      * rewrite find_update_other; [done|congruence|by intros y <-].
  - split_and!.
    + unfold uniq_keys. rewrite fmap_app. apply NoDup_app. split_and!; [done| |apply NoDup_singleton].
      intros t Ht Hx%list_elem_of_singleton. subst t. by apply find_key_None in E.
    + intros v [Hv| ->%list_elem_of_singleton]%elem_of_app; [right; by exists v|by left].
    + intros t. rewrite find_if_app. case_decide as Ht.
      * subst t. rewrite E. simpl. unfold has_key. by rewrite bool_decide_eq_true_2.
      * destruct (find_if (has_key fu_target t) l); [done|]. simpl. unfold has_key. rewrite bool_decide_eq_false_2; [done|congruence].
Qed.

Lemma addFibUpdate_pending u st : lists_ok st ->
  lists_ok (addFibUpdate u st) /\ forall t, pending (addFibUpdate u st) t =
    if decide (t = fu_target u) then Some (fu_result u) else pending st t.
Proof.
  intros (A1 & A2 & A3 & A4). unfold addFibUpdate, pending, all_updates.
  destruct (Z.eqb_spec (fu_faceId u) (m_batchFaceId st)) as [E|E]; simpl.
  - destruct (put_update_ok u _ A1) as (P1 & P2 & P3). split.
    + split_and!; simpl; [done|done| |done]. intros v [->|(y & Hy & ->)]%P2; [done|by apply A3].
    + intros t. rewrite !find_if_app. specialize (P3 t). case_decide as Ht.
      * destruct (find_if _ (put_update _ _)); simpl in *; congruence.
      * destruct (find_if (has_key fu_target t) (put_update u _)), (find_if (has_key fu_target t) (m_updatesForBatchFaceId st));
          simpl in *; congruence.
  - destruct (put_update_ok u _ A2) as (P1 & P2 & P3). split.
    + split_and!; simpl; [done|done|done|]. intros v [->|(y & Hy & ->)]%P2; [done|by apply A4].
    + intros t. rewrite !find_if_app. specialize (P3 t). case_decide as Ht.
      * assert (find_if (has_key fu_target t) (m_updatesForBatchFaceId st) = None) as ->; [|done].
        apply find_key_None. intros (v & Hv & Hin)%list_elem_of_fmap. apply A3 in Hin. subst t. unfold fu_target in Hv. congruence.
      * by destruct (find_if (has_key fu_target t) (m_updatesForBatchFaceId st)).
Qed.

(** ** The inherited routes after the updates *)

Definition inh_step k f (b : bool) (u : RibUpdate) : bool :=
  if bool_decide (ru_name u = k) && onFace f (ru_route u)
  then match ru_action u with REGISTER => true | _ => false end else b.

Definition ribUpdate_ok (D : Name -> Prop) (u : RibUpdate) : Prop := D (ru_name u) /\ ru_action u <> REMOVE_FACE.

Lemma existsb_remove f g (l : list Route) : existsb (onFace f) (remove_if (onFace g) l) = negb (f =? g) && existsb (onFace f) l.
Proof.
  induction l as [|x l IH]; simpl; [by rewrite andb_false_r|].
  destruct (onFace g x) eqn:Eg; simpl; rewrite IH; destruct (onFace f x) eqn:Ef; unfold onFace in *; simpl; try done;
    destruct (Z.eqb_spec f g); simpl; try done; lia.
Qed.

Definition without_inherited e : RibEntry := set_inherited [] e.

Lemma rib_ok_inherited (rib : Rib) n e l : rib_ok rib -> m_rib rib !! n = Some e ->
  rib_ok (set_m_rib (<[n := set_inherited l e]> (m_rib rib)) rib).
Proof.
  intros (Hl & Ht & Hr & Hf & Hc) Hn.
  destruct (links_update _ n e (set_inherited l e) Hl Hn) as [Hl' Hp]; [done..|].
  split_and!; simpl; [done|by eapply tree_update| | |].
  - intros k ek [[<- <-]|[_ Hk]]%lookup_insert_Some; [exact (Hr n e Hn)|exact (Hr k ek Hk)].
  - intros f k. rewrite Hf. setoid_rewrite lookup_insert_Some. split.
    + intros (e0 & He0 & Hh). destruct (decide (k = n)) as [->|]; [|exists e0; auto].
      exists (set_inherited l e). rewrite Hn in He0. injection He0 as <-. auto.
    + intros (e0 & [[<- <-]|[_ He0]] & Hh); [by exists e|by exists e0].
  - rewrite Hc. do 2 f_equal. rewrite fmap_insert, insert_id; [done|]. by rewrite lookup_fmap, Hn.
Qed.

Lemma modifyInheritedRoutes_ok l : forall (rib : Rib), rib_ok rib ->
  Forall (ribUpdate_ok (fun k => is_Some (m_rib rib !! k))) l ->
  exists m', modifyInheritedRoutes l (m_rib rib) = Some m' /\ rib_ok (set_m_rib m' rib) /\
    without_inherited <$> m' = without_inherited <$> m_rib rib /\
    forall k f, hasInherited m' k f = foldl (inh_step k f) (hasInherited (m_rib rib) k f) l.
Proof.
  unfold modifyInheritedRoutes. induction l as [|u l IH]; intros rib Hok Hl.
  { exists (m_rib rib). split_and!; [done| |done|done]. by destruct rib. }
  apply Forall_cons in Hl as [[[e He] Ha] Hl]. simpl. rewrite He. simpl.
  set (e' := match ru_action u with REGISTER => addInheritedRoute (ru_route u) e | _ => removeInheritedRoute (ru_route u) e end).
  set (rib1 := set_m_rib (<[ru_name u := e']> (m_rib rib)) rib).
  assert (rib_ok rib1) as Hok1 by (unfold rib1, e'; destruct (ru_action u); by apply rib_ok_inherited).
  destruct (IH rib1 Hok1) as (m' & Em & Hok' & Hw & Hi).
  { eapply Forall_impl; [done|]. intros v [Hv Hva]. split; [|done]. simpl. apply lookup_insert_is_Some'. by right. }
  exists m'. split_and!.
  - simpl in Em. unfold e' in Em. destruct (ru_action u); done.
  - done.
  - rewrite Hw. simpl. rewrite fmap_insert. apply insert_id. rewrite lookup_fmap, He. simpl. unfold e'. by destruct (ru_action u).
  - intros k f. rewrite Hi. f_equal. unfold inh_step, hasInherited. simpl. rewrite lookup_insert. case_bool_decide as Ek.
    + rewrite decide_True by done. rewrite <-Ek, He. unfold e', onFace at 2. destruct (ru_action u) eqn:Eu; simpl; try done.
      * rewrite existsb_app. simpl. unfold onFace at 2. destruct (_ =? _); by rewrite ?orb_true_r, ?orb_false_r.
      * rewrite existsb_remove. rewrite Z.eqb_sym. destruct (_ =? _); done.
    + by rewrite decide_False.
Qed.

(** ** What a pass over the updates has set *)

Section Pass.
Context (m : gmap Name RibEntry) (fib : FibMap) (D : Name -> Prop).

Definition st_ok st : Prop := lists_ok st /\ Forall (ribUpdate_ok D) (m_inheritedRoutes st).

(** The cost in the FIB, and whether the entry has the face among its inherited routes. *)
Definition view st k f : option Z * bool :=
  (match pending st (k, f) with Some v => v | None => fib !! (k, f) end,
   foldl (inh_step k f) (hasInherited m k f) (m_inheritedRoutes st)).

Lemma push_inherited_view u st : st_ok st -> ribUpdate_ok D u -> st_ok (push_inherited u st) /\
  forall k f, view (push_inherited u st) k f = ((view st k f).1, inh_step k f (view st k f).2 u).
Proof.
  intros [Hl Hi] Hu. split; [|intros k f; unfold view; simpl; by rewrite foldl_app].
  split; [done|]. simpl. apply Forall_app. auto.
Qed.

Lemma addFibUpdate_view u st : st_ok st -> st_ok (addFibUpdate u st) /\
  forall k f, view (addFibUpdate u st) k f = (if decide ((k, f) = fu_target u) then fu_result u else (view st k f).1, (view st k f).2).
Proof.
  intros [Hl Hi]. destruct (addFibUpdate_pending u st Hl) as [Hl' Hp].
  assert (m_inheritedRoutes (addFibUpdate u st) = m_inheritedRoutes st) as Hm by (unfold addFibUpdate; by destruct (_ =? _)).
  split; [split; [done|by rewrite Hm]|]. intros k f. unfold view. rewrite Hm, Hp. by case_decide.
Qed.

(** An update with the change of the inherited route that goes with it. *)
Lemma both_view (u : FibUpdate) (v : RibUpdate) st :
  st_ok st -> D (fu_name u) -> ru_name v = fu_name u -> r_faceId (ru_route v) = fu_faceId u ->
  ru_action v = match fu_action u with ADD_NEXTHOP => REGISTER | REMOVE_NEXTHOP => UNREGISTER end ->
  st_ok (addFibUpdate u (push_inherited v st)) /\
  forall k f, view (addFibUpdate u (push_inherited v st)) k f =
    if decide (k = fu_name u /\ f = fu_faceId u)
    then (fu_result u, match fu_action u with ADD_NEXTHOP => true | REMOVE_NEXTHOP => false end) else view st k f.
Proof.
  intros Hst HD Hn Hf Ha.
  destruct (push_inherited_view v st) as [Hst1 Hv1]; [done|split; [by rewrite Hn|rewrite Ha; by destruct (fu_action u)]|].
  destruct (addFibUpdate_view u _ Hst1) as [Hst2 Hv2]. split; [done|]. intros k f. rewrite Hv2, Hv1. simpl.
  unfold inh_step, onFace, fu_target. rewrite Hn, Hf, Ha.
  destruct (decide (k = fu_name u /\ f = fu_faceId u)) as [[-> ->]|Hne].
  - rewrite decide_True by done. rewrite bool_decide_eq_true_2, Z.eqb_refl by done. simpl. by destruct (fu_action u).
  - rewrite decide_False by (intros [= -> ->]; tauto).
    assert (bool_decide (fu_name u = k) && (fu_faceId u =? f) = false) as ->; [|reflexivity].
    apply andb_false_iff. rewrite bool_decide_eq_false, Z.eqb_neq. destruct (decide (fu_name u = k)) as [<-|]; [right|by left]. intros <-. tauto.
Qed.

(** A loop over routes of distinct faces whose steps set the value of one entry. *)
Lemma fold_routes (step : FibUpdater -> Route -> FibUpdater) (cond : Route -> bool) k0 (val : Route -> option Z * bool) :
  (forall st r, st_ok st -> st_ok (step st r) /\ forall k f, view (step st r) k f =
     if decide (k = k0 /\ f = r_faceId r /\ cond r = true) then val r else view st k f) ->
  forall A st, uniq_keys r_faceId A -> st_ok st -> st_ok (foldl step st A) /\ forall k f, view (foldl step st A) k f =
    match find_if (onFace f) A with
    | Some r => if decide (k = k0 /\ cond r = true) then val r else view st k f
    | None => view st k f
    end.
Proof.
  intros Hstep. induction A as [|r A IH]; intros st Hu Hst; [done|]. unfold uniq_keys in Hu. simpl in Hu.
  apply NoDup_cons in Hu as [Hr Hu]. destruct (Hstep st r Hst) as [Hst1 Hv1]. destruct (IH _ Hu Hst1) as [Hst2 Hv2].
  simpl. split; [done|]. intros k f. rewrite Hv2, Hv1. unfold onFace at 2. destruct (Z.eqb_spec (r_faceId r) f) as [Ef|Ef].
  - assert (find_if (onFace f) A = None) as ->.
    { apply find_if_None. intros x Hx. apply Z.eqb_neq. intros E. apply Hr, list_elem_of_fmap. exists x. split; [congruence|done]. }
    repeat case_decide; try done; naive_solver.
  - rewrite (decide_False (P := k = k0 /\ f = r_faceId r /\ cond r = true)) by (intros (_ & -> & _); done). done.
Qed.

(** ** The subtree *)

Context (Hlinks : links_ok m) (Htree : tree m) (HD : forall k, is_Some (m !! k) -> D k).

(** What routes to add and to remove mean for an entry that they reach. *)
Definition tgt A R k f (v : option Z * bool) : option Z * bool :=
  match m !! k with
  | None => v
  | Some e =>
      let v := match find_if (onFace f) R with
               | Some _ => if existsb (onFace f) (re_inheritedRoutes e) then (None, false) else v
               | None => v
               end in
      match find_if (onFace f) A with
      | Some r => if hasFaceId f e then v else (Some (r_cost r), true)
      | None => v
      end
  end.

Lemma tgt_idem A R k f v : tgt A R k f (tgt A R k f v) = tgt A R k f v.
Proof. unfold tgt. by repeat case_match. Qed.

Lemma here_view a e A R st :
  m !! a = Some e -> uniq_keys r_faceId A -> uniq_keys r_faceId R -> st_ok st ->
  st_ok (add_here e A (remove_here e R st)) /\ forall k f, view (add_here e A (remove_here e R st)) k f =
    if decide (k = a /\ hasChildInheritOnFaceId f e = false) then tgt A R k f (view st k f) else view st k f.
Proof.
  intros Ha HA HR Hst. destruct (proj1 Hlinks a e Ha) as (Hname & _).
  assert (D a) as HDa by (apply HD; by eexists).
  edestruct (fold_routes (fun st route => if hasChildInheritOnFaceId (r_faceId route) e then st
      else if hasInheritedRoute route e then addFibUpdate (createRemoveUpdate (re_name e) (r_faceId route))
             (fu_removeInheritedRoute (re_name e) route st) else st)
    (fun r => negb (hasChildInheritOnFaceId (r_faceId r) e) && hasInheritedRoute r e) a (fun _ => (None, false)))
    with (A := R) (st := st) as [Hst1 Hv1]; [|done|done|].
  { intros st0 r0 Hst0. destruct (hasChildInheritOnFaceId _ e), (hasInheritedRoute r0 e); simpl.
    1,2,4: split; [done|]; intros k f; rewrite decide_False; [done|naive_solver].
    destruct (both_view (createRemoveUpdate (re_name e) (r_faceId r0)) (mkRibUpdate UNREGISTER (re_name e) r0) st0)
      as [Hs Hv]; [done|simpl; by rewrite Hname|done..|].
    split; [done|]. intros k f. rewrite Hv. simpl. rewrite Hname. repeat case_decide; try done; tauto. }
  edestruct (fold_routes (fun st route => if hasChildInheritOnFaceId (r_faceId route) e then st
      else if negb (hasFaceId (r_faceId route) e) then addFibUpdate (createAddUpdate (re_name e) (r_faceId route) (r_cost route))
             (fu_addInheritedRoute (re_name e) route st) else st)
    (fun r => negb (hasChildInheritOnFaceId (r_faceId r) e) && negb (hasFaceId (r_faceId r) e)) a (fun r => (Some (r_cost r), true)))
    with (A := A) (st := remove_here e R st) as [Hst2 Hv2]; [|done|done|].
  { intros st0 r0 Hst0. destruct (hasChildInheritOnFaceId _ e), (hasFaceId _ e); simpl.
    1,2,3: split; [done|]; intros k f; rewrite decide_False; [done|naive_solver].
    destruct (both_view (createAddUpdate (re_name e) (r_faceId r0) (r_cost r0)) (mkRibUpdate REGISTER (re_name e) r0) st0)
      as [Hs Hv]; [done|simpl; by rewrite Hname|done..|].
    split; [done|]. intros k f. rewrite Hv. simpl. rewrite Hname. repeat case_decide; try done; tauto. }
  split; [done|]. intros k f. unfold add_here. rewrite Hv2. unfold remove_here. rewrite Hv1.
  assert (forall (l : list Route) x, find_if (onFace f) l = Some x -> r_faceId x = f) as Hface.
  { intros l x [_ Hx]%find_if_Some. by apply Z.eqb_eq. }
  assert (forall (l : list Route) x, find_if (onFace f) l = Some x -> hasInheritedRoute x e = existsb (onFace f) (re_inheritedRoutes e)) as Hinh.
  { intros l x Hx. unfold hasInheritedRoute. by rewrite (Hface l x Hx). }
  unfold tgt. destruct (find_if (onFace f) A) as [x|] eqn:EA, (find_if (onFace f) R) as [y|] eqn:ER;
    rewrite ?(Hface _ _ EA), ?(Hface _ _ ER), ?(Hinh _ _ ER);
    (destruct (decide (k = a)) as [->|]; rewrite ?Ha); destruct (hasChildInheritOnFaceId f e), (hasFaceId f e),
    (existsb (onFace f) (re_inheritedRoutes e)); simpl; repeat case_decide; try done; intuition congruence.
Qed.

(** The entries below [a] that a route on [f] reaches from [a]. *)
Definition passes f e : bool := negb (hasCapture e) && negb (hasChildInheritOnFaceId f e).

Inductive reach f : Name -> Name -> Prop :=
  | reach_here a e : m !! a = Some e -> passes f e = true -> reach f a a
  | reach_child a e c k : m !! a = Some e -> passes f e = true -> par m c = Some a -> reach f c k -> reach f a k.

Definition spread (P : Z -> Name -> Prop) A R st st' : Prop := forall k f,
  (P f k /\ view st' k f = tgt A R k f (view st k f)) \/ (~ P f k /\ view st' k f = view st k f).

Lemma spread_fold (T : Name -> FibUpdater -> option FibUpdater) A R cs :
  (forall c st, c ∈ cs -> st_ok st -> exists st', T c st = Some st' /\ st_ok st' /\ spread (fun f => reach f c) A R st st') ->
  forall st, st_ok st -> exists st', foldl (fun o c => st ← o; T c st) (Some st) cs = Some st' /\ st_ok st' /\
    spread (fun f k => exists c, c ∈ cs /\ reach f c k) A R st st'.
Proof.
  induction cs as [|c cs IH]; intros HT st Hst; simpl.
  { exists st. split_and!; [done|done|]. intros k f. right. split; [|done]. by intros (c & Hc%not_elem_of_nil & _). }
  destruct (HT c st) as (st1 & -> & Hst1 & H1v); [by left|done|].
  destruct (IH (fun c' st' Hc => HT c' st' (list_elem_of_further _ _ _ Hc)) st1 Hst1) as (st2 & -> & Hst2 & H2v).
  exists st2. split_and!; [done|done|]. intros k f.
  destruct (H2v k f) as [[(c' & Hc' & Hr2) ->]|[Hr2 ->]], (H1v k f) as [[Hr1 ->]|[Hr1 ->]].
  - left. rewrite tgt_idem. split; [|done]. exists c. split; [by left|done].
  - left. split; [|done]. exists c'. split; [by right|done].
  - left. split; [|done]. exists c. split; [by left|done].
  - right. split; [|done]. intros (c' & [->|Hc']%elem_of_cons & Hr); [done|]. apply Hr2. by exists c'.
Qed.

Lemma find_passed_on e f A :
  find_if (onFace f) (passed_on e A) = if hasChildInheritOnFaceId f e then None else find_if (onFace f) A.
Proof.
  unfold passed_on. induction A as [|x A IH]; simpl; [by destruct (hasChildInheritOnFaceId f e)|].
  destruct (hasChildInheritOnFaceId (r_faceId x) e) eqn:E; simpl; rewrite IH; unfold onFace;
    destruct (Z.eqb_spec (r_faceId x) f) as [<-|]; try rewrite E; done.
Qed.

Lemma maxLength_ok k : is_Some (m !! k) -> (length k <= maxLength m)%nat.
Proof.
  intros [e He]. unfold maxLength. revert e He.
  apply (map_fold_weak_ind (fun b m => forall e, m !! k = Some e -> (length k <= b)%nat)).
  - intros e He. by rewrite lookup_empty in He.
  - intros j x m' b Hj IH e [[-> ->]|[_ He]]%lookup_insert_Some; [lia|]. apply IH in He. lia.
Qed.

Lemma traverse_ok fuel : forall a e A R st,
  m !! a = Some e -> (maxLength m < fuel + length a)%nat -> uniq_keys r_faceId A -> uniq_keys r_faceId R -> st_ok st ->
  exists st', traverseSubTree fuel m e A R st = Some st' /\ st_ok st' /\ spread (fun f => reach f a) A R st st'.
Proof.
  induction fuel as [|fuel IH]; intros a e A R st Ha Hlen HA HR Hst.
  { pose proof (maxLength_ok a (mk_is_Some _ _ Ha)). simpl in Hlen. lia. }
  simpl. assert (forall f k, reach f a k -> passes f e = true) as Hpass.
  { intros f k Hr. inversion Hr; congruence. }
  destruct (hasCapture e) eqn:Ecap.
  { exists st. split_and!; [done|done|]. intros k f. right. split; [|done]. intros Hr%Hpass. unfold passes in Hr. by rewrite Ecap in Hr. }
  destruct (here_view a e A R st) as [Hst1 Hv1]; [done..|]. set (st1 := add_here e A _) in *.
  destruct (proj1 Hlinks a e Ha) as (_ & _ & Hch).
  edestruct (spread_fold (fun c st => child ← m !! c; traverseSubTree fuel m child (passed_on e A) (passed_on e R) st)
    (passed_on e A) (passed_on e R) (re_children e)) as (st2 & E2 & Hst2 & Hv2); [|exact Hst1|].
  { intros c st0 Hc%Hch Hst0. destruct (par_dom _ _ _ Hc) as [ec Hec]. rewrite Hec. simpl.
    apply IH; [done| |by apply uniq_remove_if..|done].
    pose proof (par_sp _ _ _ Htree Hc) as (j & Hj & ->)%sp_take. rewrite length_take in *. lia. }
  exists st2. split_and!; [exact E2|done|]. intros k f.
  assert (reach f a k <-> passes f e = true /\ (k = a \/ exists c, c ∈ re_children e /\ reach f c k)) as Hiff.
  { split.
    - intros Hr. split; [by eapply Hpass|]. inversion Hr; simplify_eq; [by left|]. right. exists c. by rewrite Hch.
    - intros [Hp [->|(c & Hc%Hch & Hr)]]; [by eapply reach_here|by eapply reach_child]. }
  rewrite Hiff. unfold passes. rewrite Ecap. simpl.
  assert (forall v, tgt (passed_on e A) (passed_on e R) k f v = if hasChildInheritOnFaceId f e then v else tgt A R k f v) as Htgt.
  { intros v. unfold tgt. rewrite !find_passed_on. destruct (hasChildInheritOnFaceId f e); [|done]. by case_match. }
  destruct (Hv2 k f) as [[Hr ->]|[Hr ->]]; rewrite ?Htgt, Hv1; destruct (hasChildInheritOnFaceId f e); simpl.
  - right. rewrite decide_False by naive_solver. split; [naive_solver|done].
  - left. split; [auto|]. case_decide; [by rewrite tgt_idem|done].
  - right. rewrite decide_False by naive_solver. split; [naive_solver|done].
  - destruct (decide (k = a)) as [->|Hk].
    + left. rewrite decide_True by done. auto.
    + right. rewrite decide_False by naive_solver. split; [naive_solver|done].
Qed.

Lemma nearest_par a k : par m k = Some a -> nearest m k (Some a).
Proof. intros Hp. rewrite <-Hp, Htree by (by eapply par_dom). apply findParent_nearest. Qed.

Lemma reach_prefix f c k : reach f c k -> c `prefix_of` k /\ is_Some (m !! k) /\
  forall p e, m !! p = Some e -> c `prefix_of` p -> p `prefix_of` k -> passes f e = true.
Proof.
  induction 1 as [a e Ha Hp|a e c k Ha Hp Hc Hr (Hck & Hk & IH)].
  - split_and!; [done|by eexists|]. intros p e' He' H1p H2p. assert (p = a) as -> by (by apply (anti_symm prefix)). congruence.
  - destruct (nearest_par _ _ Hc) as (_ & Hac & Hnear). split_and!; [trans c; [apply Hac|done]|done|].
    intros p e' He' H1p H2p. destruct (decide (p = a)) as [->|Hpa]; [congruence|].
    apply (IH p); [done| |done]. destruct (decide (p = c)) as [->|Hpc]; [done|].
    destruct (sp_total p c k) as [Hs|[Hs _]]; [done|done|done| |done].
    destruct Hpa. apply (anti_symm prefix); [|done]. apply Hnear; [by eexists|done].
Qed.

Lemma reach_snoc f c p k ek : reach f c p -> par m k = Some p -> m !! k = Some ek -> passes f ek = true -> reach f c k.
Proof.
  intros Hr. revert k ek. induction Hr as [a e Ha Hp|a e c k Ha Hp Hc Hr IH]; intros k' ek Hpar Hk Hpass.
  - eapply reach_child; [done|done|done|]. by eapply reach_here.
  - eapply reach_child; [done|done|done|]. by eapply IH.
Qed.

(** The entries that have the parent that [n] would have, and come under it. *)
Definition future_children n : list Name :=
  filter (fun d => m !! d ≫= re_parent = findParent n m) (findDescendantsForNonInsertedName n m).

Lemma future_children_spec n c : m !! n = None ->
  c ∈ future_children n <-> is_Some (m !! c) /\ sp n c /\ par m c = findParent n m.
Proof.
  intros Hn. unfold future_children. rewrite list_elem_of_filter, findDescendantsForNonInsertedName_spec. unfold sp.
  split; [|naive_solver]. intros (Hp & Hc & Hpre). split_and!; [done|done| |done]. intros <-. destruct Hc. congruence.
Qed.

Lemma reach_below n k f : m !! n = None ->
  (exists c, c ∈ future_children n /\ reach f c k) <->
  is_Some (m !! k) /\ sp n k /\ forall p e, m !! p = Some e -> sp n p -> p `prefix_of` k -> passes f e = true.
Proof.
  intros Hn. pose proof (findParent_nearest m n) as Hnear. split.
  - intros (c & (Hc & Hnc & Hpar)%future_children_spec & (Hck & Hk & Hr)%reach_prefix); [|done].
    split_and!; [done|by eapply sp_trans|]. intros p e He Hnp Hpk. apply (Hr p); [done| |done].
    destruct (decide (p = c)) as [->|Hpc]; [done|].
    destruct (sp_total p c k) as [Hs|[Hs _]]; [done|done|done| |done]. exfalso.
    pose proof (findParent_nearest m c) as Hnc'. rewrite <-Htree, Hpar in Hnc' by done.
    destruct (findParent n m) as [q|].
    + destruct Hnc' as (_ & _ & Hq), Hnear as (_ & Hqn & _). apply (sp_irrefl n).
      eapply sp_trans; [apply Hnp|]. trans q; [apply Hq; [by eexists|done]|apply Hqn].
    + by apply (Hnc' p); [eexists|].
  - remember (length k) as j eqn:Ej. revert k Ej. induction (lt_wf j) as [j _ IH]. intros k -> ([ek Hk] & Hnk & Hopen).
    assert (passes f ek = true) as Hpk by (by apply (Hopen k)).
    destruct (decide (findParent k m = findParent n m)) as [Heq|Hne].
    { exists k. split; [|by eapply reach_here]. apply future_children_spec; [done|].
      split_and!; [by eexists|done|]. rewrite Htree; [done|by eexists]. }
    pose proof (findParent_nearest m k) as Hk'. destruct (findParent k m) as [p|] eqn:Ep.
    + destruct Hk' as ([ep Hp] & Hspk & Hpn).
      destruct (sp_total n p k) as [Hs|Hs]; [apply Hnk|apply Hspk|congruence| |].
      * destruct (IH (length p)) with (k := p) as (c & Hc & Hr); [|done| |].
        -- apply sp_take in Hspk as (j & Hj & ->). rewrite length_take. lia.
        -- split_and!; [by eexists|done|]. intros p' e' He' Hn' Hp'. apply (Hopen p'); [done|done|]. trans p; [done|apply Hspk].
        -- exists c. split; [done|]. eapply reach_snoc; [done| |done|done]. rewrite Htree; [done|by eexists].
      * destruct Hne. symmetry. apply findParent_eq. split_and!; [by eexists|done|].
        intros b Hb Hbn. apply Hpn; [done|]. eapply sp_trans; [done|apply Hnk].
    + destruct (findParent n m) as [q|]; [|done]. destruct Hnear as (Hq & Hqn & _).
      exfalso. apply (Hk' q Hq). eapply sp_trans; [done|apply Hnk].
Qed.
End Pass.

(** ** The routes of the ancestors *)

Definition face_sorted (l : list Route) : Prop := StronglySorted (fun x y => r_faceId x < r_faceId y) l.

Lemma face_sorted_uniq l : face_sorted l -> uniq_keys r_faceId l.
Proof.
  unfold uniq_keys. induction 1 as [|x l Hl IH Hx]; simpl; [apply NoDup_nil_2|]. apply NoDup_cons. split; [|done].
  intros (y & E & Hy)%list_elem_of_fmap. rewrite Forall_forall in Hx. apply Hx in Hy. lia.
Qed.

Lemma rs_insert_elem r s x : x ∈ rs_insert r s -> x = r \/ x ∈ s.
Proof.
  induction s as [|y s IH]; simpl; [by intros ->%list_elem_of_singleton; left|].
  repeat case_match; [by intros [->|?]%elem_of_cons; auto| |by right].
  intros [->|[->|?]%IH]%elem_of_cons; [right; by left|by left|right; by right].
Qed.

Lemma rs_insert_ok r s : face_sorted s -> face_sorted (rs_insert r s) /\
  forall f, find_if (onFace f) (rs_insert r s) =
    match find_if (onFace f) s with Some x => Some x | None => if r_faceId r =? f then Some r else None end.
Proof.
  induction 1 as [|x s Hs [IH1 IH2] Hx]; simpl.
  { split; [repeat constructor|]. done. }
  destruct (Z.ltb_spec (r_faceId r) (r_faceId x)) as [Hlt|Hge]; [|destruct (Z.ltb_spec (r_faceId x) (r_faceId r)) as [Hlt|Hge']].
  - split.
    + repeat constructor; [done|done|done|]. eapply Forall_impl; [done|]. simpl. intros y ?. lia.
    + intros f. simpl. unfold onFace at 1 2 4. destruct (Z.eqb_spec (r_faceId r) f), (Z.eqb_spec (r_faceId x) f); try lia; try done.
      * assert (find_if (onFace f) s = None) as ->; [|done]. apply find_if_None. intros y Hy.
        rewrite Forall_forall in Hx. apply Hx in Hy. unfold onFace. lia.
      * by destruct (find_if (onFace f) s).
  - split.
    + constructor; [done|]. apply Forall_forall. intros y [->|Hy]%rs_insert_elem; [done|]. rewrite Forall_forall in Hx. by apply Hx.
    + intros f. simpl. rewrite IH2. by destruct (onFace f x).
  - split; [by constructor|]. intros f. simpl. unfold onFace at 1 3. destruct (Z.eqb_spec (r_faceId x) f); [done|].
    destruct (find_if (onFace f) s); [done|]. destruct (Z.eqb_spec (r_faceId r) f); [lia|done].
Qed.

Lemma insert_inheritable l : forall s, face_sorted s ->
  let s' := foldl (fun s r => if isChildInherit r then rs_insert r s else s) s l in
  face_sorted s' /\ forall f, find_if (onFace f) s' =
    match find_if (onFace f) s with Some x => Some x | None => find_if (fun r => onFace f r && isChildInherit r) l end.
Proof.
  induction l as [|r l IH]; intros s Hs; simpl.
  { split; [done|]. intros f. by destruct (find_if _ s). }
  destruct (isChildInherit r).
  - destruct (rs_insert_ok r s Hs) as [Hs1 Hf1]. destruct (IH _ Hs1) as [Hs2 Hf2]. split; [done|]. intros f.
    rewrite Hf2, Hf1. destruct (find_if (onFace f) s); [done|]. unfold onFace at 2. by destruct (r_faceId r =? f).
  - destruct (IH _ Hs) as [Hs2 Hf2]. split; [done|]. intros f. rewrite Hf2. by rewrite andb_false_r.
Qed.

Lemma inherited_take i j n m f : (i <= j)%nat -> inherited i (take j n) m f = inherited i n m f.
Proof.
  induction i as [|i IH]; intros Hij; [done|]. simpl. rewrite take_take, Nat.min_l, IH by lia. done.
Qed.

(** The walk over prefixes and the walk over entries. *)
Lemma inherited_parent n m f : inherited (length n) n m f =
  p ← findParent n m; e ← m !! p;
  match getRouteWithLowestCostAndChildInheritByFaceId f e with
  | Some r => Some r
  | None => if hasCapture e then None else inherited (length p) p m f
  end.
Proof.
  unfold findParent. assert (length n <= length n)%nat as Hj by done. revert Hj. generalize (length n) at 1 3 4 as j.
  induction j as [|j IH]; intros Hj; [done|]. simpl. unfold getPrefix in *. destruct (m !! take j n) as [e|] eqn:E.
  - simpl. rewrite E. simpl. rewrite length_take, Nat.min_l, inherited_take by lia. done.
  - rewrite IH by lia. done.
Qed.

Lemma ancestors_ok m fuel : tree m -> inherit_order m -> forall n s, (length n < fuel)%nat -> face_sorted s ->
  exists s', ancestors_loop fuel (findParent n m) s m = Some s' /\ face_sorted s' /\
    forall f, find_if (onFace f) s' = match find_if (onFace f) s with Some r => Some r | None => inherited (length n) n m f end.
Proof.
  intros Ht Ho. induction fuel as [|fuel IH]; intros n s Hlen Hs; [lia|]. simpl.
  pose proof (findParent_nearest m n) as Hn. destruct (findParent n m) as [p|] eqn:Ep.
  2:{ exists s. split_and!; [done|done|]. intros f. rewrite inherited_parent, Ep. by destruct (find_if _ s). }
  destruct Hn as ([e He] & Hpn & _). rewrite He. simpl.
  destruct (insert_inheritable (re_routes e) s Hs) as [Hs1 Hf1]. set (s1 := foldl _ s _) in *.
  assert (re_parent e = findParent p m) as ->.
  { rewrite <-Ht by (by eexists). unfold par. by rewrite He. }
  destruct (hasCapture e) eqn:Ecap.
  - exists s1. split_and!; [done|done|]. intros f. rewrite inherited_parent, Ep. simpl. rewrite He. simpl.
    rewrite Ecap, Hf1, (Ho p e f He).
    destruct (find_if (onFace f) s); [done|]. by destruct (getRouteWithLowestCostAndChildInheritByFaceId f e).
  - destruct (IH p s1) as (s2 & -> & Hs2 & Hf2); [|done|].
    { apply sp_take in Hpn as (j & Hj & ->). rewrite length_take. lia. }
    exists s2. split_and!; [done|done|]. intros f. rewrite inherited_parent, Ep. simpl. rewrite He. simpl.
    rewrite Ecap, Hf2, Hf1, (Ho p e f He).
    destruct (find_if (onFace f) s); [done|]. by destruct (getRouteWithLowestCostAndChildInheritByFaceId f e).
Qed.

(** ** The next hops after a new entry *)

Lemma existsb_find {T} (t : T -> bool) l : existsb t l = match find_if t l with Some _ => true | None => false end.
Proof. induction l as [|x l IH]; simpl; [done|]. by destruct (t x). Qed.

Lemma lowest_None (sel : Route -> bool) l : foldl (lowest_step sel) None l = None <-> existsb sel l = false.
Proof.
  assert (forall l c, is_Some (foldl (lowest_step sel) (Some c) l)) as Hs.
  { clear l. intros l. induction l as [|x l IH]; intros c; simpl; [by eexists|]. unfold lowest_step at 2. by repeat case_match. }
  induction l as [|x l IH]; simpl; [done|]. unfold lowest_step at 2. destruct (sel x); simpl; [|done].
  destruct (Hs l x) as [y ->]. done.
Qed.

Lemma ci_flag r : (Z.land (r_flags r) ROUTE_FLAG_CHILD_INHERIT =? ROUTE_FLAG_CHILD_INHERIT) = isChildInherit r.
Proof.
  unfold isChildInherit. pose proof child_inherit_nonzero as Hnz. destruct (child_inherit_bit (r_flags r)) as [->| ->].
  - rewrite Z.eqb_refl. apply Z.eqb_neq. congruence.
  - rewrite Z.eqb_refl. symmetry. by apply negb_true_iff, Z.eqb_neq.
Qed.

Lemma ci_None f e : getRouteWithLowestCostAndChildInheritByFaceId f e = None <-> hasChildInheritOnFaceId f e = false.
Proof.
  unfold getRouteWithLowestCostAndChildInheritByFaceId, hasChildInheritOnFaceId. rewrite lowest_None.
  induction (re_routes e) as [|x l IH]; simpl; [done|]. by rewrite ci_flag, !orb_false_iff, IH.
Qed.

Lemma ci_face f e : hasFaceId f e = false -> hasChildInheritOnFaceId f e = false.
Proof.
  unfold hasFaceId, hasChildInheritOnFaceId. induction (re_routes e) as [|x l IH]; simpl; [done|].
  rewrite !orb_false_iff. intros [-> Hl]. by split; [|apply IH].
Qed.

Lemma lowest_face f e : getRouteWithLowestCostByFaceId f e = None <-> hasFaceId f e = false.
Proof. apply lowest_None. Qed.

(** The part of an entry that the next hops depend on. *)
Definition core e := (re_routes e, re_nRoutesWithCaptureSet e).

Lemma core_inherited m m' : core <$> m' = core <$> m -> forall k f,
  (forall j, inherited j k m' f = inherited j k m f) /\ inherits m' k f = inherits m k f /\ nexthop m' k f = nexthop m k f.
Proof.
  intros Hc k f. assert (forall k, core <$> m' !! k = core <$> m !! k) as Hk by (intros k'; by rewrite <-!lookup_fmap, Hc).
  assert (forall j, inherited j k m' f = inherited j k m f) as Hj.
  { induction j as [|j IH]; [done|]. simpl. rewrite IH. specialize (Hk (take j k)).
    destruct (m' !! take j k) as [e'|], (m !! take j k) as [e|]; simpl in Hk; try done. injection Hk as Hr Hn.
    unfold getRouteWithLowestCostAndChildInheritByFaceId, hasCapture. by rewrite Hr, Hn. }
  assert (inherits m' k f = inherits m k f) as Hi.
  { unfold inherits. rewrite Hj. specialize (Hk k). destruct (m' !! k) as [e'|], (m !! k) as [e|]; simpl in Hk; try done.
    injection Hk as Hr Hn. simpl. unfold hasFaceId, hasCapture. by rewrite Hr, Hn. }
  split_and!; [done|done|]. unfold nexthop. rewrite Hi. specialize (Hk k).
  destruct (m' !! k) as [e'|], (m !! k) as [e|]; simpl in Hk; try done. injection Hk as Hr Hn. simpl.
  unfold getRouteWithLowestCostByFaceId. by rewrite Hr.
Qed.

Section NewEntry.
Context (m : gmap Name RibEntry) (n : Name) (en : RibEntry) (Hn : m !! n = None).
Notation m1 := (<[n := en]> m).

(** What the new entry passes down. *)
Definition passed_down f : option Route :=
  match getRouteWithLowestCostAndChildInheritByFaceId f en with
  | Some r => Some r
  | None => if hasCapture en then None else inherited (length n) n m f
  end.

Lemma inherited_above i k f : (i <= length k)%nat -> (i <= length n)%nat -> inherited i k m1 f = inherited i k m f.
Proof.
  induction i as [|i IH]; intros Hk Hi; [done|]. simpl. rewrite IH by lia.
  rewrite lookup_insert_ne; [done|]. intros E. apply (f_equal length) in E. rewrite length_take in E. lia.
Qed.

Lemma inherited_beside i k f : ~ sp n k -> (i <= length k)%nat -> inherited i k m1 f = inherited i k m f.
Proof.
  intros Hs. induction i as [|i IH]; intros Hi; [done|]. simpl. rewrite IH by lia.
  rewrite lookup_insert_ne; [done|]. intros ->. apply Hs, sp_take. exists i. split; [lia|done].
Qed.

Lemma inherited_below k f i : sp n k -> (S (length n) + i <= length k)%nat -> let j := (S (length n) + i)%nat in
  (inherited j k m1 f = inherited j k m f /\
   exists p e, m !! p = Some e /\ sp n p /\ p `prefix_of` k /\ passes f e = false) \/
  ((forall p e, m !! p = Some e -> sp n p -> p `prefix_of` k -> (length p < j)%nat -> passes f e = true) /\
   inherited j k m f = inherited (length n) n m f /\ inherited j k m1 f = passed_down f).
Proof.
  intros Hs. assert (take (length n) k = n) as Htake by (destruct Hs as [[x ->] _]; by rewrite take_app_length).
  induction i as [|i IH]; intros Hi.
  - right. rewrite Nat.add_0_r in *. split_and!.
    + intros p e Hp (q & Hq & E)%sp_take _ Hlen. apply (f_equal length) in E. rewrite length_take in E. lia.
    + simpl. rewrite Htake, Hn. by rewrite <-(inherited_take (length n) (length n) k), Htake.
    + simpl. rewrite Htake, lookup_insert_eq, inherited_above by lia. unfold passed_down.
      rewrite <-(inherited_take (length n) (length n) k), Htake by done. done.
  - rewrite Nat.add_succ_r in *. specialize (IH ltac:(lia)). set (j := (S (length n) + i)%nat) in *. simpl.
    rewrite lookup_insert_ne by (intros E; apply (f_equal length) in E; rewrite length_take in E; lia).
    destruct (m !! take j k) as [e|] eqn:E.
    + destruct (passes f e) eqn:Ep.
      * unfold passes in Ep. apply andb_prop in Ep as [Ec Ei]. apply negb_true_iff in Ec, Ei.
        apply ci_None in Ei as Ei'. rewrite Ei', Ec. destruct IH as [[IH Hb]|(IH1 & IH2 & IH3)]; [by left|]. right. split_and!; [|done|done].
        intros p e' He' Hp Hpk Hlen. destruct (decide (length p = j)) as [Hj|Hj]; [|apply (IH1 p); [done..|lia]].
        assert (p = take j k) as -> by (destruct Hpk as [x ->]; by rewrite <-Hj, take_app_length).
        unfold passes. assert (e' = e) as -> by congruence. by rewrite Ec, Ei.
      * left. split.
        2:{ exists (take j k), e. split_and!; [done| |by exists (drop j k); rewrite take_drop|done].
            apply sp_take. exists (length n). rewrite length_take, take_take, (Nat.min_l (length n)), Htake by lia. split; [lia|done]. }
        unfold passes in Ep. destruct (hasCapture e) eqn:Ec; [by destruct (getRouteWithLowestCostAndChildInheritByFaceId f e)|].
        simpl in Ep. apply negb_false_iff in Ep.
        destruct (getRouteWithLowestCostAndChildInheritByFaceId f e) eqn:Eg; [done|]. apply ci_None in Eg. congruence.
    + destruct IH as [[IH Hb]|(IH1 & IH2 & IH3)]; [by left|]. right. split_and!; [|done|done].
      intros p e' He' Hp Hpk Hlen. apply (IH1 p); [done..|]. destruct (decide (length p = j)) as [Hj|Hj]; [|lia].
      destruct Hpk as [x ->]. rewrite <-Hj, take_app_length in E. congruence.
Qed.

Definition opened f k : Prop :=
  is_Some (m !! k) /\ sp n k /\ forall p e, m !! p = Some e -> sp n p -> p `prefix_of` k -> passes f e = true.

Lemma opened_inherits k e f : opened f k -> m !! k = Some e ->
  inherits m k f = (if hasFaceId f e then None else inherited (length n) n m f) /\
  inherits m1 k f = (if hasFaceId f e then None else passed_down f).
Proof.
  intros (_ & Hs & Hopen) He. assert (k <> n) as Hkn by congruence.
  pose proof (Hopen k e He Hs ltac:(done)) as Hp. unfold passes in Hp. apply andb_prop in Hp as [Hc _]. apply negb_true_iff in Hc.
  unfold inherits. rewrite lookup_insert_ne by done. rewrite He. simpl. rewrite Hc, orb_false_r.
  destruct (hasFaceId f e); [done|]. apply sp_take in Hs as Hs'. destruct Hs' as (i & Hi & Ei).
  assert (length n = i) as Hlen by (rewrite Ei, length_take; lia).
  destruct (inherited_below k f (length k - S (length n)) Hs) as [[_ (p & e' & He' & Hs' & Hpk & Hf)]|(_ & H1' & H2')]; [lia| |].
  - rewrite (Hopen p e' He' Hs' Hpk) in Hf. done.
  - by replace (length k) with (S (length n) + (length k - S (length n)))%nat by lia.
Qed.

Lemma closed_inherits k f : k <> n -> (opened f k -> passed_down f = inherited (length n) n m f) -> inherits m1 k f = inherits m k f.
Proof.
  intros Hkn Ho. unfold inherits. rewrite lookup_insert_ne by done. destruct (m !! k) as [e|] eqn:He; [|done]. simpl.
  destruct (hasFaceId f e) eqn:Hf; [done|]. destruct (hasCapture e) eqn:Hc; [done|]. simpl.
  destruct (decide (sp n k)) as [Hs|Hs]; [|by apply inherited_beside].
  apply sp_take in Hs as Hs'. destruct Hs' as (i & Hi & Ei). assert (length n = i) as Hlen by (rewrite Ei, length_take; lia).
  destruct (inherited_below k f (length k - S (length n)) Hs) as [[He' _]|(Hp & H1' & H2')]; [lia| |].
  - by replace (length k) with (S (length n) + (length k - S (length n)))%nat by lia.
  - replace (S (length n) + (length k - S (length n)))%nat with (length k) in * by lia. rewrite H1', H2'. apply Ho.
    split_and!; [by eexists|done|]. intros p e' He' Hnp Hpk. destruct (decide (p = k)) as [->|Hpk'].
    + assert (e' = e) as -> by congruence. unfold passes. rewrite Hc. simpl. apply ci_face in Hf. by rewrite Hf.
    + apply (Hp p e' He' Hnp Hpk). assert (sp p k) as (q & Hq & ->)%sp_take by done. rewrite length_take. lia.
Qed.

Definition expected (m' : gmap Name RibEntry) k f : option Z * bool := (nexthop m' k f, bool_decide (is_Some (inherits m' k f))).

Lemma expected_eq k f : k <> n -> inherits m1 k f = inherits m k f -> expected m1 k f = expected m k f.
Proof.
  intros Hkn Hi. unfold expected, nexthop. rewrite Hi, lookup_insert_ne by done. done.
Qed.

(** What the routes to add and to remove have to be for the entries below. *)
Definition right_routes A R : Prop := forall f,
  match find_if (onFace f) A with
  | Some r => passed_down f = Some r
  | None => match find_if (onFace f) R with
            | Some _ => passed_down f = None
            | None => passed_down f = inherited (length n) n m f
            end
  end.

Lemma tgt_expected A R k f : inherited_follows m -> right_routes A R -> opened f k ->
  tgt m A R k f (expected m k f) = expected m1 k f.
Proof.
  intros Hinh Hr Ho. pose proof Ho as ([e He] & _). destruct (opened_inherits k e f Ho He) as [H1' H2'].
  assert (k <> n) as Hkn by congruence. specialize (Hr f). specialize (Hinh k f). unfold hasInherited in Hinh. rewrite He in Hinh.
  unfold tgt, expected, nexthop. rewrite lookup_insert_ne by done. rewrite He, Hinh. simpl. rewrite H1', H2'.
  destruct (hasFaceId f e) eqn:Hf; simpl.
  - by repeat case_match.
  - rewrite (proj2 (lowest_face f e) Hf). destruct (find_if (onFace f) A) as [x|]; [by rewrite Hr|].
    destruct (find_if (onFace f) R); rewrite Hr; [|done]. simpl. destruct (inherited (length n) n m f) as [y|]; done.
Qed.

(** *** The new prefix itself, then the entries below it *)

Context (fib : FibMap) (Hlinks : links_ok m) (Htree : tree m) (Horder : inherit_order m)
  (Hfib : fib_follows m fib) (Hinh : inherited_follows m).
Notation D := (fun k => is_Some (m !! k) \/ k = n).

Lemma children_view A R st :
  face_sorted A -> face_sorted R -> right_routes A R -> st_ok D st ->
  (forall k f, k <> n -> view m fib st k f = expected m k f) ->
  exists st', modifyChildrensInheritedRoutes m (future_children m n) A R st = Some st' /\ st_ok D st' /\
    forall k f, view m fib st' k f = if decide (k = n) then view m fib st n f else expected m1 k f.
Proof.
  intros HA HR Hright Hst Hv.
  edestruct (spread_fold m fib D (fun c st => child ← m !! c; traverseSubTree (S (maxLength m)) m child A R st)
    A R (future_children m n)) as (st' & E & Hst' & Hsp); [|exact Hst|].
  { intros c st0 Hc Hst0. apply future_children_spec in Hc as ([ec Hec] & _ & _); [|done]. rewrite Hec. cbn [mbind option_bind].
    apply traverse_ok; try done; [auto|lia|by apply face_sorted_uniq..]. }
  exists st'. split_and!; [exact E|done|]. intros k f. destruct (Hsp k f) as [[Hr ->]|[Hr ->]]; rewrite reach_below in Hr by done.
  - pose proof Hr as ([e He] & _). rewrite decide_False, Hv by congruence. by apply tgt_expected.
  - case_decide as Hk; [by rewrite Hk|]. rewrite Hv by done. symmetry. apply expected_eq; [done|].
    apply closed_inherits; [done|]. intros Ho. by destruct Hr.
Qed.

Lemma start_view route cancelled :
  let st := addFibUpdate (createAddUpdate n (r_faceId route) (r_cost route)) (mkFibUpdater (r_faceId route) [] [] [] cancelled) in
  st_ok D st /\ forall k f, view m fib st k f =
    if decide (k = n) then (if r_faceId route =? f then Some (r_cost route) else None, false) else expected m k f.
Proof.
  set (st0 := mkFibUpdater _ _ _ _ _).
  assert (st_ok D st0) as Hst0.
  { split; [|apply Forall_nil_2]. split_and!; simpl; [apply NoDup_nil_2|apply NoDup_nil_2|by intros u ?%not_elem_of_nil..]. }
  destruct (addFibUpdate_view m fib D (createAddUpdate n (r_faceId route) (r_cost route)) st0 Hst0) as [Hst Hv].
  split; [done|]. intros k f. simpl. rewrite Hv. unfold view. simpl. rewrite Hfib, Hinh. unfold fu_target, fu_result. simpl.
  destruct (decide (k = n)) as [->|Hk].
  - assert (nexthop m n f = None /\ inherits m n f = None) as [-> ->] by (unfold nexthop, inherits; by rewrite Hn).
    f_equal. destruct (Z.eqb_spec (r_faceId route) f) as [<-|]; [by rewrite decide_True|]. rewrite decide_False; [done|congruence].
  - rewrite decide_False by congruence. done.
Qed.

Lemma self_view route anc st : face_sorted anc -> st_ok D st ->
  let st' := addInheritedRoutes_name n anc route st in
  st_ok D st' /\ forall k f, view m fib st' k f =
    match find_if (onFace f) anc with
    | Some r => if decide (k = n /\ negb (r_faceId route =? f) = true) then (Some (r_cost r), true) else view m fib st k f
    | None => view m fib st k f
    end.
Proof.
  intros Hanc Hst.
  edestruct (fold_routes m fib D (fun st r => if negb (r_faceId r =? r_faceId route)
      then addFibUpdate (createAddUpdate n (r_faceId r) (r_cost r)) (fu_addInheritedRoute n r st) else st)
    (fun r => negb (r_faceId r =? r_faceId route)) n (fun r => (Some (r_cost r), true)))
    with (A := anc) (st := st) as [Hst' Hv]; [|by apply face_sorted_uniq|done|].
  - intros st0 r0 Hst0. destruct (negb _).
    + destruct (both_view m fib D (createAddUpdate n (r_faceId r0) (r_cost r0)) (mkRibUpdate REGISTER n r0) st0)
        as [Hs Hv]; [done|by right|done..|]. split; [done|]. intros k f. rewrite Hv. simpl. repeat case_decide; try done; tauto.
    + split; [done|]. intros k f. rewrite decide_False; [done|]. by intros (_ & _ & ?).
  - split; [done|]. intros k f. unfold addInheritedRoutes_name. rewrite Hv. destruct (find_if (onFace f) anc) as [x|] eqn:Ex; [|done].
    apply find_if_Some in Ex as [_ Ex]. apply Z.eqb_eq in Ex. rewrite Ex, Z.eqb_sym. done.
Qed.
End NewEntry.

Lemma rs_erase_ok r s : face_sorted s -> face_sorted (rs_erase r s) /\
  forall f, find_if (onFace f) (rs_erase r s) = if r_faceId r =? f then None else find_if (onFace f) s.
Proof.
  unfold rs_erase. induction 1 as [|x s Hs [IH1 IH2] Hx]; simpl.
  { split; [constructor|]. intros f. by destruct (_ =? _). }
  destruct (onFace (r_faceId r) x) eqn:E; unfold onFace in E.
  - split; [done|]. intros f. destruct (Z.eqb_spec (r_faceId r) f) as [<-|Hf].
    + apply find_if_None. intros y Hy. rewrite Forall_forall in Hx. apply Hx in Hy. unfold onFace. lia.
    + assert (onFace f x = false) as -> by (unfold onFace; lia). done.
  - split.
    + constructor; [done|]. rewrite Forall_forall in *. intros y Hy. apply Hx.
      eapply elem_of_sublist; [done|apply erase_first_sublist].
    + intros f. simpl. rewrite IH2. destruct (onFace f x) eqn:Ef; [|done]. unfold onFace in Ef.
      destruct (Z.eqb_spec (r_faceId r) f); [lia|done].
Qed.

(** The entry of a new prefix has the one route. *)
Notation entryOf n route := (insertRoute route (newRibEntry n)).1.

Lemma newEntry_ok n route f :
  hasCapture (entryOf n route) = isRibCapture route /\ hasFaceId f (entryOf n route) = (r_faceId route =? f) /\
  getRouteWithLowestCostByFaceId f (entryOf n route) = (if r_faceId route =? f then Some route else None) /\
  getRouteWithLowestCostAndChildInheritByFaceId f (entryOf n route) =
    (if (r_faceId route =? f) && isChildInherit route then Some route else None).
Proof.
  unfold insertRoute, findRoute. simpl. split_and!.
  - unfold hasCapture. simpl. by destruct (isRibCapture route).
  - unfold hasFaceId. simpl. by rewrite orb_false_r.
  - unfold getRouteWithLowestCostByFaceId. simpl. done.
  - unfold getRouteWithLowestCostAndChildInheritByFaceId. simpl. unfold lowest_step. by rewrite ci_flag.
Qed.

Lemma expected_self m n route f : m !! n = None -> expected (<[n := entryOf n route]> m) n f =
  if r_faceId route =? f then (Some (r_cost route), false)
  else if isRibCapture route then (None, false)
  else (r_cost <$> inherited (length n) n m f, bool_decide (is_Some (inherited (length n) n m f))).
Proof.
  intros Hn. destruct (newEntry_ok n route f) as (H1' & H2' & H3' & _). unfold expected, nexthop, inherits. rewrite lookup_insert_eq.
  cbn [mbind option_bind]. rewrite H1', H2', H3'. destruct (_ =? _); simpl; [done|]. destruct (isRibCapture route); [done|].
  by rewrite inherited_above.
Qed.

Section NewPrefix.
Context (m : gmap Name RibEntry) (fib : FibMap) (n : Name) (route : Route) (cancelled : list Z).
Context (Hn : m !! n = None) (Hlinks : links_ok m) (Htree : tree m) (Horder : inherit_order m)
  (Hfib : fib_follows m fib) (Hinh : inherited_follows m).
Notation m1 := (<[n := entryOf n route]> m).
Notation D := (fun k => is_Some (m !! k) \/ k = n).

Lemma new_entry_updates :
  exists st, createFibUpdatesForNewRibEntry m n route (future_children m n) (mkFibUpdater (r_faceId route) [] [] [] cancelled) = Some st /\
    st_ok D st /\ forall k f, view m fib st k f = expected m1 k f.
Proof.
  destruct (start_view m n Hn fib Hfib Hinh route cancelled) as [Hst0 Hv0].
  unfold createFibUpdatesForNewRibEntry. set (st0 := addFibUpdate _ _) in *.
  destruct (ancestors_ok m (S (length n)) Htree Horder n []) as (anc & Hanc & Hsort & Hfind); [lia|constructor|].
  unfold getAncestorRoutes_name. rewrite Hanc. simpl in Hfind. cbn [mbind option_bind].
  destruct (self_view m n fib route anc st0 Hsort Hst0) as [Hst1 Hv1]. set (st1 := addInheritedRoutes_name _ _ _ _) in *.
  assert (forall f, passed_down m n (entryOf n route) f =
    if (r_faceId route =? f) && isChildInherit route then Some route else if isRibCapture route then None else inherited (length n) n m f) as Hdown.
  { intros f. destruct (newEntry_ok n route f) as (H1' & _ & _ & H4'). unfold passed_down. rewrite H4', H1'. by destruct (_ && _). }
  assert (forall k f, k <> n -> view m fib st0 k f = expected m k f) as Hoff0 by (intros k f Hk; by rewrite Hv0, decide_False).
  assert (forall k f, k <> n -> view m fib st1 k f = expected m k f) as Hoff1.
  { intros k f Hk. rewrite Hv1. destruct (find_if (onFace f) anc); [|by apply Hoff0].
    rewrite decide_False; [by apply Hoff0|by intros [? _]]. }
  assert (isRibCapture route = true -> forall f, view m fib st0 n f = expected m1 n f) as Hself0.
  { intros Hc f. rewrite Hv0, decide_True, expected_self, Hc by done. by destruct (_ =? _). }
  assert (isRibCapture route = false -> forall f, view m fib st1 n f = expected m1 n f) as Hself1.
  { intros Hc f. rewrite Hv1, Hfind, Hv0, decide_True, expected_self, Hc by done.
    destruct (inherited (length n) n m f); destruct (_ =? _); simpl; repeat case_decide; naive_solver. }
  assert (face_sorted []) as Hnil by constructor.
  assert (face_sorted [route]) as Hone by repeat constructor.
  assert (forall A R st, face_sorted A -> face_sorted R -> right_routes m n (entryOf n route) A R -> st_ok D st ->
    (forall k f, k <> n -> view m fib st k f = expected m k f) -> (forall f, view m fib st n f = expected m1 n f) ->
    exists st', modifyChildrensInheritedRoutes m (future_children m n) A R st = Some st' /\ st_ok D st' /\
      forall k f, view m fib st' k f = expected m1 k f) as Hchildren.
  { intros A R st HA HR Hr Hst Hoff Hself.
    destruct (children_view m n (entryOf n route) Hn fib Hlinks Htree Hinh A R st) as (st' & E & Hst' & Hv); [done..|].
    exists st'. split_and!; [done|done|]. intros k f. rewrite Hv. case_decide as Hk; [|done]. by rewrite Hk. }
  destruct (isChildInherit route) eqn:Eci, (isRibCapture route) eqn:Ecap; simpl.
  - destruct (rs_insert_ok route [] Hnil) as [_ Hf1]. apply Hchildren; [done..| |done|done|auto].
    intros f. rewrite Hdown. pose proof (Hf1 f) as Hf. simpl in Hf |- *. rewrite Hf.
    destruct (_ =? _); simpl; [done|]. rewrite Hfind. by destruct (inherited _ _ _ _).
  - assert (match rs_find route anc with Some _ => rs_erase route anc | None => anc end = rs_erase route anc) as ->.
    { unfold rs_find, rs_erase. destruct (find_if _ anc) eqn:E; [done|]. by rewrite erase_first_id. }
    destruct (rs_erase_ok route anc Hsort) as [Hs2 Hf2]. destruct (rs_insert_ok route _ Hs2) as [Hs3 Hf3].
    apply Hchildren; [done..| |done|done|auto]. intros f. rewrite Hdown, Hf3, Hf2, Hfind. simpl.
    destruct (_ =? _); simpl; [done|]. by destruct (inherited _ _ _ _).
  - apply Hchildren; [done..| |done|done|auto]. intros f. rewrite Hdown, andb_false_r, Hfind. simpl. by destruct (inherited _ _ _ _).
  - exists st1. split_and!; [done|done|]. intros k f. destruct (decide (k = n)) as [->|Hk]; [by apply Hself1|].
    rewrite Hoff1 by done. symmetry. apply expected_eq; [done|]. apply closed_inherits; [done|done|]. intros _. by rewrite Hdown, andb_false_r.
Qed.
End NewPrefix.

(** ** A registration from a consistent state *)

Definition consistent (rib : Rib) fib : Prop :=
  rib_ok rib /\ inherit_order (m_rib rib) /\ fib_follows (m_rib rib) fib /\ inherited_follows (m_rib rib).

Lemma core_of_body m m' : body <$> m' = body <$> m -> core <$> m' = core <$> m.
Proof.
  intros Hb. apply map_eq. intros k. apply (f_equal (lookup k)) in Hb. rewrite !lookup_fmap in *.
  destruct (m !! k), (m' !! k); simpl in *; try done. unfold body in Hb. by injection Hb as _ Hr _ Hc; unfold core; rewrite Hr, Hc.
Qed.

Lemma core_of_without m m' : without_inherited <$> m' = without_inherited <$> m -> core <$> m' = core <$> m.
Proof.
  intros Hb. apply map_eq. intros k. apply (f_equal (lookup k)) in Hb. rewrite !lookup_fmap in *.
  destruct (m !! k), (m' !! k); simpl in *; try done. injection Hb as _ _ _ Hr Hc. unfold core. by rewrite Hr, Hc.
Qed.

Lemma routes_of_core m m' : core <$> m' = core <$> m -> re_routes <$> m' = re_routes <$> m.
Proof.
  intros Hc. apply (f_equal (fmap fst)) in Hc. rewrite <-!map_fmap_compose in Hc. exact Hc.
Qed.

Lemma order_of_core m m' : core <$> m' = core <$> m -> inherit_order m -> inherit_order m'.
Proof.
  intros Hc Ho k e' f He'. apply (f_equal (lookup k)) in Hc. rewrite !lookup_fmap, He' in Hc.
  destruct (m !! k) as [e|] eqn:He; [|done]. injection Hc as Hr _.
  unfold getRouteWithLowestCostAndChildInheritByFaceId. rewrite Hr. by apply (Ho k e f).
Qed.

Lemma new_prefix_ok (nth : list Route -> option Route) (rib : Rib) fib n route cancelled :
  consistent rib fib -> m_rib rib !! n = None ->
  exists st rib', computeUpdates nth (m_rib rib) [mkRibUpdate REGISTER n route] (mkFibUpdater (r_faceId route) [] [] [] cancelled) = Some st /\
    lists_ok st /\
    applyUpdate (mkRibUpdate REGISTER n route) (m_inheritedRoutes st) rib = Some rib' /\
    re_routes <$> m_rib rib' = <[n := [route]]> (re_routes <$> m_rib rib) /\
    consistent rib' (foldl fib_apply fib (all_updates st)).
Proof.
  intros (Hok & Ho & Hf & Hi) Hn. pose proof Hok as (Hl & Ht & _).
  destruct (new_entry_updates (m_rib rib) fib n route cancelled) as (st & E & [Hlists Hinh] & Hv); [done..|].
  destruct (insert_new n route rib Hok Hn) as (rib1 & E1 & Hok1 & Hb1).
  pose proof Hb1 as Hb1'. rewrite <-fmap_insert in Hb1'. apply core_of_body in Hb1' as Hc1.
  destruct (modifyInheritedRoutes_ok (m_inheritedRoutes st) rib1 Hok1) as (m' & E2 & Hok2 & Hw & Hhas).
  { eapply Forall_impl; [done|]. intros u [Hu Ha]. split; [|done]. apply (body_dom _ _ (ru_name u) Hb1'), lookup_insert_is_Some'.
    destruct Hu; [by right|by left]. }
  assert (core <$> m' = core <$> <[n := (insertRoute route (newRibEntry n)).1]> (m_rib rib)) as Hc2
    by (rewrite <-Hc1; by apply core_of_without).
  exists st, (set_m_rib m' rib1). split_and!.
  - unfold computeUpdates. simpl. unfold computeUpdate, computeUpdatesForRegistration. simpl. rewrite Hn. exact E.
  - done.
  - unfold applyUpdate. simpl. rewrite E1. simpl. rewrite E2. done.
  - simpl. by rewrite (routes_of_core _ _ Hc2), fmap_insert.
  - split_and!; [done| | |].
    + eapply order_of_core; [exact Hc2|]. intros k e f [[<- <-]|[_ Hk]]%lookup_insert_Some; [|by apply (Ho k)].
      destruct (newEntry_ok n route f) as (_ & _ & _ & ->). simpl. unfold onFace. by destruct (_ && _).
    + intros k f. simpl. destruct (core_inherited _ _ Hc2 k f) as (_ & _ & ->). rewrite fib_after by done.
      exact (f_equal fst (Hv k f)).
    + intros k f. simpl. destruct (core_inherited _ _ Hc2 k f) as (_ & -> & _). rewrite Hhas.
      etrans; [|exact (f_equal snd (Hv k f))]. unfold view. cbn [snd]. f_equal.
      unfold hasInherited. apply (f_equal (lookup k)) in Hb1. rewrite lookup_fmap, lookup_insert, lookup_fmap in Hb1.
      case_decide as Ek.
      * subst k. rewrite Hn. destruct (m_rib rib1 !! n) as [e1|]; [|done]. injection Hb1 as _ _ -> _. done.
      * destruct (m_rib rib1 !! k) as [e1|], (m_rib rib !! k) as [e0|]; try done. injection Hb1 as _ _ -> _. done.
Qed.

(** ** The queue, with a FIB that carries out the commands *)

Section Queue.
Context `{!ControllerErrors} (nth : list Route -> option Route).
Notation RibQueue := (RibQueue (C:=C) (Ann:=Ann)).
Notation Command := (Command (C:=C)).
Implicit Types (q : RibQueue) (u : RibUpdate).

(** A command adds the next hop with the cost of the update, or removes it. *)
Definition fib_exec fib (c : Command) : FibMap :=
  if cmd_add c then <[fu_target (cmd_update c) := fu_cost (cmd_update c)]> fib else delete (fu_target (cmd_update c)) fib.

Lemma exec_updates l : forall fib, foldl fib_exec fib (sendUpdates l) = foldl fib_apply fib l.
Proof.
  induction l as [|x l IH]; intros fib; [done|]. simpl. rewrite IH. f_equal. unfold fib_exec, fib_apply, fu_result.
  simpl. by destruct (fu_action x).
Qed.

(** The commands from the [i]-th on are carried out in order, each with success. *)
Fixpoint serve (fuel : nat) (i : nat) q fib : option (RibQueue * FibMap) :=
  match fuel with
  | O => None
  | S fuel =>
      match q_commands q !! i with
      | None => Some (q, fib)
      | Some c => q ← onResponse nth c None q; serve fuel (S i) q (fib_exec fib c)
      end
  end.

Lemma without_head x (l : list FibUpdate) : NoDup (x :: l) -> without x (x :: l) = l.
Proof.
  intros [Hx _]%NoDup_cons. unfold without. simpl. rewrite bool_decide_eq_true_2 by done.
  apply remove_if_none. intros y Hy. apply bool_decide_eq_false. by intros ->.
Qed.

Lemma drop_head {T} i (l : list T) x l' : drop i l = x :: l' -> l !! i = Some x /\ drop (S i) l = l'.
Proof.
  intros Hd. split.
  - rewrite <-(Nat.add_0_r i), <-lookup_drop, Hd. done.
  - rewrite <-(Nat.add_1_r i), <-drop_drop, Hd. simpl. by rewrite drop_0.
Qed.

Lemma drop_nil {T} i (l : list T) : drop i l = [] -> l !! i = None.
Proof. intros Hd. rewrite <-(Nat.add_0_r i), <-lookup_drop, Hd. done. Qed.

Lemma serve_nonbatch (l : list FibUpdate) : forall fuel i (rib rib' : Rib) st cmds comp u fib,
  m_updatesForNonBatchFaceId st = l -> l <> [] -> NoDup l -> (forall x, x ∈ l -> fu_faceId x <> m_batchFaceId st) ->
  drop i cmds = sendUpdates l -> applyUpdate u (m_inheritedRoutes st) rib = Some rib' -> (length l < fuel)%nat ->
  serve fuel i (mkRibQueue rib st [] (Some u) cmds comp) fib =
    Some (mkRibQueue rib' (set_nonbatch_updates [] st) [] None cmds (comp ++ [(u, true)]), foldl fib_apply fib l).
Proof.
  induction l as [|x l IH]; intros fuel i rib rib' st cmds comp u fib Hl Hne Hnd Hface Hcmds Happ Hfuel; [done|].
  destruct fuel as [|fuel]; [simpl in Hfuel; lia|]. simpl in Hcmds. apply drop_head in Hcmds as [Hi Hd]. simpl. rewrite Hi. simpl.
  unfold onResponse, onUpdateSuccess. cbn [cmd_update q_updater].
  rewrite (proj2 (Z.eqb_neq _ _)) by (apply Hface; by left). unfold finishNonBatch. rewrite Hl, without_head by done.
  replace (fib_exec fib _) with (fib_apply fib x).
  2:{ unfold fib_exec, fib_apply, fu_result. simpl. by destruct (fu_action x). }
  destruct l as [|y l]; simpl.
  - rewrite Happ. simpl. rewrite app_nil_r. destruct fuel; [simpl in Hfuel; lia|]. simpl. rewrite drop_nil by done. done.
  - rewrite app_nil_r. rewrite (IH fuel (S i) rib rib' (set_nonbatch_updates (y :: l) st) cmds comp u); try done.
    + by apply NoDup_cons in Hnd as [_ ?].
    + intros z Hz. apply Hface. by right.
    + simpl in Hfuel |- *. lia.
Qed.

Lemma serve_batch (l : list FibUpdate) : forall fuel i (rib rib' : Rib) st cmds comp u fib,
  m_updatesForBatchFaceId st = l -> l <> [] -> NoDup l -> (forall x, x ∈ l -> fu_faceId x = m_batchFaceId st) ->
  NoDup (m_updatesForNonBatchFaceId st) -> (forall x, x ∈ m_updatesForNonBatchFaceId st -> fu_faceId x <> m_batchFaceId st) ->
  drop i cmds = sendUpdates l -> applyUpdate u (m_inheritedRoutes st) rib = Some rib' ->
  (length l + length (m_updatesForNonBatchFaceId st) < fuel)%nat ->
  serve fuel i (mkRibQueue rib st [] (Some u) cmds comp) fib =
    Some (mkRibQueue rib' (set_batch_updates [] (set_nonbatch_updates [] st)) [] None
            (cmds ++ sendUpdates (m_updatesForNonBatchFaceId st)) (comp ++ [(u, true)]),
          foldl fib_apply fib (l ++ m_updatesForNonBatchFaceId st)).
Proof.
  induction l as [|x l IH]; intros fuel i rib rib' st cmds comp u fib Hl Hne Hnd Hface Hnd2 Hface2 Hcmds Happ Hfuel; [done|].
  destruct fuel as [|fuel]; [simpl in Hfuel; lia|]. simpl in Hcmds. apply drop_head in Hcmds as [Hi Hd]. simpl. rewrite Hi. simpl.
  unfold onResponse, onUpdateSuccess. cbn [cmd_update q_updater].
  rewrite (proj2 (Z.eqb_eq _ _)) by (apply Hface; by left). rewrite Hl, without_head by done.
  replace (fib_exec fib _) with (fib_apply fib x).
  2:{ unfold fib_exec, fib_apply, fu_result. simpl. by destruct (fu_action x). }
  destruct l as [|y l].
  - cbn [set_batch_updates m_updatesForBatchFaceId]. unfold sendUpdatesForNonBatchFaceId.
    cbn [set_batch_updates m_updatesForNonBatchFaceId]. destruct (m_updatesForNonBatchFaceId st) as [|z l2] eqn:E2.
    + simpl. rewrite Happ. simpl. destruct fuel; [simpl in Hfuel; lia|]. simpl. rewrite app_nil_r.
      rewrite drop_nil by done. destruct st; simpl in *; by subst.
    + cbn [mbind option_bind complete advance sendBatchFromQueue m_updateBatches q_current q_rib q_commands q_completed length].
      assert (length cmds = S i) as Hlen.
      { apply (f_equal length) in Hd. rewrite length_drop in Hd. apply lookup_lt_Some in Hi. simpl in Hd. lia. }
      erewrite serve_nonbatch with (l := z :: l2); try done; [|].
      * rewrite <-Hlen, drop_app_length. done.
      * simpl in Hfuel |- *. lia.
  - cbn [set_batch_updates m_updatesForBatchFaceId].
    cbn [mbind option_bind complete advance sendBatchFromQueue m_updateBatches q_current q_rib q_commands q_completed length].
    rewrite app_nil_r. rewrite (IH fuel (S i) rib rib' (set_batch_updates (y :: l) st) cmds comp u); try done.
    + by apply NoDup_cons in Hnd as [_ ?].
    + intros z Hz. apply Hface. by right.
    + simpl in Hfuel |- *. lia.
Qed.

(** *** What every computation of updates preserves *)

Section Preserved.
Context (P : FibUpdater -> Prop).
Hypothesis P_add : forall (u : FibUpdate) st, P st -> P (addFibUpdate u st).
Hypothesis P_push : forall u st, P st -> P (push_inherited u st).

Lemma P_foldl {T} (step : FibUpdater -> T -> FibUpdater) l : (forall st x, P st -> P (step st x)) -> forall st, P st -> P (foldl step st l).
Proof. intros Hs. induction l as [|x l IH]; intros st Hst; [done|]. apply IH, Hs, Hst. Qed.

Definition preserves (T : FibUpdater -> option FibUpdater) : Prop := forall st st', P st -> T st = Some st' -> P st'.

Lemma P_ofoldl {T} (step : T -> FibUpdater -> option FibUpdater) l : (forall x, preserves (step x)) ->
  preserves (fun st => foldl (fun o x => st ← o; step x st) (Some st) l).
Proof.
  intros Hs. induction l as [|x l IH]; intros st st' Hst E; simpl in E; [by simplify_eq|].
  destruct (step x st) as [st1|] eqn:E1; simpl in E.
  - eapply IH; [|exact E]. by eapply Hs.
  - exfalso. clear -E. induction l as [|y l IHl]; simpl in E; [done|]. by apply IHl.
Qed.

Ltac preserve := repeat first [done | apply P_add | apply P_push | apply P_foldl; [intros ? ? ?|] | case_match].

Lemma traverse_preserves fuel m e A R : preserves (traverseSubTree fuel m e A R).
Proof.
  revert e A R. induction fuel as [|fuel IH]; intros e A R st st' Hst E; [done|]. simpl in E.
  destruct (hasCapture e); [by simplify_eq|].
  eapply (P_ofoldl (fun c st => child ← m !! c; traverseSubTree fuel m child (passed_on e A) (passed_on e R) st)); [| |exact E].
  - intros c st0 st1 Hst0 E1. destruct (m !! c) as [ec|]; [|done]. by eapply IH.
  - unfold add_here, remove_here, fu_addInheritedRoute, fu_removeInheritedRoute. preserve.
Qed.

Lemma children_preserve m cs A R : preserves (modifyChildrensInheritedRoutes m cs A R).
Proof.
  apply (P_ofoldl (fun c st => child ← m !! c; traverseSubTree (S (maxLength m)) m child A R st)).
  intros c st st' Hst E. destruct (m !! c) as [ec|]; [|done]. by eapply traverse_preserves.
Qed.

Lemma inherited_preserve name e A (r : Route) st : P st ->
  P (addInheritedRoutes_name name A r st) /\ P (addInheritedRoutes e A st) /\ P (removeInheritedRoutes e A st).
Proof.
  intros Hst. unfold addInheritedRoutes_name, addInheritedRoutes, removeInheritedRoutes, fu_addInheritedRoute, fu_removeInheritedRoute.
  split_and!; preserve.
Qed.

(** Follows a computation backwards. *)
Ltac follow E :=
  repeat match type of E with
  | Some _ = Some _ => injection E as <-
  | modifyChildrensInheritedRoutes _ _ _ _ _ = Some _ => eapply children_preserve; [|exact E]; clear E
  | (?o ≫= _) = Some _ => let F := fresh "F" in destruct o as [?|] eqn:F; [|discriminate E]; simpl in E
  | (if ?b then _ else _) = Some _ => destruct b
  end.

Lemma new_preserves m n route cs : preserves (createFibUpdatesForNewRibEntry m n route cs).
Proof.
  intros st st' Hst E. unfold createFibUpdatesForNewRibEntry in E. apply (P_add (createAddUpdate n (r_faceId route) (r_cost route))) in Hst.
  follow E; try done; by apply (inherited_preserve n (newRibEntry n)).
Qed.

Lemma newRoute_preserves m e route b : preserves (createFibUpdatesForNewRoute m e route b).
Proof.
  intros st st' Hst E. unfold createFibUpdatesForNewRoute in E.
  destruct b; [destruct (getAncestorRoutes e m) as [anc|]; [|done]|]; simpl in E; follow E; preserve;
    (eapply children_preserve; [|exact F]); try done; by apply (inherited_preserve [] e anc route).
Qed.

Lemma updatedRoute_preserves m e route r0 : preserves (createFibUpdatesForUpdatedRoute m e route r0).
Proof.
  intros st st' Hst E. unfold createFibUpdatesForUpdatedRoute in E. destruct (_ && _) in E; [by simplify_eq|].
  set (o := if negb _ then _ else _) in E. destruct o as [st1|] eqn:E1; [|done]. unfold o in E1. clear o. simpl in E.
  assert (P st1) as Hst1. { unfold updateCost in E1. follow E1; preserve. }
  destruct (_ && _) in E; [by follow E|].
  destruct (childInheritChange m e route r0 _ st1) as [st2|] eqn:E2; [|done]. simpl in E.
  assert (P st2) as Hst2. { unfold childInheritChange in E2. follow E2; done. }
  unfold captureChange in E. follow E; try done; by apply (inherited_preserve [] e _ route).
Qed.

Lemma erasedRoute_preserves m e route b : preserves (createFibUpdatesForErasedRoute m e route b).
Proof.
  intros st st' Hst E. unfold createFibUpdatesForErasedRoute in E.
  apply (P_add (createRemoveUpdate (re_name e) (r_faceId route))) in Hst. set (st0 := addFibUpdate _ _) in *.
  set (un := if b && _ then _ else _) in E. set (o := if isChildInherit _ && _ then _ else _) in E.
  destruct o as [st1|] eqn:E1; [|done]. unfold o in E1. clear o. simpl in E.
  assert (forall stA A, un = Some (stA, A) -> P stA) as Hun.
  { unfold un. intros stA A Eu. destruct (b && _) in Eu; [|by injection Eu as <- <-].
    destruct (getAncestorRoutes e m); simpl in Eu; [|done]. injection Eu as <- <-. by apply (inherited_preserve [] e _ route). }
  assert (P st1) as Hst1.
  { destruct (_ && _) in E1; [|destruct (isChildInherit route); [by follow E1|destruct (isRibCapture route); [|by simplify_eq]]].
    all: destruct un as [[stA A]|]; [|done]; simpl in E1; follow E1; by eapply Hun. }
  follow E; unfold fu_addInheritedRoute; preserve.
Qed.

Hypothesis P_cancel : forall st l, P st -> P (mkFibUpdater (m_batchFaceId st) (m_updatesForBatchFaceId st)
  (m_updatesForNonBatchFaceId st) (m_inheritedRoutes st) l).
Hypothesis P_clear : forall st, P st -> P (set_batch_updates [] st).

Lemma unregistration_preserves m u : preserves (computeUpdatesForUnregistration nth m u).
Proof.
  intros st st' Hst E. unfold computeUpdatesForUnregistration in E. destruct (m !! _) as [e|]; [|by simplify_eq].
  destruct (findRoute (ru_route u) e) as [r0|]; [|by simplify_eq]. destruct (eraseRoute (ru_route u) e) as [temp l].
  apply (P_cancel _ (fu_cancelled st ++ l)) in Hst.
  destruct (createFibUpdatesForErasedRoute _ _ _ _ _) as [st1|] eqn:E1; [|done]. simpl in E.
  apply erasedRoute_preserves in E1; [|done].
  set (o := match getRouteWithSecondLowestCostByFaceId _ _ _ with Some _ => _ | None => _ end) in E.
  assert (forall st2, o = Some st2 -> P st2) as H2'.
  { intros st2. unfold o. destruct (getRouteWithSecondLowestCostByFaceId _ _ _); [|by intros [= <-]]. by apply newRoute_preserves. }
  destruct o as [st2|]; [|done].
  simpl in E. injection E as <-. specialize (H2' st2 eq_refl). unfold createFibUpdatesForErasedRibEntry. preserve.
Qed.

Lemma computeUpdates_preserves m batch : preserves (computeUpdates nth m batch).
Proof.
  apply P_ofoldl. intros u st st' Hst E. unfold computeUpdate in E. destruct (ru_action u).
  - unfold computeUpdatesForRegistration in E. destruct (m !! _) as [e|]; [|by eapply new_preserves].
    destruct (findRoute _ e); [by eapply updatedRoute_preserves|by eapply newRoute_preserves].
  - by eapply unregistration_preserves.
  - destruct (computeUpdatesForUnregistration nth m u st) as [st1|] eqn:E1; [|done]. injection E as <-.
    apply unregistration_preserves in E1; [|done]. by apply P_clear in E1.
Qed.
End Preserved.

Lemma computeUpdates_lists m batch f cancelled st :
  computeUpdates nth m batch (mkFibUpdater f [] [] [] cancelled) = Some st -> lists_ok st /\ m_batchFaceId st = f.
Proof.
  intros E. eapply (computeUpdates_preserves (fun st => lists_ok st /\ m_batchFaceId st = f)); [..|exact E].
  - intros u st0 [Hst0 Hf]. split; [by apply addFibUpdate_pending|]. rewrite <-Hf. unfold addFibUpdate. by destruct (_ =? _).
  - done.
  - done.
  - intros st0 [(A1 & A2 & A3 & A4) Hf]. split; [|done]. split_and!; simpl; [apply NoDup_nil_2|done| |done]. by intros u ?%not_elem_of_nil.
  - split; [|done]. split_and!; simpl; [apply NoDup_nil_2|apply NoDup_nil_2|by intros u ?%not_elem_of_nil..].
Qed.

(** *** Every computation of updates returns, but for one null pointer *)

Section Total.
Context (m : gmap Name RibEntry) (D : Name -> Prop).
Context (Hlinks : links_ok m) (Htree : tree m).

(** The inherited routes are of entries that are there when they are changed. *)
Definition inherited_ok st : Prop := Forall (ribUpdate_ok D) (m_inheritedRoutes st).

Definition returns (o : option FibUpdater) : Prop := exists st', o = Some st' /\ inherited_ok st'.

Lemma inherited_add (u : FibUpdate) st : inherited_ok st -> inherited_ok (addFibUpdate u st).
Proof. unfold inherited_ok, addFibUpdate. by destruct (_ =? _). Qed.

Lemma inherited_both (v : FibUpdate) (a : RibAction) n r st : D n -> a <> REMOVE_FACE -> inherited_ok st ->
  inherited_ok (addFibUpdate v (push_inherited (mkRibUpdate a n r) st)).
Proof. intros Hn Ha Hst. apply inherited_add. apply Forall_app. split; [done|]. by apply Forall_singleton. Qed.

Ltac inherit := repeat first [done | apply inherited_both; [done|done|] | apply inherited_add | apply (P_foldl inherited_ok); [intros ? ? ?|] | case_match].

(** An entry of the RIB, or a copy with other routes. *)
Definition entry_at n e : Prop :=
  re_name e = n /\ re_parent e = findParent n m /\ forall c, c ∈ re_children e -> par m c = Some n.

Lemma entry_at_found n e : m !! n = Some e -> entry_at n e.
Proof.
  intros He. destruct (proj1 Hlinks n e He) as (Hn & _ & Hc). split_and!; [done| |intros c; apply Hc].
  rewrite <-Htree by (by eexists). unfold par. by rewrite He.
Qed.

Lemma fold_returns (T : Name -> FibUpdater -> option FibUpdater) cs : (forall c st, c ∈ cs -> inherited_ok st -> returns (T c st)) ->
  forall st, inherited_ok st -> returns (foldl (fun o c => st ← o; T c st) (Some st) cs).
Proof.
  induction cs as [|c cs IH]; intros HT st Hst; simpl; [by exists st|].
  destruct (HT c st) as (st1 & -> & Hst1); [left|done|]. apply IH; [|done]. intros c' st' Hc'. apply HT. by right.
Qed.

(** Entries below [a], all to be there later. *)
Definition stays a : Prop := forall k, a `prefix_of` k -> is_Some (m !! k) -> D k.

Lemma stays_child n c : stays n \/ (forall k, sp n k -> is_Some (m !! k) -> D k) -> par m c = Some n -> stays c.
Proof.
  intros Hs Hc k Hk Hm. pose proof (par_sp _ _ _ Htree Hc) as Hsp. destruct Hs as [Hs|Hs]; apply Hs; [|done|by eapply sp_trans|done].
  etrans; [apply Hsp|done].
Qed.

Lemma traverse_returns fuel : forall a e A R st, m !! a = Some e -> (maxLength m < fuel + length a)%nat -> stays a -> inherited_ok st ->
  returns (traverseSubTree fuel m e A R st).
Proof.
  induction fuel as [|fuel IH]; intros a e A R st Ha Hlen Hs Hst.
  { pose proof (maxLength_ok m a (mk_is_Some _ _ Ha)). lia. }
  simpl. destruct (hasCapture e); [by exists st|]. destruct (entry_at_found a e Ha) as (Hn & _ & Hch).
  assert (D (re_name e)) as Hd by (rewrite Hn; apply Hs; [done|by eexists]).
  apply (fold_returns (fun c st => child ← m !! c; traverseSubTree fuel m child (passed_on e A) (passed_on e R) st)).
  - intros c st1 Hc%Hch Hst1. destruct (par_dom _ _ _ Hc) as [ec Hec]. rewrite Hec. simpl. eapply IH; [done| |eapply stays_child; [by left|done]|done].
    pose proof (par_sp _ _ _ Htree Hc) as (j & Hj & ->)%sp_take. rewrite length_take in *. lia.
  - unfold add_here, remove_here, fu_addInheritedRoute, fu_removeInheritedRoute. inherit.
Qed.

Lemma children_return cs A R st : (forall c, c ∈ cs -> is_Some (m !! c) /\ stays c) -> inherited_ok st ->
  returns (modifyChildrensInheritedRoutes m cs A R st).
Proof.
  intros Hcs. apply (fold_returns (fun c st => child ← m !! c; traverseSubTree (S (maxLength m)) m child A R st)).
  intros c st1 [[ec Hec] Hs]%Hcs Hst1. rewrite Hec. cbn [mbind option_bind]. eapply traverse_returns; [done|lia|done|done].
Qed.

Lemma ancestors_return fuel : forall n s, (length n < fuel)%nat -> is_Some (ancestors_loop fuel (findParent n m) s m).
Proof.
  induction fuel as [|fuel IH]; intros n s Hlen; [lia|]. simpl. pose proof (findParent_nearest m n) as Hn.
  destruct (findParent n m) as [p|]; [|by eexists]. destruct Hn as ([e He] & Hpn & _). rewrite He. simpl.
  destruct (hasCapture e); [by eexists|]. destruct (entry_at_found p e He) as (_ & -> & _). apply IH.
  apply sp_take in Hpn as (j & Hj & ->). rewrite length_take. lia.
Qed.

Lemma ancestors_entry n e : entry_at n e -> exists anc, getAncestorRoutes e m = Some anc.
Proof. intros (<- & Hp & _). unfold getAncestorRoutes. rewrite Hp. apply ancestors_return. lia. Qed.

Lemma inherited_many e A st : D (re_name e) -> inherited_ok st -> inherited_ok (addInheritedRoutes e A st) /\ inherited_ok (removeInheritedRoutes e A st).
Proof.
  intros Hd Hst. unfold addInheritedRoutes, removeInheritedRoutes, fu_addInheritedRoute, fu_removeInheritedRoute. split; inherit.
Qed.

Section Entry.
Context (n : Name) (e : RibEntry) (He : entry_at n e) (Hbelow : forall k, sp n k -> is_Some (m !! k) -> D k).

Lemma below_return A R st : inherited_ok st -> returns (modifyChildrensInheritedRoutes m (re_children e) A R st).
Proof.
  apply children_return. intros c Hc. destruct He as (_ & _ & Hch). apply Hch in Hc.
  split; [by eapply par_dom|by eapply stays_child; [right|]].
Qed.

Lemma newRoute_returns route b st : (b = true -> D n) -> inherited_ok st -> returns (createFibUpdatesForNewRoute m e route b st).
Proof.
  intros Hd Hst. unfold createFibUpdatesForNewRoute. destruct (ancestors_entry n e He) as [anc Hanc].
  assert (exists st1 R, (if b then anc ← getAncestorRoutes e m; Some (removeInheritedRoutes e anc st, anc) else Some (st, [])) = Some (st1, R) /\ inherited_ok st1)
    as (st1 & R & -> & Hst1).
  { destruct b; [|by exists st, []]. rewrite Hanc. eexists _, _. split; [done|]. apply inherited_many; [|done]. destruct He as [-> _]. by apply Hd. }
  cbn [mbind option_bind]. edestruct below_return as (st2 & -> & Hst2); [exact Hst1|]. cbn [mbind option_bind].
  eexists. split; [done|]. inherit.
Qed.

Lemma erasedRoute_returns route b st : ((getNRoutes e =? 0) = false -> D n) -> inherited_ok st -> returns (createFibUpdatesForErasedRoute m e route b st).
Proof.
  intros Hd Hst. unfold createFibUpdatesForErasedRoute. destruct (ancestors_entry n e He) as [anc Hanc]. rewrite Hanc.
  apply (inherited_add (createRemoveUpdate (re_name e) (r_faceId route))) in Hst. set (st0 := addFibUpdate _ st) in *.
  set (un := if b && _ then _ else _).
  assert (exists st1 A, un = Some (st1, A) /\ inherited_ok st1) as (st1 & A & Hun & Hst1).
  { unfold un. destruct b; simpl; [|by eexists _, _]. destruct (getNRoutes e =? 0) eqn:En; simpl; [by eexists _, _|].
    eexists _, _. split; [done|]. apply inherited_many; [|done]. destruct He as [-> _]. by apply Hd. }
  rewrite Hun. set (o := if isChildInherit route && _ then _ else _).
  assert (returns o) as (st2 & -> & Hst2).
  { unfold o. repeat case_match; cbn [mbind option_bind]; try (by apply below_return). by exists st0. }
  cbn [mbind option_bind]. eexists. split; [done|]. destruct (negb (hasCapture e) && negb (getNRoutes e =? 0)) eqn:Eb; [|done].
  apply andb_prop in Eb as [_ En%negb_true_iff]. destruct (rs_find route anc); [|done]. apply inherited_both; [|done|done]. destruct He as [-> _]. by apply Hd.
Qed.

(** An updated route that has become more expensive than another one of its
    face, when no route of that face is to be inherited: [prevRoute] is null. *)
Definition nullPrevRoute route (existingRoute : Route) (entry : RibEntry) : bool :=
  match getRouteWithLowestCostByFaceId (r_faceId route) entry with
  | Some lowest => (r_cost lowest <? r_cost route) && (r_cost existingRoute <? r_cost lowest) &&
      negb (hasChildInheritOnFaceId (r_faceId route) entry)
  | None => false
  end.

Lemma updateCost_returns route r0 st : hasFaceId (r_faceId route) e = true -> inherited_ok st ->
  if nullPrevRoute route r0 e
  then updateCost e route r0 (getRouteWithLowestCostAndChildInheritByFaceId (r_faceId route) e) st = None
  else returns (updateCost e route r0 (getRouteWithLowestCostAndChildInheritByFaceId (r_faceId route) e) st).
Proof.
  intros Hf Hst. unfold nullPrevRoute, updateCost. pose proof (lowest_face (r_faceId route) e) as Hl.
  destruct (getRouteWithLowestCostByFaceId (r_faceId route) e) as [lowest|]; [|by rewrite (proj1 Hl eq_refl) in Hf]. cbn [mbind option_bind].
  pose proof (ci_None (r_faceId route) e) as Hci. destruct (Z.leb_spec (r_cost route) (r_cost lowest)).
  - rewrite (proj2 (Z.ltb_ge _ _)) by done. eexists. split; [done|]. by apply inherited_add.
  - rewrite (proj2 (Z.ltb_lt _ _)) by done. simpl. destruct (r_cost r0 <? r_cost lowest); simpl; [|by exists st].
    destruct (getRouteWithLowestCostAndChildInheritByFaceId (r_faceId route) e) as [prev|].
    + destruct (hasChildInheritOnFaceId (r_faceId route) e); simpl; [|by discriminate (proj2 Hci eq_refl)].
      eexists. split; [done|]. by apply inherited_add.
    + by rewrite (proj1 Hci eq_refl).
Qed.

Lemma updatedRoute_returns route r0 st : D n -> hasFaceId (r_faceId route) e = true -> inherited_ok st ->
  if negb (r_cost route =? r_cost r0) && nullPrevRoute route r0 e
  then createFibUpdatesForUpdatedRoute m e route r0 st = None
  else returns (createFibUpdatesForUpdatedRoute m e route r0 st).
Proof.
  intros Hd Hf Hst. unfold createFibUpdatesForUpdatedRoute. set (prev := getRouteWithLowestCostAndChildInheritByFaceId _ e).
  destruct (ancestors_entry n e He) as [anc Hanc]. assert (D (re_name e)) as Hd' by (by destruct He as [-> _]).
  assert (forall st1, inherited_ok st1 -> returns (st2 ← childInheritChange m e route r0 prev st1; captureChange m e route r0 st2)) as Hrest.
  { intros st1 Hst1. assert (returns (childInheritChange m e route r0 prev st1)) as (st2 & -> & Hst2).
    { unfold childInheritChange. rewrite Hanc. repeat case_match; cbn [mbind option_bind]; first [by apply below_return | by exists st1]. }
    cbn [mbind option_bind]. unfold captureChange. rewrite Hanc.
    repeat case_match; cbn [mbind option_bind]; first [by exists st2 | apply below_return; by apply inherited_many]. }
  destruct (r_cost route =? r_cost r0); simpl.
  - destruct (_ =? _); simpl; [by exists st|]. by apply Hrest.
  - rewrite andb_false_r. pose proof (updateCost_returns route r0 st Hf Hst) as Hu. fold prev in Hu.
    destruct (nullPrevRoute route r0 e); [by rewrite Hu|]. destruct Hu as (st1 & -> & Hst1). cbn [mbind option_bind].
    destruct (_ && _ && _); [by apply below_return|by apply Hrest].
Qed.
End Entry.
End Total.

(** The RIB operation that an update leads to. *)
Definition operation (u : RibUpdate) : RibOp :=
  match ru_action u with REGISTER => Insert (ru_name u) (ru_route u) | _ => Erase (ru_name u) (ru_route u) end.

(** The copy of the entry with the updated route, as [computeUpdatesForRegistration] makes it. *)
Definition entryCopy route e : RibEntry :=
  let change x := mkRoute (r_faceId x) (r_origin x) (r_cost route) (r_flags route) (r_expires route)
                    (r_announcement x) (r_annExpires x) (r_expirationEvent x) in
  set_routes (update_first (has_key route_key (route_key route)) change (re_routes e)) (re_nRoutesWithCaptureSet e) e.

Definition dereferencesNull u m : bool :=
  match ru_action u, m !! ru_name u with
  | REGISTER, Some entry =>
      match findRoute (ru_route u) entry with
      | Some r0 => negb (r_cost (ru_route u) =? r_cost r0) && nullPrevRoute (ru_route u) r0 (entryCopy (ru_route u) entry)
      | None => false
      end
  | _, _ => false
  end.

Lemma insert_dom n r (a : gmap Name (list Route)) k : is_Some (abs_insert n r a !! k) <-> is_Some (a !! k) \/ k = n.
Proof.
  unfold abs_insert. destruct (a !! n) as [l|]; [destruct (find_if _ l)|]; rewrite lookup_insert_is_Some'; naive_solver.
Qed.

Lemma erase_dom n r (a : gmap Name (list Route)) k : is_Some (a !! k) -> k <> n -> is_Some (abs_erase n r a !! k).
Proof.
  intros Hk Hne. unfold abs_erase. destruct (a !! n) as [l|]; [|done]. destruct (erase_first _ l); [by rewrite lookup_delete_ne|by rewrite lookup_insert_ne].
Qed.

Lemma copy_face route e r0 : findRoute route e = Some r0 -> hasFaceId (r_faceId route) (entryCopy route e) = true.
Proof.
  unfold findRoute, hasFaceId, entryCopy. simpl. induction (re_routes e) as [|x l IH]; simpl; [done|].
  destruct (has_key route_key (route_key route) x) eqn:Ex; simpl; [|intros E; by rewrite IH, orb_true_r].
  intros _. unfold has_key in Ex. apply bool_decide_eq_true in Ex. injection Ex as Ex _. unfold onFace. simpl. by rewrite Ex, Z.eqb_refl.
Qed.

Section Returns.
Context (rib : Rib) (u : RibUpdate) (Hrib : rib_ok rib).
Notation m := (m_rib rib).
Notation D := (fun k => is_Some (abs_step (re_routes <$> m) (operation u) !! k)).

Lemma routes_dom k : is_Some ((re_routes <$> m) !! k) <-> is_Some (m !! k).
Proof. by rewrite lookup_fmap, fmap_is_Some. Qed.

Lemma registration_returns st : ru_action u = REGISTER -> inherited_ok D st ->
  if dereferencesNull u m then computeUpdatesForRegistration m u st = None else returns D (computeUpdatesForRegistration m u st).
Proof.
  intros Ha Hst. destruct Hrib as (Hl & Ht & _). unfold dereferencesNull, computeUpdatesForRegistration. rewrite Ha.
  assert (forall k, is_Some (m !! k) \/ k = ru_name u -> D k) as HD.
  { intros k Hk. unfold operation. rewrite Ha. simpl. by rewrite insert_dom, routes_dom. }
  destruct (m !! ru_name u) as [e|] eqn:He.
  - pose proof (entry_at_found m Hl Ht _ _ He) as Hat.
    destruct (findRoute (ru_route u) e) as [r0|] eqn:Er.
    + apply (updatedRoute_returns m D Hl Ht (ru_name u) (entryCopy (ru_route u) e) Hat); [auto|apply HD; by right|by eapply copy_face|done].
    + apply (newRoute_returns m D Hl Ht (ru_name u) e Hat); [auto|intros _; apply HD; by right|done].
  - fold (future_children m (ru_name u)).
    assert (forall A R st, inherited_ok D st -> returns D (modifyChildrensInheritedRoutes m (future_children m (ru_name u)) A R st)) as Hch.
    { intros A R st1. apply (children_return m D Hl Ht). intros c (Hc & _)%future_children_spec; [|done]. split; [done|]. intros k _ Hk. apply HD. by left. }
    assert (forall (anc : list Route) st, inherited_ok D st -> inherited_ok D (addInheritedRoutes_name (ru_name u) anc (ru_route u) st)) as Hadd.
    { intros anc st1 Hst1. unfold addInheritedRoutes_name, fu_addInheritedRoute. apply (P_foldl (inherited_ok D)); [|done]. intros st2 x Hst2.
      destruct (negb _); [|done]. apply inherited_both; [apply HD; by right|done|done]. }
    unfold createFibUpdatesForNewRibEntry, getAncestorRoutes_name.
    destruct (ancestors_return m Hl Ht (S (length (ru_name u))) (ru_name u) []) as [anc ->]; [lia|].
    apply (inherited_add D (createAddUpdate (ru_name u) (r_faceId (ru_route u)) (r_cost (ru_route u)))) in Hst.
    repeat case_match; cbn [mbind option_bind]; auto. eexists. split; [done|]. auto.
Qed.

Lemma unregistration_returns st : ru_action u <> REGISTER -> inherited_ok D st -> returns D (computeUpdatesForUnregistration nth m u st).
Proof.
  intros Ha Hst. destruct Hrib as (Hl & Ht & _). unfold computeUpdatesForUnregistration.
  assert (operation u = Erase (ru_name u) (ru_route u)) as Hop by (unfold operation; by destruct (ru_action u)).
  assert (forall k, is_Some (m !! k) -> k <> ru_name u -> D k) as HD.
  { intros k Hk Hne. rewrite Hop. apply erase_dom; [by apply routes_dom|done]. }
  destruct (m !! ru_name u) as [e|] eqn:He; [|by exists st].
  destruct (findRoute (ru_route u) e) as [r0|] eqn:Er; [|by exists st].
  unfold eraseRoute. rewrite Er. set (temp := set_routes _ _ e).
  assert (entry_at m (ru_name u) temp) as Hat by exact (entry_at_found m Hl Ht _ _ He).
  assert (forall k, sp (ru_name u) k -> is_Some (m !! k) -> D k) as Hbelow.
  { intros k Hk Hm. apply HD; [done|]. intros ->. by eapply sp_irrefl. }
  assert (forall r b st, inherited_ok D st -> returns D (createFibUpdatesForErasedRoute m temp r b st)) as H1'.
  { intros r b st1. apply (erasedRoute_returns m D Hl Ht (ru_name u) temp Hat Hbelow). unfold getNRoutes. simpl. intros Hne. rewrite Hop. simpl.
    unfold abs_erase. rewrite lookup_fmap, He. simpl. destruct (erase_first _ (re_routes e)); [done|]. rewrite lookup_insert_eq. by eexists. }
  match goal with |- returns D (?o ≫= _) => assert (returns D o) as (st1 & -> & Hst1) by (by apply H1') end. cbn [mbind option_bind].
  set (o := match getRouteWithSecondLowestCostByFaceId _ _ _ with Some _ => _ | None => _ end).
  assert (returns D o) as (st2 & -> & Hst2).
  { unfold o. destruct (getRouteWithSecondLowestCostByFaceId _ _ _); [|by exists st1].
    by apply (newRoute_returns m D Hl Ht (ru_name u) temp Hat Hbelow). }
  cbn [mbind option_bind]. eexists. split; [done|]. destruct (_ =? 1); [|done].
  unfold createFibUpdatesForErasedRibEntry. apply (P_foldl (inherited_ok D)); [|done]. intros ? ? ?. by apply inherited_add.
Qed.

Lemma computeUpdates_returns faceId cancelled : let st0 := mkFibUpdater faceId [] [] [] cancelled in
  if dereferencesNull u m then computeUpdates nth m [u] st0 = None
  else exists st rib', computeUpdates nth m [u] st0 = Some st /\ applyUpdate u (m_inheritedRoutes st) rib = Some rib' /\
    rib_ok rib' /\ re_routes <$> m_rib rib' = abs_step (re_routes <$> m) (operation u).
Proof.
  intros st0. assert (inherited_ok D st0) as Hst0 by apply Forall_nil_2. unfold computeUpdates. simpl.
  assert (if dereferencesNull u m then computeUpdate nth m u st0 = None else returns D (computeUpdate nth m u st0)) as Hc.
  { unfold computeUpdate. destruct (ru_action u) eqn:Ea; [by apply registration_returns|..];
      (assert (dereferencesNull u m = false) as -> by (unfold dereferencesNull; by rewrite Ea)).
    - apply unregistration_returns; [by rewrite Ea|done].
    - destruct (unregistration_returns st0) as (st1 & -> & Hst1); [by rewrite Ea|done|]. by eexists. }
  destruct (dereferencesNull u m); [by rewrite Hc|]. destruct Hc as (st & -> & Hst).
  destruct (rib_step_ok (operation u) rib Hrib) as (rib1 & E1 & Hok1 & Hr1).
  destruct (modifyInheritedRoutes_ok (m_inheritedRoutes st) rib1 Hok1) as (m' & E2 & Hok2 & Hw & _).
  { eapply Forall_impl; [exact Hst|]. intros v [Hv Hva]. split; [|done]. rewrite <-Hr1 in Hv. by rewrite lookup_fmap, fmap_is_Some in Hv. }
  exists st, (set_m_rib m' rib1). split_and!; [done| |done|].
  - unfold applyUpdate. unfold rib_step, operation in E1. destruct (ru_action u); rewrite E1; cbn [mbind option_bind]; by rewrite E2.
  - simpl. rewrite <-Hr1. by apply routes_of_core, core_of_without.
Qed.
End Returns.

(** *** Completion *)

Definition idle q : Prop := q_current q = None /\ m_updateBatches q = [].

Lemma uniq_NoDup (l : list FibUpdate) : uniq_keys fu_target l -> NoDup l.
Proof. apply NoDup_fmap_1. Qed.

Lemma update_completes_ok u q st rib' fib :
  idle q -> computeUpdates nth (m_rib (q_rib q)) [u] (mkFibUpdater (r_faceId (ru_route u)) [] [] [] (fu_cancelled (q_updater q))) = Some st ->
  applyUpdate u (m_inheritedRoutes st) (q_rib q) = Some rib' ->
  exists q1 q2, beginApplyUpdate nth u q = Some q1 /\
    (forall fuel, (length (all_updates st) < fuel)%nat ->
       serve fuel (length (q_commands q)) q1 fib = Some (q2, foldl fib_apply fib (all_updates st))) /\
    q_rib q2 = rib' /\ idle q2 /\ q_completed q2 = q_completed q ++ [(u, true)] /\
    q_commands q2 = q_commands q ++ sendUpdates (all_updates st).
Proof.
  intros [Hcur Hb] E Happ. destruct (computeUpdates_lists _ _ _ _ _ E) as [(A1 & A2 & A3 & A4) _].
  destruct q as [rib st0 batches cur cmds comp]. simpl in *. subst.
  unfold beginApplyUpdate, advance, addUpdateToQueue. simpl. unfold computeAndSendFibUpdates. rewrite E. cbn [mbind option_bind].
  unfold sendUpdatesForBatchFaceId, all_updates. destruct (m_updatesForBatchFaceId st) as [|x l] eqn:El.
  - unfold sendUpdatesForNonBatchFaceId. destruct (m_updatesForNonBatchFaceId st) as [|y l2] eqn:E2.
    + simpl. rewrite Happ. simpl. eexists _, _. split; [done|]. split.
      * intros [|fuel] Hf; [lia|]. simpl. rewrite app_nil_r, lookup_ge_None_2 by done. done.
      * split_and!; [done|by split|done|simpl; by rewrite app_nil_r].
    + eexists _, _. split; [done|]. split.
      * intros fuel Hf. apply serve_nonbatch; try done.
        -- by apply uniq_NoDup.
        -- rewrite drop_app_length. done.
      * split_and!; [done|by split|done|done].
  - eexists _, _. split; [done|]. split.
    + intros fuel Hf. erewrite serve_batch with (l := x :: l); try done.
      * by apply uniq_NoDup.
      * by apply uniq_NoDup.
      * rewrite drop_app_length. done.
      * simpl in Hf |- *. rewrite length_app in Hf. lia.
    + simpl. split_and!; [done|by split|done|]. rewrite <-app_assoc. f_equal. unfold sendUpdates. simpl. f_equal. by rewrite fmap_app.
Qed.

(** *** Prefixes registered one after the other *)

Definition registration (nr : Name * Route) : RibUpdate := mkRibUpdate REGISTER nr.1 nr.2.

Fixpoint registerAll (fuel : nat) (regs : list (Name * Route)) q fib : option (RibQueue * FibMap) :=
  match regs with
  | [] => Some (q, fib)
  | nr :: regs =>
      q1 ← beginApplyUpdate nth (registration nr) q;
      '(q2, fib2) ← serve fuel (length (q_commands q)) q1 fib;
      registerAll fuel regs q2 fib2
  end.

Definition newQueue : RibQueue := mkRibQueue newRib (mkFibUpdater 0 [] [] [] []) [] None [] [].

Lemma registerAll_ok regs : forall q fib,
  NoDup regs.*1 -> (forall n, n ∈ regs.*1 -> m_rib (q_rib q) !! n = None) -> idle q -> consistent (q_rib q) fib ->
  exists fuel0 q' fib', (forall fuel, (fuel0 <= fuel)%nat -> registerAll fuel regs q fib = Some (q', fib')) /\
    idle q' /\ consistent (q_rib q') fib' /\ q_completed q' = q_completed q ++ ((fun nr => (registration nr, true)) <$> regs) /\
    re_routes <$> m_rib (q_rib q') = foldl (fun (rm : gmap Name (list Route)) nr => <[nr.1 := [nr.2]]> rm) (re_routes <$> m_rib (q_rib q)) regs.
Proof.
  induction regs as [|[n r] regs IH]; intros q fib Hnd Hnew Hidle Hc.
  { exists 0%nat, q, fib. split_and!; [done|done|done|by rewrite app_nil_r|done]. }
  simpl in Hnd. apply NoDup_cons in Hnd as [Hn Hnd].
  destruct (new_prefix_ok nth (q_rib q) fib n r (fu_cancelled (q_updater q)) Hc) as (st & rib' & E & _ & Happ & Hr & Hc').
  { apply Hnew. by left. }
  destruct (update_completes_ok (registration (n, r)) q st rib' fib Hidle E Happ) as (q1 & q2 & E1 & E2 & Hrib & Hidle2 & Hcomp & _).
  rewrite <-Hrib in Hc', Hr.
  destruct (IH q2 (foldl fib_apply fib (all_updates st)) Hnd) as (fuel0 & q' & fib' & E' & Hidle' & Hcons & Hcomp' & Hroutes); [|done|exact Hc'|].
  { intros k Hk. assert (m_rib (q_rib q) !! k = None) as Hold by (apply Hnew; by right).
    apply (f_equal (lookup k)) in Hr. rewrite lookup_insert_ne, !lookup_fmap, Hold in Hr by (by intros ->).
    by destruct (m_rib (q_rib q2) !! k). }
  exists (S (length (all_updates st)) `max` fuel0)%nat, q', fib'. split_and!; [|done|done| |].
  - intros fuel Hf. simpl. rewrite E1. simpl. rewrite E2 by lia. simpl. apply E'. lia.
  - rewrite Hcomp', Hcomp, <-app_assoc. done.
  - rewrite Hroutes, Hr. done.
Qed.

Lemma new_consistent : consistent newRib ∅.
Proof.
  split_and!; [apply newRib_ok| | |].
  - intros k e f He. simpl in He. by rewrite lookup_empty in He.
  - intros k f. unfold nexthop. simpl. by rewrite !lookup_empty.
  - intros k f. unfold hasInherited, inherits. simpl. rewrite lookup_empty. done.
Qed.

(** C2: distinct prefixes are registered one after the other, one route each with
    any flags, in any order of ancestors and descendants. Every update completes,
    and at the end the FIB has, for every prefix and face, the next hop that the
    routes mean: the cheapest own route, or else the route of the nearest ancestor
    that has one to inherit, with no capturing entry before it; and no other next
    hop. A second route for a prefix, or a change of a route, is not covered. *)
Theorem registrations_follow regs : NoDup regs.*1 ->
  exists fuel0 q fib, (forall fuel, (fuel0 <= fuel)%nat -> registerAll fuel regs newQueue ∅ = Some (q, fib)) /\
    idle q /\ q_completed q = (fun nr => (registration nr, true)) <$> regs /\
    re_routes <$> m_rib (q_rib q) = foldl (fun (rm : gmap Name (list Route)) nr => <[nr.1 := [nr.2]]> rm) ∅ regs /\
    fib_follows (m_rib (q_rib q)) fib.
Proof.
  intros Hnd. destruct (registerAll_ok regs newQueue ∅ Hnd) as (fuel0 & q & fib & E & Hi & (_ & _ & Hf & _) & Hc & Hr); [done|done|apply new_consistent|].
  exists fuel0, q, fib. split_and!; [exact E|done|exact Hc|exact Hr|done].
Qed.

(** C26: an update of an idle, well-formed RIB - a registration of a new or a
    known route, an unregistration or the removal of a face - completes when its
    FIB commands succeed: first those of the update's face, then the others, each
    next hop at most once. The FIB then has the computed updates, the RIB is well
    formed with the routes that the update means, and the queue is idle again. The
    one exception is a known route that gets a higher cost than another route of
    its face, which cost more than it before, when no route of that face is to be
    inherited: the update then dereferences a null pointer. *)
Theorem update_completes u q fib : rib_ok (q_rib q) -> idle q ->
  if dereferencesNull u (m_rib (q_rib q)) then beginApplyUpdate nth u q = None
  else exists st q1 q2,
    computeUpdates nth (m_rib (q_rib q)) [u] (mkFibUpdater (r_faceId (ru_route u)) [] [] [] (fu_cancelled (q_updater q))) = Some st /\
    uniq_keys fu_target (all_updates st) /\
    Forall (fun v => fu_faceId v = r_faceId (ru_route u)) (m_updatesForBatchFaceId st) /\
    Forall (fun v => fu_faceId v <> r_faceId (ru_route u)) (m_updatesForNonBatchFaceId st) /\
    beginApplyUpdate nth u q = Some q1 /\
    (forall fuel, (length (all_updates st) < fuel)%nat ->
       serve fuel (length (q_commands q)) q1 fib = Some (q2, foldl fib_apply fib (all_updates st))) /\
    rib_ok (q_rib q2) /\ re_routes <$> m_rib (q_rib q2) = abs_step (re_routes <$> m_rib (q_rib q)) (operation u) /\
    idle q2 /\ q_completed q2 = q_completed q ++ [(u, true)] /\
    q_commands q2 = q_commands q ++ sendUpdates (all_updates st).
Proof.
  intros Hok Hi. pose proof (computeUpdates_returns (q_rib q) u Hok (r_faceId (ru_route u)) (fu_cancelled (q_updater q))) as Hc.
  destruct (dereferencesNull u (m_rib (q_rib q))).
  - destruct q as [rib st0 batches cur cmds comp], Hi as [Hcur Hb]. simpl in *. subst.
    unfold beginApplyUpdate, advance, addUpdateToQueue. simpl. unfold computeAndSendFibUpdates. by rewrite Hc.
  - destruct Hc as (st & rib' & E & Ea & Hok' & Hr). destruct (update_completes_ok u q st rib' fib Hi E Ea) as (q1 & q2 & E1 & Hs & <- & Hi2 & Hcomp & Hcmd).
    pose proof (computeUpdates_lists _ _ _ _ _ E) as [Hl Hf]. pose proof Hl as (_ & _ & A3 & A4).
    exists st, q1, q2. split_and!; [done|by apply all_updates_uniq|apply Forall_forall; rewrite <-Hf; exact A3|apply Forall_forall; rewrite <-Hf; exact A4|done..].
Qed.

(** When the command that removes a next hop times out, the command that is
    sent instead adds it: carrying that out leaves the FIB with the next hop, at
    cost 0, and its success completes the update as if the next hop were gone. *)
Theorem removal_timeout_adds (v : FibUpdate) (nTimeouts : Z) st fib :
  fu_action v = REMOVE_NEXTHOP -> fu_cost v = 0 -> 0 <= nTimeouts < MAX_NUM_TIMEOUTS ->
  m_updatesForBatchFaceId st = [] -> m_updatesForNonBatchFaceId st = [v] -> fu_faceId v <> m_batchFaceId st ->
  exists c, onUpdateError v ERROR_TIMEOUT nTimeouts st = Some (st, ([c], Waiting)) /\
    fib_exec fib c !! fu_target v = Some 0 /\
    (onUpdateSuccess (cmd_update c) st).2.2 = Success (m_inheritedRoutes st).
Proof.
  intros Hact Hcost Hk Hb Hnb Hf. unfold onUpdateError. rewrite Z.eqb_refl, (proj2 (Z.ltb_lt _ _)) by apply Hk. simpl.
  eexists. split_and!; [done| |].
  - unfold fib_exec. simpl. by rewrite lookup_insert_eq, Hcost.
  - simpl. unfold onUpdateSuccess. rewrite (proj2 (Z.eqb_neq _ _)) by done. unfold finishNonBatch. rewrite Hnb, without_head; [done|].
    apply NoDup_singleton.
Qed.
End Queue.
End Consistency.

Module FibConsistencyExamples.
Import RibExamples.
#[export] Instance exampleErrors : ControllerErrors := {| ERROR_TIMEOUT := 10060 |}.
Definition cheaper (a b : Route (Ann:=unit)) : Prop := r_cost a <= r_cost b.
#[export] Instance cheaper_dec a b : Decision (cheaper a b).
Proof. unfold cheaper. apply _. Defined.
Definition secondCheapest (l : list (Route (Ann:=unit))) : option Route := merge_sort cheaper l !! 1%nat.

(** A prefix whose route is inherited, one below that captures, and one below both. *)
Definition regs : list (list Z * Route (Ann:=unit)) :=
  [([1], route 1 0 10 1); ([1; 2], route 2 0 20 2); ([1; 2; 3], route 3 0 30 0)].
Definition registered := registerAll secondCheapest 10 regs newQueue ∅.

Lemma registrations_follow_witness : exists fuel0 q fib,
  (forall fuel, (fuel0 <= fuel)%nat -> registerAll secondCheapest fuel regs newQueue ∅ = Some (q, fib)) /\
  fib_follows (m_rib (q_rib q)) fib.
Proof.
  destruct (registrations_follow secondCheapest regs) as (fuel0 & q & fib & E & _ & _ & _ & Hf).
  - apply (bool_decide_unpack (NoDup regs.*1)). vm_compute. exact I.
  - exists fuel0, q, fib. split; [exact E|exact Hf].
Defined.

(** Two routes of one face, the second of another origin. *)
Definition twoOrigins : Rib (C:=Z) (Ann:=unit) :=
  default newRib (rib_run [Insert [1] (route 5 0 10 0); Insert [1] (route 5 255 20 0); Insert [1; 2] (route 6 0 30 1)] newRib).
Definition twoOriginsQueue : RibQueue := mkRibQueue twoOrigins (mkFibUpdater 0 [] [] [] []) [] None [] [].

Lemma twoOrigins_ok : rib_ok twoOrigins.
Proof.
  destruct (rib_run_ok [Insert [1] (route 5 0 10 0); Insert [1] (route 5 255 20 0); Insert [1; 2] (route 6 0 30 1)] newRib newRib_ok) as (rib & E & Hok & _).
  unfold twoOrigins. by rewrite E.
Qed.

(** The cheaper route of the face is unregistered: the update completes. Its
    cost is raised above the other's: a null pointer. *)
Lemma update_completes_witness :
  (exists q1, beginApplyUpdate secondCheapest (mkRibUpdate UNREGISTER [1] (route 5 0 10 0)) twoOriginsQueue = Some q1) /\
  beginApplyUpdate secondCheapest (mkRibUpdate REGISTER [1] (route 5 0 25 0)) twoOriginsQueue = None.
Proof.
  split.
  - destruct (update_completes secondCheapest (mkRibUpdate UNREGISTER [1] (route 5 0 10 0)) twoOriginsQueue ∅ twoOrigins_ok) as (st & q1 & q2 & _ & _ & _ & _ & E & _).
    + split; reflexivity.
    + exists q1. exact E.
  - assert (dereferencesNull (mkRibUpdate REGISTER [1] (route 5 0 25 0)) (m_rib twoOrigins) = true) as Hd by (vm_compute; reflexivity).
    pose proof (update_completes secondCheapest (mkRibUpdate REGISTER [1] (route 5 0 25 0)) twoOriginsQueue ∅ twoOrigins_ok ltac:(split; reflexivity)) as Hu.
    change (m_rib (q_rib twoOriginsQueue)) with (m_rib twoOrigins) in Hu. rewrite Hd in Hu. exact Hu.
Defined.

Lemma removal_timeout_adds_witness : exists c : Command (C:=Z),
  fib_exec ∅ c !! ([1; 2], 3) = Some 0.
Proof.
  destruct (removal_timeout_adds (Ann:=unit) (createRemoveUpdate [1; 2] 3) 0
    (mkFibUpdater 1 [] [createRemoveUpdate [1; 2] 3] [] []) ∅) as (c & _ & Hc & _).
  - reflexivity.
  - reflexivity.
  - split; [lia|reflexivity].
  - reflexivity.
  - reflexivity.
  - discriminate.
  - exists c. exact Hc.
Defined.

(** The RIB and the FIB after the capturing prefix is unregistered. *)
Definition unregistered : option (RibQueue (C:=Z) (Ann:=unit) * gmap (list Z * Z) Z) :=
  '(q, fib) ← registered;
  q1 ← beginApplyUpdate secondCheapest (mkRibUpdate UNREGISTER [1; 2] (route 2 0 20 2)) q;
  serve secondCheapest 10 (length (q_commands q)) q1 fib.

(** When the only route of a prefix is erased and it had the capture flag,
    the prefixes below do not get the routes of the ancestors back: [/1] passes
    its route down, [/1/2] captured and is erased, but no next hop is added to
    [/1/2/3], which the RIB means to have the inherited one. *)
Theorem erased_capture_strands : exists q fib,
  unregistered = Some (q, fib) /\ q_completed q !! 3%nat = Some (mkRibUpdate UNREGISTER [1; 2] (route 2 0 20 2), true) /\
  nexthop (m_rib (q_rib q)) [1; 2; 3] 1 = Some 10 /\ fib !! ([1; 2; 3], 1) = None.
Proof. eexists _, _. split_and!; vm_compute; reflexivity. Qed.
End FibConsistencyExamples.
