(* ===== verification/RibManager.v ===== *)
(** * The RIB manager

    Models [rib/rib-manager.*], the construction of a route from a prefix
    announcement ([rib/route.cpp]) and the announcement of an entry
    ([rib/rib-entry.cpp]): routes are added and removed by commands, by the
    self-learning strategy, by their expiration and with their faces, through the
    queue of the RIB. The scheduler's events are part of the state, by their ids;
    an event that the RIB or its updater has cancelled does not fire. The callbacks
    of the queued updates are kept in the order of the queue. [None] is a failed
    assertion, an exception or a null pointer. *)

From S2P Require Import Prelude Ndn Rib Pit NameTree FibUpdater FibConsistency.
Local Open Scope Z_scope.

(** What the code uses of ndn-cxx's [PrefixAnnouncement]: the announced name, the
    expiration period in milliseconds, the validity period as its test and its end,
    and a new announcement of a name and a period. *)
Class PrefixAnnouncements (C Ann : Type) := {
  getAnnouncedName : Ann -> list C;
  getExpiration : Ann -> Z;
  getValidityPeriod : Ann -> option ((Z -> bool) * Z);
  newAnnouncement : list C -> Z -> Ann
}.

(** The values of ndn-cxx's [RouteOrigin] that the code names. *)
Class RouteOrigins := { ROUTE_ORIGIN_APP : Z; ROUTE_ORIGIN_PREFIXANN : Z }.

Definition PA_ROUTE_COST : Z := 2048.
(** 5 minutes, and the bounds of 15 seconds and 1 hour, in milliseconds, for the period of an announcement. *)
Definition ACTIVE_FACE_FETCH_INTERVAL : Z := 300000 * ms.
Definition MIN_ANN_EXPIRATION : Z := 15000.
Definition MAX_ANN_EXPIRATION : Z := 3600000.

Inductive RibUpdateResult := OK | ERROR | EXPIRED.
Inductive SlAnnounceResult := SlOK | SlERROR | SlVALIDATION_FAILURE | SlEXPIRED | SlNOT_FOUND.

Definition getSlAnnounceResultFromRibUpdateResult (r : RibUpdateResult) : SlAnnounceResult :=
  match r with OK => SlOK | ERROR => SlERROR | EXPIRED => SlEXPIRED end.

(** The callback of a queued update: none, that of a command, which does nothing
    more, or that of a request of the self-learning strategy. *)
Inductive Callback := NoCallback | CommandDone | SlDone (request : Z).

Section RibManager.
Context {C : Type} `{NameOrder C} {Ann : Type} `{!PrefixAnnouncements C Ann} `{!RouteFlags} `{!RouteOrigins} `{!ControllerErrors}.
Notation Name := (list C).
Notation Route := (Route (Ann:=Ann)).
Notation RibEntry := (RibEntry (C:=C) (Ann:=Ann)).
Notation RibUpdate := (RibUpdate (C:=C) (Ann:=Ann)).
Notation RibQueue := (RibQueue (C:=C) (Ann:=Ann)).
Context (nth : list Route -> option Route).
Implicit Types (n name : Name) (r route : Route) (q : RibQueue) (u update : RibUpdate) (now : Z) (pa : Ann).

(** ** Routes and announcements *)

Definition set_expires (t : option Z) r : Route :=
  mkRoute (r_faceId r) (r_origin r) (r_cost r) (r_flags r) t (r_announcement r) (r_annExpires r) (r_expirationEvent r).
Definition setExpirationEvent (id : Z) r : Route :=
  mkRoute (r_faceId r) (r_origin r) (r_cost r) (r_flags r) (r_expires r) (r_announcement r) (r_annExpires r) (Some id).

Definition computeExpiration now (sysNow : Z) pa : Z :=
  let validityEnd :=
    match getValidityPeriod pa with
    | None => 2 ^ 63 - 1
    | Some (isValid, last) => if isValid sysNow then i64 (last - sysNow) else 0
    end in
  i64 (now + Z.min validityEnd (i64 (getExpiration pa * ms))).

Definition annRoute now (sysNow : Z) pa (faceId : Z) : Route :=
  let t := computeExpiration now sysNow pa in
  mkRoute faceId ROUTE_ORIGIN_PREFIXANN PA_ROUTE_COST ROUTE_FLAG_CHILD_INHERIT (Some t) (Some pa) t None.

(** The announcement that expires last, with its time, and the latest expiration. *)
Definition announcement_step (acc : option (Ann * Z) * Z) r : option (Ann * Z) * Z :=
  let '(best, entryExpiry) := acc in
  match r_expires r with
  | Some t =>
      (match r_announcement r with
       | Some pa => match best with
                    | None => Some (pa, t)
                    | Some (_, t0) => if t0 <? t then Some (pa, t) else best
                    end
       | None => best
       end, Z.max entryExpiry t)
  | None => (best, 2 ^ 63 - 1)
  end.

Definition clamp (v lo hi : Z) : Z := if v <? lo then lo else if hi <? v then hi else v.

Definition getPrefixAnnouncement now (minExpiration maxExpiration : Z) (e : RibEntry) : Ann :=
  match foldl announcement_step (None, - 2 ^ 63) (re_routes e) with
  | (Some (pa, _), _) => pa
  | (None, entryExpiry) => newAnnouncement (re_name e) (clamp (Z.quot (i64 (entryExpiry - now)) ms) minExpiration maxExpiration)
  end.

(** ** The manager *)

Inductive ManagerEvent :=
  | RouteExpiration (name : Name) (route : Route)
  | FaceDestroyed (faceId : Z).

Record RibManager := mkRibManager {
  mgr_queue : RibQueue;
  m_registeredFaces : gset Z;
  m_isLocalhopEnabled : bool;
  m_activeFaceFetchEvent : option Z;
  mgr_events : gmap Z (Z * ManagerEvent);         (* the scheduler: the time of each event *)
  mgr_nextEvent : Z;
  mgr_callbacks : list Callback;                   (* of the updates in the queue, the current one first *)
  mgr_validations : gmap Z (Ann * (Z * Z));        (* announcements being validated *)
  mgr_results : list (Z * SlAnnounceResult)        (* the callbacks made *)
}.
Implicit Types (mgr : RibManager) (cb : Callback).

Definition newRibManager : RibManager := mkRibManager newQueue ∅ false None ∅ 0 [] ∅ [].

Definition set_queue q mgr : RibManager :=
  mkRibManager q (m_registeredFaces mgr) (m_isLocalhopEnabled mgr) (m_activeFaceFetchEvent mgr) (mgr_events mgr)
    (mgr_nextEvent mgr) (mgr_callbacks mgr) (mgr_validations mgr) (mgr_results mgr).
Definition set_registeredFaces (s : gset Z) mgr : RibManager :=
  mkRibManager (mgr_queue mgr) s (m_isLocalhopEnabled mgr) (m_activeFaceFetchEvent mgr) (mgr_events mgr)
    (mgr_nextEvent mgr) (mgr_callbacks mgr) (mgr_validations mgr) (mgr_results mgr).
Definition set_isLocalhopEnabled (b : bool) mgr : RibManager :=
  mkRibManager (mgr_queue mgr) (m_registeredFaces mgr) b (m_activeFaceFetchEvent mgr) (mgr_events mgr)
    (mgr_nextEvent mgr) (mgr_callbacks mgr) (mgr_validations mgr) (mgr_results mgr).
Definition set_fetchEvent (t : option Z) mgr : RibManager :=
  mkRibManager (mgr_queue mgr) (m_registeredFaces mgr) (m_isLocalhopEnabled mgr) t (mgr_events mgr)
    (mgr_nextEvent mgr) (mgr_callbacks mgr) (mgr_validations mgr) (mgr_results mgr).
Definition set_events (m : gmap Z (Z * ManagerEvent)) (next : Z) mgr : RibManager :=
  mkRibManager (mgr_queue mgr) (m_registeredFaces mgr) (m_isLocalhopEnabled mgr) (m_activeFaceFetchEvent mgr) m
    next (mgr_callbacks mgr) (mgr_validations mgr) (mgr_results mgr).
Definition set_callbacks (l : list Callback) mgr : RibManager :=
  mkRibManager (mgr_queue mgr) (m_registeredFaces mgr) (m_isLocalhopEnabled mgr) (m_activeFaceFetchEvent mgr) (mgr_events mgr)
    (mgr_nextEvent mgr) l (mgr_validations mgr) (mgr_results mgr).
Definition set_validations (m : gmap Z (Ann * (Z * Z))) mgr : RibManager :=
  mkRibManager (mgr_queue mgr) (m_registeredFaces mgr) (m_isLocalhopEnabled mgr) (m_activeFaceFetchEvent mgr) (mgr_events mgr)
    (mgr_nextEvent mgr) (mgr_callbacks mgr) m (mgr_results mgr).
Definition push_result (x : Z * SlAnnounceResult) mgr : RibManager :=
  mkRibManager (mgr_queue mgr) (m_registeredFaces mgr) (m_isLocalhopEnabled mgr) (m_activeFaceFetchEvent mgr) (mgr_events mgr)
    (mgr_nextEvent mgr) (mgr_callbacks mgr) (mgr_validations mgr) (mgr_results mgr ++ [x]).

(** [m_scheduler.scheduleEvent]. *)
Definition scheduleEvent (t : Z) (ev : ManagerEvent) mgr : RibManager :=
  set_events (<[mgr_nextEvent mgr := (t, ev)]> (mgr_events mgr)) (mgr_nextEvent mgr + 1) mgr.

(** A scoped event: the new one replaces the old one. *)
Definition scheduleActiveFaceFetch now (timeToWait : Z) mgr : RibManager := set_fetchEvent (Some (now + timeToWait)) mgr.

(** The callback [done]. *)
Definition finish cb (res : RibUpdateResult) mgr : RibManager :=
  match cb with SlDone k => push_result (k, getSlAnnounceResultFromRibUpdateResult res) mgr | _ => mgr end.

(** The callbacks that [beginRibUpdate] gives to the RIB, when one update has completed. *)
Definition onCompleted now mgr (c : RibUpdate * bool) : RibManager :=
  match mgr_callbacks mgr with
  | [] => mgr
  | cb :: rest =>
      let mgr := set_callbacks rest mgr in
      if c.2 then finish cb OK mgr
      else match cb with
           | NoCallback => mgr
           | _ => finish cb ERROR (scheduleActiveFaceFetch now (1000 * ms) mgr)
           end
  end.

(** An operation of the RIB's queue that adds updates with the callbacks [cbs]; the
    callbacks of the updates that it completes are made. *)
Definition ribDo (step : RibQueue -> option RibQueue) (cbs : list Callback) now mgr : option RibManager :=
  q ← step (mgr_queue mgr);
  Some (foldl (onCompleted now) (set_queue q (set_callbacks (mgr_callbacks mgr ++ cbs) mgr))
          (drop (length (q_completed (mgr_queue mgr))) (q_completed q))).

Definition beginRibUpdate update cb now mgr : option RibManager := ribDo (beginApplyUpdate nth update) [cb] now mgr.

Definition registerRoute name route cb now mgr : option RibManager :=
  beginRibUpdate (mkRibUpdate REGISTER name route) cb now
    (set_registeredFaces ({[r_faceId route]} ∪ m_registeredFaces mgr) mgr).

Definition beginAddRoute name route (expires : option Z) cb now mgr : option RibManager :=
  let route := match expires with Some d => set_expires (Some (i64 (now + d))) route | None => route end in
  let expires := match expires with Some d => Some d | None => (fun t => i64 (t - now)) <$> r_expires route end in
  match expires with
  | None => registerRoute name route cb now mgr
  | Some d =>
      if d <=? 0 then
        mgr ← ribDo (onRouteExpiration nth name route) [NoCallback] now mgr;
        Some (finish cb EXPIRED mgr)
      else
        registerRoute name (setExpirationEvent (mgr_nextEvent mgr) route) cb now
          (scheduleEvent (i64 (now + d)) (RouteExpiration name route) mgr)
  end.

Definition beginRemoveRoute name route cb now mgr : option RibManager :=
  beginRibUpdate (mkRibUpdate UNREGISTER name route) cb now mgr.

(** *** Commands *)

(** [ControlParameters] with the fields that the commands require or that have defaults. *)
Record ControlParameters := mkControlParameters {
  cp_name : Name; cp_faceId : Z; cp_origin : Z; cp_cost : Z; cp_flags : Z;
  cp_expirationPeriod : option Z
}.
Implicit Types parameters : ControlParameters.

(** The first argument is the tag of the incoming face; [None] is its assertion. *)
Definition selfRegistration (incomingFaceIdTag : option Z) parameters : option ControlParameters :=
  if cp_faceId parameters =? 0 then
    faceId ← incomingFaceIdTag;
    Some (mkControlParameters (cp_name parameters) faceId (cp_origin parameters) (cp_cost parameters) (cp_flags parameters)
            (cp_expirationPeriod parameters))
  else Some parameters.

(** With the status code of the response. [2 ^ 63 - 1] is [time::milliseconds::max()]. *)
Definition registerEntry (incomingFaceIdTag : option Z) parameters now mgr : option (RibManager * Z) :=
  if (getMaxDepth <? length (cp_name parameters))%nat then Some (mgr, 414)
  else
    parameters ← selfRegistration incomingFaceIdTag parameters;
    let route := mkRoute (cp_faceId parameters) (cp_origin parameters) (cp_cost parameters) (cp_flags parameters) None None 0 None in
    let expires := match cp_expirationPeriod parameters with
                   | Some period => if period =? 2 ^ 63 - 1 then None else Some (i64 (period * ms))
                   | None => None
                   end in
    mgr ← beginAddRoute (cp_name parameters) route expires CommandDone now mgr;
    Some (mgr, 200).

Definition unregisterEntry (incomingFaceIdTag : option Z) parameters now mgr : option (RibManager * Z) :=
  parameters ← selfRegistration incomingFaceIdTag parameters;
  let route := mkRoute (cp_faceId parameters) (cp_origin parameters) 0 0 None None 0 None in
  mgr ← beginRemoveRoute (cp_name parameters) route CommandDone now mgr;
  Some (mgr, 200).

(** The items of the dataset, in the order of names: face, origin, cost, flags and
    remaining time in milliseconds of each route. *)
Definition listEntries now mgr : list (Name * list (Z * Z * Z * Z * option Z)) :=
  let m := m_rib (q_rib (mgr_queue mgr)) in
  omap (fun n => (fun e => (re_name e,
          (fun r => (r_faceId r, r_origin r, r_cost r, r_flags r, (fun t => Z.quot (i64 (t - now)) ms) <$> r_expires r)) <$> re_routes e))
        <$> m !! n) (sortedNames m).

(** Which of the two validators decides; [None] is the assertion on the prefix. *)
Definition makeAuthorization (LOCALHOST_TOP_PREFIX LOCALHOP_TOP_PREFIX prefix : Name) (localhostValid localhopValid : bool) : option bool :=
  if decide (prefix = LOCALHOST_TOP_PREFIX) then Some localhostValid
  else if decide (prefix = LOCALHOP_TOP_PREFIX) then Some localhopValid else None.

(** The answer to the command of [registerTopPrefix]; a failure throws. *)
Definition onTopPrefix (topPrefix : Name) (response : option Z) mgr : option RibManager :=
  faceId ← response;
  let route := mkRoute faceId ROUTE_ORIGIN_APP 0 ROUTE_FLAG_CHILD_INHERIT None None 0 None in
  let q := mgr_queue mgr in
  rib ← rib_insert topPrefix route (q_rib q);
  Some (set_registeredFaces ({[faceId]} ∪ m_registeredFaces mgr)
          (set_queue (mkRibQueue rib (q_updater q) (m_updateBatches q) (q_current q) (q_commands q) (q_completed q)) mgr)).

Definition enableLocalhop mgr : RibManager := set_isLocalhopEnabled true mgr.
Definition disableLocalhop mgr : RibManager := set_isLocalhopEnabled false mgr.

(** With the prefixes that [registerTopPrefix] is called with. *)
Definition registerWithNfd (LOCALHOST_TOP_PREFIX LOCALHOP_TOP_PREFIX : Name) now mgr : RibManager * list Name :=
  (scheduleActiveFaceFetch now ACTIVE_FACE_FETCH_INTERVAL mgr,
   LOCALHOST_TOP_PREFIX :: if m_isLocalhopEnabled mgr then [LOCALHOP_TOP_PREFIX] else []).

(** *** Self-learning *)

Definition slAnnounce pa (faceId maxLifetime request : Z) mgr : RibManager :=
  if m_isLocalhopEnabled mgr then set_validations (<[request := (pa, (faceId, maxLifetime))]> (mgr_validations mgr)) mgr
  else push_result (request, SlVALIDATION_FAILURE) mgr.

(** The answer of the validator. *)
Definition onValidated (request : Z) (valid : bool) (sysNow now : Z) mgr : option RibManager :=
  '(pa, (faceId, maxLifetime)) ← mgr_validations mgr !! request;
  let mgr := set_validations (delete request (mgr_validations mgr)) mgr in
  if valid then
    let route := annRoute now sysNow pa faceId in
    let route := set_expires (Some (Z.min (r_annExpires route) (i64 (now + i64 (maxLifetime * ms))))) route in
    beginAddRoute (getAnnouncedName pa) route None (SlDone request) now mgr
  else Some (push_result (request, SlVALIDATION_FAILURE) mgr).

Definition slRenew name (faceId maxLifetime request now : Z) mgr : option RibManager :=
  let routeQuery := mkRoute faceId ROUTE_ORIGIN_PREFIXANN 0 0 None None 0 None in
  match findLongestPrefix name routeQuery (q_rib (mgr_queue mgr)) with
  | None => Some (push_result (request, SlNOT_FOUND) mgr)
  | Some oldRoute =>
      match r_announcement oldRoute with
      | None => Some (push_result (request, SlNOT_FOUND) mgr)
      | Some pa =>
          let route := set_expires (Some (Z.min (r_annExpires oldRoute) (i64 (now + i64 (maxLifetime * ms))))) oldRoute in
          beginAddRoute (getAnnouncedName pa) route None (SlDone request) now mgr
      end
  end.

(** The announcement is given to [sign], the key chain, before the callback. *)
Definition slFindAnn (sign : Ann -> Ann) name now mgr : option Ann :=
  let m := m_rib (q_rib (mgr_queue mgr)) in
  let entry := match m !! name with Some e => Some e | None => findParent name m ≫= (fun p => m !! p) end in
  (fun e => sign (getPrefixAnnouncement now MIN_ANN_EXPIRATION MAX_ANN_EXPIRATION e)) <$> entry.

(** *** Faces *)

Definition onFaceDestroyedEvent (faceId now : Z) mgr : option RibManager :=
  routes ← findRoutesWithFaceId faceId (q_rib (mgr_queue mgr));
  mgr ← ribDo (beginRemoveFace nth faceId) (replicate (length routes) NoCallback) now mgr;
  Some (set_registeredFaces (m_registeredFaces mgr ∖ {[faceId]}) mgr).

(** In the order of the set. *)
Definition removeInvalidFaces (activeFaces : list Z) now mgr : RibManager :=
  let activeFaceIds : gset Z := list_to_set activeFaces in
  let invalid := filter (fun f => f ∉ activeFaceIds) (merge_sort Z.le (elements (m_registeredFaces mgr))) in
  scheduleActiveFaceFetch now ACTIVE_FACE_FETCH_INTERVAL
    (foldl (fun mgr f => scheduleEvent now (FaceDestroyed f) mgr) mgr invalid).

Definition onNotification (isDestroyed : bool) (faceId now : Z) mgr : RibManager :=
  if isDestroyed then scheduleEvent now (FaceDestroyed faceId) mgr else mgr.

Definition onFetchActiveFacesFailure now mgr : RibManager := scheduleActiveFaceFetch now ACTIVE_FACE_FETCH_INTERVAL mgr.

(** *** The scheduler *)

Definition cancelled q : list Z := rib_cancelled (q_rib q) ++ fu_cancelled (q_updater q).

(** The event with this id is due and has not been cancelled. *)
Definition due (id now : Z) mgr : bool :=
  match mgr_events mgr !! id with
  | Some (t, _) => (t <=? now) && negb (bool_decide (id ∈ cancelled (mgr_queue mgr)))
  | None => false
  end.

Definition onEvent (id now : Z) mgr : option RibManager :=
  '(_, ev) ← mgr_events mgr !! id;
  let mgr := set_events (delete id (mgr_events mgr)) (mgr_nextEvent mgr) mgr in
  match ev with
  | RouteExpiration name route => ribDo (onRouteExpiration nth name route) [NoCallback] now mgr
  | FaceDestroyed faceId => onFaceDestroyedEvent faceId now mgr
  end.

(** A response of the FIB to a command of the current update. *)
Definition onFibResponse (cmd : Command) (code : option Z) now mgr : option RibManager := ribDo (onResponse nth cmd code) [] now mgr.

End RibManager.
