(* ===== verification/RibManagerRuns.v ===== *)
(** * Runs of the RIB manager

    The operations of [rib/rib-manager.cpp] interleaved in any order with the
    responses of the FIB and the events of the scheduler. A queue is followed
    through its steps: an update is taken up, completes or fails. *)

From S2P Require Import Prelude Ndn Rib Pit NameTree FibUpdater FibConsistency RibManager.
From Stdlib Require Import Sorting.Sorted.
Local Open Scope Z_scope.

Section Runs.
Context {C : Type} `{NameOrder C} {Ann : Type} `{!PrefixAnnouncements C Ann} `{!RouteFlags} `{!RouteOrigins} `{!ControllerErrors}.
Notation Name := (list C).
Notation Route := (Route (Ann:=Ann)).
Notation Rib := (Rib (C:=C) (Ann:=Ann)).
Notation RibEntry := (RibEntry (C:=C) (Ann:=Ann)).
Notation RibUpdate := (RibUpdate (C:=C) (Ann:=Ann)).
Notation RibQueue := (RibQueue (C:=C) (Ann:=Ann)).
Notation FibUpdater := (FibUpdater (C:=C) (Ann:=Ann)).
Notation RibManager := (RibManager (C:=C) (Ann:=Ann)).
Notation ManagerEvent := (ManagerEvent (C:=C) (Ann:=Ann)).
Context (nth : list Route -> option Route).
Implicit Types (n : Name) (k : Z * Z) (r : Route) (q : RibQueue) (u : RibUpdate) (l us : list RibUpdate) (now : Z) (mgr : RibManager) (rib : Rib).

(** ** One update *)

Notation target u := (ru_name u, route_key (ru_route u)).
Definition isRemoval u : Prop := ru_action u <> REGISTER.

#[export] Instance isRemoval_dec u : Decision (isRemoval u).
Proof. unfold Decision, isRemoval. destruct (ru_action u); [right; tauto|left; done..]. Defined.

(** The scheduled event of a route that may exist. *)
Definition event_of (o : option Route) : list Z := option_list (o ≫= r_expirationEvent).

Lemma insert_cancelled n r rib rib' : rib_insert n r rib = Some rib' ->
  rib_cancelled rib' = rib_cancelled rib ++ event_of (route_at n (route_key r) rib).
Proof.
  rewrite <-rib_find_at. unfold rib_insert, rib_find. destruct (m_rib rib !! n) as [e|] eqn:En; cbn [mbind option_bind].
  - unfold insertRoute. destruct (findRoute r e) as [r0|] eqn:Ef; cbn [mbind option_bind]; intros [= <-]; [done|]. simpl. by rewrite app_nil_r.
  - intros Hi. cbn [event_of]. unfold event_of. simpl. rewrite app_nil_r.
    destruct (findParent n _) as [p|]; [destruct (addChild p n _); [|done]|];
      cbn [mbind option_bind] in Hi; (destruct (foldl _ _ _); [|done]); cbn [mbind option_bind] in Hi; by injection Hi as <-.
Qed.

Lemma erase_cancelled n r rib rib' : rib_erase n r rib = Some rib' ->
  rib_cancelled rib' = rib_cancelled rib ++ event_of (route_at n (route_key r) rib).
Proof.
  rewrite <-rib_find_at. unfold rib_erase, rib_find. destruct (m_rib rib !! n) as [e|] eqn:En; cbn [mbind option_bind].
  - unfold eraseRoute. destruct (findRoute r e) as [r0|] eqn:Ef.
    + case_bool_decide; [destruct (eraseEntry n _); cbn [mbind option_bind]|]; by intros [= <-].
    + intros [= <-]. simpl. by rewrite app_nil_r.
  - intros [= <-]. simpl. by rewrite app_nil_r.
Qed.

(** The routes that inherited routes are added to or removed from stay the same. *)
Lemma modifyInherited_routes inh : forall rib m', rib_ok rib -> modifyInheritedRoutes inh (m_rib rib) = Some m' ->
  rib_ok (set_m_rib m' rib) /\ re_routes <$> m' = re_routes <$> m_rib rib.
Proof.
  unfold modifyInheritedRoutes. induction inh as [|v inh IH]; intros rib m' Hok E; simpl in E.
  { injection E as <-. by destruct rib. }
  destruct (m_rib rib !! ru_name v) as [e|] eqn:Ee; cbn [mbind option_bind] in E.
  2:{ exfalso. clear -E. induction inh as [|w inh IH]; simpl in E; [done|]. by apply IH. }
  set (e' := match ru_action v with REGISTER => addInheritedRoute (ru_route v) e | UNREGISTER => removeInheritedRoute (ru_route v) e
                                  | REMOVE_FACE => set_inherited (re_inheritedRoutes e) e end).
  assert (match ru_action v with REGISTER => <[ru_name v := addInheritedRoute (ru_route v) e]> (m_rib rib)
    | UNREGISTER => <[ru_name v := removeInheritedRoute (ru_route v) e]> (m_rib rib) | REMOVE_FACE => m_rib rib end =
    <[ru_name v := e']> (m_rib rib)) as Em.
  { unfold e'. destruct (ru_action v); [done..|]. rewrite insert_id; [done|]. rewrite Ee. by destruct e. }
  rewrite Em in E. clear Em. set (rib1 := set_m_rib (<[ru_name v := e']> (m_rib rib)) rib).
  assert (rib_ok rib1) as Hok1 by (unfold rib1, e'; destruct (ru_action v); by apply rib_ok_inherited).
  destruct (IH rib1 m' Hok1 E) as [Hok' Hr]. split; [exact Hok'|]. rewrite Hr. simpl. rewrite fmap_insert. apply insert_id.
  rewrite lookup_fmap, Ee. unfold e'. by destruct (ru_action v).
Qed.

Lemma applyUpdate_ok u inh rib rib' : rib_ok rib -> applyUpdate u inh rib = Some rib' ->
  rib_ok rib' /\ rib_cancelled rib' = rib_cancelled rib ++ event_of (route_at (ru_name u) (route_key (ru_route u)) rib) /\
  forall n k, route_at n k rib' = if decide ((n, k) = target u) then match ru_action u with REGISTER => Some (ru_route u) | _ => None end
                                  else route_at n k rib.
Proof.
  intros Hok E. unfold applyUpdate in E.
  destruct (match ru_action u with REGISTER => _ | _ => _ end) as [rib1|] eqn:E1 in E; [|done]. cbn [mbind option_bind] in E.
  destruct (modifyInheritedRoutes inh (m_rib rib1)) as [m'|] eqn:E2; [|done]. injection E as <-. simpl.
  assert (rib_ok rib1 /\ re_routes <$> m_rib rib1 = abs_step (re_routes <$> m_rib rib)
    match ru_action u with REGISTER => Insert (ru_name u) (ru_route u) | _ => Erase (ru_name u) (ru_route u) end /\
    rib_cancelled rib1 = rib_cancelled rib ++ event_of (route_at (ru_name u) (route_key (ru_route u)) rib)) as (Hok1 & Hr & Hc).
  { destruct (ru_action u); [destruct (rib_step_ok (Insert (ru_name u) (ru_route u)) rib Hok) as (rib2 & E3 & Hok2 & Hr)
      |destruct (rib_step_ok (Erase (ru_name u) (ru_route u)) rib Hok) as (rib2 & E3 & Hok2 & Hr)..]; simpl in E3;
      assert (rib2 = rib1) as -> by congruence; split_and!; try done; [by apply insert_cancelled|by apply erase_cancelled..]. }
  destruct (modifyInherited_routes inh rib1 m' Hok1 E2) as [Hok2 Hr2]. split_and!; [done|done|]. intros n k.
  assert (route_at n k (set_m_rib m' rib1) = route_at n k rib1) as -> by (unfold route_at; simpl; by rewrite Hr2).
  destruct (ru_action u); [by apply route_at_insert|by apply route_at_erase..].
Qed.

Lemma computeUpdate_cancels rib u (st st' : FibUpdater) : computeUpdates nth (m_rib rib) [u] st = Some st' ->
  fu_cancelled st' = fu_cancelled st ++ match ru_action u with REGISTER => [] | _ => event_of (route_at (ru_name u) (route_key (ru_route u)) rib) end.
Proof.
  set (P c := fun st : FibUpdater => fu_cancelled st = c).
  assert (forall c (v : FibUpdate) st, P c st -> P c (addFibUpdate v st)) as P1 by (intros c v st0 <-; unfold P, addFibUpdate; by destruct (_ =? _)).
  assert (forall c u0 st, P c st -> P c (push_inherited u0 st)) as P2 by done.
  rewrite <-rib_find_at. unfold computeUpdates, computeUpdate. cbn [foldl mbind option_bind].
  assert (forall st', computeUpdatesForUnregistration nth (m_rib rib) u st = Some st' ->
    fu_cancelled st' = fu_cancelled st ++ event_of (rib_find (ru_name u) (ru_route u) rib)) as Hun.
  { clear st'. intros st' E. unfold computeUpdatesForUnregistration, rib_find in *. destruct (m_rib rib !! ru_name u) as [e|]; cbn [mbind option_bind];
      [|injection E as <-; by rewrite app_nil_r].
    unfold eraseRoute in E. destruct (findRoute (ru_route u) e) as [r0|]; [|injection E as <-; by rewrite app_nil_r].
    destruct (createFibUpdatesForErasedRoute _ _ _ _ _) as [st1|] eqn:E1; [|done].
    eapply (erasedRoute_preserves (P _) (P1 _) (P2 _)) in E1; [|done]. unfold P in E1. cbn [fu_cancelled] in E1.
    cbn [mbind option_bind] in E. set (o := match getRouteWithSecondLowestCostByFaceId _ _ _ with Some _ => _ | None => _ end) in E.
    assert (forall st2, o = Some st2 -> P (fu_cancelled st1) st2) as H2'.
    { intros st2. unfold o. destruct (getRouteWithSecondLowestCostByFaceId _ _ _); [|by intros [= <-]].
      eapply (newRoute_preserves (P _) (P1 _) (P2 _)). done. }
    destruct o as [st2|]; [|done]. cbn [mbind option_bind] in E. injection E as <-. specialize (H2' st2 eq_refl). unfold P in H2'.
    unfold event_of. cbn [mbind option_bind]. rewrite E1 in H2'. rewrite <-H2'. destruct (getNRoutes e =? 1); [|done]. unfold createFibUpdatesForErasedRibEntry.
    apply (P_foldl (P (fu_cancelled st2))); [|done]. intros st3 x Hx. by apply P1. }
  destruct (ru_action u).
  - intros E. rewrite app_nil_r. unfold computeUpdatesForRegistration in E. destruct (m_rib rib !! _) as [e|].
    + destruct (findRoute _ e); [by eapply (updatedRoute_preserves (P _) (P1 _) (P2 _)) in E|by eapply (newRoute_preserves (P _) (P1 _) (P2 _)) in E].
    + by eapply (new_preserves (P _) (P1 _) (P2 _)) in E.
  - apply Hun.
  - destruct (computeUpdatesForUnregistration nth (m_rib rib) u st) as [st1|] eqn:E1; [|done]. cbn [mbind option_bind]. intros [= <-]. simpl. exact (Hun st1 eq_refl).
Qed.

(** ** The steps of the queue *)

(** The updates that have not completed, the current one first. *)
Definition pending q : list RibUpdate := option_list (q_current q) ++ m_updateBatches q.

Inductive qstep : RibQueue -> RibQueue -> Prop :=
  | q_quiet q st cmds : fu_cancelled st = fu_cancelled (q_updater q) ->
      qstep q (mkRibQueue (q_rib q) st (m_updateBatches q) (q_current q) cmds (q_completed q))
  | q_start q u rest st cmds : q_current q = None -> m_updateBatches q = u :: rest ->
      fu_cancelled st = fu_cancelled (q_updater q) ++
        match ru_action u with REGISTER => [] | _ => event_of (route_at (ru_name u) (route_key (ru_route u)) (q_rib q)) end ->
      qstep q (mkRibQueue (q_rib q) st rest (Some u) cmds (q_completed q))
  | q_success q u rib inh : q_current q = Some u -> applyUpdate u inh (q_rib q) = Some rib ->
      qstep q (mkRibQueue rib (q_updater q) (m_updateBatches q) None (q_commands q) (q_completed q ++ [(u, true)]))
  | q_failure q u : q_current q = Some u ->
      qstep q (mkRibQueue (q_rib q) (q_updater q) (m_updateBatches q) None (q_commands q) (q_completed q ++ [(u, false)])).

Lemma complete_steps o q q' : complete o q = Some q' -> rtc qstep q q'.
Proof.
  unfold complete. destruct o as [|inh|code], (q_current q) as [u|] eqn:Ec; try (intros [= <-]; apply rtc_refl).
  - destruct (applyUpdate u inh (q_rib q)) as [rib|] eqn:Ea; [|done]. intros [= <-]. eapply rtc_once, q_success; done.
  - intros [= <-]. by apply rtc_once, q_failure.
Qed.

Lemma sendBatch_steps fuel : forall q q', sendBatchFromQueue nth fuel q = Some q' -> rtc qstep q q'.
Proof.
  induction fuel as [|fuel IH]; intros q q' E; simpl in E; [done|].
  destruct (m_updateBatches q) as [|u rest] eqn:Eb; [injection E as <-; apply rtc_refl|].
  destruct (q_current q) eqn:Ec; [injection E as <-; apply rtc_refl|]. unfold computeAndSendFibUpdates in E.
  destruct (computeUpdates _ _ _ _) as [st|] eqn:Eu; [|done]. cbn [mbind option_bind] in E.
  destruct (sendUpdatesForBatchFaceId st) as [cmds o]. set (q1 := mkRibQueue _ _ _ _ _ _) in E.
  destruct (complete o q1) as [q2|] eqn:E2; [|done]. cbn [mbind option_bind] in E.
  apply (rtc_l _ _ q1); [|etrans; [by eapply complete_steps|by apply IH]].
  apply q_start; [done|done|]. by apply computeUpdate_cancels in Eu.
Qed.

Lemma onUpdateError_cancelled v code t (st st' : FibUpdater) x : onUpdateError v code t st = Some (st', x) -> fu_cancelled st' = fu_cancelled st.
Proof. unfold onUpdateError, finishNonBatch. intros E. repeat case_match; by simplify_eq. Qed.

Lemma onResponse_steps cmd code q q' : onResponse nth cmd code q = Some q' -> rtc qstep q q'.
Proof.
  unfold onResponse. destruct (match code with Some _ => _ | None => _ end) as [[st [cmds o]]|] eqn:E1; [|done]. cbn [mbind option_bind].
  set (q1 := mkRibQueue _ _ _ _ _ _). destruct (complete o q1) as [q2|] eqn:E2; [|done]. cbn [mbind option_bind]. intros E3.
  apply (rtc_l _ _ q1); [|etrans; [by eapply complete_steps|by eapply sendBatch_steps]].
  apply q_quiet. destruct code as [c|]; [by apply onUpdateError_cancelled in E1|].
  injection E1 as E1. unfold onUpdateSuccess, finishNonBatch in E1. case_match; by simplify_eq.
Qed.

(** Updates put at the end of the queue. *)
Definition enqueueAll us q : RibQueue := foldl (fun q u => addUpdateToQueue u q) q us.

Lemma enqueue_eq us q : enqueueAll us q =
  mkRibQueue (q_rib q) (q_updater q) (m_updateBatches q ++ us) (q_current q) (q_commands q) (q_completed q).
Proof.
  unfold enqueueAll. revert q. induction us as [|u us IH]; intros q; simpl; [rewrite app_nil_r; by destruct q|].
  rewrite IH. simpl. by rewrite <-app_assoc.
Qed.

Lemma enqueue_pending us q : pending (enqueueAll us q) = pending q ++ us.
Proof. rewrite enqueue_eq. unfold pending. simpl. by rewrite app_assoc. Qed.

(** Completed updates leave the queue one by one. *)
Lemma qstep_count q q' : rtc qstep q q' ->
  exists l : list (RibUpdate * bool), q_completed q' = q_completed q ++ l /\ (length (pending q) = length l + length (pending q'))%nat.
Proof.
  induction 1 as [q|q1 q2 q3 Hs _ (l & Hl & Hlen)]; [exists []; by rewrite app_nil_r|].
  destruct Hs as [q st cmds _|q u rest st cmds Hc Hb _|q u rib inh Hc _|q u Hc]; unfold pending in *; rewrite ?Hc, ?Hb; simpl in *.
  - by exists l.
  - by exists l.
  - exists ((u, true) :: l). by rewrite Hl, <-app_assoc, Hlen.
  - exists ((u, false) :: l). by rewrite Hl, <-app_assoc, Hlen.
Qed.

(** ** Routes whose removal is pending *)

Definition removes n k u : Prop := isRemoval u /\ target u = (n, k).
Definition removed_later n k l : Prop := Exists (removes n k) l.

(** [P] holds of each registration of a queue, or a later update removes the route. *)
Fixpoint later_ok (P : Name -> Route -> Prop) l : Prop :=
  match l with
  | [] => True
  | u :: l => (ru_action u = REGISTER -> P (ru_name u) (ru_route u) \/ removed_later (ru_name u) (route_key (ru_route u)) l) /\ later_ok P l
  end.

(** [P] holds of the routes of the RIB and of those to come, except where a removal is to come. *)
Definition guarded (P : Name -> Route -> Prop) q : Prop :=
  (forall n k r, route_at n k (q_rib q) = Some r -> P n r \/ removed_later n k (pending q)) /\ later_ok P (pending q).

(** Of all routes, in the RIB and to come. *)
Definition all_routes (P : Name -> Route -> Prop) q : Prop :=
  (forall n k r, route_at n k (q_rib q) = Some r -> P n r) /\
  (forall u, u ∈ pending q -> ru_action u = REGISTER -> P (ru_name u) (ru_route u)).

Lemma route_at_key n k rib r : route_at n k rib = Some r -> route_key r = k.
Proof. unfold route_at. destruct (_ !! n) as [l|]; cbn [mbind option_bind]; [|done]. by intros [_ ?]%find_key_Some. Qed.

Lemma covered_app n k l us : removed_later n k (l ++ us) <-> removed_later n k l \/ removed_later n k us.
Proof. apply Exists_app. Qed.

Lemma later_app P P' l us : Forall isRemoval us -> later_ok P l ->
  (forall u, u ∈ l -> ru_action u = REGISTER -> P (ru_name u) (ru_route u) ->
     P' (ru_name u) (ru_route u) \/ removed_later (ru_name u) (route_key (ru_route u)) us) -> later_ok P' (l ++ us).
Proof.
  intros Hus. induction l as [|u l IH]; intros Hl HP; simpl in *.
  - clear HP Hl. induction Hus as [|u us Hu Hus IH]; simpl; [done|]. split; [by intros ?|done].
  - destruct Hl as [Hu Hl]. split.
    + intros Hr. rewrite covered_app. destruct (Hu Hr) as [Hp|]; [|tauto]. destruct (HP u) as [|]; [by left|done|done|tauto|tauto].
    + apply IH; [done|]. intros v Hv. apply HP. by right.
Qed.

Lemma later_mono P P' l : later_ok P l -> (forall u, u ∈ l -> ru_action u = REGISTER -> P (ru_name u) (ru_route u) ->
  P' (ru_name u) (ru_route u)) -> later_ok P' l.
Proof. intros Hl HP. rewrite <-(app_nil_r l). eapply later_app; [constructor|done|]. intros u Hu Hr Hp. left. by apply HP. Qed.

Lemma later_register P l u : later_ok P l -> ru_action u = REGISTER -> P (ru_name u) (ru_route u) -> later_ok P (l ++ [u]).
Proof.
  intros Hl Hr Hp. induction l as [|v l IH]; simpl in *; [by split; [left|]|]. destruct Hl as [Hv Hl]. split; [|by apply IH].
  intros Hrv. destruct (Hv Hrv); [by left|]. right. apply covered_app. by left.
Qed.

(** Removals are added, and a property is weakened where they apply. *)
Lemma guarded_removals P P' us q : guarded P q -> Forall isRemoval us ->
  (forall n k r, route_at n k (q_rib q) = Some r -> P n r -> P' n r \/ removed_later n k us) ->
  (forall u, u ∈ pending q -> ru_action u = REGISTER -> P (ru_name u) (ru_route u) ->
     P' (ru_name u) (ru_route u) \/ removed_later (ru_name u) (route_key (ru_route u)) us) ->
  guarded P' (enqueueAll us q).
Proof.
  intros [Hr Hl] Hus Hr' Hl'. split; rewrite enqueue_pending; [|by eapply later_app].
  rewrite enqueue_eq. simpl. intros n k r Hn. rewrite covered_app. destruct (Hr n k r Hn) as [Hp|]; [|tauto].
  destruct (Hr' n k r Hn Hp); tauto.
Qed.

Lemma guarded_mono P P' q : guarded P q -> (forall n r, P n r -> P' n r) -> guarded P' q.
Proof. intros Hg HP. apply (guarded_removals P P' []); [done|constructor|intros; left; auto|intros; left; auto]. Qed.

Lemma guarded_register P q u : guarded P q -> ru_action u = REGISTER -> P (ru_name u) (ru_route u) -> guarded P (enqueueAll [u] q).
Proof.
  intros [Hr Hl] Hu Hp. split; rewrite enqueue_pending; [|by apply later_register]. rewrite enqueue_eq. simpl. intros n k r Hn.
  destruct (Hr n k r Hn); [by left|]. right. apply covered_app. by left.
Qed.

(** Failures of removals are excluded. *)
Definition removals_succeed q : Prop := Forall (fun c => isRemoval c.1 -> c.2 = true) (q_completed q).

Lemma covered_tail u l : ru_action u = REGISTER -> forall n k, removed_later n k (u :: l) -> removed_later n k l.
Proof. intros Hu n k [[Hr _]|Hc]%Exists_cons; [done|exact Hc]. Qed.

Lemma guarded_step P q q' : qstep q q' -> removals_succeed q' -> rib_ok (q_rib q) -> guarded P q -> guarded P q'.
Proof.
  intros Hs Hc Hok [Hr Hl]. destruct Hs as [q st cmds _|q u rest st cmds Hcur Hb _|q u rib inh Hcur Ha|q u Hcur];
    unfold guarded, pending in *; simpl in *; [done|by rewrite Hcur, Hb in *|..]; rewrite Hcur in *; simpl in *; destruct Hl as [Hu Hl].
  - split; [|done]. destruct (applyUpdate_ok _ _ _ _ Hok Ha) as (_ & _ & Hat). intros n k r. rewrite Hat. case_decide as Hd.
    + injection Hd as -> ->. destruct (ru_action u) eqn:Eu; [|done..]. intros [= <-]. by apply Hu.
    + intros Hn. destruct (Hr n k r Hn) as [|[[_ ?]|Hcov]%Exists_cons]; [by left|by destruct Hd|by right].
  - split; [|done]. unfold removals_succeed in Hc. simpl in Hc. apply Forall_app in Hc as [_ [Hc _]%Forall_cons]. simpl in Hc.
    assert (ru_action u = REGISTER) as Hreg. { unfold isRemoval in Hc. destruct (ru_action u); [done|by specialize (Hc ltac:(done))..]. }
    intros n k r Hn. destruct (Hr n k r Hn) as [|Hcov]; [by left|]. right. by eapply covered_tail.
Qed.

Lemma all_routes_step P q q' : qstep q q' -> rib_ok (q_rib q) -> all_routes P q -> rib_ok (q_rib q') /\ all_routes P q'.
Proof.
  intros Hs Hok [Hr Hl]. destruct Hs as [q st cmds _|q u rest st cmds Hcur Hb _|q u rib inh Hcur Ha|q u Hcur];
    unfold all_routes, pending in *; simpl in *; [done|by rewrite Hcur, Hb in *|..]; rewrite Hcur in *; simpl in *.
  - destruct (applyUpdate_ok _ _ _ _ Hok Ha) as (Hok' & _ & Hat). split_and!; [done| |intros v Hv; apply Hl; by right].
    intros n k r. rewrite Hat. case_decide as Hd; [|apply Hr]. injection Hd as -> ->. destruct (ru_action u) eqn:Eu; [|done..].
    intros [= <-]. apply Hl; [by left|done].
  - split_and!; [done|done|]. intros v Hv; apply Hl; by right.
Qed.

(** ** The events of routes *)

Section Events.
Context (events : gmap Z (Z * ManagerEvent)) (next : Z).

(** The event of a route, if it is still scheduled, is the expiration of the route. *)
Definition owned n r : Prop := forall id, r_expirationEvent r = Some id ->
  id < next /\ forall t ev, events !! id = Some (t, ev) -> exists r', ev = RouteExpiration n r' /\ route_key r' = route_key r.

(** A route that expires has its event, at its time. *)
Definition live (cn : list Z) n r : Prop := forall t, r_expires r = Some t ->
  exists id r', r_expirationEvent r = Some id /\ events !! id = Some (t, RouteExpiration n r') /\ route_key r' = route_key r /\ id ∉ cn.

(** The ids of the events of queued registrations. *)
Definition ids l : list Z := omap (fun u => match ru_action u with REGISTER => r_expirationEvent (ru_route u) | _ => None end) l.

(** Events are numbered in the order of the queue, after those of the RIB. *)
Definition ordered q : Prop :=
  StronglySorted Z.lt (ids (pending q)) /\
  forall n k r id, route_at n k (q_rib q) = Some r -> r_expirationEvent r = Some id -> Forall (Z.lt id) (ids (pending q)).

Lemma ids_elem u l id : u ∈ l -> ru_action u = REGISTER -> r_expirationEvent (ru_route u) = Some id -> id ∈ ids l.
Proof. intros Hu Hr Hid. apply list_elem_of_omap. exists u. by rewrite Hr. Qed.

Lemma ordered_step q q' : qstep q q' -> rib_ok (q_rib q) -> ordered q -> ordered q'.
Proof.
  intros Hs Hok [Hs1 Hf]. destruct Hs as [q st cmds _|q u rest st cmds Hcur Hb _|q u rib inh Hcur Ha|q u Hcur];
    unfold ordered, pending in *; simpl in *; [done|by rewrite Hcur, Hb in *|..]; rewrite Hcur in *; simpl in *.
  - destruct (applyUpdate_ok _ _ _ _ Hok Ha) as (_ & _ & Hat).
    assert (StronglySorted Z.lt (ids (m_updateBatches q)) /\
      forall id, ru_action u = REGISTER -> r_expirationEvent (ru_route u) = Some id -> Forall (Z.lt id) (ids (m_updateBatches q))) as [Hs2 Hu].
    { revert Hs1. unfold ids. simpl. destruct (ru_action u); [destruct (r_expirationEvent _)|..]; simpl; try (by split).
      intros [Hs2 Hlt]%StronglySorted_inv. split; [done|]. by intros id _ [= <-]. }
    split; [done|]. intros n k r id. rewrite Hat. case_decide.
    + destruct (ru_action u) eqn:Eu; [|done..]. intros [= <-]. by apply Hu.
    + intros Hn Hid. specialize (Hf n k r id Hn Hid). revert Hf. unfold ids. simpl.
      destruct (ru_action u); [destruct (r_expirationEvent (ru_route u))|..]; simpl; try done. by intros [_ ?]%Forall_cons.
  - assert (forall id, Forall (Z.lt id) (ids (u :: m_updateBatches q)) -> Forall (Z.lt id) (ids (m_updateBatches q))) as Htl.
    { intros id. unfold ids. simpl. destruct (ru_action u); [destruct (r_expirationEvent (ru_route u))|..]; simpl; try done. by intros [_ ?]%Forall_cons. }
    split; [|intros n k r id Hn Hid; apply Htl; by eapply Hf]. revert Hs1. unfold ids. simpl.
    destruct (ru_action u); [destruct (r_expirationEvent (ru_route u))|..]; simpl; try done. by intros [? _]%StronglySorted_inv.
Qed.

Lemma live_cancel cn cn' (new : list Z) n r : live cn n r -> (forall id, id ∈ cn' -> id ∈ cn \/ id ∈ new) ->
  (forall id t r', r_expirationEvent r = Some id -> id ∈ new -> events !! id = Some (t, RouteExpiration n r') ->
     route_key r' = route_key r -> False) -> live cn' n r.
Proof.
  intros Hl Hcn Hd t Ht. destruct (Hl t Ht) as (id & r' & Hid & He & Hk & Hnc). exists id, r'. split_and!; [done..|].
  intros [|Hin]%Hcn; [done|]. by eapply Hd.
Qed.

Lemma elem_event_of id o : id ∈ event_of o <-> exists r, o = Some r /\ r_expirationEvent r = Some id.
Proof.
  unfold event_of. destruct o as [r|]; simpl; [|split; [by intros ?%not_elem_of_nil|by intros (? & ? & _)]].
  destruct (r_expirationEvent r) eqn:E; simpl.
  - rewrite list_elem_of_singleton. split; [intros ->; eauto|]. intros (? & [= <-] & ?). congruence.
  - split; [by intros ?%not_elem_of_nil|]. intros (? & [= <-] & ?). congruence.
Qed.

(** The event of a route of the RIB is not that of a route elsewhere. *)
Lemma event_elsewhere q n0 k0 n r id t r' : all_routes owned q -> id ∈ event_of (route_at n0 k0 (q_rib q)) ->
  events !! id = Some (t, RouteExpiration n r') -> route_key r' = route_key r -> (n, route_key r) = (n0, k0).
Proof.
  intros [Hr _] (r0 & Hr0 & Hid)%elem_event_of He Hk. pose proof (route_at_key _ _ _ _ Hr0) as <-.
  destruct (Hr _ _ _ Hr0 id Hid) as [_ Ho]. destruct (Ho _ _ He) as (r2 & [= -> <-] & Hk2). congruence.
Qed.

Lemma event_before q n0 k0 u id : ordered q -> id ∈ event_of (route_at n0 k0 (q_rib q)) -> u ∈ pending q ->
  ru_action u = REGISTER -> r_expirationEvent (ru_route u) <> Some id.
Proof.
  intros [_ Ho] (r0 & Hr0 & Hid)%elem_event_of Hu Hreg Hid'. specialize (Ho _ _ _ _ Hr0 Hid).
  rewrite Forall_forall in Ho. specialize (Ho id (ids_elem _ _ _ Hu Hreg Hid')). lia.
Qed.

Lemma live_step q q' : qstep q q' -> removals_succeed q' -> rib_ok (q_rib q) -> all_routes owned q -> ordered q ->
  guarded (live (cancelled q)) q -> guarded (live (cancelled q')) q'.
Proof.
  intros Hs Hc Hok Hown Hord Hg. pose proof (guarded_step _ _ _ Hs Hc Hok Hg) as Hg'.
  destruct Hs as [q st cmds Hst|q u rest st cmds Hcur Hb Hst|q u rib inh Hcur Ha|q u Hcur]; unfold cancelled in *; simpl in *.
  - by rewrite Hst.
  - destruct Hg' as [Hr Hl]. unfold pending in *. simpl in *. rewrite Hst. set (new := match ru_action u with REGISTER => [] | _ => _ end) in *.
    assert (forall id, id ∈ rib_cancelled (q_rib q) ++ fu_cancelled (q_updater q) ++ new ->
      id ∈ rib_cancelled (q_rib q) ++ fu_cancelled (q_updater q) \/ id ∈ new) as Hsub by (intros id; rewrite !elem_of_app; tauto).
    split; simpl.
    + intros n k r Hn. pose proof (route_at_key _ _ _ _ Hn) as <-. destruct (Hr n _ r Hn) as [Hlive|]; [|by right].
      destruct (decide (isRemoval u /\ target u = (n, route_key r))) as [Hd|Hd]; [right; by left|]. left.
      eapply live_cancel; [exact Hlive|exact Hsub|].
      intros id t r' Hid Hin He Hk. unfold new in Hin. destruct (ru_action u) eqn:Eu; [by apply not_elem_of_nil in Hin|..];
        (eapply (event_elsewhere q) in Hin; [|done..]); apply Hd; (split; [unfold isRemoval; by rewrite Eu|done]).
    + destruct Hl as [Hu Hl]. assert (later_ok (live (rib_cancelled (q_rib q) ++ fu_cancelled (q_updater q))) (u :: rest)) as Hall by done.
      apply (later_mono _ _ _ Hall). intros v Hv Hreg Hlive. eapply live_cancel; [exact Hlive|exact Hsub|].
      intros id t r' Hid Hin _ _. unfold new in Hin. destruct (ru_action u) eqn:Eu; [by apply not_elem_of_nil in Hin|..];
        (eapply (event_before q _ _ v) in Hin; [done|done| |done]); unfold pending; by rewrite Hcur, Hb.
  - set (q' := mkRibQueue rib _ _ _ _ _) in *. destruct (applyUpdate_ok _ _ _ _ Hok Ha) as (_ & Hcn & Hat).
    assert (forall id, id ∈ rib_cancelled rib ++ fu_cancelled (q_updater q) ->
      id ∈ rib_cancelled (q_rib q) ++ fu_cancelled (q_updater q) \/ id ∈ event_of (route_at (ru_name u) (route_key (ru_route u)) (q_rib q))) as Hsub.
    { intros id. rewrite Hcn, !elem_of_app. tauto. }
    assert (forall v, v ∈ pending q' -> v ∈ pending q) as Hin.
    { intros v Hv. unfold pending in *. rewrite Hcur. simpl in *. by right. }
    apply (guarded_removals _ (live (rib_cancelled rib ++ fu_cancelled (q_updater q))) []) in Hg'; [exact Hg'|constructor|..].
    + intros n k r. simpl. rewrite Hat. intros Hn Hlive. left. eapply live_cancel; [exact Hlive|exact Hsub|]. intros id t r' Hid Hin' He Hk.
      case_decide as Hd.
      * destruct (ru_action u) eqn:Eu; [|done..]. injection Hn as <-.
        eapply (event_before q _ _ u) in Hin'; [done|done| |done]. unfold pending. rewrite Hcur. by left.
      * pose proof (route_at_key _ _ _ _ Hn) as <-. eapply (event_elsewhere q) in Hin'; [|done..]. done.
    + intros v Hv Hreg Hlive. left. eapply live_cancel; [exact Hlive|exact Hsub|]. intros id t r' Hid Hin' _ _.
      eapply (event_before q _ _ v) in Hin'; [done|done|by apply Hin|done].
  - done.
Qed.
End Events.

(** ** The invariant *)

Definition in_range n r : Prop := i64 (r_annExpires r) = r_annExpires r.

Definition qinv (events : gmap Z (Z * ManagerEvent)) (next : Z) (faces : gset Z) q : Prop :=
  rib_ok (q_rib q) /\ guarded (fun _ r => r_faceId r ∈ faces) q /\ guarded (live events (cancelled q)) q /\
  all_routes (owned events next) q /\ all_routes in_range q /\ ordered q /\ (forall id, id ∈ cancelled q -> id < next).

Lemma succeed_before q q' : rtc qstep q q' -> removals_succeed q' -> removals_succeed q.
Proof. intros (l & Hl & _)%qstep_count. unfold removals_succeed. rewrite Hl. by intros [? _]%Forall_app. Qed.

Lemma cancelled_step events next q q' : qstep q q' -> rib_ok (q_rib q) -> all_routes (owned events next) q ->
  (forall id, id ∈ cancelled q -> id < next) -> forall id, id ∈ cancelled q' -> id < next.
Proof.
  intros Hs Hok [Ho _] Hcn id.
  assert (forall n k, id ∈ event_of (route_at n k (q_rib q)) -> id < next) as Hev.
  { intros n k (r & Hr & Hid)%elem_event_of. by destruct (Ho _ _ _ Hr id Hid). }
  specialize (Hcn id). unfold cancelled in *. destruct Hs as [q st cmds Hst|q u rest st cmds Hcur Hb Hst|q u rib inh Hcur Ha|q u Hcur]; simpl in *.
  - by rewrite Hst.
  - rewrite Hst, !elem_of_app in *. intros [Hin|[Hin|Hin]]; [auto..|]. destruct (ru_action u); [by apply not_elem_of_nil in Hin|by eapply Hev..].
  - destruct (applyUpdate_ok _ _ _ _ Hok Ha) as (_ & -> & _). rewrite !elem_of_app in *. intros [[Hin|Hin]|Hin]; [auto|by eapply Hev|auto].
  - done.
Qed.

Lemma qinv_steps events next faces q q' : rtc qstep q q' -> removals_succeed q' -> qinv events next faces q -> qinv events next faces q'.
Proof.
  induction 1 as [q|q1 q2 q3 Hs Hsteps IH]; [done|]. intros Hc (Hok & Hf & Hl & Ho & Hr & Hord & Hcn). pose proof (succeed_before _ _ Hsteps Hc) as Hc2.
  destruct (all_routes_step _ _ _ Hs Hok Ho) as [Hok2 Ho2]. destruct (all_routes_step _ _ _ Hs Hok Hr) as [_ Hr2].
  apply IH; [done|]. split_and!; [done|by eapply guarded_step|by eapply live_step|done|done|by eapply ordered_step|].
  by eapply cancelled_step.
Qed.

Lemma all_routes_enqueue P q us : all_routes P q -> (forall u, u ∈ us -> ru_action u = REGISTER -> P (ru_name u) (ru_route u)) ->
  all_routes P (enqueueAll us q).
Proof.
  intros [Hr Hl] Hus. split; rewrite ?enqueue_pending, ?enqueue_eq; simpl; [done|]. intros u [Hu|Hu]%elem_of_app; [by apply Hl|by apply Hus].
Qed.

Lemma enqueue_cancelled us q : cancelled (enqueueAll us q) = cancelled q.
Proof. by rewrite enqueue_eq. Qed.

Lemma ids_app l us : ids (l ++ us) = ids l ++ ids us.
Proof. apply omap_app. Qed.

Lemma ids_removals us : Forall isRemoval us -> ids us = [].
Proof. induction 1 as [|u us Hu _ IH]; [done|]. unfold isRemoval in Hu. unfold ids. simpl. by destruct (ru_action u). Qed.

(** Removals are enqueued while events and faces go. *)
Lemma qinv_removals events events' next faces faces' us q : qinv events next faces q -> Forall isRemoval us ->
  events' ⊆ events ->
  (forall n k r, route_at n k (q_rib q) = Some r -> r_faceId r ∈ faces -> r_faceId r ∈ faces' \/ removed_later n k us) ->
  (forall u, u ∈ pending q -> ru_action u = REGISTER -> r_faceId (ru_route u) ∈ faces -> r_faceId (ru_route u) ∈ faces') ->
  (forall id t n r, events !! id = Some (t, RouteExpiration n r) -> events' !! id = None -> removed_later n (route_key r) us) ->
  qinv events' next faces' (enqueueAll us q).
Proof.
  intros (Hok & Hf & Hl & Ho & Hr & Hord & Hcn) Hus Hev Hfr Hfp Hgone.
  assert (forall n r, live events (cancelled q) n r -> live events' (cancelled q) n r \/ removed_later n (route_key r) us) as Hlive.
  { intros n r Hn. destruct (r_expires r) as [t|] eqn:Et; [|left; intros t; by rewrite Et].
    destruct (Hn t Et) as (id & r' & Hid & He & Hk & Hnc). destruct (events' !! id) as [x|] eqn:Ee.
    - left. intros t' Ht. assert (t' = t) as -> by congruence. exists id, r'. split_and!; [done| |done|done].
      rewrite Ee. f_equal. pose proof (lookup_weaken _ _ _ _ Ee Hev). congruence.
    - right. rewrite <-Hk. by eapply Hgone. }
  split_and!.
  - by rewrite enqueue_eq.
  - eapply guarded_removals; [exact Hf|done|exact Hfr|]. intros u Hu Hreg Hin. left. by apply Hfp.
  - rewrite enqueue_cancelled. eapply guarded_removals; [exact Hl|done| |].
    + intros n k r Hn Hlv. pose proof (route_at_key _ _ _ _ Hn) as <-. by apply Hlive.
    + intros u _ _ Hlv. by apply Hlive.
  - apply all_routes_enqueue.
    + assert (forall n r, owned events next n r -> owned events' next n r) as Hmono.
      { intros n r Hn id Hid. destruct (Hn id Hid) as [Hlt He]. split; [done|]. intros t ev Hev'. eapply He. by eapply lookup_weaken. }
      destruct Ho as [Ho1 Ho2]. split; [intros n k r Hn; apply Hmono; by eapply Ho1|intros u Hu Hreg; by apply Hmono, Ho2].
    + intros u Hu Hreg. rewrite Forall_forall in Hus. by destruct (Hus u Hu).
  - apply all_routes_enqueue; [done|]. intros u Hu Hreg. rewrite Forall_forall in Hus. by destruct (Hus u Hu).
  - destruct Hord as [H1' H2']. split; rewrite enqueue_pending, ids_app, (ids_removals us), app_nil_r by done; [done|]. by rewrite enqueue_eq.
  - by rewrite enqueue_cancelled.
Qed.

(** A registration with its event, if it expires, is enqueued. *)
Lemma qinv_register events next faces q name r (x : option (Z * ManagerEvent)) :
  qinv events next faces q -> (forall id, is_Some (events !! id) -> id < next) -> in_range name r ->
  match x with
  | None => r_expires r = None /\ r_expirationEvent r = None
  | Some (t, ev) => r_expires r = Some t /\ r_expirationEvent r = Some next /\ exists r', ev = RouteExpiration name r' /\ route_key r' = route_key r
  end ->
  qinv (match x with Some v => <[next := v]> events | None => events end) (match x with Some _ => next + 1 | None => next end)
    ({[r_faceId r]} ∪ faces) (enqueueAll [mkRibUpdate REGISTER name r] q).
Proof.
  intros (Hok & Hf & Hl & Ho & Hr & Hord & Hcn) Hlt Hrange Hx. set (events' := match x with Some v => _ | None => _ end). set (next' := match x with Some _ => _ | None => _ end).
  assert (forall id v, events !! id = Some v -> events' !! id = Some v) as Hold.
  { intros id v Hid. unfold events'. destruct x; [|done]. rewrite lookup_insert_ne; [done|]. intros <-. assert (next < next) by (apply Hlt; eauto). lia. }
  assert (forall n r0, owned events next n r0 -> owned events' next' n r0) as Howned.
  { intros n r0 Hn id Hid. destruct (Hn id Hid) as [Hid' He]. unfold next', events'. destruct x; [|done]. split; [lia|].
    intros t ev. rewrite lookup_insert_ne by lia. apply He. }
  split_and!.
  - by rewrite enqueue_eq.
  - apply guarded_register; [|done|simpl; set_solver]. eapply guarded_mono; [exact Hf|]. set_solver.
  - rewrite enqueue_cancelled. apply guarded_register; [|done|simpl].
    + eapply guarded_mono; [exact Hl|]. intros n r0 Hn t Ht. destruct (Hn t Ht) as (id & r' & Hid & He & Hk & Hnc). exists id, r'. split_and!; [done|by apply Hold|done..].
    + intros t Ht. unfold events'. destruct x as [[t' ev]|]; [|by destruct Hx; congruence]. destruct Hx as (Hex & Hid & r' & -> & Hk).
      assert (t' = t) as -> by congruence. exists next, r'. split_and!; [done|by rewrite lookup_insert_eq|done|]. intros Hin. specialize (Hcn _ Hin). lia.
  - apply all_routes_enqueue; [destruct Ho as [Ho1 Ho2]; split; [intros n k r0 Hn; apply Howned; by eapply Ho1|intros u Hu Hreg; by apply Howned, Ho2]|].
    intros u ->%list_elem_of_singleton _ id. simpl. unfold events', next'. destruct x as [[t ev]|]; [|destruct Hx as [_ ->]; done].
    destruct Hx as (_ & -> & r' & -> & Hk). intros [= <-]. split; [lia|]. intros t' ev'. rewrite lookup_insert_eq. intros [= <- <-]. by exists r'.
  - apply all_routes_enqueue; [done|]. by intros u ->%list_elem_of_singleton _.
  - destruct Hord as [H1' H2']. unfold ordered. rewrite enqueue_pending, ids_app, enqueue_eq. assert (ids [mkRibUpdate REGISTER name r] = option_list (r_expirationEvent r)) as -> by (unfold ids; simpl; by destruct (r_expirationEvent r)).
    destruct x as [[t ev]|]; [destruct Hx as (_ & -> & _)|destruct Hx as [_ ->]]; simpl; rewrite ?app_nil_r; [|done].
    assert (Forall (fun id => id < next) (ids (pending q))) as Hall.
    { rewrite Forall_forall. intros id (u & Hu & Hid)%list_elem_of_omap. destruct (ru_action u) eqn:Eu; [|done..]. destruct Ho as [_ Ho]. by destruct (Ho u Hu Eu id Hid). }
    split.
    + clear -H1' Hall. induction H1' as [|i l Hs IH Hi]; simpl; [by repeat constructor|]. apply Forall_cons in Hall as [? ?]. constructor; [by apply IH|].
      apply Forall_app. split; [done|]. by apply Forall_singleton.
    + intros n k r0 id Hn Hid. apply Forall_app. split; [by eapply H2'|]. apply Forall_singleton. destruct Ho as [Ho _]. by destruct (Ho n k r0 Hn id Hid).
  - rewrite enqueue_cancelled. intros id Hid. specialize (Hcn id Hid). unfold next'. destruct x; lia.
Qed.

(** ** Operations of the manager *)

Definition minv mgr : Prop :=
  qinv (mgr_events mgr) (mgr_nextEvent mgr) (m_registeredFaces mgr) (mgr_queue mgr) /\
  (forall id, is_Some (mgr_events mgr !! id) -> id < mgr_nextEvent mgr) /\
  length (mgr_callbacks mgr) = length (pending (mgr_queue mgr)).

(** What the callbacks leave alone. *)
Definition same_core mgr mgr' : Prop :=
  mgr_queue mgr' = mgr_queue mgr /\ m_registeredFaces mgr' = m_registeredFaces mgr /\ mgr_events mgr' = mgr_events mgr /\
  mgr_nextEvent mgr' = mgr_nextEvent mgr.

Lemma finish_core cb res mgr : same_core mgr (finish cb res mgr) /\ mgr_callbacks (finish cb res mgr) = mgr_callbacks mgr.
Proof. by destruct cb. Qed.

Lemma completed_core now (l : list (RibUpdate * bool)) : forall mgr, same_core mgr (foldl (onCompleted now) mgr l) /\
  mgr_callbacks (foldl (onCompleted now) mgr l) = drop (length l) (mgr_callbacks mgr).
Proof.
  induction l as [|c l IH]; intros mgr; [done|]. cbn [foldl length]. destruct (IH (onCompleted now mgr c)) as [(E1 & E2 & E3 & E4) E5].
  assert (same_core mgr (onCompleted now mgr c) /\ mgr_callbacks (onCompleted now mgr c) = drop 1 (mgr_callbacks mgr)) as [(F1 & F2 & F3 & F4) F5].
  { unfold onCompleted. destruct (mgr_callbacks mgr) as [|cb cbs] eqn:Ec; [by rewrite Ec|]. destruct c.2; [by destruct cb|]. by destruct cb. }
  unfold same_core. rewrite E1, E2, E3, E4, E5, F5, drop_drop. by rewrite F1, F2, F3, F4.
Qed.

(** An operation of the queue that adds the updates [us]. *)
Lemma ribDo_ok step us cbs now mgr mgr' :
  (forall q', step (mgr_queue mgr) = Some q' -> rtc qstep (enqueueAll us (mgr_queue mgr)) q') ->
  length us = length cbs -> length (mgr_callbacks mgr) = length (pending (mgr_queue mgr)) ->
  ribDo step cbs now mgr = Some mgr' ->
  rtc qstep (enqueueAll us (mgr_queue mgr)) (mgr_queue mgr') /\ m_registeredFaces mgr' = m_registeredFaces mgr /\
  mgr_events mgr' = mgr_events mgr /\ mgr_nextEvent mgr' = mgr_nextEvent mgr /\
  length (mgr_callbacks mgr') = length (pending (mgr_queue mgr')).
Proof.
  intros Hstep Hus Hlen. unfold ribDo. destruct (step (mgr_queue mgr)) as [q|] eqn:E; [|done]. cbn [mbind option_bind].
  intros [= <-]. specialize (Hstep q eq_refl). set (mgr1 := set_queue q _). set (l := drop _ _).
  destruct (completed_core now l mgr1) as [(E1 & E2 & E3 & E4) E5]. rewrite E1, E2, E3, E4, E5. split_and!; try done. simpl.
  destruct (qstep_count _ _ Hstep) as (l' & Hl & Hcount). rewrite enqueue_pending, length_app in Hcount. rewrite enqueue_eq in Hl. simpl in Hl.
  assert (l = l') as -> by (unfold l; by rewrite Hl, drop_app_length). rewrite length_drop, length_app. lia.
Qed.

Lemma apply_steps u q q' : beginApplyUpdate nth u q = Some q' -> rtc qstep (enqueueAll [u] q) q'.
Proof. apply sendBatch_steps. Qed.

Lemma removeFace_steps f q q' routes : findRoutesWithFaceId f (q_rib q) = Some routes -> beginRemoveFace nth f q = Some q' ->
  rtc qstep (enqueueAll ((fun nr => mkRibUpdate REMOVE_FACE nr.1 nr.2) <$> routes) q) q'.
Proof.
  intros Hr. unfold beginRemoveFace. rewrite Hr. cbn [mbind option_bind]. unfold enqueueAll.
  assert (forall q, foldl (fun q nr => addUpdateToQueue (mkRibUpdate REMOVE_FACE nr.1 nr.2) q) q routes =
    foldl (fun q u => addUpdateToQueue u q) q ((fun nr => mkRibUpdate REMOVE_FACE nr.1 nr.2) <$> routes)) as ->.
  { clear. induction routes as [|x l IH]; intros q; [done|]. apply IH. }
  apply sendBatch_steps.
Qed.

(** A single removal. *)
Lemma removal_ok u cb now mgr mgr' : isRemoval u -> minv mgr ->
  ribDo (beginApplyUpdate nth u) [cb] now mgr = Some mgr' -> removals_succeed (mgr_queue mgr') -> minv mgr'.
Proof.
  intros Hu (Hq & Hid & Hlen) E Hc. apply (ribDo_ok _ [u]) in E as (Hs & E1 & E2 & E3 & E4); [|intros q'; apply apply_steps|done|done].
  split_and!; rewrite ?E1, ?E2, ?E3; [|done|done]. eapply qinv_steps; [exact Hs|done|].
  eapply qinv_removals; [exact Hq|by apply Forall_singleton|done|by left|done|]. intros id t n r He Hn. congruence.
Qed.

Lemma register_ok name r cb now mgr mgr' (x : option (Z * ManagerEvent)) : minv mgr -> in_range name r ->
  match x with
  | None => r_expires r = None /\ r_expirationEvent r = None
  | Some (t, ev) => r_expires r = Some t /\ r_expirationEvent r = Some (mgr_nextEvent mgr) /\
                    exists r', ev = RouteExpiration name r' /\ route_key r' = route_key r
  end ->
  registerRoute nth name r cb now (match x with Some (t, ev) => scheduleEvent t ev mgr | None => mgr end) = Some mgr' ->
  removals_succeed (mgr_queue mgr') -> minv mgr'.
Proof.
  intros (Hq & Hid & Hlen) Hr Hx E Hc. unfold registerRoute, beginRibUpdate in E.
  apply (ribDo_ok _ [mkRibUpdate REGISTER name r]) in E as (Hs & E1 & E2 & E3 & E4);
    [|intros q'; apply apply_steps|done|by destruct x as [[t ev]|]].
  pose proof (qinv_register _ _ _ _ name r x Hq Hid Hr Hx) as Hq'.
  destruct x as [[t ev]|]; cbn [mgr_queue set_registeredFaces scheduleEvent set_events m_registeredFaces mgr_events mgr_nextEvent] in *;
    (split_and!; rewrite ?E1, ?E2, ?E3; [by eapply qinv_steps|..|done]).
  - intros id [<-|[_ He]]%lookup_insert_is_Some; [lia|]. specialize (Hid id He). lia.
  - done.
Qed.

Lemma beginAdd_ok name r expires cb now mgr mgr' : minv mgr -> in_range name r ->
  (expires = None -> match r_expires r with Some t => i64 t = t | None => r_expirationEvent r = None end) ->
  beginAddRoute nth name r expires cb now mgr = Some mgr' -> removals_succeed (mgr_queue mgr') -> minv mgr'.
Proof.
  intros Hm Hr He. unfold beginAddRoute. set (route := match expires with Some d => set_expires (Some (i64 (now + d))) r | None => r end).
  set (d := match expires with Some d => Some d | None => _ end).
  assert (in_range name route /\ route_key route = route_key r) as [Hr' Hk] by (unfold route; by destruct expires).
  assert (match d with Some d => r_expires route = Some (i64 (now + d)) | None => r_expires route = None /\ r_expirationEvent route = None end) as Hd.
  { unfold d, route. destruct expires as [d0|]; [done|]. specialize (He eq_refl). destruct (r_expires r) as [t|] eqn:Et; simpl; [|by split].
    rewrite i64_add_r, <-He. do 2 f_equal. rewrite He. lia. }
  destruct d as [d|].
  - destruct (d <=? 0).
    + destruct (ribDo _ _ _ _) as [mgr1|] eqn:E; [|done]. cbn [mbind option_bind]. intros [= <-] Hc.
      destruct (finish_core cb EXPIRED mgr1) as [(F1 & F2 & F3 & F4) F5]. rewrite F1 in Hc.
      eapply (removal_ok (mkRibUpdate UNREGISTER name route)) in E; [|done..]. unfold minv. by rewrite F1, F2, F3, F4, F5.
    + intros E Hc. eapply (register_ok name _ cb now mgr mgr' (Some (i64 (now + d), RouteExpiration name route))); [done|..|exact E|done]; [done|].
      simpl. split_and!; [done|done|by exists route].
  - intros E Hc. by eapply (register_ok name route cb now mgr mgr' None).
Qed.

(** The invariant depends on the RIB, the pending updates and the cancelled events. *)
Lemma qinv_view events next faces q q' : q_rib q' = q_rib q -> pending q' = pending q -> fu_cancelled (q_updater q') = fu_cancelled (q_updater q) ->
  qinv events next faces q -> qinv events next faces q'.
Proof. intros E1 E2 E3. unfold qinv, guarded, all_routes, ordered, cancelled. by rewrite E1, E2, E3. Qed.

Lemma topPrefix_ok n response mgr mgr' : minv mgr -> onTopPrefix n response mgr = Some mgr' -> minv mgr'.
Proof.
  intros (Hq & Hid & Hlen). unfold onTopPrefix. destruct response as [f|]; [|done]. cbn [mbind option_bind].
  set (r := mkRoute f _ _ _ _ _ _ _). set (q := mgr_queue mgr) in *. destruct (rib_insert n r (q_rib q)) as [rib|] eqn:Ei; [|done].
  intros [= <-]. split_and!; [|done|done]. simpl. set (u := mkRibUpdate REGISTER n r).
  set (q0 := mkRibQueue (q_rib q) (q_updater q) (pending q) (Some u) [] []).
  assert (qinv (mgr_events mgr) (mgr_nextEvent mgr) ({[f]} ∪ m_registeredFaces mgr) q0) as Hq0.
  { destruct Hq as (Hok & Hf & Hl & Ho & Hr & Hord & Hcn).
    assert (forall P, guarded P q -> P n r -> guarded P q0) as Hg.
    { intros P [Hr1 Hl1] Hp. split; [|split; [by left|done]]. intros m k r1 Hm. destruct (Hr1 m k r1 Hm); [by left|]. right. by right. }
    assert (forall P, all_routes P q -> P n r -> all_routes P q0) as Ha.
    { intros P [Hr1 Hl1] Hp. split; [done|]. intros v [->|Hv]%elem_of_cons Hreg; [done|by apply Hl1]. }
    split_and!; [done|apply Hg; [eapply guarded_mono; [exact Hf|set_solver]|simpl; set_solver]|by apply Hg|by apply Ha|by apply Ha|exact Hord|done]. }
  assert (qstep q0 (mkRibQueue rib (q_updater q) (pending q) None [] [(u, true)])) as Hs.
  { apply (q_success q0 u rib []); [done|]. unfold applyUpdate. simpl. rewrite Ei. simpl. by destruct rib. }
  eapply qinv_steps in Hq0; [|by apply rtc_once|repeat constructor; done]. by eapply qinv_view; [..|exact Hq0].
Qed.

Lemma findRoutes_covers f rib routes n k r : rib_ok rib -> findRoutesWithFaceId f rib = Some routes -> route_at n k rib = Some r -> r_faceId r = f ->
  removed_later n k ((fun nr => mkRibUpdate REMOVE_FACE nr.1 nr.2) <$> routes).
Proof.
  intros Hok Hr Hn Hf. destruct (findRoutesWithFaceId_ok f rib Hok) as (l' & Hl & Hin). assert (l' = routes) as -> by congruence.
  pose proof (route_at_key _ _ _ _ Hn) as <-. apply Exists_exists. exists (mkRibUpdate REMOVE_FACE n r). split; [|done].
  apply list_elem_of_fmap. exists (n, r). split; [done|]. apply Hin. unfold route_at in Hn. rewrite lookup_fmap in Hn.
  destruct (m_rib rib !! n) as [e|]; [|done]. exists e. split_and!; [done| |done]. by apply find_key_Some in Hn as [? _].
Qed.

Lemma event_ok id now mgr mgr' : minv mgr ->
  (forall t f, mgr_events mgr !! id = Some (t, FaceDestroyed f) -> forall u, u ∈ pending (mgr_queue mgr) -> ru_action u = REGISTER ->
     r_faceId (ru_route u) <> f) ->
  onEvent nth id now mgr = Some mgr' -> removals_succeed (mgr_queue mgr') -> minv mgr'.
Proof.
  intros (Hq & Hid & Hlen) Hcalm. unfold onEvent. destruct (mgr_events mgr !! id) as [[t ev]|] eqn:Ee; [|done]. cbn [mbind option_bind].
  set (mgr1 := set_events _ _ _).
  assert (forall i, is_Some (delete id (mgr_events mgr) !! i) -> i < mgr_nextEvent mgr) as Hid' by (intros i [_ Hi]%lookup_delete_is_Some; by apply Hid).
  destruct ev as [n r|f].
  - intros E Hc. apply (ribDo_ok _ [mkRibUpdate UNREGISTER n r]) in E as (Hs & E1 & E2 & E3 & E4); [|intros q'; apply apply_steps|done|done].
    split_and!; rewrite ?E1, ?E2, ?E3; [|done|done]. eapply qinv_steps; [exact Hs|done|].
    eapply qinv_removals; [exact Hq|by apply Forall_singleton|apply delete_subseteq|by left|done|].
    intros i t' n' r' He Hn. change (delete id (mgr_events mgr) !! i = None) in Hn.
    apply lookup_delete_None in Hn as [->|Hn]; [|congruence]. rewrite Ee in He. injection He as <- <- <-. by apply Exists_cons_hd.
  - unfold onFaceDestroyedEvent. destruct (findRoutesWithFaceId f (q_rib (mgr_queue mgr1))) as [routes|] eqn:Er; [|done]. cbn [mbind option_bind].
    destruct (ribDo _ _ _ _) as [mgr2|] eqn:E; [|done]. cbn [mbind option_bind]. intros [= <-] Hc. simpl in Hc.
    eapply (ribDo_ok _ ((fun nr => mkRibUpdate REMOVE_FACE nr.1 nr.2) <$> routes)) in E as (Hs & E1 & E2 & E3 & E4);
      [|intros q'; by apply removeFace_steps|by rewrite length_fmap, length_replicate|done].
    split_and!; simpl; rewrite ?E1, ?E2, ?E3; [|done|done]. eapply qinv_steps; [exact Hs|done|].
    eapply qinv_removals; [exact Hq|apply Forall_fmap, Forall_true; done|apply delete_subseteq|..].
    + intros n k r Hn Hin. destruct (decide (r_faceId r = f)) as [Hf|Hf]; [|left; set_solver]. right. eapply findRoutes_covers; [apply Hq|done|done|done].
    + intros u Hu Hreg Hin. specialize (Hcalm t f eq_refl u Hu Hreg). set_solver.
    + intros i t' n' r' He Hn. change (delete id (mgr_events mgr) !! i = None) in Hn. apply lookup_delete_None in Hn as [->|Hn]; congruence.
Qed.

(** ** Runs *)

Inductive ManagerOp :=
  | RegisterEntry (incomingFaceIdTag : option Z) (parameters : ControlParameters (C:=C))
  | UnregisterEntry (incomingFaceIdTag : option Z) (parameters : ControlParameters (C:=C))
  | TopPrefix (topPrefix : Name) (response : option Z)
  | SlAnnounce (pa : Ann) (faceId maxLifetime request : Z)
  | Validated (request : Z) (valid : bool) (sysNow : Z)
  | SlRenew (name : Name) (faceId maxLifetime request : Z)
  | FibResponse (cmd : Command (C:=C)) (code : option Z)
  | Event (id : Z)
  | FetchTimer
  | ActiveFaces (activeFaces : list Z)
  | FetchFailure
  | Notification (isDestroyed : bool) (faceId : Z).

Definition mgr_step now (op : ManagerOp) mgr : option RibManager :=
  match op with
  | RegisterEntry tag parameters => fst <$> registerEntry nth tag parameters now mgr
  | UnregisterEntry tag parameters => fst <$> unregisterEntry nth tag parameters now mgr
  | TopPrefix topPrefix response => onTopPrefix topPrefix response mgr
  | SlAnnounce pa faceId maxLifetime request => Some (slAnnounce pa faceId maxLifetime request mgr)
  | Validated request valid sysNow => onValidated nth request valid sysNow now mgr
  | SlRenew name faceId maxLifetime request => slRenew nth name faceId maxLifetime request now mgr
  | FibResponse cmd code => onFibResponse nth cmd code now mgr
  | Event id => onEvent nth id now mgr
  | FetchTimer => Some (set_fetchEvent None mgr)
  | ActiveFaces activeFaces => Some (removeInvalidFaces activeFaces now mgr)
  | FetchFailure => Some (onFetchActiveFacesFailure now mgr)
  | Notification isDestroyed faceId => Some (onNotification isDestroyed faceId now mgr)
  end.

(** What can happen: the FIB responds to commands of the current update, and events
    that are due occur. The event of a destroyed face comes when no registration
    for the face is pending. *)
Definition allowed now (op : ManagerOp) mgr : Prop :=
  match op with
  | FibResponse cmd _ => q_current (mgr_queue mgr) <> None /\ cmd_update cmd ∈ all_updates (q_updater (mgr_queue mgr))
  | Event id => due id now mgr = true /\
      forall t f, mgr_events mgr !! id = Some (t, FaceDestroyed f) ->
      forall u, u ∈ pending (mgr_queue mgr) -> ru_action u = REGISTER -> r_faceId (ru_route u) <> f
  | _ => True
  end.

(** The states that runs reach in which no removal fails. *)
Inductive reachable : RibManager -> Prop :=
  | reach_new b : reachable (set_isLocalhopEnabled b newRibManager)
  | reach_step mgr now op mgr' : reachable mgr -> allowed now op mgr -> mgr_step now op mgr = Some mgr' ->
      removals_succeed (mgr_queue mgr') -> reachable mgr'.

Lemma schedule_ok t ev mgr : minv mgr -> (forall n r, ev <> RouteExpiration n r) -> minv (scheduleEvent t ev mgr).
Proof.
  intros ((Hok & Hf & Hl & Ho & Hr & Hord & Hcn) & Hid & Hlen) Hev.
  assert (forall id v, mgr_events mgr !! id = Some v -> <[mgr_nextEvent mgr := (t, ev)]> (mgr_events mgr) !! id = Some v) as Hold.
  { intros id v He. rewrite lookup_insert_ne; [done|]. intros <-. assert (mgr_nextEvent mgr < mgr_nextEvent mgr) by (apply Hid; eauto). lia. }
  split_and!; simpl; [split_and!; try done| |done].
  - eapply guarded_mono; [exact Hl|]. intros n r Hn t' Ht. destruct (Hn t' Ht) as (id & r' & Hi & He & Hk & Hnc). exists id, r'. split_and!; [done|by apply Hold|done..].
  - destruct Ho as [Ho1 Ho2].
    assert (forall n r, owned (mgr_events mgr) (mgr_nextEvent mgr) n r -> owned (<[mgr_nextEvent mgr := (t, ev)]> (mgr_events mgr)) (mgr_nextEvent mgr + 1) n r) as Hmono.
    { intros n r Hn id Hi. destruct (Hn id Hi) as [Hlt He]. split; [lia|]. intros t' ev'. rewrite lookup_insert_ne by lia. apply He. }
    split; [intros n k r Hn; apply Hmono; by eapply Ho1|intros u Hu Hreg; by apply Hmono, Ho2].
  - intros id Hi. specialize (Hcn id Hi). lia.
  - intros id [<-|[_ He]]%lookup_insert_is_Some; [lia|]. specialize (Hid id He). lia.
Qed.

Lemma newQueue_inv b : minv (set_isLocalhopEnabled b newRibManager).
Proof.
  assert (forall n k, route_at n k (newRib (C:=C) (Ann:=Ann)) = None) as Hnone by (intros n k; unfold route_at; simpl; by rewrite fmap_empty, lookup_empty).
  split_and!; [split_and!|..]; simpl; try done; try (split; [intros n k r Hn; by rewrite Hnone in Hn|try done; by intros u ?%not_elem_of_nil]).
  - apply newRib_ok.
  - split; [constructor|]. intros n k r id Hn. simpl in Hn. by rewrite Hnone in Hn.
  - intros id Hid. by apply not_elem_of_nil in Hid.
  - intros id [v Hv]. by rewrite lookup_empty in Hv.
Qed.

Lemma min_range a b : i64 a = a -> i64 (Z.min a (i64 b)) = Z.min a (i64 b).
Proof. intros Ha. pose proof (i64_range a). pose proof (i64_range b). apply i64_id. lia. Qed.

Lemma invalid_ok now (l : list Z) mgr : minv mgr -> minv (foldl (fun mgr f => scheduleEvent now (FaceDestroyed f) mgr) mgr l).
Proof. revert mgr. induction l as [|f l IH]; intros mgr Hm; [done|]. apply IH. by apply schedule_ok. Qed.

Lemma longest_range name r mgr oldRoute : minv mgr -> findLongestPrefix name r (q_rib (mgr_queue mgr)) = Some oldRoute -> in_range name oldRoute.
Proof.
  intros (Hq & _ & _) E. destruct Hq as (_ & _ & _ & _ & [Hr _] & _ & _). unfold findLongestPrefix in E. rewrite rib_find_at in E.
  destruct (route_at name _ _) as [r0|] eqn:E0; [injection E as <-; by eapply Hr|].
  destruct (findParent name _) as [p|]; [|done]. cbn [mbind option_bind] in E. rewrite rib_find_at in E. exact (Hr _ _ _ E).
Qed.

Lemma step_inv now op mgr mgr' : minv mgr -> allowed now op mgr -> mgr_step now op mgr = Some mgr' -> removals_succeed (mgr_queue mgr') -> minv mgr'.
Proof.
  intros Hm Hal E Hc. destruct op as [tag p|tag p|n res|pa f lt k|k valid sysNow|n f lt k|cmd code|id| |faces| |d f]; simpl in E.
  - unfold registerEntry in E. destruct (_ <? _)%nat; [by injection E as <-|]. destruct (selfRegistration tag p) as [p'|]; [|done]. cbn [mbind option_bind] in E.
    destruct (beginAddRoute _ _ _ _ _ _) as [mgr1|] eqn:E1 in E; [|done]. injection E as <-. by eapply beginAdd_ok in E1.
  - unfold unregisterEntry in E. destruct (selfRegistration tag p) as [p'|]; [|done]. cbn [mbind option_bind] in E.
    destruct (beginRemoveRoute _ _ _ _ _ _) as [mgr1|] eqn:E1 in E; [|done]. injection E as <-. by eapply removal_ok in E1.
  - by eapply topPrefix_ok.
  - injection E as <-. unfold slAnnounce. by destruct (m_isLocalhopEnabled mgr).
  - unfold onValidated in E. destruct (mgr_validations mgr !! k) as [[pa [f lt]]|]; [|done]. cbn [mbind option_bind] in E.
    destruct valid; [|by injection E as <-]. assert (in_range (getAnnouncedName pa) (annRoute now sysNow pa f)) as Hr.
    { apply i64_id, i64_range. }
    eapply beginAdd_ok in E; [done|done|done| |done]. intros _. simpl. by apply min_range.
  - unfold slRenew in E. destruct (findLongestPrefix _ _ _) as [old|] eqn:Ef; [|by injection E as <-].
    apply (longest_range n _ mgr) in Ef; [|done]. destruct (r_announcement old) as [pa|]; [|by injection E as <-].
    eapply beginAdd_ok in E; [done|done|done| |done]. intros _. simpl. by apply min_range.
  - unfold onFibResponse in E. destruct Hm as (Hq & Hid & Hlen).
    apply (ribDo_ok _ []) in E as (Hs & E1 & E2 & E3 & E4); [|intros q'; apply onResponse_steps|done|done].
    split_and!; rewrite ?E1, ?E2, ?E3; [|done|done]. by eapply qinv_steps.
  - eapply event_ok; [exact Hm|apply Hal|exact E|done].
  - injection E as <-. done.
  - injection E as <-. by apply (invalid_ok now _ mgr).
  - injection E as <-. done.
  - injection E as <-. unfold onNotification. destruct d; [|done]. by apply schedule_ok.
Qed.

Lemma reachable_inv mgr : reachable mgr -> minv mgr.
Proof. induction 1 as [b|mgr now op mgr' _ IH Hal E Hc]; [apply newQueue_inv|by eapply step_inv]. Qed.

Lemma invalid_events now (fs : list Z) : forall mgr,
  let mgr' := foldl (fun mgr f => scheduleEvent now (FaceDestroyed f) mgr) mgr fs in
  mgr_queue mgr' = mgr_queue mgr /\ (forall id, id < mgr_nextEvent mgr -> mgr_events mgr' !! id = mgr_events mgr !! id) /\
  forall f, f ∈ fs -> exists id, mgr_nextEvent mgr <= id /\ mgr_events mgr' !! id = Some (now, FaceDestroyed f).
Proof.
  induction fs as [|g fs IH]; intros mgr; simpl; [split_and!; [done|done|by intros f ?%not_elem_of_nil]|].
  destruct (IH (scheduleEvent now (FaceDestroyed g) mgr)) as (Hq & Hold & Hnew). simpl in Hq, Hold, Hnew. split_and!.
  - done.
  - intros id Hid. rewrite Hold by lia. by rewrite lookup_insert_ne by lia.
  - intros f [->|Hf]%elem_of_cons.
    + exists (mgr_nextEvent mgr). split; [lia|]. rewrite Hold by lia. by rewrite lookup_insert_eq.
    + destruct (Hnew f Hf) as (id & Hle & He). exists id. split; [lia|done].
Qed.

Lemma removeInvalid_due active now mgr f : minv mgr -> f ∈ m_registeredFaces mgr -> f ∉ active ->
  exists id, due id now (removeInvalidFaces active now mgr) = true /\
    mgr_events (removeInvalidFaces active now mgr) !! id = Some (now, FaceDestroyed f).
Proof.
  intros ((_ & _ & _ & _ & _ & _ & Hcn) & _) Hf Ha. unfold removeInvalidFaces. set (fs := filter _ _).
  destruct (invalid_events now fs mgr) as (Hq & _ & Hnew). destruct (Hnew f) as (id & Hle & He).
  { unfold fs. apply list_elem_of_filter. split; [by rewrite elem_of_list_to_set|]. rewrite merge_sort_Permutation. by apply elem_of_elements. }
  exists id. split; [|exact He]. unfold due. simpl. rewrite He, Hq, Z.leb_refl. simpl. rewrite bool_decide_eq_false_2; [done|].
  intros Hin. specialize (Hcn id Hin). lia.
Qed.

(** ** What runs guarantee *)

(** C15: in every run of the manager in which no removal of a route fails and no
    face is removed while a registration for it is pending, each queued update has
    its callback, and each route of the RIB has its removal in the queue, or its
    face is among the registered faces and its expiration, if it expires, is
    scheduled at its time. So whenever the queue is idle and no event is due, no
    route has outlived its expiration, and a list of active faces leads to the
    removal of each face that has a route and is not active. *)
Theorem routes_attended mgr : reachable mgr ->
  length (mgr_callbacks mgr) = length (pending (mgr_queue mgr)) /\
  (forall n k r, route_at n k (q_rib (mgr_queue mgr)) = Some r ->
     removed_later n k (pending (mgr_queue mgr)) \/
     r_faceId r ∈ m_registeredFaces mgr /\
     forall t, r_expires r = Some t -> exists id r', mgr_events mgr !! id = Some (t, RouteExpiration n r') /\ route_key r' = k /\
       id ∉ cancelled (mgr_queue mgr)) /\
  forall now, idle (mgr_queue mgr) -> (forall id, due id now mgr = false) ->
    forall n k r, route_at n k (q_rib (mgr_queue mgr)) = Some r ->
      (forall t, r_expires r = Some t -> now < t) /\
      forall active, r_faceId r ∉ active -> exists id, due id now (removeInvalidFaces active now mgr) = true /\
        mgr_events (removeInvalidFaces active now mgr) !! id = Some (now, FaceDestroyed (r_faceId r)).
Proof.
  intros Hm%reachable_inv. pose proof Hm as ((Hok & [Hf _] & [Hl _] & _) & _ & Hlen).
  assert (forall n k r, route_at n k (q_rib (mgr_queue mgr)) = Some r ->
     removed_later n k (pending (mgr_queue mgr)) \/
     r_faceId r ∈ m_registeredFaces mgr /\
     forall t, r_expires r = Some t -> exists id r', mgr_events mgr !! id = Some (t, RouteExpiration n r') /\ route_key r' = k /\
       id ∉ cancelled (mgr_queue mgr)) as Hroutes.
  { intros n k r Hn. pose proof (route_at_key _ _ _ _ Hn) as <-. destruct (Hf n _ r Hn) as [Hin|]; [|by left].
    destruct (Hl n _ r Hn) as [Hlive|]; [|by left]. right. split; [done|]. intros t Ht. destruct (Hlive t Ht) as (id & r' & _ & He & Hk & Hnc). by exists id, r'. }
  split_and!; [done|exact Hroutes|]. intros now [Hcur Hb] Hdue n k r Hn. destruct (Hroutes n k r Hn) as [Hc|[Hface Hev]].
  { unfold pending in Hc. rewrite Hcur, Hb in Hc. by apply Exists_nil in Hc. }
  split; [|intros active Ha; by apply removeInvalid_due]. intros t Ht. destruct (Hev t Ht) as (id & r' & He & _ & Hnc). specialize (Hdue id).
  unfold due in Hdue. rewrite He, bool_decide_eq_false_2, andb_true_r in Hdue by done. lia.
Qed.

Lemma invalid_only now (fs : list Z) id x : forall mgr,
  mgr_events (foldl (fun mgr f => scheduleEvent now (FaceDestroyed f) mgr) mgr fs) !! id = Some x ->
  mgr_events mgr !! id = Some x \/ exists f, f ∈ fs /\ x = (now, FaceDestroyed f).
Proof.
  induction fs as [|g fs IH]; intros mgr He; [by left|]. destruct (IH _ He) as [He'|(f & Hf & ->)]; [|right; exists f; by split; [right|]].
  simpl in He'. apply lookup_insert_Some in He' as [[_ <-]|[_ He']]; [|by left]. right. exists g. by split; [left|].
Qed.

(** C39: a face that is destroyed while its registration is under way. The response
    to the last FIB command of the registration comes after the event of the face:
    the route is then in the RIB, its face is not among the registered faces, and
    no list of active faces leads to its removal. *)
Theorem destroyed_face_kept n r mgr now cmd st inh rib : let q := mgr_queue mgr in let f := r_faceId r in
  rib_ok (q_rib q) -> q_current q = Some (mkRibUpdate REGISTER n r) -> m_updateBatches q = [] ->
  findRoutesWithFaceId f (q_rib q) = Some [] ->
  onUpdateSuccess (cmd_update cmd) (q_updater q) = (st, ([], Success inh)) ->
  applyUpdate (mkRibUpdate REGISTER n r) inh (q_rib q) = Some rib ->
  exists mgr1 mgr2, onFaceDestroyedEvent nth f now mgr = Some mgr1 /\ onFibResponse nth cmd None now mgr1 = Some mgr2 /\
    route_at n (route_key r) (q_rib (mgr_queue mgr2)) = Some r /\ idle (mgr_queue mgr2) /\ f ∉ m_registeredFaces mgr2 /\
    forall active id t, mgr_events (removeInvalidFaces active now mgr2) !! id = Some (t, FaceDestroyed f) ->
      mgr_events mgr2 !! id = Some (t, FaceDestroyed f).
Proof.
  intros q f Hok Hcur Hb Hnone Hsucc Happ.
  assert (beginRemoveFace nth f q = Some q) as Hrm.
  { unfold beginRemoveFace. rewrite Hnone. cbn [mbind option_bind foldl]. unfold advance. rewrite Hb. cbn [sendBatchFromQueue length]. by rewrite Hb. }
  set (mgr1 := set_registeredFaces (m_registeredFaces mgr ∖ {[f]}) (set_queue q (set_callbacks (mgr_callbacks mgr ++ []) mgr))).
  assert (onFaceDestroyedEvent nth f now mgr = Some mgr1) as H1'.
  { unfold onFaceDestroyedEvent. fold q. rewrite Hnone. cbn [mbind option_bind length replicate]. unfold ribDo. fold q. rewrite Hrm.
    cbn [mbind option_bind]. by rewrite drop_all. }
  set (q2 := mkRibQueue rib st [] None (q_commands q ++ []) (q_completed q ++ [(mkRibUpdate REGISTER n r, true)])).
  assert (onResponse nth cmd None (mgr_queue mgr1) = Some q2) as H2'.
  { change (mgr_queue mgr1) with q. unfold onResponse. rewrite Hsucc. cbn [mbind option_bind]. unfold complete. cbn [q_current]. rewrite Hcur.
    cbn [q_rib]. rewrite Happ. cbn [mbind option_bind]. unfold advance. cbn [m_updateBatches q_updater]. rewrite Hb. by cbn [sendBatchFromQueue length m_updateBatches]. }
  unfold onFibResponse, ribDo. eexists mgr1, _. split; [exact H1'|]. rewrite H2'. cbn [mbind option_bind]. split; [done|]. set (mgr2 := foldl _ _ _).
  destruct (completed_core now (drop (length (q_completed (mgr_queue mgr1))) (q_completed q2)) (set_queue q2 (set_callbacks (mgr_callbacks mgr1 ++ []) mgr1)))
    as [(F1 & F2 & F3 & F4) _]. fold mgr2 in F1, F2, F3, F4. rewrite F1, F2. split_and!.
  - destruct (applyUpdate_ok _ _ _ _ Hok Happ) as (_ & _ & Hat). simpl. rewrite Hat. by rewrite decide_True.
  - done.
  - simpl. set_solver.
  - intros active id t He. apply invalid_only in He as [|(g & Hg & [= -> <-])]; [done|]. exfalso. revert Hg.
    rewrite list_elem_of_filter, merge_sort_Permutation, elem_of_elements, F2. simpl. set_solver.
Qed.

(** ** A registration with a FIB that carries out the commands *)

Notation FibMap := (gmap (Name * Z) Z).

Fixpoint mgr_serve (fuel i : nat) now mgr (fib : FibMap) : option (RibManager * FibMap) :=
  match fuel with
  | O => None
  | S fuel =>
      match q_commands (mgr_queue mgr) !! i with
      | None => Some (mgr, fib)
      | Some c => mgr ← onFibResponse nth c None now mgr; mgr_serve fuel (S i) now mgr (fib_exec fib c)
      end
  end.

Lemma ribDo_queue step cbs now mgr q' : step (mgr_queue mgr) = Some q' -> exists mgr', ribDo step cbs now mgr = Some mgr' /\
  mgr_queue mgr' = q' /\ m_registeredFaces mgr' = m_registeredFaces mgr /\ mgr_events mgr' = mgr_events mgr.
Proof.
  intros E. unfold ribDo. rewrite E. cbn [mbind option_bind]. set (l := drop _ _). set (mgr1 := set_queue _ _).
  destruct (completed_core now l mgr1) as [(E1 & E2 & E3 & _) _]. eexists. split; [done|]. by rewrite E1, E2, E3.
Qed.

Lemma mgr_serve_ok now fuel : forall i mgr fib q' fib', serve nth fuel i (mgr_queue mgr) fib = Some (q', fib') ->
  exists mgr', mgr_serve fuel i now mgr fib = Some (mgr', fib') /\ mgr_queue mgr' = q' /\ m_registeredFaces mgr' = m_registeredFaces mgr /\
    mgr_events mgr' = mgr_events mgr.
Proof.
  induction fuel as [|fuel IH]; intros i mgr fib q' fib' E; simpl in *; [done|].
  destruct (q_commands (mgr_queue mgr) !! i) as [c|]; [|injection E as <- <-; by exists mgr].
  destruct (onResponse nth c None (mgr_queue mgr)) as [q1|] eqn:E1; [|done]. cbn [mbind option_bind] in E.
  unfold onFibResponse. destruct (ribDo_queue _ [] now _ _ E1) as (mgr1 & -> & <- & F2 & F3). cbn [mbind option_bind].
  destruct (IH _ _ _ _ _ E) as (mgr' & -> & F4 & F5 & F6). exists mgr'. split_and!; [done|done|congruence..].
Qed.

Lemma own_nexthop (m : gmap Name RibEntry) n e r : m !! n = Some e -> re_routes e = [r] -> nexthop m n (r_faceId r) = Some (r_cost r).
Proof.
  intros Hn He. unfold nexthop. rewrite Hn. cbn [mbind option_bind]. unfold getRouteWithLowestCostByFaceId. rewrite He. simpl. unfold lowest_step, onFace.
  by rewrite Z.eqb_refl.
Qed.

Lemma registerRoute_completes n r cb now mgr fib : idle (mgr_queue mgr) -> consistent (q_rib (mgr_queue mgr)) fib ->
  m_rib (q_rib (mgr_queue mgr)) !! n = None ->
  exists fuel0 mgr1 q2 fib2, registerRoute nth n r cb now mgr = Some mgr1 /\
    (forall fuel, (fuel0 <= fuel)%nat -> exists mgr3, mgr_serve fuel (length (q_commands (mgr_queue mgr))) now mgr1 fib = Some (mgr3, fib2) /\
       mgr_queue mgr3 = q2 /\ m_registeredFaces mgr3 = {[r_faceId r]} ∪ m_registeredFaces mgr /\ mgr_events mgr3 = mgr_events mgr) /\
    idle q2 /\ consistent (q_rib q2) fib2 /\ re_routes <$> m_rib (q_rib q2) = <[n := [r]]> (re_routes <$> m_rib (q_rib (mgr_queue mgr))).
Proof.
  intros Hidle Hcons Hn. destruct (new_prefix_ok nth _ _ n r (fu_cancelled (q_updater (mgr_queue mgr))) Hcons Hn) as (st & rib' & Hu & _ & Ha & Hr & Hc).
  destruct (update_completes_ok nth (mkRibUpdate REGISTER n r) _ _ _ fib Hidle Hu Ha) as (q1 & q2 & Hb & Hs & Hq & Hi & _).
  unfold registerRoute, beginRibUpdate. set (mgr0 := set_registeredFaces _ mgr).
  destruct (ribDo_queue (beginApplyUpdate nth (mkRibUpdate REGISTER n r)) [cb] now mgr0 q1 Hb) as (mgr1 & -> & F1 & F2 & F3).
  exists (S (length (all_updates st))), mgr1, q2, (foldl fib_apply fib (all_updates st)). split_and!; [done| |done|by rewrite Hq|by rewrite Hq].
  intros fuel Hfuel. specialize (Hs fuel ltac:(lia)). rewrite <-F1 in Hs. destruct (mgr_serve_ok now _ _ _ _ _ _ Hs) as (mgr3 & -> & F4 & F5 & F6).
  exists mgr3. split_and!; [done|done|by rewrite F5, F2|by rewrite F6, F3].
Qed.

(** The face of a command: the given one, or that of the Interest. *)
Definition commandFace (tag : option Z) (p : ControlParameters (C:=C)) : option Z := if cp_faceId p =? 0 then tag else Some (cp_faceId p).

(** How long a registration lasts, in nanoseconds. *)
Definition lifetime (p : ControlParameters (C:=C)) : option Z :=
  match cp_expirationPeriod p with
  | Some period => if period =? 2 ^ 63 - 1 then None else Some (i64 (period * ms))
  | None => None
  end.

(** C16: a register command for a prefix without routes, of at most 32 components,
    with a lifetime that is not over, is answered with success; once the FIB has
    carried out the commands, in any sufficient number of steps, the RIB has the
    route, the FIB has the next hop of the face with its cost and all that the
    routes mean, the queue is idle, the face is registered, and the expiration of
    the route, if there is a lifetime, is scheduled for its end. *)
Theorem register_installs tag p f now mgr fib : idle (mgr_queue mgr) -> consistent (q_rib (mgr_queue mgr)) fib ->
  m_rib (q_rib (mgr_queue mgr)) !! cp_name p = None -> (length (cp_name p) <= getMaxDepth)%nat -> commandFace tag p = Some f ->
  (forall d, lifetime p = Some d -> 0 < d) ->
  exists fuel0 mgr1 fib2 r, registerEntry nth tag p now mgr = Some (mgr1, 200) /\
    (r_faceId r, r_origin r, r_cost r, r_flags r) = (f, cp_origin p, cp_cost p, cp_flags p) /\
    forall fuel, (fuel0 <= fuel)%nat -> exists mgr2, mgr_serve fuel (length (q_commands (mgr_queue mgr))) now mgr1 fib = Some (mgr2, fib2) /\
      idle (mgr_queue mgr2) /\ f ∈ m_registeredFaces mgr2 /\ consistent (q_rib (mgr_queue mgr2)) fib2 /\ fib2 !! (cp_name p, f) = Some (cp_cost p) /\
      re_routes <$> m_rib (q_rib (mgr_queue mgr2)) = <[cp_name p := [r]]> (re_routes <$> m_rib (q_rib (mgr_queue mgr))) /\
      (forall d, lifetime p = Some d -> exists id r', r_expirationEvent r = Some id /\ route_key r' = route_key r /\
         mgr_events mgr2 !! id = Some (i64 (now + d), RouteExpiration (cp_name p) r')).
Proof.
  intros Hidle Hcons Hnone Hlen Hf Hd. unfold registerEntry. rewrite (proj2 (Nat.ltb_ge _ _) Hlen).
  set (p' := mkControlParameters (cp_name p) f (cp_origin p) (cp_cost p) (cp_flags p) (cp_expirationPeriod p)).
  assert (selfRegistration tag p = Some p') as ->.
  { unfold selfRegistration, commandFace in *. destruct (cp_faceId p =? 0); [by rewrite Hf|]. injection Hf as <-. by destruct p. }
  cbn [mbind option_bind]. unfold p'. cbn [cp_name cp_faceId cp_origin cp_cost cp_flags cp_expirationPeriod]. fold (lifetime p). unfold beginAddRoute.
  set (r0 := mkRoute f (cp_origin p) (cp_cost p) (cp_flags p) None None 0 None). set (id := mgr_nextEvent mgr).
  set (r := match lifetime p with Some d => setExpirationEvent id (set_expires (Some (i64 (now + d))) r0) | None => r0 end).
  set (mgr0 := match lifetime p with Some d => scheduleEvent (i64 (now + d)) (RouteExpiration (cp_name p) (set_expires (Some (i64 (now + d))) r0)) mgr | None => mgr end).
  set (om := match (match lifetime p with Some d => _ | None => _ end) with Some d => _ | None => _ end).
  assert (om = registerRoute nth (cp_name p) r CommandDone now mgr0) as ->.
  { unfold om, r, mgr0. destruct (lifetime p) as [d|]; [|done]. specialize (Hd d eq_refl). by rewrite (proj2 (Z.leb_gt _ _) Hd). }
  assert (mgr_queue mgr0 = mgr_queue mgr) as Eq by (unfold mgr0; by destruct (lifetime p)).
  destruct (registerRoute_completes (cp_name p) r CommandDone now mgr0 fib) as (fuel0 & mgr1 & q2 & fib2 & -> & Hs & Hi & Hc & Hr); [by rewrite Eq..|].
  assert ((r_faceId r, r_origin r, r_cost r, r_flags r) = (f, cp_origin p, cp_cost p, cp_flags p)) as Efields by (unfold r; by destruct (lifetime p)).
  exists fuel0, mgr1, fib2, r. split; [done|]. split; [done|]. intros fuel Hfuel. destruct (Hs fuel Hfuel) as (mgr3 & Hserve & F1 & F2 & F3). rewrite Eq in *.
  injection Efields as Ef _ Ec _. exists mgr3. rewrite F1, F2, F3, Ef. split_and!; try done; [set_solver| |].
  - destruct Hc as (_ & _ & Hfol & _). rewrite Hfol. assert ((re_routes <$> m_rib (q_rib q2)) !! cp_name p = Some [r]) as He by (rewrite Hr; apply lookup_insert_eq).
    rewrite lookup_fmap in He. destruct (m_rib (q_rib q2) !! cp_name p) as [e|] eqn:Ee; [|done]. injection He as He.
    rewrite <-Ef, <-Ec. by eapply own_nexthop.
  - intros d Ed. unfold r, mgr0. rewrite Ed. simpl. eexists id, _. split_and!; [done| |apply lookup_insert_eq]. done.
Qed.
End Runs.

Module RibManagerExamples.
Import RibExamples FibConsistencyExamples.
#[export] Instance exampleAnnouncements : PrefixAnnouncements Z unit :=
  {| getAnnouncedName _ := [1]; getExpiration _ := 60000; getValidityPeriod _ := None; newAnnouncement _ _ := tt |}.
#[export] Instance exampleOrigins : RouteOrigins := {| ROUTE_ORIGIN_APP := 0; ROUTE_ORIGIN_PREFIXANN := 129 |}.

(** A registration by the application behind face 7 for one minute. *)
Definition parameters : ControlParameters (C:=Z) := mkControlParameters [1; 2] 0 0 10 1 (Some 60000).
Definition start : RibManager (C:=Z) (Ann:=unit) := set_isLocalhopEnabled true newRibManager.
Definition mgr1 : RibManager := default start (mgr_step secondCheapest 5 (RegisterEntry (Some 7) parameters) start).
Definition add : Command (C:=Z) := mkCommand (mkFibUpdate [1; 2] 7 10 ADD_NEXTHOP) true 0.
Definition mgr2 : RibManager := default start (mgr_step secondCheapest 6 (FibResponse add None) mgr1).
Definition registered_route : Route (Ann:=unit) := mkRoute 7 0 10 1 (Some 60000000005) None 0 (Some 0).

Lemma run_reachable : reachable secondCheapest mgr2.
Proof.
  apply (reach_step _ mgr1 6 (FibResponse add None)); [|split; [vm_compute; discriminate|vm_compute; left]|vm_compute; reflexivity|].
  - apply (reach_step _ start 5 (RegisterEntry (Some 7) parameters)); [apply reach_new|exact I|vm_compute; reflexivity|vm_compute; constructor].
  - vm_compute. constructor; [reflexivity|constructor].
Qed.

Lemma routes_attended_witness : route_at [1; 2] (7, 0) (q_rib (mgr_queue mgr2)) = Some registered_route /\
  exists id, due id 100 (removeInvalidFaces [8; 9] 100 mgr2) = true /\
    mgr_events (removeInvalidFaces [8; 9] 100 mgr2) !! id = Some (100, FaceDestroyed 7).
Proof.
  assert (route_at [1; 2] (7, 0) (q_rib (mgr_queue mgr2)) = Some registered_route) as Hr by (vm_compute; reflexivity). split; [exact Hr|].
  destruct (routes_attended secondCheapest mgr2 run_reachable) as (_ & _ & Hquiet).
  assert (forall id, due id 100 mgr2 = false) as Hdue.
  { intros id. unfold due. assert (mgr_events mgr2 = {[0 := (60000000005, RouteExpiration [1; 2] (mkRoute 7 0 10 1 (Some 60000000005) None 0 None))]}) as ->
      by (vm_compute; reflexivity). destruct (decide (id = 0)) as [->|Hne]; [reflexivity|]. rewrite lookup_singleton_ne by done. reflexivity. }
  assert (idle (mgr_queue mgr2)) as Hidle by (vm_compute; split; reflexivity).
  destruct (Hquiet 100 Hidle Hdue [1; 2] (7, 0) registered_route Hr) as [_ Hact].
  apply (Hact [8; 9]). apply (bool_decide_unpack (7 ∉ [8; 9])). vm_compute. exact I.
Defined.

Lemma destroyed_face_kept_witness : exists mgr3 mgr4,
  onFaceDestroyedEvent secondCheapest 7 6 mgr1 = Some mgr3 /\ onFibResponse secondCheapest add None 6 mgr3 = Some mgr4 /\
  route_at [1; 2] (7, 0) (q_rib (mgr_queue mgr4)) = Some registered_route /\ 7 ∉ m_registeredFaces mgr4.
Proof.
  assert (exists st inh rib, onUpdateSuccess (cmd_update add) (q_updater (mgr_queue mgr1)) = (st, ([], Success inh)) /\
    applyUpdate (mkRibUpdate REGISTER [1; 2] registered_route) inh (q_rib (mgr_queue mgr1)) = Some rib) as (st & inh & rib & Es & Ea).
  { eexists _, _, _. split; vm_compute; reflexivity. }
  destruct (destroyed_face_kept secondCheapest [1; 2] registered_route mgr1 6 add st inh rib) as (mgr3 & mgr4 & E1 & E2 & E3 & _ & E4 & _).
  - assert (q_rib (mgr_queue mgr1) = newRib) as -> by (vm_compute; reflexivity). apply newRib_ok.
  - vm_compute. reflexivity.
  - vm_compute. reflexivity.
  - vm_compute. reflexivity.
  - exact Es.
  - exact Ea.
  - exists mgr3, mgr4. split; [exact E1|]. split; [exact E2|]. split; [exact E3|exact E4].
Defined.

Lemma register_installs_witness : exists mgr fuel0 fib2, registerEntry secondCheapest (Some 7) parameters 5 start = Some (mgr, 200) /\
  forall fuel, (fuel0 <= fuel)%nat -> exists mgr', mgr_serve secondCheapest fuel 0 5 mgr ∅ = Some (mgr', fib2) /\ fib2 !! ([1; 2], 7) = Some 10.
Proof.
  destruct (register_installs secondCheapest (Some 7) parameters 7 5 start ∅) as (fuel0 & mgr & fib2 & r & E1 & _ & Hs).
  - split; reflexivity.
  - apply new_consistent.
  - vm_compute. reflexivity.
  - unfold getMaxDepth. simpl. lia.
  - reflexivity.
  - intros d Hd. assert (lifetime parameters = Some 60000000000) as E by (vm_compute; reflexivity). rewrite E in Hd. injection Hd as <-. lia.
  - exists mgr, fuel0, fib2. split; [exact E1|]. intros fuel Hfuel. destruct (Hs fuel Hfuel) as (mgr' & E2 & _ & _ & _ & E3 & _).
    exists mgr'. split; [exact E2|exact E3].
Defined.
End RibManagerExamples.
