(* ===== verification/SelfLearning.v ===== *)
(** * The self-learning strategy

    Models [daemon/fw/self-learning-strategy.hpp/.cpp]. An Interest without a
    route is broadcast as a discovery Interest; the Data that answers it carries a
    prefix announcement, from which the RIB manager makes a route; Interests with
    a route are multicast as non-discovery Interests.

    What runs on the thread of the RIB is a list of requests to its manager; the
    tags of the Interest and of the Data are passed along with them. The tag of an
    Interest is a mark on the object, which all of its copies share, so that the
    Interests sent carry the tag that a handler returns. [faceTable] lists the
    faces in the order of their identifiers. [None] is a failed assertion or an
    iterator at its end that is dereferenced. *)

From S2P Require Import Prelude Ndn Fib Pit NameTree FwAlgorithm Strategy Rib FibUpdater FibConsistency RibManager RibManagerRuns.
Local Open Scope Z_scope.

Definition InRecordInfo_typeId : Z := 1040.
Definition OutRecordInfo_typeId : Z := 1041.
(** In milliseconds. *)
Definition ROUTE_RENEW_LIFETIME : Z := 600000.

(** A Boolean member of an item. *)
Definition flag (b : bool) : Z := if b then 1 else 0.

Inductive RibRequest {C Ann : Type} :=
  | RequestAnnounce (pa : Ann) (faceId maxLifetime : Z)
  | RequestRenew (name : list C) (faceId maxLifetime : Z)
  | RequestFindAnn (name : list C).
Arguments RibRequest : clear implicits.

Section SelfLearning.
Context {C : Type} `{Packets C} `{!ScopePrefixes C} `{!NackReasons} {Ann : Type}.
Notation Name := (list C).
Notation Interest := (Interest C).
Notation RibRequest := (RibRequest C Ann).
Context (faceOf : Z -> FaceInfo) (enum : list Z -> list Z) `{!FaceSetOrder enum}.
Notation id f := (f_id (faceOf f)).
Implicit Types (interest : Interest) (data : Data) (fibEntry : FibEntry C) (pe : PitEntry C) (fx : Fx (C:=C)) (pa : Ann) (now inFace outFace : Z).

(** ** Items of records *)

(** [insertStrategyInfo], and the member is set. *)
Definition setFlag (typeId : Z) (b : bool) (h : StrategyInfoHost) : StrategyInfoHost := <[typeId := flag b]> (insertStrategyInfo typeId 0 h).1.1.

Definition markIn (b : bool) inFace pe : PitEntry C :=
  set_inRecords (update_first (has_key in_face inFace)
    (fun r => mkInRecord (in_face r) (in_lastNonce r) (in_lastRenewed r) (in_expiry r) (in_interest r) (setFlag InRecordInfo_typeId b (in_info r))) (m_inRecords pe)) pe.

Definition markOut (b : bool) outFace pe : PitEntry C :=
  set_outRecords (update_first (has_key out_face outFace)
    (fun r => mkOutRecord (out_face r) (out_lastNonce r) (out_lastRenewed r) (out_expiry r) (out_incomingNack r) (setFlag OutRecordInfo_typeId b (out_info r)))
    (m_outRecords pe)) pe.

(** ** Interests *)

Definition skipsIncoming inFace interest outFace : bool :=
  (id outFace =? id inFace) && negb (bool_decide (f_linkType (faceOf outFace) = LINK_TYPE_AD_HOC)) || wouldViolateScope faceOf inFace interest outFace.

Definition sendMarked now (b : bool) interest fx outFace : Fx (C:=C) :=
  let fx := onOutgoingInterest now outFace interest fx in mkFx (markOut b outFace (fx_pit fx)) (fx_sent fx).

Definition broadcastInterest now (faceTable : list Z) interest inFace fx : Fx (C:=C) :=
  foldl (fun fx outFace => if skipsIncoming inFace interest outFace || f_local (faceOf outFace) then fx else sendMarked now false interest fx outFace)
    fx (rev faceTable).

Definition multicastInterest now interest inFace (nexthops : list NextHop) fx : Fx (C:=C) :=
  foldl (fun fx nexthop => if skipsIncoming inFace interest (nh_face nexthop) then fx else sendMarked now true interest fx (nh_face nexthop)) fx nexthops.

(** With the tag of the Interest afterwards. *)
Definition sl_afterReceiveInterest now (faceTable : list Z) inFace interest (isNonDiscovery : bool) fibEntry fx : option (Fx (C:=C) * bool) :=
  let nexthops := m_nextHops fibEntry in
  _ ← getInRecord inFace (fx_pit fx);
  let fx := mkFx (markIn isNonDiscovery inFace (fx_pit fx)) (fx_sent fx) in
  if isNonDiscovery then
    if bool_decide (nexthops = []) then
      fx ← onOutgoingNack faceOf inFace REASON_NO_ROUTE fx;
      fx ← rejectPendingInterest now fx;
      Some (fx, true)
    else Some (multicastInterest now interest inFace nexthops fx, true)
  else if bool_decide (nexthops = []) then Some (broadcastInterest now faceTable interest inFace fx, false)
  else Some (multicastInterest now interest inFace nexthops fx, true).

(** ** Data *)

Definition needPrefixAnn now pe : bool :=
  let unexpired := remove_if (fun r => negb (now <? in_expiry r)) (m_inRecords pe) in
  let hasDiscoveryInterest := existsb (fun r => match getStrategyInfo InRecordInfo_typeId (in_info r) with Some x => x =? 0 | None => false end) unexpired in
  let directToConsumer := negb (existsb (fun r => negb (f_local (faceOf (in_face r)))) unexpired) in
  hasDiscoveryInterest && negb directToConsumer.

Definition asyncProcessData now data fx : option (Fx (C:=C) * list RibRequest) :=
  fx ← setExpiryTimer now 1000 fx;
  Some (fx, [RequestFindAnn (data_name data)]).

(** The answer of the RIB manager, on the main thread: [inFace] is the face of the
    Data, if it is there still; the result has the tag of the Data that is sent. *)
Definition asyncDone now (inFace : option Z) data (paOpt : option Ann) fx : option (Fx (C:=C) * option Ann) :=
  match paOpt, inFace with
  | Some pa, Some inFace =>
      fx ← sendDataToAll faceOf enum now inFace data fx;
      fx ← setExpiryTimer now 0 fx;
      Some (fx, Some pa)
  | _, _ => Some (fx, None)
  end.

(** [paTag] is the announcement that the Data carries. *)
Definition sl_afterReceiveData now inFace data (paTag : option Ann) fx : option (Fx (C:=C) * list RibRequest) :=
  outRecord ← getOutRecord inFace (fx_pit fx);
  if bool_decide (getStrategyInfo OutRecordInfo_typeId (out_info outRecord) = Some 1) then
    if negb (needPrefixAnn now (fx_pit fx)) then fx ← sendDataToAll faceOf enum now inFace data fx; Some (fx, [])
    else asyncProcessData now data fx
  else
    fx ← sendDataToAll faceOf enum now inFace data fx;
    Some (fx, match paTag with Some pa => [RequestAnnounce pa (id inFace) ROUTE_RENEW_LIFETIME] | None => [] end).

(** ** Nacks *)

Definition sl_afterReceiveNack inFace (nackName : Name) (reason : Z) fibEntry fx : option (Fx (C:=C) * list RibRequest) :=
  if reason =? REASON_NO_ROUTE then
    if hasNextHops fibEntry then
      fx ← sendNacks faceOf enum reason [] fx;
      Some (fx, [RequestRenew nackName (id inFace) 0])
    else None
  else Some (fx, []).

(** ** Where Interests go *)

Lemma foldl_sends {X : Type} (skip : X -> bool) (face : X -> Z) now b interest l : forall fx,
  fx_sent (foldl (fun fx x => if skip x then fx else sendMarked now b interest fx (face x)) fx l) =
    fx_sent fx ++ ((fun f => SendInterest f interest) <$> (face <$> remove_if skip l)).
Proof.
  induction l as [|x l IH]; intros fx; simpl; [by rewrite app_nil_r|]. rewrite IH. destruct (skip x); [done|]. simpl. by rewrite <-app_assoc.
Qed.

Lemma multicast_sent now interest inFace nexthops fx : fx_sent (multicastInterest now interest inFace nexthops fx) =
  fx_sent fx ++ ((fun f => SendInterest f interest) <$> (nh_face <$> remove_if (fun nh => skipsIncoming inFace interest (nh_face nh)) nexthops)).
Proof. apply foldl_sends. Qed.

Lemma broadcast_sent now faceTable interest inFace fx : fx_sent (broadcastInterest now faceTable interest inFace fx) =
  fx_sent fx ++ ((fun f => SendInterest f interest) <$> remove_if (fun f => skipsIncoming inFace interest f || f_local (faceOf f)) (rev faceTable)).
Proof. unfold broadcastInterest. rewrite (foldl_sends _ (fun f => f)). by rewrite list_fmap_id. Qed.

(** A discovery Interest goes to every non-local face it may go to when there is
    no route, and keeps its kind; with a route any Interest goes to its next hops,
    as a non-discovery Interest; a non-discovery Interest without a route is
    rejected, and a Nack is sent on a point-to-point face. *)
Theorem sl_interest_correct now faceTable inFace interest isNonDiscovery fibEntry fx inRecord :
  getInRecord inFace (fx_pit fx) = Some inRecord -> in_interest inRecord = Some interest ->
  exists fx' tag, sl_afterReceiveInterest now faceTable inFace interest isNonDiscovery fibEntry fx = Some (fx', tag) /\
    if hasNextHops fibEntry then
      tag = true /\ fx_sent fx' = fx_sent fx ++
        ((fun f => SendInterest f interest) <$> (nh_face <$> remove_if (fun nh => skipsIncoming inFace interest (nh_face nh)) (m_nextHops fibEntry)))
    else if isNonDiscovery then
      tag = true /\ expiryTimer (fx_pit fx') = Some now /\
      fx_sent fx' = fx_sent fx ++ (if negb (id inFace =? INVALID_FACEID) && bool_decide (f_linkType (faceOf inFace) = LINK_TYPE_POINT_TO_POINT)
                                   then [SendNack inFace interest REASON_NO_ROUTE] else [])
    else
      tag = false /\ fx_sent fx' = fx_sent fx ++
        ((fun f => SendInterest f interest) <$> remove_if (fun f => skipsIncoming inFace interest f || f_local (faceOf f)) (rev faceTable)).
Proof.
  intros Hin Hint. unfold sl_afterReceiveInterest. rewrite Hin. cbn [mbind option_bind]. set (fx1 := mkFx (markIn _ _ _) _).
  assert (bool_decide (m_nextHops fibEntry = []) = negb (hasNextHops fibEntry)) as -> by (unfold hasNextHops; by destruct (m_nextHops fibEntry)).
  destruct (hasNextHops fibEntry); cbn [negb].
  { destruct isNonDiscovery; eexists _, true; (split; [done|]); (split; [done|]); by rewrite multicast_sent. }
  destruct isNonDiscovery; [|eexists _, false; split; [done|]; split; [done|]; by rewrite broadcast_sent].
  assert (exists fx2, onOutgoingNack faceOf inFace REASON_NO_ROUTE fx1 = Some fx2 /\ fx_sent fx2 = fx_sent fx ++
    (if negb (id inFace =? INVALID_FACEID) && bool_decide (f_linkType (faceOf inFace) = LINK_TYPE_POINT_TO_POINT) then [SendNack inFace interest REASON_NO_ROUTE] else []))
    as (fx2 & -> & Hs).
  { unfold onOutgoingNack. destruct (id inFace =? INVALID_FACEID); cbn [negb andb]; [exists fx1; by rewrite app_nil_r|].
    assert (exists r, getInRecord inFace (fx_pit fx1) = Some r /\ in_interest r = Some interest) as (r & -> & Hr).
    { unfold fx1, markIn, getInRecord in *. cbn [fx_pit set_inRecords m_inRecords]. eexists. split; [apply (find_update_same in_face inFace _ _ inRecord Hin); simpl; by apply find_key_Some in Hin as [_ ?]|done]. }
    destruct (bool_decide _); [|exists fx1; by rewrite app_nil_r]. rewrite Hr. by eexists. }
  cbn [mbind option_bind]. destruct fx2 as [pe2 sent2]. eexists _, true. split; [done|]. split_and!; [done|simpl; f_equal; lia|done].
Qed.
End SelfLearning.

(** ** With the RIB manager *)
Section Learning.
Context {C : Type} `{NameComponent C} `{!NameOrder C} `{!Packets C} `{!ScopePrefixes C} `{!NackReasons} {Ann : Type}
  `{!PrefixAnnouncements C Ann} `{!RouteFlags} `{!RouteOrigins} `{!ControllerErrors}.
Notation Name := (list C).
Notation Interest := (Interest C).
Notation RibManager := (RibManager (C:=C) (Ann:=Ann)).
Context (faceOf : Z -> FaceInfo) (enum : list Z -> list Z) `{!FaceSetOrder enum} (nth : list (Route (Ann:=Ann)) -> option (Route (Ann:=Ann))).
Notation id f := (f_id (faceOf f)).
Implicit Types (mgr : RibManager) (pa : Ann) (fx : Fx (C:=C)) (now sysNow : Z).

(** The requests, on the thread of the RIB; [request] tells them apart. *)
Definition serveRequest (request now : Z) (r : RibRequest C Ann) mgr : option RibManager :=
  match r with
  | RequestAnnounce pa faceId maxLifetime => Some (slAnnounce pa faceId maxLifetime request mgr)
  | RequestRenew name faceId maxLifetime => slRenew nth name faceId maxLifetime request now mgr
  | RequestFindAnn _ => Some mgr
  end.

(** When a route made from an announcement expires. *)
Definition announcedExpiry now sysNow pa : Z := Z.min (computeExpiration now sysNow pa) (i64 (now + i64 (ROUTE_RENEW_LIFETIME * ms))).

(** A validated announcement of a new prefix becomes a route, and the FIB has its next hop. *)
Lemma announce_installs pa f request now sysNow mgr fib : idle (mgr_queue mgr) -> consistent (q_rib (mgr_queue mgr)) fib -> m_isLocalhopEnabled mgr = true ->
  m_rib (q_rib (mgr_queue mgr)) !! getAnnouncedName pa = None -> 0 < i64 (announcedExpiry now sysNow pa - now) ->
  exists mgr0 mgr1 fuel0 fib2 r, serveRequest request now (RequestAnnounce pa f ROUTE_RENEW_LIFETIME) mgr = Some mgr0 /\
    onValidated nth request true sysNow now mgr0 = Some mgr1 /\
    (r_faceId r, r_origin r, r_cost r, r_expires r, r_announcement r) = (f, ROUTE_ORIGIN_PREFIXANN, PA_ROUTE_COST, Some (announcedExpiry now sysNow pa), Some pa) /\
    fib2 !! (getAnnouncedName pa, f) = Some PA_ROUTE_COST /\
    forall fuel, (fuel0 <= fuel)%nat -> exists mgr2, mgr_serve nth fuel (length (q_commands (mgr_queue mgr))) now mgr1 fib = Some (mgr2, fib2) /\
      idle (mgr_queue mgr2) /\ f ∈ m_registeredFaces mgr2 /\ consistent (q_rib (mgr_queue mgr2)) fib2 /\
      re_routes <$> m_rib (q_rib (mgr_queue mgr2)) = <[getAnnouncedName pa := [r]]> (re_routes <$> m_rib (q_rib (mgr_queue mgr))).
Proof.
  intros Hidle Hcons Hloc Hnone Hexp. cbn [serveRequest]. unfold slAnnounce. rewrite Hloc. eexists.
  set (route := set_expires (Some (announcedExpiry now sysNow pa)) (annRoute now sysNow pa f)). set (ev := mgr_nextEvent mgr).
  set (mgrA := set_validations (delete request (<[request := (pa, (f, ROUTE_RENEW_LIFETIME))]> (mgr_validations mgr))) mgr).
  set (mgrB := scheduleEvent (i64 (now + i64 (announcedExpiry now sysNow pa - now))) (RouteExpiration (getAnnouncedName pa) route) mgrA).
  destruct (registerRoute_completes nth (getAnnouncedName pa) (setExpirationEvent ev route) (SlDone request) now mgrB fib)
    as (fuel0 & mgr1 & q2 & fib2 & Hreg & Hs & Hi & Hc & Hr); [done..|].
  exists mgr1, fuel0, fib2, (setExpirationEvent ev route). split; [done|]. split.
  { unfold onValidated. cbn [mgr_validations set_validations]. rewrite lookup_insert_eq. cbn [mbind option_bind]. unfold beginAddRoute.
    cbn [r_expires set_expires fmap option_fmap option_map]. match goal with |- context [?x <=? 0] => change x with (i64 (announcedExpiry now sysNow pa - now)) end. rewrite (proj2 (Z.leb_gt _ _) Hexp). exact Hreg. }
  split; [done|]. split.
  - destruct Hc as (_ & _ & Hfol & _). rewrite Hfol. assert ((re_routes <$> m_rib (q_rib q2)) !! getAnnouncedName pa = Some [setExpirationEvent ev route]) as He
      by (rewrite Hr; apply lookup_insert_eq). rewrite lookup_fmap in He.
    destruct (m_rib (q_rib q2) !! getAnnouncedName pa) as [e|] eqn:Ee; [|done]. injection He as He. exact (own_nexthop _ _ _ _ Ee He).
  - intros fuel Hfuel. destruct (Hs fuel Hfuel) as (mgr3 & Hserve & F1 & F2 & F3). exists mgr3. rewrite F1, F2. split_and!; try done. simpl. set_solver.
Qed.

(** The FIB entry has the next hops that the FIB has for its prefix. *)
Definition entry_follows (fib : gmap (Name * Z) Z) (fibEntry : FibEntry C) : Prop :=
  forall f c, fib !! (fib_prefix fibEntry, id f) = Some c -> exists nh, nh ∈ m_nextHops fibEntry /\ nh_face nh = f /\ nh_cost nh = c.

(** C32: the strategy learns routes from Data. When Data with the announcement of a
    prefix that has no routes answers a discovery Interest, it goes to all pending
    downstreams, and the RIB manager is asked to add a route; with a valid
    announcement that has not expired, the RIB then has a route of the prefix to
    the face of the Data, which expires with the announcement and after ten minutes
    at the latest, and once the FIB has carried out the commands it has the next
    hop. From then on an Interest, of either kind, for which that is the FIB entry
    is no longer broadcast: it goes to next hops only, this face among them unless
    the Interest came from it or would leave its scope, as a non-discovery
    Interest. *)
Theorem self_learning_learns now inFace data pa fx outRecord request ribNow sysNow mgr fib :
  getOutRecord inFace (fx_pit fx) = Some outRecord -> getStrategyInfo OutRecordInfo_typeId (out_info outRecord) <> Some 1 -> pe_ok (fx_pit fx) ->
  matchesData (i_name (m_interest (fx_pit fx))) (i_selectors (m_interest (fx_pit fx))) data = true ->
  idle (mgr_queue mgr) -> consistent (q_rib (mgr_queue mgr)) fib -> m_isLocalhopEnabled mgr = true ->
  m_rib (q_rib (mgr_queue mgr)) !! getAnnouncedName pa = None -> 0 < i64 (announcedExpiry ribNow sysNow pa - ribNow) ->
  exists fx' req mgr0 mgr1 fuel0 fib2 r,
    sl_afterReceiveData faceOf enum now inFace data (Some pa) fx = Some (fx', [req]) /\
    fx_sent fx' = fx_sent fx ++ omap (dataTo faceOf data) (pendingDownstreams faceOf enum now inFace (fx_pit fx)) /\
    serveRequest request ribNow req mgr = Some mgr0 /\ onValidated nth request true sysNow ribNow mgr0 = Some mgr1 /\
    (r_faceId r, r_expires r, r_announcement r) = (id inFace, Some (announcedExpiry ribNow sysNow pa), Some pa) /\
    (forall fuel, (fuel0 <= fuel)%nat -> exists mgr2, mgr_serve nth fuel (length (q_commands (mgr_queue mgr))) ribNow mgr1 fib = Some (mgr2, fib2) /\
       idle (mgr_queue mgr2) /\ consistent (q_rib (mgr_queue mgr2)) fib2 /\
       re_routes <$> m_rib (q_rib (mgr_queue mgr2)) = <[getAnnouncedName pa := [r]]> (re_routes <$> m_rib (q_rib (mgr_queue mgr)))) /\
    forall now' faceTable inFace' interest isNonDiscovery fibEntry fx2 inRecord, fib_prefix fibEntry = getAnnouncedName pa -> entry_follows fib2 fibEntry ->
      getInRecord inFace' (fx_pit fx2) = Some inRecord -> in_interest inRecord = Some interest ->
      exists fx3 faces, sl_afterReceiveInterest faceOf now' faceTable inFace' interest isNonDiscovery fibEntry fx2 = Some (fx3, true) /\
        fx_sent fx3 = fx_sent fx2 ++ ((fun f => SendInterest f interest) <$> faces) /\
        (forall f, f ∈ faces -> f ∈ (nh_face <$> m_nextHops fibEntry)) /\ (skipsIncoming faceOf inFace' interest inFace = false -> inFace ∈ faces).
Proof.
  intros Hout Hinfo Hpe Hm Hidle Hcons Hloc Hnone Hexp. unfold sl_afterReceiveData. rewrite Hout. cbn [mbind option_bind].
  rewrite bool_decide_eq_false_2 by done. unfold sendDataToAll. rewrite sendData_loop by done. cbn [mbind option_bind].
  destruct (announce_installs pa (id inFace) request ribNow sysNow mgr fib Hidle Hcons Hloc Hnone Hexp) as (mgr0 & mgr1 & fuel0 & fib2 & r & H1' & H2' & Hr & Hfib & Hserve).
  eexists _, _, mgr0, mgr1, fuel0, fib2, r. split; [done|]. split_and!; [done|done|done|by injection Hr as -> _ _ -> ->| |].
  - intros fuel Hfuel. destruct (Hserve fuel Hfuel) as (mgr2 & ? & ? & ? & ? & ?). by exists mgr2.
  - intros now' faceTable inFace' interest isNonDiscovery fibEntry fx2 inRecord Hp Hfol Hin Hint.
    destruct (Hfol inFace PA_ROUTE_COST) as (nh & Hnh & Ef & _); [by rewrite Hp|].
    destruct (sl_interest_correct faceOf now' faceTable inFace' interest isNonDiscovery fibEntry fx2 inRecord Hin Hint) as (fx3 & tag & Hs & Hcase).
    assert (hasNextHops fibEntry = true) as Hh by (unfold hasNextHops; destruct (m_nextHops fibEntry); [set_solver|done]). rewrite Hh in Hcase.
    destruct Hcase as [-> Hsent]. eexists fx3, _. split; [exact Hs|]. split; [exact Hsent|]. split.
    + intros f (x & -> & Hx)%list_elem_of_fmap. apply list_elem_of_fmap. exists x. split; [done|]. by apply elem_of_remove_if in Hx as [? _].
    + intros Hskip. apply list_elem_of_fmap. exists nh. split; [done|]. apply elem_of_remove_if. by rewrite Ef.
Qed.
End Learning.

(** ** Where it fails *)
Section Failures.
Context {C : Type} `{Packets C} `{!ScopePrefixes C} `{!NackReasons} {Ann : Type}.
Context (faceOf : Z -> FaceInfo) (enum : list Z -> list Z) `{!FaceSetOrder enum}.
Implicit Types (fx : Fx (C:=C)) (data : Data).

(** A Nack for want of a route, from an upstream that a discovery Interest was
    broadcast to, makes the assertion that there is a route fail. *)
Theorem discovery_nack_fails inFace nackName prefix fx :
  sl_afterReceiveNack (Ann:=Ann) faceOf enum inFace nackName REASON_NO_ROUTE (mkFibEntry prefix []) fx = None.
Proof. unfold sl_afterReceiveNack. by rewrite Z.eqb_refl. Qed.

(** Data from a face that the Interest was not sent to dereferences the end of the out-records. *)
Theorem foreign_data_undefined now inFace data (paTag : option Ann) fx : getOutRecord inFace (fx_pit fx) = None ->
  sl_afterReceiveData faceOf enum now inFace data paTag fx = None.
Proof. unfold sl_afterReceiveData. by intros ->. Qed.

(** Data that needs an announcement is lost when the RIB has no entry for it: it
    is not sent when it arrives, nor when the manager has answered. *)
Theorem unannounced_data_lost now now' inFace data (paTag : option Ann) fx outRecord : getOutRecord inFace (fx_pit fx) = Some outRecord ->
  getStrategyInfo OutRecordInfo_typeId (out_info outRecord) = Some 1 -> needPrefixAnn faceOf now (fx_pit fx) = true ->
  exists fx', sl_afterReceiveData faceOf enum now inFace data paTag fx = Some (fx', [RequestFindAnn (data_name data)]) /\ fx_sent fx' = fx_sent fx /\
    asyncDone (Ann:=Ann) faceOf enum now' (Some inFace) data None fx' = Some (fx', None).
Proof.
  intros Hout Hinfo Hneed. unfold sl_afterReceiveData. rewrite Hout. cbn [mbind option_bind]. rewrite bool_decide_eq_true_2 by done. rewrite Hneed. by eexists.
Qed.
End Failures.

(** ** Data [/1/2] with an announcement of [/1], from face 5, for an Interest broadcast from face 4 *)
Module SelfLearningExamples.
Import StrategyExamples RibExamples FibConsistencyExamples RibManagerExamples.

Definition asked : Fx (C:=Z) := default (mkFx (newPitEntry anInterest) [])
  (fst <$> sl_afterReceiveInterest faces 0 [4; 5; 6] 4 anInterest false (mkFibEntry [] []) (mkFx (insertOrUpdateInRecord 0 4 anInterest (newPitEntry anInterest)) [])).
Definition answer : Data (C:=Z) := ([1; 2], 5%positive, 0).

(** The discovery Interest has gone to the other non-local faces. *)
Example asked_sent : fx_sent asked = [SendInterest 6 anInterest; SendInterest 5 anInterest].
Proof. reflexivity. Qed.

Example self_learning_learns_witness : exists fx' req mgr0 mgr1, sl_afterReceiveData faces remove_dups 9 5 answer (Some tt) asked = Some (fx', [req]) /\
  fx_sent fx' = fx_sent asked ++ [SendData 4 answer] /\ serveRequest secondCheapest 1 10 req start = Some mgr0 /\ onValidated secondCheapest 1 true 20 10 mgr0 = Some mgr1 /\
  exists fuel mgr2 fib2, mgr_serve secondCheapest fuel 0 10 mgr1 ∅ = Some (mgr2, fib2) /\ is_Some (m_rib (q_rib (mgr_queue mgr2)) !! [1]).
Proof.
  destruct (self_learning_learns faces remove_dups secondCheapest 9 5 answer tt asked
    (mkOutRecord 5 7 0 (4000 * ms) None (setFlag OutRecordInfo_typeId false ∅)) 1 10 20 start ∅)
    as (fx' & req & mgr0 & mgr1 & fuel0 & fib2 & r & E1 & E2 & E3 & E4 & _ & Hs & _).
  - reflexivity.
  - discriminate.
  - split; [split|]; vm_compute.
    + apply NoDup_singleton.
    + apply (bool_decide_unpack (NoDup [5; 6])). reflexivity.
    + constructor; [by eexists|constructor].
  - reflexivity.
  - split; reflexivity.
  - apply new_consistent.
  - reflexivity.
  - vm_compute. reflexivity.
  - vm_compute. reflexivity.
  - exists fx', req, mgr0, mgr1. split; [exact E1|]. split; [exact E2|]. split; [exact E3|]. split; [exact E4|].
    destruct (Hs fuel0) as (mgr2 & E5 & _ & _ & E6); [apply Nat.le_refl|]. exists fuel0, mgr2, fib2. split; [exact E5|].
    apply (f_equal (fun m => m !! [1])) in E6. rewrite lookup_insert_eq, lookup_fmap in E6. destruct (m_rib _ !! [1]) as [e|]; [by exists e|discriminate].
Defined.
End SelfLearningExamples.
