(* ===== verification/LpFragmentation.v ===== *)
(** * Fragmentation and reassembly of link-layer packets

    Models [daemon/face/lp-fragmenter.cpp], [lp-reassembler.cpp] and the sequence
    numbers of [generic-link-service.cpp]: a network packet that does not fit the
    MTU is split into indexed fragments, which the receiver collects by endpoint
    and message identifier, in whatever order they arrive. Payloads are lists of
    bytes. [None] is a failed assertion or an access out of range. *)

From S2P Require Import Prelude.
Local Open Scope Z_scope.

(** [lp::Packet] as far as fragmentation goes; the other NDNLPv2 headers are kept
    together. *)
Record LpPacket {Hdr : Type} := mkLpPacket {
  lp_fragment : option (list Z);
  lp_sequence : option Z;
  lp_fragIndex : option Z;
  lp_fragCount : option Z;
  lp_headers : Hdr
}.
Arguments LpPacket : clear implicits.
Arguments mkLpPacket {Hdr}.

Definition set_fragment {Hdr} (b : list Z) (p : LpPacket Hdr) : LpPacket Hdr :=
  mkLpPacket (Some b) (lp_sequence p) (lp_fragIndex p) (lp_fragCount p) (lp_headers p).
Definition set_sequence {Hdr} (s : Z) (p : LpPacket Hdr) : LpPacket Hdr :=
  mkLpPacket (lp_fragment p) (Some s) (lp_fragIndex p) (lp_fragCount p) (lp_headers p).
Definition set_fragIndex {Hdr} (i : Z) (p : LpPacket Hdr) : LpPacket Hdr :=
  mkLpPacket (lp_fragment p) (lp_sequence p) (Some i) (lp_fragCount p) (lp_headers p).
Definition set_fragCount {Hdr} (c : Z) (p : LpPacket Hdr) : LpPacket Hdr :=
  mkLpPacket (lp_fragment p) (lp_sequence p) (lp_fragIndex p) (Some c) (lp_headers p).

(** What the code uses of ndn-cxx's encoder: the size of a packet's encoding, and
    of its fields other than Fragment. The TLV-TYPEs are of one octet and the
    TLV-LENGTHs of at most nine; a number has at most eight octets. *)
Class LpEncoding (Hdr : Type) := {
  noHeaders : Hdr;
  wireSize : LpPacket Hdr -> Z;
  headerSize : LpPacket Hdr -> Z;
  headerSize_nonneg p : 0 <= headerSize p;
  headerSize_none b : headerSize (mkLpPacket b None None None noHeaders) = 0;
  headerSize_fragment b p : headerSize (set_fragment b p) = headerSize p;
  headerSize_sequence s p : headerSize (set_sequence s p) <= headerSize p + (1 + 1 + 8);
  headerSize_fragIndex i p : headerSize (set_fragIndex i p) <= headerSize p + (1 + 1 + 8);
  headerSize_fragCount c p : headerSize (set_fragCount c p) <= headerSize p + (1 + 1 + 8);
  wireSize_lower p b : lp_fragment p = Some b -> headerSize p + Z.of_nat (length b) <= wireSize p;
  wireSize_bound p b : lp_fragment p = Some b -> wireSize p <= (1 + 9) + headerSize p + (1 + 9) + Z.of_nat (length b)
}.

Definition MAX_SINGLE_FRAG_OVERHEAD : Z := 1 + 9 + (1 + 1 + 8) + (1 + 9).
Definition MAX_FRAG_OVERHEAD : Z := 1 + 9 + (1 + 1 + 8) + (1 + 1 + 8) + (1 + 1 + 8) + (1 + 9).

Section Fragmentation.
Context {Hdr : Type} `{!LpEncoding Hdr}.
Notation LpPacket := (LpPacket Hdr).
Implicit Types (p : LpPacket) (b : list Z).

(** [lp::Packet()]. *)
Definition emptyPacket : LpPacket := mkLpPacket None None None None noHeaders.

(** ** The fragmenter *)

(** The loop over the payload: [rest] is what is left of it and [size] the size of
    the next piece. *)
Fixpoint populate (fuel : nat) (mtu fragCount payloadSize : Z) (fragIndex size : Z) (rest : list Z)
    (frags : list LpPacket) : option (list LpPacket * Z) :=
  match fuel with
  | O => None
  | S fuel =>
      match rest with
      | [] => Some (frags, fragIndex)
      | _ =>
          frag ← frags !! Z.to_nat fragIndex;
          let frag := set_fragment (take (Z.to_nat size) rest) (set_fragCount fragCount (set_fragIndex fragIndex frag)) in
          if wireSize frag <=? mtu then
            populate fuel mtu fragCount payloadSize (fragIndex + 1) payloadSize (drop (Z.to_nat size) rest)
              (<[Z.to_nat fragIndex := frag]> frags)
          else None
      end
  end.

(** [Some None] is the result [false]; sizes do not exceed the MTU, so nothing
    wraps. Every turn of the loop takes at least one byte. *)
Definition fragmentPacket (nMaxFragments : Z) p (mtu : Z) : option (option (list LpPacket)) :=
  netPkt ← lp_fragment p;
  match lp_fragIndex p, lp_fragCount p with
  | None, None =>
      if MAX_SINGLE_FRAG_OVERHEAD + wireSize p <=? mtu then Some (Some [p])
      else
        let netPktSize := Z.of_nat (length netPkt) in
        let firstHeaderSize := headerSize p in
        if mtu <? MAX_FRAG_OVERHEAD + firstHeaderSize + 1 then Some None
        else
          let firstPayloadSize := Z.min netPktSize (mtu - firstHeaderSize - MAX_FRAG_OVERHEAD) in
          let payloadSize := mtu - MAX_FRAG_OVERHEAD in
          let fragCount := 1 + (netPktSize - firstPayloadSize) / payloadSize +
                           (if (netPktSize - firstPayloadSize) mod payloadSize =? 0 then 0 else 1) in
          if nMaxFragments <? fragCount then Some None
          else
            let frags := p :: replicate (Z.to_nat (fragCount - 1)) emptyPacket in
            '(frags, fragIndex) ← populate (S (length netPkt)) mtu fragCount payloadSize 0 firstPayloadSize netPkt frags;
            if fragIndex =? fragCount then Some (Some frags) else None
  | _, _ => None
  end.

(** ** Sequence numbers *)

(** The packet and the new [m_lastSeqNo]. *)
Definition assignSequence (m_lastSeqNo : Z) p : LpPacket * Z :=
  let s := u64 (m_lastSeqNo + 1) in (set_sequence s p, s).

Fixpoint assignSequences (m_lastSeqNo : Z) (pkts : list LpPacket) : list LpPacket * Z :=
  match pkts with
  | [] => ([], m_lastSeqNo)
  | p :: pkts =>
      let '(p, s) := assignSequence m_lastSeqNo p in
      let '(pkts, s) := assignSequences s pkts in (p :: pkts, s)
  end.

(** ** The reassembler *)

(** [pp_dropTimer] is when the timer fires. *)
Record PartialPacket := mkPartialPacket {
  pp_fragments : list LpPacket;
  pp_fragCount : Z;
  pp_nReceivedFragments : Z;
  pp_dropTimer : option Z
}.

(** The endpoint and the message identifier. *)
Notation Key := (Z * Z)%type.
Notation Reassembler := (gmap Key PartialPacket).
Implicit Types (st : Reassembler) (pp : PartialPacket).

(** The outcome of a call: [false], a network packet with the first fragment, or
    the exception of a network packet that is not a TLV block. *)
Inductive Received {Block : Type} :=
  | Dropped
  | Reassembled (netPkt : Block) (firstFrag : LpPacket)
  | MalformedBlock.
Arguments Received : clear implicits.

Section Reassembler.
(** ndn-cxx's [Block] of a buffer; it fails when the bytes are not a TLV block. *)
Context {Block : Type} (parseBlock : list Z -> option Block).
Context (nMaxFragments reassemblyTimeout : Z).

Definition block (b : list Z) (firstFrag : LpPacket) : Received Block :=
  match parseBlock b with Some netPkt => Reassembled netPkt firstFrag | None => MalformedBlock end.

Definition doReassembly pp : option (list Z) := @concat Z <$> mapM lp_fragment (pp_fragments pp).

Definition receiveFragment (now remoteEndpoint : Z) p st : option (Received Block * Reassembler) :=
  fragment ← lp_fragment p;
  let fragIndex := default 0 (lp_fragIndex p) in
  let fragCount := default 1 (lp_fragCount p) in
  if fragCount <=? fragIndex then Some (Dropped, st)
  else if nMaxFragments <? fragCount then Some (Dropped, st)
  else if (fragIndex =? 0) && (fragCount =? 1) then Some (block fragment p, st)
  else
    match lp_sequence p with
    | None => Some (Dropped, st)
    | Some sequence =>
        let messageIdentifier := u64 (sequence - fragIndex) in
        let key := (remoteEndpoint, messageIdentifier) in
        let pp := default (mkPartialPacket [] 0 0 None) (st !! key) in
        let pp := if pp_fragCount pp =? 0
                  then mkPartialPacket (replicate (Z.to_nat fragCount) emptyPacket) fragCount 0 (pp_dropTimer pp)
                  else pp in
        if negb (fragCount =? pp_fragCount pp) then Some (Dropped, <[key := pp]> st)
        else
          slot ← pp_fragments pp !! Z.to_nat fragIndex;
          if match lp_sequence slot with Some _ => true | None => false end then Some (Dropped, <[key := pp]> st)
          else
            let pp := mkPartialPacket (<[Z.to_nat fragIndex := p]> (pp_fragments pp)) (pp_fragCount pp)
                        (pp_nReceivedFragments pp + 1) (pp_dropTimer pp) in
            if pp_nReceivedFragments pp =? pp_fragCount pp then
              reassembled ← doReassembly pp;
              firstFrag ← pp_fragments pp !! 0%nat;
              match block reassembled firstFrag with
              | MalformedBlock => Some (MalformedBlock, <[key := pp]> st)
              | r => Some (r, delete key st)
              end
            else
              Some (Dropped, <[key := mkPartialPacket (pp_fragments pp) (pp_fragCount pp) (pp_nReceivedFragments pp)
                                        (Some (now + reassemblyTimeout))]> st)
    end.

(** The signal [beforeTimeout], with the endpoint and the number of fragments. *)
Definition timeoutPartialPacket (key : Key) st : option (Z * Z) * Reassembler :=
  match st !! key with
  | None => (None, st)
  | Some pp => (Some (key.1, pp_nReceivedFragments pp), delete key st)
  end.
End Reassembler.

(** ** The fragments of a packet *)

Definition indexed_fragment (c i : Z) p b : LpPacket := set_fragment b (set_fragCount c (set_fragIndex i p)).

Fixpoint later_fragments (c i : Z) (bs : list (list Z)) : list LpPacket :=
  match bs with
  | [] => []
  | b :: bs => indexed_fragment c i emptyPacket b :: later_fragments c (i + 1) bs
  end.

(** The first fragment keeps the packet's headers. *)
Definition fragments p b (bs : list (list Z)) : list LpPacket :=
  let c := 1 + Z.of_nat (length bs) in indexed_fragment c 0 p b :: later_fragments c 1 bs.

Lemma indexed_size c i p b s : headerSize (indexed_fragment c i p b) <= headerSize p + 20 /\
  wireSize (indexed_fragment c i p b) <= headerSize p + 40 + Z.of_nat (length b) /\
  wireSize (set_sequence s (indexed_fragment c i p b)) <= headerSize p + 50 + Z.of_nat (length b).
Proof.
  assert (headerSize (indexed_fragment c i p b) <= headerSize p + 20) as Hh.
  { unfold indexed_fragment. rewrite headerSize_fragment. pose proof (headerSize_fragCount c (set_fragIndex i p)).
    pose proof (headerSize_fragIndex i p). lia. }
  pose proof (wireSize_bound (indexed_fragment c i p b) b eq_refl).
  pose proof (wireSize_bound (set_sequence s (indexed_fragment c i p b)) b eq_refl).
  pose proof (headerSize_sequence s (indexed_fragment c i p b)). lia.
Qed.

Lemma headerSize_empty : headerSize emptyPacket = 0.
Proof. apply headerSize_none. Qed.

(** One turn of the loop. *)
Lemma populate_step fuel mtu c P i size rest done q todo :
  rest <> [] -> i = Z.of_nat (length done) -> 0 <= size -> headerSize q + 40 + size <= mtu ->
  populate (S fuel) mtu c P i size rest (done ++ q :: todo) =
  populate fuel mtu c P (i + 1) P (drop (Z.to_nat size) rest)
    ((done ++ [indexed_fragment c i q (take (Z.to_nat size) rest)]) ++ todo).
Proof.
  intros Hr -> Hs Hm. destruct rest as [|x rest]; [done|]. cbn [populate]. rewrite Nat2Z.id, list_lookup_middle by done.
  cbn [mbind option_bind]. fold (indexed_fragment c (Z.of_nat (length done)) q (take (Z.to_nat size) (x :: rest))).
  destruct (indexed_size c (Z.of_nat (length done)) q (take (Z.to_nat size) (x :: rest)) 0) as (_ & Hw & _).
  rewrite length_take in Hw. rewrite (proj2 (Z.leb_le _ _)) by lia.
  rewrite insert_app_r_alt, Nat.sub_diag by done. simpl. by rewrite <-app_assoc.
Qed.

Lemma populate_tail mtu c P : 1 <= P -> P + 50 <= mtu -> forall fuel rest done (k : nat),
  (length rest < fuel)%nat -> Z.of_nat (length rest) <= Z.of_nat k * P -> (Z.of_nat k - 1) * P < Z.of_nat (length rest) ->
  exists bs, populate fuel mtu c P (Z.of_nat (length done)) P rest (done ++ replicate k emptyPacket) =
      Some (done ++ later_fragments c (Z.of_nat (length done)) bs, Z.of_nat (length done) + Z.of_nat k) /\
    concat bs = rest /\ length bs = k /\ Forall (fun b => 0 < Z.of_nat (length b) <= P) bs.
Proof.
  intros HP Hm. induction fuel as [|fuel IH]; intros rest done k Hf Hle Hlt; [lia|].
  destruct (decide (rest = [])) as [->|Hr].
  { simpl in *. assert (k = 0%nat) as -> by nia. exists []. split_and!; [|done|done|apply Forall_nil_2].
    simpl. by rewrite Z.add_0_r. }
  assert (0 < Z.of_nat (length rest)) as Hpos by (destruct rest; [done|simpl; lia]).
  destruct k as [|k]; [nia|]. cbn [replicate]. rewrite populate_step by (try done; try lia; rewrite headerSize_empty; lia).
  set (b := take (Z.to_nat P) rest). destruct (IH (drop (Z.to_nat P) rest) (done ++ [indexed_fragment c (Z.of_nat (length done)) emptyPacket b]) k)
    as (bs & E & Hc & Hl & Hall).
  - rewrite length_drop. lia.
  - rewrite length_drop. lia.
  - rewrite length_drop. nia.
  - rewrite length_app in E. simpl in E. replace (Z.of_nat (length done + 1)) with (Z.of_nat (length done) + 1) in E by lia.
    exists (b :: bs). split_and!.
    + rewrite E. f_equal. f_equal; [by rewrite <-app_assoc|lia].
    + simpl. rewrite Hc. apply take_drop.
    + simpl. by rewrite Hl.
    + constructor; [|done]. unfold b. rewrite length_take. lia.
Qed.

Lemma ceil_bounds L P : 0 <= L -> 1 <= P -> let k := L / P + (if L mod P =? 0 then 0 else 1) in
  0 <= k /\ L <= k * P /\ (k - 1) * P < L.
Proof.
  intros HL HP. pose proof (Z.div_mod L P ltac:(lia)). pose proof (Z.mod_pos_bound L P ltac:(lia)).
  pose proof (Z.div_pos L P HL ltac:(lia)). simpl. destruct (Z.eqb_spec (L mod P) 0); nia.
Qed.

Lemma fragment_ok nMax p b mtu :
  lp_fragment p = Some b -> lp_fragIndex p = None -> lp_fragCount p = None -> 1 <= nMax ->
  exists r, fragmentPacket nMax p mtu = Some r /\
    match r with
    | None => mtu < MAX_FRAG_OVERHEAD + headerSize p + 1 \/
              (mtu - headerSize p - MAX_FRAG_OVERHEAD) + (nMax - 1) * (mtu - MAX_FRAG_OVERHEAD) < Z.of_nat (length b)
    | Some frags =>
        (frags = [p] \/ exists b0 bs, frags = fragments p b0 bs /\ b0 ++ concat bs = b /\ bs <> [] /\
           Z.of_nat (length frags) <= nMax) /\
        forall frag s, frag ∈ frags -> exists b', lp_fragment frag = Some b' /\
          (1 + 9) + Z.max (headerSize frag) (headerSize (set_sequence s frag)) + (1 + 9) + Z.of_nat (length b') <= mtu
    end.
Proof.
  intros Hb Hi Hc Hn. unfold fragmentPacket. rewrite Hb, Hi, Hc. cbn [mbind option_bind].
  pose proof (headerSize_nonneg p) as Hh. pose proof (wireSize_lower p b Hb) as Hlo. pose proof (wireSize_bound p b Hb) as Hhi.
  change MAX_SINGLE_FRAG_OVERHEAD with 30 in *. change MAX_FRAG_OVERHEAD with 50 in *.
  destruct (Z.leb_spec (30 + wireSize p) mtu) as [Hfast|Hslow].
  { eexists. split; [done|]. split; [by left|]. intros frag s ->%list_elem_of_singleton. exists b. split; [done|].
    pose proof (headerSize_sequence s p). lia. }
  destruct (Z.ltb_spec mtu (50 + headerSize p + 1)) as [Hsmall|Hbig]; [eexists; split; [done|]; simpl; by left|].
  rewrite Z.min_r by lia. set (first := mtu - headerSize p - 50). set (P := mtu - 50). set (L := Z.of_nat (length b) - first).
  destruct (ceil_bounds L P) as (Hk0 & Hk1 & Hk2); [unfold L, first; lia|unfold P; lia|].
  rewrite <-Z.add_assoc. set (k := L / P + _) in *.
  destruct (Z.ltb_spec nMax (1 + k)) as [Hmany|Hfew].
  { eexists. split; [done|]. simpl. right. unfold L in *. nia. }
  replace (Z.to_nat (1 + k - 1)) with (Z.to_nat k) by lia.
  assert (b <> []) as Hbne by (intros ->; simpl in *; lia).
  pose proof (populate_step (length b) mtu (1 + k) P 0 first b [] p (replicate (Z.to_nat k) emptyPacket)) as Hstep.
  cbn [app] in Hstep. rewrite Hstep by (try done; unfold first; lia).
  set (b0 := take (Z.to_nat first) b).
  destruct (populate_tail mtu (1 + k) P) with (fuel := length b) (rest := drop (Z.to_nat first) b)
    (done := [indexed_fragment (1 + k) 0 p b0]) (k := Z.to_nat k) as (bs & E & Hcat & Hlen & Hall).
  1-5: rewrite ?length_drop, ?(Z2Nat.id k) by lia; unfold P, L, first in *; lia.
  simpl in E. change (Z.of_nat 1) with 1 in E. change (0 + 1) with 1. rewrite E. cbn [mbind option_bind]. rewrite Z2Nat.id by lia. rewrite Z.eqb_refl.
  eexists. split; [done|]. split.
  - right. exists b0, bs. split_and!.
    + unfold fragments. rewrite Hlen, Z2Nat.id by lia. done.
    + rewrite Hcat. apply take_drop.
    + intros ->. simpl in Hlen. unfold L, first in *. nia.
    + simpl. assert (forall bs i, length (later_fragments (1 + k) i bs) = length bs) as ->.
      { clear. intros bs. induction bs as [|x bs IH]; intros i; [done|]. simpl. by rewrite IH. }
      rewrite Hlen. lia.
  - intros frag s [->|Hfrag]%elem_of_cons.
    + exists b0. split; [done|]. destruct (indexed_size (1 + k) 0 p b0 s) as (Hw & _). pose proof (headerSize_sequence s (indexed_fragment (1 + k) 0 p b0)).
      assert (Z.of_nat (length b0) <= first) by (unfold b0; rewrite length_take; unfold first; lia). unfold first in *. lia.
    + assert (forall i, frag ∈ later_fragments (1 + k) i bs -> exists j x, x ∈ bs /\ frag = indexed_fragment (1 + k) j emptyPacket x) as Hin.
      { clear. induction bs as [|x bs IH]; intros i; simpl; [by intros ?%not_elem_of_nil|].
        intros [->|Hx]%elem_of_cons; [by exists i, x; split; [left|]|]. destruct (IH _ Hx) as (j & y & Hy & ->). exists j, y. split; [by right|done]. }
      apply Hin in Hfrag as (j & x & Hx & ->). exists x. split; [done|]. destruct (indexed_size (1 + k) j emptyPacket x s) as (Hw & _).
      pose proof (headerSize_sequence s (indexed_fragment (1 + k) j emptyPacket x)).
      rewrite headerSize_empty in Hw. rewrite Forall_forall in Hall. apply Hall in Hx. unfold P in Hx. lia.
Qed.

(** ** Reassembly in any order *)

Section AnyOrder.
Context {Block : Type} (parseBlock : list Z -> option Block) (nMaxFragments reassemblyTimeout endpoint base : Z).
Context (l : list LpPacket).
Notation receive := (receiveFragment parseBlock nMaxFragments reassemblyTimeout).
Notation n := (Z.of_nat (length l)).
Notation key := (endpoint, base).

(** The fragments of one message, numbered. *)
Definition numbered : Prop := 0 <= base < 2 ^ 64 /\ forall (i : nat) p, l !! i = Some p ->
  lp_fragIndex p = Some (Z.of_nat i) /\ lp_fragCount p = Some n /\ lp_sequence p = Some (u64 (base + Z.of_nat i)) /\
  is_Some (lp_fragment p).

Context (Hnum : numbered) (Hlen : 2 <= n <= nMaxFragments).

(** What has been received: the slots of the indices in [done]. *)
Definition slots (done : list nat) : list LpPacket := imap (fun i p => if bool_decide (i ∈ done) then p else emptyPacket) l.
Definition partial (done : list nat) (t : option Z) : PartialPacket := mkPartialPacket (slots done) n (Z.of_nat (length done)) t.

Lemma slots_lookup done i : slots done !! i = (fun p => if bool_decide (i ∈ done) then p else emptyPacket) <$> l !! i.
Proof. apply list_lookup_imap. Qed.

Lemma slots_insert done i p : l !! i = Some p -> <[i := p]> (slots done) = slots (i :: done).
Proof.
  intros Hp. apply list_eq. intros j. rewrite slots_lookup. destruct (decide (j = i)) as [->|Hj].
  - rewrite list_lookup_insert_eq.
    + rewrite Hp. simpl. rewrite bool_decide_eq_true_2; [done|by left].
    + unfold slots. rewrite length_imap. by eapply lookup_lt_Some.
  - rewrite list_lookup_insert_ne, slots_lookup by done. destruct (l !! j); [|done]. simpl.
    rewrite (bool_decide_ext (j ∈ done) (j ∈ i :: done)); [done|]. rewrite elem_of_cons. tauto.
Qed.

Lemma slots_nil : slots [] = replicate (length l) emptyPacket.
Proof.
  apply list_eq. intros j. rewrite slots_lookup. destruct (l !! j) eqn:E; simpl.
  - symmetry. apply lookup_replicate. split; [done|]. by eapply lookup_lt_Some.
  - symmetry. apply lookup_replicate_None. by apply lookup_ge_None.
Qed.

Lemma slots_all done : (forall i, (i < length l)%nat -> i ∈ done) -> slots done = l.
Proof.
  intros Hall. apply list_eq. intros j. rewrite slots_lookup. destruct (l !! j) eqn:E; [|done]. simpl.
  rewrite bool_decide_eq_true_2; [done|]. apply Hall. by eapply lookup_lt_Some.
Qed.

Definition waiting_for (st : Reassembler) (done : list nat) : Prop :=
  match done with [] => st !! key = None | _ => exists t, st !! key = Some (partial done t) end.

Lemma receive_slot now i p done st :
  l !! i = Some p -> i ∉ done -> waiting_for st done ->
  exists t, receive now endpoint p st =
    (let pp := partial (i :: done) t in
     if Z.of_nat (length (i :: done)) =? n then
       reassembled ← doReassembly pp; firstFrag ← slots (i :: done) !! 0%nat;
       match block parseBlock reassembled firstFrag with
       | MalformedBlock => Some (MalformedBlock, <[key := pp]> st)
       | r => Some (r, delete key st)
       end
     else Some (Dropped, <[key := partial (i :: done) (Some (now + reassemblyTimeout))]> st)).
Proof using Hnum Hlen.
  intros Hp Hi Hw. destruct Hnum as [Hbase Hl]. destruct (Hl i p Hp) as (H1 & H2 & H3 & [b Hb]).
  apply lookup_lt_Some in Hp as Hlt. unfold receiveFragment. rewrite Hb, H1, H2, H3. cbn [mbind option_bind from_option id].
  rewrite (proj2 (Z.leb_gt _ _)), (proj2 (Z.ltb_ge _ _)) by lia.
  assert ((Z.of_nat i =? 0) && (n =? 1) = false) as -> by lia.
  assert (u64 (u64 (base + Z.of_nat i) - Z.of_nat i) = base) as ->.
  { unfold u64. rewrite Zminus_mod_idemp_l. replace (base + Z.of_nat i - Z.of_nat i) with base by lia. by apply Z.mod_small. }
  set (pp := if pp_fragCount _ =? 0 then _ else _).
  assert (exists t, pp = partial done t) as [t ->].
  { unfold pp, waiting_for in *. destruct done as [|d done].
    - rewrite Hw. simpl. eexists. unfold partial. rewrite slots_nil, Nat2Z.id. done.
    - destruct Hw as [t ->]. simpl. exists t. by rewrite (proj2 (Z.eqb_neq _ _)) by lia. }
  exists t. cbn [partial pp_fragCount pp_fragments pp_nReceivedFragments pp_dropTimer]. rewrite Z.eqb_refl. simpl negb. cbv iota.
  rewrite Nat2Z.id, slots_lookup, Hp. cbn [fmap option_fmap option_map mbind option_bind].
  rewrite bool_decide_eq_false_2 by done. cbn [emptyPacket lp_sequence]. rewrite slots_insert by done.
  unfold partial. simpl length. rewrite Nat2Z.inj_succ. done.
Qed.

(** The packets that arrive, with the times, and the result of each. *)
Fixpoint receiveAll (arrivals : list (Z * LpPacket)) st : option (list (Received Block) * Reassembler) :=
  match arrivals with
  | [] => Some ([], st)
  | (now, p) :: arrivals =>
      '(r, st) ← receive now endpoint p st;
      '(rs, st) ← receiveAll arrivals st;
      Some (r :: rs, st)
  end.

Definition index_of p : nat := Z.to_nat (default 0 (lp_fragIndex p)).

Lemma index_lookup p : p ∈ l -> l !! index_of p = Some p.
Proof using Hnum.
  intros (i & Hi)%list_elem_of_lookup. destruct (proj2 Hnum i p Hi) as (H1 & _). unfold index_of. rewrite H1. simpl. by rewrite Nat2Z.id.
Qed.

Lemma indices_seq : index_of <$> l = seq 0 (length l).
Proof using Hnum.
  apply list_eq. intros i. rewrite list_lookup_fmap. destruct (l !! i) as [p|] eqn:E; simpl.
  - destruct (proj2 Hnum i p E) as (H1 & _). unfold index_of. rewrite H1. simpl. rewrite Nat2Z.id.
    symmetry. apply lookup_seq. split; [done|]. by eapply lookup_lt_Some.
  - symmetry. apply lookup_ge_None. rewrite length_seq. by apply lookup_ge_None.
Qed.

Lemma all_indices (done : list nat) : NoDup done -> length done = length l -> (forall i, i ∈ done -> (i < length l)%nat) ->
  forall i, (i < length l)%nat -> i ∈ done.
Proof.
  intros Hnd Hl Hin i Hi. assert (done ⊆+ seq 0 (length l)) as Hsub.
  { apply NoDup_submseteq; [done|]. intros j Hj. apply elem_of_seq. apply Hin in Hj. lia. }
  apply submseteq_length_Permutation in Hsub; [|rewrite length_seq; lia]. rewrite Hsub. apply elem_of_seq. lia.
Qed.

Lemma fragments_concat : exists bs, mapM lp_fragment l = Some bs.
Proof using Hnum.
  apply mapM_is_Some. apply Forall_forall. intros p (i & Hi)%list_elem_of_lookup. by destruct (proj2 Hnum i p Hi) as (_ & _ & _ & ?).
Qed.

Lemma receive_all bs (b : Block) first arrivals : mapM lp_fragment l = Some bs -> parseBlock (concat bs) = Some b -> l !! 0%nat = Some first ->
  forall got st, arrivals <> [] -> (forall p, p ∈ arrivals.*2 -> p ∈ l) -> NoDup ((index_of <$> arrivals.*2) ++ got) ->
  (length arrivals + length got = length l)%nat -> (forall i, i ∈ got -> (i < length l)%nat) -> waiting_for st got ->
  receiveAll arrivals st = Some (replicate (length arrivals - 1) Dropped ++ [Reassembled b first], delete key st).
Proof using Hnum Hlen.
  intros Hbs Hb Hf. induction arrivals as [|[now p] arrivals IH]; intros got st Hne Hin Hnd Hl Hd Hw; [done|].
  simpl in Hnd. apply NoDup_cons in Hnd as [Hp Hnd]. rewrite elem_of_app in Hp.
  assert (l !! index_of p = Some p) as Hlp by (apply index_lookup, Hin; by left).
  destruct (receive_slot now (index_of p) p got st) as [t E]; [done|tauto|done|]. cbn [receiveAll]. rewrite E. simpl in Hl.
  assert (NoDup (index_of p :: got)) as Hnd2.
  { apply NoDup_cons. split; [tauto|]. by apply NoDup_app in Hnd as (_ & _ & ?). }
  assert (forall i, i ∈ index_of p :: got -> (i < length l)%nat) as Hd2.
  { intros i [->|Hi]%elem_of_cons; [by eapply lookup_lt_Some|by apply Hd]. }
  destruct arrivals as [|a arrivals].
  - rewrite (proj2 (Z.eqb_eq _ _)) by (simpl in *; lia).
    assert (slots (index_of p :: got) = l) as Hs by (apply slots_all, all_indices; [done|simpl in *; lia|done]).
    unfold doReassembly. cbn [partial pp_fragments]. rewrite Hs, Hbs, Hf. simpl. unfold block. by rewrite Hb.
  - rewrite (proj2 (Z.eqb_neq _ _)) by (simpl in *; lia). cbn [mbind option_bind].
    rewrite (IH (index_of p :: got)); [|done| | |simpl in *; lia|done|].
    + simpl. by rewrite Nat.sub_0_r, delete_insert_eq.
    + intros x Hx. apply Hin. by right.
    + rewrite <-Permutation_middle. by apply NoDup_cons; split; [rewrite elem_of_app|].
    + simpl. eexists. by rewrite lookup_insert_eq.
Qed.
End AnyOrder.

(** ** Whatever arrives *)

Definition nSequences (l : list LpPacket) : nat := length (filter (fun p => is_Some (lp_sequence p)) l).

Lemma nSequences_insert l i p q : l !! i = Some q -> lp_sequence q = None -> is_Some (lp_sequence p) ->
  nSequences (<[i := p]> l) = S (nSequences l).
Proof.
  unfold nSequences. revert i. induction l as [|x l IH]; intros [|i] Hi Hq Hp; simpl in *; try done.
  - injection Hi as ->. rewrite filter_cons_True, filter_cons_False by (try done; rewrite Hq; by intros []). done.
  - destruct (decide (is_Some (lp_sequence x))); [rewrite !filter_cons_True by done|rewrite !filter_cons_False by done]; simpl; by rewrite (IH i).
Qed.

Lemma nSequences_full l : nSequences l = length l -> Forall (fun p => is_Some (lp_sequence p)) l.
Proof.
  unfold nSequences. induction l as [|x l IH]; intros Hl; [apply Forall_nil_2|].
  pose proof (length_filter (fun p => is_Some (lp_sequence p)) l) as Hle.
  destruct (decide (is_Some (lp_sequence x))); [rewrite filter_cons_True in Hl by done|rewrite filter_cons_False in Hl by done]; simpl in Hl.
  - constructor; [done|]. apply IH. lia.
  - lia.
Qed.

Lemma nSequences_replicate k : nSequences (replicate k emptyPacket) = 0%nat.
Proof. unfold nSequences. induction k as [|k IH]; [done|]. simpl. rewrite filter_cons_False; [done|by intros []]. Qed.

(** A partial packet has a slot per fragment and counts the filled ones. *)
Definition pp_ok (nMaxFragments : Z) pp : Prop :=
  2 <= pp_fragCount pp <= nMaxFragments /\ Z.of_nat (length (pp_fragments pp)) = pp_fragCount pp /\
  pp_nReceivedFragments pp = Z.of_nat (nSequences (pp_fragments pp)) /\
  Forall (fun p => is_Some (lp_sequence p) -> is_Some (lp_fragment p)) (pp_fragments pp).

Definition reassembler_ok (nMaxFragments : Z) st : Prop := map_Forall (fun _ => pp_ok nMaxFragments) st.

(** A received packet with a payload; numbers are unsigned. *)
Definition packet_ok p : Prop :=
  is_Some (lp_fragment p) /\ (forall i, lp_fragIndex p = Some i -> 0 <= i) /\ (forall c, lp_fragCount p = Some c -> 0 <= c).

Section Safe.
Context {Block : Type} (parseBlock : list Z -> option Block) (nMaxFragments reassemblyTimeout : Z).

Lemma receive_safe now endpoint p st : reassembler_ok nMaxFragments st -> packet_ok p ->
  exists r st', receiveFragment parseBlock nMaxFragments reassemblyTimeout now endpoint p st = Some (r, st') /\ reassembler_ok nMaxFragments st'.
Proof.
  intros Hst ([b Hb] & Hi & Hc). unfold receiveFragment. rewrite Hb. cbn [mbind option_bind].
  set (fi := default 0 (lp_fragIndex p)). set (fc := default 1 (lp_fragCount p)).
  assert (0 <= fi) as Hfi by (unfold fi; destruct (lp_fragIndex p); simpl; [by apply Hi|lia]).
  destruct (Z.leb_spec fc fi); [by eexists _, _|]. destruct (Z.ltb_spec nMaxFragments fc); [by eexists _, _|].
  destruct ((fi =? 0) && (fc =? 1)) eqn:Efast; [by eexists _, _|].
  destruct (lp_sequence p) as [sq|] eqn:Hseq; [|by eexists _, _]. set (key := (endpoint, _)).
  set (pp := if pp_fragCount _ =? 0 then _ else _).
  assert (pp_ok nMaxFragments pp) as Hpp.
  { unfold pp. destruct (st !! key) as [pp0|] eqn:E0; simpl.
    - pose proof (Hst key pp0 E0) as Hpp0. rewrite (proj2 (Z.eqb_neq _ _)); [done|]. destruct Hpp0 as (? & _). lia.
    - split_and!; simpl; [lia|lia|rewrite length_replicate; lia|by rewrite nSequences_replicate|].
      apply Forall_replicate. by intros []. }
  clearbody pp. assert (forall pp', pp_ok nMaxFragments pp' -> reassembler_ok nMaxFragments (<[key := pp']> st)) as Hins.
  { intros pp' Hpp'. by apply map_Forall_insert_2. }
  pose proof Hpp as (H1 & H2 & H3 & H4).
  destruct (Z.eqb_spec fc (pp_fragCount pp)) as [Efc|]; [|eexists _, _; split; [done|by apply Hins]]. simpl.
  destruct (lookup_lt_is_Some_2 (pp_fragments pp) (Z.to_nat fi)) as [slot Hslot]; [lia|]. rewrite Hslot. simpl.
  destruct (lp_sequence slot) eqn:Hs; [eexists _, _; split; [done|by apply Hins]|].
  assert (nSequences (<[Z.to_nat fi := p]> (pp_fragments pp)) = S (nSequences (pp_fragments pp))) as Hns
    by (eapply nSequences_insert; [done|done|by rewrite Hseq]).
  assert (forall t, pp_ok nMaxFragments (mkPartialPacket (<[Z.to_nat fi := p]> (pp_fragments pp)) (pp_fragCount pp) (pp_nReceivedFragments pp + 1) t)) as Hnew.
  { intros t. split_and!; simpl; [lia|lia|by rewrite length_insert|rewrite Hns; lia|]. apply Forall_insert; [done|]. intros _. by eexists. }
  destruct (Z.eqb_spec (pp_nReceivedFragments pp + 1) (pp_fragCount pp)) as [Efull|]; [|eexists _, _; split; [done|by apply Hins]].
  assert (is_Some (mapM lp_fragment (<[Z.to_nat fi := p]> (pp_fragments pp)))) as [bs Hbs].
  { apply mapM_is_Some. destruct (Hnew None) as (_ & _ & _ & Hall). simpl in Hall.
    assert (Forall (fun p => is_Some (lp_sequence p)) (<[Z.to_nat fi := p]> (pp_fragments pp))) as Hfull.
    { apply nSequences_full. rewrite Hns, length_insert. lia. }
    rewrite Forall_forall in *. intros x Hx. by apply Hall, Hfull. }
  unfold doReassembly. simpl. rewrite Hbs. simpl.
  destruct (lookup_lt_is_Some_2 (<[Z.to_nat fi := p]> (pp_fragments pp)) 0) as [first ->]; [rewrite length_insert; lia|]. simpl.
  destruct (block _ _ _); eexists _, _; (split; [done|]); [by apply map_Forall_delete..|by apply Hins].
Qed.

Inductive ReassemblerEvent := Arrival (now endpoint : Z) (p : LpPacket) | Timeout (key : Z * Z).

Definition reassembler_step (ev : ReassemblerEvent) st : option (Reassembler) :=
  match ev with
  | Arrival now endpoint p => snd <$> receiveFragment parseBlock nMaxFragments reassemblyTimeout now endpoint p st
  | Timeout key => Some (timeoutPartialPacket key st).2
  end.

Definition event_ok (ev : ReassemblerEvent) : Prop := match ev with Arrival _ _ p => packet_ok p | Timeout _ => True end.

(** Whatever packets arrive from whatever endpoints - with missing, repeated
    or contradictory fragment numbers - and whatever timers fire, no access of the
    reassembler is out of range, and each partial packet has as many slots as the
    fragment count, which is at most the configured limit, and counts exactly the
    slots that are filled. *)
Theorem reassembler_safe evs : Forall event_ok evs ->
  exists st, foldl (fun o ev => st ← o; reassembler_step ev st) (Some ∅) evs = Some st /\ reassembler_ok nMaxFragments st.
Proof.
  assert (forall evs st, Forall event_ok evs -> reassembler_ok nMaxFragments st ->
    exists st', foldl (fun o ev => st ← o; reassembler_step ev st) (Some st) evs = Some st' /\ reassembler_ok nMaxFragments st') as Hrun.
  { clear evs. induction evs as [|ev evs IH]; intros st Hevs Hst; [by exists st|]. apply Forall_cons in Hevs as [Hev Hevs]. simpl.
    destruct ev as [now endpoint p|key]; simpl.
    - destruct (receive_safe now endpoint p st Hst Hev) as (r & st1 & -> & Hst1). simpl. by apply IH.
    - apply IH; [done|]. unfold timeoutPartialPacket. destruct (st !! key); simpl; [by apply map_Forall_delete|done]. }
  intros Hevs. by apply Hrun; [|apply map_Forall_empty].
Qed.
End Safe.

(** *** Sequence numbers of a message *)

Lemma assign_lookup pkts : forall last i p, 0 <= last < 2 ^ 64 -> pkts !! i = Some p ->
  (assignSequences last pkts).1 !! i = Some (set_sequence (u64 (u64 (last + 1) + Z.of_nat i)) p).
Proof.
  induction pkts as [|q pkts IH]; intros last i p Hl Hi; [done|]. simpl. unfold assignSequence.
  pose proof (IH (u64 (last + 1))) as IH'. destruct (assignSequences (u64 (last + 1)) pkts) as [pkts' s'] eqn:E.
  destruct i as [|i]; simpl in *.
  - injection Hi as ->. do 2 f_equal. rewrite Z.add_0_r. symmetry. apply u64_id, u64_range.
  - rewrite (IH' i p) by (try done; apply u64_range). do 2 f_equal. unfold u64. rewrite !Zplus_mod_idemp_l.
    rewrite <-Z.add_assoc, Zplus_mod_idemp_l. f_equal. lia.
Qed.

Lemma assign_length pkts : forall last, length (assignSequences last pkts).1 = length pkts.
Proof.
  induction pkts as [|q pkts IH]; intros last; [done|]. simpl. specialize (IH (u64 (last + 1))).
  destruct (assignSequences (u64 (last + 1)) pkts) as [pkts' s']. simpl in *. by rewrite IH.
Qed.

Lemma later_lookup c bs : forall i j b, bs !! j = Some b -> later_fragments c i bs !! j = Some (indexed_fragment c (i + Z.of_nat j) emptyPacket b).
Proof.
  induction bs as [|x bs IH]; intros i [|j] b Hj; simpl in *; [done|done| |].
  - injection Hj as ->. by rewrite Z.add_0_r.
  - rewrite (IH (i + 1) j b Hj). do 2 f_equal. lia.
Qed.

Lemma later_length c i bs : length (later_fragments c i bs) = length bs.
Proof. revert i. induction bs as [|x bs IH]; intros i; [done|]. simpl. by rewrite IH. Qed.

Lemma assign_numbered p b bs last : 0 <= last < 2 ^ 64 -> numbered (u64 (last + 1)) (assignSequences last (fragments p b bs)).1.
Proof.
  intros Hl. split; [apply u64_range|]. intros i q. rewrite assign_length. intros Hq.
  assert (exists q0, fragments p b bs !! i = Some q0) as [q0 Hq0].
  { apply lookup_lt_is_Some. rewrite <-(assign_length (fragments p b bs) last). by eapply lookup_lt_Some. }
  rewrite (assign_lookup _ last i q0) in Hq by done. injection Hq as <-. simpl.
  assert (lp_fragIndex q0 = Some (Z.of_nat i) /\ lp_fragCount q0 = Some (1 + Z.of_nat (length bs)) /\ is_Some (lp_fragment q0)) as (-> & -> & Hf).
  { unfold fragments in Hq0. destruct i as [|i]; simpl in Hq0; [injection Hq0 as <-; simpl; split_and!; [done|done|by eexists]|].
    destruct (bs !! i) as [x|] eqn:Ex.
    - rewrite (later_lookup _ _ _ _ _ Ex) in Hq0. injection Hq0 as <-. simpl. split_and!; [f_equal; lia|done|by eexists].
    - apply lookup_ge_None in Ex. rewrite lookup_ge_None_2 in Hq0; [done|]. by rewrite later_length. }
  split_and!; [done| |done|done]. rewrite later_length. f_equal. lia.
Qed.

Lemma assign_payload pkts : forall last, mapM lp_fragment (assignSequences last pkts).1 = mapM lp_fragment pkts.
Proof.
  induction pkts as [|q pkts IH]; intros last; [done|]. simpl. specialize (IH (u64 (last + 1))).
  destruct (assignSequences (u64 (last + 1)) pkts) as [pkts' s']. simpl in *. by rewrite IH.
Qed.

Lemma fragments_payload p b bs : mapM lp_fragment (fragments p b bs) = Some (b :: bs).
Proof.
  unfold fragments. simpl. assert (forall c i, mapM lp_fragment (later_fragments c i bs) = Some bs) as ->; [|done].
  intros c. induction bs as [|x bs IH]; intros i; [done|]. simpl. by rewrite IH.
Qed.

(** The fragmenter's outcome. A packet that is not already a fragment is
    refused only when the MTU has no room for one byte beside its headers, or when
    it does not fit the maximal number of fragments. Otherwise it is left whole or
    split into at least two fragments, numbered from 0, of which the first has the
    packet's headers, whose payloads put together are the packet's; and each fits
    the MTU, also after a sequence number is added. No assertion fails. *)
Theorem fragmentPacket_correct nMax p b mtu :
  lp_fragment p = Some b -> lp_fragIndex p = None -> lp_fragCount p = None -> 1 <= nMax ->
  exists r, fragmentPacket nMax p mtu = Some r /\
    match r with
    | None => mtu < MAX_FRAG_OVERHEAD + headerSize p + 1 \/
              (mtu - headerSize p - MAX_FRAG_OVERHEAD) + (nMax - 1) * (mtu - MAX_FRAG_OVERHEAD) < Z.of_nat (length b)
    | Some frags =>
        (frags = [p] \/ exists b0 bs, frags = fragments p b0 bs /\ b0 ++ concat bs = b /\ bs <> [] /\
           Z.of_nat (length frags) <= nMax) /\
        forall frag s, frag ∈ frags -> wireSize (set_sequence s frag) <= mtu
    end.
Proof.
  intros Hb Hi Hc Hn. destruct (fragment_ok nMax p b mtu Hb Hi Hc Hn) as (r & E & Hr). exists r. split; [done|]. destruct r as [frags|]; [|done].
  destruct Hr as [Hf Hsz]. split; [done|]. intros frag s Hfrag. destruct (Hsz frag s Hfrag) as (b' & Hb' & Hle).
  pose proof (wireSize_bound (set_sequence s frag) b' Hb'). lia.
Qed.

(** C6: the fragments of a packet, with sequence numbers, are received in any
    order and at any times by a reassembler that has no partial packet under the
    message identifier. All but the last to arrive are kept back; the last one
    yields the network packet and the first fragment, which has the headers of the
    original; and nothing is left in the reassembler. *)
Theorem fragment_roundtrip {Block : Type} (parseBlock : list Z -> option Block) (nMax nMax' timeout endpoint last mtu : Z) p b (netPkt : Block) (frags : list LpPacket)
    (arrivals : list (Z * LpPacket)) (st : gmap (Z * Z) PartialPacket) :
  lp_fragment p = Some b -> lp_fragIndex p = None -> lp_fragCount p = None -> 1 <= nMax <= nMax' -> 0 <= last < 2 ^ 64 ->
  parseBlock b = Some netPkt -> fragmentPacket nMax p mtu = Some (Some frags) ->
  arrivals.*2 ≡ₚ (if (1 <? length frags)%nat then (assignSequences last frags).1 else frags) ->
  st !! (endpoint, u64 (last + 1)) = None ->
  exists first, receiveAll parseBlock nMax' timeout endpoint arrivals st =
      Some (replicate (length frags - 1) Dropped ++ [Reassembled netPkt first], st) /\ lp_headers first = lp_headers p.
Proof.
  intros Hb Hi Hc Hn Hlast Hblk Hfrag Harr Hst.
  destruct (fragment_ok nMax p b mtu) as (r & Hr & Hspec); [done..|lia|]. rewrite Hfrag in Hr. injection Hr as <-.
  destruct Hspec as [[->|(b0 & bs & -> & Hcat & Hne & Hmax)] _].
  - simpl in Harr. apply Permutation_singleton_r in Harr. destruct arrivals as [|[t q] [|]]; try done. injection Harr as ->.
    exists p. split; [|done]. simpl. unfold receiveFragment. rewrite Hb, Hi, Hc. simpl.
    rewrite (proj2 (Z.ltb_ge _ _)) by lia. unfold block. by rewrite Hblk.
  - assert (1 < length (fragments p b0 bs))%nat as Hlen by (destruct bs; [done|simpl; lia]).
    rewrite (proj2 (Nat.ltb_lt _ _) Hlen) in Harr. set (l := (assignSequences last (fragments p b0 bs)).1) in *.
    assert (length l = length (fragments p b0 bs)) as Hll by apply assign_length.
    assert (length arrivals = length l) as Hal by (by rewrite <-Harr, length_fmap).
    pose proof (assign_numbered p b0 bs last Hlast) as Hnum. fold l in Hnum.
    exists (set_sequence (u64 (u64 (last + 1) + 0)) (indexed_fragment (1 + Z.of_nat (length bs)) 0 p b0)). split; [|done].
    rewrite <-Hll, <-Hal.
    rewrite (receive_all parseBlock nMax' timeout endpoint (u64 (last + 1)) l Hnum ltac:(lia) (b0 :: bs) netPkt
      (set_sequence (u64 (u64 (last + 1) + 0)) (indexed_fragment (1 + Z.of_nat (length bs)) 0 p b0)) arrivals) with (got := []).
    + by rewrite delete_id.
    + unfold l. by rewrite assign_payload, fragments_payload.
    + simpl. by rewrite Hcat.
    + unfold l. by rewrite (assign_lookup _ last 0 (indexed_fragment (1 + Z.of_nat (length bs)) 0 p b0)).
    + intros ->. simpl in Hal. lia.
    + intros q Hq. by rewrite <-Harr.
    + rewrite app_nil_r, Harr, (indices_seq _ _ Hnum). apply NoDup_seq.
    + simpl. lia.
    + by intros i ?%not_elem_of_nil.
    + done.
Qed.
End Fragmentation.

Module LpFragmentationExamples.
Definition ten (o : option Z) : Z := match o with Some _ => 10 | None => 0 end.
(** Headers of a given size, with every length and number at its largest. *)
Definition exHeaderSize (p : LpPacket nat) : Z :=
  Z.of_nat (lp_headers p) + ten (lp_sequence p) + ten (lp_fragIndex p) + ten (lp_fragCount p).
Definition exWireSize (p : LpPacket nat) : Z :=
  let L := Z.of_nat (length (default [] (lp_fragment p))) in
  if exHeaderSize p =? 0 then L else 10 + exHeaderSize p + 10 + L.

Lemma ten_range o : 0 <= ten o <= 10.
Proof. destruct o; simpl; lia. Qed.

#[export] Instance exampleEncoding : LpEncoding nat.
Proof.
  refine {| noHeaders := 0%nat; wireSize := exWireSize; headerSize := exHeaderSize |}; unfold exWireSize.
  - intros p. unfold exHeaderSize. pose proof (ten_range (lp_sequence p)). pose proof (ten_range (lp_fragIndex p)).
    pose proof (ten_range (lp_fragCount p)). lia.
  - reflexivity.
  - reflexivity.
  - intros s p. unfold exHeaderSize. simpl. pose proof (ten_range (lp_sequence p)). lia.
  - intros s p. unfold exHeaderSize. simpl. pose proof (ten_range (lp_fragIndex p)). lia.
  - intros s p. unfold exHeaderSize. simpl. pose proof (ten_range (lp_fragCount p)). lia.
  - intros p b Hb. rewrite Hb. simpl. destruct (Z.eqb_spec (exHeaderSize p) 0); lia.
  - intros p b Hb. rewrite Hb. simpl. destruct (Z.eqb_spec (exHeaderSize p) 0); lia.
Defined.

Definition packet : LpPacket nat := mkLpPacket (Some (replicate 30 7)) None None None 3%nat.
Definition frags : list (LpPacket nat) := fragments packet (replicate 18 7) [replicate 12 7].
Definition sentFrags : list (LpPacket nat) := (assignSequences (2 ^ 64 - 2) frags).1.

Lemma fragmentPacket_correct_witness : exists r, fragmentPacket 400 packet 71 = Some r.
Proof.
  destruct (fragmentPacket_correct 400 packet (replicate 30 7) 71) as (r & Hr & _); [reflexivity|reflexivity|reflexivity|lia|].
  exists r. exact Hr.
Defined.

(** The second fragment, whose sequence number wraps to zero, arrives first. *)
Lemma fragment_roundtrip_witness : exists first,
  receiveAll Some 400 500 1 (zip [20; 10] (reverse sentFrags)) ∅ =
    Some ([Dropped; Reassembled (replicate 30 7) first], ∅) /\ lp_headers first = 3%nat.
Proof.
  destruct (fragment_roundtrip Some 400 400 500 1 (2 ^ 64 - 2) 71 packet (replicate 30 7) (replicate 30 7) frags
    (zip [20; 10] (reverse sentFrags)) ∅) as (first & Hr & Hh).
  - reflexivity.
  - reflexivity.
  - reflexivity.
  - lia.
  - lia.
  - reflexivity.
  - vm_compute. reflexivity.
  - change ((zip [20; 10] (reverse sentFrags)).*2) with (reverse sentFrags). apply reverse_Permutation.
  - reflexivity.
  - exists first. split; [exact Hr|exact Hh].
Defined.

Lemma reassembler_safe_witness : exists st,
  foldl (fun o ev => st ← o; reassembler_step (Some : list Z -> option (list Z)) 400 500 ev st) (Some ∅)
    [Arrival 0 1 packet; Timeout (1, 0)] = Some st /\ reassembler_ok 400 st.
Proof.
  destruct (reassembler_safe (Some : list Z -> option (list Z)) 400 500 [Arrival 0 1 packet; Timeout (1, 0)]) as (st & Hs & Hok).
  - constructor; [|constructor; [exact I|constructor]]. split; [by eexists|]. split; intros ? [=].
  - exists st. split; [exact Hs|exact Hok].
Defined.
End LpFragmentationExamples.
