(* ===== verification/Face.v ===== *)
(** * Transports, faces and the face table

    Models the base class of [daemon/face/transport.cpp] (the state machine, the
    persistency and the counters; sending and closing end in a call of the
    subclass, recorded as an event), [connectFaceClosedSignal] of [channel.cpp]
    and [daemon/fw/face-table.cpp]. Faces are shared objects: the table and the
    channels that made them hold handles into one store. *)

From S2P Require Import Prelude.
Local Open Scope Z_scope.

(** ** Transport *)

Inductive TransportState := UP | DOWN | CLOSING | FAILED | CLOSED.
#[export] Instance TransportState_eq_dec : EqDecision TransportState.
Proof. solve_decision. Defined.

Inductive FacePersistency := PERSISTENCY_NONE | ON_DEMAND | PERSISTENT | PERMANENT.
#[export] Instance FacePersistency_eq_dec : EqDecision FacePersistency.
Proof. solve_decision. Defined.

Definition MTU_UNLIMITED : Z := -1.
Definition MTU_INVALID : Z := -2.
Definition QUEUE_UNSUPPORTED : Z := -1.
Definition QUEUE_ERROR : Z := -2.
Definition MIN_MTU : Z := 64.

Record TransportCounters := mkTransportCounters {
  nInPackets : Z;
  nOutPackets : Z;
  nInBytes : Z;
  nOutBytes : Z
}.

Record Transport := mkTransport {
  t_persistency : FacePersistency;
  t_mtu : Z;
  t_sendQueueCapacity : Z;
  t_state : TransportState;
  t_counters : TransportCounters
}.

(** The constructor; the subclass then sets the MTU. *)
Definition newTransport : Transport :=
  mkTransport PERSISTENCY_NONE MTU_INVALID QUEUE_UNSUPPORTED UP (mkTransportCounters 0 0 0 0).

Definition set_state (s : TransportState) (t : Transport) : Transport :=
  mkTransport (t_persistency t) (t_mtu t) (t_sendQueueCapacity t) s (t_counters t).
Definition set_persistency (p : FacePersistency) (t : Transport) : Transport :=
  mkTransport p (t_mtu t) (t_sendQueueCapacity t) (t_state t) (t_counters t).
Definition set_counters (c : TransportCounters) (t : Transport) : Transport :=
  mkTransport (t_persistency t) (t_mtu t) (t_sendQueueCapacity t) (t_state t) c.

(** [None] is the assertion on the argument. *)
Definition setMtu (mtu : Z) (t : Transport) : option Transport :=
  if (mtu =? MTU_UNLIMITED) || (0 <? mtu) then
    Some (mkTransport (t_persistency t) mtu (t_sendQueueCapacity t) (t_state t) (t_counters t))
  else None.

(** The transitions that [setState] accepts. *)
Definition isValid (m_state newState : TransportState) : bool :=
  match m_state with
  | UP => bool_decide (newState = DOWN) || bool_decide (newState = CLOSING) || bool_decide (newState = FAILED)
  | DOWN => bool_decide (newState = UP) || bool_decide (newState = CLOSING) || bool_decide (newState = FAILED)
  | CLOSING | FAILED => bool_decide (newState = CLOSED)
  | CLOSED => false
  end.

Inductive StateChange :=
  | Unchanged
  | AfterStateChange (oldState newState : TransportState)  (* the signal *)
  | InvalidTransition.                                     (* std::runtime_error *)

Definition setState (newState : TransportState) (t : Transport) : StateChange * Transport :=
  if decide (t_state t = newState) then (Unchanged, t)
  else if isValid (t_state t) newState then (AfterStateChange (t_state t) newState, set_state newState t)
  else (InvalidTransition, t).

(** Whether [doClose] is called, and the state change before it. *)
Definition close (t : Transport) : option StateChange * Transport :=
  if decide (t_state t <> UP /\ t_state t <> DOWN) then (None, t)
  else let '(c, t) := setState CLOSING t in (Some c, t).

(** [Some (true, t)] when [doSend] is called; the argument is the packet's size. *)
Definition fits (mtu size : Z) : bool := (mtu =? MTU_UNLIMITED) || (size <=? mtu).

Definition send (size : Z) (t : Transport) : option (bool * Transport) :=
  if fits (t_mtu t) size then
    if decide (t_state t <> UP /\ t_state t <> DOWN) then Some (false, t)
    else
      let c := t_counters t in
      let t := if decide (t_state t = UP)
               then set_counters (mkTransportCounters (nInPackets c) (u64 (nOutPackets c + 1)) (nInBytes c) (u64 (nOutBytes c + size))) t
               else t in
      Some (true, t)
  else None.

(** The counters, before the packet goes to the link service. *)
Definition receive (size : Z) (t : Transport) : option Transport :=
  if fits (t_mtu t) size then
    let c := t_counters t in
    Some (set_counters (mkTransportCounters (u64 (nInPackets c + 1)) (nOutPackets c) (u64 (nInBytes c + size)) (nOutBytes c)) t)
  else None.

(** [impl] is the subclass's [canChangePersistencyToImpl]. *)
Definition canChangePersistencyTo (impl : FacePersistency -> bool) (newPersistency : FacePersistency) (t : Transport) : bool :=
  if decide (t_persistency t = newPersistency \/ t_persistency t = PERSISTENCY_NONE) then true
  else if decide (newPersistency = PERSISTENCY_NONE) then false
  else impl newPersistency.

(** With the persistency given to [afterChangePersistency], if it is called. *)
Definition setPersistency (impl : FacePersistency -> bool) (newPersistency : FacePersistency) (t : Transport)
    : option (option FacePersistency * Transport) :=
  if canChangePersistencyTo impl newPersistency t then
    if decide (t_persistency t = newPersistency) then Some (None, t)
    else
      let oldPersistency := t_persistency t in
      Some (if decide (oldPersistency = PERSISTENCY_NONE) then None else Some oldPersistency, set_persistency newPersistency t)
  else None.

(** ** The face table *)

Definition INVALID_FACEID : Z := 0.
Definition FACEID_RESERVED_MAX : Z := 255.

(** [f_onClosed] are the FaceIds whose removal is connected to the signal of the
    transport's state. *)
Record Face := mkFace {
  f_id : Z;
  f_transport : Transport;
  f_onClosed : list Z
}.

Inductive FaceTableEvent := AfterAdd (id : Z) | BeforeRemove (id : Z).

Record FaceTable := mkFaceTable {
  m_lastFaceId : Z;
  m_faces : gmap Z nat;
  ft_store : gmap nat Face;         (* the objects *)
  ft_events : list FaceTableEvent   (* the signals, the latest first *)
}.

Definition newFaceTable (store : gmap nat Face) : FaceTable := mkFaceTable FACEID_RESERVED_MAX ∅ store [].

Definition get (id : Z) (ft : FaceTable) : option nat := m_faces ft !! id.
Definition size_ (ft : FaceTable) : nat := size (m_faces ft).

Definition update_face (h : nat) (f : Face) (ft : FaceTable) : FaceTable :=
  mkFaceTable (m_lastFaceId ft) (m_faces ft) (<[h := f]> (ft_store ft)) (ft_events ft).

(** [None] is the failed verification that the FaceId is new. *)
Definition addImpl (h : nat) (faceId : Z) (ft : FaceTable) : option FaceTable :=
  face ← ft_store ft !! h;
  match m_faces ft !! faceId with
  | Some _ => None
  | None =>
      Some (mkFaceTable (m_lastFaceId ft) (<[faceId := h]> (m_faces ft))
              (<[h := mkFace faceId (f_transport face) (f_onClosed face ++ [faceId])]> (ft_store ft))
              (AfterAdd faceId :: ft_events ft))
  end.

Definition add (h : nat) (ft : FaceTable) : option FaceTable :=
  face ← ft_store ft !! h;
  if negb (f_id face =? INVALID_FACEID) && bool_decide (is_Some (m_faces ft !! f_id face)) then Some ft
  else
    let faceId := u64 (m_lastFaceId ft + 1) in
    if FACEID_RESERVED_MAX <? faceId then
      addImpl h faceId (mkFaceTable faceId (m_faces ft) (ft_store ft) (ft_events ft))
    else None.

Definition addReserved (h : nat) (faceId : Z) (ft : FaceTable) : option FaceTable :=
  face ← ft_store ft !! h;
  if (f_id face =? INVALID_FACEID) && (faceId <=? FACEID_RESERVED_MAX) then addImpl h faceId ft else None.

Definition remove (faceId : Z) (ft : FaceTable) : option FaceTable :=
  h ← m_faces ft !! faceId;
  face ← ft_store ft !! h;
  Some (mkFaceTable (m_lastFaceId ft) (delete faceId (m_faces ft))
          (<[h := mkFace INVALID_FACEID (f_transport face) (f_onClosed face)]> (ft_store ft))
          (BeforeRemove faceId :: ft_events ft)).

Fixpoint removeAll (ids : list Z) (ft : FaceTable) : option FaceTable :=
  match ids with [] => Some ft | id :: ids => ft ← remove id ft; removeAll ids ft end.

(** The transport of a face changes state: the connected functions run when it is
    closed; an invalid transition throws. *)
Definition setFaceState (h : nat) (newState : TransportState) (ft : FaceTable) : option FaceTable :=
  face ← ft_store ft !! h;
  let '(c, t) := setState newState (f_transport face) in
  let ft := update_face h (mkFace (f_id face) t (f_onClosed face)) ft in
  match c with
  | AfterStateChange _ CLOSED => removeAll (f_onClosed face) ft
  | Unchanged | AfterStateChange _ _ => Some ft
  | InvalidTransition => None
  end.

Definition closeFace (h : nat) (ft : FaceTable) : option FaceTable :=
  face ← ft_store ft !! h;
  let '(_, t) := close (f_transport face) in
  Some (update_face h (mkFace (f_id face) t (f_onClosed face)) ft).

(** ** The invariant of the table *)

(** The identifiers above the reserved ones that have been given out. *)
Fixpoint given (evs : list FaceTableEvent) : list Z :=
  match evs with
  | [] => []
  | AfterAdd id :: evs => if FACEID_RESERVED_MAX <? id then id :: given evs else given evs
  | BeforeRemove _ :: evs => given evs
  end.

(** Whether the latest signal about an identifier is its addition. *)
Fixpoint live (id : Z) (evs : list FaceTableEvent) : bool :=
  match evs with
  | [] => false
  | AfterAdd id' :: evs => if id' =? id then true else live id evs
  | BeforeRemove id' :: evs => if id' =? id then false else live id evs
  end.

(** An identifier in the table names a face that has it; a face that is not closed
    has just the removal of its own identifier connected; the identifiers are
    positive and at most the last one given out, and no unreserved one was given
    out twice; the signals agree with the table. *)
Record table_ok (ft : FaceTable) : Prop := {
  table_faces id h : m_faces ft !! id = Some h -> exists f, ft_store ft !! h = Some f /\ f_id f = id;
  table_open h f : ft_store ft !! h = Some f -> t_state (f_transport f) <> CLOSED ->
    f_onClosed f = if f_id f =? INVALID_FACEID then [] else [f_id f];
  table_member h f : ft_store ft !! h = Some f -> f_id f <> INVALID_FACEID -> m_faces ft !! f_id f = Some h;
  table_last : FACEID_RESERVED_MAX <= m_lastFaceId ft < 2 ^ 64;
  table_ids id h : m_faces ft !! id = Some h -> 1 <= id <= m_lastFaceId ft;
  table_given id : id ∈ given (ft_events ft) -> id <= m_lastFaceId ft;
  table_given_once : NoDup (given (ft_events ft));
  table_live id : live id (ft_events ft) = bool_decide (is_Some (m_faces ft !! id))
}.

Lemma newFaceTable_ok store :
  (forall h f, store !! h = Some f -> f_id f = INVALID_FACEID /\ f_onClosed f = []) -> table_ok (newFaceTable store).
Proof.
  intros Hs. constructor; simpl.
  - intros id h. by rewrite lookup_empty.
  - intros h f Hf _. by destruct (Hs h f Hf) as [-> ->].
  - intros h f Hf. by destruct (Hs h f Hf) as [-> _].
  - unfold FACEID_RESERVED_MAX. lia.
  - intros id h. by rewrite lookup_empty.
  - by intros id ?%not_elem_of_nil.
  - constructor.
  - intros id. rewrite lookup_empty. symmetry. apply bool_decide_eq_false. by intros [? ?].
Qed.

(** Adding a face that is in no table under a new identifier, with the counter at
    [last]. *)
Lemma addImpl_ok ft h f id last :
  table_ok ft -> ft_store ft !! h = Some f -> f_id f = INVALID_FACEID -> m_faces ft !! id = None ->
  m_lastFaceId ft <= last < 2 ^ 64 -> 1 <= id <= last -> (FACEID_RESERVED_MAX < id -> m_lastFaceId ft < id) ->
  exists ft', addImpl h id (mkFaceTable last (m_faces ft) (ft_store ft) (ft_events ft)) = Some ft' /\ table_ok ft' /\
    m_faces ft' = <[id := h]> (m_faces ft) /\ ft_events ft' = AfterAdd id :: ft_events ft.
Proof.
  intros [Hfaces Hopen Hmem Hlast Hids Hgiven Honce Hlive] Hf Hid Hnew Hl Hrange Hfresh.
  unfold addImpl. simpl. rewrite Hf. simpl. rewrite Hnew. eexists. split; [done|]. split; [|done].
  constructor; simpl.
  - intros id' h'. rewrite lookup_insert_Some. intros [[<- <-]|[Hne Hi]]; [eexists; by rewrite lookup_insert_eq|].
    destruct (Hfaces _ _ Hi) as (f' & Hf' & Hid'). exists f'. rewrite lookup_insert_ne; [done|].
    intros <-. rewrite Hf in Hf'. simplify_eq. pose proof (Hids _ _ Hi). unfold INVALID_FACEID in *. lia.
  - intros h' f'. rewrite lookup_insert_Some. intros [[<- <-]|[Hne Hf']] Hc; [|by eapply Hopen]. simpl in *.
    rewrite (Hopen h f Hf Hc), Hid. simpl. unfold INVALID_FACEID. by rewrite (proj2 (Z.eqb_neq _ _)) by lia.
  - intros h' f'. rewrite lookup_insert_Some. intros [[<- <-]|[Hne Hf']] Hc; simpl; [by rewrite lookup_insert_eq|].
    rewrite lookup_insert_ne; [by apply Hmem|]. intros ->. rewrite (Hmem _ _ Hf' Hc) in Hnew. done.
  - lia.
  - intros id' h'. rewrite lookup_insert_Some. intros [[<- <-]|[Hne Hi]]; [done|]. pose proof (Hids _ _ Hi). lia.
  - intros id'. destruct (Z.ltb_spec FACEID_RESERVED_MAX id); [intros [->|Hi]%elem_of_cons; [lia|]|intros Hi];
      pose proof (Hgiven id' Hi); lia.
  - destruct (Z.ltb_spec FACEID_RESERVED_MAX id) as [Hr|]; [|done]. apply NoDup_cons. split; [|done].
    intros Hi%Hgiven. specialize (Hfresh Hr). lia.
  - intros id'. destruct (Z.eqb_spec id id') as [->|Hne]; [by rewrite lookup_insert_eq|]. by rewrite lookup_insert_ne, Hlive.
Qed.

Lemma add_ok h f ft : table_ok ft -> ft_store ft !! h = Some f -> m_lastFaceId ft + 1 < 2 ^ 64 ->
  exists ft', add h ft = Some ft' /\ table_ok ft' /\
    if decide (f_id f = INVALID_FACEID)
    then m_faces ft' = <[m_lastFaceId ft + 1 := h]> (m_faces ft) /\ m_lastFaceId ft' = m_lastFaceId ft + 1
    else ft' = ft.
Proof.
  intros Hok Hf Hl. pose proof (table_last _ Hok) as Hlast. unfold add. rewrite Hf. simpl.
  destruct (Z.eqb_spec (f_id f) INVALID_FACEID) as [Hid|Hid]; simpl.
  - rewrite u64_id by (unfold FACEID_RESERVED_MAX in *; lia). rewrite (proj2 (Z.ltb_lt _ _)) by lia.
    destruct (addImpl_ok ft h f (m_lastFaceId ft + 1) (m_lastFaceId ft + 1)) as (ft' & E & Hok' & Hm & He).
    1-3: done. 2-4: unfold FACEID_RESERVED_MAX in *; lia.
    { destruct (m_faces ft !! (m_lastFaceId ft + 1)) as [h'|] eqn:E; [|done]. pose proof (table_ids _ Hok _ _ E). lia. }
    exists ft'. rewrite decide_True by done. split_and!; [done|done|done|].
    unfold addImpl in E. simpl in E. rewrite Hf in E. simpl in E. by destruct (m_faces ft !! _); simplify_eq.
  - rewrite bool_decide_eq_true_2 by (rewrite (table_member _ Hok h f Hf Hid); by eexists).
    exists ft. by rewrite decide_False.
Qed.

Lemma addReserved_ok h f id ft : table_ok ft -> ft_store ft !! h = Some f -> f_id f = INVALID_FACEID ->
  1 <= id <= FACEID_RESERVED_MAX -> m_faces ft !! id = None ->
  exists ft', addReserved h id ft = Some ft' /\ table_ok ft' /\ m_faces ft' = <[id := h]> (m_faces ft).
Proof.
  intros Hok Hf Hid Hr Hnew. pose proof (table_last _ Hok) as Hlast. unfold addReserved. rewrite Hf. simpl.
  rewrite Hid, Z.eqb_refl, (proj2 (Z.leb_le _ _)) by lia. simpl.
  destruct (addImpl_ok ft h f id (m_lastFaceId ft)) as (ft' & E & Hok' & Hm & _); try done; try lia.
  exists ft'. split; [|done]. by destruct ft.
Qed.

Lemma update_face_ok h f t ft : table_ok ft -> ft_store ft !! h = Some f ->
  (t_state t <> CLOSED -> t_state (f_transport f) <> CLOSED) -> table_ok (update_face h (mkFace (f_id f) t (f_onClosed f)) ft).
Proof.
  intros [Hfaces Hopen Hmem Hlast Hids Hgiven Honce Hlive] Hf Hs. constructor; simpl; try done.
  - intros id h' Hi. destruct (Hfaces _ _ Hi) as (f' & Hf' & Hid'). destruct (decide (h' = h)) as [->|Hne].
    + rewrite lookup_insert_eq. eexists. split; [done|]. by simplify_eq.
    + rewrite lookup_insert_ne by done. by exists f'.
  - intros h' f'. rewrite lookup_insert_Some. intros [[<- <-]|[Hne Hf']] Hc; [|by eapply Hopen]. simpl in *.
    apply (Hopen h f Hf). by apply Hs.
  - intros h' f'. rewrite lookup_insert_Some. intros [[<- <-]|[Hne Hf']] Hc; [by apply (Hmem h f)|by apply Hmem].
Qed.

(** A closed face is removed. *)
Lemma remove_ok h f ft : table_ok ft -> ft_store ft !! h = Some f -> f_id f <> INVALID_FACEID ->
  t_state (f_transport f) = CLOSED ->
  exists ft', remove (f_id f) ft = Some ft' /\ table_ok ft' /\ m_faces ft' = delete (f_id f) (m_faces ft).
Proof.
  intros [Hfaces Hopen Hmem Hlast Hids Hgiven Honce Hlive] Hf Hid Hc. unfold remove.
  rewrite (Hmem h f Hf Hid). simpl. rewrite Hf. simpl. eexists. split; [done|]. split; [|done]. constructor; simpl; try done.
  - intros id h'. rewrite lookup_delete_Some. intros [Hne Hi]. destruct (Hfaces _ _ Hi) as (f' & Hf' & Hid').
    exists f'. rewrite lookup_insert_ne; [done|]. intros <-. by simplify_eq.
  - intros h' f'. rewrite lookup_insert_Some. intros [[<- <-]|[Hne Hf']] Ho; [done|by eapply Hopen].
  - intros h' f'. rewrite lookup_insert_Some. intros [[<- <-]|[Hne Hf']] Ho; [done|].
    rewrite lookup_delete_ne; [by apply Hmem|]. intros Heq. pose proof (Hmem _ _ Hf Hid) as E1. pose proof (Hmem _ _ Hf' Ho) as E2.
    rewrite <-Heq in E2. simplify_eq.
  - intros id h'. rewrite lookup_delete_Some. intros [_ Hi]. by eapply Hids.
  - intros id'. destruct (Z.eqb_spec (f_id f) id') as [->|Hne]; [|by rewrite lookup_delete_ne, Hlive].
    rewrite lookup_delete_eq. symmetry. apply bool_decide_eq_false. by intros [? ?].
Qed.

Lemma setState_cases s t : let '(c, t') := setState s t in
  match c with
  | AfterStateChange o n => o = t_state t /\ n = s /\ isValid o s = true /\ t' = set_state s t
  | _ => t' = t
  end.
Proof. unfold setState. destruct (decide _); [done|]. by destruct (isValid _ _) eqn:E. Qed.

Lemma isValid_open o s : isValid o s = true -> o <> CLOSED.
Proof. by destruct o. Qed.

(** The state is the present one or one that [setState] accepts. *)
Definition accepts (t : Transport) (s : TransportState) : Prop := t_state t = s \/ isValid (t_state t) s = true.

Lemma setFaceState_ok h f s ft : table_ok ft -> ft_store ft !! h = Some f -> accepts (f_transport f) s ->
  exists ft', setFaceState h s ft = Some ft' /\ table_ok ft' /\ m_lastFaceId ft' = m_lastFaceId ft /\
    m_faces ft' = (if decide (s = CLOSED /\ isValid (t_state (f_transport f)) s = true) then delete (f_id f) (m_faces ft) else m_faces ft).
Proof.
  intros Hok Hf Hacc. unfold setFaceState. rewrite Hf. simpl.
  pose proof (setState_cases s (f_transport f)) as Hc. destruct (setState s (f_transport f)) as [c t] eqn:E.
  assert (forall c, setState s (f_transport f) = (c, t) -> (forall o n, c <> AfterStateChange o n) -> isValid (t_state (f_transport f)) s = true ->
    s <> CLOSED) as Hno.
  { intros c' Ec Hc' Hv ->. unfold setState in Ec. rewrite Hv in Ec. destruct (decide _) as [Hd|]; [by rewrite Hd in Hv|]. simplify_eq. by eapply Hc'. }
  destruct c as [|o n|].
  { subst t; eexists; split_and!; [done|by apply (update_face_ok h f)|done|].
    rewrite decide_False; [done|]; intros [-> Hv]; by eapply Hno. }
  2:{ exfalso. unfold setState in E. destruct Hacc as [Hs|Hv]; [by rewrite decide_True in E|]. rewrite Hv in E. by destruct (decide _). }
  destruct Hc as (-> & -> & Hv & ->).
  pose proof (update_face_ok h f (set_state s (f_transport f)) ft Hok Hf (fun _ => isValid_open _ _ Hv)) as Hok1.
  destruct (decide (s = CLOSED)) as [->|Hs].
  - rewrite decide_True by done. rewrite (table_open _ Hok h f Hf (isValid_open _ _ Hv)).
    destruct (Z.eqb_spec (f_id f) INVALID_FACEID) as [Hid|Hid]; cbn [removeAll].
    + eexists. split_and!; [done| |done|].
      * by rewrite (table_open _ Hok h f Hf (isValid_open _ _ Hv)), (proj2 (Z.eqb_eq _ _) Hid) in Hok1.
      * rewrite delete_id; [done|]. destruct (m_faces ft !! f_id f) as [h'|] eqn:Eh; [|done].
        pose proof (table_ids _ Hok _ _ Eh). unfold INVALID_FACEID in *. lia.
    + rewrite (table_open _ Hok h f Hf (isValid_open _ _ Hv)), (proj2 (Z.eqb_neq _ _) Hid) in Hok1.
      edestruct (remove_ok h) as (ft' & E' & Hok' & Hm); [exact Hok1|apply lookup_insert_eq|exact Hid|done|].
      simpl in E', Hm. rewrite E'. simpl. exists ft'. split_and!; [done|done| |done].
      unfold remove in E'. destruct (m_faces _ !! _); [|done]. simpl in E'. destruct (<[_:=_]> _ !! _); by simplify_eq/=.
  - rewrite decide_False by naive_solver. exists (update_face h (mkFace (f_id f) (set_state s (f_transport f)) (f_onClosed f)) ft).
    split_and!; [by destruct s|done|done|done].
Qed.

Lemma closeFace_ok h f ft : table_ok ft -> ft_store ft !! h = Some f ->
  exists ft', closeFace h ft = Some ft' /\ table_ok ft' /\ m_faces ft' = m_faces ft /\ m_lastFaceId ft' = m_lastFaceId ft.
Proof.
  intros Hok Hf. unfold closeFace. rewrite Hf. simpl. destruct (close (f_transport f)) as [c t] eqn:E.
  eexists. split_and!; [done| |done|done]. apply (update_face_ok h f); [done|done|]. intros Ht. unfold close in E.
  destruct (decide _) as [Hd|Hd]; [by simplify_eq|].
  destruct (t_state (f_transport f)) eqn:Es; [done..|exfalso; apply Hd; done|exfalso; apply Hd; done|exfalso; apply Hd; done].
Qed.

(** ** Runs *)

Inductive FaceAction :=
  | Add (h : nat)
  | AddReserved (h : nat) (id : Z)
  | Close (h : nat)
  | SetState (h : nat) (s : TransportState).

Definition face_step (ft : FaceTable) (a : FaceAction) : option FaceTable :=
  match a with
  | Add h => add h ft
  | AddReserved h id => addReserved h id ft
  | Close h => closeFace h ft
  | SetState h s => setFaceState h s ft
  end.

(** The callers' part: the handles name faces, reserved identifiers are given to
    faces that have none, each once at a time. *)
Definition allowed (ft : FaceTable) (a : FaceAction) : Prop :=
  match a with
  | Add h | Close h => is_Some (ft_store ft !! h)
  | SetState h s => exists f, ft_store ft !! h = Some f /\ accepts (f_transport f) s
  | AddReserved h id => (exists f, ft_store ft !! h = Some f /\ f_id f = INVALID_FACEID) /\
      1 <= id <= FACEID_RESERVED_MAX /\ m_faces ft !! id = None
  end.

Inductive face_run : FaceTable -> list FaceAction -> FaceTable -> Prop :=
  | face_run_nil ft : face_run ft [] ft
  | face_run_step ft a ft1 acts ft2 : allowed ft a -> face_step ft a = Some ft1 -> face_run ft1 acts ft2 ->
      face_run ft (a :: acts) ft2.

Lemma face_step_ok ft a : table_ok ft -> allowed ft a -> m_lastFaceId ft + 1 < 2 ^ 64 ->
  exists ft', face_step ft a = Some ft' /\ table_ok ft' /\ m_lastFaceId ft' <= m_lastFaceId ft + 1.
Proof.
  intros Hok Ha Hl. destruct a as [h|h id|h|h s]; simpl in *.
  - destruct Ha as [f Hf]. destruct (add_ok h f ft Hok Hf Hl) as (ft' & E & Hok' & Hd). exists ft'. split_and!; [done|done|].
    destruct (decide _) in Hd; [lia|subst; lia].
  - destruct Ha as ((f & Hf & Hid) & Hr & Hn). destruct (addReserved_ok h f id ft) as (ft' & E & Hok' & _); try done.
    exists ft'. split_and!; [done|done|]. unfold addReserved, addImpl in E. rewrite Hf in E. simpl in E.
    destruct (_ && _), (m_faces ft !! id); simplify_eq/=. lia.
  - destruct Ha as [f Hf]. destruct (closeFace_ok h f ft Hok Hf) as (ft' & E & Hok' & _ & Hl'). exists ft'. split_and!; [done|done|lia].
  - destruct Ha as (f & Hf & Hs). destruct (setFaceState_ok h f s ft Hok Hf Hs) as (ft' & E & Hok' & Hl' & _). exists ft'. split_and!; [done|done|lia].
Qed.

Lemma face_run_ok ft acts ft' : face_run ft acts ft' -> table_ok ft ->
  m_lastFaceId ft + Z.of_nat (length acts) < 2 ^ 64 -> table_ok ft' /\ m_lastFaceId ft' <= m_lastFaceId ft + Z.of_nat (length acts).
Proof.
  induction 1 as [ft|ft a ft1 acts ft2 Ha E Hrun IH]; intros Hok Hl; [split; [done|simpl; lia]|]. simpl length in *.
  destruct (face_step_ok ft a Hok Ha) as (ft1' & E' & Hok1 & Hl1); [lia|]. rewrite E in E'. injection E' as <-.
  destruct IH as [Hok2 Hl2]; [done|lia|]. split; [done|lia].
Qed.

Lemma face_closed_ok h f ft : table_ok ft -> ft_store ft !! h = Some f -> f_id f <> INVALID_FACEID ->
  t_state (f_transport f) = CLOSING \/ t_state (f_transport f) = FAILED ->
  exists ft', setFaceState h CLOSED ft = Some ft' /\ get (f_id f) ft' = None /\
    (forall id, id <> f_id f -> get id ft' = get id ft).
Proof.
  intros Hok Hf Hid Hs. destruct (setFaceState_ok h f CLOSED ft Hok Hf) as (ft' & E & _ & _ & Hm); [right; by destruct Hs as [-> | ->]|].
  exists ft'. split; [done|]. unfold get. rewrite Hm, decide_True; [|by destruct Hs as [-> | ->]].
  split; [by rewrite lookup_delete_eq|]. intros id Hne. by rewrite lookup_delete_ne.
Qed.


Module FaceExamples.
Definition store : gmap nat Face := {[ 0%nat := mkFace 0 newTransport []; 1%nat := mkFace 0 newTransport [] ]}.
Definition acts : list FaceAction := [AddReserved 1 255; Add 0; Close 0; SetState 0 CLOSED].
Definition final : FaceTable := default (newFaceTable ∅) (foldl (fun o a => ft ← o; face_step ft a) (Some (newFaceTable store)) acts).

Lemma store_new h f : store !! h = Some f -> f_id f = INVALID_FACEID /\ f_onClosed f = [].
Proof.
  unfold store. rewrite lookup_insert_Some, lookup_singleton_Some. by intros [[_ <-]|[_ [_ <-]]].
Qed.

Lemma run_acts : face_run (newFaceTable store) acts final.
Proof.
  repeat (eapply face_run_step; [|vm_compute; reflexivity|]).
  - split; [by eexists|]. split; [vm_compute; split; discriminate|reflexivity].
  - by eexists.
  - by eexists.
  - eexists. split; [vm_compute; reflexivity|]. right. reflexivity.
  - apply face_run_nil.
Qed.

End FaceExamples.
