(* ===== verification/StreamTransport.v ===== *)
(** * Stream transports

    Models [daemon/face/stream-transport.hpp], [unix-stream-transport.cpp] and
    [tcp-transport.*] on top of the base class. The socket of Boost.Asio is part of
    the state: an outstanding operation completes in a step of its own, which
    appends its handler to the queue of the io_service; the queue runs in order.
    A cancelled operation completes with [operation_aborted]. [None] is a failed
    assertion, an invalid transition of the state, the use of an empty queue or a
    second write while one is outstanding. *)

From S2P Require Import Prelude Face.
Local Open Scope Z_scope.

(** What the code uses of ndn-cxx's [Block::fromBuffer]: the size of the TLV element
    at the beginning of the octets, if it is there in full. *)
Class TlvBlocks := {
  fromBuffer : list Z -> option nat;
  fromBuffer_size b n : fromBuffer b = Some n -> (0 < n <= length b)%nat;
  fromBuffer_app b n rest : fromBuffer b = Some n -> fromBuffer (b ++ rest) = Some n;
  fromBuffer_take b n : fromBuffer b = Some n -> fromBuffer (take n b) = Some n
}.

Definition MAX_NDN_PACKET_SIZE : Z := 8800.

(** The error codes that the code distinguishes. *)
Inductive ErrorCode := operation_aborted | shut_down | eof | other_error.
#[export] Instance ErrorCode_eq_dec : EqDecision ErrorCode.
Proof. solve_decision. Defined.

(** What the io_service runs: completion handlers with their results, and posted functions. *)
Inductive Handler :=
  | HandleSend (error : option ErrorCode) (nBytesSent : nat)
  | HandleReceive (error : option ErrorCode) (bytes : list Z)
  | HandleReconnect (error : option ErrorCode)
  | DeferredClose
  | Reconnect.
#[export] Instance Handler_eq_dec : EqDecision Handler.
Proof. solve_decision. Defined.

(** The outstanding operations of a socket. *)
Record Socket := mkSocket {
  sk_open : bool;
  sk_shutdown : bool;
  sk_writing : option (list Z);   (* the octets of [async_write] *)
  sk_reading : option Z;          (* the room given to [async_receive] *)
  sk_connecting : bool
}.

(** [s_isTcp] says which subclass this is. [s_received] are the packets passed to
    the link service; [s_accepted] those put in the send queue and [s_wire] those
    written in full. *)
Record StreamTransport := mkStreamTransport {
  s_transport : Transport;
  s_isTcp : bool;
  m_socket : Socket;
  m_receiveBuffer : list Z;       (* its first [m_receiveBufferSize] octets *)
  m_sendQueue : list (list Z);
  m_sendQueueBytes : Z;
  m_nextReconnectWait : Z;        (* milliseconds *)
  m_reconnectEvent : bool;
  s_io : list Handler;
  s_received : list (list Z);
  s_accepted : list (list Z);
  s_wire : list (list Z)
}.

Definition s_initialReconnectWait : Z := 1000.
Definition s_maxReconnectWait : Z := 300000.
Definition s_reconnectWaitMultiplier : Z := 2.

Section Stream.
Context `{TlvBlocks}.
Implicit Types (st : StreamTransport) (packet bytes : list Z) (error : ErrorCode) (sk : Socket).

(** ** Fields *)

Definition set_transport (t : Transport) st : StreamTransport :=
  mkStreamTransport t (s_isTcp st) (m_socket st) (m_receiveBuffer st) (m_sendQueue st) (m_sendQueueBytes st) (m_nextReconnectWait st)
    (m_reconnectEvent st) (s_io st) (s_received st) (s_accepted st) (s_wire st).
Definition set_socket sk st : StreamTransport :=
  mkStreamTransport (s_transport st) (s_isTcp st) sk (m_receiveBuffer st) (m_sendQueue st) (m_sendQueueBytes st) (m_nextReconnectWait st)
    (m_reconnectEvent st) (s_io st) (s_received st) (s_accepted st) (s_wire st).
Definition set_receive bytes (received : list (list Z)) st : StreamTransport :=
  mkStreamTransport (s_transport st) (s_isTcp st) (m_socket st) bytes (m_sendQueue st) (m_sendQueueBytes st) (m_nextReconnectWait st)
    (m_reconnectEvent st) (s_io st) received (s_accepted st) (s_wire st).
Definition set_sendQueue (q : list (list Z)) (n : Z) st : StreamTransport :=
  mkStreamTransport (s_transport st) (s_isTcp st) (m_socket st) (m_receiveBuffer st) q n (m_nextReconnectWait st)
    (m_reconnectEvent st) (s_io st) (s_received st) (s_accepted st) (s_wire st).
Definition set_accepted (l : list (list Z)) st : StreamTransport :=
  mkStreamTransport (s_transport st) (s_isTcp st) (m_socket st) (m_receiveBuffer st) (m_sendQueue st) (m_sendQueueBytes st)
    (m_nextReconnectWait st) (m_reconnectEvent st) (s_io st) (s_received st) l (s_wire st).
Definition set_wire (l : list (list Z)) st : StreamTransport :=
  mkStreamTransport (s_transport st) (s_isTcp st) (m_socket st) (m_receiveBuffer st) (m_sendQueue st) (m_sendQueueBytes st)
    (m_nextReconnectWait st) (m_reconnectEvent st) (s_io st) (s_received st) (s_accepted st) l.
Definition set_reconnect (wait : Z) (scheduled : bool) st : StreamTransport :=
  mkStreamTransport (s_transport st) (s_isTcp st) (m_socket st) (m_receiveBuffer st) (m_sendQueue st) (m_sendQueueBytes st) wait
    scheduled (s_io st) (s_received st) (s_accepted st) (s_wire st).
Definition set_io (l : list Handler) st : StreamTransport :=
  mkStreamTransport (s_transport st) (s_isTcp st) (m_socket st) (m_receiveBuffer st) (m_sendQueue st) (m_sendQueueBytes st)
    (m_nextReconnectWait st) (m_reconnectEvent st) l (s_received st) (s_accepted st) (s_wire st).

Definition post (l : list Handler) st : StreamTransport := set_io (s_io st ++ l) st.

Definition s_state st : TransportState := t_state (s_transport st).

Definition changeState (s : TransportState) st : option StreamTransport :=
  match setState s (s_transport st) with
  | (InvalidTransition, _) => None
  | (_, t) => Some (set_transport t st)
  end.

(** ** The socket *)

(** The handlers of the outstanding operations, aborted. *)
Definition aborted sk : list Handler :=
  (match sk_reading sk with Some _ => [HandleReceive (Some operation_aborted) []] | None => [] end) ++
  (match sk_writing sk with Some _ => [HandleSend (Some operation_aborted) 0] | None => [] end) ++
  (if sk_connecting sk then [HandleReconnect (Some operation_aborted)] else []).

Definition socket_cancel st : StreamTransport :=
  let sk := m_socket st in
  post (aborted sk) (set_socket (mkSocket (sk_open sk) (sk_shutdown sk) None None false) st).

Definition socket_shutdown st : StreamTransport :=
  let sk := m_socket st in
  set_socket (mkSocket (sk_open sk) true (sk_writing sk) (sk_reading sk) (sk_connecting sk)) st.

Definition socket_close st : StreamTransport :=
  post (aborted (m_socket st)) (set_socket (mkSocket false (sk_shutdown (m_socket st)) None None false) st).

(** ** StreamTransport *)

Definition resetReceiveBuffer st : StreamTransport := set_receive [] (s_received st) st.
Definition resetSendQueue st : StreamTransport := set_sendQueue [] 0 st.

Definition doClose st : StreamTransport :=
  let st := if s_isTcp st then set_reconnect (m_nextReconnectWait st) false st else st in
  let st := if sk_open (m_socket st) then socket_shutdown (socket_cancel st) else st in
  post [DeferredClose] st.

Definition deferredClose st : option StreamTransport := changeState CLOSED (socket_close (resetSendQueue st)).

(** Only one write may be outstanding. *)
Definition sendFromQueue st : option StreamTransport :=
  let sk := m_socket st in
  match m_sendQueue st, sk_writing sk with
  | packet :: _, None => Some (set_socket (mkSocket (sk_open sk) (sk_shutdown sk) (Some packet) (sk_reading sk) (sk_connecting sk)) st)
  | _, _ => None
  end.

Definition doSend packet st : option StreamTransport :=
  if decide (s_state st = UP) then
    let wasQueueEmpty := match m_sendQueue st with [] => true | _ => false end in
    let st := set_accepted (s_accepted st ++ [packet])
                (set_sendQueue (m_sendQueue st ++ [packet]) (u64 (m_sendQueueBytes st + Z.of_nat (length packet))) st) in
    if wasQueueEmpty then sendFromQueue st else Some st
  else Some st.

Definition startReceive st : option StreamTransport :=
  if decide (s_state st = UP) then
    let sk := m_socket st in
    Some (set_socket (mkSocket (sk_open sk) (sk_shutdown sk) (sk_writing sk)
                        (Some (MAX_NDN_PACKET_SIZE - Z.of_nat (length (m_receiveBuffer st)))) (sk_connecting sk)) st)
  else None.

(** [handleError], with the override of [TcpTransport]. *)
Definition stream_handleError error st : option StreamTransport :=
  st ← changeState (if decide (error = eof) then CLOSING else FAILED) st;
  Some (doClose st).

Definition tcp_handleError error st : option StreamTransport :=
  if decide (t_persistency (s_transport st) = PERMANENT) then
    st ← changeState DOWN st;
    Some (post [Reconnect] (socket_cancel st))
  else stream_handleError error st.

Definition handleError error st : option StreamTransport :=
  if s_isTcp st then tcp_handleError error st else stream_handleError error st.

Definition isClosing (s : TransportState) : bool := match s with CLOSING | FAILED | CLOSED => true | UP | DOWN => false end.

Definition processErrorCode error st : option StreamTransport :=
  if isClosing (s_state st) || bool_decide (error = operation_aborted) || bool_decide (error = shut_down) then Some st
  else handleError error st.

Definition handleSend (error : option ErrorCode) (nBytesSent : nat) st : option StreamTransport :=
  match error with
  | Some e => processErrorCode e st
  | None =>
      match m_sendQueue st with
      | [] => None
      | packet :: queue =>
          if (length packet =? nBytesSent)%nat then
            let st := set_sendQueue queue (u64 (m_sendQueueBytes st - Z.of_nat nBytesSent)) st in
            match queue with [] => Some st | _ => sendFromQueue st end
          else None
      end
  end.

(** The loop over the buffer: the elements that are received in turn, and the
    octets from [offset] on; each turn uses up an element. *)
Fixpoint receive_loop (fuel : nat) bytes st : option (StreamTransport * list Z) :=
  match fuel with
  | O => None
  | S fuel =>
      match bytes with
      | [] => Some (st, [])
      | _ =>
          match fromBuffer bytes with
          | None => Some (st, bytes)
          | Some n =>
              if (n <=? length bytes)%nat then
                t ← Face.receive (Z.of_nat n) (s_transport st);
                receive_loop fuel (drop n bytes) (set_receive (m_receiveBuffer st) (s_received st ++ [take n bytes]) (set_transport t st))
              else None
          end
      end
  end.

Definition handleReceive (error : option ErrorCode) bytes st : option StreamTransport :=
  match error with
  | Some e => processErrorCode e st
  | None =>
      let buffer := m_receiveBuffer st ++ bytes in
      '(st, rest) ← receive_loop (S (length buffer)) buffer st;
      if (Z.of_nat (length rest) =? MAX_NDN_PACKET_SIZE) && (Z.of_nat (length buffer) =? MAX_NDN_PACKET_SIZE) then
        st ← changeState FAILED (set_receive buffer (s_received st) st);
        Some (doClose st)
      else startReceive (set_receive rest (s_received st) st)
  end.

(** The constructor. *)
Definition newStream (isTcp : bool) (persistency : FacePersistency) : option StreamTransport :=
  t ← setMtu MTU_UNLIMITED newTransport;
  startReceive (mkStreamTransport (set_persistency persistency t) isTcp (mkSocket true false None None false) [] [] 0 s_initialReconnectWait false [] [] [] []).

(** ** TcpTransport *)

Definition reconnect st : option StreamTransport :=
  if isClosing (s_state st) then Some st
  else if decide (t_persistency (s_transport st) = PERMANENT /\ s_state st = DOWN) then
    let st := set_socket (mkSocket true false None None false) (socket_close st) in
    let st := resetSendQueue (resetReceiveBuffer st) in
    Some (set_socket (mkSocket true false None None true) (set_reconnect (m_nextReconnectWait st) true st))
  else None.

Definition handleReconnect (error : option ErrorCode) st : option StreamTransport :=
  if isClosing (s_state st) || bool_decide (error = Some operation_aborted) then Some st
  else match error with
       | Some _ => Some st
       | None =>
           st ← changeState UP (set_reconnect s_initialReconnectWait false st);
           startReceive st
       end.

(** The timer [m_reconnectEvent]. The products are below 2^24, where [float] is exact. *)
Definition handleReconnectTimeout st : StreamTransport :=
  let st := socket_close st in
  post [Reconnect] (set_reconnect (Z.min (m_nextReconnectWait st * s_reconnectWaitMultiplier) s_maxReconnectWait) false st).

Definition afterChangePersistency (oldPersistency : FacePersistency) st : option StreamTransport :=
  if decide (s_isTcp st = true /\ oldPersistency = PERMANENT /\ s_state st = DOWN) then
    st ← changeState FAILED st;
    Some (doClose st)
  else Some st.

(** ** The operations of the base class and the io_service *)

Definition stream_send packet st : option StreamTransport :=
  '(sent, t) ← Face.send (Z.of_nat (length packet)) (s_transport st);
  let st := set_transport t st in
  if sent : bool then doSend packet st else Some st.

Definition stream_close st : option StreamTransport :=
  match Face.close (s_transport st) with
  | (None, _) => Some st
  | (Some InvalidTransition, _) => None
  | (Some _, t) => Some (doClose (set_transport t st))
  end.

Definition stream_setPersistency (newPersistency : FacePersistency) st : option StreamTransport :=
  '(old, t) ← setPersistency (fun _ => s_isTcp st) newPersistency (s_transport st);
  let st := set_transport t st in
  match old with Some p => afterChangePersistency p st | None => Some st end.

Definition runHandler (h : Handler) st : option StreamTransport :=
  match h with
  | HandleSend error n => handleSend error n st
  | HandleReceive error bytes => handleReceive error bytes st
  | HandleReconnect error => handleReconnect error st
  | DeferredClose => deferredClose st
  | Reconnect => reconnect st
  end.

Inductive StreamOp :=
  | Send (packet : list Z)
  | Close
  | SetPersistency (newPersistency : FacePersistency)
  | Run
  | WriteDone (error : option ErrorCode)
  | ReadDone (result : ErrorCode + list Z)
  | ConnectDone (error : option ErrorCode)
  | ReconnectTimer.

Definition stream_step (op : StreamOp) st : option StreamTransport :=
  let sk := m_socket st in
  match op with
  | Send packet => stream_send packet st
  | Close => stream_close st
  | SetPersistency p => stream_setPersistency p st
  | Run => match s_io st with [] => Some st | h :: io => runHandler h (set_io io st) end
  | WriteDone error =>
      match sk_writing sk with
      | None => Some st
      | Some packet =>
          let st := set_socket (mkSocket (sk_open sk) (sk_shutdown sk) None (sk_reading sk) (sk_connecting sk)) st in
          Some (match error with
                | Some e => post [HandleSend (Some e) 0] st
                | None => post [HandleSend None (length packet)] (set_wire (s_wire st ++ [packet]) st)
                end)
      end
  | ReadDone result =>
      match sk_reading sk with
      | None => Some st
      | Some _ =>
          let st := set_socket (mkSocket (sk_open sk) (sk_shutdown sk) (sk_writing sk) None (sk_connecting sk)) st in
          Some (post [match result with inl e => HandleReceive (Some e) [] | inr bytes => HandleReceive None bytes end] st)
      end
  | ConnectDone error =>
      if sk_connecting sk then
        Some (post [HandleReconnect error] (set_socket (mkSocket (sk_open sk) (sk_shutdown sk) (sk_writing sk) (sk_reading sk) false) st))
      else Some st
  | ReconnectTimer => if m_reconnectEvent st then Some (handleReconnectTimeout st) else Some st
  end.
End Stream.
