(* ===== verification/StreamRuns.v ===== *)
(** * Stream transports: framing and runs

    Packets are recovered from the stream however it is cut into reads, and the
    state machine of the transport is followed through all interleavings of its
    operations with completions of the socket. *)

From S2P Require Import Prelude Face StreamTransport.
Local Open Scope Z_scope.

Section Framing.
Context `{TlvBlocks}.
Implicit Types (st : StreamTransport) (p packet bytes : list Z) (packets chunks : list (list Z)).

(** ** The elements of a stream *)

(** The elements at the beginning of the octets, and the octets after them. *)
Fixpoint frames (fuel : nat) bytes : list (list Z) * list Z :=
  match fuel with
  | O => ([], bytes)
  | S fuel =>
      match fromBuffer bytes with
      | None => ([], bytes)
      | Some n => let '(ps, rest) := frames fuel (drop n bytes) in (take n bytes :: ps, rest)
      end
  end.
Definition tlvElements bytes : list (list Z) * list Z := frames (length bytes) bytes.

Lemma fromBuffer_nil : fromBuffer [] = None.
Proof. destruct (fromBuffer []) eqn:E; [|done]. apply fromBuffer_size in E. simpl in E. lia. Qed.

Lemma frames_fuel fuel : forall bytes, (length bytes <= fuel)%nat -> frames fuel bytes = tlvElements bytes.
Proof.
  unfold tlvElements. induction fuel as [fuel IH] using lt_wf_ind. intros bytes Hlen.
  destruct bytes as [|b bytes]; [destruct fuel; simpl; by rewrite ?fromBuffer_nil|]. destruct fuel as [|fuel]; [simpl in Hlen; lia|].
  cbn [frames length]. destruct (fromBuffer (b :: bytes)) as [n|] eqn:E; [|done]. apply fromBuffer_size in E. simpl in E, Hlen.
  rewrite (IH fuel) by (rewrite ?length_drop; simpl; lia). symmetry. rewrite (IH (length bytes)) by (rewrite ?length_drop; simpl; lia). done.
Qed.

Lemma elements_step bytes : tlvElements bytes =
  match fromBuffer bytes with
  | None => ([], bytes)
  | Some n => let '(ps, rest) := tlvElements (drop n bytes) in (take n bytes :: ps, rest)
  end.
Proof.
  rewrite <-(frames_fuel (S (length bytes))) by lia. cbn [frames]. destruct (fromBuffer bytes) as [n|]; [|done].
  by rewrite frames_fuel by (rewrite length_drop; lia).
Qed.

(** What has been read before does not matter beyond the octets left over. *)
Lemma elements_app a : forall b, tlvElements (a ++ b) =
  let '(ps, rest) := tlvElements a in let '(ps', rest') := tlvElements (rest ++ b) in (ps ++ ps', rest').
Proof.
  induction a as [a IH] using (well_founded_induction (well_founded_ltof _ length)). intros b.
  rewrite (elements_step a). destruct (fromBuffer a) as [n|] eqn:E; [|by destruct (tlvElements (a ++ b))].
  pose proof (fromBuffer_size _ _ E). rewrite elements_step, (fromBuffer_app _ _ _ E), take_app_le, drop_app_le by lia.
  rewrite IH by (unfold ltof; rewrite length_drop; lia). destruct (tlvElements (drop n a)) as [ps rest].
  by destruct (tlvElements (rest ++ b)).
Qed.

Lemma elements_rest bytes : let '(ps, rest) := tlvElements bytes in fromBuffer rest = None /\ bytes = concat ps ++ rest /\
  Forall (fun p => fromBuffer p = Some (length p)) ps.
Proof.
  induction bytes as [bytes IH] using (well_founded_induction (well_founded_ltof _ length)). rewrite elements_step.
  destruct (fromBuffer bytes) as [n|] eqn:E; [|done]. pose proof (fromBuffer_size _ _ E). specialize (IH (drop n bytes)).
  destruct (tlvElements (drop n bytes)) as [ps rest]. destruct IH as (H1' & H2' & H3'); [unfold ltof; rewrite length_drop; lia|]. split_and!; [done| |].
  - simpl. rewrite <-app_assoc, <-H2'. by rewrite take_drop.
  - constructor; [|done]. rewrite (fromBuffer_take _ _ E). by rewrite length_take_le by lia.
Qed.

(** ** The receive loop *)

(** All but the counters and what is received. *)
Definition receives st (ps : list (list Z)) st' : Prop := exists t,
  t_mtu t = MTU_UNLIMITED /\ t_state t = s_state st /\ t_persistency t = t_persistency (s_transport st) /\
  st' = set_receive (m_receiveBuffer st) (s_received st ++ ps) (set_transport t st).

Lemma receive_loop_ok fuel : forall bytes st, (length bytes < fuel)%nat -> t_mtu (s_transport st) = MTU_UNLIMITED ->
  exists st', receive_loop fuel bytes st = Some (st', (tlvElements bytes).2) /\ receives st (tlvElements bytes).1 st'.
Proof.
  induction fuel as [|fuel IH]; intros bytes st Hlen Hmtu; [lia|]. destruct bytes as [|b bytes']; cbn [receive_loop].
  { exists st. rewrite elements_step, fromBuffer_nil. split; [done|]. exists (s_transport st). split_and!; [done..|]. rewrite app_nil_r. by destruct st. }
  set (bytes := b :: bytes') in *. rewrite (elements_step bytes). destruct (fromBuffer bytes) as [n|] eqn:E.
  2:{ exists st. split; [done|]. exists (s_transport st). split_and!; [done..|]. simpl. rewrite app_nil_r. by destruct st. }
  pose proof (fromBuffer_size _ _ E). rewrite (proj2 (Nat.leb_le _ _)) by lia. unfold receive, fits. rewrite Hmtu, Z.eqb_refl. cbn [orb mbind option_bind].
  set (st1 := set_receive _ _ _). destruct (IH (drop n bytes) st1) as (st' & -> & t & T1 & T2 & T3 & ->); [rewrite length_drop; lia|done|].
  destruct (tlvElements (drop n bytes)) as [ps rest]. eexists. split; [done|]. exists t. split_and!; [done|done|done|].
  unfold st1. simpl. by rewrite <-app_assoc.
Qed.

Definition buffered st : nat := length (m_receiveBuffer st).

(** A read that leaves the rest of the buffer below the limit. *)
Lemma handleReceive_ok bytes st : s_state st = UP -> t_mtu (s_transport st) = MTU_UNLIMITED ->
  let '(ps, rest) := tlvElements (m_receiveBuffer st ++ bytes) in Z.of_nat (length rest) < MAX_NDN_PACKET_SIZE ->
  exists t, t_mtu t = MTU_UNLIMITED /\ t_state t = UP /\ t_persistency t = t_persistency (s_transport st) /\
    handleReceive None bytes st = Some (set_socket (mkSocket (sk_open (m_socket st)) (sk_shutdown (m_socket st)) (sk_writing (m_socket st))
      (Some (MAX_NDN_PACKET_SIZE - Z.of_nat (length rest))) (sk_connecting (m_socket st))) (set_receive rest (s_received st ++ ps) (set_transport t st))).
Proof.
  intros Hup Hmtu. destruct (tlvElements _) as [ps rest] eqn:E. intros Hrest. unfold handleReceive.
  destruct (receive_loop_ok (S (length (m_receiveBuffer st ++ bytes))) (m_receiveBuffer st ++ bytes) st) as (st' & -> & t & T1 & T2 & T3 & ->); [lia|done|].
  rewrite E. cbn [mbind option_bind fst snd]. rewrite (proj2 (Z.eqb_neq (Z.of_nat (length rest)) _)) by lia. cbn [andb]. unfold startReceive.
  rewrite decide_True by (unfold s_state in *; simpl; congruence). exists t. split_and!; [done|congruence|done|done].
Qed.

(** ** Packets through a stream *)

(** The reads, one after the other. *)
Definition receiveAll chunks st : option StreamTransport := foldl (fun o c => st ← o; handleReceive None c st) (Some st) chunks.

Definition isPacket p : Prop := fromBuffer p = Some (length p) /\ Z.of_nat (length p) <= MAX_NDN_PACKET_SIZE.

Lemma proper_prefix_none p bytes rest : fromBuffer p = Some (length p) -> p = bytes ++ rest -> rest <> [] -> fromBuffer bytes = None.
Proof.
  intros Hp -> Hr. destruct (fromBuffer bytes) as [n|] eqn:E; [|done]. pose proof (fromBuffer_size _ _ E).
  rewrite (fromBuffer_app _ _ rest E) in Hp. injection Hp as ->. rewrite length_app in *. destruct rest; [done|]. simpl in *. lia.
Qed.

(** The elements of the beginning of a stream of packets are the packets that are
    there in full. *)
Lemma elements_packets packets : forall bytes rest, Forall isPacket packets -> concat packets = bytes ++ rest ->
  exists k, (tlvElements bytes).1 = take k packets /\
    ((tlvElements bytes).2 = [] \/ exists p more, packets !! k = Some p /\ p = (tlvElements bytes).2 ++ more /\ more <> []) /\
    (rest = [] -> (tlvElements bytes) = (packets, [])).
Proof.
  induction packets as [|p packets IH]; intros bytes rest Hp Hc.
  { symmetry in Hc. apply app_eq_nil in Hc as [-> ->]. exists 0%nat. rewrite elements_step, fromBuffer_nil. split_and!; [done|by left|done]. }
  apply Forall_cons in Hp as [[Hp Hlen] Hps]. simpl in Hc. rewrite elements_step.
  destruct (decide (length p <= length bytes)%nat) as [Hle|Hlt].
  - assert (bytes = p ++ drop (length p) bytes) as Hb.
    { rewrite <-(take_drop (length p) bytes) at 1. f_equal. apply (f_equal (take (length p))) in Hc. rewrite take_app_length, take_app_le in Hc by lia. done. }
    rewrite Hb, (fromBuffer_app _ _ _ Hp), drop_app_length, take_app_length. rewrite Hb, <-app_assoc in Hc. apply app_inv_head in Hc.
    destruct (IH _ _ Hps Hc) as (k & Hk & Hr & Hall). destruct (tlvElements (drop (length p) bytes)) as [ps r]. exists (S k). simpl in *. split_and!.
    + by rewrite Hk.
    + exact Hr.
    + intros Hn. specialize (Hall Hn). injection Hall as -> ->. done.
  - assert (p = bytes ++ drop (length bytes) p) as Hb.
    { rewrite <-(take_drop (length bytes) p) at 1. f_equal. apply (f_equal (take (length bytes))) in Hc. rewrite take_app_length, take_app_le in Hc by lia. done. }
    assert (drop (length bytes) p <> []) as Hne. { intros E. rewrite E, app_nil_r in Hb. subst. lia. }
    rewrite (proper_prefix_none p bytes _ Hp Hb Hne). exists 0%nat. split_and!; [done| |].
    + right. exists p, (drop (length bytes) p). done.
    + intros ->. rewrite app_nil_r in Hc. exfalso. apply (f_equal length) in Hc. rewrite length_app in Hc. lia.
Qed.

(** C27: packets are recovered from the stream however it is cut into reads. From
    the beginning of a stream of packets, each a TLV element of at most 8800
    octets, and for any reads, the transport delivers exactly the packets that have arrived in full, in order,
    keeps the beginning of the next one, and goes on reading; when the whole
    stream has arrived all packets have been delivered and nothing is left. *)
Theorem stream_delivers packets chunks later st : Forall isPacket packets -> concat packets = concat chunks ++ later ->
  s_state st = UP -> t_mtu (s_transport st) = MTU_UNLIMITED -> m_receiveBuffer st = [] ->
  exists st' k, receiveAll chunks st = Some st' /\ s_state st' = UP /\
    s_received st' = s_received st ++ take k packets /\ concat chunks = concat (take k packets) ++ m_receiveBuffer st' /\
    (m_receiveBuffer st' = [] \/ exists p more, packets !! k = Some p /\ p = m_receiveBuffer st' ++ more /\ more <> []) /\
    (chunks <> [] -> sk_reading (m_socket st') = Some (MAX_NDN_PACKET_SIZE - Z.of_nat (length (m_receiveBuffer st')))) /\
    (later = [] -> s_received st' = s_received st ++ packets /\ m_receiveBuffer st' = []).
Proof.
  intros Hp Hc Hup Hmtu Hbuf.
  assert (exists st', receiveAll chunks st = Some st' /\ s_state st' = UP /\ t_mtu (s_transport st') = MTU_UNLIMITED /\
    s_received st' = s_received st ++ (tlvElements (concat chunks)).1 /\ m_receiveBuffer st' = (tlvElements (concat chunks)).2 /\
    (chunks <> [] -> sk_reading (m_socket st') = Some (MAX_NDN_PACKET_SIZE - Z.of_nat (length (m_receiveBuffer st'))))) as (st' & Hr & Hup' & _ & Hrec & Hbuf' & Hread).
  { revert later Hc. induction chunks as [|c chunks IH] using rev_ind; intros later Hc.
    { exists st. cbn [concat]. rewrite elements_step, fromBuffer_nil. simpl. rewrite app_nil_r. done. }
    rewrite concat_app in Hc. simpl in Hc. rewrite app_nil_r in Hc. destruct (IH (c ++ later)) as (st1 & Hr & Hup1 & Hmtu1 & Hrec & Hb1 & _); [by rewrite app_assoc|].
    unfold receiveAll in *. rewrite foldl_app. cbn [foldl]. rewrite Hr. cbn [mbind option_bind].
    pose proof (handleReceive_ok c st1 Hup1 Hmtu1) as Hstep. pose proof (elements_app (concat chunks) c) as Happ.
    destruct (elements_packets packets (concat chunks ++ c) later Hp) as (k & _ & Hrest & _); [done|]. rewrite concat_app. cbn [concat]. rewrite app_nil_r.
    destruct (tlvElements (concat chunks)) as [ps rest]. simpl in Hrec, Hb1. rewrite Hb1 in Hstep. destruct (tlvElements (rest ++ c)) as [ps' rest'].
    rewrite Happ in *. simpl in Hrest. destruct Hstep as (t & T1 & T2 & T3 & ->).
    { destruct Hrest as [->|(p & more & Hk & -> & Hne)]; [cbn [length]; unfold MAX_NDN_PACKET_SIZE; lia|]. rewrite Forall_lookup in Hp. destruct (Hp k _ Hk) as [_ Hl].
      rewrite length_app in Hl. destruct more; [done|]. simpl in Hl. lia. }
    eexists. split; [done|]. simpl. rewrite Hrec, <-app_assoc. by rewrite T1. }
  destruct (elements_packets packets (concat chunks) later Hp Hc) as (k & Hk & Hrest & Hall). exists st', k. rewrite Hbuf', Hrec, Hk.
  pose proof (elements_rest (concat chunks)) as He. destruct (tlvElements (concat chunks)) as [ps rest]. simpl in *. destruct He as (_ & He & _).
  split_and!; [done|done|done|by rewrite <-Hk|done|by rewrite <-Hbuf'|]. intros Hl. specialize (Hall Hl). injection Hall as -> ->. by rewrite <-Hk.
Qed.
End Framing.

(** ** Runs *)

Section Runs.
Context `{TlvBlocks}.
Implicit Types (st : StreamTransport) (p packet bytes : list Z) (io pre post : list Handler).

(** The writes and reads that have succeeded and whose handlers have not run. *)
Definition ok_sends io : list nat := omap (fun h => match h with HandleSend None n => Some n | _ => None end) io.
Definition ok_reads io : list (list Z) := omap (fun h => match h with HandleReceive None b => Some b | _ => None end) io.

Definition total (q : list (list Z)) : Z := foldr (fun p n => Z.of_nat (length p) + n) 0 q.

(** *** The invariant *)

(** The packets written are the first ones accepted; the handler of a write and the
    write itself are for the packet at the front. *)
Definition writes_ok st : Prop :=
  match ok_sends (s_io st) with
  | [] => s_accepted st = s_wire st ++ m_sendQueue st /\
          match sk_writing (m_socket st) with Some p => exists q, m_sendQueue st = p :: q | None => True end
  | [n] => sk_writing (m_socket st) = None /\
           exists p q w, m_sendQueue st = p :: q /\ n = length p /\ s_wire st = w ++ [p] /\ s_accepted st = w ++ m_sendQueue st
  | _ => False
  end.

Definition reads_ok st : Prop :=
  match ok_reads (s_io st) with
  | [] => match sk_reading (m_socket st) with Some room => room = (MAX_NDN_PACKET_SIZE - Z.of_nat (length (m_receiveBuffer st))) | None => True end
  | [b] => sk_reading (m_socket st) = None /\ Z.of_nat (length b) <= MAX_NDN_PACKET_SIZE - Z.of_nat (length (m_receiveBuffer st))
  | _ => False
  end.

Definition phase_ok st : Prop :=
  match s_state st with
  | UP => DeferredClose ∉ s_io st /\ sk_open (m_socket st) = true /\ sk_shutdown (m_socket st) = false /\
          Z.of_nat (length (m_receiveBuffer st)) < MAX_NDN_PACKET_SIZE /\ reads_ok st /\ writes_ok st
  | DOWN => False
  | CLOSING | FAILED =>
      (exists pre post, s_io st = pre ++ DeferredClose :: post /\ DeferredClose ∉ pre ++ post /\ ok_sends post = []) /\
      ok_reads (s_io st) = [] /\ sk_shutdown (m_socket st) = true /\ sk_reading (m_socket st) = None /\ writes_ok st
  | CLOSED => DeferredClose ∉ s_io st /\ ok_reads (s_io st) = [] /\ ok_sends (s_io st) = [] /\ sk_reading (m_socket st) = None /\
              sk_writing (m_socket st) = None /\ s_wire st `prefix_of` s_accepted st
  end.

Record stream_ok st : Prop := {
  ok_mtu : t_mtu (s_transport st) = MTU_UNLIMITED;
  ok_persistency : t_persistency (s_transport st) <> PERMANENT;
  ok_bytes : m_sendQueueBytes st = u64 (total (m_sendQueue st));
  ok_noReconnect : Reconnect ∉ s_io st /\ (forall e, HandleReconnect e ∉ s_io st) /\ sk_connecting (m_socket st) = false /\ m_reconnectEvent st = false;
  ok_phase : phase_ok st
}.

(** What the socket and the user of the transport may do. *)
Definition allowed (op : StreamOp) st : Prop :=
  let sk := m_socket st in
  match op with
  | SetPersistency p => p <> PERMANENT /\ canChangePersistencyTo (fun _ => s_isTcp st) p (s_transport st) = true
  | WriteDone None => sk_open sk = true /\ sk_shutdown sk = false
  | ReadDone (inr b) => sk_open sk = true /\ sk_shutdown sk = false /\ forall room, sk_reading sk = Some room -> Z.of_nat (length b) <= room
  | _ => True
  end.

(** When the transport goes down no successful read awaits its handler. *)
Definition calm st st' : Prop := s_state st = UP -> s_state st' <> UP -> ok_reads (s_io st') = [].

Inductive stream_reachable : StreamTransport -> Prop :=
  | reach_new isTcp persistency st : persistency <> PERMANENT -> newStream isTcp persistency = Some st -> stream_reachable st
  | reach_step st op st' : stream_reachable st -> allowed op st -> stream_step op st = Some st' -> calm st st' -> stream_reachable st'.

(** *** Lemmas on the queue of handlers *)

Lemma ok_sends_app io io' : ok_sends (io ++ io') = ok_sends io ++ ok_sends io'.
Proof. apply omap_app. Qed.
Lemma ok_reads_app io io' : ok_reads (io ++ io') = ok_reads io ++ ok_reads io'.
Proof. apply omap_app. Qed.

Lemma aborted_quiet sk : ok_sends (aborted sk) = [] /\ ok_reads (aborted sk) = [] /\ DeferredClose ∉ aborted sk /\ Reconnect ∉ aborted sk.
Proof. unfold aborted. destruct (sk_reading sk), (sk_writing sk), (sk_connecting sk); split_and!; try done; set_solver. Qed.

Lemma aborted_connect sk e : sk_connecting sk = false -> HandleReconnect e ∉ aborted sk.
Proof. unfold aborted. intros ->. destruct (sk_reading sk), (sk_writing sk); set_solver. Qed.

Lemma total_app q q' : total (q ++ q') = total q + total q'.
Proof. induction q as [|p q IH]; simpl; [done|]. rewrite IH. lia. Qed.

(** *** Closing *)

(** What holds in the state [UP] but for the reads. *)
Record up_ok st : Prop := {
  up_mtu : t_mtu (s_transport st) = MTU_UNLIMITED;
  up_persistency : t_persistency (s_transport st) <> PERMANENT;
  up_bytes : m_sendQueueBytes st = u64 (total (m_sendQueue st));
  up_noReconnect : Reconnect ∉ s_io st /\ (forall e, HandleReconnect e ∉ s_io st) /\ sk_connecting (m_socket st) = false /\ m_reconnectEvent st = false;
  up_state : s_state st = UP;
  up_noClose : DeferredClose ∉ s_io st;
  up_open : sk_open (m_socket st) = true;
  up_writes : writes_ok st
}.

Lemma writes_stopped st sk : writes_ok st -> sk_writing sk = None -> writes_ok (set_socket sk st).
Proof. unfold writes_ok. simpl. intros Hw ->. destruct (ok_sends (s_io st)) as [|n [|]]; [|by destruct Hw|done]. by destruct Hw. Qed.

Lemma writes_io st io : writes_ok st -> ok_sends io = ok_sends (s_io st) -> writes_ok (set_io io st).
Proof. unfold writes_ok. simpl. by intros Hw ->. Qed.

Lemma doClose_eq st : sk_open (m_socket st) = true -> m_reconnectEvent st = false ->
  doClose st = StreamTransport.post [DeferredClose] (socket_shutdown (socket_cancel st)).
Proof.
  intros Ho He. unfold doClose. assert ((if s_isTcp st then set_reconnect (m_nextReconnectWait st) false st else st) = st) as ->.
  { destruct (s_isTcp st) eqn:E; [|done]. rewrite <-He. by destruct st. }
  by rewrite Ho.
Qed.

Lemma goDown s st : up_ok st -> s = CLOSING \/ s = FAILED ->
  exists st1, changeState s st = Some st1 /\ s_state (doClose st1) = s /\ (ok_reads (s_io (doClose st1)) = [] -> stream_ok (doClose st1)).
Proof.
  intros [Hmtu Hper Hb (Hr1 & Hr2 & Hr3 & Hr4) Hup Hnc Hopen Hw] Hs. unfold changeState, setState, s_state in *. rewrite Hup.
  rewrite decide_False by (destruct Hs; congruence).
  assert (isValid UP s = true) as -> by (by destruct Hs as [->| ->]). eexists. split; [done|]. set (st1 := set_transport _ st).
  destruct (aborted_quiet (m_socket st)) as (A1 & A2 & A3 & A4). pose proof (fun e => aborted_connect (m_socket st) e Hr3) as A5.
  assert (doClose st1 = StreamTransport.post [DeferredClose] (socket_shutdown (socket_cancel st1))) as Ed by (by apply doClose_eq).
  assert (s_io (doClose st1) = (s_io st ++ aborted (m_socket st)) ++ [DeferredClose]) as Eio by (by rewrite Ed).
  assert (m_socket (doClose st1) = mkSocket true true None None false) as Esk by (rewrite Ed; simpl; by rewrite Hopen).
  assert (s_transport (doClose st1) = set_state s (s_transport st) /\ m_sendQueue (doClose st1) = m_sendQueue st /\
    m_sendQueueBytes (doClose st1) = m_sendQueueBytes st /\ m_reconnectEvent (doClose st1) = false /\
    s_wire (doClose st1) = s_wire st /\ s_accepted (doClose st1) = s_accepted st) as (E1 & E2 & E3 & E4 & E5 & E6) by (by rewrite Ed).
  split; [by rewrite E1|]. intros Hrd. constructor.
  - by rewrite E1.
  - by rewrite E1.
  - by rewrite E2, E3.
  - rewrite Eio, Esk. split_and!; [set_solver|set_solver|done|done].
  - unfold phase_ok, s_state. rewrite E1. cbn [t_state set_state].
    assert (writes_ok (doClose st1)) as Hw'.
    { unfold writes_ok in *. rewrite Eio, !ok_sends_app, A1, !app_nil_r, Esk, E2, E5, E6. simpl.
      destruct (ok_sends (s_io st)) as [|n [|]]; simpl; [by destruct Hw|by destruct Hw|done]. }
    assert ((exists pre post, s_io (doClose st1) = pre ++ DeferredClose :: post /\ DeferredClose ∉ pre ++ post /\ ok_sends post = []) /\
      ok_reads (s_io (doClose st1)) = [] /\ sk_shutdown (m_socket (doClose st1)) = true /\ sk_reading (m_socket (doClose st1)) = None /\ writes_ok (doClose st1)) as Hall.
    { split_and!; [|done|by rewrite Esk|by rewrite Esk|done]. exists (s_io st ++ aborted (m_socket st)), []. rewrite app_nil_r. split_and!; [done|set_solver|done]. }
    by destruct Hs as [->| ->].
Qed.

Lemma handleError_ok error st : up_ok st -> exists st', handleError error st = Some st' /\ s_state st' <> UP /\ (ok_reads (s_io st') = [] -> stream_ok st').
Proof.
  intros Hup. assert (handleError error st = stream_handleError error st) as ->.
  { unfold handleError, tcp_handleError. rewrite decide_False by (apply up_persistency, Hup). by destruct (s_isTcp st). }
  unfold stream_handleError. destruct (goDown (if decide (error = eof) then CLOSING else FAILED) st Hup) as (st1 & -> & Hs & Hok); [case_decide; auto|].
  cbn [mbind option_bind]. exists (doClose st1). split_and!; [done|rewrite Hs; by case_decide|done].
Qed.

Lemma stream_up_ok st : stream_ok st -> s_state st = UP -> up_ok st.
Proof. intros [H1' H2' H3' H4' H5'] Hup. unfold phase_ok in H5'. rewrite Hup in H5'. destruct H5' as (? & ? & ? & ? & ? & ?). by constructor. Qed.

(** A handler is taken from the queue; it is not a successful write or read. *)
Lemma pop_quiet h io st : stream_ok st -> s_io st = h :: io -> ok_sends [h] = [] -> ok_reads [h] = [] -> h <> DeferredClose -> stream_ok (set_io io st).
Proof.
  intros [H1' H2' H3' (R1 & R2 & R3 & R4) H5'] Hio Hs Hr Hd. assert (ok_sends io = ok_sends (s_io st)) as Es.
  { rewrite Hio. change (h :: io) with ([h] ++ io). by rewrite ok_sends_app, Hs. }
  assert (ok_reads io = ok_reads (s_io st)) as Er by (rewrite Hio; change (h :: io) with ([h] ++ io); by rewrite ok_reads_app, Hr).
  constructor; simpl; try done.
  - rewrite Hio in R1, R2. split_and!; [set_solver|intros e; specialize (R2 e); set_solver|done|done].
  - unfold phase_ok in *. simpl in *. unfold s_state in *. simpl in *. destruct (t_state (s_transport st)).
    + destruct H5' as (P1 & P2 & P3 & P4 & P5 & P6). rewrite Hio in P1. split_and!; [set_solver|done|done|done| |by apply writes_io].
      unfold reads_ok in *. simpl. by rewrite Er.
    + done.
    + destruct H5' as ((pre & post & P1 & P2 & P3) & P4 & P5 & P6 & P7). rewrite Er. split_and!; [|done|done|done|by apply writes_io].
      rewrite Hio in P1. destruct pre as [|x pre]; simpl in P1; injection P1 as E1 E2; [congruence|]. exists pre, post. split_and!; [done|set_solver|done].
    + destruct H5' as ((pre & post & P1 & P2 & P3) & P4 & P5 & P6 & P7). rewrite Er. split_and!; [|done|done|done|by apply writes_io].
      rewrite Hio in P1. destruct pre as [|x pre]; simpl in P1; injection P1 as E1 E2; [congruence|]. exists pre, post. split_and!; [done|set_solver|done].
    + destruct H5' as (P1 & P2 & P3 & P4 & P5 & P6). rewrite Hio in P1. rewrite Er, Es. split_and!; [set_solver|done..].
Qed.

Lemma processError_ok error st : stream_ok st -> exists st', processErrorCode error st = Some st' /\ (calm st st' -> stream_ok st').
Proof.
  intros Hok. unfold processErrorCode. destruct (isClosing (s_state st) || _ || _) eqn:E; [by exists st|].
  assert (s_state st = UP) as Hup.
  { pose proof (ok_phase _ Hok) as Hp. unfold phase_ok in Hp. destruct (s_state st); [done|done|done|done|done]. }
  destruct (handleError_ok error st (stream_up_ok _ Hok Hup)) as (st' & -> & Hns & Hok'). exists st'. split; [done|]. intros Hc. by apply Hok', Hc.
Qed.

(** *** The steps *)

Lemma u64_grow a b : u64 (u64 a + b) = u64 (a + b).
Proof. unfold u64. by rewrite Zplus_mod_idemp_l. Qed.

Lemma stream_send_ok p st : stream_ok st -> exists st', stream_send p st = Some st' /\ s_state st' = s_state st /\ stream_ok st'.
Proof.
  intros [H1' H2' H3' H4' H5']. unfold stream_send, send, fits. rewrite H1', Z.eqb_refl. cbn [orb].
  unfold phase_ok in H5'. destruct (s_state st) eqn:Es; unfold s_state in Es; rewrite Es.
  2:{ done. }
  2-4: rewrite decide_True by done; cbn [mbind option_bind]; exists st; assert (set_transport (s_transport st) st = st) as -> by (by destruct st);
       (split_and!; [done|done|constructor; try done; unfold phase_ok, s_state; by rewrite Es]).
  rewrite decide_False by (intros [? ?]; done). rewrite decide_True by done. cbn [mbind option_bind].
  set (c := mkTransportCounters _ _ _ _). unfold doSend. rewrite decide_True by done. simpl.
  destruct H5' as (P1 & P2 & P3 & P4 & P5 & P6). set (bytes := u64 (m_sendQueueBytes st + Z.of_nat (length p))).
  assert (bytes = u64 (total (m_sendQueue st ++ [p]))) as Hb.
  { unfold bytes. rewrite H3', u64_grow, total_app. simpl. do 2 f_equal. lia. }
  set (st1 := set_accepted _ _).
  assert (forall sk, sk_reading sk = sk_reading (m_socket st) -> sk_open sk = true -> sk_shutdown sk = false -> sk_connecting sk = false ->
    writes_ok (set_socket sk st1) -> stream_ok (set_socket sk st1)) as Hmk.
  { intros sk S1 S2 S3 S4 Hw. constructor; simpl; try done; [by destruct H4' as (? & ? & _ & ?)|]. unfold phase_ok, s_state. simpl. rewrite Es. split_and!; try done.
    unfold reads_ok in *. simpl. by rewrite S1. }
  assert (set_socket (m_socket st1) st1 = st1) as Eid by (by destruct st1).
  unfold writes_ok in P6. destruct (m_sendQueue st) as [|p0 q] eqn:Eq.
  - destruct (ok_sends (s_io st)) as [|n [|]] eqn:Eok; [|naive_solver|done]. destruct P6 as [Ha Hw].
    destruct (sk_writing (m_socket st)) eqn:Ew; [by destruct Hw|]. unfold sendFromQueue. simpl. rewrite Ew. eexists. split; [done|]. split; [done|].
    destruct H4' as (_ & _ & S4 & _). apply Hmk; try done. unfold writes_ok. simpl. rewrite Eok. split; [|by exists []]. by rewrite Ha, app_nil_r.
  - eexists. split; [done|]. split; [done|]. rewrite <-Eid. destruct H4' as (_ & _ & S4 & _). apply Hmk; try done. unfold writes_ok. simpl.
    destruct (ok_sends (s_io st)) as [|n [|]]; [|..|done].
    + destruct P6 as [-> Hw]. split; [by rewrite <-app_assoc|]. destruct (sk_writing (m_socket st)); [|done]. destruct Hw as (q' & [= -> ->]). by eexists.
    + destruct P6 as (Hw & p' & q' & w & [= -> ->] & -> & -> & Ha). split; [done|]. exists p', (q' ++ [p]), w. split_and!; try done. by rewrite Ha, <-app_assoc.
Qed.

Lemma close_ok st : stream_ok st -> exists st', stream_close st = Some st' /\ (calm st st' -> stream_ok st').
Proof.
  intros Hok. unfold stream_close, close. pose proof (ok_phase _ Hok) as Hp. unfold phase_ok in Hp.
  destruct (s_state st) eqn:Es; unfold s_state in Es; rewrite Es; [|done|..].
  2-4: rewrite decide_True by done; by exists st.
  rewrite decide_False by (intros [? ?]; done). destruct (goDown CLOSING st (stream_up_ok _ Hok Es) ltac:(by left)) as (st1 & E & Hs & Hd).
  assert (setState CLOSING (s_transport st) = (AfterStateChange UP CLOSING, set_state CLOSING (s_transport st))) as Eset
    by (unfold setState; rewrite Es; reflexivity).
  unfold changeState in E. rewrite Eset in E |- *. injection E as <-. eexists. split; [done|]. intros Hc. apply Hd, Hc; [done|]. by rewrite Hs.
Qed.

Lemma stream_persistency_ok (np : FacePersistency) st : stream_ok st -> allowed (SetPersistency np) st -> exists st', stream_setPersistency np st = Some st' /\ s_state st' = s_state st /\ stream_ok st'.
Proof.
  intros Hok [Hp Hcan]. pose proof Hok as [H1' H2' H3' H4' H5']. unfold stream_setPersistency, setPersistency. rewrite Hcan.
  assert (set_transport (s_transport st) st = st) as Eid by (by destruct st).
  case_decide as Hd; cbn [mbind option_bind]; [rewrite Eid; by exists st|].
  assert (stream_ok (set_transport (set_persistency np (s_transport st)) st)) as Hok' by (constructor; done).
  case_decide as Hn; [by eexists|]. unfold afterChangePersistency. rewrite decide_False by (intros (_ & ? & _); done). by eexists.
Qed.

(** The queue of a closing transport. *)
Definition closes_later io : Prop := exists pre post, io = pre ++ DeferredClose :: post /\ DeferredClose ∉ pre ++ post /\ ok_sends post = [].

Lemma queue_behind io h : closes_later io -> ok_sends [h] = [] /\ h <> DeferredClose -> closes_later (io ++ [h]).
Proof.
  intros (pre & post & -> & Hn & Hs) [Hh Hd]. exists pre, (post ++ [h]). split_and!; [by rewrite <-app_assoc|set_solver|]. by rewrite ok_sends_app, Hs, Hh.
Qed.

Lemma queue_next h io io' : closes_later io -> io = h :: io' -> h <> DeferredClose -> closes_later io'.
Proof.
  intros (pre & post & -> & Hn & Hs) E Hd. destruct pre as [|x pre]; simpl in E; injection E as E1 E2; [congruence|]. exists pre, post. split_and!; [done|set_solver|done].
Qed.

Lemma writeDone_ok error st : stream_ok st -> allowed (WriteDone error) st ->
  exists st', stream_step (WriteDone error) st = Some st' /\ s_state st' = s_state st /\ stream_ok st'.
Proof.
  intros Hok Hal. simpl. destruct (sk_writing (m_socket st)) as [p|] eqn:Ew; [|by exists st]. eexists. split; [done|].
  pose proof Hok as [H1' H2' H3' (R1 & R2 & R3 & R4) H5']. set (h := HandleSend error (if error then 0 else length p)).
  set (wire := if error then s_wire st else s_wire st ++ [p]).
  set (st' := match error with Some e => _ | None => _ end).
  assert (s_state st' = s_state st /\ s_transport st' = s_transport st /\ s_io st' = s_io st ++ [h] /\
    m_socket st' = mkSocket (sk_open (m_socket st)) (sk_shutdown (m_socket st)) None (sk_reading (m_socket st)) (sk_connecting (m_socket st)) /\
    m_receiveBuffer st' = m_receiveBuffer st /\ m_sendQueue st' = m_sendQueue st /\ m_sendQueueBytes st' = m_sendQueueBytes st /\
    m_reconnectEvent st' = m_reconnectEvent st /\ s_accepted st' = s_accepted st /\ s_wire st' = wire) as (E0 & E1 & E2 & E3 & E4 & E5 & E6 & E7 & E8 & E9)
    by (unfold st'; by destruct error).
  assert (ok_reads (s_io st') = ok_reads (s_io st)) as Er by (rewrite E2, ok_reads_app; simpl; by rewrite app_nil_r).
  assert (writes_ok st -> writes_ok st') as Hw.
  { unfold writes_ok. rewrite E2, E3, E5, E8, E9, ok_sends_app, Ew. destruct (ok_sends (s_io st)) as [|n [|]]; simpl; [|by intros [? _]|done].
    intros [Ha [q Hq]]. unfold h, wire. destruct error; simpl; [done|]. split; [done|]. exists p, q, (s_wire st). done. }
  split; [done|]. constructor; rewrite ?E1, ?E5, ?E6, ?E7; try done.
  - rewrite E2, E3. split_and!; [set_solver|intros e; specialize (R2 e); set_solver|done|done].
  - unfold phase_ok in *. rewrite E0. destruct (s_state st).
    + destruct H5' as (P1 & P2 & P3 & P4 & P5 & P6). rewrite E2, E3, E4. split_and!; [set_solver|done|done|done| |auto].
      unfold reads_ok in *. by rewrite Er, E3, E4.
    + done.
    + destruct H5' as (P1 & P2 & P3 & P4 & P5). rewrite Er, E3. split_and!; try done; [|auto]. rewrite E2. apply queue_behind; [done|].
      unfold h. destruct error; [done|]. simpl in Hal. destruct Hal. congruence.
    + destruct H5' as (P1 & P2 & P3 & P4 & P5). rewrite Er, E3. split_and!; try done; [|auto]. rewrite E2. apply queue_behind; [done|].
      unfold h. destruct error; [done|]. simpl in Hal. destruct Hal. congruence.
    + destruct H5' as (_ & _ & _ & _ & Hnone & _). congruence.
Qed.

Lemma readDone_ok result st : stream_ok st -> allowed (ReadDone result) st ->
  exists st', stream_step (ReadDone result) st = Some st' /\ s_state st' = s_state st /\ stream_ok st'.
Proof.
  intros Hok Hal. simpl. destruct (sk_reading (m_socket st)) as [room|] eqn:Ew; [|by exists st]. eexists. split; [done|]. split; [done|].
  pose proof Hok as [H1' H2' H3' (R1 & R2 & R3 & R4) H5']. set (h := match result with inl e => _ | inr bytes => _ end).
  assert (h <> DeferredClose /\ h <> Reconnect /\ (forall e, h <> HandleReconnect e) /\ ok_sends [h] = []) as (D1 & D2 & D3 & D4) by (unfold h; by destruct result).
  constructor; simpl; try done; [split_and!; [set_solver|intros e; specialize (R2 e); specialize (D3 e); set_solver|done|done]|].
  unfold phase_ok in *. unfold s_state in *. simpl in *. destruct (t_state (s_transport st)); [|done|by destruct H5' as (_ & _ & _ & ? & _); congruence..|by destruct H5' as (_ & _ & _ & ? & _); congruence].
  destruct H5' as (P1 & P2 & P3 & P4 & P5 & P6). split_and!; [set_solver|done|done|done| |].
  - unfold reads_ok in *. simpl. rewrite ok_reads_app, Ew in *. destruct (ok_reads (s_io st)) as [|b [|]]; [|by destruct P5|done]. subst room.
    unfold h. destruct result as [e|b]; simpl in *; [done|]. destruct Hal as (_ & _ & Hroom). split; [done|]. specialize (Hroom _ eq_refl). lia.
  - unfold writes_ok in *. simpl. assert (ok_sends [h] = []) as Eh by (unfold h; by destruct result). by rewrite ok_sends_app, Eh, app_nil_r.
Qed.

Lemma handleSend_ok n io st : stream_ok st -> s_io st = HandleSend None n :: io ->
  exists st', handleSend None n (set_io io st) = Some st' /\ s_state st' = s_state st /\ stream_ok st'.
Proof.
  intros Hok Hio. pose proof Hok as [H1' H2' H3' (R1 & R2 & R3 & R4) H5'].
  assert (ok_sends (s_io st) = n :: ok_sends io /\ ok_reads (s_io st) = ok_reads io) as [Es Er] by (by rewrite Hio).
  assert (writes_ok st) as Hw.
  { unfold phase_ok in H5'. destruct (s_state st); [apply H5'|done|apply H5'|apply H5'|]. destruct H5' as (_ & _ & ? & _). congruence. }
  unfold writes_ok in Hw. rewrite Es in Hw. destruct (ok_sends io) as [|] eqn:Eio; [|done]. destruct Hw as (Hwr & p & q & w & Hq & -> & Hwire & Hacc).
  unfold handleSend. simpl. rewrite Hq, Nat.eqb_refl. set (bytes := u64 _).
  assert (bytes = u64 (total q)) as Hb.
  { unfold bytes. rewrite H3', Hq. cbn [total foldr]. fold (total q). unfold Z.sub. rewrite u64_grow. f_equal. lia. }
  set (st1 := set_sendQueue q bytes (set_io io st)).
  assert (forall o, (match o with Some p => exists q', q = p :: q' | None => True end) ->
    let sk := m_socket st in stream_ok (set_socket (mkSocket (sk_open sk) (sk_shutdown sk) o (sk_reading sk) (sk_connecting sk)) st1)) as Hmk.
  { intros o Ho sk. assert (writes_ok (set_socket (mkSocket (sk_open sk) (sk_shutdown sk) o (sk_reading sk) (sk_connecting sk)) st1)) as Hw'.
    { unfold writes_ok. simpl. rewrite Eio. split; [|done]. by rewrite Hacc, Hq, Hwire, <-app_assoc. }
    constructor; simpl; try done; [rewrite Hio in R1, R2; split_and!; [set_solver|intros e; specialize (R2 e); set_solver|done|done]|].
    unfold phase_ok in *. unfold s_state in *. simpl in *. destruct (t_state (s_transport st)).
    - destruct H5' as (P1 & P2 & P3 & P4 & P5 & P6). rewrite Hio in P1. split_and!; try done; [set_solver|]. unfold reads_ok in *. simpl. by rewrite <-Er.
    - done.
    - destruct H5' as (P1 & P2 & P3 & P4 & P5). rewrite <-Er. split_and!; try done. by eapply queue_next.
    - destruct H5' as (P1 & P2 & P3 & P4 & P5). rewrite <-Er. split_and!; try done. by eapply queue_next.
    - destruct H5' as (_ & _ & ? & _). congruence. }
  destruct q as [|p' q].
  - eexists. split; [done|]. split; [done|]. specialize (Hmk None I). simpl in Hmk.
    assert (st1 = set_socket (mkSocket (sk_open (m_socket st)) (sk_shutdown (m_socket st)) None (sk_reading (m_socket st)) (sk_connecting (m_socket st))) st1) as ->;
      [|exact Hmk]. unfold st1. destruct st as [? ? [] ? ? ? ? ? ? ? ? ?]. simpl in *. by subst.
  - unfold sendFromQueue. simpl. rewrite Hwr. eexists. split; [done|]. split; [done|]. apply (Hmk (Some p')). by eexists.
Qed.

Lemma handleReceive_runs b io st : stream_ok st -> s_io st = HandleReceive None b :: io ->
  exists st', handleReceive None b (set_io io st) = Some st' /\ (calm st st' -> stream_ok st').
Proof.
  intros Hok Hio. pose proof Hok as [H1' H2' H3' (R1 & R2 & R3 & R4) H5'].
  assert (ok_reads (s_io st) = b :: ok_reads io /\ ok_sends (s_io st) = ok_sends io) as [Er Es] by (by rewrite Hio).
  unfold phase_ok in H5'. rewrite Er in H5'. destruct (s_state st) eqn:Est; [|done|by destruct H5' as (_ & ? & _)..].
  destruct H5' as (P1 & P2 & P3 & P4 & P5 & P6). unfold reads_ok in P5. rewrite Er in P5. destruct (ok_reads io) eqn:Eio; [|done]. destruct P5 as [P5 Hlen].
  rewrite Hio in P1, R1, R2. unfold handleReceive. simpl m_receiveBuffer. set (buffer := m_receiveBuffer st ++ b).
  destruct (receive_loop_ok (S (length buffer)) buffer (set_io io st)) as (st1 & -> & t & T1 & T2 & T3 & ->); [lia|done|]. cbn [mbind option_bind].
  pose proof (elements_rest buffer) as Hel. destruct (tlvElements buffer) as [ps rest]. destruct Hel as (_ & Hbuf & _). simpl fst. simpl snd.
  assert (Z.of_nat (length buffer) <= MAX_NDN_PACKET_SIZE) as Hbl by (unfold buffer; rewrite length_app; lia).
  assert (length rest <= length buffer)%nat as Hrl by (rewrite Hbuf, length_app; lia).
  unfold s_state in Est, T2. simpl in T2, T3.
  assert (forall bytes rcv, up_ok (set_receive bytes rcv (set_transport t (set_io io st)))) as Hup.
  { intros bytes rcv. constructor; simpl; try done; [congruence|split_and!; [set_solver|intros e; specialize (R2 e); set_solver|done|done]|unfold s_state; simpl; congruence|set_solver|].
    unfold writes_ok in *. simpl. by rewrite <-Es. }
  destruct (Z.eqb_spec (Z.of_nat (length rest)) MAX_NDN_PACKET_SIZE) as [Hm|Hm].
  - rewrite (proj2 (Z.eqb_eq (Z.of_nat (length buffer)) _)) by lia. simpl.
    destruct (goDown FAILED _ (Hup buffer (s_received st ++ ps)) ltac:(by right)) as (st2 & E2 & Hs & Hd).
    change (set_receive buffer (s_received st ++ ps) (set_receive (m_receiveBuffer st) (s_received st ++ ps) (set_transport t (set_io io st))))
      with (set_receive buffer (s_received st ++ ps) (set_transport t (set_io io st))). rewrite E2. cbn [mbind option_bind].
    eexists. split; [done|]. intros Hc. apply Hd, Hc; [unfold s_state; congruence|]. by rewrite Hs.
  - cbn [andb]. unfold startReceive. rewrite decide_True by (unfold s_state; simpl; congruence). eexists. split; [done|]. intros _.
    destruct (Hup rest (s_received st ++ ps)) as [U1 U2 U3 U4 U5 U6 U7 U8]. simpl in *. constructor; simpl; try done.
    unfold phase_ok, s_state. simpl. rewrite T2, Est. split_and!; try done; [lia|]. unfold reads_ok. simpl. by rewrite Eio.
Qed.

Lemma deferredClose_ok io st : stream_ok st -> s_io st = DeferredClose :: io ->
  exists st', deferredClose (set_io io st) = Some st' /\ s_state st' = CLOSED /\ stream_ok st'.
Proof.
  intros Hok Hio. pose proof Hok as [H1' H2' H3' (R1 & R2 & R3 & R4) H5'].
  assert (ok_reads (s_io st) = ok_reads io /\ ok_sends (s_io st) = ok_sends io) as [Er Es] by (by rewrite Hio).
  assert ((s_state st = CLOSING \/ s_state st = FAILED) /\ DeferredClose ∉ io /\ ok_sends io = [] /\ ok_reads io = [] /\ writes_ok st) as (Hst & C1 & C2 & C3 & C4).
  { unfold phase_ok in H5'. destruct (s_state st); [destruct H5' as (Hn & _); rewrite Hio in Hn; set_solver|done|..].
    3: destruct H5' as (Hn & _); rewrite Hio in Hn; set_solver.
    all: destruct H5' as ((pre & post & Q1 & Q2 & Q3) & Q4 & _ & _ & Q5); rewrite Hio in Q1; destruct pre as [|x pre]; simpl in Q1;
      [injection Q1 as E2; subst post|injection Q1 as E1 E2; set_solver]; split_and!; auto; congruence. }
  unfold deferredClose, changeState. set (st1 := socket_close _).
  assert (setState CLOSED (s_transport st1) = (AfterStateChange (s_state st) CLOSED, set_state CLOSED (s_transport st))) as ->.
  { unfold setState. simpl. unfold s_state in *. by destruct Hst as [-> | ->]. }
  destruct (aborted_quiet (m_socket st)) as (A1 & A2 & A3 & A4). pose proof (fun e => aborted_connect (m_socket st) e R3) as A5.
  eexists. split; [done|]. split; [done|]. rewrite Hio in R1, R2. constructor; simpl; try done; [split_and!; [set_solver|intros e; specialize (R2 e); set_solver|done|done]|].
  unfold phase_ok. simpl. rewrite ok_reads_app, ok_sends_app, A1, A2, C2, C3. split_and!; try done; [set_solver|].
  unfold writes_ok in C4. rewrite Es, C2 in C4. destruct C4 as [-> _]. by apply prefix_app_r.
Qed.

Lemma stream_step_ok op st : stream_ok st -> allowed op st -> exists st', stream_step op st = Some st' /\ (calm st st' -> stream_ok st').
Proof.
  intros Hok Hal. destruct op as [p| |p| |error|result|error|].
  - destruct (stream_send_ok p st Hok) as (st' & E & _ & Hok'). by exists st'.
  - by apply close_ok.
  - destruct (stream_persistency_ok p st Hok Hal) as (st' & E & _ & Hok'). by exists st'.
  - simpl. destruct (s_io st) as [|h io] eqn:Hio; [by exists st|]. destruct h as [[e|] n|[e|] b|e| |]; simpl.
    + apply (processError_ok e (set_io io st)). by eapply pop_quiet.
    + destruct (handleSend_ok n io st Hok Hio) as (st' & E & _ & Hok'). by exists st'.
    + apply (processError_ok e (set_io io st)). by eapply pop_quiet.
    + by apply handleReceive_runs.
    + destruct (ok_noReconnect _ Hok) as (_ & R & _). specialize (R e). rewrite Hio in R. set_solver.
    + destruct (deferredClose_ok io st Hok Hio) as (st' & E & _ & Hok'). by exists st'.
    + destruct (ok_noReconnect _ Hok) as (R & _). rewrite Hio in R. set_solver.
  - destruct (writeDone_ok error st Hok Hal) as (st' & E & _ & Hok'). by exists st'.
  - destruct (readDone_ok result st Hok Hal) as (st' & E & _ & Hok'). by exists st'.
  - simpl. destruct (ok_noReconnect _ Hok) as (_ & _ & -> & _). by exists st.
  - simpl. destruct (ok_noReconnect _ Hok) as (_ & _ & _ & ->). by exists st.
Qed.

Lemma new_ok isTcp persistency st : persistency <> PERMANENT -> newStream isTcp persistency = Some st -> stream_ok st.
Proof.
  intros Hp [= <-]. constructor; simpl; try done.
  - split_and!; [set_solver|set_solver|done|done].
  - unfold phase_ok. simpl. split_and!; try done. set_solver.
Qed.

Lemma reachable_ok st : stream_reachable st -> stream_ok st.
Proof.
  induction 1 as [isTcp persistency st Hp Hnew|st op st' _ IH Hal E Hc]; [by eapply new_ok|].
  destruct (stream_step_ok op st IH Hal) as (st1 & E1 & Hok). assert (st1 = st') as -> by congruence. by apply Hok.
Qed.

(** *** Closing ends *)

Fixpoint runs (n : nat) st : option StreamTransport :=
  match n with O => Some st | S n => st ← stream_step Run st; runs n st end.

Lemma closing_run h io st : stream_ok st -> isClosing (s_state st) = true -> s_io st = h :: io -> h <> DeferredClose ->
  exists st', stream_step Run st = Some st' /\ s_io st' = io /\ s_state st' = s_state st /\ stream_ok st'.
Proof.
  intros Hok Hcl Hio Hd. assert (s_state st <> UP) as Hup by (by intros E; rewrite E in Hcl).
  destruct (stream_step_ok Run st Hok I) as (st' & E & Hok'). exists st'. rewrite E.
  assert (stream_ok st') as Hst' by (apply Hok'; by intros ?). simpl in E. rewrite Hio in E. split; [done|].
  assert (forall e, processErrorCode e (set_io io st) = Some (set_io io st)) as Herr by (intros e; unfold processErrorCode; change (s_state (set_io io st)) with (s_state st); by rewrite Hcl).
  destruct h as [[e|] n|[e|] b|e| |]; simpl in E; [rewrite Herr in E; by injection E as <-| |rewrite Herr in E; by injection E as <-|..|done|].
  - destruct (m_sendQueue st) as [|p q]; [done|]. destruct (_ =? _)%nat; [|done]. destruct q as [|p' q]; [by injection E as <-|].
    unfold sendFromQueue in E. simpl in E. destruct (sk_writing (m_socket st)); [done|]. by injection E as <-.
  - exfalso. pose proof (ok_phase _ Hok) as Hp. unfold phase_ok in Hp. rewrite Hio in Hp. simpl in Hp. destruct (s_state st); [done|done|..]; by destruct Hp as (_ & ? & _).
  - destruct (ok_noReconnect _ Hok) as (_ & R & _). specialize (R e). rewrite Hio in R. set_solver.
  - destruct (ok_noReconnect _ Hok) as (R & _). rewrite Hio in R. set_solver.
Qed.

Lemma closing_ends pre post st : stream_ok st -> s_state st = CLOSING \/ s_state st = FAILED -> s_io st = pre ++ DeferredClose :: post -> DeferredClose ∉ pre ->
  exists st', runs (S (length pre)) st = Some st' /\ s_state st' = CLOSED.
Proof.
  revert st. induction pre as [|h pre IH]; intros st Hok Hst Hio Hn.
  - simpl in Hio. destruct (deferredClose_ok post st Hok Hio) as (st' & E & Hs & _). exists st'. split; [|done].
    cbn [runs length]. simpl. rewrite Hio. simpl. by rewrite E.
  - apply not_elem_of_cons in Hn as [Hh Hn]. destruct (closing_run h (pre ++ DeferredClose :: post) st Hok) as (st1 & E & E1 & E2 & Hok1); [by destruct Hst as [-> | ->]|done|done|].
    destruct (IH st1 Hok1) as (st' & Er & Hs); [by rewrite E2|done|done|]. exists st'. split; [|done]. cbn [length]. change (runs (S (S (length pre))) st) with (st ← stream_step Run st; runs (S (length pre)) st).
    by rewrite E.
Qed.

(** C28: in every run of a stream transport that is not permanent - packets sent,
    completions of reads and writes in any order, handlers run in the order of
    their queue - in which no successful read awaits its handler when the
    transport goes down, no assertion fails, no transition of the state is
    invalid, no two writes overlap, and every possible step can be taken. The
    packets written in full are the first ones accepted, in order; the byte count
    is that of the queue; and a transport that is closing or has failed is closed
    once the handlers of the queue have run. *)
Theorem stream_run_safe st : stream_reachable st ->
  (forall op, allowed op st -> is_Some (stream_step op st)) /\
  s_wire st `prefix_of` s_accepted st /\ m_sendQueueBytes st = u64 (total (m_sendQueue st)) /\ s_state st <> DOWN /\
  (s_state st = CLOSING \/ s_state st = FAILED -> exists n st', (n <= length (s_io st))%nat /\ runs n st = Some st' /\ s_state st' = CLOSED).
Proof.
  intros Hok%reachable_ok. pose proof Hok as [H1' H2' H3' H4' H5']. split_and!.
  - intros op Hal. destruct (stream_step_ok op st Hok Hal) as (st' & -> & _). by eexists.
  - assert (writes_ok st -> s_wire st `prefix_of` s_accepted st) as Hw.
    { unfold writes_ok. destruct (ok_sends (s_io st)) as [|n [|]]; [|..|done]; [intros [-> _]; by apply prefix_app_r|].
      intros (_ & p & q & w & -> & _ & -> & ->). apply prefix_app. by exists q. }
    unfold phase_ok in H5'. destruct (s_state st); [apply Hw, H5'|done|apply Hw, H5'|apply Hw, H5'|apply H5'].
  - done.
  - intros Hd. unfold phase_ok in H5'. by rewrite Hd in H5'.
  - intros Hst. assert (closes_later (s_io st)) as (pre & post & Hio & Hn & _) by (unfold phase_ok in H5'; destruct Hst as [E|E]; rewrite E in H5'; apply H5').
    destruct (closing_ends pre post st Hok Hst Hio) as (st' & Hr & Hs); [set_solver|]. exists (S (length pre)), st'. split_and!; [|done|done].
    rewrite Hio, length_app. simpl. lia.
Qed.

(** *** What goes wrong *)

Definition steps (ops : list StreamOp) st : option StreamTransport := foldl (fun o op => st ← o; stream_step op st) (Some st) ops.

(** A read that has succeeded before the transport is closed, and whose handler
    runs afterwards, makes the assertion of [startReceive] fail. *)
Theorem received_after_close isTcp persistency bytes : exists st st1, newStream isTcp persistency = Some st /\
  steps [ReadDone (inr bytes); Close] st = Some st1 /\ stream_step Run st1 = None.
Proof.
  eexists _, _. split; [done|]. split; [by destruct isTcp|].
  match goal with |- stream_step Run ?s = None => set (st1 := s) end.
  assert (exists io, s_io st1 = HandleReceive None bytes :: io) as [io Hio] by (unfold st1; destruct isTcp; by eexists).
  cbn [stream_step]. rewrite Hio. cbn [runHandler]. unfold handleReceive. set (buffer := _ ++ bytes).
  destruct (receive_loop_ok (S (length buffer)) buffer (set_io io st1)) as (st2 & -> & t & _ & T2 & _ & ->); [lia|unfold st1; by destruct isTcp|].
  assert (t_state t = CLOSING) as Ht by (rewrite T2; unfold st1; by destruct isTcp). cbn [mbind option_bind].
  destruct (_ && _); [|unfold startReceive; rewrite decide_False; [done|unfold s_state; simpl; congruence]].
  unfold changeState, setState. simpl. rewrite Ht. done.
Qed.

(** A permanent TCP transport does not shut its socket down before it
    reconnects. When a read fails after a write has succeeded and before its
    handler has run, the handler writes the next packet to the old socket; if that
    succeeds, its handler comes after the send queue has been reset for the new
    connection, and its assertion that there is a packet fails. *)
Theorem reconnect_send_fails p1 p2 : exists st st1, newStream true PERMANENT = Some st /\
  steps [Send p1; Send p2; ReadDone (inl eof); WriteDone None; Run; Run; WriteDone None; Run] st = Some st1 /\
  s_state st1 = DOWN /\ s_wire st1 = [p1; p2] /\ stream_step Run st1 = None.
Proof.
  eexists _, _. split; [done|]. unfold steps. cbn [foldl]. split.
  { lazy -[MAX_NDN_PACKET_SIZE u64 Nat.eqb Z.sub Z.of_nat length]. rewrite Nat.eqb_refl. lazy -[MAX_NDN_PACKET_SIZE u64 Nat.eqb Z.sub Z.of_nat length]. reflexivity. }
  done.
Qed.
End Runs.

Module StreamExamples.
(** A type octet, a length octet below 253 and the value. *)
Definition shortTlv (b : list Z) : option nat :=
  match b with
  | _ :: l :: v => if (0 <=? l) && (l <? 253) && (Z.to_nat l <=? length v)%nat then Some (2 + Z.to_nat l)%nat else None
  | _ => None
  end.

#[export] Program Instance shortBlocks : TlvBlocks := {| fromBuffer := shortTlv |}.
Next Obligation.
  intros [|t [|l v]] n; [done|done|]. cbn [shortTlv]. destruct (_ && _) eqn:E; [|done]. intros [= <-]. apply andb_true_iff in E as [_ E].
  apply Nat.leb_le in E. simpl. lia.
Qed.
Next Obligation.
  intros [|t [|l v]] n rest; [done|done|]. cbn [shortTlv app]. destruct (_ && (Z.to_nat l <=? length v)%nat) eqn:E; [|done]. intros [= <-].
  apply andb_true_iff in E as [E1 E2]. apply Nat.leb_le in E2. rewrite E1. rewrite (proj2 (Nat.leb_le _ _)) by (rewrite length_app; lia). done.
Qed.
Next Obligation.
  intros [|t [|l v]] n; [done|done|]. cbn [shortTlv]. destruct (_ && _) eqn:E; [|done]. intros [= <-]. apply andb_true_iff in E as [E1 E2].
  apply Nat.leb_le in E2. cbn [take Nat.add shortTlv]. rewrite E1. rewrite (proj2 (Nat.leb_le _ _)) by (rewrite length_take; lia). done.
Qed.

Definition unixStream : StreamTransport :=
  default (mkStreamTransport newTransport false (mkSocket false false None None false) [] [] 0 0 false [] [] [] []) (newStream false ON_DEMAND).

(** Two packets in three reads. *)
Lemma stream_delivers_witness : exists st, receiveAll [[6; 2; 1]; [2; 5]; [1; 9]] unixStream = Some st /\ s_received st = [[6; 2; 1; 2]; [5; 1; 9]].
Proof.
  destruct (stream_delivers [[6; 2; 1; 2]; [5; 1; 9]] [[6; 2; 1]; [2; 5]; [1; 9]] [] unixStream) as (st & k & E & _ & _ & _ & _ & _ & Hall).
  - apply Forall_cons. split; [split; [reflexivity|unfold MAX_NDN_PACKET_SIZE; cbn [length]; lia]|].
    apply Forall_cons. split; [split; [reflexivity|unfold MAX_NDN_PACKET_SIZE; cbn [length]; lia]|]. constructor.
  - reflexivity.
  - reflexivity.
  - reflexivity.
  - reflexivity.
  - exists st. split; [exact E|]. apply Hall. reflexivity.
Defined.

(** A transport that is closed with a packet in its queue. *)
Definition closing : StreamTransport := default unixStream (steps [Send [5; 1; 9]; Close] unixStream).

Lemma stream_run_safe_witness : s_state closing = CLOSING /\ exists n st', runs n closing = Some st' /\ s_state st' = CLOSED.
Proof.
  assert (stream_reachable closing) as Hr.
  { apply (reach_step (default unixStream (stream_step (Send [5; 1; 9]) unixStream)) Close); [|exact I|reflexivity|intros _ _; reflexivity].
    apply (reach_step unixStream (Send [5; 1; 9])); [|exact I|reflexivity|intros _ Hn; exfalso; apply Hn; reflexivity].
    apply (reach_new false ON_DEMAND); [discriminate|reflexivity]. }
  split; [reflexivity|]. destruct (stream_run_safe closing Hr) as (_ & _ & _ & _ & Hc).
  destruct Hc as (n & st' & _ & E & Hs); [left; reflexivity|]. exists n, st'. split; [exact E|exact Hs].
Defined.
End StreamExamples.
