(* ===== verification/Datagram.v ===== *)
(** * Datagram and Ethernet transports

    Models [daemon/face/datagram-transport.hpp], [unicast-udp-transport.cpp],
    [udp-protocol.cpp], [ethernet-transport.cpp], [ethernet-protocol.cpp] and
    [unicast-ethernet-transport.cpp]: each datagram or frame carries one packet,
    and an on-demand transport closes itself when it has been idle. The time of
    the next idle check is part of the state. [None] is a failed assertion or an
    invalid transition of the state. *)

From S2P Require Import Prelude Face StreamTransport StreamRuns.
Local Open Scope Z_scope.

(** ** MTU *)

(** Of the 65535 octets of an IP packet, less the largest IPv4 header, and less the UDP header. *)
Definition computeMtu (is_v4 : bool) : Z :=
  let mtu := if is_v4 then 65535 - 4 * (Z.shiftl 1 4 - 1) else 65535 in
  mtu - 2 * 4.

(** ** Datagram transports *)

(** [d_posted] counts the posted functions that set the state to [CLOSED];
    [d_received] are the packets passed to the link service. *)
Record DatagramTransport := mkDatagram {
  d_transport : Transport;
  d_open : bool;
  d_reading : bool;
  m_hasRecentlyReceived : bool;
  d_posted : nat;
  d_received : list (list Z);
  m_idleTimeout : Z;
  m_closeIfIdleEvent : option Z;   (* when it fires *)
  d_expirationTime : option Z      (* [None] is the largest time *)
}.

Section Datagram.
Context `{TlvBlocks}.
Implicit Types (st : DatagramTransport) (bytes packet : list Z) (now : Z).

Definition set_d_transport (t : Transport) st : DatagramTransport :=
  mkDatagram t (d_open st) (d_reading st) (m_hasRecentlyReceived st) (d_posted st) (d_received st) (m_idleTimeout st) (m_closeIfIdleEvent st) (d_expirationTime st).
Definition set_d_socket (opened reading : bool) (posted : nat) st : DatagramTransport :=
  mkDatagram (d_transport st) opened reading (m_hasRecentlyReceived st) posted (d_received st) (m_idleTimeout st) (m_closeIfIdleEvent st) (d_expirationTime st).
Definition set_recent (b : bool) st : DatagramTransport :=
  mkDatagram (d_transport st) (d_open st) (d_reading st) b (d_posted st) (d_received st) (m_idleTimeout st) (m_closeIfIdleEvent st) (d_expirationTime st).
Definition push_received packet st : DatagramTransport :=
  mkDatagram (d_transport st) (d_open st) (d_reading st) (m_hasRecentlyReceived st) (d_posted st) (d_received st ++ [packet]) (m_idleTimeout st)
    (m_closeIfIdleEvent st) (d_expirationTime st).
Definition set_idleEvent (event expiration : option Z) st : DatagramTransport :=
  mkDatagram (d_transport st) (d_open st) (d_reading st) (m_hasRecentlyReceived st) (d_posted st) (d_received st) (m_idleTimeout st) event expiration.

Definition d_state st : TransportState := t_state (d_transport st).

Definition d_changeState (s : TransportState) st : option DatagramTransport :=
  match setState s (d_transport st) with
  | (InvalidTransition, _) => None
  | (_, t) => Some (set_d_transport t st)
  end.

(** Shared by datagram and Ethernet transports: the socket is closed at once. *)
Definition d_doClose st : DatagramTransport := set_d_socket false (d_reading st && negb (d_open st)) (S (d_posted st)) st.

(** The posted function. *)
Definition onPosted st : option DatagramTransport :=
  match d_posted st with
  | O => Some st
  | S n => d_changeState CLOSED (set_d_socket (d_open st) (d_reading st) n st)
  end.

Definition d_close st : option DatagramTransport :=
  match Face.close (d_transport st) with
  | (None, _) => Some st
  | (Some InvalidTransition, _) => None
  | (Some _, t) => Some (d_doClose (set_d_transport t st))
  end.

Definition d_processErrorCode (error : ErrorCode) st : option DatagramTransport :=
  if isClosing (d_state st) || bool_decide (error = operation_aborted) then Some st
  else if decide (t_persistency (d_transport st) = PERMANENT) then Some st
  else st ← d_changeState FAILED st; Some (d_doClose st).

(** A packet is passed to the base class. *)
Definition deliver packet st : option DatagramTransport :=
  t ← Face.receive (Z.of_nat (length packet)) (d_transport st);
  Some (push_received packet (set_d_transport t st)).

Definition receiveDatagram bytes (error : option ErrorCode) st : option DatagramTransport :=
  match error with
  | Some e => d_processErrorCode e st
  | None =>
      match fromBuffer bytes with
      | None => Some st
      | Some n => if (n =? length bytes)%nat then deliver bytes (set_recent true st) else Some st
      end
  end.

Definition d_handleReceive (error : option ErrorCode) bytes st : option DatagramTransport :=
  st ← receiveDatagram bytes error st;
  Some (set_d_socket (d_open st) (d_open st) (d_posted st) st).

Definition d_handleSend (error : option ErrorCode) st : option DatagramTransport :=
  match error with Some e => d_processErrorCode e st | None => Some st end.

(** ** Closing when idle *)

Definition scheduleClosureWhenIdle now st : DatagramTransport :=
  set_idleEvent (Some (now + m_idleTimeout st)) (Some (now + m_idleTimeout st)) st.

(** The event. *)
Definition onIdle now st : option DatagramTransport :=
  let st := set_idleEvent None (d_expirationTime st) st in
  if m_hasRecentlyReceived st then Some (scheduleClosureWhenIdle now (set_recent false st))
  else d_close st.

Definition closesWhenIdle st : bool := bool_decide (t_persistency (d_transport st) = ON_DEMAND) && (0 <? m_idleTimeout st).

Definition d_afterChangePersistency now st : DatagramTransport :=
  if closesWhenIdle st then scheduleClosureWhenIdle now st else set_idleEvent None None st.

Definition d_setPersistency (newPersistency : FacePersistency) now st : option DatagramTransport :=
  '(old, t) ← setPersistency (fun _ => true) newPersistency (d_transport st);
  let st := set_d_transport t st in
  Some (match old with Some _ => d_afterChangePersistency now st | None => st end).

(** The end of the constructors of the unicast transports. *)
Definition newUnicast (persistency : FacePersistency) (idleTimeout mtu now : Z) : option DatagramTransport :=
  t ← setMtu mtu newTransport;
  let st := mkDatagram (set_persistency persistency t) true true false 0 [] idleTimeout None None in
  Some (if closesWhenIdle st then scheduleClosureWhenIdle now st else st).

Definition newUnicastUdp (persistency : FacePersistency) (idleTimeout : Z) (overrideMtu : option Z) (is_v4 : bool) now : option DatagramTransport :=
  let mtu := match overrideMtu with Some m => Z.min (computeMtu is_v4) m | None => computeMtu is_v4 end in
  if MIN_MTU <=? mtu then newUnicast persistency idleTimeout mtu now else None.

(** With the MTU of the interface. *)
Definition newUnicastEthernet (persistency : FacePersistency) (idleTimeout : Z) (overrideMtu : option Z) (localMtu : Z) now : option DatagramTransport :=
  newUnicast persistency idleTimeout (match overrideMtu with Some m => Z.min localMtu m | None => localMtu end) now.
End Datagram.

(** ** Ethernet *)

(** What the code uses of ndn-cxx's [ethernet] constants. *)
Class EthernetConstants := {
  ETHERTYPE_NDN : Z;
  ADDR_LEN : nat;
  HDR_LEN : nat;
  MIN_DATA_LEN : nat;
  ethertype_16 : 0 <= ETHERTYPE_NDN < 2 ^ 16;
  header_layout : HDR_LEN = (ADDR_LEN + ADDR_LEN + 2)%nat
}.

Section Ethernet.
Context `{TlvBlocks} `{EthernetConstants}.
Implicit Types (st : DatagramTransport) (frame block src dst : list Z).

(** Big-endian, from and to two octets. *)
Definition native_to_big (x : Z) : list Z := [Z.land (Z.shiftr x 8) 255; Z.land x 255].
Definition big_to_native (l : list Z) : Z := match l with [h; l] => Z.lor (Z.shiftl h 8) l | _ => 0 end.

(** The frame that [sendPacket] injects. *)
Definition ethernetFrame dst src block : list Z :=
  let padding := replicate (MIN_DATA_LEN - length block) 0 in
  dst ++ src ++ native_to_big ETHERTYPE_NDN ++ block ++ padding.

Definition eth_handleError st : option DatagramTransport :=
  if decide (t_persistency (d_transport st) = PERMANENT) then Some st
  else st ← d_changeState FAILED st; Some (d_doClose st).

(** With the result of [pcap_inject]. *)
Definition eth_sendPacket dst src block (sent : Z) st : option DatagramTransport :=
  if sent <? Z.of_nat (length (ethernetFrame dst src block)) then eth_handleError st else Some st.

(** [isDebug] is [_DEBUG]; the result is the source address. *)
Definition checkFrameHeader (isDebug : bool) frame (localAddr destAddr : list Z) : option (list Z) :=
  if (length frame <? HDR_LEN + MIN_DATA_LEN)%nat then None
  else
    let dhost := take ADDR_LEN frame in
    let shost := take ADDR_LEN (drop ADDR_LEN frame) in
    let ethertype := big_to_native (take 2 (drop (ADDR_LEN + ADDR_LEN) frame)) in
    if negb (ethertype =? ETHERTYPE_NDN) then None
    else if isDebug && (bool_decide (shost = localAddr) || negb (bool_decide (dhost = destAddr))) then None
    else Some shost.

Definition receivePayload (payload : list Z) st : option DatagramTransport :=
  match fromBuffer payload with
  | None => Some st
  | Some n => deliver (take n payload) (set_recent true st)
  end.

(** The frame that was read, if any; [isMulticast] is of the remote address. *)
Definition handleRead (isDebug : bool) (error : option ErrorCode) (frame : option (list Z)) src dst (isMulticast : bool) st : option DatagramTransport :=
  match error with
  | Some e => if bool_decide (e = operation_aborted) || isClosing (d_state st) then Some st else eth_handleError st
  | None =>
      st ← match frame with
           | None => Some st
           | Some pkt =>
               match checkFrameHeader isDebug pkt src (if isMulticast then dst else src) with
               | None => Some st
               | Some _ => receivePayload (drop HDR_LEN pkt) st
               end
           end;
      Some (set_d_socket (d_open st) true (d_posted st) st)
  end.

Definition handleNetifStateChange (isRunning : bool) st : option DatagramTransport :=
  if isRunning then (if decide (d_state st = DOWN) then d_changeState UP st else Some st)
  else if decide (d_state st = UP) then d_changeState DOWN st else Some st.

(** ** Round trip of frames *)

Lemma big_roundtrip x : 0 <= x < 2 ^ 16 -> big_to_native (native_to_big x) = x.
Proof.
  intros Hx. unfold big_to_native, native_to_big. change 255 with (Z.ones 8). rewrite !Z.land_ones by lia.
  rewrite (Z.mod_small (Z.shiftr x 8)) by (rewrite Z.shiftr_div_pow2 by lia; split; [apply Z.div_pos; lia|apply Z.div_lt_upper_bound; lia]).
  rewrite <-(Z.lor_ldiff_and x (Z.ones 8)) at 3. rewrite Z.land_ones by lia. f_equal. by rewrite Z.ldiff_ones_r by lia.
Qed.

(** C30: a packet sent in an Ethernet frame arrives as it is. The frame, padded to
    the least length, passes the check of its header at a host that did not send
    it and that it is addressed to, and the transport there delivers exactly the
    packet, without the padding, and counts as having received. *)
Theorem ethernet_roundtrip isDebug dst src localAddr (remoteAddr : list Z) packet (isMulticast : bool) st :
  length dst = ADDR_LEN -> length src = ADDR_LEN -> fromBuffer packet = Some (length packet) ->
  src <> localAddr -> dst = (if isMulticast then remoteAddr else localAddr) ->
  t_mtu (d_transport st) = MTU_UNLIMITED \/ Z.of_nat (length packet) <= t_mtu (d_transport st) ->
  exists st', handleRead isDebug None (Some (ethernetFrame dst src packet)) localAddr remoteAddr isMulticast st = Some st' /\
    d_received st' = d_received st ++ [packet] /\ m_hasRecentlyReceived st' = true /\ d_state st' = d_state st /\ d_reading st' = true.
Proof.
  intros Hd Hs Hp Hne Hdst Hmtu. unfold handleRead. cbn [mbind option_bind].
  set (padding := replicate (MIN_DATA_LEN - length packet) 0).
  assert (ethernetFrame dst src packet = dst ++ src ++ native_to_big ETHERTYPE_NDN ++ packet ++ padding) as Ef by done.
  assert (length (ethernetFrame dst src packet) = HDR_LEN + (length packet + (MIN_DATA_LEN - length packet)))%nat as El.
  { rewrite Ef, !length_app, Hd, Hs, header_layout. unfold padding. rewrite length_replicate. simpl. lia. }
  assert (drop ADDR_LEN (ethernetFrame dst src packet) = src ++ native_to_big ETHERTYPE_NDN ++ packet ++ padding) as E1.
  { rewrite Ef, <-Hd. by rewrite drop_app_length. }
  assert (drop (ADDR_LEN + ADDR_LEN) (ethernetFrame dst src packet) = native_to_big ETHERTYPE_NDN ++ packet ++ padding) as E2.
  { rewrite <-drop_drop, E1, <-Hs. by rewrite drop_app_length. }
  assert (checkFrameHeader isDebug (ethernetFrame dst src packet) localAddr (if isMulticast then remoteAddr else localAddr) = Some src) as ->.
  { unfold checkFrameHeader. rewrite (proj2 (Nat.ltb_ge _ _)) by lia. rewrite E1, E2.
    assert (take ADDR_LEN (src ++ native_to_big ETHERTYPE_NDN ++ packet ++ padding) = src) as -> by (rewrite <-Hs; apply take_app_length).
    change (take 2 (native_to_big ETHERTYPE_NDN ++ packet ++ padding)) with (native_to_big ETHERTYPE_NDN).
    rewrite big_roundtrip, Z.eqb_refl by apply ethertype_16. cbn [negb]. rewrite (bool_decide_eq_false_2 (src = localAddr)) by done. cbn [orb].
    rewrite bool_decide_eq_true_2; [by rewrite andb_false_r|].
    assert (take ADDR_LEN (ethernetFrame dst src packet) = dst) as -> by (rewrite Ef, <-Hd; apply take_app_length). done. }
  assert (drop HDR_LEN (ethernetFrame dst src packet) = packet ++ padding) as ->.
  { rewrite header_layout, <-drop_drop, E2. done. }
  unfold receivePayload. rewrite (fromBuffer_app _ _ _ Hp), take_app_length. unfold deliver, receive, fits.
  assert ((t_mtu (d_transport st) =? MTU_UNLIMITED) || (Z.of_nat (length packet) <=? t_mtu (d_transport st)) = true) as Hfit.
  { destruct Hmtu as [-> |Hle]; [done|]. apply orb_true_iff. right. by apply Z.leb_le. }
  simpl. rewrite Hfit. cbn [mbind option_bind]. eexists. split; [done|]. done.
Qed.

(** ** Runs *)

Inductive DatagramOp :=
  | DReceived (error : option ErrorCode) (bytes : list Z)
  | DSent (error : option ErrorCode)
  | DFrame (isDebug : bool) (error : option ErrorCode) (frame : option (list Z)) (src dst : list Z) (isMulticast : bool)
  | DInject (dst src block : list Z) (sent : Z)
  | DNetif (isRunning : bool)
  | DPosted
  | DClose
  | DIdle
  | DPersistency (newPersistency : FacePersistency).

Definition d_step (now : Z) (op : DatagramOp) st : option DatagramTransport :=
  match op with
  | DReceived error bytes => d_handleReceive error bytes st
  | DSent error => d_handleSend error st
  | DFrame isDebug error frame src dst isMulticast => handleRead isDebug error frame src dst isMulticast st
  | DInject dst src block sent => eth_sendPacket dst src block sent st
  | DNetif isRunning => handleNetifStateChange isRunning st
  | DPosted => onPosted st
  | DClose => d_close st
  | DIdle => onIdle now st
  | DPersistency p => d_setPersistency p now st
  end.

Definition d_isOpen st : bool := match d_state st with UP | DOWN => true | _ => false end.

(** A packet was delivered, or the persistency changed. *)
Definition isActivity st st' : bool :=
  negb (bool_decide (d_received st' = d_received st)) || negb (bool_decide (t_persistency (d_transport st') = t_persistency (d_transport st))).

(** The scheduler runs the idle event when it is due, and not earlier. *)
Definition timely (now : Z) (op : DatagramOp) st : Prop :=
  match op with
  | DIdle => m_closeIfIdleEvent st = Some now
  | _ => forall d, m_closeIfIdleEvent st = Some d -> now <= d
  end.

(** [d_run st0 t0 st now last]: a transport created at [t0] is in [st] at [now], its last activity at [last]. *)
Inductive d_run (st0 : DatagramTransport) (t0 : Z) : DatagramTransport -> Z -> Z -> Prop :=
  | d_run_nil : d_run st0 t0 st0 t0 t0
  | d_run_step st now last op now' st' : d_run st0 t0 st now last -> now <= now' -> timely now' op st -> d_step now' op st = Some st' ->
      d_run st0 t0 st' now' (if isActivity st st' then now' else last).

(** ** Closing when idle *)

(** What an operation other than the idle event and a change of persistency keeps. *)
Record quiet st st' : Prop := {
  q_event : m_closeIfIdleEvent st' = m_closeIfIdleEvent st;
  q_timeout : m_idleTimeout st' = m_idleTimeout st;
  q_persistency : t_persistency (d_transport st') = t_persistency (d_transport st);
  q_open : d_isOpen st' = true -> d_isOpen st = true;
  q_recent : (m_hasRecentlyReceived st' = m_hasRecentlyReceived st /\ d_received st' = d_received st) \/
             (m_hasRecentlyReceived st' = true /\ d_received st' <> d_received st)
}.

Lemma quiet_refl st : quiet st st.
Proof. constructor; auto. Qed.

Lemma quiet_socket opened reading n st st' : quiet st st' -> quiet st (set_d_socket opened reading n st').
Proof. intros [? ? ? ? ?]. by constructor. Qed.

Lemma changeState_quiet s st st' : (s = UP -> d_isOpen st = true) -> (s = DOWN -> d_isOpen st = true) -> d_changeState s st = Some st' -> quiet st st'.
Proof.
  intros Hup Hdown. unfold d_changeState, setState. case_decide as E.
  { intros [= <-]. by destruct st; apply quiet_refl. }
  destruct (isValid _ _); [|done]. intros [= <-]. constructor; auto. unfold d_isOpen, d_state. simpl. intros Ho. destruct s; try done; auto.
Qed.

Lemma close_quiet st st' : d_close st = Some st' -> quiet st st'.
Proof.
  unfold d_close, Face.close, setState. intros Hc. repeat (case_decide || case_match); simplify_eq; try apply quiet_refl;
    constructor; auto; done.
Qed.

Lemma close_closed st st' : d_close st = Some st' -> d_isOpen st' = false /\ (d_state st' <> d_state st -> d_state st' = CLOSING).
Proof.
  unfold d_close, Face.close, setState, d_isOpen, d_state. destruct (t_state (d_transport st)) eqn:E; simpl; rewrite ?E; intros [= <-]; simpl; by rewrite ?E.
Qed.

Lemma posted_quiet st st' : onPosted st = Some st' -> quiet st st'.
Proof.
  unfold onPosted. case_match; [intros [= <-]; apply quiet_refl|]. intros Hc. apply changeState_quiet in Hc; [|done..].
  destruct Hc. by constructor.
Qed.

Lemma fail_quiet st st' : (st ← d_changeState FAILED st; Some (d_doClose st)) = Some st' -> quiet st st'.
Proof.
  destruct (d_changeState FAILED st) as [s|] eqn:E; [|done]. intros [= <-]. apply quiet_socket. by eapply changeState_quiet; [..|exact E].
Qed.

Lemma processErrorCode_quiet e st st' : d_processErrorCode e st = Some st' -> quiet st st'.
Proof. unfold d_processErrorCode. repeat case_match; try (intros [= <-]; apply quiet_refl). apply fail_quiet. Qed.

Lemma handleError_quiet st st' : eth_handleError st = Some st' -> quiet st st'.
Proof. unfold eth_handleError. case_decide; [intros [= <-]; apply quiet_refl|]. apply fail_quiet. Qed.

Lemma deliver_quiet packet st st' : deliver packet (set_recent true st) = Some st' -> quiet st st'.
Proof.
  unfold deliver, receive. simpl. destruct (fits _ _); [|done]. intros [= <-]. constructor; try done. right. split; [done|]. simpl.
  intros E%(f_equal length). rewrite length_app in E. simpl in E. lia.
Qed.

Lemma netif_quiet b st st' : handleNetifStateChange b st = Some st' -> quiet st st'.
Proof.
  unfold handleNetifStateChange. repeat case_match; try (intros [= <-]; apply quiet_refl); apply changeState_quiet; try done;
    intros _; unfold d_isOpen; by match goal with E : d_state _ = _ |- _ => rewrite E end.
Qed.

Lemma received_quiet error bytes st st' : d_handleReceive error bytes st = Some st' -> quiet st st'.
Proof.
  unfold d_handleReceive, receiveDatagram. destruct error as [e|].
  - destruct (d_processErrorCode e st) as [s|] eqn:E; [|done]. intros [= <-]. by eapply quiet_socket, processErrorCode_quiet.
  - case_match; [|intros [= <-]; apply quiet_socket, quiet_refl]. case_match; [|intros [= <-]; apply quiet_socket, quiet_refl].
    destruct (deliver _ _) as [s|] eqn:E; [|done]. intros [= <-]. by eapply quiet_socket, deliver_quiet.
Qed.

Lemma frame_quiet isDebug error (frame : option (list Z)) src dst isMulticast st st' : handleRead isDebug error frame src dst isMulticast st = Some st' -> quiet st st'.
Proof.
  unfold handleRead, receivePayload. destruct error as [e|].
  - case_match; [intros [= <-]; apply quiet_refl|apply handleError_quiet].
  - destruct frame as [pkt|]; [|intros [= <-]; apply quiet_socket, quiet_refl].
    destruct (checkFrameHeader _ _ _ _); [|intros [= <-]; apply quiet_socket, quiet_refl].
    destruct (fromBuffer _); [|intros [= <-]; apply quiet_socket, quiet_refl].
    destruct (deliver _ _) as [s|] eqn:E; [|done]. intros [= <-]. by eapply quiet_socket, deliver_quiet.
Qed.

Lemma d_step_quiet now op st st' : d_step now op st = Some st' -> match op with DIdle | DPersistency _ => True | _ => quiet st st' end.
Proof.
  destruct op; cbn [d_step]; try done; intros Hs.
  - by eapply received_quiet.
  - unfold d_handleSend in Hs. case_match; [by eapply processErrorCode_quiet|]. injection Hs as <-. apply quiet_refl.
  - by eapply frame_quiet.
  - unfold eth_sendPacket in Hs. case_match; [by eapply handleError_quiet|]. injection Hs as <-. apply quiet_refl.
  - by eapply netif_quiet.
  - by eapply posted_quiet.
  - by eapply close_quiet.
Qed.

(** The next idle check comes at most two periods after the last activity, and
    it closes the transport only when a period has passed since then. *)
Record idle_ok st (now last : Z) : Prop := {
  io_timeout : 0 < m_idleTimeout st;
  io_past : last <= now;
  io_persistency : t_persistency (d_transport st) <> PERSISTENCY_NONE;
  io_scheduled : t_persistency (d_transport st) = ON_DEMAND -> d_isOpen st = true -> is_Some (m_closeIfIdleEvent st);
  io_due d : m_closeIfIdleEvent st = Some d -> d - m_idleTimeout st <= now <= d;
  io_recent d : m_closeIfIdleEvent st = Some d -> m_hasRecentlyReceived st = true -> d - m_idleTimeout st <= last;
  io_idle d : m_closeIfIdleEvent st = Some d -> m_hasRecentlyReceived st = false -> last + m_idleTimeout st <= d <= last + 2 * m_idleTimeout st
}.

Lemma quiet_ok st st' now now' last : idle_ok st now last -> quiet st st' -> now <= now' -> (forall d, m_closeIfIdleEvent st = Some d -> now' <= d) ->
  idle_ok st' now' (if isActivity st st' then now' else last).
Proof.
  intros [Ht Hp Hz Hs Hd Hr Hi] [Qe Qt Qp Qo Qr] Hn Hl. unfold isActivity. rewrite Qp, (bool_decide_eq_true_2 (_ = _) eq_refl), orb_false_r.
  destruct Qr as [[Qf ->]|[Qf Qr]].
  - rewrite bool_decide_eq_true_2 by done. cbn [negb]. constructor; rewrite ?Qe, ?Qt, ?Qf, ?Qp; auto; [lia|].
    intros d Ed. specialize (Hd d Ed). specialize (Hl d Ed). lia.
  - rewrite bool_decide_eq_false_2 by done. cbn [negb]. constructor; rewrite ?Qe, ?Qt, ?Qf, ?Qp; auto; try lia; try done;
      intros d Ed; specialize (Hd d Ed); specialize (Hl d Ed); lia.
Qed.

Lemma idle_schedule_ok st now last : 0 < m_idleTimeout st -> last <= now -> (m_hasRecentlyReceived st = true -> last = now) -> now <= last + m_idleTimeout st ->
  t_persistency (d_transport st) <> PERSISTENCY_NONE -> idle_ok (scheduleClosureWhenIdle now st) now last.
Proof. intros Ht Hp Hf Hl Hz. constructor; simpl; try done; intros; simplify_eq; try lia. specialize (Hf ltac:(done)). lia. Qed.

Lemma idle_event_ok st st' now now' last : idle_ok st now last -> m_closeIfIdleEvent st = Some now' -> onIdle now' st = Some st' ->
  idle_ok st' now' (if isActivity st st' then now' else last).
Proof.
  intros [Ht Hp Hz Hs Hd Hr Hi] He Hst. specialize (Hd _ He). unfold onIdle in Hst. cbn [m_hasRecentlyReceived set_idleEvent] in Hst.
  destruct (m_hasRecentlyReceived st) eqn:Ef.
  - injection Hst as <-. specialize (Hr _ He eq_refl). unfold isActivity. cbn. rewrite !bool_decide_eq_true_2 by done. cbn [negb orb].
    apply idle_schedule_ok; simpl; try lia; done.
  - pose proof (close_quiet _ _ Hst) as [Qe Qt Qp Qo Qr]. cbn in Qe, Qt, Qp. assert (isActivity st st' = false) as ->.
    { unfold isActivity. rewrite Qp. destruct Qr as [[_ ->]|[Qf _]]; [by rewrite !bool_decide_eq_true_2 by done|].
      exfalso. revert Hst Qf. unfold d_close. repeat case_match; intros; simplify_eq; simpl in *; congruence. }
    constructor; rewrite ?Qt, ?Qp; auto; try (intros d Ed; rewrite Qe in Ed; done); [lia|]. intros _ Ho. apply close_closed in Hst as [? _]. congruence.
Qed.

Lemma idle_persistency_ok p st st' now now' last : idle_ok st now last -> now <= now' -> (forall d, m_closeIfIdleEvent st = Some d -> now' <= d) ->
  d_setPersistency p now' st = Some st' -> idle_ok st' now' (if isActivity st st' then now' else last).
Proof.
  intros Hok Hn Hl. pose proof Hok as [Ht Hp Hz Hs Hd Hr Hi]. unfold d_setPersistency, setPersistency, canChangePersistencyTo.
  destruct (decide (t_persistency (d_transport st) = p)) as [E|E].
  { rewrite decide_True by auto. cbn [mbind option_bind]. intros [= <-]. eapply quiet_ok; eauto. by destruct st; apply quiet_refl. }
  rewrite decide_False by intuition. case_decide as Ep; [done|]. rewrite (decide_False (P := t_persistency _ = PERSISTENCY_NONE)) by done.
  cbn [mbind option_bind]. intros [= <-]. unfold isActivity, d_afterChangePersistency, closesWhenIdle. cbn.
  destruct (bool_decide (p = ON_DEMAND)) eqn:Eo; cbn [andb].
  - rewrite (proj2 (Z.ltb_lt _ _)) by done. cbn. rewrite (bool_decide_eq_false_2 (p = _)) by congruence. rewrite orb_true_r.
    apply idle_schedule_ok; simpl; auto; lia.
  - rewrite (bool_decide_eq_false_2 (p = t_persistency _)) by congruence. rewrite orb_true_r. apply bool_decide_eq_false in Eo.
    constructor; simpl; done || lia.
Qed.

Lemma d_run_ok st0 t0 st now last : d_run st0 t0 st now last -> idle_ok st0 t0 t0 -> idle_ok st now last.
Proof.
  intros Hr H00. induction Hr as [|st now last op now' st' _ IH Hn Ht Hs]; [done|].
  pose proof (d_step_quiet _ _ _ _ Hs). destruct op; try (by eapply quiet_ok); cbn [d_step timely] in *.
  - by eapply idle_event_ok.
  - by eapply idle_persistency_ok.
Qed.

Lemma newUnicast_ok p idleTimeout mtu t0 st0 : p <> PERSISTENCY_NONE -> 0 < idleTimeout -> newUnicast p idleTimeout mtu t0 = Some st0 -> idle_ok st0 t0 t0.
Proof.
  intros Hp Ht. unfold newUnicast, setMtu. destruct (_ || _); [|done]. cbn [mbind option_bind]. intros [= <-].
  unfold closesWhenIdle. cbn. destruct (bool_decide _) eqn:Eo; cbn [andb].
  - rewrite (proj2 (Z.ltb_lt _ _)) by done. apply idle_schedule_ok; simpl; auto; lia.
  - apply bool_decide_eq_false in Eo. constructor; simpl; done || lia.
Qed.

(** C29: an idle on-demand transport closes itself, neither too early nor too late.
    However datagrams, frames, errors, interface changes, closures and changes of
    persistency follow one another, while a unicast transport is on demand and not
    closed its next idle check is scheduled, at most two idle timeouts after its
    last activity (the last packet delivered, or the last change of persistency);
    and when an idle check closes it, at least one idle timeout has passed since
    that activity. *)
Theorem idle_transport_closes p idleTimeout mtu t0 st0 st now last :
  p <> PERSISTENCY_NONE -> 0 < idleTimeout -> newUnicast p idleTimeout mtu t0 = Some st0 -> d_run st0 t0 st now last ->
  (t_persistency (d_transport st) = ON_DEMAND -> d_isOpen st = true ->
     exists d, m_closeIfIdleEvent st = Some d /\ now <= d <= last + 2 * m_idleTimeout st) /\
  (forall d st', m_closeIfIdleEvent st = Some d -> d_step d DIdle st = Some st' -> d_state st' <> d_state st ->
     d_state st' = CLOSING /\ last + m_idleTimeout st <= d <= last + 2 * m_idleTimeout st).
Proof.
  intros Hp Ht Hn Hr. pose proof (d_run_ok _ _ _ _ _ Hr (newUnicast_ok _ _ _ _ _ Hp Ht Hn)) as [Ht' Hp' _ Hs Hd Hrc Hi]. split.
  - intros Ho Hop. destruct (Hs Ho Hop) as [d Ed]. exists d. specialize (Hd _ Ed). split; [done|]. split; [lia|].
    destruct (m_hasRecentlyReceived st) eqn:Ef; [specialize (Hrc _ Ed eq_refl)|specialize (Hi _ Ed eq_refl)]; lia.
  - intros d st' Ed. cbn [d_step]. unfold onIdle. cbn [m_hasRecentlyReceived set_idleEvent]. destruct (m_hasRecentlyReceived st) eqn:Ef.
    { intros [= <-]. done. }
    specialize (Hi _ Ed eq_refl). intros Hc Hne. split; [|done]. by apply close_closed in Hc as [_ Hc]; apply Hc.
Qed.

(** A datagram that is larger than the MTU the transport was created with makes the assertion of [Transport::receive] fail. *)
Theorem oversize_datagram_fails bytes st : fromBuffer bytes = Some (length bytes) -> 0 < t_mtu (d_transport st) < Z.of_nat (length bytes) ->
  d_handleReceive None bytes st = None.
Proof.
  intros Hb Hm. unfold d_handleReceive, receiveDatagram. rewrite Hb, Nat.eqb_refl. unfold deliver, receive, fits. simpl.
  rewrite (proj2 (Z.eqb_neq _ _)) by (unfold MTU_UNLIMITED; lia). by rewrite (proj2 (Z.leb_gt _ _)) by lia.
Qed.
End Ethernet.

Module DatagramExamples.
#[export] Existing Instance StreamExamples.shortBlocks.

(** IEEE 802.3, and the EtherType of NDN. *)
#[export] Program Instance ieee8023 : EthernetConstants := {| ETHERTYPE_NDN := 34340; ADDR_LEN := 6; HDR_LEN := 14; MIN_DATA_LEN := 46 |}.
Next Obligation. lia. Qed.
Next Obligation. done. Qed.

Definition onDemand : DatagramTransport :=
  default (mkDatagram newTransport false false false 0 [] 0 None None) (newUnicastUdp ON_DEMAND 600 (Some 1500) true 0).

Definition received : DatagramTransport := default onDemand (d_step 500 (DReceived None [5; 1; 9]) onDemand).

(** After a datagram at 500 the idle check at 600 is followed by one at 1200, which closes. *)
Lemma idle_transport_closes_witness : exists d, m_closeIfIdleEvent received = Some d /\ 500 <= d <= 500 + 2 * 600.
Proof.
  assert (d_run onDemand 0 received 500 500) as Hr.
  { apply (d_run_step onDemand 0 onDemand 0 0 (DReceived None [5; 1; 9]) 500 received); [apply d_run_nil|lia| |reflexivity].
    intros d E. assert (d = 600) as -> by (injection E as <-; reflexivity). lia. }
  destruct (idle_transport_closes ON_DEMAND 600 1500 0 onDemand received 500 500) as [Hd _]; [discriminate|lia|reflexivity|exact Hr|].
  apply Hd; reflexivity.
Defined.

Definition host (n : Z) : list Z := [2; 0; 0; 0; 0; n].

Lemma ethernet_roundtrip_witness : exists st', handleRead true None (Some (ethernetFrame (host 1) (host 2) [5; 1; 9])) (host 1) (host 2) false onDemand = Some st' /\
  d_received st' = [[5; 1; 9]].
Proof.
  destruct (ethernet_roundtrip true (host 1) (host 2) (host 1) (host 2) [5; 1; 9] false onDemand) as (st' & E & Er & _);
    [reflexivity|reflexivity|reflexivity|discriminate|reflexivity|right; vm_compute; discriminate|].
  exists st'. split; [exact E|exact Er].
Defined.

(** The datagram does not pass the interface's MTU of the sender, but the override of the receiver. *)
Example override_fails : length (replicate 100 0) = 100%nat /\ d_handleReceive None ([5; 100] ++ replicate 100 0)
  (default onDemand (newUnicastUdp ON_DEMAND 600 (Some 100) true 0)) = None.
Proof. split; [done|]. apply oversize_datagram_fails; vm_compute; auto. Qed.
End DatagramExamples.
