(* ===== verification/LinkService.v ===== *)
(** * The generic link service with reliability

    Models [daemon/face/link-service.cpp], [generic-link-service.cpp] and
    [lp-reliability.cpp]: the encoding of network packets and their tags into
    LpPackets, fragmentation, TxSequence numbers, acknowledgements and
    retransmission, congestion marking, and the receive path up to the signals to
    forwarding. The reliability part calls back the link service to send, so both
    work on one state. [None] is a failed assertion, a dereferenced [end()], or an
    exception that nothing catches. Times are in nanoseconds. *)

From S2P Require Import Prelude Fp RttEstimator Face LpFragmentation.
Local Open Scope Z_scope.

(** ** Packets *)

(** A header field of an LpPacket: [has] tests its presence, [get] throws
    [tlv::Error] when its value does not decode. *)
Inductive Field {A : Type} := Absent | Malformed | Value (a : A).
Arguments Field : clear implicits.

Definition has {A} (f : Field A) : bool := match f with Absent => false | _ => true end.
Definition opt_field {A} (o : option A) : Field A := match o with Some a => Value a | None => Absent end.

(** The header fields that the daemon reads, with the types of NackHeader and of
    PrefixAnnouncement. [lh_ack] is [None] when an Ack does not decode. *)
Record LpHeaders {NH PA : Type} := mkLpHeaders {
  lh_txSequence : Field Z;
  lh_ack : option (list Z);
  lh_nack : Field NH;
  lh_nextHopFaceId : Field Z;
  lh_cachePolicy : Field Z;
  lh_incomingFaceId : Field Z;
  lh_congestionMark : Field Z;
  lh_nonDiscovery : Field unit;
  lh_prefixAnnouncement : Field PA;
  lh_hopCount : Field Z
}.
Arguments LpHeaders : clear implicits.

Section Headers.
Context {NH PA : Type}.
Notation LpHeaders := (LpHeaders NH PA).
Notation LpPacket := (LpPacket LpHeaders).
Implicit Types (h : LpHeaders) (p : LpPacket).

Definition emptyHeaders : LpHeaders := mkLpHeaders NH PA Absent (Some []) Absent Absent Absent Absent Absent Absent Absent Absent.

Definition on_headers (f : LpHeaders -> LpHeaders) p : LpPacket :=
  mkLpPacket (lp_fragment p) (lp_sequence p) (lp_fragIndex p) (lp_fragCount p) (f (lp_headers p)).

Definition set_txSequence (s : Z) : LpPacket -> LpPacket := on_headers (fun h =>
  mkLpHeaders NH PA (Value s) (lh_ack h) (lh_nack h) (lh_nextHopFaceId h) (lh_cachePolicy h) (lh_incomingFaceId h)
    (lh_congestionMark h) (lh_nonDiscovery h) (lh_prefixAnnouncement h) (lh_hopCount h)).
Definition add_ack (a : Z) : LpPacket -> LpPacket := on_headers (fun h =>
  mkLpHeaders NH PA (lh_txSequence h) ((.++ [a]) <$> lh_ack h) (lh_nack h) (lh_nextHopFaceId h) (lh_cachePolicy h)
    (lh_incomingFaceId h) (lh_congestionMark h) (lh_nonDiscovery h) (lh_prefixAnnouncement h) (lh_hopCount h)).
Definition set_congestionMark (c : Z) : LpPacket -> LpPacket := on_headers (fun h =>
  mkLpHeaders NH PA (lh_txSequence h) (lh_ack h) (lh_nack h) (lh_nextHopFaceId h) (lh_cachePolicy h) (lh_incomingFaceId h)
    (Value c) (lh_nonDiscovery h) (lh_prefixAnnouncement h) (lh_hopCount h)).

(** [wireEncode] of a packet that has only a Fragment is the bare network packet. *)
Definition bare p : bool :=
  let h := lp_headers p in
  match lp_fragment p, lp_sequence p, lp_fragIndex p, lp_fragCount p, lh_ack h with
  | Some _, None, None, None, Some [] =>
      negb (has (lh_txSequence h) || has (lh_nack h) || has (lh_nextHopFaceId h) || has (lh_cachePolicy h) ||
            has (lh_incomingFaceId h) || has (lh_congestionMark h) || has (lh_nonDiscovery h) ||
            has (lh_prefixAnnouncement h) || has (lh_hopCount h))
  | _, _, _, _, _ => false
  end.
End Headers.

(** What the link service uses of ndn-cxx. The wire of a packet is that of its
    TLV-TYPE, TLV-LENGTH and TLV-VALUE; TxSequence and Ack have a TLV-TYPE of
    three octets, a TLV-LENGTH of one and eight octets of value; a CongestionMark
    has at most as many. *)
Class LinkCodec (NH PA : Type) := {
  codec_encoding :: LpEncoding (LpHeaders NH PA);
  codec_noHeaders : noHeaders = emptyHeaders;
  sizeOfVarNumber : Z -> Z;
  sizeOfVarNumber_1 n : 0 <= n < 253 -> sizeOfVarNumber n = 1;
  sizeOfVarNumber_3 n : 253 <= n < 65536 -> sizeOfVarNumber n = 3;
  sizeOfVarNumber_5 n : 65536 <= n < 2 ^ 32 -> sizeOfVarNumber n = 5;
  sizeOfVarNumber_9 n : 2 ^ 32 <= n < 2 ^ 64 -> sizeOfVarNumber n = 9;
  MAX_NDN_PACKET_SIZE : Z;
  max_packet_size : 253 <= MAX_NDN_PACKET_SIZE < 65536;
  valueSize : LpPacket (LpHeaders NH PA) -> Z;
  valueSize_nonneg p : 0 <= valueSize p;
  valueSize_empty : valueSize emptyPacket = 0;
  valueSize_ack a p : is_Some (lh_ack (lp_headers p)) -> valueSize (add_ack a p) = valueSize p + (3 + 1 + 8);
  valueSize_mark c p : valueSize (set_congestionMark c p) <= valueSize p + (3 + 1 + 8);
  headerSize_txSequence s p : headerSize (set_txSequence s p) <= headerSize p + (3 + 1 + 8);
  headerSize_mark c p : headerSize (set_congestionMark c p) <= headerSize p + (3 + 1 + 8);
  wireSize_value p : bare p = false -> wireSize p = 1 + sizeOfVarNumber (valueSize p) + valueSize p;
  (* network packets: their blocks, and the Interest and Data types without tags *)
  Block : Type;
  parseBlock : list Z -> option Block;
  blockType : Block -> Z;
  NetInterest : Type;
  NetData : Type;
  wireInterest : NetInterest -> list Z;
  wireData : NetData -> list Z;
  interestOfBlock : Block -> option NetInterest;
  dataOfBlock : Block -> option NetData;
  interest_roundtrip i : exists b, parseBlock (wireInterest i) = Some b /\ blockType b = 5 /\ interestOfBlock b = Some i;
  data_roundtrip d : exists b, parseBlock (wireData d) = Some b /\ blockType b = 6 /\ dataOfBlock b = Some d
}.

(** The tags of a packet, and a packet with tags. *)
Record Tags {PA : Type} := mkTags {
  tag_incomingFaceId : option Z;
  tag_nextHopFaceId : option Z;
  tag_cachePolicy : option Z;
  tag_congestionMark : option Z;
  tag_nonDiscovery : option unit;
  tag_prefixAnnouncement : option PA;
  tag_hopCount : option Z
}.
Arguments Tags : clear implicits.
Arguments mkTags {PA}.

Definition noTags {PA} : Tags PA := mkTags None None None None None None None.

(** ** std::map in the order of its keys *)

Definition least (l : list Z) : option Z :=
  foldr (fun k o => Some (match o with Some j => Z.min k j | None => k end)) None l.

Definition keys {A} (m : gmap Z A) : list Z := (map_to_list m).*1.
(** [m.begin()]; [None] is [m.end()]. *)
Definition map_begin {A} (m : gmap Z A) : option Z := least (keys m).
(** The element after the position of [k]. *)
Definition map_next {A} (m : gmap Z A) (k : Z) : option Z := least (filter (fun j => k < j) (keys m)).
(** [emplace_hint] with any hint: an element of the key stays. *)
Definition emplace {A} (k : Z) (v : A) (m : gmap Z A) : gmap Z A :=
  match m !! k with Some _ => m | None => <[k := v]> m end.

(** ** State *)

Record Options := mkOptions {
  allowLocalFields : bool;
  allowFragmentation : bool;
  fragmenter_nMaxFragments : Z;
  allowReassembly : bool;
  reassembler_nMaxFragments : Z;
  reassemblyTimeout : Z;
  isEnabled : bool;              (* reliabilityOptions *)
  maxRetx : Z;
  idleAckTimerPeriod : Z;
  seqNumLossThreshold : Z;
  allowCongestionMarking : bool;
  baseCongestionMarkingInterval : Z;
  defaultCongestionThreshold : Z;
  allowSelfLearning : bool
}.

Inductive Counter :=
  | nInInterests | nOutInterests | nInData | nOutData | nInNacks | nOutNacks | nDroppedInterests
  | nFragmentationErrors | nOutOverMtu | nInLpInvalid | nReassemblyTimeouts | nInNetInvalid
  | nAcknowledged | nRetransmitted | nRetxExhausted | nCongestionMarked.
#[export] Instance Counter_eq_dec : EqDecision Counter.
Proof. solve_decision. Defined.

Section Link.
Context {NH PA : Type} `{!LinkCodec NH PA}.
Notation LpHeaders := (LpHeaders NH PA).
Notation LpPacket := (LpPacket LpHeaders).
Notation Tags := (Tags PA).
Implicit Types (p pkt : LpPacket) (now : Z).

(** [uf_rtoTimer] is when the timer fires; [uf_netPkt] points into the NetPkt
    objects. *)
Record UnackedFrag := mkUnackedFrag {
  uf_pkt : LpPacket;
  uf_rtoTimer : option Z;
  uf_sendTime : Z;
  uf_retxCount : Z;
  uf_nGreaterSeqAcks : Z;
  uf_netPkt : nat
}.

(** An iterator into [m_unackedFrags] is the TxSequence of its element. *)
Record NetPkt := mkNetPkt {
  np_unackedFrags : list Z;
  np_pkt : LpPacket;
  np_isInterest : bool;
  np_didRetx : bool
}.

(** [m_firstUnackedFrag] is [None] when it is [end()]. *)
Record LpReliability := mkLpReliability {
  m_unackedFrags : gmap Z UnackedFrag;
  m_firstUnackedFrag : option Z;
  m_ackQueue : list Z;
  m_lastTxSeqNo : Z;
  m_idleAckTimer : option Z;
  m_isIdleAckTimerRunning : bool;
  m_rto : RttEstimator;
  r_netPkts : list NetPkt
}.

(** [m_nextMarkTime] is [None] at [TimePoint::max()], [m_lastMarkTime] at
    [TimePoint::min()]. *)
Record Marking := mkMarking {
  m_nextMarkTime : option Z;
  m_lastMarkTime : option Z;
  m_nMarkedSinceInMarkingState : Z
}.

(** What leaves the link service: packets to the transport's [doSend], and the
    signals. *)
Inductive LinkEvent :=
  | DoSend (pkt : LpPacket)
  | AfterReceiveInterest (i : NetInterest) (tags : Tags)
  | AfterReceiveData (d : NetData) (tags : Tags)
  | AfterReceiveNack (i : NetInterest) (reason : NH) (tags : Tags)
  | AfterSendInterest (i : NetInterest)
  | AfterSendData (d : NetData)
  | AfterSendNack (i : NetInterest) (reason : NH)
  | OnDroppedInterest (i : NetInterest).

Record LinkService := mkLinkService {
  m_options : Options;
  m_reliability : LpReliability;
  m_reassembler : gmap (Z * Z) (@PartialPacket LpHeaders);
  m_lastSeqNo : Z;
  m_marking : Marking;
  l_counters : Counter -> Z;
  l_transport : Transport;
  l_trace : list LinkEvent
}.
Implicit Types (st : LinkService) (r : LpReliability).

(** The constructor, on a transport. *)
Definition newLinkService (options : Options) (t : Transport) : LinkService :=
  mkLinkService options (mkLpReliability ∅ None [] (u64 (-1)) None false defaultRttEstimator []) ∅ (u64 (-2))
    (mkMarking None None 0) (fun _ => 0) t [].

Definition set_reliability r st : LinkService :=
  mkLinkService (m_options st) r (m_reassembler st) (m_lastSeqNo st) (m_marking st) (l_counters st) (l_transport st) (l_trace st).
Definition set_reassembler R st : LinkService :=
  mkLinkService (m_options st) (m_reliability st) R (m_lastSeqNo st) (m_marking st) (l_counters st) (l_transport st) (l_trace st).
Definition set_lastSeqNo s st : LinkService :=
  mkLinkService (m_options st) (m_reliability st) (m_reassembler st) s (m_marking st) (l_counters st) (l_transport st) (l_trace st).
Definition set_marking m st : LinkService :=
  mkLinkService (m_options st) (m_reliability st) (m_reassembler st) (m_lastSeqNo st) m (l_counters st) (l_transport st) (l_trace st).
Definition set_transport t st : LinkService :=
  mkLinkService (m_options st) (m_reliability st) (m_reassembler st) (m_lastSeqNo st) (m_marking st) (l_counters st) t (l_trace st).
Definition emit (e : LinkEvent) st : LinkService :=
  mkLinkService (m_options st) (m_reliability st) (m_reassembler st) (m_lastSeqNo st) (m_marking st) (l_counters st) (l_transport st)
    (l_trace st ++ [e]).
(** [++counter]. *)
Definition bump (c : Counter) st : LinkService :=
  mkLinkService (m_options st) (m_reliability st) (m_reassembler st) (m_lastSeqNo st) (m_marking st)
    (fun c' => if decide (c' = c) then u64 (l_counters st c + 1) else l_counters st c') (l_transport st) (l_trace st).
Definition set_options o st : LinkService :=
  mkLinkService o (m_reliability st) (m_reassembler st) (m_lastSeqNo st) (m_marking st) (l_counters st) (l_transport st) (l_trace st).

Definition set_unackedFrags m r : LpReliability :=
  mkLpReliability m (m_firstUnackedFrag r) (m_ackQueue r) (m_lastTxSeqNo r) (m_idleAckTimer r) (m_isIdleAckTimerRunning r) (m_rto r) (r_netPkts r).
Definition set_firstUnackedFrag f r : LpReliability :=
  mkLpReliability (m_unackedFrags r) f (m_ackQueue r) (m_lastTxSeqNo r) (m_idleAckTimer r) (m_isIdleAckTimerRunning r) (m_rto r) (r_netPkts r).
Definition set_ackQueue q r : LpReliability :=
  mkLpReliability (m_unackedFrags r) (m_firstUnackedFrag r) q (m_lastTxSeqNo r) (m_idleAckTimer r) (m_isIdleAckTimerRunning r) (m_rto r) (r_netPkts r).
Definition set_lastTxSeqNo s r : LpReliability :=
  mkLpReliability (m_unackedFrags r) (m_firstUnackedFrag r) (m_ackQueue r) s (m_idleAckTimer r) (m_isIdleAckTimerRunning r) (m_rto r) (r_netPkts r).
Definition set_idleAckTimer t b r : LpReliability :=
  mkLpReliability (m_unackedFrags r) (m_firstUnackedFrag r) (m_ackQueue r) (m_lastTxSeqNo r) t b (m_rto r) (r_netPkts r).
Definition set_rto e r : LpReliability :=
  mkLpReliability (m_unackedFrags r) (m_firstUnackedFrag r) (m_ackQueue r) (m_lastTxSeqNo r) (m_idleAckTimer r) (m_isIdleAckTimerRunning r) e (r_netPkts r).
Definition set_netPkts l r : LpReliability :=
  mkLpReliability (m_unackedFrags r) (m_firstUnackedFrag r) (m_ackQueue r) (m_lastTxSeqNo r) (m_idleAckTimer r) (m_isIdleAckTimerRunning r) (m_rto r) l.

Definition on_rel (f : LpReliability -> LpReliability) st : LinkService := set_reliability (f (m_reliability st)) st.

(** ** Reliability: the window *)

(** [m_firstUnackedFrag->first]. *)
Definition firstTxSeq r : option Z :=
  first ← m_firstUnackedFrag r;
  match m_unackedFrags r !! first with Some _ => Some first | None => None end.

(** The TxSequence, the packet that has it, and the state; [None] is the exception
    [std::length_error]. *)
Definition assignTxSequence p r : option (Z * LpPacket * LpReliability) :=
  let txSeq := u64 (m_lastTxSeqNo r + 1) in
  let frag := set_txSequence txSeq p in
  let r := set_lastTxSeqNo txSeq r in
  if (0 <? size (m_unackedFrags r))%nat then
    first ← firstTxSeq r;
    if txSeq =? first then None else Some (txSeq, frag, r)
  else Some (txSeq, frag, r).

Definition deleteUnackedFrag (fragIt : Z) r : option LpReliability :=
  firstUnackedTxSeq ← firstTxSeq r;
  _ ← m_unackedFrags r !! fragIt;
  let m := delete fragIt (m_unackedFrags r) in
  let nextFragIt := map_next m fragIt in
  let r := set_unackedFrags m r in
  if decide (m <> ∅ /\ firstUnackedTxSeq = fragIt) then
    Some (set_firstUnackedFrag (match nextFragIt with None => map_begin m | Some n => Some n end) r)
  else if decide (m = ∅) then Some (set_firstUnackedFrag None r)
  else Some r.

Definition schedule now r : option Z := Some (now + 1000 * computeRto (m_rto r)).

Definition set_timer (t : option Z) (f : UnackedFrag) : UnackedFrag :=
  mkUnackedFrag (uf_pkt f) t (uf_sendTime f) (uf_retxCount f) (uf_nGreaterSeqAcks f) (uf_netPkt f).
Definition set_pkt p (f : UnackedFrag) : UnackedFrag :=
  mkUnackedFrag p (uf_rtoTimer f) (uf_sendTime f) (uf_retxCount f) (uf_nGreaterSeqAcks f) (uf_netPkt f).
Definition incr_greater (f : UnackedFrag) : UnackedFrag :=
  mkUnackedFrag (uf_pkt f) (uf_rtoTimer f) (uf_sendTime f) (uf_retxCount f) (u64 (uf_nGreaterSeqAcks f + 1)) (uf_netPkt f).
Definition set_npFrags (l : list Z) (n : NetPkt) : NetPkt := mkNetPkt l (np_pkt n) (np_isInterest n) (np_didRetx n).
Definition set_didRetx (n : NetPkt) : NetPkt := mkNetPkt (np_unackedFrags n) (np_pkt n) (np_isInterest n) true.

(** One turn of the loop of [handleOutgoing]: the constructor of UnackedFrag, and
    the assignments to the element found. *)
Definition storeFrag now (np : nat) p r : option (LpPacket * LpReliability) :=
  '(txSeq, frag, r) ← assignTxSequence p r;
  let m := emplace txSeq (mkUnackedFrag frag None now 0 0 np) (m_unackedFrags r) in
  let m := alter (fun f => mkUnackedFrag (uf_pkt f) (schedule now r) now (uf_retxCount f) (uf_nGreaterSeqAcks f) np) txSeq m in
  let r := set_unackedFrags m r in
  let r := if (size m =? 1)%nat then set_firstUnackedFrag (map_begin m) r else r in
  netPkt ← r_netPkts r !! np;
  Some (frag, set_netPkts (<[np := set_npFrags (np_unackedFrags netPkt ++ [txSeq]) netPkt]> (r_netPkts r)) r).

Fixpoint storeFrags now (np : nat) (frags : list LpPacket) r : option (list LpPacket * LpReliability) :=
  match frags with
  | [] => Some ([], r)
  | p :: frags =>
      '(p, r) ← storeFrag now np p r;
      '(frags, r) ← storeFrags now np frags r;
      Some (p :: frags, r)
  end.

Definition handleOutgoing now (frags : list LpPacket) pkt (isInterest : bool) r : option (list LpPacket * LpReliability) :=
  let np := length (r_netPkts r) in
  storeFrags now np frags (set_netPkts (r_netPkts r ++ [mkNetPkt [] pkt isInterest false]) r).

(** ** Sending an LpPacket *)

Definition TLV_Ack : Z := 836.
Definition ackSize : Z := sizeOfVarNumber TLV_Ack + sizeOfVarNumber 8 + 8.

Fixpoint attachAcks (remainingSpace : Z) (queue : list Z) p : LpPacket * list Z :=
  match queue with
  | [] => (p, [])
  | ackSeq :: rest =>
      if remainingSpace <? ackSize then (p, queue) else attachAcks (remainingSpace - ackSize) rest (add_ack ackSeq p)
  end.

Definition piggyback p (mtu : Z) r : option (LpPacket * LpReliability) :=
  if bare p then None
  else
    let pktSize := wireSize p in
    let reservedSpace := sizeOfVarNumber MAX_NDN_PACKET_SIZE - sizeOfVarNumber pktSize in
    let remainingSpace := (if mtu =? MTU_UNLIMITED then MAX_NDN_PACKET_SIZE else mtu) - reservedSpace in
    let '(p, q) := attachAcks (remainingSpace - pktSize) (m_ackQueue r) p in
    Some (p, set_ackQueue q r).

(** The transport's [getSendQueueLength]: a function of the time and of what has
    been sent so far. *)
Context (getSendQueueLength : Z -> list LinkEvent -> Z).

Definition DEFAULT_CONGESTION_THRESHOLD_DIVISOR : Z := 2.
Definition CONGESTION_MARK_SIZE : Z := 3 + 1 + 8.
Definition RESERVED_HEADER_SPACE : Z := 3 + 1 + 8.

(** [baseCongestionMarkingInterval.count() / std::sqrt(n)], truncated. *)
Definition markInterval (base n : Z) : Z := double_to_int (double_div (double_of_int base) (double_sqrt (double_of_int n))).

Definition ge_time now (t : option Z) : bool := match t with Some t => t <=? now | None => false end.

Definition checkCongestionLevel now p st : LpPacket * LinkService :=
  let sendQueueLength := getSendQueueLength now (l_trace st) in
  if sendQueueLength <? 0 then (p, st)
  else
    let o := m_options st in
    let capacity := t_sendQueueCapacity (l_transport st) in
    let congestionThreshold :=
      if 0 <=? capacity then Z.min (defaultCongestionThreshold o) (capacity / DEFAULT_CONGESTION_THRESHOLD_DIVISOR)
      else defaultCongestionThreshold o in
    let m := m_marking st in
    if congestionThreshold <? sendQueueLength then
      if ge_time now (m_nextMarkTime m) ||
         match m_lastMarkTime m with Some t => t + baseCongestionMarkingInterval o <=? now | None => true end then
        let next := if m_nMarkedSinceInMarkingState m =? 0 then now else default 0 (m_nextMarkTime m) in
        let n := u64 (m_nMarkedSinceInMarkingState m + 1) in
        (set_congestionMark 1 p,
         set_marking (mkMarking (Some (next + markInterval (baseCongestionMarkingInterval o) n)) (Some now) n)
           (bump nCongestionMarked st))
      else (p, st)
    else
      match m_nextMarkTime m with
      | Some _ => (p, set_marking (mkMarking None (m_lastMarkTime m) 0) st)
      | None => (p, st)
      end.

(** [LinkService::sendPacket], to [Transport::send]. *)
Definition sendPacket p st : option LinkService :=
  '(sent, t) ← Face.send (wireSize p) (l_transport st);
  let st := set_transport t st in
  Some (if sent : bool then emit (DoSend p) st else st).

Definition sendLpPacket now p st : option LinkService :=
  let mtu := t_mtu (l_transport st) in
  '(p, st) ← (if isEnabled (m_options st)
              then '(p, r) ← piggyback p mtu (m_reliability st); Some (p, set_reliability r st)
              else Some (p, st));
  let '(p, st) := if allowCongestionMarking (m_options st) then checkCongestionLevel now p st else (p, st) in
  if negb (mtu =? MTU_UNLIMITED) && (mtu <? wireSize p) then Some (bump nOutOverMtu st)
  else sendPacket p st.

Fixpoint sendLpPackets now (frags : list LpPacket) st : option LinkService :=
  match frags with [] => Some st | p :: frags => st ← sendLpPacket now p st; sendLpPackets now frags st end.

Definition requestIdlePacket now st : option LinkService := sendLpPacket now emptyPacket st.

(** ** Reliability: acknowledgements and losses *)

(** The loop of [findLostLpPackets]; [it] is the iterator. *)
Fixpoint findLost (fuel : nat) (threshold ackSeq : Z) (it : option Z) (m : gmap Z UnackedFrag) (lost : list Z)
    : option (list Z * gmap Z UnackedFrag) :=
  match fuel with
  | O => None
  | S fuel =>
      k ← match it with None => map_begin m | Some k => Some k end;
      f ← m !! k;
      if k =? ackSeq then Some (lost, m)
      else
        let f := incr_greater f in
        let m := <[k := f]> m in
        let lost := if threshold <=? uf_nGreaterSeqAcks f then lost ++ [k] else lost in
        findLost fuel threshold ackSeq (map_next m k) m lost
  end.

(** Each turn visits another element, so the number of elements is enough. *)
Definition findLostLpPackets (threshold ackSeq : Z) r : option (list Z * LpReliability) :=
  '(lost, m) ← findLost (size (m_unackedFrags r)) threshold ackSeq (m_firstUnackedFrag r) (m_unackedFrags r) [];
  Some (lost, set_unackedFrags m r).

(** Deleting the other fragments of the network packet. *)
Fixpoint deleteOthers (txSeq : Z) (frags : list Z) r : option (list Z * LpReliability) :=
  match frags with
  | [] => Some ([], r)
  | k :: frags =>
      if k =? txSeq then deleteOthers txSeq frags r
      else
        r ← deleteUnackedFrag k r;
        '(removed, r) ← deleteOthers txSeq frags r;
        Some (k :: removed, r)
  end.

Definition lift_rel (o : option LpReliability) st : option LinkService := r ← o; Some (set_reliability r st).

(** The removed TxSequences. *)
Definition onLpPacketLost now (txSeq : Z) st : option (list Z * LinkService) :=
  let r := m_reliability st in
  txFrag ← m_unackedFrags r !! txSeq;
  let r := set_unackedFrags (<[txSeq := set_timer None txFrag]> (m_unackedFrags r)) r in
  netPkt ← r_netPkts r !! uf_netPkt txFrag;
  if maxRetx (m_options st) <=? uf_retxCount txFrag then
    '(removed, r) ← deleteOthers txSeq (np_unackedFrags netPkt) r;
    let st := bump nRetxExhausted (set_reliability r st) in
    st ← (if np_isInterest netPkt then
            frag ← lp_fragment (np_pkt netPkt);
            b ← parseBlock frag;
            interest ← interestOfBlock b;
            Some (emit (OnDroppedInterest interest) (bump nDroppedInterests st))
          else Some st);
    st ← lift_rel (deleteUnackedFrag txSeq (m_reliability st)) st;
    Some (removed ++ [txSeq], st)
  else
    '(newTxSeq, pkt, r) ← assignTxSequence (uf_pkt txFrag) r;
    let r := set_unackedFrags (alter (set_pkt pkt) txSeq (m_unackedFrags r)) r in
    let r := set_netPkts (alter set_didRetx (uf_netPkt txFrag) (r_netPkts r)) r in
    let m := emplace newTxSeq (mkUnackedFrag pkt None now 0 0 0) (m_unackedFrags r) in
    let m := alter (fun f => mkUnackedFrag (uf_pkt f) (uf_rtoTimer f) (uf_sendTime f) (uf_retxCount txFrag + 1)
                               (uf_nGreaterSeqAcks f) (uf_netPkt txFrag)) newTxSeq m in
    let r := set_unackedFrags m r in
    if bool_decide (txSeq ∈ np_unackedFrags netPkt) then
      let frags := update_first (fun k => k =? txSeq) (fun _ => newTxSeq) (np_unackedFrags netPkt) in
      let r := set_netPkts (alter (set_npFrags frags) (uf_netPkt txFrag) (r_netPkts r)) r in
      r ← deleteUnackedFrag txSeq r;
      newTxFrag ← m_unackedFrags r !! newTxSeq;
      st ← sendLpPacket now (uf_pkt newTxFrag) (set_reliability r st);
      let r := m_reliability st in
      Some ([txSeq], set_reliability (set_unackedFrags (alter (set_timer (schedule now r)) newTxSeq (m_unackedFrags r)) r) st)
    else None.

Definition onLpPacketAcknowledged (fragIt : Z) st : option LinkService :=
  let r := m_reliability st in
  frag ← m_unackedFrags r !! fragIt;
  netPkt ← r_netPkts r !! uf_netPkt frag;
  if bool_decide (fragIt ∈ np_unackedFrags netPkt) then
    let frags := swap_remove (fun k => k =? fragIt) (np_unackedFrags netPkt) in
    let st := on_rel (set_netPkts (alter (set_npFrags frags) (uf_netPkt frag) (r_netPkts r))) st in
    let st := match frags with
              | [] => bump (if np_didRetx netPkt then nRetransmitted else nAcknowledged) st
              | _ => st
              end in
    lift_rel (deleteUnackedFrag fragIt (m_reliability st)) st
  else None.

(** The lost fragments that have not been removed in the meantime. *)
Fixpoint loseAll now (lost : list Z) (removed : list Z) st : option LinkService :=
  match lost with
  | [] => Some st
  | txSeq :: lost =>
      if bool_decide (txSeq ∈ removed) then loseAll now lost removed st
      else '(removedThis, st) ← onLpPacketLost now txSeq st; loseAll now lost (removed ++ removedThis) st
  end.

Definition processAck now (ackSeq : Z) st : option LinkService :=
  let r := m_reliability st in
  match m_unackedFrags r !! ackSeq with
  | None => Some st
  | Some frag =>
      let r := set_unackedFrags (<[ackSeq := set_timer None frag]> (m_unackedFrags r)) r in
      let r := if uf_retxCount frag =? 0
               then set_rto (addMeasurement (Z.quot (now - uf_sendTime frag) 1000) (m_rto r)) r else r in
      '(lost, r) ← findLostLpPackets (seqNumLossThreshold (m_options st)) ackSeq r;
      st ← onLpPacketAcknowledged ackSeq (set_reliability r st);
      loseAll now lost [] st
  end.

Fixpoint processAcks now (acks : list Z) st : option LinkService :=
  match acks with [] => Some st | a :: acks => st ← processAck now a st; processAcks now acks st end.

Definition startIdleAckTimer now (period : Z) r : option LpReliability :=
  if m_isIdleAckTimerRunning r then None else Some (set_idleAckTimer (Some (now + period)) true r).

Definition stopIdleAckTimer r : LpReliability := set_idleAckTimer None false r.

(** [false] with the state is a [tlv::Error], which [doReceivePacket] catches. *)
Definition processIncomingPacket now p st : option (bool * LinkService) :=
  match lh_ack (lp_headers p) with
  | None => Some (false, st)
  | Some acks =>
      st ← processAcks now acks st;
      match lp_fragment p, lh_txSequence (lp_headers p) with
      | None, _ | _, Absent => Some (true, st)
      | Some _, Malformed => Some (false, st)
      | Some _, Value txSeq =>
          let r := m_reliability st in
          let r := set_ackQueue (m_ackQueue r ++ [txSeq]) r in
          r ← (if m_isIdleAckTimerRunning r then Some r else startIdleAckTimer now (idleAckTimerPeriod (m_options st)) r);
          Some (true, set_reliability r st)
      end
  end.

(** The idle timer fires: idle packets until the queue is empty. Every packet that
    fits an Ack takes one, so the length of the queue is enough. *)
Fixpoint idlePackets now (fuel : nat) st : option LinkService :=
  match m_ackQueue (m_reliability st), fuel with
  | [], _ => Some st
  | _, O => None
  | _, S fuel => st ← requestIdlePacket now st; idlePackets now fuel st
  end.

Definition onIdleAckTimer now st : option LinkService :=
  st ← idlePackets now (length (m_ackQueue (m_reliability st))) st;
  Some (on_rel (fun r => set_idleAckTimer (m_idleAckTimer r) false r) st).

Definition setOptions (options : Options) st : option LinkService :=
  if 0 <? idleAckTimerPeriod options then
    let st' := set_options options st in
    Some (if isEnabled (m_options st) && negb (isEnabled options) then on_rel stopIdleAckTimer st' else st')
  else None.

(** The fields of the parameters of a [faces/update] command that concern the link service. *)
Record LinkParameters := mkLinkParameters {
  BIT_LOCAL_FIELDS_ENABLED : option bool;
  BIT_LP_RELIABILITY_ENABLED : option bool;
  BIT_CONGESTION_MARKING_ENABLED : option bool;
  pa_baseCongestionMarkingInterval : option Z;
  pa_defaultCongestionThreshold : option Z
}.

(** The options that a command leads to; [isLocal] is the scope of the face. *)
Definition updatedOptions (isLocal : bool) (parameters : LinkParameters) (options : Options) : Options :=
  mkOptions
    (if isLocal then default (allowLocalFields options) (BIT_LOCAL_FIELDS_ENABLED parameters) else allowLocalFields options)
    (allowFragmentation options) (fragmenter_nMaxFragments options) (allowReassembly options)
    (reassembler_nMaxFragments options) (reassemblyTimeout options)
    (default (isEnabled options) (BIT_LP_RELIABILITY_ENABLED parameters))
    (maxRetx options) (idleAckTimerPeriod options) (seqNumLossThreshold options)
    (default (allowCongestionMarking options) (BIT_CONGESTION_MARKING_ENABLED parameters))
    (default (baseCongestionMarkingInterval options) (pa_baseCongestionMarkingInterval parameters))
    (default (defaultCongestionThreshold options) (pa_defaultCongestionThreshold parameters))
    (allowSelfLearning options).

Definition updateLinkServiceOptions (isLocal : bool) (parameters : LinkParameters) st : option LinkService :=
  setOptions (updatedOptions isLocal parameters (m_options st)) st.

(** ** The send path *)

(** [lp::Packet(wire)]: the network packet as the Fragment. *)
Definition netPacket (wire : list Z) : LpPacket := set_fragment wire emptyPacket.

Definition encodeLpFields (o : Options) (tags : Tags) : LpPacket -> LpPacket := on_headers (fun h =>
  mkLpHeaders NH PA (lh_txSequence h) (lh_ack h) (lh_nack h) (lh_nextHopFaceId h) (lh_cachePolicy h)
    (if allowLocalFields o then opt_field (tag_incomingFaceId tags) else lh_incomingFaceId h)
    (opt_field (tag_congestionMark tags))
    (if allowSelfLearning o then opt_field (tag_nonDiscovery tags) else lh_nonDiscovery h)
    (if allowSelfLearning o then opt_field (tag_prefixAnnouncement tags) else lh_prefixAnnouncement h)
    (Value (default 0 (tag_hopCount tags)))).

Definition set_nack (reason : NH) : LpPacket -> LpPacket := on_headers (fun h =>
  mkLpHeaders NH PA (lh_txSequence h) (lh_ack h) (Value reason) (lh_nextHopFaceId h) (lh_cachePolicy h) (lh_incomingFaceId h)
    (lh_congestionMark h) (lh_nonDiscovery h) (lh_prefixAnnouncement h) (lh_hopCount h)).

Definition is_fragment p : bool :=
  match lp_fragIndex p, lp_fragCount p with None, None => false | _, _ => true end.

Definition sendNetPacket now pkt (isInterest : bool) st : option LinkService :=
  let o := m_options st in
  let mtu := t_mtu (l_transport st) in
  let mtu := if isEnabled o && negb (mtu =? MTU_UNLIMITED) then mtu - RESERVED_HEADER_SPACE else mtu in
  let mtu := if allowCongestionMarking o && negb (mtu =? MTU_UNLIMITED) then mtu - CONGESTION_MARK_SIZE else mtu in
  if negb ((mtu =? MTU_UNLIMITED) || (0 <? mtu)) then None
  else
    frags ← (if allowFragmentation o && negb (mtu =? MTU_UNLIMITED)
             then fragmentPacket (fragmenter_nMaxFragments o) pkt mtu else Some (Some [pkt]));
    match frags with
    | None => Some (bump nFragmentationErrors st)
    | Some frags =>
        front ← head frags;
        if (length frags =? 1)%nat && is_fragment front then None
        else
          let '(frags, st) := if (1 <? length frags)%nat
                              then let '(frags, s) := assignSequences (m_lastSeqNo st) frags in (frags, set_lastSeqNo s st)
                              else (frags, st) in
          '(frags, st) ← (if isEnabled o && match lp_fragment front with Some _ => true | None => false end
                          then '(frags, r) ← handleOutgoing now frags pkt isInterest (m_reliability st);
                               Some (frags, set_reliability r st)
                          else Some (frags, st));
          sendLpPackets now frags st
    end.

Definition doSendInterest now (i : NetInterest) (tags : Tags) st : option LinkService :=
  sendNetPacket now (encodeLpFields (m_options st) tags (netPacket (wireInterest i))) true st.

Definition doSendData now (d : NetData) (tags : Tags) st : option LinkService :=
  sendNetPacket now (encodeLpFields (m_options st) tags (netPacket (wireData d))) false st.

Definition doSendNack now (i : NetInterest) (reason : NH) (tags : Tags) st : option LinkService :=
  sendNetPacket now (encodeLpFields (m_options st) tags (set_nack reason (netPacket (wireInterest i)))) false st.

Definition sendInterest now (i : NetInterest) (tags : Tags) st : option LinkService :=
  st ← doSendInterest now i tags (bump nOutInterests st); Some (emit (AfterSendInterest i) st).

Definition sendData now (d : NetData) (tags : Tags) st : option LinkService :=
  st ← doSendData now d tags (bump nOutData st); Some (emit (AfterSendData d) st).

Definition sendNack now (i : NetInterest) (reason : NH) (tags : Tags) st : option LinkService :=
  st ← doSendNack now i reason tags (bump nOutNacks st); Some (emit (AfterSendNack i reason) st).

(** ** The receive path *)

Definition receiveInterest (i : NetInterest) (tags : Tags) st : LinkService :=
  emit (AfterReceiveInterest i tags) (bump nInInterests st).
Definition receiveData (d : NetData) (tags : Tags) st : LinkService :=
  emit (AfterReceiveData d tags) (bump nInData st).
Definition receiveNack (i : NetInterest) (reason : NH) (tags : Tags) st : LinkService :=
  emit (AfterReceiveNack i reason tags) (bump nInNacks st).

(** [get] of a field that is present; [None] is the [tlv::Error]. *)
Definition get_if {A} (f : Field A) : option (option A) :=
  match f with Absent => Some None | Malformed => None | Value a => Some (Some a) end.

(** The state, unless a [tlv::Error] is thrown; nothing changes before that. *)
Definition decodeInterest (netPkt : Block) (firstPkt : LpPacket) st : option LinkService :=
  let h := lp_headers firstPkt in
  let o := m_options st in
  interest ← interestOfBlock netPkt;
  hopCount ← get_if (lh_hopCount h);
  if has (lh_nextHopFaceId h) && negb (allowLocalFields o) then Some st
  else
    nextHopFaceId ← get_if (lh_nextHopFaceId h);
    if has (lh_cachePolicy h) then Some (bump nInNetInvalid st)
    else
      congestionMark ← get_if (lh_congestionMark h);
      nonDiscovery ← (if allowSelfLearning o then get_if (lh_nonDiscovery h) else Some None);
      if has (lh_prefixAnnouncement h) then Some (bump nInNetInvalid st)
      else Some (receiveInterest interest
                   (mkTags None nextHopFaceId None congestionMark nonDiscovery None ((fun c => u64 (c + 1)) <$> hopCount)) st).

Definition decodeData (netPkt : Block) (firstPkt : LpPacket) st : option LinkService :=
  let h := lp_headers firstPkt in
  let o := m_options st in
  data ← dataOfBlock netPkt;
  hopCount ← get_if (lh_hopCount h);
  if has (lh_nack h) then Some (bump nInNetInvalid st)
  else if has (lh_nextHopFaceId h) then Some (bump nInNetInvalid st)
  else
    cachePolicy ← get_if (lh_cachePolicy h);
    congestionMark ← get_if (lh_congestionMark h);
    if has (lh_nonDiscovery h) then Some (bump nInNetInvalid st)
    else
      prefixAnnouncement ← (if allowSelfLearning o then get_if (lh_prefixAnnouncement h) else Some None);
      Some (receiveData data
              (mkTags None None cachePolicy congestionMark None prefixAnnouncement ((fun c => u64 (c + 1)) <$> hopCount)) st).

Definition decodeNack (netPkt : Block) (firstPkt : LpPacket) st : option LinkService :=
  let h := lp_headers firstPkt in
  interest ← interestOfBlock netPkt;
  nack ← get_if (lh_nack h);
  reason ← nack;
  if has (lh_nextHopFaceId h) then Some (bump nInNetInvalid st)
  else if has (lh_cachePolicy h) then Some (bump nInNetInvalid st)
  else
    congestionMark ← get_if (lh_congestionMark h);
    if has (lh_nonDiscovery h) then Some (bump nInNetInvalid st)
    else if has (lh_prefixAnnouncement h) then Some (bump nInNetInvalid st)
    else Some (receiveNack interest reason (mkTags None None None congestionMark None None None) st).

Definition TLV_Interest : Z := 5.
Definition TLV_Data : Z := 6.

Definition decodeNetPacket (netPkt : Block) (firstPkt : LpPacket) st : LinkService :=
  let caught := default (bump nInNetInvalid st) in
  if blockType netPkt =? TLV_Interest then
    if has (lh_nack (lp_headers firstPkt)) then caught (decodeNack netPkt firstPkt st)
    else caught (decodeInterest netPkt firstPkt st)
  else if blockType netPkt =? TLV_Data then caught (decodeData netPkt firstPkt st)
  else bump nInNetInvalid st.

(** [decoded] is [lp::Packet(packet)], or [None] when that throws. *)
Definition doReceivePacket now (remoteEndpoint : Z) (decoded : option LpPacket) st : option LinkService :=
  match decoded with
  | None => Some (bump nInLpInvalid st)
  | Some pkt =>
      '(isOk, st) ← (if isEnabled (m_options st) then processIncomingPacket now pkt st else Some (true, st));
      if negb isOk then Some (bump nInLpInvalid st)
      else
        match lp_fragment pkt with
        | None => Some st
        | Some _ =>
            let o := m_options st in
            if is_fragment pkt && negb (allowReassembly o) then Some st
            else
              '(received, R) ← receiveFragment parseBlock (reassembler_nMaxFragments o) (reassemblyTimeout o) now remoteEndpoint
                                 pkt (m_reassembler st);
              let st := set_reassembler R st in
              match received with
              | Dropped => Some st
              | MalformedBlock => Some (bump nInLpInvalid st)
              | Reassembled netPkt firstPkt => Some (decodeNetPacket netPkt firstPkt st)
              end
        end
  end.

(** [Transport::receive] with a packet of [size] octets. *)
Definition receivePacket now (remoteEndpoint : Z) (size : Z) (decoded : option LpPacket) st : option LinkService :=
  t ← Face.receive size (l_transport st);
  doReceivePacket now remoteEndpoint decoded (set_transport t st).

(** A reassembly timer fires; [beforeTimeout] counts it. *)
Definition onReassemblyTimeout (key : Z * Z) st : LinkService :=
  let '(sig, R) := timeoutPartialPacket key (m_reassembler st) in
  let st := set_reassembler R st in
  match sig with Some _ => bump nReassemblyTimeouts st | None => st end.
End Link.
