(* ===== verification/LpReliability.v ===== *)
(** * Correctness of link-layer reliability

    The send window of [lp-reliability.cpp] is a run of TxSequence numbers modulo
    2^64, kept in a map ordered by the plain numbers. This file proves that the
    iterator to its first element and the lists of iterators in the NetPkt objects
    stay valid, so that no assertion fails and nothing dangling is dereferenced;
    that losses are detected by the order of the window; and that every network
    packet is accounted for. *)

From S2P Require Import Prelude Fp RttEstimator Face LpFragmentation LinkService.
Local Open Scope Z_scope.

(** ** Ordered maps *)

Lemma least_spec l : match least l with
  | Some k => k ∈ l /\ forall j, j ∈ l -> k <= j
  | None => l = []
  end.
Proof.
  induction l as [|x l IH]; simpl; [done|]. destruct (least l) as [k|].
  - destruct IH as [Hk Hmin]. split.
    + destruct (Z.min_spec x k) as [[_ ->]|[_ ->]]; [left|by right].
    + intros j [->|Hj]%elem_of_cons; [lia|]. specialize (Hmin j Hj). lia.
  - subst. split; [left|]. intros j [->|Hj]%elem_of_cons; [lia|]. by apply not_elem_of_nil in Hj.
Qed.

Section Ordered.
Context {A : Type}.
Implicit Types (m : gmap Z A).

Lemma elem_of_map_keys m k : k ∈ keys m <-> is_Some (m !! k).
Proof.
  unfold keys. rewrite list_elem_of_fmap. split.
  - intros ([k' x] & -> & Hx%elem_of_map_to_list). by eexists.
  - intros [x Hx]. exists (k, x). split; [done|]. by apply elem_of_map_to_list.
Qed.

Lemma map_begin_spec m : match map_begin m with
  | Some k => is_Some (m !! k) /\ forall j, is_Some (m !! j) -> k <= j
  | None => m = ∅
  end.
Proof.
  unfold map_begin. pose proof (least_spec (keys m)) as Hs. destruct (least (keys m)) as [k|].
  - destruct Hs as [Hk Hmin]. split; [by apply elem_of_map_keys|]. intros j Hj. apply Hmin. by apply elem_of_map_keys.
  - apply map_empty. intros i. destruct (m !! i) eqn:E; [|done]. exfalso. apply (not_elem_of_nil i). rewrite <-Hs.
    apply elem_of_map_keys. by eexists.
Qed.

Lemma map_next_spec m k : match map_next m k with
  | Some n => is_Some (m !! n) /\ k < n /\ forall j, is_Some (m !! j) -> k < j -> n <= j
  | None => forall j, is_Some (m !! j) -> j <= k
  end.
Proof.
  unfold map_next. pose proof (least_spec (filter (fun j => k < j) (keys m))) as Hs.
  destruct (least _) as [n|].
  - destruct Hs as [[Hn Hk]%list_elem_of_filter Hmin]. split_and!; [by apply elem_of_map_keys|done|].
    intros j Hj Hkj. apply Hmin. apply list_elem_of_filter. split; [done|]. by apply elem_of_map_keys.
  - intros j Hj. apply Z.nlt_ge. intros Hkj. apply (not_elem_of_nil j). rewrite <-Hs. apply list_elem_of_filter.
    split; [done|]. by apply elem_of_map_keys.
Qed.
End Ordered.

(** ** Sequence numbers modulo 2^64 *)

(** How far [i] is after [f]. *)
Definition dist (f i : Z) : Z := u64 (i - f).

Definition in64 (i : Z) : Prop := 0 <= i < 2 ^ 64.

Lemma dist_range f i : in64 (dist f i).
Proof. apply u64_range. Qed.

Lemma dist_cases f i : in64 f -> in64 i -> dist f i = if i <? f then i - f + 2 ^ 64 else i - f.
Proof.
  unfold in64, dist, u64. intros Hf Hi. destruct (Z.ltb_spec i f); [|by rewrite Z.mod_small by lia].
  rewrite <-(Z.mod_small (i - f + 2 ^ 64) (2 ^ 64)) by lia. rewrite <-(Z_mod_plus_full (i - f) 1). f_equal; lia.
Qed.

Lemma succ_cases i : in64 i -> u64 (i + 1) = if i + 1 =? 2 ^ 64 then 0 else i + 1.
Proof.
  unfold in64, u64. intros Hi. destruct (Z.eqb_spec (i + 1) (2 ^ 64)) as [->|]; [by rewrite Z.mod_same|by rewrite Z.mod_small by lia].
Qed.

(** Case analysis on the order of sequence numbers. *)
Ltac dist_lia :=
  rewrite ?dist_cases in * by done; rewrite ?succ_cases in * by done; unfold in64 in *;
  repeat match goal with
  | |- context [?a <? ?b] => destruct (Z.ltb_spec a b)
  | H : context [?a <? ?b] |- _ => destruct (Z.ltb_spec a b)
  | |- context [?a =? ?b] => destruct (Z.eqb_spec a b)
  | H : context [?a =? ?b] |- _ => destruct (Z.eqb_spec a b)
  end; lia.

(** The next element, from the end to the beginning. *)
Definition cyclic_next {A} (m : gmap Z A) (k : Z) : option Z :=
  match map_next m k with None => map_begin m | Some n => Some n end.

Lemma cyclic_next_spec {A} (m : gmap Z A) k j : in64 k -> (forall i, is_Some (m !! i) -> in64 i) -> is_Some (m !! j) -> j <> k ->
  exists n, cyclic_next m k = Some n /\ is_Some (m !! n) /\ 0 < dist k n /\
    forall i, is_Some (m !! i) -> i <> k -> dist k n <= dist k i.
Proof.
  intros Hk Hall Hj Hne. unfold cyclic_next. pose proof (map_next_spec m k) as Hn. destruct (map_next m k) as [n|].
  - destruct Hn as (Hin & Hlt & Hmin). pose proof (Hall n Hin). exists n. split_and!; [done|done|dist_lia|].
    intros i Hi Hik. pose proof (Hall i Hi). pose proof (Hmin i Hi). dist_lia.
  - pose proof (map_begin_spec m) as Hb. destruct (map_begin m) as [n|].
    + destruct Hb as (Hin & Hmin). pose proof (Hall n Hin). pose proof (Hmin j Hj). pose proof (Hn j Hj). pose proof (Hn n Hin).
      exists n. split_and!; [done|done|dist_lia|].
      intros i Hi Hik. pose proof (Hall i Hi). pose proof (Hn i Hi). pose proof (Hmin i Hi). dist_lia.
    + subst. destruct Hj as [? Hj]. by rewrite lookup_empty in Hj.
Qed.

Lemma dist_between f a b : in64 f -> in64 a -> in64 b -> dist f a <= dist f b -> dist a b = dist f b - dist f a.
Proof. intros Hf Ha Hb Hle. dist_lia. Qed.

Lemma dist_self f : dist f f = 0.
Proof. unfold dist. by rewrite Z.sub_diag. Qed.

Lemma dist_inj f a b : in64 f -> in64 a -> in64 b -> dist f a = dist f b -> a = b.
Proof. intros Hf Ha Hb Heq. dist_lia. Qed.

Section Reliability.
Context {NH PA : Type} `{!LinkCodec NH PA}.
Notation LpPacket := (LpPacket (LpHeaders NH PA)).
Notation LpReliability := (@LpReliability NH PA).
Notation LinkService := (@LinkService NH PA _).
Notation UnackedFrag := (@UnackedFrag NH PA).
Notation NetPkt := (@NetPkt NH PA).
Implicit Types (p pkt : LpPacket) (r : LpReliability) (st : LinkService) (m : gmap Z UnackedFrag) (nps : list NetPkt) (now : Z).

(** ** The window *)

(** The first element is there when anything is, and everything is between it and
    the last number given out. *)
Record window_ok r : Prop := {
  win_last : in64 (m_lastTxSeqNo r);
  win_keys k : is_Some (m_unackedFrags r !! k) -> in64 k;
  win_first : match m_firstUnackedFrag r with
    | None => m_unackedFrags r = ∅
    | Some f => is_Some (m_unackedFrags r !! f) /\
        forall k, is_Some (m_unackedFrags r !! k) -> dist f k <= dist f (m_lastTxSeqNo r)
    end
}.

(** How many sequence numbers the window covers. *)
Definition span r : Z :=
  match m_firstUnackedFrag r with None => 0 | Some f => dist f (m_lastTxSeqNo r) + 1 end.

Lemma span_nonneg r : 0 <= span r.
Proof. unfold span. destruct (m_firstUnackedFrag r) as [f|]; [|done]. pose proof (dist_range f (m_lastTxSeqNo r)). unfold in64 in *. lia. Qed.

Lemma first_valid r f : window_ok r -> m_firstUnackedFrag r = Some f -> firstTxSeq r = Some f /\ in64 f.
Proof.
  intros [_ Hk Hf] E. rewrite E in Hf. destruct Hf as [[x Hx] _]. unfold firstTxSeq. rewrite E. simpl. rewrite Hx.
  split; [done|]. apply Hk. by eexists.
Qed.

(** Deleting an element leaves a window, that is not longer. *)
Lemma delete_ok k r : window_ok r -> is_Some (m_unackedFrags r !! k) ->
  exists first, deleteUnackedFrag k r = Some (set_firstUnackedFrag first (set_unackedFrags (delete k (m_unackedFrags r)) r)) /\
    window_ok (set_firstUnackedFrag first (set_unackedFrags (delete k (m_unackedFrags r)) r)) /\
    span (set_firstUnackedFrag first (set_unackedFrags (delete k (m_unackedFrags r)) r)) <= span r.
Proof.
  intros Hw [x Hx]. pose proof Hw as [Hlast Hkeys Hfirst]. pose proof (span_nonneg r) as Hspan.
  destruct (m_firstUnackedFrag r) as [f|] eqn:Ef; [|by rewrite Hfirst, lookup_empty in Hx].
  destruct (first_valid r f Hw Ef) as [Hd Hf]. destruct Hfirst as [Hfin Hwin].
  assert (in64 k) as Hk by (apply Hkeys; by eexists).
  assert (forall i, is_Some (delete k (m_unackedFrags r) !! i) -> i <> k /\ is_Some (m_unackedFrags r !! i)) as Hdel.
  { intros i [y Hy]. apply lookup_delete_Some in Hy as [Hne Hy]. split; [done|by eexists]. }
  unfold deleteUnackedFrag. rewrite Hd. cbn [mbind option_bind]. rewrite Hx. cbn [mbind option_bind].
  set (m := delete k (m_unackedFrags r)) in *. destruct (decide (m = ∅)) as [Hm|Hm].
  - rewrite decide_False by tauto. exists None. split_and!; [done| |simpl; unfold span at 1; simpl; lia].
    constructor; simpl; [done| |done]. intros i Hi. apply Hkeys, Hdel, Hi.
  - destruct (map_choose m Hm) as (j & y & Hj). destruct (decide (f = k)) as [->|Hne].
    + rewrite decide_True by done. fold (cyclic_next m k).
      destruct (cyclic_next_spec m k j) as (n & En & Hn & Hpos & Hmin); [done| |by eexists|by apply Hdel; eexists|].
      { intros i Hi. apply Hkeys, Hdel, Hi. }
      pose proof (Hdel n Hn) as [Hnk Hn']. pose proof (Hkeys n Hn') as Hn64. pose proof (Hwin n Hn') as Hwn.
      exists (cyclic_next m k). split_and!; [done| |].
      * constructor; simpl; [done|intros i Hi; apply Hkeys, Hdel, Hi|]. rewrite En. split; [done|]. intros i Hi.
        destruct (Hdel i Hi) as [Hik Hi']. pose proof (Hwin i Hi') as Hwi. pose proof (Hkeys i Hi') as Hi64. specialize (Hmin i Hi Hik).
        rewrite (dist_between k n i), (dist_between k n (m_lastTxSeqNo r)) by done. lia.
      * unfold span. simpl. rewrite En, Ef. rewrite (dist_between k n (m_lastTxSeqNo r)) by done. lia.
    + rewrite decide_False by naive_solver. exists (Some f). split_and!; [by rewrite <-Ef| |].
      * constructor; simpl; [done|intros i Hi; apply Hkeys, Hdel, Hi|]. split.
        -- unfold m. by rewrite lookup_delete_ne.
        -- intros i Hi. apply Hwin, Hdel, Hi.
      * unfold span. simpl. rewrite Ef. lia.
Qed.

(** A number is given out unless the window covers all of them, and it is new. *)
Lemma assign_ok p r : window_ok r -> span r < 2 ^ 64 ->
  let txSeq := u64 (m_lastTxSeqNo r + 1) in
  assignTxSequence p r = Some (txSeq, set_txSequence txSeq p, set_lastTxSeqNo txSeq r) /\ in64 txSeq /\
  m_unackedFrags r !! txSeq = None.
Proof.
  intros Hw Hs txSeq. pose proof Hw as [Hlast Hkeys Hfirst]. assert (in64 txSeq) as Htx by apply u64_range.
  unfold span in Hs. unfold assignTxSequence. fold txSeq. cbn [set_lastTxSeqNo m_unackedFrags].
  destruct (m_firstUnackedFrag r) as [f|] eqn:Ef.
  - destruct (first_valid r f Hw Ef) as [Hd Hf]. destruct Hfirst as [Hfin Hwin].
    assert (txSeq <> f) as Hne by (unfold txSeq; intros E; dist_lia).
    split_and!; [|done|].
    + destruct (0 <? _)%nat; [|done]. replace (firstTxSeq (set_lastTxSeqNo txSeq r)) with (firstTxSeq r) by done.
      rewrite Hd. cbn [mbind option_bind]. by rewrite (proj2 (Z.eqb_neq _ _)).
    + destruct (m_unackedFrags r !! txSeq) eqn:E; [|done]. pose proof (Hwin txSeq ltac:(by eexists)). unfold txSeq in *. dist_lia.
  - rewrite Hfirst. split_and!; [|done|apply lookup_empty]. by rewrite map_size_empty.
Qed.

(** An element under the new number extends the window. *)
Lemma extend_ok (fr : UnackedFrag) r : window_ok r -> span r < 2 ^ 64 ->
  let txSeq := u64 (m_lastTxSeqNo r + 1) in
  let r' := set_firstUnackedFrag (match m_firstUnackedFrag r with None => Some txSeq | Some f => Some f end)
              (set_unackedFrags (<[txSeq := fr]> (m_unackedFrags r)) (set_lastTxSeqNo txSeq r)) in
  window_ok r' /\ span r' <= span r + 1.
Proof.
  intros Hw Hs txSeq r'. pose proof Hw as [Hlast Hkeys Hfirst]. assert (in64 txSeq) as Htx by apply u64_range.
  unfold span in *. subst r'. destruct (m_firstUnackedFrag r) as [f|] eqn:Ef.
  - destruct (first_valid r f Hw Ef) as [_ Hf]. destruct Hfirst as [Hfin Hwin]. split.
    + constructor; simpl; [done| |].
      * intros k. destruct (decide (k = txSeq)) as [->|Hne]; [done|]. rewrite lookup_insert_ne by done. apply Hkeys.
      * split.
        -- destruct (decide (f = txSeq)) as [->|Hne]; [by rewrite lookup_insert_eq|by rewrite lookup_insert_ne].
        -- intros k. destruct (decide (k = txSeq)) as [->|Hne]; [done|]. rewrite lookup_insert_ne by done. intros Hk.
           pose proof (Hwin k Hk). pose proof (Hkeys k Hk). unfold txSeq in *. dist_lia.
    + simpl. unfold txSeq. dist_lia.
  - split.
    + constructor; simpl; [done| |].
      * intros k. rewrite Hfirst. destruct (decide (k = txSeq)) as [->|Hne]; [done|]. rewrite lookup_insert_ne, lookup_empty by done. by intros [? ?].
      * rewrite Hfirst, lookup_insert_eq. split; [done|]. intros k. destruct (decide (k = txSeq)) as [->|Hne]; [done|].
        rewrite lookup_insert_ne, lookup_empty by done. by intros [? ?].
    + simpl. rewrite dist_self. lia.
Qed.

(** ** Detecting losses *)

Lemma dist_step f k n a : in64 f -> in64 k -> in64 n -> in64 a -> dist f k <= dist f a -> dist k n <= dist k a ->
  dist f n = dist f k + dist k n.
Proof. intros Hf Hk Hn Ha H1 H2. dist_lia. Qed.

Lemma findLost_spec threshold ack first : in64 first -> forall fuel it m lost k,
  (forall i, is_Some (m !! i) -> in64 i) -> is_Some (m !! ack) ->
  match it with None => map_begin m | Some k => Some k end = Some k -> is_Some (m !! k) -> dist first k <= dist first ack ->
  Z.of_nat (size (filter (fun i => dist first k <= dist first i) (dom m))) <= Z.of_nat fuel ->
  exists lost' m', findLost fuel threshold ack it m lost = Some (lost ++ lost', m') /\
    (forall i, m' !! i = if decide (dist first k <= dist first i < dist first ack) then incr_greater <$> m !! i else m !! i) /\
    (forall i, i ∈ lost' <-> dist first k <= dist first i < dist first ack /\ exists f, m' !! i = Some f /\ threshold <= uf_nGreaterSeqAcks f) /\
    NoDup lost'.
Proof.
  intros Hf. induction fuel as [|fuel IH]; intros it m lost k Hkeys Hack Hit Hk Hle Hfuel.
  { exfalso. assert (k ∈ filter (fun i => dist first k <= dist first i) (dom m)) as Hin.
    { apply elem_of_filter. split; [done|]. by apply elem_of_dom. }
    assert (size (filter (fun i => dist first k <= dist first i) (dom m)) = 0%nat) as Hz by lia.
    apply size_empty_inv in Hz. by apply Hz, not_elem_of_empty in Hin. }
  cbn [findLost]. rewrite Hit. cbn [mbind option_bind]. destruct Hk as [f Hk]. rewrite Hk. cbn [mbind option_bind].
  pose proof (Hkeys k ltac:(by eexists)) as Hk64. pose proof (Hkeys ack Hack) as Ha64.
  destruct (Z.eqb_spec k ack) as [->|Hne].
  { exists [], m. rewrite app_nil_r. split_and!; [done| | |constructor].
    - intros i. by rewrite decide_False by lia.
    - intros i. split; [by intros ?%not_elem_of_nil|]. intros [? _]. lia. }
  set (m1 := <[k := incr_greater f]> m).
  assert (forall i, is_Some (m1 !! i) <-> is_Some (m !! i)) as Hdom.
  { intros i. unfold m1. destruct (decide (i = k)) as [->|]; [rewrite lookup_insert_eq; split; by eexists|by rewrite lookup_insert_ne]. }
  destruct (cyclic_next_spec m1 k ack) as (n & En & Hn & Hpos & Hmin); [done| |by apply Hdom|done|].
  { intros i Hi. by apply Hkeys, Hdom. }
  pose proof (Hkeys n ltac:(by apply Hdom)) as Hn64. pose proof (Hmin ack ltac:(by apply Hdom) ltac:(done)) as Hna.
  pose proof (dist_step first k n ack Hf Hk64 Hn64 Ha64 Hle Hna) as Hdn.
  pose proof (dist_between first k ack Hf Hk64 Ha64 Hle) as Hda.
  assert (forall i, is_Some (m !! i) -> dist first k < dist first i -> dist first n <= dist first i) as Hnext.
  { intros i Hi Hlt. pose proof (Hkeys i Hi) as Hi64. assert (i <> k) by (intros ->; lia).
    pose proof (Hmin i ltac:(by apply Hdom) ltac:(done)) as Hni. rewrite (dist_between first k i) in Hni by (done || lia). lia. }
  destruct (IH (map_next m1 k) m1 (if threshold <=? uf_nGreaterSeqAcks (incr_greater f) then lost ++ [k] else lost) n)
    as (lost' & m' & E & Hm' & Hlost & Hnd).
  - intros i Hi. by apply Hkeys, Hdom.
  - by apply Hdom.
  - unfold cyclic_next in En. by destruct (map_next m1 k).
  - done.
  - lia.
  - assert (filter (fun i => dist first n <= dist first i) (dom m1) ⊂ filter (fun i => dist first k <= dist first i) (dom m)) as Hsub%subset_size;
      [|lia]. split.
    + intros i. rewrite !elem_of_filter, !elem_of_dom, Hdom. intros [? ?]. split; [lia|done].
    + intros Hs. assert (k ∈ filter (fun i => dist first k <= dist first i) (dom m)) as Hin.
      { apply elem_of_filter. split; [done|]. apply elem_of_dom. by eexists. }
      apply Hs, elem_of_filter in Hin as [? _]. lia.
  - exists (if threshold <=? uf_nGreaterSeqAcks (incr_greater f) then k :: lost' else lost'), m'.
    assert (m' !! k = Some (incr_greater f)) as Hm'k.
    { rewrite Hm', decide_False by lia. unfold m1. by rewrite lookup_insert_eq. }
    split_and!.
    + rewrite E. destruct (threshold <=? _); [|done]. by rewrite <-app_assoc.
    + intros i. destruct (decide (i = k)) as [->|Hik].
      * rewrite decide_True by lia. by rewrite Hm'k, Hk.
      * rewrite Hm'. unfold m1. rewrite lookup_insert_ne by done. destruct (m !! i) as [g|] eqn:Eg; [|by destruct (decide _), (decide _)].
        assert (dist first k <= dist first i <-> dist first n <= dist first i) as Hiff.
        { split; [|lia]. intros Hki. apply Hnext; [by eexists|]. assert (dist first k <> dist first i); [|lia].
          intros Heq%dist_inj; [done|done|done|]. apply Hkeys. by eexists. }
        destruct (decide (dist first n <= dist first i < dist first ack)) as [Hd|Hd];
          [rewrite decide_True; [done|split; [apply Hiff|]; lia]|].
        rewrite decide_False; [done|]. intros [? ?]. apply Hd. split; [by apply Hiff|done].
    + assert (forall i, is_Some (m' !! i) -> i <> k -> dist first k <= dist first i -> dist first n <= dist first i) as Hki.
      { intros i Hi Hik Hd. assert (is_Some (m !! i)) as Hmi.
        { rewrite Hm' in Hi. unfold m1 in Hi. rewrite lookup_insert_ne in Hi by done. destruct (m !! i); [by eexists|].
          by destruct (decide _), Hi. }
        apply Hnext; [done|]. assert (dist first k <> dist first i); [|lia].
        intros Heq%dist_inj; [done|done|done|]. by apply Hkeys. }
      assert (forall i, (dist first k <= dist first i < dist first ack /\ (exists g, m' !! i = Some g /\ threshold <= uf_nGreaterSeqAcks g)) <->
        (i = k /\ threshold <= uf_nGreaterSeqAcks (incr_greater f)) \/ i ∈ lost') as Hall.
      { intros i. rewrite Hlost. split.
        - intros (Hd & g & Hg & Ht). destruct (decide (i = k)) as [->|Hik]; [left; split; [done|]; by simplify_eq|].
          right. split; [split; [apply Hki; [by eexists|done|lia]|lia]|by exists g].
        - intros [[-> Ht]|(Hd & Hg)]; [|split; [lia|done]]. split; [lia|]. by exists (incr_greater f). }
      intros i. rewrite Hall. destruct (Z.leb_spec threshold (uf_nGreaterSeqAcks (incr_greater f))) as [Ht|Ht].
      * rewrite elem_of_cons. tauto.
      * split; [by right|]. intros [[-> ?]|?]; [lia|done].
    + destruct (threshold <=? _); [|done]. apply NoDup_cons. split; [|done]. intros [? _]%Hlost. lia.
Qed.

(** ** Fragments and network packets *)

(** The list of a NetPkt object is that of the fragments that point to it. *)
Definition np_exact m (id : nat) (np : NetPkt) : Prop :=
  NoDup (np_unackedFrags np) /\ forall k, k ∈ np_unackedFrags np <-> exists f, m !! k = Some f /\ uf_netPkt f = id.

(** The objects that fragments point to: the others have been deallocated. *)
Definition live m : gset nat := list_to_set (uf_netPkt <$> (map_to_list m).*2).

Lemma elem_of_live m id : id ∈ live m <-> exists k f, m !! k = Some f /\ uf_netPkt f = id.
Proof.
  unfold live. rewrite elem_of_list_to_set, list_elem_of_fmap. split.
  - intros (f & -> & ([k f'] & -> & Hkf%elem_of_map_to_list)%list_elem_of_fmap). by exists k, f'.
  - intros (k & f & Hkf & <-). exists f. split; [done|]. apply list_elem_of_fmap. exists (k, f). split; [done|].
    by apply elem_of_map_to_list.
Qed.

Definition consistent m nps : Prop :=
  forall id, id ∈ live m -> exists np, nps !! id = Some np /\ np_exact m id np.

(** Fragments may change in everything but their network packet. *)
Lemma consistent_ext m m' nps : (forall k, uf_netPkt <$> m !! k = uf_netPkt <$> m' !! k) -> consistent m nps -> consistent m' nps.
Proof.
  intros Heq Hc. assert (forall k id, (exists f, m !! k = Some f /\ uf_netPkt f = id) <-> (exists f, m' !! k = Some f /\ uf_netPkt f = id)) as Hiff.
  { intros k id. specialize (Heq k). destruct (m !! k) as [f|], (m' !! k) as [g|]; simpl in Heq; try done.
    injection Heq as Heq. split; intros (h & [= <-] & <-); eexists; by split. }
  intros id Hid. destruct (Hc id) as (np & Hnp & Hnd & Hex).
  - apply elem_of_live in Hid as (k & f & Hf & Hid). apply elem_of_live. exists k. apply Hiff. by exists f.
  - exists np. split; [done|]. split; [done|]. intros k. by rewrite Hex, Hiff.
Qed.

Lemma live_ext m m' : (forall k, uf_netPkt <$> m !! k = uf_netPkt <$> m' !! k) -> live m = live m'.
Proof.
  intros Heq. apply set_eq. intros id. rewrite !elem_of_live.
  split; intros (k & f & Hf & <-); specialize (Heq k); rewrite Hf in Heq.
  - destruct (m' !! k) as [g|] eqn:E; [|done]. injection Heq as Heq. by exists k, g.
  - destruct (m !! k) as [g|] eqn:E; [|done]. injection Heq as Heq. by exists k, g.
Qed.

Lemma live_insert m k f : m !! k = None -> live (<[k := f]> m) = {[uf_netPkt f]} ∪ live m.
Proof.
  intros Hk. apply set_eq. intros id. rewrite elem_of_union, elem_of_singleton, !elem_of_live. split.
  - intros (j & g & [[<- <-]|[Hne Hg]]%lookup_insert_Some & <-); [by left|]. right. by exists j, g.
  - intros [->|(j & g & Hg & <-)]; [exists k, f; by rewrite lookup_insert_eq|]. exists j, g. rewrite lookup_insert_ne; [done|].
    intros ->. by rewrite Hk in Hg.
Qed.

(** Another fragment of a network packet whose list is exact. *)
Lemma consistent_push m nps id np k f : m !! k = None -> uf_netPkt f = id -> nps !! id = Some np -> np_exact m id np -> consistent m nps ->
  consistent (<[k := f]> m) (<[id := set_npFrags (np_unackedFrags np ++ [k]) np]> nps) /\
  np_exact (<[k := f]> m) id (set_npFrags (np_unackedFrags np ++ [k]) np).
Proof.
  intros Hk Hf Hnp [Hnd Hex] Hc.
  assert (np_exact (<[k := f]> m) id (set_npFrags (np_unackedFrags np ++ [k]) np)) as Hnew.
  { split; simpl.
    - apply NoDup_app. split_and!; [done| |apply NoDup_singleton]. intros j Hj ->%list_elem_of_singleton.
      apply Hex in Hj as (g & Hg & _). by rewrite Hk in Hg.
    - intros j. rewrite elem_of_app, list_elem_of_singleton, Hex. split.
      + intros [(g & Hg & Hid)| ->]; [exists g; rewrite lookup_insert_ne; [done|intros ->; by rewrite Hk in Hg]|].
        exists f. by rewrite lookup_insert_eq.
      + intros (g & [[<- <-]|[Hne Hg]]%lookup_insert_Some & Hid); [by right|]. left. by exists g. }
  split; [|done]. intros i Hi. rewrite live_insert in Hi by done. apply elem_of_union in Hi as [Hi%elem_of_singleton|Hi].
  - rewrite Hf in Hi. subst i. eexists. split; [|done]. apply list_lookup_insert_eq. by eapply lookup_lt_Some.
  - destruct (decide (i = id)) as [->|Hne]; [eexists; split; [|done]; apply list_lookup_insert_eq; by eapply lookup_lt_Some|].
    destruct (Hc i Hi) as (np' & Hnp' & Hnd' & Hex'). exists np'. rewrite list_lookup_insert_ne by done. split; [done|].
    split; [done|]. intros j. rewrite Hex'. split.
    + intros (g & Hg & Hid). exists g. rewrite lookup_insert_ne; [done|]. intros ->. by rewrite Hk in Hg.
    + intros (g & [[<- <-]|[_ Hg]]%lookup_insert_Some & Hid); [congruence|]. by exists g.
Qed.

(** A fragment leaves the map and its list. *)
Lemma consistent_drop m nps k f np l : m !! k = Some f -> consistent m nps -> nps !! uf_netPkt f = Some np -> np_unackedFrags np ≡ₚ k :: l ->
  consistent (delete k m) (alter (set_npFrags l) (uf_netPkt f) nps) /\
  live (delete k m) = (if decide (l = []) then live m ∖ {[uf_netPkt f]} else live m).
Proof.
  intros Hk Hc Hnp Hperm. set (id := uf_netPkt f) in *.
  destruct (Hc id) as (np' & Hnp' & Hnd & Hex); [apply elem_of_live; by exists k, f|]. assert (np' = np) as -> by (unfold id in *; congruence).
  rewrite Hperm in Hnd. apply NoDup_cons in Hnd as [Hkl Hnd].
  assert (forall j, j ∈ l <-> exists g, delete k m !! j = Some g /\ uf_netPkt g = id) as Hl.
  { intros j. split.
    - intros Hj. assert (j ∈ np_unackedFrags np) as (g & Hg & Hid)%Hex by (rewrite Hperm; by right).
      exists g. rewrite lookup_delete_ne; [done|]. by intros ->.
    - intros (g & [Hne Hg]%lookup_delete_Some & Hid). assert (j ∈ np_unackedFrags np) as Hj by (apply Hex; by exists g).
      rewrite Hperm in Hj. apply elem_of_cons in Hj as [->|Hj]; [done|done]. }
  split.
  - intros i (j & g & [Hne Hg]%lookup_delete_Some & Hid)%elem_of_live. destruct (decide (i = id)) as [->|Hi].
    + exists (set_npFrags l np). rewrite list_lookup_alter_eq, Hnp. split; [done|]. by split.
    + destruct (Hc i) as (np' & Hnp2 & Hnd' & Hex'); [apply elem_of_live; by exists j, g|]. exists np'.
      rewrite list_lookup_alter_ne by done. split; [done|]. split; [done|]. intros q. rewrite Hex'. split.
      * intros (h & Hh & Hih). exists h. rewrite lookup_delete_ne; [done|]. intros <-. unfold id in Hi. congruence.
      * intros (h & [_ Hh]%lookup_delete_Some & Hih). by exists h.
  - assert (forall i, i <> id -> i ∈ live (delete k m) <-> i ∈ live m) as Hother.
    { intros i Hi. rewrite !elem_of_live. split.
      - intros (j & g & [_ Hg]%lookup_delete_Some & Hid). by exists j, g.
      - intros (j & g & Hg & Hid). exists j, g. rewrite lookup_delete_ne; [done|]. intros <-. unfold id in Hi. congruence. }
    assert (id ∈ live (delete k m) <-> l <> []) as Hlive.
    { rewrite elem_of_live. split.
      - intros (j & g & Hg & Hid). intros ->. apply (not_elem_of_nil j). apply Hl. by exists g.
      - intros Hne. destruct l as [|j l]; [done|]. exists j. apply Hl. left. }
    apply set_eq. intros i. destruct (decide (i = id)) as [->|Hi].
    + rewrite Hlive. destruct (decide (l = [])) as [E|E].
      * rewrite elem_of_difference, elem_of_singleton. unfold id. tauto.
      * split; [|done]. intros _. apply elem_of_live. by exists k, f.
    + rewrite Hother by done. destruct (decide (l = [])); [|done]. rewrite elem_of_difference, elem_of_singleton. fold id. tauto.
Qed.

(** A fragment is stored under another number. *)
Lemma consistent_move m nps k f k' f' np l : m !! k = Some f -> m !! k' = None -> uf_netPkt f' = uf_netPkt f -> consistent m nps ->
  nps !! uf_netPkt f = Some np -> np_unackedFrags np ≡ₚ k :: l -> forall np', np_unackedFrags np' ≡ₚ k' :: l ->
  consistent (delete k (<[k' := f']> m)) (<[uf_netPkt f := np']> nps) /\ live (delete k (<[k' := f']> m)) = live m.
Proof.
  intros Hk Hk' Hid Hc Hnp Hperm np' Hperm'. set (id := uf_netPkt f) in *.
  destruct (Hc id) as (np0 & Hnp0 & Hnd & Hex); [apply elem_of_live; by exists k, f|]. assert (np0 = np) as -> by congruence.
  assert (forall j g, delete k (<[k' := f']> m) !! j = Some g <-> (j = k' /\ g = f') \/ (j <> k /\ m !! j = Some g)) as Hm.
  { intros j g. rewrite lookup_delete_Some, lookup_insert_Some. split.
    - intros [Hne [[<- <-]|[Hne' Hg]]]; [by left|by right].
    - intros [[-> ->]|[Hne Hg]]; [split; [intros ->; congruence|by left]|]. split; [done|]. right. split; [intros ->; congruence|done]. }
  assert (forall j, j ∈ np_unackedFrags np <-> j = k \/ j ∈ l) as Hl by (intros j; by rewrite Hperm, elem_of_cons).
  assert (NoDup (np_unackedFrags np') /\ forall j, j ∈ np_unackedFrags np' <-> exists g, delete k (<[k' := f']> m) !! j = Some g /\ uf_netPkt g = id) as Hnew.
  { rewrite Hperm in Hnd. apply NoDup_cons in Hnd as [Hkl Hnd]. split.
    - rewrite Hperm'. apply NoDup_cons. split; [|done]. intros Hj. destruct (proj1 (Hex k')) as (g & Hg & _); [|congruence]. apply Hl. by right.
    - intros j. rewrite Hperm', elem_of_cons. split.
      + intros [->|Hj]; [exists f'; split; [apply Hm; by left|done]|].
        destruct (proj1 (Hex j)) as (g & Hg & Hi); [apply Hl; by right|]. exists g. split; [|done]. apply Hm. right. split; [by intros ->|done].
      + intros (g & [[-> _]|[Hne Hg]]%Hm & Hi); [by left|]. right. assert (j ∈ np_unackedFrags np) as Hj by (apply Hex; by exists g).
        apply Hl in Hj as [->|Hj]; [done|done]. }
  split.
  - intros i (j & g & Hg & Hi)%elem_of_live. destruct (decide (i = id)) as [->|Hne].
    + exists np'. split; [apply list_lookup_insert_eq; by eapply lookup_lt_Some|done].
    + apply Hm in Hg as [[-> ->]|[Hjk Hg]]; [congruence|].
      destruct (Hc i) as (np2 & Hnp2 & Hnd2 & Hex2); [apply elem_of_live; by exists j, g|]. exists np2.
      rewrite list_lookup_insert_ne by done. split; [done|]. split; [done|]. intros q. rewrite Hex2. split.
      * intros (h & Hh & Hih). exists h. split; [|done]. apply Hm. right. split; [|done]. intros ->. unfold id in Hne. congruence.
      * intros (h & [[-> ->]|[_ Hh]]%Hm & Hih); [congruence|]. by exists h.
  - apply set_eq. intros i. rewrite !elem_of_live. split.
    + intros (j & g & [[-> ->]|[_ Hg]]%Hm & Hi); [exists k, f; split; [done|fold id; congruence]|by exists j, g].
    + intros (j & g & Hg & Hi). destruct (decide (j = k)) as [->|Hne].
      * exists k', f'. split; [apply Hm; by left|]. rewrite Hk in Hg. injection Hg as <-. by rewrite Hid.
      * exists j, g. split; [apply Hm; by right|done].
Qed.

(** ** The invariant *)

(** An Interest that may have to be reported as dropped can be decoded. *)
Definition np_ok (np : NetPkt) : Prop := np_isInterest np = true ->
  exists b blk i, lp_fragment (np_pkt np) = Some b /\ parseBlock b = Some blk /\ interestOfBlock blk = Some i.

(** A stored fragment has its key as TxSequence, a running timer, and has been
    sent again at most [max] times. *)
Definition frag_ok (max k : Z) (f : UnackedFrag) : Prop :=
  lh_txSequence (lp_headers (uf_pkt f)) = Value k /\ is_Some (uf_rtoTimer f) /\ 0 <= uf_retxCount f <= max.

Record rel_ok (max : Z) r : Prop := {
  rel_window : window_ok r;
  rel_consistent : consistent (m_unackedFrags r) (r_netPkts r);
  rel_interests : Forall np_ok (r_netPkts r);
  rel_frags : map_Forall (frag_ok max) (m_unackedFrags r)
}.

(** Every network packet is acknowledged, acknowledged after retransmission,
    given up, or has fragments outstanding; the counters are modulo 2^64. *)
Definition accounted st : Prop := exists q,
  l_counters st nAcknowledged + l_counters st nRetransmitted + l_counters st nRetxExhausted +
  Z.of_nat (size (live (m_unackedFrags (m_reliability st)))) = Z.of_nat (length (r_netPkts (m_reliability st))) + q * 2 ^ 64.

Record link_ok st : Prop := {
  lo_max : 0 <= maxRetx (m_options st);
  lo_rel : rel_ok (maxRetx (m_options st)) (m_reliability st);
  lo_accounted : accounted st
}.

Definition upper_event (e : LinkEvent) : bool :=
  match e with DoSend _ | OnDroppedInterest _ => false | _ => true end.

(** What sending and retransmitting leave as it is. *)
Record link_frame st st' : Prop := {
  lf_options : m_options st' = m_options st;
  lf_reassembler : m_reassembler st' = m_reassembler st;
  lf_lastSeqNo : m_lastSeqNo st' = m_lastSeqNo st;
  lf_mtu : t_mtu (l_transport st') = t_mtu (l_transport st);
  lf_idle : m_isIdleAckTimerRunning (m_reliability st') = m_isIdleAckTimerRunning (m_reliability st);
  lf_queue : m_ackQueue (m_reliability st') `suffix_of` m_ackQueue (m_reliability st);
  lf_trace : exists evs, l_trace st' = l_trace st ++ evs /\ Forall (fun e => upper_event e = false) evs
}.

#[global] Instance link_frame_refl : Reflexive link_frame.
Proof. intros st. constructor; try done. exists []. by rewrite app_nil_r. Qed.

#[global] Instance link_frame_trans : Transitive link_frame.
Proof.
  intros st1 st2 st3 [? ? ? ? ? ? (e1 & ? & ?)] [? ? ? ? ? ? (e2 & E2 & ?)]. constructor; try congruence; [by etrans|].
  exists (e1 ++ e2). split; [rewrite E2; rewrite app_assoc; congruence|by apply Forall_app].
Qed.

Lemma frame_bump c st : link_frame st (bump c st).
Proof. constructor; try done. exists []. by rewrite app_nil_r. Qed.

Lemma frame_rel r st : m_isIdleAckTimerRunning r = m_isIdleAckTimerRunning (m_reliability st) ->
  m_ackQueue r `suffix_of` m_ackQueue (m_reliability st) -> link_frame st (set_reliability r st).
Proof. intros Hi Hq. constructor; try done. exists []. by rewrite app_nil_r. Qed.

Lemma frame_emit e st : upper_event e = false -> link_frame st (emit e st).
Proof. intros He. constructor; try done. exists [e]. split; [done|]. by apply Forall_singleton. Qed.

Lemma bump_counter c c' st : exists q, l_counters (bump c st) c' = l_counters st c' + (if decide (c' = c) then 1 else 0) + q * 2 ^ 64.
Proof.
  simpl. destruct (decide (c' = c)) as [->|]; [|exists 0; lia]. exists (- ((l_counters st c + 1) / 2 ^ 64)). unfold u64.
  rewrite Z.mod_eq by lia. lia.
Qed.

(** ** Sending *)

Context (getSendQueueLength : Z -> list LinkEvent -> Z).
Notation sendLpPacket := (sendLpPacket getSendQueueLength).

Lemma checkCongestionLevel_frame now p st : let '(p', st') := checkCongestionLevel getSendQueueLength now p st in
  link_frame st st' /\ m_reliability st' = m_reliability st /\ l_transport st' = l_transport st /\ l_trace st' = l_trace st /\
  (forall c, c <> nCongestionMarked -> l_counters st' c = l_counters st c) /\ (p' = p \/ p' = set_congestionMark 1 p).
Proof.
  assert (forall mk st', st' = st \/ st' = bump nCongestionMarked st ->
    link_frame st (set_marking mk st') /\ m_reliability (set_marking mk st') = m_reliability st /\
    l_transport (set_marking mk st') = l_transport st /\ l_trace (set_marking mk st') = l_trace st /\
    forall c, c <> nCongestionMarked -> l_counters (set_marking mk st') c = l_counters st c) as Hm.
  { intros mk st' [-> | ->]; (split; [constructor; try done; exists []; by rewrite app_nil_r|]); split_and!; try done.
    intros c Hc. simpl. by rewrite decide_False. }
  unfold checkCongestionLevel. destruct (_ <? 0); [split_and!; try done; by left|].
  destruct (_ <? _).
  - destruct (_ || _).
    + destruct (Hm (mkMarking (Some ((if m_nMarkedSinceInMarkingState (m_marking st) =? 0 then now else default 0 (m_nextMarkTime (m_marking st))) +
        markInterval (baseCongestionMarkingInterval (m_options st)) (u64 (m_nMarkedSinceInMarkingState (m_marking st) + 1)))) (Some now)
        (u64 (m_nMarkedSinceInMarkingState (m_marking st) + 1))) (bump nCongestionMarked st)) as (? & ? & ? & ? & ?); [by right|].
      split_and!; try done. by right.
    + split_and!; try done. by left.
  - destruct (m_nextMarkTime (m_marking st)).
    + destruct (Hm (mkMarking None (m_lastMarkTime (m_marking st)) 0) st) as (? & ? & ? & ? & ?); [by left|].
      split_and!; try done. by left.
    + split_and!; try done. by left.
Qed.

Lemma attachAcks_suffix space l : forall p p' q, attachAcks space l p = (p', q) -> q `suffix_of` l.
Proof.
  revert space. induction l as [|a l IH]; intros space p p' q; simpl; [by intros [= <- <-]|].
  destruct (_ <? _); [by intros [= <- <-]|]. intros E%IH. etrans; [exact E|]. by apply suffix_cons_r.
Qed.

(** Whatever is handed to [sendLpPacket] is sent, or dropped for its size, and
    only the queue of Acks of the reliability part changes. *)
Lemma send_ok now p st : (isEnabled (m_options st) = true -> bare p = false) ->
  exists st' q, sendLpPacket now p st = Some st' /\ link_frame st st' /\ m_reliability st' = set_ackQueue q (m_reliability st) /\
    forall c, c <> nOutOverMtu -> c <> nCongestionMarked -> l_counters st' c = l_counters st c.
Proof.
  intros Hb. unfold LinkService.sendLpPacket.
  set (first := if isEnabled (m_options st) then _ else _).
  assert (exists p1 q, first = Some (p1, set_reliability (set_ackQueue q (m_reliability st)) st) /\
    q `suffix_of` m_ackQueue (m_reliability st)) as (p1 & q & -> & Hq).
  { unfold first. destruct (isEnabled (m_options st)) eqn:E.
    - unfold piggyback. rewrite Hb by done. destruct (attachAcks _ _ _) as [p1 q] eqn:Ea. simpl. exists p1, q. split; [done|].
      by eapply attachAcks_suffix.
    - exists p, (m_ackQueue (m_reliability st)). by destruct st as [? [] ? ? ? ? ? ?]. }
  cbn [mbind option_bind]. set (st1 := set_reliability _ st). change (m_options st1) with (m_options st).
  set (second := if allowCongestionMarking (m_options st) then _ else _).
  assert (let '(p2, st2) := second in link_frame st st2 /\ m_reliability st2 = m_reliability st1 /\ l_transport st2 = l_transport st /\
    forall c, c <> nCongestionMarked -> l_counters st2 c = l_counters st c) as Hsec.
  { unfold second. destruct (allowCongestionMarking _).
    - pose proof (checkCongestionLevel_frame now p1 st1) as Hc. destruct (checkCongestionLevel _ _ _ _) as [p2 st2].
      destruct Hc as (Hf & Hr & Ht & _ & Hc & _). split_and!; [|done|done|done]. etrans; [by apply (frame_rel (set_ackQueue q (m_reliability st)))|done].
    - split_and!; try done. by apply frame_rel. }
  destruct second as [p2 st2]. destruct Hsec as (Hf & Hr & Ht & Hc). destruct (negb _ && _) eqn:Eover.
  - exists (bump nOutOverMtu st2), q. split_and!; [done| | |].
    + etrans; [done|apply frame_bump].
    + done.
    + intros c H1 H2. simpl. rewrite decide_False by done. by apply Hc.
  - unfold sendPacket. rewrite Ht. assert (fits (t_mtu (l_transport st)) (wireSize p2) = true) as Hfit.
    { unfold fits. apply andb_false_iff in Eover as [E|E]; [|apply Z.ltb_ge in E; apply orb_true_iff; right; by apply Z.leb_le].
      apply negb_false_iff in E. by rewrite E. }
    unfold Face.send. rewrite Hfit. destruct (decide _).
    + simpl. exists (set_transport (l_transport st) st2), q. split_and!; [done| |done|by intros; apply Hc].
      destruct Hf. constructor; simpl; try done.
    + simpl. eexists _, q. split_and!; [done| |done|by intros; apply Hc].
      etrans; [exact Hf|]. constructor; simpl; try done.
      * rewrite Ht. by destruct (decide _).
      * exists [DoSend p2]. split; [done|]. by apply Forall_singleton.
Qed.

(** The packets of [sendNetPacket]. *)
Lemma sends_ok now ps : forall st, Forall (fun p => isEnabled (m_options st) = true -> bare p = false) ps ->
  exists st' q, sendLpPackets getSendQueueLength now ps st = Some st' /\ link_frame st st' /\ m_reliability st' = set_ackQueue q (m_reliability st) /\
    forall c, c <> nOutOverMtu -> c <> nCongestionMarked -> l_counters st' c = l_counters st c.
Proof.
  induction ps as [|p ps IH]; intros st Hps.
  - exists st, (m_ackQueue (m_reliability st)). split_and!; [done|done|by destruct (m_reliability st)|done].
  - apply Forall_cons in Hps as [Hp Hps]. simpl. destruct (send_ok now p st Hp) as (st1 & q1 & -> & Hf1 & Hr1 & Hc1). simpl.
    destruct (IH st1) as (st2 & q2 & -> & Hf2 & Hr2 & Hc2).
    { by rewrite (lf_options _ _ Hf1). }
    exists st2, q2. split_and!; [done|by etrans|by rewrite Hr2, Hr1|]. intros c H1 H2. by rewrite Hc2, Hc1.
Qed.

Lemma set_txSequence_bare s p : bare (set_txSequence s p) = false.
Proof.
  unfold bare. simpl. destruct (lp_fragment p), (lp_sequence p), (lp_fragIndex p), (lp_fragCount p); try done.
  by destruct (lh_ack _) as [[|]|].
Qed.

Lemma rel_ok_ackQueue max q r : rel_ok max r -> rel_ok max (set_ackQueue q r).
Proof. intros [Hw Hc Hi Hf]. constructor; [|done..]. by destruct Hw. Qed.

(** ** Losing a fragment *)

Lemma window_ext m' r : (forall i, is_Some (m' !! i) <-> is_Some (m_unackedFrags r !! i)) -> window_ok r ->
  window_ok (set_unackedFrags m' r) /\ span (set_unackedFrags m' r) = span r.
Proof.
  intros Hdom [Hl Hk Hf]. split; [|done]. constructor; simpl; [done| |].
  - intros k Hi. by apply Hk, Hdom.
  - destruct (m_firstUnackedFrag r) as [f|].
    + destruct Hf as [Hf Hw]. split; [by apply Hdom|]. intros i Hi. by apply Hw, Hdom.
    + apply map_empty. intros i. apply eq_None_not_Some. intros [x Hx]%Hdom. by rewrite Hf, lookup_empty in Hx.
Qed.

Lemma alter_insert_list {B} (f : B -> B) (l : list B) i x : l !! i = Some x -> alter f i l = <[i := f x]> l.
Proof.
  intros Hx. apply list_eq. intros j. destruct (decide (i = j)) as [<-|Hne].
  - rewrite list_lookup_alter_eq, list_lookup_insert_eq by (by eapply lookup_lt_Some). by rewrite Hx.
  - by rewrite list_lookup_alter_ne, list_lookup_insert_ne.
Qed.

Lemma find_eqb k (l : list Z) : k ∈ l -> find_if (fun j => j =? k) l = Some k.
Proof.
  induction l as [|x l IH]; [by intros ?%not_elem_of_nil|]. simpl. destruct (Z.eqb_spec x k) as [->|Hne]; [done|].
  intros [->|Hk]%elem_of_cons; [done|]. by apply IH.
Qed.

Lemma set_first_self r : r = set_firstUnackedFrag (m_firstUnackedFrag r) (set_unackedFrags (m_unackedFrags r) r).
Proof. by destruct r. Qed.

Lemma deleteOthers_ok k l : forall r, window_ok r -> NoDup l -> (forall j, j ∈ l -> is_Some (m_unackedFrags r !! j)) ->
  exists first m', deleteOthers k l r = Some (filter (fun j => j <> k) l, set_firstUnackedFrag first (set_unackedFrags m' r)) /\
    window_ok (set_firstUnackedFrag first (set_unackedFrags m' r)) /\
    span (set_firstUnackedFrag first (set_unackedFrags m' r)) <= span r /\
    forall i, m' !! i = if decide (i ∈ l /\ i <> k) then None else m_unackedFrags r !! i.
Proof.
  induction l as [|j l IH]; intros r Hw Hnd Hin.
  - exists (m_firstUnackedFrag r), (m_unackedFrags r). rewrite <-set_first_self. split_and!; [done|done|lia|].
    intros i. rewrite decide_False; [done|]. by intros [?%not_elem_of_nil _].
  - apply NoDup_cons in Hnd as [Hj Hnd]. simpl. destruct (Z.eqb_spec j k) as [->|Hne].
    + destruct (IH r Hw Hnd) as (first & m' & E & Hw' & Hs & Hm); [intros; apply Hin; by right|].
      exists first, m'. rewrite filter_cons_False by auto. split_and!; [done|done|done|]. intros i. rewrite Hm.
      apply decide_ext. rewrite elem_of_cons. naive_solver.
    + destruct (delete_ok j r Hw) as (f1 & E1 & Hw1 & Hs1); [apply Hin; by left|]. rewrite E1. cbn [mbind option_bind].
      destruct (IH _ Hw1 Hnd) as (first & m' & E & Hw' & Hs & Hm).
      { intros q Hq. simpl. rewrite lookup_delete_ne by (by intros ->). apply Hin. by right. }
      rewrite E. cbn [mbind option_bind]. exists first, m'. rewrite filter_cons_True by done. split_and!; [done|done|etrans; [exact Hs|exact Hs1]|].
      intros i. rewrite Hm. simpl. destruct (decide (i = j)) as [->|Hij].
      * rewrite lookup_delete_eq. destruct (decide (j ∈ l /\ j <> k)), (decide (j ∈ j :: l /\ j <> k)) as [|Hn]; try done.
        all: exfalso; apply Hn; split; [left|done].
      * rewrite lookup_delete_ne by done. apply decide_ext. rewrite elem_of_cons. naive_solver.
Qed.

(** All fragments of a network packet leave the map. *)
Lemma consistent_purge m m' nps id np : (forall i, m' !! i = if decide (i ∈ np_unackedFrags np) then None else m !! i) ->
  np_exact m id np -> consistent m nps -> consistent m' nps /\ live m' = live m ∖ {[id]}.
Proof.
  intros Hm [_ Hex] Hc.
  assert (forall j g, m' !! j = Some g <-> m !! j = Some g /\ uf_netPkt g <> id) as Hin.
  { intros j g. rewrite Hm. destruct (decide (j ∈ np_unackedFrags np)) as [Hj|Hj].
    - apply Hex in Hj as (f & Hf & Hid). split; [done|]. intros [Hg Hne]. congruence.
    - split; [|tauto]. intros Hg. split; [done|]. intros Hid. apply Hj, Hex. by exists g. }
  split.
  - intros i (j & g & [Hg Hne]%Hin & Hi)%elem_of_live. destruct (Hc i) as (np' & Hnp' & Hnd' & Hex'); [apply elem_of_live; by exists j, g|].
    exists np'. split; [done|]. split; [done|]. intros q. rewrite Hex'. split; intros (h & Hh & Hih); exists h; split; try done.
    + apply Hin. split; [done|]. congruence.
    + by apply Hin in Hh as [? _].
  - apply set_eq. intros i. rewrite elem_of_difference, elem_of_singleton, !elem_of_live. split.
    + intros (j & g & [Hg Hne]%Hin & Hi). split; [by exists j, g|congruence].
    + intros [(j & g & Hg & Hi) Hne]. exists j, g. split; [|done]. apply Hin. split; [done|congruence].
Qed.

Lemma size_live_remove m id : id ∈ live m -> Z.of_nat (size (live m ∖ {[id]})) = Z.of_nat (size (live m)) - 1.
Proof. intros Hid. rewrite size_difference, size_singleton by set_solver. assert (size (live m) <> 0%nat); [|lia].
  intros Hz%size_empty_inv. by apply Hz, not_elem_of_empty in Hid. Qed.

(** Maps with the same fragments but for fields the invariant ignores. *)
Lemma frags_dom m m' : (forall i, uf_netPkt <$> m !! i = uf_netPkt <$> m' !! i) -> forall i, is_Some (m' !! i) <-> is_Some (m !! i).
Proof.
  intros Heq i. specialize (Heq i). destruct (m !! i), (m' !! i); simpl in Heq; try done; split; by eexists.
Qed.

Lemma insert_same_netPkt k f f' m : m !! k = Some f -> uf_netPkt f' = uf_netPkt f -> forall i, uf_netPkt <$> m !! i = uf_netPkt <$> <[k := f']> m !! i.
Proof.
  intros Hk Hf i. destruct (decide (k = i)) as [<-|Hne]; [rewrite lookup_insert_eq, Hk; simpl; by rewrite Hf|by rewrite lookup_insert_ne].
Qed.

(** The fragment is given up, with the rest of its network packet. *)
Lemma lost_exhausted now k f st : link_ok st -> m_unackedFrags (m_reliability st) !! k = Some f -> maxRetx (m_options st) <= uf_retxCount f ->
  exists removed st', onLpPacketLost getSendQueueLength now k st = Some (removed, st') /\ link_ok st' /\ link_frame st st' /\ k ∈ removed /\
    (forall i, is_Some (m_unackedFrags (m_reliability st) !! i) -> i ∈ removed \/ is_Some (m_unackedFrags (m_reliability st') !! i)) /\
    span (m_reliability st') <= span (m_reliability st) /\
    (forall i, m_unackedFrags (m_reliability st') !! i = m_unackedFrags (m_reliability st) !! i \/ m_unackedFrags (m_reliability st') !! i = None) /\
    m_ackQueue (m_reliability st') = m_ackQueue (m_reliability st) /\
    (forall i, m_unackedFrags (m_reliability st') !! i =
      match m_unackedFrags (m_reliability st) !! i with Some g => if decide (uf_netPkt g = uf_netPkt f) then None else Some g | None => None end).
Proof.
  intros [Hmax [Hw Hc Hi Hf] [q Hacc]] Hk Hex. unfold onLpPacketLost. set (r := m_reliability st) in *. rewrite Hk. cbn [mbind option_bind].
  set (id := uf_netPkt f). set (m1 := <[k := set_timer None f]> (m_unackedFrags r)).
  assert (id ∈ live (m_unackedFrags r)) as Hid by (apply elem_of_live; by exists k, f).
  destruct (Hc id Hid) as (np & Hnp & Hexact). cbn [set_unackedFrags r_netPkts]. rewrite Hnp. cbn [mbind option_bind].
  rewrite (proj2 (Z.leb_le _ _) Hex).
  pose proof (insert_same_netPkt k f (set_timer None f) _ Hk eq_refl) as Hsame. fold m1 in Hsame.
  pose proof (frags_dom _ _ Hsame) as Hdom. destruct (window_ext m1 r Hdom Hw) as [Hw1 Hs1].
  assert (k ∈ np_unackedFrags np) as Hkin by (apply Hexact; by exists f).
  destruct (deleteOthers_ok k (np_unackedFrags np) (set_unackedFrags m1 r) Hw1) as (f2 & m2 & E2 & Hw2 & Hs2 & Hm2).
  { apply Hexact. }
  { intros j (g & Hg & _)%Hexact. simpl. apply Hdom. by eexists. }
  rewrite E2. cbn [mbind option_bind].
  set (st1 := bump nRetxExhausted _). set (o := if np_isInterest np then _ else _).
  assert (exists st2, o = Some st2 /\ m_reliability st2 = m_reliability st1 /\ link_frame st1 st2 /\
    forall c, c <> nDroppedInterests -> l_counters st2 c = l_counters st1 c) as (st2 & Ho & Hr2 & Hf2 & Hc2).
  { unfold o. destruct (np_isInterest np) eqn:Eint; [|by exists st1].
    rewrite Forall_forall in Hi. destruct (Hi np) as (b & blk & i & -> & Hb & Hb'); [by eapply list_elem_of_lookup_2|done|].
    cbn [mbind option_bind]. rewrite Hb. cbn [mbind option_bind]. rewrite Hb'. cbn [mbind option_bind]. eexists. split_and!; [done|done| |].
    - etrans; [apply frame_bump|]. by apply frame_emit.
    - intros c Hne. simpl. by rewrite decide_False. }
  rewrite Ho. cbn [mbind option_bind]. rewrite Hr2. subst st1. cbn [bump set_reliability m_reliability].
  assert (m2 !! k = m1 !! k) as Hm2k by (rewrite Hm2, decide_False by tauto; done).
  destruct (delete_ok k _ Hw2) as (f3 & E3 & Hw3 & Hs3).
  { simpl. rewrite Hm2k. unfold m1. by rewrite lookup_insert_eq. }
  unfold lift_rel. rewrite E3. cbn [mbind option_bind]. cbn [set_firstUnackedFrag set_unackedFrags m_unackedFrags] in *.
  assert (forall i, delete k m2 !! i = if decide (i ∈ np_unackedFrags np) then None else m_unackedFrags r !! i) as Hm3.
  { intros i. destruct (decide (i = k)) as [->|Hne]; [by rewrite lookup_delete_eq, decide_True|].
    rewrite lookup_delete_ne, Hm2 by done. simpl. unfold m1. rewrite lookup_insert_ne by done. apply decide_ext. tauto. }
  destruct (consistent_purge _ _ _ id np Hm3 Hexact Hc) as [Hc3 Hl3].
  eexists _, _. split; [done|]. split_and!.
  - constructor; simpl.
    + by rewrite (lf_options _ _ Hf2).
    + rewrite (lf_options _ _ Hf2). constructor; simpl; [done|done|done|]. intros i g Hg. rewrite Hm3 in Hg.
      destruct (decide (i ∈ np_unackedFrags np)); [done|]. by apply Hf.
    + unfold accounted. simpl. rewrite !Hc2 by done. simpl. rewrite Hl3, size_live_remove by done.
      destruct (bump_counter nRetxExhausted nRetxExhausted st) as (q' & Hq'). simpl in Hq'. rewrite Hq'. exists (q + q').
      fold r. lia.
  - etrans; [by apply (frame_rel (set_firstUnackedFrag f2 (set_unackedFrags m2 r)))|]. etrans; [apply (frame_bump nRetxExhausted)|].
    etrans; [exact Hf2|]. apply frame_rel; by rewrite Hr2.
  - apply elem_of_app. right. by apply list_elem_of_singleton.
  - intros i Hi'. rewrite elem_of_app, list_elem_of_singleton, list_elem_of_filter. simpl. rewrite Hm3.
    destruct (decide (i ∈ np_unackedFrags np)); [|by right]. left. destruct (decide (i = k)); tauto.
  - simpl in *. lia.
  - intros i. simpl. rewrite Hm3. destruct (decide _); [by right|by left].
  - done.
  - intros i. simpl. rewrite Hm3. destruct Hexact as [_ Hexact]. destruct (decide (i ∈ np_unackedFrags np)) as [Hin|Hin].
    + apply Hexact in Hin as (g & -> & Hg). by rewrite decide_True.
    + destruct (m_unackedFrags r !! i) as [g|] eqn:Eg; [|done]. rewrite decide_False; [done|]. intros Hg. apply Hin, Hexact. by exists g.
Qed.

(** The fragment is sent again under the next number. *)
Lemma lost_retx now k f st : link_ok st -> m_unackedFrags (m_reliability st) !! k = Some f -> uf_retxCount f < maxRetx (m_options st) ->
  span (m_reliability st) < 2 ^ 64 ->
  let new := u64 (m_lastTxSeqNo (m_reliability st) + 1) in
  exists st', onLpPacketLost getSendQueueLength now k st = Some ([k], st') /\ link_ok st' /\ link_frame st st' /\
    (exists f', m_unackedFrags (m_reliability st') = <[new := f']> (delete k (m_unackedFrags (m_reliability st))) /\
       uf_pkt f' = set_txSequence new (uf_pkt f) /\ uf_retxCount f' = uf_retxCount f + 1 /\ uf_netPkt f' = uf_netPkt f) /\
    m_unackedFrags (m_reliability st) !! new = None /\
    span (m_reliability st') <= span (m_reliability st) + 1.
Proof.
  intros [Hmax [Hw Hc Hi Hf] [q Hacc]] Hk Hretx Hspan new. unfold onLpPacketLost. set (r := m_reliability st) in *. rewrite Hk. cbn [mbind option_bind].
  set (id := uf_netPkt f). set (m1 := <[k := set_timer None f]> (m_unackedFrags r)).
  assert (id ∈ live (m_unackedFrags r)) as Hid by (apply elem_of_live; by exists k, f).
  destruct (Hc id Hid) as (np & Hnp & Hexact). cbn [set_unackedFrags r_netPkts]. rewrite Hnp. cbn [mbind option_bind].
  rewrite (proj2 (Z.leb_gt _ _) Hretx).
  assert (k ∈ np_unackedFrags np) as Hkin by (apply Hexact; by exists f).
  pose proof (frags_dom _ _ (insert_same_netPkt k f (set_timer None f) _ Hk eq_refl)) as Hdom. fold m1 in Hdom.
  destruct (window_ext m1 r Hdom Hw) as [Hw1 Hs1]. fold (set_unackedFrags m1 r).
  destruct (assign_ok (uf_pkt f) (set_unackedFrags m1 r) Hw1) as (E1 & Hnew64 & Hnew1); [lia|].
  change (u64 (m_lastTxSeqNo (set_unackedFrags m1 r) + 1)) with new in *. rewrite E1. cbn [mbind option_bind].
  cbn [set_unackedFrags set_lastTxSeqNo set_netPkts m_unackedFrags r_netPkts m_firstUnackedFrag] in *.
  assert (m_unackedFrags r !! new = None) as Hnew. { apply eq_None_not_Some. intros Hs%Hdom. rewrite Hnew1 in Hs. by destruct Hs. }
  assert (k <> new) as Hkn by congruence.
  set (pkt := set_txSequence new (uf_pkt f)).
  set (ma := alter (set_pkt pkt) k m1).
  assert (forall i, i <> k -> ma !! i = m_unackedFrags r !! i) as Hma.
  { intros i Hne. unfold ma, m1. by rewrite lookup_alter_ne, lookup_insert_ne by congruence. }
  assert (forall i, is_Some (ma !! i) <-> is_Some (m_unackedFrags r !! i)) as Hdoma.
  { intros i. destruct (decide (i = k)) as [->|Hne]; [|by rewrite Hma]. unfold ma, m1. rewrite lookup_alter_eq, lookup_insert_eq, Hk. split; by eexists. }
  set (fr := mkUnackedFrag pkt None now (uf_retxCount f + 1) 0 id).
  assert (alter (fun g => mkUnackedFrag (uf_pkt g) (uf_rtoTimer g) (uf_sendTime g) (uf_retxCount f + 1) (uf_nGreaterSeqAcks g) id) new
    (emplace new (mkUnackedFrag pkt None now 0 0 0) ma) = <[new := fr]> ma) as ->.
  { unfold emplace. rewrite Hma, Hnew by done. apply map_eq. intros i. destruct (decide (i = new)) as [->|Hne].
    - by rewrite lookup_alter_eq, !lookup_insert_eq.
    - by rewrite lookup_alter_ne, !lookup_insert_ne by congruence. }
  rewrite bool_decide_eq_true_2 by done.
  set (frags := update_first _ _ _). set (np' := set_npFrags frags (set_didRetx np)).
  assert (alter (set_npFrags frags) id (alter set_didRetx id (r_netPkts r)) = <[id := np']> (r_netPkts r)) as ->.
  { rewrite (alter_insert_list set_didRetx _ id np) by done.
    rewrite (alter_insert_list _ _ id (set_didRetx np)) by (apply list_lookup_insert_eq; by eapply lookup_lt_Some). by rewrite list_insert_insert_eq. }
  destruct (window_ext ma r Hdoma Hw) as [Hwa Hsa]. destruct (extend_ok fr (set_unackedFrags ma r) Hwa) as [Hw3 Hs3]; [lia|].
  change (u64 (m_lastTxSeqNo (set_unackedFrags ma r) + 1)) with new in *.
  assert (match m_firstUnackedFrag r with None => Some new | Some f => Some f end = m_firstUnackedFrag r) as Hfirst.
  { destruct (m_firstUnackedFrag r) as [first|] eqn:Efirst; [done|]. destruct Hw as [_ _ Hw]. rewrite Efirst in Hw. by rewrite Hw, lookup_empty in Hk. }
  cbn [set_unackedFrags m_firstUnackedFrag] in Hw3, Hs3. rewrite Hfirst in Hw3, Hs3.
  match goal with |- context [deleteUnackedFrag k ?R] => set (r3 := R) end.
  assert (window_ok r3 /\ span r3 <= span r + 1) as [Hwr3 Hsr3]. { split; [by destruct Hw3|]. rewrite Hsa in Hs3. exact Hs3. }
  destruct (delete_ok k r3 Hwr3) as (f4 & E4 & Hw4 & Hs4). { simpl. rewrite lookup_insert_ne by done. apply Hdoma. by eexists. }
  rewrite E4. cbn [mbind option_bind set_firstUnackedFrag set_unackedFrags m_unackedFrags]. change (m_unackedFrags r3) with (<[new := fr]> ma) in *. subst r3.
  rewrite lookup_delete_ne, lookup_insert_eq by done. cbn [mbind option_bind].
  match goal with |- context [set_reliability ?R st] => set (r4 := R) in * end.
  destruct (send_ok now (uf_pkt fr) (set_reliability r4 st)) as (st5 & q5 & E5 & Hf5 & Hr5 & Hc5). { intros _. apply set_txSequence_bare. }
  rewrite E5. cbn [mbind option_bind].
  set (t := schedule now (m_reliability st5)).
  assert (alter (set_timer t) new (m_unackedFrags (m_reliability st5)) = <[new := set_timer t fr]> (delete k (m_unackedFrags r))) as Hm5.
  { rewrite Hr5. change (m_unackedFrags (set_ackQueue q5 (m_reliability (set_reliability r4 st)))) with (delete k (<[new := fr]> ma)). apply map_eq. intros i. destruct (decide (i = new)) as [->|Hne].
    - by rewrite lookup_alter_eq, lookup_delete_ne, !lookup_insert_eq by done.
    - rewrite lookup_alter_ne, lookup_insert_ne by done. destruct (decide (i = k)) as [->|Hik]; [by rewrite !lookup_delete_eq|].
      by rewrite !lookup_delete_ne, lookup_insert_ne, Hma by done. }
  assert (np_unackedFrags np ≡ₚ k :: erase_first (fun j => j =? k) (np_unackedFrags np)) as Hp1
    by (symmetry; apply erase_first_perm; by apply find_eqb).
  assert (np_unackedFrags np' ≡ₚ new :: erase_first (fun j => j =? k) (np_unackedFrags np)) as Hp2.
  { simpl. unfold frags. apply (update_first_perm _ (fun _ => new) _ k). by apply find_eqb. }
  destruct (consistent_move _ _ k f new (set_timer t fr) np _ Hk Hnew eq_refl Hc Hnp Hp1 np' Hp2) as [Hc6 Hl6].
  rewrite delete_insert_ne in Hc6, Hl6 by done.
  eexists. split; [done|]. split_and!.
  - assert (m_options st5 = m_options st) as Ho by (by rewrite (lf_options _ _ Hf5)). constructor; simpl; rewrite ?Ho; [done| |].
    + rewrite Hm5. constructor; simpl.
      * rewrite Hr5. simpl. destruct Hw4 as [Ha Hb Hd]. constructor; simpl in *; [done| |].
        -- intros i. destruct (decide (i = new)) as [->|Hne]; [done|]. rewrite lookup_insert_ne by done. intros [x [Hx1 Hx2]%lookup_delete_Some].
           destruct Hw. apply win_keys0. by eexists.
        -- destruct f4 as [g|].
           ++ destruct Hd as [Hd1 Hd2].
              assert (forall i, is_Some (<[new:=set_timer t fr]> (delete k (m_unackedFrags r)) !! i) <-> is_Some (delete k (<[new:=fr]> ma) !! i)) as Hiff.
              { intros i. destruct (decide (i = new)) as [->|Hne]; [rewrite lookup_delete_ne, !lookup_insert_eq by done; split; by eexists|].
                rewrite lookup_insert_ne by done. destruct (decide (i = k)) as [->|Hik]; [by rewrite !lookup_delete_eq|].
                by rewrite !lookup_delete_ne, lookup_insert_ne, Hma by done. }
              split; [by apply Hiff|]. intros i Hi'. by apply Hd2, Hiff.
           ++ exfalso. assert (delete k (<[new:=fr]> ma) !! new = Some fr) as Hcontra by (by rewrite lookup_delete_ne, lookup_insert_eq).
              rewrite Hd in Hcontra. by rewrite lookup_empty in Hcontra.
      * rewrite Hr5. exact Hc6.
      * rewrite Hr5. simpl. rewrite Forall_forall in Hi. apply Forall_insert; [by apply Forall_forall|]. intros Hint. apply (Hi np); [by eapply list_elem_of_lookup_2|done].
      * intros i g. rewrite lookup_insert_Some. intros [[<- <-]|[Hne [Hik Hg]%lookup_delete_Some]]; [|by apply Hf].
        destruct (Hf k f Hk) as (_ & _ & ?). split_and!; [done|by eexists|simpl; lia|simpl; lia].
    + exists q. unfold accounted. simpl. rewrite !Hc5 by done. simpl. rewrite Hm5, Hl6. rewrite Hr5. simpl. rewrite length_insert. exact Hacc.
  - etrans; [by apply (frame_rel r4)|]. etrans; [exact Hf5|]. by apply frame_rel.
  - exists (set_timer t fr). simpl. rewrite Hm5. done.
  - done.
  - simpl. unfold span in *. simpl in *. rewrite Hr5. simpl. etrans; [exact Hs4|]. exact Hsr3.
Qed.

Lemma size_dom_le {A B} (m1 : gmap Z A) (m2 : gmap Z B) : (forall i, is_Some (m1 !! i) -> is_Some (m2 !! i)) -> (size m1 <= size m2)%nat.
Proof.
  intros Hin. rewrite <-!size_dom. apply subseteq_size. intros i. rewrite !elem_of_dom. apply Hin.
Qed.

(** What a lost fragment becomes, in both cases. *)
Lemma lost_ok now k st : link_ok st -> is_Some (m_unackedFrags (m_reliability st) !! k) -> span (m_reliability st) < 2 ^ 64 ->
  exists removed st', onLpPacketLost getSendQueueLength now k st = Some (removed, st') /\ link_ok st' /\ link_frame st st' /\ k ∈ removed /\
    (forall i, is_Some (m_unackedFrags (m_reliability st) !! i) -> i ∈ removed \/ is_Some (m_unackedFrags (m_reliability st') !! i)) /\
    span (m_reliability st') <= span (m_reliability st) + 1 /\
    (size (m_unackedFrags (m_reliability st')) <= size (m_unackedFrags (m_reliability st)))%nat.
Proof.
  intros Hok [f Hk] Hspan. destruct (Z.le_gt_cases (maxRetx (m_options st)) (uf_retxCount f)) as [Hex|Hretx].
  - destruct (lost_exhausted now k f st Hok Hk Hex) as (removed & st' & E & Hok' & Hfr & Hrem & Hin & Hs & Hm & _ & _).
    exists removed, st'. split_and!; try done; [lia|]. apply size_dom_le. intros i. by destruct (Hm i) as [-> | ->]; [|intros [? ?]].
  - destruct (lost_retx now k f st Hok Hk Hretx Hspan) as (st' & E & Hok' & Hfr & (f' & Hm & _) & Hnew & Hs).
    exists [k], st'. split_and!; try done; [by left|..].
    + intros i Hi. rewrite Hm. rewrite list_elem_of_singleton. destruct (decide (i = k)) as [->|Hne]; [by left|]. right.
      destruct (decide (i = u64 (m_lastTxSeqNo (m_reliability st) + 1))) as [->|Hne']; [by rewrite lookup_insert_eq|].
      by rewrite lookup_insert_ne, lookup_delete_ne.
    + rewrite Hm, map_size_insert_None, map_size_delete, Hk by (rewrite lookup_delete_ne; [done|congruence]).
      simpl. assert (size (m_unackedFrags (m_reliability st)) <> 0%nat); [|lia].
      intros Hz%map_size_empty_inv. by rewrite Hz, lookup_empty in Hk.
Qed.

Lemma loseAll_ok now lost : forall removed st, link_ok st ->
  (forall i, i ∈ lost -> i ∈ removed \/ is_Some (m_unackedFrags (m_reliability st) !! i)) ->
  span (m_reliability st) + Z.of_nat (length lost) <= 2 ^ 64 ->
  exists st', loseAll getSendQueueLength now lost removed st = Some st' /\ link_ok st' /\ link_frame st st' /\
    span (m_reliability st') <= span (m_reliability st) + Z.of_nat (length lost) /\
    (size (m_unackedFrags (m_reliability st')) <= size (m_unackedFrags (m_reliability st)))%nat.
Proof.
  induction lost as [|k lost IH]; intros removed st Hok Hin Hspan; simpl in *.
  - exists st. split_and!; [done|done|done|lia|lia].
  - case_bool_decide as Hk.
    + destruct (IH removed st Hok) as (st' & E & Hok' & Hf & Hs & Hz); [intros i Hi; apply Hin; by right|lia|].
      exists st'. split_and!; [done|done|done|lia|lia].
    + destruct (Hin k ltac:(left)) as [?|Hsome]; [done|].
      destruct (lost_ok now k st Hok Hsome ltac:(lia)) as (rem & st1 & -> & Hok1 & Hf1 & _ & Hin1 & Hs1 & Hz1). cbn [mbind option_bind].
      destruct (IH (removed ++ rem) st1 Hok1) as (st' & E & Hok' & Hf & Hs & Hz).
      { intros i Hi. rewrite elem_of_app. destruct (Hin i ltac:(by right)) as [?|Hi']; [tauto|]. destruct (Hin1 i Hi'); tauto. }
      { lia. }
      exists st'. split_and!; [done|done|by etrans|lia|lia].
Qed.

(** An acknowledged fragment leaves, and the network packet is counted with its
    last one. *)
Lemma acked_ok k f st : 0 <= maxRetx (m_options st) -> window_ok (m_reliability st) ->
  consistent (m_unackedFrags (m_reliability st)) (r_netPkts (m_reliability st)) -> Forall np_ok (r_netPkts (m_reliability st)) ->
  map_Forall (fun i g => i <> k -> frag_ok (maxRetx (m_options st)) i g) (m_unackedFrags (m_reliability st)) -> accounted st ->
  m_unackedFrags (m_reliability st) !! k = Some f ->
  exists st', onLpPacketAcknowledged k st = Some st' /\ link_ok st' /\ link_frame st st' /\
    m_unackedFrags (m_reliability st') = delete k (m_unackedFrags (m_reliability st)) /\
    span (m_reliability st') <= span (m_reliability st) /\ l_trace st' = l_trace st.
Proof.
  intros Hmax Hw Hc Hi Hf [q Hacc] Hk. unfold onLpPacketAcknowledged. rewrite Hk. cbn [mbind option_bind]. set (id := uf_netPkt f).
  assert (id ∈ live (m_unackedFrags (m_reliability st))) as Hid by (apply elem_of_live; by exists k, f).
  destruct (Hc id Hid) as (np & Hnp & Hexact). rewrite Hnp. cbn [mbind option_bind].
  assert (k ∈ np_unackedFrags np) as Hkin by (apply Hexact; by exists f). rewrite bool_decide_eq_true_2 by done.
  set (frags := swap_remove _ _). assert (np_unackedFrags np ≡ₚ k :: frags) as Hperm by (apply swap_remove_perm; by apply find_eqb).
  set (nps := alter _ id _). set (st1 := match frags with [] => _ | _ => _ end).
  assert (m_reliability st1 = set_netPkts nps (m_reliability st) /\ link_frame st st1 /\ l_trace st1 = l_trace st /\
    exists q', l_counters st1 nAcknowledged + l_counters st1 nRetransmitted + l_counters st1 nRetxExhausted =
    l_counters st nAcknowledged + l_counters st nRetransmitted + l_counters st nRetxExhausted + (if decide (frags = []) then 1 else 0) + q' * 2 ^ 64)
    as (Hr1 & Hf1 & Ht1 & q' & Hc1).
  { unfold st1, on_rel. destruct frags as [|x frags'].
    - set (c := if np_didRetx np then nRetransmitted else nAcknowledged). split_and!; [done| |done|].
      { etrans; [by apply (frame_rel (set_netPkts nps (m_reliability st)))|apply frame_bump]. }
      set (st0 := set_reliability _ st).
      destruct (bump_counter c nAcknowledged st0) as (q1 & ->). destruct (bump_counter c nRetransmitted st0) as (q2 & ->).
      destruct (bump_counter c nRetxExhausted st0) as (q3 & ->). exists (q1 + q2 + q3). unfold c.
      destruct (np_didRetx np); simpl; lia.
    - split_and!; [done|by apply frame_rel|done|]. exists 0. rewrite decide_False by done. simpl. lia. }
  clearbody st1. rewrite Hr1.
  assert (window_ok (set_netPkts nps (m_reliability st))) as Hw1 by (by destruct Hw).
  destruct (delete_ok k _ Hw1) as (f2 & E2 & Hw2 & Hs2); [by eexists|]. unfold lift_rel. rewrite E2. cbn [mbind option_bind].
  destruct (consistent_drop _ _ k f np frags Hk Hc Hnp Hperm) as [Hc2 Hl2]. fold id nps in Hc2, Hl2.
  eexists. split; [done|]. split_and!; [|etrans; [exact Hf1|apply frame_rel; by rewrite Hr1]|done|exact Hs2|done].
  constructor; simpl; rewrite ?(lf_options _ _ Hf1); [done| |].
  - constructor; simpl; [done|done| |].
    + rewrite Forall_forall in Hi. apply Forall_forall. intros np'. unfold nps. rewrite (alter_insert_list _ _ id np Hnp).
      intros (j & Hj)%list_elem_of_lookup. destruct (decide (j = id)) as [->|Hne].
      * rewrite list_lookup_insert_eq in Hj by (by eapply lookup_lt_Some). injection Hj as <-. intros Hint.
        apply (Hi np); [by eapply list_elem_of_lookup_2|done].
      * rewrite list_lookup_insert_ne in Hj by done. apply Hi. by eapply list_elem_of_lookup_2.
    + intros i g [Hne Hg]%lookup_delete_Some. by apply Hf.
  - unfold accounted. simpl. rewrite Hl2. unfold nps. rewrite length_alter. destruct (decide (frags = [])).
    + rewrite size_live_remove by done. exists (q + q'). lia.
    + exists (q + q'). lia.
Qed.

Lemma NoDup_size_le (l : list Z) (m : gmap Z UnackedFrag) : NoDup l -> (forall i, i ∈ l -> is_Some (m !! i)) -> (length l <= size m)%nat.
Proof.
  intros Hnd Hin. rewrite <-(size_list_to_set (C := gset Z) l) by done. rewrite <-size_dom. apply subseteq_size.
  intros i. rewrite elem_of_list_to_set, elem_of_dom. apply Hin.
Qed.

Lemma processAck_ok now ackSeq st : link_ok st ->
  span (m_reliability st) + Z.of_nat (size (m_unackedFrags (m_reliability st))) <= 2 ^ 64 ->
  exists st', processAck getSendQueueLength now ackSeq st = Some st' /\ link_ok st' /\ link_frame st st' /\
    span (m_reliability st') <= span (m_reliability st) + Z.of_nat (size (m_unackedFrags (m_reliability st))) /\
    (size (m_unackedFrags (m_reliability st')) <= size (m_unackedFrags (m_reliability st)))%nat.
Proof.
  intros Hok Hspan. pose proof Hok as [Hmax [Hw Hc Hi Hf] Hacc]. unfold processAck. set (r := m_reliability st) in *.
  destruct (m_unackedFrags r !! ackSeq) as [f|] eqn:Hk; [|exists st; split_and!; [done|done|done|fold r; lia|done]].
  set (m1 := <[ackSeq := set_timer None f]> (m_unackedFrags r)). set (r1 := if uf_retxCount f =? 0 then _ else _).
  assert (window_ok r1 /\ span r1 = span r /\ m_unackedFrags r1 = m1 /\ r_netPkts r1 = r_netPkts r /\ m_firstUnackedFrag r1 = m_firstUnackedFrag r /\
    m_isIdleAckTimerRunning r1 = m_isIdleAckTimerRunning r /\ m_ackQueue r1 = m_ackQueue r) as (Hw1 & Hs1 & Hm1 & Hn1 & Hfi1 & Hid1 & Hq1).
  { pose proof (insert_same_netPkt ackSeq f (set_timer None f) _ Hk eq_refl) as Hsame. destruct (window_ext m1 r (frags_dom _ _ Hsame) Hw) as [Hw1 Hs1].
    unfold r1. destruct (_ =? 0); split_and!; try done. by destruct Hw1. }
  clearbody r1. destruct (m_firstUnackedFrag r) as [first|] eqn:Efirst.
  2: { destruct Hw as [_ _ Hw]. rewrite Efirst in Hw. by rewrite Hw, lookup_empty in Hk. }
  destruct (first_valid r1 first Hw1 Hfi1) as [_ Hf64]. pose proof Hw1 as [Hl1 Hk1 Hwin1]. rewrite Hfi1 in Hwin1. destruct Hwin1 as [Hfin1 Hwin1].
  unfold findLostLpPackets. rewrite Hfi1. rewrite Hm1 in *.
  destruct (findLost_spec (seqNumLossThreshold (m_options st)) ackSeq first Hf64 (size m1) (Some first) m1 [] first) as (lost & m2 & E & Hm2 & Hlost & Hnd).
  { done. } { unfold m1. by rewrite lookup_insert_eq. } { done. } { done. } { rewrite dist_self. apply dist_range. }
  { rewrite <-size_dom. apply Nat2Z.inj_le, subseteq_size. set_solver. }
  rewrite E. cbn [mbind option_bind app]. set (st2 := set_reliability _ st).
  assert (forall i, uf_netPkt <$> m_unackedFrags r !! i = uf_netPkt <$> m2 !! i) as Hsame2.
  { intros i. rewrite Hm2. pose proof (insert_same_netPkt ackSeq f (set_timer None f) _ Hk eq_refl i) as Hs. fold m1 in Hs. rewrite Hs.
    destruct (decide _); [|done]. by destruct (m1 !! i). }
  assert (m2 !! ackSeq = Some (set_timer None f)) as Hm2k.
  { rewrite Hm2, decide_False by lia. unfold m1. by rewrite lookup_insert_eq. }
  pose proof (frags_dom _ _ Hsame2) as Hdom2.
  assert (forall i, is_Some (m2 !! i) <-> is_Some (m_unackedFrags r1 !! i)) as Hdom21.
  { intros i. rewrite Hdom2, Hm1. unfold m1. destruct (decide (i = ackSeq)) as [->|]; [rewrite lookup_insert_eq, Hk; split; by eexists|by rewrite lookup_insert_ne]. }
  destruct (window_ext m2 r1 Hdom21 Hw1) as [Hw2 Hs2].
  destruct (acked_ok ackSeq (set_timer None f) st2) as (st3 & -> & Hok3 & Hf3 & Hm3 & Hs3 & _); try done.
  - simpl. rewrite Hn1. by eapply consistent_ext.
  - simpl. by rewrite Hn1.
  - simpl. intros i g Hg Hne. rewrite Hm2 in Hg. unfold m1 in Hg. rewrite lookup_insert_ne in Hg by done.
    destruct (m_unackedFrags r !! i) as [g0|] eqn:Eg; [|by destruct (decide _)]. pose proof (Hf i g0 Eg) as Hg0.
    destruct (decide _); injection Hg as <-; [|done]. exact Hg0.
  - destruct Hacc as [q Hacc]. exists q. simpl. rewrite Hn1. by rewrite <-(live_ext _ _ Hsame2).
  - cbn [mbind option_bind]. simpl in Hm3, Hs3.
    assert (forall i, i ∈ lost -> is_Some (m_unackedFrags (m_reliability st3) !! i)) as Hin.
    { intros i (Hd & g & Hg & _)%Hlost. rewrite Hm3, lookup_delete_ne by (intros <-; lia). by eexists. }
    pose proof (NoDup_size_le lost _ Hnd Hin) as Hlen.
    assert (size (m_unackedFrags (m_reliability st3)) <= size (m_unackedFrags r))%nat as Hsz.
    { apply size_dom_le. intros i. rewrite Hm3. intros [x [_ Hx]%lookup_delete_Some]. apply Hdom2. by eexists. }
    destruct (loseAll_ok now lost [] st3 Hok3) as (st4 & -> & Hok4 & Hf4 & Hs4 & Hz4); [intros i Hi'; right; by apply Hin|lia|].
    exists st4. split_and!; [done|done| |fold r; lia|fold r; lia]. etrans; [apply (frame_rel (set_unackedFrags m2 r1)); simpl; [by rewrite Hid1|by rewrite Hq1]|]. by etrans.
Qed.

Lemma processAcks_ok now acks : forall st, link_ok st ->
  span (m_reliability st) + Z.of_nat (length acks) * Z.of_nat (size (m_unackedFrags (m_reliability st))) <= 2 ^ 64 ->
  exists st', processAcks getSendQueueLength now acks st = Some st' /\ link_ok st' /\ link_frame st st' /\
    span (m_reliability st') <= span (m_reliability st) + Z.of_nat (length acks) * Z.of_nat (size (m_unackedFrags (m_reliability st))) /\
    (size (m_unackedFrags (m_reliability st')) <= size (m_unackedFrags (m_reliability st)))%nat.
Proof.
  induction acks as [|a acks IH]; intros st Hok Hspan; simpl length in *.
  - exists st. split_and!; [done|done|done|lia|lia].
  - cbn [processAcks]. destruct (processAck_ok now a st Hok) as (st1 & -> & Hok1 & Hf1 & Hs1 & Hz1); [nia|]. cbn [mbind option_bind].
    destruct (IH st1 Hok1) as (st' & E & Hok' & Hf' & Hs' & Hz'); [nia|]. exists st'. split_and!; [done|done|by etrans|nia|lia].
Qed.

(** ** Storing what is sent *)

Lemma map_begin_singleton {A} k (x : A) : map_begin (<[k := x]> ∅) = Some k.
Proof.
  pose proof (map_begin_spec (<[k := x]> (∅ : gmap Z A))) as Hb. destruct (map_begin _) as [j|].
  - destruct Hb as [[y Hy] _]. rewrite lookup_insert_Some, lookup_empty in Hy. by destruct Hy as [[-> _]|[_ ?]].
  - by apply insert_non_empty in Hb.
Qed.

Lemma storeFrag_ok max now id np p r : 0 <= max -> rel_ok max r -> r_netPkts r !! id = Some np -> np_exact (m_unackedFrags r) id np -> span r < 2 ^ 64 ->
  exists r' np' s, storeFrag now id p r = Some (set_txSequence s p, r') /\ rel_ok max r' /\
    r_netPkts r' !! id = Some np' /\ np_exact (m_unackedFrags r') id np' /\ span r' <= span r + 1 /\
    live (m_unackedFrags r') = {[id]} ∪ live (m_unackedFrags r) /\ length (r_netPkts r') = length (r_netPkts r).
Proof.
  intros Hmax [Hw Hc Hi Hf] Hnp Hex Hspan. unfold storeFrag. destruct (assign_ok p r Hw Hspan) as (E & Htx & Hnew). rewrite E.
  set (tx := u64 _) in *. cbn [mbind option_bind set_lastTxSeqNo m_unackedFrags].
  set (fr := mkUnackedFrag (set_txSequence tx p) (schedule now r) now 0 0 id).
  assert (alter (fun f => mkUnackedFrag (uf_pkt f) (schedule now (set_lastTxSeqNo tx r)) now (uf_retxCount f) (uf_nGreaterSeqAcks f) id) tx
    (emplace tx (mkUnackedFrag (set_txSequence tx p) None now 0 0 id) (m_unackedFrags r)) = <[tx := fr]> (m_unackedFrags r)) as Em.
  { unfold emplace. rewrite Hnew. apply map_eq. intros i. destruct (decide (i = tx)) as [->|Hne].
    - by rewrite lookup_alter_eq, !lookup_insert_eq.
    - by rewrite lookup_alter_ne, !lookup_insert_ne by congruence. }
  cbn [set_lastTxSeqNo] in Em. rewrite Em. clear Em E.
  destruct (extend_ok fr r Hw Hspan) as [Hw1 Hs1]. fold tx in Hw1, Hs1.
  set (r1 := if (size _ =? 1)%nat then _ else _).
  assert (r1 = set_firstUnackedFrag (match m_firstUnackedFrag r with None => Some tx | Some f => Some f end)
    (set_unackedFrags (<[tx := fr]> (m_unackedFrags r)) (set_lastTxSeqNo tx r))) as ->.
  { unfold r1. rewrite map_size_insert_None by done. destruct Hw as [_ _ Hfirst]. destruct (m_firstUnackedFrag r) as [f0|] eqn:Ef.
    - destruct Hfirst as [[x Hx] _]. assert (size (m_unackedFrags r) <> 0%nat).
      { intros Hz%map_size_empty_inv. by rewrite Hz, lookup_empty in Hx. }
      rewrite (proj2 (Nat.eqb_neq _ _)) by lia. unfold set_firstUnackedFrag, set_unackedFrags, set_lastTxSeqNo. simpl. by rewrite Ef.
    - rewrite Hfirst, map_size_empty. simpl. by rewrite map_begin_singleton. }
  set (r2 := set_firstUnackedFrag _ _) in *. change (r_netPkts r2) with (r_netPkts r). rewrite Hnp. cbn [mbind option_bind].
  destruct (consistent_push _ _ id np tx fr Hnew eq_refl Hnp Hex Hc) as [Hc2 Hex2].
  eexists _, _, tx. split; [done|]. split_and!.
  - constructor; simpl; [by destruct Hw1|done| |].
    + rewrite Forall_forall in Hi. apply Forall_insert; [by apply Forall_forall|]. intros Hint. apply (Hi np); [by eapply list_elem_of_lookup_2|done].
    + apply map_Forall_insert_2; [|done]. split_and!; [done|by eexists|simpl; lia|simpl; lia].
  - simpl. apply list_lookup_insert_eq. by eapply lookup_lt_Some.
  - done.
  - exact Hs1.
  - simpl. by rewrite live_insert.
  - simpl. by rewrite length_insert.
Qed.

Lemma storeFrags_ok max now id ps : 0 <= max -> forall np r, rel_ok max r -> r_netPkts r !! id = Some np -> np_exact (m_unackedFrags r) id np ->
  span r + Z.of_nat (length ps) <= 2 ^ 64 ->
  exists r' ps', storeFrags now id ps r = Some (ps', r') /\ rel_ok max r' /\ Forall2 (fun p p' => exists s, p' = set_txSequence s p) ps ps' /\
    live (m_unackedFrags r') = (if decide (ps = []) then live (m_unackedFrags r) else {[id]} ∪ live (m_unackedFrags r)) /\
    length (r_netPkts r') = length (r_netPkts r) /\ span r' <= span r + Z.of_nat (length ps).
Proof.
  intros Hmax. induction ps as [|p ps IH]; intros np r Hr Hnp Hex Hspan; simpl length in *.
  - exists r, []. split_and!; try done. simpl. lia.
  - cbn [storeFrags]. destruct (storeFrag_ok max now id np p r Hmax Hr Hnp Hex) as (r1 & np1 & s & -> & Hr1 & Hnp1 & Hex1 & Hs1 & Hl1 & Hn1); [lia|].
    cbn [mbind option_bind]. destruct (IH np1 r1 Hr1 Hnp1 Hex1) as (r' & ps' & -> & Hr' & Hall & Hl' & Hn' & Hs'); [lia|]. cbn [mbind option_bind].
    exists r', (set_txSequence s p :: ps'). split_and!; [done|done| | |lia|lia].
    + constructor; [by exists s|done].
    + rewrite decide_False by done. rewrite Hl', Hl1. destruct (decide _); [done|]. by rewrite (assoc_L (∪)), union_idemp_L.
Qed.

Lemma consistent_new m nps np : consistent m nps -> np_unackedFrags np = [] ->
  consistent m (nps ++ [np]) /\ np_exact m (length nps) np /\ length nps ∉ live m.
Proof.
  intros Hc Hnp. assert (length nps ∉ live m) as Hnew.
  { intros Hl. destruct (Hc _ Hl) as (np' & Hlook & _). apply lookup_lt_Some in Hlook. lia. }
  split_and!; [|split|done].
  - intros id Hid. destruct (Hc id Hid) as (np' & Hlook & Hex). exists np'. split; [|done]. apply lookup_app_l_Some. done.
  - rewrite Hnp. constructor.
  - intros k. rewrite Hnp. split; [by intros ?%not_elem_of_nil|]. intros (f & Hf & Hid). exfalso. apply Hnew, elem_of_live. by exists k, f.
Qed.

Lemma handleOutgoing_ok now ps pkt isInterest st : link_ok st -> ps <> [] -> np_ok (mkNetPkt [] pkt isInterest false) ->
  span (m_reliability st) + Z.of_nat (length ps) <= 2 ^ 64 ->
  exists r' ps', handleOutgoing now ps pkt isInterest (m_reliability st) = Some (ps', r') /\ link_ok (set_reliability r' st) /\
    Forall2 (fun p p' => exists s, p' = set_txSequence s p) ps ps' /\ span r' <= span (m_reliability st) + Z.of_nat (length ps).
Proof.
  intros [Hmax [Hw Hc Hi Hf] [q Hacc]] Hne Hok Hspan. unfold handleOutgoing. set (r := m_reliability st) in *.
  set (np := mkNetPkt [] pkt isInterest false) in *. destruct (consistent_new _ _ np Hc eq_refl) as (Hc1 & Hex1 & Hnew).
  destruct (storeFrags_ok (maxRetx (m_options st)) now (length (r_netPkts r)) ps Hmax np (set_netPkts (r_netPkts r ++ [np]) r))
    as (r' & ps' & E & Hr' & Hall & Hl & Hlen & Hs).
  - constructor; simpl; [by destruct Hw|done| |done]. apply Forall_app. split; [done|]. by apply Forall_singleton.
  - simpl. by rewrite lookup_app_r, Nat.sub_diag by lia.
  - done.
  - exact Hspan.
  - exists r', ps'. split_and!; [done| |done|exact Hs]. constructor; simpl; [done|done|]. exists q. simpl. rewrite Hl, decide_False by done. simpl.
    rewrite size_union, size_singleton by (by apply disjoint_singleton_l). simpl in Hlen. rewrite Hlen, length_app. simpl. lia.
Qed.

(** ** Loss detection and retransmission *)

(** When a fragment is acknowledged, exactly the fragments before it in the
    window - in the order of the TxSequence numbers modulo 2^64 from the first
    unacknowledged one - get one more Ack of a greater number, and exactly those
    of them that have reached the threshold are reported as lost, each once. The
    loop over the map ends, also when it goes past the end to the beginning. *)
Theorem loss_detection threshold ackSeq r first :
  window_ok r -> m_firstUnackedFrag r = Some first -> is_Some (m_unackedFrags r !! ackSeq) ->
  exists lost m', findLostLpPackets threshold ackSeq r = Some (lost, set_unackedFrags m' r) /\ NoDup lost /\
    forall i, m' !! i = (if decide (dist first i < dist first ackSeq) then incr_greater <$> m_unackedFrags r !! i else m_unackedFrags r !! i) /\
      (i ∈ lost <-> dist first i < dist first ackSeq /\ exists f, m' !! i = Some f /\ threshold <= uf_nGreaterSeqAcks f).
Proof.
  intros Hw Hfirst Hack. destruct (first_valid r first Hw Hfirst) as [_ Hf]. pose proof Hw as [_ Hkeys Hwin]. rewrite Hfirst in Hwin.
  destruct Hwin as [Hfin _]. unfold findLostLpPackets. rewrite Hfirst.
  pose proof (dist_range first) as Hr. unfold in64 in Hr.
  destruct (findLost_spec threshold ackSeq first Hf (size (m_unackedFrags r)) (Some first) (m_unackedFrags r) [] first) as (lost & m' & E & Hm & Hl & Hnd);
    [done|done|done|done|rewrite dist_self; apply Hr|rewrite <-size_dom; apply Nat2Z.inj_le, subseteq_size; intros j [_ Hj]%elem_of_filter; done|].
  rewrite E. exists lost, m'. split_and!; [done|done|]. intros i. rewrite Hm, Hl, dist_self, Hm, dist_self. specialize (Hr i). split.
  - apply decide_ext. lia.
  - split; [intros [[_ Hd] Hx]; by split|]. intros [Hd Hx]. split; [|done]. lia.
Qed.

(** A fragment that is considered lost, by its timer or by Acks of greater
    numbers, is sent again under the next TxSequence number, which no stored
    fragment has, while it has been sent again fewer than [maxRetx] times: it
    replaces its old entry, with one more retransmission, and all other fragments
    stay. When the limit is reached all fragments of the network packet are
    removed, and no others. In both cases the invariant holds after it. *)
Theorem lost_fragment now k f st : link_ok st -> m_unackedFrags (m_reliability st) !! k = Some f -> span (m_reliability st) < 2 ^ 64 ->
  exists removed st', onLpPacketLost getSendQueueLength now k st = Some (removed, st') /\ link_ok st' /\
    let new := u64 (m_lastTxSeqNo (m_reliability st) + 1) in
    if decide (uf_retxCount f < maxRetx (m_options st)) then
      removed = [k] /\ m_unackedFrags (m_reliability st) !! new = None /\
      exists f', m_unackedFrags (m_reliability st') = <[new := f']> (delete k (m_unackedFrags (m_reliability st))) /\
        uf_pkt f' = set_txSequence new (uf_pkt f) /\ uf_retxCount f' = uf_retxCount f + 1 /\ uf_netPkt f' = uf_netPkt f
    else forall i, m_unackedFrags (m_reliability st') !! i =
      match m_unackedFrags (m_reliability st) !! i with Some g => if decide (uf_netPkt g = uf_netPkt f) then None else Some g | None => None end.
Proof.
  intros Hok Hk Hspan. destruct (decide (uf_retxCount f < maxRetx (m_options st))) as [Hlt|Hge].
  - destruct (lost_retx now k f st Hok Hk Hlt Hspan) as (st' & E & Hok' & _ & Hf' & Hnew & _). exists [k], st'. by split_and!.
  - destruct (lost_exhausted now k f st Hok Hk ltac:(lia)) as (removed & st' & E & Hok' & _ & _ & _ & _ & Hm & _ & Hgone).
    exists removed, st'. split_and!; [done|done|]. intros i. apply Hgone.
Qed.
End Reliability.
