(* ===== verification/LinkSafety.v ===== *)
(** * Runs of the link service

    Every handler of the link service, from the packets that forwarding sends to
    the timers, keeps the invariant of [LpReliability] and does not fail; Acks fit
    the MTU; congestion marks follow the CoDel control law. *)

From S2P Require Import Prelude Fp RttEstimator Face LpFragmentation LinkService LpReliability.
Local Open Scope Z_scope.

Section Safety.
Context {NH PA : Type} `{!LinkCodec NH PA}.
Notation LpPacket := (LpPacket (LpHeaders NH PA)).
Notation LpReliability := (@LpReliability NH PA).
Notation LinkService := (@LinkService NH PA _).
Implicit Types (p pkt : LpPacket) (r : LpReliability) (st : LinkService) (now : Z).

(** ** Acks and the MTU *)

Lemma ackSize_12 : ackSize = 12.
Proof. unfold ackSize, TLV_Ack. rewrite sizeOfVarNumber_3, sizeOfVarNumber_1 by lia. lia. Qed.

Lemma sizeOfVarNumber_mono a b : 0 <= a <= b -> b < 2 ^ 64 -> sizeOfVarNumber a <= sizeOfVarNumber b.
Proof.
  intros Hab Hb.
  destruct (Z.lt_ge_cases a 253), (Z.lt_ge_cases b 253), (Z.lt_ge_cases a 65536), (Z.lt_ge_cases b 65536),
    (Z.lt_ge_cases a (2 ^ 32)), (Z.lt_ge_cases b (2 ^ 32)); try lia;
  repeat first [rewrite sizeOfVarNumber_1 by lia | rewrite sizeOfVarNumber_3 by lia | rewrite sizeOfVarNumber_5 by lia | rewrite sizeOfVarNumber_9 by lia]; lia.
Qed.

Lemma sizeOfVarNumber_pos n : 0 <= n < 2 ^ 64 -> 1 <= sizeOfVarNumber n.
Proof. intros Hn. rewrite <-(sizeOfVarNumber_1 0) by lia. apply sizeOfVarNumber_mono; lia. Qed.

Lemma MAX_size : sizeOfVarNumber MAX_NDN_PACKET_SIZE = 3.
Proof. pose proof max_packet_size. by rewrite sizeOfVarNumber_3 by lia. Qed.

Definition acks_of p : list Z := default [] (lh_ack (lp_headers p)).

(** The Acks go from the front of the queue to the packet, in their order; as long
    as there is room, all of them. *)
Lemma attachAcks_spec l : forall space p p' q, is_Some (lh_ack (lp_headers p)) -> attachAcks space l p = (p', q) ->
  exists n, take n l ++ q = l /\ acks_of p' = acks_of p ++ take n l /\ is_Some (lh_ack (lp_headers p')) /\
    valueSize p' = valueSize p + 12 * Z.of_nat n /\ (n <= length l)%nat /\ (0 < Z.of_nat n -> 12 * Z.of_nat n <= space) /\
    (q = [] \/ space < 12 * (Z.of_nat n + 1)) /\ bare p' = (bare p && (n =? 0)%nat) /\ lp_fragment p' = lp_fragment p.
Proof.
  induction l as [|a l IH]; intros space p p' q Hp; cbn [attachAcks].
  - intros [= <- <-]. exists 0%nat. rewrite !app_nil_r, andb_true_r. split_and!; try done; try lia. by left.
  - rewrite ackSize_12. destruct (Z.ltb_spec space 12) as [Hs|Hs].
    + intros [= <- <-]. exists 0%nat. rewrite !app_nil_r, andb_true_r. split_and!; try done; try lia.
    + intros E. assert (is_Some (lh_ack (lp_headers (add_ack a p)))) as Hp1 by (destruct Hp as [x Hx]; simpl; rewrite Hx; by eexists).
      destruct (IH _ _ _ _ Hp1 E) as (n & H1 & H2 & H3 & H4 & H5 & H6 & H7 & H8 & H9). exists (S n). split_and!; try done.
      * simpl. by rewrite H1.
      * rewrite H2. unfold acks_of. simpl. destruct Hp as [x Hx]. rewrite Hx. simpl. by rewrite <-app_assoc.
      * rewrite H4, valueSize_ack by done. lia.
      * simpl. lia.
      * intros _. destruct n; lia.
      * destruct H7 as [->|H7]; [by left|right; lia].
      * rewrite H8, andb_false_r. destruct Hp as [x Hx]. unfold bare. simpl. rewrite Hx. simpl.
        destruct (lp_fragment p), (lp_sequence p), (lp_fragIndex p), (lp_fragCount p); try done. by destruct (x ++ [a]) eqn:Ea; [destruct x|].
Qed.

(** The space the transport offers. *)
Definition mtu_space (mtu : Z) : Z := if mtu =? MTU_UNLIMITED then MAX_NDN_PACKET_SIZE else mtu.

Definition is_size (n : Z) : Prop := 0 <= n < 2 ^ 32.

Lemma piggyback_spec p mtu r p' r' : is_Some (lh_ack (lp_headers p)) -> piggyback p mtu r = Some (p', r') ->
  exists n, m_ackQueue r = take n (m_ackQueue r) ++ m_ackQueue r' /\ acks_of p' = acks_of p ++ take n (m_ackQueue r) /\
    valueSize p' = valueSize p + 12 * Z.of_nat n /\ bare p' = false /\ r' = set_ackQueue (m_ackQueue r') r /\
    let room := mtu_space mtu - (3 - sizeOfVarNumber (wireSize p)) - wireSize p in
    (0 < Z.of_nat n -> 12 * Z.of_nat n <= room) /\ (m_ackQueue r' = [] \/ room < 12 * (Z.of_nat n + 1)).
Proof.
  intros Hp. unfold piggyback. destruct (bare p) eqn:Hb; [done|]. rewrite MAX_size. fold (mtu_space mtu).
  destruct (attachAcks _ _ _) as [p1 q] eqn:E. intros [= <- <-].
  destruct (attachAcks_spec _ _ _ _ _ Hp E) as (n & H1 & H2 & H3 & H4 & H5 & H6 & H7 & H8 & H9).
  exists n.
  split_and!; simpl; try done. by rewrite H8, Hb.
Qed.

(** The Acks that [piggyback] attaches are the first of the queue, in order,
    and nothing of the queue is lost; it stops only when the queue is empty or no
    other Ack has room. A packet that fits the MTU still fits with its Acks,
    except by the growth of the TLV-LENGTH from one to three octets when its own
    size is 253 or 254: then it can exceed the MTU by at most two octets. *)
Theorem piggyback_fits p mtu r : is_Some (lh_ack (lp_headers p)) -> bare p = false -> 0 <= valueSize p < 2 ^ 32 - 5 ->
  0 <= mtu_space mtu < 65536 -> wireSize p <= mtu_space mtu ->
  exists p' r' n, piggyback p mtu r = Some (p', r') /\
    m_ackQueue r = take n (m_ackQueue r) ++ m_ackQueue r' /\ acks_of p' = acks_of p ++ take n (m_ackQueue r) /\
    (m_ackQueue r' = [] \/ mtu_space mtu < wireSize p' + 12 + 2) /\
    wireSize p' <= mtu_space mtu + (if (wireSize p =? 253) || (wireSize p =? 254) then 2 else 0).
Proof.
  intros Hp Hb Hv Hmtu Hfit. destruct (piggyback p mtu r) as [[p' r']|] eqn:E; [|unfold piggyback in E; rewrite Hb in E; by destruct (attachAcks _ _ _)].
  destruct (piggyback_spec p mtu r p' r' Hp E) as (n & H1 & H2 & H3 & H4 & _ & Hroom & Hstop). exists p', r', n. split; [done|].
  pose proof (wireSize_value p Hb) as Hw. pose proof (wireSize_value p' H4) as Hw'.
  assert (1 <= sizeOfVarNumber (valueSize p)) as Hpos by (apply sizeOfVarNumber_pos; lia).
  assert (valueSize p < 253 -> sizeOfVarNumber (valueSize p) = 1) as Hs1 by (intros; apply sizeOfVarNumber_1; lia).
  assert (253 <= valueSize p -> valueSize p < 65536 /\ sizeOfVarNumber (valueSize p) = 3) as Hs3.
  { intros Hge. split; [lia|]. apply sizeOfVarNumber_3. lia. }
  assert (0 <= wireSize p < 65536) as Hwr by lia.
  assert (wireSize p < 253 -> sizeOfVarNumber (wireSize p) = 1) as Hp1 by (intros; apply sizeOfVarNumber_1; lia).
  assert (253 <= wireSize p -> sizeOfVarNumber (wireSize p) = 3) as Hp3 by (intros; apply sizeOfVarNumber_3; lia).
  assert (0 <= valueSize p' < 65536 + 12) as Hvr'.
  { destruct (decide (Z.of_nat n = 0)) as [E0|E0]; [lia|]. specialize (Hroom ltac:(lia)). destruct (Z.lt_ge_cases (wireSize p) 253); lia. }
  assert (valueSize p' < 253 -> sizeOfVarNumber (valueSize p') = 1) as Hq1 by (intros; apply sizeOfVarNumber_1; lia).
  assert (253 <= valueSize p' < 65536 -> sizeOfVarNumber (valueSize p') = 3) as Hq3 by (intros; apply sizeOfVarNumber_3; lia).
  assert (valueSize p' < 65536) as Hvr''.
  { destruct (decide (Z.of_nat n = 0)) as [E0|E0]; [lia|]. specialize (Hroom ltac:(lia)). destruct (Z.lt_ge_cases (wireSize p) 253); lia. }
  split_and!; [done|done| |].
  - destruct Hstop as [Hstop|Hstop]; [by left|right].
    destruct (Z.lt_ge_cases (valueSize p) 253), (Z.lt_ge_cases (valueSize p') 253), (Z.lt_ge_cases (wireSize p) 253); lia.
  - destruct (Z.eqb_spec (wireSize p) 253), (Z.eqb_spec (wireSize p) 254); simpl;
    destruct (decide (Z.of_nat n = 0)) as [E0|E0];
      try (assert (valueSize p' = valueSize p) as Heq by lia; rewrite Heq in *; lia);
      specialize (Hroom ltac:(lia));
      destruct (Z.lt_ge_cases (valueSize p) 253), (Z.lt_ge_cases (valueSize p') 253), (Z.lt_ge_cases (wireSize p) 253); lia.
Qed.

(** The packet of 253 octets: the Ack that is attached makes its TLV-LENGTH grow
    by two octets, for which [piggyback] reserves no space. *)
Lemma ack_overflow p mtu r a q : is_Some (lh_ack (lp_headers p)) -> bare p = false -> valueSize p = 251 -> mtu = 265 -> m_ackQueue r = a :: q ->
  exists p', piggyback p mtu r = Some (p', set_ackQueue q r) /\ wireSize p' = 267.
Proof.
  intros Hp Hb Hv -> Hq. pose proof (wireSize_value p Hb) as Hw. rewrite Hv, (sizeOfVarNumber_1 251) in Hw by lia.
  unfold piggyback. rewrite Hb, Hq, Hw, MAX_size, (sizeOfVarNumber_3 (1 + 1 + 251)) by lia. cbn [attachAcks]. rewrite ackSize_12.
  change (265 =? MTU_UNLIMITED) with false. cbv iota. change (265 - (3 - 3) - (1 + 1 + 251)) with 12. change (12 <? 12) with false. cbv iota.
  change (12 - 12) with 0.
  assert (attachAcks 0 q (add_ack a p) = (add_ack a p, q)) as -> by (destruct q; cbn [attachAcks]; [done|by rewrite ackSize_12]).
  eexists. split; [done|]. rewrite wireSize_value.
  - rewrite valueSize_ack, Hv, sizeOfVarNumber_3 by (done || lia). lia.
  - destruct Hp as [l Hl]. unfold bare. simpl. rewrite Hl. destruct (lp_fragment p), (lp_sequence p), (lp_fragIndex p), (lp_fragCount p); try done.
    simpl. by destruct l.
Qed.

(** ** Congestion marking *)

Lemma markInterval_bounds base n : 0 <= base < 2 ^ 53 -> 1 <= n < 2 ^ 53 -> 0 <= markInterval base n <= base.
Proof.
  intros Hb Hn. unfold markInterval. rewrite to_int_def, fdiv_def, !double_micros by lia.
  assert (units <= micros n) as Hun by (unfold micros; pose proof units_pos; nia).
  pose proof (fsqrt_ge_one 53 ltac:(lia) 1074 (micros n) ltac:(lia) Hun) as Hs. pose proof units_pos as Hu.
  set (S := double_sqrt (micros n)) in *. pose proof (micros_repr base Hb) as Hrep. unfold micros in *. set (u := units) in *. clearbody u S.
  assert (0 <= fround 53 (base * u * u) S <= base * u) as Hr.
  { split; [apply fround_nonneg; nia|]. apply fround_le_repr; [lia|lia|nia|done|]. apply Z.mul_le_mono_nonneg_l; nia. }
  rewrite Z.quot_div_nonneg by lia. split; [apply Z.div_pos; lia|]. apply Z.div_le_upper_bound; lia.
Qed.

(** The sum of the intervals after the first [n] marks of an incident: the base
    interval over the square roots of 1, 2, ..., [n]. *)
Fixpoint intervals (base : Z) (n : nat) : Z :=
  match n with O => 0 | S k => intervals base k + markInterval base (Z.of_nat (S k)) end.

(** The state of marking. In an incident of congestion that started at [t0] and
    has had [S k] marks, the next is due after [S k] intervals, and the last was
    not made before [k] intervals. *)
Definition mark_ok (base : Z) (m : Marking) : Prop :=
  match m_nextMarkTime m with
  | None => m_nMarkedSinceInMarkingState m = 0
  | Some next => exists (k : nat) t0 last, m_nMarkedSinceInMarkingState m = Z.of_nat (S k) /\ m_lastMarkTime m = Some last /\
      next = t0 + intervals base (S k) /\ t0 + intervals base k <= last
  end.

(** Whether a packet is to be marked: the first of an incident not within a base
    interval of the last mark, the others when they are due. *)
Definition mark_due (base now : Z) (m : Marking) : bool :=
  if m_nMarkedSinceInMarkingState m =? 0
  then match m_lastMarkTime m with Some last => last + base <=? now | None => true end
  else ge_time now (m_nextMarkTime m).

Definition congested (o : Options) (capacity len : Z) : bool :=
  (if 0 <=? capacity then Z.min (defaultCongestionThreshold o) (capacity / DEFAULT_CONGESTION_THRESHOLD_DIVISOR)
   else defaultCongestionThreshold o) <? len.

Context (getSendQueueLength : Z -> list LinkEvent -> Z).

Lemma check_spec now p st : let base := baseCongestionMarkingInterval (m_options st) in
  let len := getSendQueueLength now (l_trace st) in
  0 <= base < 2 ^ 53 -> m_nMarkedSinceInMarkingState (m_marking st) < 2 ^ 53 - 1 -> mark_ok base (m_marking st) ->
  let '(p', st') := checkCongestionLevel getSendQueueLength now p st in
  mark_ok base (m_marking st') /\ m_options st' = m_options st /\ l_transport st' = l_transport st /\ l_trace st' = l_trace st /\
  m_nMarkedSinceInMarkingState (m_marking st') <= m_nMarkedSinceInMarkingState (m_marking st) + 1 /\
  p' = if (0 <=? len) && congested (m_options st) (t_sendQueueCapacity (l_transport st)) len && mark_due base now (m_marking st)
       then set_congestionMark 1 p else p.
Proof.
  intros base len Hbase Hn Hm. unfold checkCongestionLevel. fold len base.
  assert (0 <= m_nMarkedSinceInMarkingState (m_marking st)) as Hn0.
  { unfold mark_ok in Hm. destruct (m_nextMarkTime (m_marking st)); [destruct Hm as (k & t0 & last & -> & _); lia|lia]. }
  destruct (Z.ltb_spec len 0) as [Hl|Hl]; [rewrite (proj2 (Z.leb_gt 0 len)) by lia; split_and!; try done; lia|].
  rewrite (proj2 (Z.leb_le 0 len)) by lia. fold (congested (m_options st) (t_sendQueueCapacity (l_transport st)) len). cbn [andb].
  destruct (congested _ _ _); cbn [andb].
  - assert (ge_time now (m_nextMarkTime (m_marking st)) ||
      match m_lastMarkTime (m_marking st) with Some t => t + base <=? now | None => true end = mark_due base now (m_marking st)) as ->.
    { unfold mark_due, mark_ok in *. destruct (m_nextMarkTime (m_marking st)) as [next|].
      - destruct Hm as (k & t0 & last & E & -> & -> & Hle). rewrite (proj2 (Z.eqb_neq _ _)) by lia. cbn [ge_time].
        destruct (Z.leb_spec (t0 + intervals base (S k)) now) as [|Hlt]; [done|]. simpl. apply Z.leb_gt. cbn [intervals] in *.
        pose proof (markInterval_bounds base (Z.of_nat (S k)) Hbase ltac:(lia)). lia.
      - by rewrite Hm. }
    destruct (mark_due base now (m_marking st)) eqn:Hdue; [|split_and!; try done; lia].
    assert (u64 (m_nMarkedSinceInMarkingState (m_marking st) + 1) = m_nMarkedSinceInMarkingState (m_marking st) + 1) as -> by (apply u64_id; lia).
    split_and!; try done. unfold mark_ok, mark_due in *. simpl. destruct (m_nextMarkTime (m_marking st)) as [next|].
    + destruct Hm as (k & t0 & last & E & El & -> & Hle). rewrite E in *. rewrite (proj2 (Z.eqb_neq _ _)) in * by lia. cbn [ge_time] in Hdue.
      exists (S k), t0, now. split_and!; [lia|done| |]. { replace (Z.of_nat (S (S k))) with (Z.of_nat (S k) + 1) by lia. unfold default. simpl from_option. unfold id. lia. } lia.
    + rewrite Hm in *. exists 0%nat, now, now. split_and!; [done|done| |]. { cbn [intervals]. change (Z.of_nat 1) with 1. change (0 + 1) with 1. change (0 =? 0) with true. cbv iota. lia. } cbn [intervals]. lia.
  - destruct (m_nextMarkTime (m_marking st)) eqn:En; split_and!; try done; simpl; lia.
Qed.

(** A sequence of packets that are sent, with the times. *)
Fixpoint check_all (calls : list (Z * LpPacket)) st : LinkService :=
  match calls with [] => st | (now, p) :: calls => check_all calls (checkCongestionLevel getSendQueueLength now p st).2 end.

Lemma check_all_ok calls : forall st (j : Z), let base := baseCongestionMarkingInterval (m_options st) in
  0 <= base < 2 ^ 53 -> mark_ok base (m_marking st) -> m_nMarkedSinceInMarkingState (m_marking st) <= j -> j + Z.of_nat (length calls) < 2 ^ 53 ->
  mark_ok base (m_marking (check_all calls st)) /\ m_options (check_all calls st) = m_options st /\
  l_trace (check_all calls st) = l_trace st /\ l_transport (check_all calls st) = l_transport st /\
  m_nMarkedSinceInMarkingState (m_marking (check_all calls st)) <= j + Z.of_nat (length calls).
Proof.
  induction calls as [|[now p] calls IH]; intros st j base Hb Hm Hn Hj; simpl length in *; [split_and!; try done; simpl; lia|].
  assert (m_nMarkedSinceInMarkingState (m_marking st) < 2 ^ 53 - 1) as Hn1 by lia.
  cbn [check_all]. pose proof (check_spec now p st Hb Hn1 Hm) as Hc. destruct (checkCongestionLevel _ _ _ _) as [p' st'] eqn:E. simpl.
  destruct Hc as (Hm' & Ho & Ht & Htr & Hn' & _). destruct (IH st' (j + 1)) as (H1 & H2 & H3 & H4 & H5).
  - by rewrite Ho.
  - by rewrite Ho.
  - lia.
  - lia.
  - rewrite Ho in *. split_and!; [done|done|congruence|congruence|lia].
Qed.

(** Congestion marks follow the control law of CoDel. Whatever the length of
    the send queue does and whenever packets are sent, the [n]-th mark of an
    incident of congestion that starts at [t0] is not made before the sum of the
    base interval over the square roots of 1 to [n - 1] has passed since [t0]. A
    packet is marked exactly when the queue is congested and a mark is due; the
    first mark of an incident comes at least a base interval after the last mark
    of the one before. *)
Theorem marking_control_law calls now p st :
  let base := baseCongestionMarkingInterval (m_options st) in
  let st' := check_all calls st in
  let len := getSendQueueLength now (l_trace st) in
  0 <= base < 2 ^ 53 -> m_marking st = mkMarking None None 0 -> Z.of_nat (length calls) < 2 ^ 53 - 1 ->
  mark_ok base (m_marking st') /\
  (checkCongestionLevel getSendQueueLength now p st').1 =
    if (0 <=? len) && congested (m_options st) (t_sendQueueCapacity (l_transport st)) len && mark_due base now (m_marking st')
    then set_congestionMark 1 p else p.
Proof.
  intros base st' len Hb Hinit Hlen. destruct (check_all_ok calls st 0 Hb) as (H1 & H2 & H3 & H4 & H5); [|by rewrite Hinit|lia|].
  { rewrite Hinit. done. }
  split; [done|]. pose proof (check_spec now p st') as Hc. unfold st' in *. rewrite H2, H3, H4 in Hc. specialize (Hc Hb ltac:(lia) H1).
  destruct (checkCongestionLevel _ _ _ _) as [p' st2]. by destruct Hc as (_ & _ & _ & _ & _ & ->).
Qed.

(** ** The send path *)

Definition mtu_ok (mtu : Z) : Prop := mtu = MTU_UNLIMITED \/ MIN_MTU <= mtu.

(** A network packet to send: a Fragment that is no fragment, and that decodes
    when it is an Interest. *)
Definition net_ok pkt (isInterest : bool) : Prop :=
  is_Some (lp_fragment pkt) /\ lp_fragIndex pkt = None /\ lp_fragCount pkt = None /\ np_ok (mkNetPkt [] pkt isInterest false).

Lemma interest_net_ok o tags i : net_ok (encodeLpFields o tags (netPacket (wireInterest i))) true.
Proof.
  split_and!; [by eexists|done|done|]. intros _. destruct (interest_roundtrip i) as (b & Hb & _ & Hi). simpl.
  exists (wireInterest i), b, i. by split_and!.
Qed.

Lemma other_net_ok pkt : is_Some (lp_fragment pkt) -> lp_fragIndex pkt = None -> lp_fragCount pkt = None -> net_ok pkt false.
Proof. intros Hf Hi Hc. by split_and!. Qed.

Definition fragmentCount (o : Options) : Z := Z.max 1 (fragmenter_nMaxFragments o).

(** The fields of the state that sending leaves as they are. *)
Record kept st st' : Prop := {
  kept_options : m_options st' = m_options st;
  kept_reassembler : m_reassembler st' = m_reassembler st;
  kept_mtu : t_mtu (l_transport st') = t_mtu (l_transport st);
  kept_idle : m_isIdleAckTimerRunning (m_reliability st') = m_isIdleAckTimerRunning (m_reliability st);
  kept_queue : m_ackQueue (m_reliability st') `suffix_of` m_ackQueue (m_reliability st)
}.

#[global] Instance kept_refl : Reflexive kept.
Proof. intros st. by constructor. Qed.

#[global] Instance kept_trans : Transitive kept.
Proof. intros st1 st2 st3 [? ? ? ? ?] [? ? ? ? ?]. constructor; try congruence. by etrans. Qed.

Lemma frame_kept st st' : link_frame st st' -> kept st st'.
Proof. intros []. by constructor. Qed.

Lemma link_ok_bump c st : c <> nAcknowledged -> c <> nRetransmitted -> c <> nRetxExhausted -> link_ok st -> link_ok (bump c st).
Proof.
  intros H1 H2 H3 [Hm Hr [q Ha]]. constructor; [done|done|]. exists q. simpl. by rewrite !decide_False by congruence.
Qed.

Lemma link_ok_emit e st : link_ok st -> link_ok (emit e st).
Proof. intros [Hm Hr [q Ha]]. constructor; [done|done|]. by exists q. Qed.

Lemma link_ok_frame st st' q : link_ok st -> link_frame st st' -> m_reliability st' = set_ackQueue q (m_reliability st) ->
  (forall c, c <> nOutOverMtu -> c <> nCongestionMarked -> l_counters st' c = l_counters st c) -> link_ok st'.
Proof.
  intros [Hm Hr [x Ha]] Hf Hq Hc. constructor.
  - by rewrite (lf_options _ _ Hf).
  - rewrite (lf_options _ _ Hf), Hq. by apply rel_ok_ackQueue.
  - exists x. rewrite !Hc by done. by rewrite Hq.
Qed.

Lemma assign_state p r x : assignTxSequence p r = Some x -> x.2 = set_lastTxSeqNo x.1.1 r.
Proof.
  unfold assignTxSequence. set (tx := u64 _). destruct (0 <? _)%nat; [|by intros [= <-]].
  destruct (firstTxSeq _) as [f|]; [|done]. simpl. destruct (tx =? f); [done|]. by intros [= <-].
Qed.

Lemma storeFrag_queue now np p r x : storeFrag now np p r = Some x ->
  m_ackQueue x.2 = m_ackQueue r /\ m_isIdleAckTimerRunning x.2 = m_isIdleAckTimerRunning r.
Proof.
  unfold storeFrag. destruct (assignTxSequence p r) as [[[tx frag] r1]|] eqn:E; [|done]. apply assign_state in E. simpl in E. subst r1.
  cbn [mbind option_bind]. destruct (size _ =? 1)%nat; destruct (r_netPkts _ !! np); [|done| |done]; by intros [= <-].
Qed.

Lemma stores_queue now np ps : forall r ps' r', storeFrags now np ps r = Some (ps', r') ->
  m_ackQueue r' = m_ackQueue r /\ m_isIdleAckTimerRunning r' = m_isIdleAckTimerRunning r.
Proof.
  induction ps as [|p ps IH]; intros r ps' r'; cbn [storeFrags]; [by intros [= <- <-]|].
  destruct (storeFrag now np p r) as [[p1 r1]|] eqn:E; [|done]. cbn [mbind option_bind].
  destruct (storeFrags now np ps r1) as [[ps1 r2]|] eqn:E1; [|done]. cbn [mbind option_bind]. intros [= <- <-].
  destruct (IH _ _ _ E1) as [-> ->]. by apply storeFrag_queue in E.
Qed.

Lemma sendNet_ok now pkt isInterest st : link_ok st -> mtu_ok (t_mtu (l_transport st)) -> 1 <= fragmenter_nMaxFragments (m_options st) ->
  net_ok pkt isInterest -> span (m_reliability st) + fragmentCount (m_options st) <= 2 ^ 64 ->
  exists st', sendNetPacket getSendQueueLength now pkt isInterest st = Some st' /\ link_ok st' /\ kept st st'.
Proof.
  intros Hok Hmtu Hn ([b Hb] & Hfi & Hfc & Hnp) Hspan. unfold sendNetPacket. set (o := m_options st) in *.
  set (mtu1 := if isEnabled o && _ then _ else _). set (mtu2 := if allowCongestionMarking o && _ then _ else _).
  assert (mtu2 = MTU_UNLIMITED \/ 0 < mtu2) as Hmtu2.
  { unfold mtu2, mtu1, MTU_UNLIMITED, RESERVED_HEADER_SPACE, CONGESTION_MARK_SIZE, mtu_ok, MTU_UNLIMITED, MIN_MTU in *.
    destruct (isEnabled o), (allowCongestionMarking o); cbn [andb]; destruct Hmtu as [->|Hmtu]; try (left; done); right;
      rewrite ?(proj2 (Z.eqb_neq (t_mtu (l_transport st)) (-1))) by lia; cbn [negb];
      rewrite ?(proj2 (Z.eqb_neq (t_mtu (l_transport st) - (3 + 1 + 8)) (-1))) by lia; cbn [negb]; lia. }
  assert (negb ((mtu2 =? MTU_UNLIMITED) || (0 <? mtu2)) = false) as ->.
  { apply negb_false_iff, orb_true_iff. destruct Hmtu2 as [->|?]; [left|right; by apply Z.ltb_lt]. done. }
  set (fo := if allowFragmentation o && _ then _ else _).
  assert (exists x, fo = Some x /\ match x with None => True | Some frags =>
    exists front rest, frags = front :: rest /\ lp_fragment front <> None /\ (rest = [] -> is_fragment front = false) /\
      Z.of_nat (length frags) <= fragmentCount o end) as (x & -> & Hx).
  { unfold fo, fragmentCount. destruct (allowFragmentation o && negb (mtu2 =? MTU_UNLIMITED)).
    - destruct (fragment_ok (fragmenter_nMaxFragments o) pkt b mtu2 Hb Hfi Hfc Hn) as (x & -> & Hx). exists x. split; [done|].
      destruct x as [frags|]; [|done]. destruct Hx as [[->|(b0 & bs & -> & _ & Hne & Hlen)] _].
      + exists pkt, []. split_and!; [done|by rewrite Hb| |simpl; lia]. intros _. unfold is_fragment. by rewrite Hfi, Hfc.
      + unfold fragments in *. eexists _, _. split_and!; [done|done| |lia]. destruct bs; done.
    - eexists. split; [done|]. exists pkt, []. split_and!; [done|by rewrite Hb| |simpl; lia]. intros _. unfold is_fragment. by rewrite Hfi, Hfc. }
  cbn [mbind option_bind]. destruct x as [frags|].
  2: { eexists. split_and!; [done| |apply frame_kept, frame_bump]. by apply link_ok_bump. }
  destruct Hx as (front & rest & -> & Hfront & Hsingle & Hlen). cbn [head mbind option_bind].
  assert ((length (front :: rest) =? 1)%nat && is_fragment front = false) as ->.
  { destruct rest; [by rewrite Hsingle|done]. }
  set (seqd := if (1 <? _)%nat then _ else _).
  assert (exists frags1 s, seqd = (frags1, set_lastSeqNo s st) /\ frags1 <> [] /\ length frags1 = length (front :: rest)) as (frags1 & sq & -> & Hne1 & Hlen1).
  { unfold seqd. destruct (1 <? _)%nat.
    - pose proof (assign_length (front :: rest) (m_lastSeqNo st)) as Hl. destruct (assignSequences _ _) as [frags1 s1]. simpl in Hl.
      exists frags1, s1. split_and!; [done| |done]. intros ->. done.
    - exists (front :: rest), (m_lastSeqNo st). split_and!; [by destruct st|done|done]. }
  assert (match lp_fragment front with Some _ => true | None => false end = true) as -> by (by destruct (lp_fragment front)).
  rewrite andb_true_r. set (st1 := set_lastSeqNo sq st).
  assert (link_ok st1) as Hok1 by (destruct Hok as [? ? [q Ha]]; constructor; [done|done|by exists q]).
  assert (kept st st1) as Hk1 by done.
  destruct (isEnabled o) eqn:Een.
  - destruct (handleOutgoing_ok now frags1 pkt isInterest st1 Hok1 Hne1 Hnp) as (r2 & frags2 & E2 & Hok2 & Hall & _).
    { rewrite Hlen1. change (m_reliability st1) with (m_reliability st). lia. }
    rewrite E2. cbn [mbind option_bind].
    destruct (sends_ok getSendQueueLength now frags2 (set_reliability r2 st1)) as (st3 & q3 & -> & Hf3 & Hr3 & Hc3).
    { apply Forall_forall. intros p (j & Hj)%list_elem_of_lookup _. destruct (Forall2_lookup_r _ _ _ _ _ Hall Hj) as (p0 & _ & s & ->). apply set_txSequence_bare. }
    exists st3. split_and!; [done|by eapply link_ok_frame|]. etrans; [exact Hk1|]. etrans; [|by apply frame_kept].
    destruct (stores_queue _ _ _ _ _ _ E2) as [Hq Hid]. by constructor; simpl; rewrite ?Hq, ?Hid.
  - cbn [mbind option_bind]. destruct (sends_ok getSendQueueLength now frags1 st1) as (st3 & q3 & -> & Hf3 & Hr3 & Hc3).
    { apply Forall_forall. intros p _ Hc. change (m_options st1) with o in Hc. congruence. }
    exists st3. split_and!; [done|by eapply link_ok_frame|]. etrans; [exact Hk1|by apply frame_kept].
Qed.

(** ** The receive path *)

Record link_inv st : Prop := {
  inv_ok : link_ok st;
  inv_mtu : mtu_ok (t_mtu (l_transport st));
  inv_frag : 1 <= fragmenter_nMaxFragments (m_options st);
  inv_reassembler : reassembler_ok (reassembler_nMaxFragments (m_options st)) (m_reassembler st);
  inv_period : 0 < idleAckTimerPeriod (m_options st);
  inv_idle : m_isIdleAckTimerRunning (m_reliability st) = true -> isEnabled (m_options st) = true
}.

(** Acks only wait while the idle timer runs. *)
Definition acks_timed st : Prop :=
  m_ackQueue (m_reliability st) <> [] -> m_isIdleAckTimerRunning (m_reliability st) = true.

Lemma timed_kept st st' : acks_timed st -> kept st st' -> acks_timed st'.
Proof.
  intros Ht [_ _ _ Ki [l Hq]] Hne. rewrite Ki. apply Ht. rewrite Hq. by intros [_ ?]%app_eq_nil.
Qed.

Lemma inv_kept st st' : link_inv st -> link_ok st' -> kept st st' -> link_inv st'.
Proof.
  intros [Hok Hm Hf Hr Hp Hi] Hok' [Ko Kr Km Ki Kq]. by constructor; rewrite ?Ko, ?Kr, ?Km, ?Ki.
Qed.

Lemma inv_bump c st : c <> nAcknowledged -> c <> nRetransmitted -> c <> nRetxExhausted -> link_inv st -> link_inv (bump c st).
Proof. intros H1 H2 H3 [Hok Hm Hf Hr Hp Hi]. constructor; try done. by apply link_ok_bump. Qed.

Lemma inv_emit e st : link_inv st -> link_inv (emit e st).
Proof. intros [Hok Hm Hf Hr Hp Hi]. constructor; try done. by apply link_ok_emit. Qed.

Lemma inv_reassembled R st : reassembler_ok (reassembler_nMaxFragments (m_options st)) R -> link_inv st -> link_inv (set_reassembler R st).
Proof. intros HR [[Ha Hb [q Hc]] Hm Hf Hr Hp Hi]. constructor; try done. constructor; [done|done|by exists q]. Qed.

Definition in_counter (c : Counter) : Prop := c = nInInterests \/ c = nInData \/ c = nInNacks.

Ltac dcase := first [by left | by right; left | by right; right; left].

(** A network packet is dropped, counted as invalid, or passed on. *)
Lemma decode_cases b p st : decodeNetPacket b p st = st \/ decodeNetPacket b p st = bump nInNetInvalid st \/
  exists e c, decodeNetPacket b p st = emit e (bump c st) /\ in_counter c.
Proof.
  assert (forall o, (o = Some st \/ o = Some (bump nInNetInvalid st) \/ o = None \/ exists e c, o = Some (emit e (bump c st)) /\ in_counter c) ->
    let x := default (bump nInNetInvalid st) o in
    x = st \/ x = bump nInNetInvalid st \/ exists e c, x = emit e (bump c st) /\ in_counter c) as Hdef.
  { intros o [->|[->|[->|(e & c & -> & Hc)]]]; simpl; [by left|by right; left|by right; left|]. right. right. by exists e, c. }
  unfold decodeNetPacket. set (h := lp_headers p). destruct (_ =? _); [destruct (has (lh_nack h)); apply Hdef|destruct (_ =? _); [apply Hdef|by right; left]].
  - unfold decodeNack. cbv zeta. fold h. destruct (interestOfBlock b); simpl; [|dcase]. destruct (get_if (lh_nack h)) as [[reason|]|]; simpl; [|dcase..].
    destruct (has (lh_nextHopFaceId h)); [dcase|]. destruct (has (lh_cachePolicy h)); [dcase|].
    destruct (get_if (lh_congestionMark h)); simpl; [|dcase]. destruct (has (lh_nonDiscovery h)); [dcase|].
    destruct (has (lh_prefixAnnouncement h)); [dcase|]. right. right. right. eexists _, nInNacks. split; [done|]. unfold in_counter. tauto.
  - unfold decodeInterest. cbv zeta. fold h. destruct (interestOfBlock b); simpl; [|dcase]. destruct (get_if (lh_hopCount h)); simpl; [|dcase].
    destruct (has (lh_nextHopFaceId h) && negb (allowLocalFields (m_options st))); [dcase|].
    destruct (get_if (lh_nextHopFaceId h)); simpl; [|dcase]. destruct (has (lh_cachePolicy h)); [dcase|].
    destruct (get_if (lh_congestionMark h)); simpl; [|dcase].
    destruct (if allowSelfLearning (m_options st) then get_if (lh_nonDiscovery h) else Some None); simpl; [|dcase].
    destruct (has (lh_prefixAnnouncement h)); [dcase|]. right. right. right. eexists _, nInInterests. split; [done|]. unfold in_counter. tauto.
  - unfold decodeData. cbv zeta. fold h. destruct (dataOfBlock b); simpl; [|dcase]. destruct (get_if (lh_hopCount h)); simpl; [|dcase].
    destruct (has (lh_nack h)); [dcase|]. destruct (has (lh_nextHopFaceId h)); [dcase|]. destruct (get_if (lh_cachePolicy h)); simpl; [|dcase].
    destruct (get_if (lh_congestionMark h)); simpl; [|dcase]. destruct (has (lh_nonDiscovery h)); [dcase|].
    destruct (if allowSelfLearning (m_options st) then get_if (lh_prefixAnnouncement h) else Some None); simpl; [|dcase].
    right. right. right. eexists _, nInData. split; [done|]. unfold in_counter. tauto.
Qed.

Lemma decode_inv b p st : link_inv st -> link_inv (decodeNetPacket b p st).
Proof.
  intros Hi. destruct (decode_cases b p st) as [->|[->|(e & c & -> & Hc)]]; [done|by apply inv_bump|].
  apply inv_emit, inv_bump; [..|done]; intros ->; destruct Hc as [|[|]]; done.
Qed.

Lemma decode_reliability b p st : m_reliability (decodeNetPacket b p st) = m_reliability st.
Proof. by destruct (decode_cases b p st) as [->|[->|(e & c & -> & Hc)]]. Qed.

(** A packet from the wire: unsigned numbers. *)
Definition wire_ok p : Prop := (forall i, lp_fragIndex p = Some i -> 0 <= i) /\ (forall c, lp_fragCount p = Some c -> 0 <= c).

Definition ack_cost p st : Z := Z.of_nat (length (acks_of p)) * Z.of_nat (size (m_unackedFrags (m_reliability st))).

Lemma incoming_ok now p st : link_inv st -> isEnabled (m_options st) = true -> span (m_reliability st) + ack_cost p st <= 2 ^ 64 ->
  exists st', processIncomingPacket getSendQueueLength now p st =
      Some (match lh_ack (lp_headers p), lp_fragment p, lh_txSequence (lp_headers p) with
            | None, _, _ | _, Some _, Malformed => false | _, _, _ => true end, st') /\
    link_inv st' /\ (acks_timed st -> acks_timed st') /\ m_options st' = m_options st /\ m_reassembler st' = m_reassembler st /\
    span (m_reliability st') <= span (m_reliability st) + ack_cost p st /\
    (size (m_unackedFrags (m_reliability st')) <= size (m_unackedFrags (m_reliability st)))%nat /\
    exists evs, l_trace st' = l_trace st ++ evs /\ Forall (fun e => upper_event e = false) evs.
Proof.
  intros Hinv Hen Hspan. unfold processIncomingPacket. unfold ack_cost, acks_of in *.
  destruct (lh_ack (lp_headers p)) as [acks|].
  2: { exists st. split_and!; try done; try lia. exists []. by rewrite app_nil_r. }
  change (default [] (Some acks)) with acks in *.
  destruct (processAcks_ok getSendQueueLength now acks st (inv_ok _ Hinv) Hspan) as (st1 & -> & Hok1 & Hf1 & Hs1 & Hz1). cbn [mbind option_bind].
  pose proof (lf_trace _ _ Hf1) as Htr.
  pose proof (inv_kept _ _ Hinv Hok1 (frame_kept _ _ Hf1)) as Hinv1. pose proof (lf_options _ _ Hf1) as Ho. pose proof (lf_reassembler _ _ Hf1) as HR.
  assert (acks_timed st -> acks_timed st1) as Ht1 by (intros Ht; by apply (timed_kept st), frame_kept).
  destruct (lp_fragment p); [|by exists st1]. destruct (lh_txSequence (lp_headers p)) as [| |tx]; [by exists st1|by exists st1|].
  set (r := set_ackQueue _ _).
  assert (exists t, (if m_isIdleAckTimerRunning r then Some r else startIdleAckTimer now (idleAckTimerPeriod (m_options st1)) r) = Some (set_idleAckTimer t true r)) as [t ->].
  { destruct (m_isIdleAckTimerRunning r) eqn:Er.
    - exists (m_idleAckTimer r). unfold set_idleAckTimer. rewrite <-Er. by destruct r.
    - unfold startIdleAckTimer. rewrite Er. by eexists. }
  cbn [mbind option_bind]. eexists. split; [done|]. split; [|done]. destruct Hinv1 as [[Ha [Hw Hc Hi Hf] [q Hacc]] Hm Hfr Hr Hp Hid].
  constructor; simpl; try done.
  - constructor; simpl; [done| |by exists q]. constructor; simpl; try done. by destruct Hw.
  - by rewrite Ho, Hen.
Qed.

Lemma receive_ok now endpoint sz decoded st : link_inv st -> fits (t_mtu (l_transport st)) sz = true ->
  (forall p, decoded = Some p -> wire_ok p /\ span (m_reliability st) + ack_cost p st <= 2 ^ 64) ->
  exists st', receivePacket getSendQueueLength now endpoint sz decoded st = Some st' /\ link_inv st' /\ (acks_timed st -> acks_timed st').
Proof.
  intros Hinv Hfit Hdec. unfold receivePacket, Face.receive. rewrite Hfit. cbn [mbind option_bind].
  set (st1 := set_transport _ st). assert (link_inv st1) as Hinv1.
  { destruct Hinv as [[Ha Hb [q Hc]] Hm Hf Hr Hp Hi]. constructor; try done. constructor; [done|done|by exists q]. }
  unfold doReceivePacket. destruct decoded as [p|]; [|eexists; split; [done|split; [by apply inv_bump|done]]].
  destruct (Hdec p eq_refl) as [Hwire Hspan].
  set (o := if isEnabled (m_options st1) then _ else _).
  assert (exists isOk st2, o = Some (isOk, st2) /\ link_inv st2 /\ (acks_timed st -> acks_timed st2)) as (isOk & st2 & -> & Hinv2 & Ht2).
  { unfold o. destruct (isEnabled (m_options st1)) eqn:E; [|by exists true, st1].
    destruct (incoming_ok now p st1 Hinv1 E Hspan) as (st2 & H1 & H2 & H3 & _). by eexists _, st2. }
  cbn [mbind option_bind]. destruct isOk; simpl; [|eexists; split; [done|split; [by apply inv_bump|done]]].
  destruct (lp_fragment p) as [b|] eqn:Ef; [|by exists st2]. destruct (_ && _); [by exists st2|].
  destruct (receive_safe parseBlock (reassembler_nMaxFragments (m_options st2)) (reassemblyTimeout (m_options st2)) now endpoint p (m_reassembler st2)) as (rc & R & -> & HR).
  { apply Hinv2. }
  { split; [by eexists|done]. }
  cbn [mbind option_bind]. pose proof (inv_reassembled R st2 HR Hinv2) as Hinv3.
  destruct rc as [|b' f|]; [by eexists|eexists; split; [done|split; [by apply decode_inv|]]|eexists; split; [done|split; [by apply inv_bump|done]]].
  intros Ht. unfold acks_timed. rewrite decode_reliability. by apply Ht2.
Qed.

(** ** Timers *)

Lemma send_piggyback now p st st' : sendLpPacket getSendQueueLength now p st = Some st' -> isEnabled (m_options st) = true ->
  exists p1, piggyback p (t_mtu (l_transport st)) (m_reliability st) = Some (p1, m_reliability st').
Proof.
  unfold sendLpPacket. intros E Hen. rewrite Hen in E. destruct (piggyback _ _ _) as [[p1 r1]|]; [|done]. cbn [mbind option_bind] in E.
  exists p1. do 2 f_equal. change (m_options (set_reliability r1 st)) with (m_options st) in E.
  assert (forall p2 st2, m_reliability st2 = r1 -> (if negb (t_mtu (l_transport st) =? MTU_UNLIMITED) && (t_mtu (l_transport st) <? wireSize p2)
    then Some (bump nOutOverMtu st2) else sendPacket p2 st2) = Some st' -> r1 = m_reliability st') as Hend.
  { intros p2 st2 <-. destruct (_ && _); [by intros [= <-]|]. unfold sendPacket. destruct (Face.send _ _) as [[[] t]|]; [| |done]; by intros [= <-]. }
  destruct (allowCongestionMarking (m_options st)).
  - pose proof (checkCongestionLevel_frame getSendQueueLength now p1 (set_reliability r1 st)) as Hc.
    destruct (checkCongestionLevel _ _ _ _) as [p2 st2]. destruct Hc as (_ & Hr & _). by apply (Hend p2 st2).
  - by apply (Hend p1 (set_reliability r1 st)).
Qed.

Lemma empty_size : wireSize (emptyPacket : LpPacket) = 2 /\ is_Some (lh_ack (lp_headers (emptyPacket : LpPacket))).
Proof.
  split; [|unfold emptyPacket; simpl; rewrite codec_noHeaders; by eexists].
  rewrite wireSize_value by done. rewrite valueSize_empty, sizeOfVarNumber_1 by lia. lia.
Qed.

(** An idle packet takes at least one Ack. *)
Lemma idle_takes now st : link_ok st -> mtu_ok (t_mtu (l_transport st)) -> isEnabled (m_options st) = true -> m_ackQueue (m_reliability st) <> [] ->
  exists st', requestIdlePacket getSendQueueLength now st = Some st' /\ link_ok st' /\ link_frame st st' /\
    (length (m_ackQueue (m_reliability st')) < length (m_ackQueue (m_reliability st)))%nat.
Proof.
  intros Hok Hmtu Hen Hne. unfold requestIdlePacket.
  destruct (send_ok getSendQueueLength now emptyPacket st) as (st' & q & E & Hf & Hr & Hc); [done|].
  exists st'. split_and!; [done|by eapply link_ok_frame|done|].
  destruct (send_piggyback now _ st st' E Hen) as (p1 & Hp). destruct empty_size as [Hsz Hack].
  destruct (piggyback_spec _ _ _ _ _ Hack Hp) as (n & H1 & _ & _ & _ & _ & _ & Hstop). rewrite Hsz, (sizeOfVarNumber_1 2) in Hstop by lia.
  assert (16 <= mtu_space (t_mtu (l_transport st))) as Hspace.
  { pose proof max_packet_size. unfold mtu_space, mtu_ok, MIN_MTU in *. destruct (Z.eqb_spec (t_mtu (l_transport st)) MTU_UNLIMITED); [lia|]. destruct Hmtu; [done|lia]. }
  destruct n as [|n].
  - simpl in H1. destruct Hstop as [Hstop|Hstop]; [congruence|lia].
  - rewrite H1, length_app, length_take. destruct (m_ackQueue (m_reliability st)); [done|]. simpl. lia.
Qed.

Lemma idlePackets_ok now fuel : forall st, link_ok st -> mtu_ok (t_mtu (l_transport st)) -> isEnabled (m_options st) = true ->
  (length (m_ackQueue (m_reliability st)) <= fuel)%nat ->
  exists st', idlePackets getSendQueueLength now fuel st = Some st' /\ link_ok st' /\ link_frame st st' /\ m_ackQueue (m_reliability st') = [].
Proof.
  induction fuel as [|fuel IH]; intros st Hok Hmtu Hen Hlen; cbn [idlePackets].
  - destruct (m_ackQueue (m_reliability st)) eqn:E; [|simpl in Hlen; lia]. exists st. by rewrite E.
  - destruct (m_ackQueue (m_reliability st)) as [|a l] eqn:E; [exists st; by rewrite E|].
    destruct (idle_takes now st Hok Hmtu Hen) as (st1 & -> & Hok1 & Hf1 & Hl1); [by rewrite E|]. cbn [mbind option_bind].
    destruct (IH st1 Hok1) as (st' & E' & Hok' & Hf' & Hq); [by rewrite (lf_mtu _ _ Hf1)|by rewrite (lf_options _ _ Hf1)|rewrite E in Hl1; simpl in *; lia|].
    exists st'. split_and!; [done|done|by etrans|done].
Qed.

Lemma idle_ok now st : link_inv st -> m_isIdleAckTimerRunning (m_reliability st) = true ->
  exists st', onIdleAckTimer getSendQueueLength now st = Some st' /\ link_inv st' /\ m_ackQueue (m_reliability st') = [].
Proof.
  intros Hinv Hrun. pose proof Hinv as [Hok Hm Hf Hr Hp Hi]. unfold onIdleAckTimer.
  assert (exists st1, idlePackets getSendQueueLength now (length (m_ackQueue (m_reliability st))) st = Some st1 /\ link_ok st1 /\ link_frame st st1 /\
    m_ackQueue (m_reliability st1) = []) as (st1 & -> & Hok1 & Hf1 & Hq1).
  { apply idlePackets_ok; [done|done|by apply Hi|lia]. }
  cbn [mbind option_bind]. eexists. split; [done|]. pose proof (inv_kept _ _ Hinv Hok1 (frame_kept _ _ Hf1)) as [_ Hm1 Hfr1 Hr1 Hp1 Hi1].
  split; [|done]. destruct Hok1 as [Ha [Hw Hc Hin Hfa] [q Hacc]]. constructor; simpl; try done.
  constructor; simpl; [done| |by exists q]. constructor; simpl; try done. by destruct Hw.
Qed.

(** ** New options *)

(** The command switches the reliability off while Acks are waiting. *)
Definition strands (parameters : LinkParameters) st : Prop :=
  isEnabled (m_options st) = true /\ BIT_LP_RELIABILITY_ENABLED parameters = Some false /\ m_ackQueue (m_reliability st) <> [].

Lemma options_update_ok isLocal parameters st : link_inv st ->
  exists st', updateLinkServiceOptions isLocal parameters st = Some st' /\ link_inv st' /\
    (acks_timed st -> acks_timed st' \/ strands parameters st).
Proof.
  intros [[Hmax [Hw Hc Hin Hfa] [q Hacc]] Hm Hf Hr Hp Hi]. unfold updateLinkServiceOptions, setOptions.
  set (o := updatedOptions isLocal parameters (m_options st)). change (idleAckTimerPeriod o) with (idleAckTimerPeriod (m_options st)).
  rewrite (proj2 (Z.ltb_lt 0 _) Hp). eexists. split; [done|].
  destruct (isEnabled (m_options st)) eqn:Een, (isEnabled o) eqn:Eo; cbn [andb negb]; (split; [constructor; simpl; try done|]).
  all: try (constructor; simpl; [done| |by exists q]; constructor; simpl; try done; by destruct Hw).
  all: try (intros Ht; by left).
  - intros _. destruct (decide (m_ackQueue (m_reliability st) = [])) as [E|E]; [left; by intros ?|]. right. split_and!; [done| |done].
    unfold o in Eo. simpl in Eo. rewrite Een in Eo. destruct (BIT_LP_RELIABILITY_ENABLED parameters) as [[]|]; done.
  - by intros ?%Hi.
Qed.

(** ** Runs *)

Inductive LinkAction :=
  | SendInterest (i : NetInterest) (tags : Tags PA)
  | SendData (d : NetData) (tags : Tags PA)
  | SendNack (i : NetInterest) (reason : NH) (tags : Tags PA)
  | Receive (endpoint sz : Z) (decoded : option LpPacket)
  | RtoTimer (txSeq : Z)
  | IdleAckTimer
  | ReassemblyTimer (key : Z * Z)
  | UpdateOptions (isLocal : bool) (parameters : LinkParameters).

Definition link_step now (a : LinkAction) st : option LinkService :=
  match a with
  | SendInterest i tags => sendInterest getSendQueueLength now i tags st
  | SendData d tags => sendData getSendQueueLength now d tags st
  | SendNack i reason tags => sendNack getSendQueueLength now i reason tags st
  | Receive endpoint sz decoded => receivePacket getSendQueueLength now endpoint sz decoded st
  | RtoTimer txSeq => snd <$> onLpPacketLost getSendQueueLength now txSeq st
  | IdleAckTimer => onIdleAckTimer getSendQueueLength now st
  | ReassemblyTimer key => Some (onReassemblyTimeout key st)
  | UpdateOptions isLocal parameters => updateLinkServiceOptions isLocal parameters st
  end.

(** When an action can happen: a timer of a fragment that has expired; packets
    within the MTU; and, so that no exception is thrown, room for the TxSequence
    numbers that the action may need among the 2^64. *)
Definition possible now (a : LinkAction) st : Prop :=
  match a with
  | SendInterest _ _ | SendData _ _ | SendNack _ _ _ => span (m_reliability st) + fragmentCount (m_options st) <= 2 ^ 64
  | Receive _ sz decoded => fits (t_mtu (l_transport st)) sz = true /\
      forall p, decoded = Some p -> wire_ok p /\ span (m_reliability st) + ack_cost p st <= 2 ^ 64
  | RtoTimer txSeq => (exists f t, m_unackedFrags (m_reliability st) !! txSeq = Some f /\ uf_rtoTimer f = Some t /\ t <= now) /\
      span (m_reliability st) < 2 ^ 64
  | IdleAckTimer => m_isIdleAckTimerRunning (m_reliability st) = true
  | ReassemblyTimer _ | UpdateOptions _ _ => True
  end.

(** The action that leaves Acks waiting without a timer. *)
Definition strandsAcks (a : LinkAction) st : Prop :=
  match a with UpdateOptions isLocal parameters => strands parameters st | _ => False end.

Lemma link_step_ok now a st : link_inv st -> possible now a st ->
  exists st', link_step now a st = Some st' /\ link_inv st' /\ (acks_timed st -> acks_timed st' \/ strandsAcks a st).
Proof.
  intros Hinv Ha.
  assert (forall c pkt isI e, c = nOutInterests \/ c = nOutData \/ c = nOutNacks -> net_ok pkt isI ->
    span (m_reliability st) + fragmentCount (m_options st) <= 2 ^ 64 ->
    exists st', (st ← sendNetPacket getSendQueueLength now pkt isI (bump c st); Some (emit e st)) = Some st' /\ link_inv st' /\
      (acks_timed st -> acks_timed st' \/ False)) as Hsend.
  { intros c pkt isI e Hc Hnet Hspan.
    assert (link_inv (bump c st)) as Hinv1 by (apply inv_bump; [..|done]; intros ->; destruct Hc as [|[|]]; done).
    destruct (sendNet_ok now pkt isI (bump c st)) as (st1 & -> & Hok1 & Hk1); [apply Hinv1|apply Hinv1|apply Hinv1|done|done|].
    cbn [mbind option_bind]. eexists. split; [done|]. split; [by apply inv_emit, (inv_kept (bump c st))|].
    intros Ht. left. by apply (timed_kept (bump c st) st1). }
  destruct a as [i tags|d tags|i reason tags|endpoint sz decoded|k| |key|isLocal parameters]; simpl in *.
  - apply (Hsend nOutInterests); [tauto|apply interest_net_ok|done].
  - apply (Hsend nOutData); [tauto|apply other_net_ok; [by eexists|done|done]|done].
  - apply (Hsend nOutNacks); [tauto|apply other_net_ok; [by eexists|done|done]|done].
  - destruct Ha as [Hfit Hdec]. destruct (receive_ok now endpoint sz decoded st Hinv Hfit Hdec) as (st' & E & Hinv' & Ht). exists st'. split_and!; [done|done|]. intros ?. left. by apply Ht.
  - destruct Ha as [(f & t & Hk & _) Hspan]. destruct (lost_ok getSendQueueLength now k st (inv_ok _ Hinv)) as (rem & st' & -> & Hok' & Hf' & _); [by eexists|done|].
    simpl. eexists. split; [done|]. split; [by apply (inv_kept st); [| |apply frame_kept]|]. intros Ht. left. by apply (timed_kept st), frame_kept.
  - destruct (idle_ok now st Hinv Ha) as (st' & E & Hinv' & Hq). exists st'. split_and!; [done|done|]. intros _. left. by intros ?.
  - eexists. split; [done|]. split; [|intros Ht; left; unfold onReassemblyTimeout, timeoutPartialPacket; by destruct (m_reassembler st !! key)]. unfold onReassemblyTimeout, timeoutPartialPacket. destruct (m_reassembler st !! key).
    + apply inv_bump; try done. apply inv_reassembled; [|done]. apply map_Forall_delete, Hinv.
    + apply inv_reassembled; [|done]. apply Hinv.
  - by apply options_update_ok.
Qed.

Inductive link_run : LinkService -> list (Z * LinkAction) -> LinkService -> Prop :=
  | link_run_nil st : link_run st [] st
  | link_run_cons st now a st1 acts st2 : possible now a st -> link_step now a st = Some st1 -> link_run st1 acts st2 ->
      link_run st ((now, a) :: acts) st2.

Lemma new_link_inv o t : 0 <= maxRetx o -> 1 <= fragmenter_nMaxFragments o -> 0 < idleAckTimerPeriod o -> mtu_ok (t_mtu t) -> link_inv (newLinkService o t).
Proof.
  intros Hmax Hn Hp Hmtu. constructor; simpl; [|done|done|apply map_Forall_empty|done|done].
  constructor; simpl; [done| |].
  - constructor; simpl.
    + constructor; simpl; [apply u64_range| |done]. intros k. rewrite lookup_empty. by intros [].
    + intros id (k & f & Hk & _)%elem_of_live. by rewrite lookup_empty in Hk.
    + constructor.
    + apply map_Forall_empty.
  - exists 0. simpl. unfold live. by rewrite map_to_list_empty.
Qed.

Lemma link_run_inv st acts st' : link_run st acts st' -> link_inv st ->
  link_inv st' /\
  (acks_timed st -> acks_timed st' \/
    exists acts1 now a acts2 st1, acts = acts1 ++ (now, a) :: acts2 /\ link_run st acts1 st1 /\ strandsAcks a st1).
Proof.
  induction 1 as [st|st now a st1 acts st2 Ha E _ IH]; intros Hinv; [split; [done|by left]|].
  destruct (link_step_ok now a st Hinv Ha) as (st1' & E' & Hinv' & Ht). assert (st1' = st1) as -> by congruence.
  destruct (IH Hinv') as [Hinv2 Hsplit]. split; [done|]. intros [Ht1|Hs]%Ht.
  - destruct (Hsplit Ht1) as [|(acts1 & now1 & a1 & acts2 & st3 & -> & Hrun & Hs)]; [by left|]. right.
    exists ((now, a) :: acts1), now1, a1, acts2, st3. split_and!; [done|by eapply link_run_cons|done].
  - right. exists [], now, a, acts, st. split_and!; [done|apply link_run_nil|done].
Qed.

(** C3: in every run of the link service from its construction no handler fails:
    no assertion, no iterator that is dangling or at the end, no exception. The
    run sends, receives, lets timers fire, and updates the options as the face
    management does ([UpdateOptions]: local fields, reliability and congestion
    marking switched on and off, the two values of congestion marking). The
    conditions are: at least one fragment, a period above zero and retransmission
    limit not negative in the first options; an MTU that is unlimited or at least
    [MIN_MTU]; no received packet above the MTU (the transport asserts it); and
    TxSequence numbers left in the window of 2^64.

    Every unacknowledged fragment is stored under its TxSequence, has a running
    timer, is in the list of its network packet, and has been sent again at most
    [maxRetx] times; every network packet has been counted once as acknowledged,
    retransmitted or exhausted, or has fragments outstanding. Acks only wait while
    the idle timer runs, unless at an earlier point of the run the reliability was
    switched off while Acks were waiting. *)
Theorem link_run_safe o t acts st now a :
  0 <= maxRetx o -> 1 <= fragmenter_nMaxFragments o -> 0 < idleAckTimerPeriod o -> mtu_ok (t_mtu t) ->
  link_run (newLinkService o t) acts st -> possible now a st ->
  (exists st', link_step now a st = Some st') /\
  map_Forall (fun k f => frag_ok (maxRetx (m_options st)) k f /\
    exists np, r_netPkts (m_reliability st) !! uf_netPkt f = Some np /\ k ∈ np_unackedFrags np) (m_unackedFrags (m_reliability st)) /\
  (m_ackQueue (m_reliability st) <> [] -> m_isIdleAckTimerRunning (m_reliability st) = true \/
    exists acts1 t1 a1 acts2 st1, acts = acts1 ++ (t1, a1) :: acts2 /\ link_run (newLinkService o t) acts1 st1 /\ strandsAcks a1 st1) /\
  accounted st.
Proof.
  intros Hmax Hn Hp Hmtu Hrun Ha. destruct (link_run_inv _ _ _ Hrun (new_link_inv o t Hmax Hn Hp Hmtu)) as [Hinv Ht].
  split_and!; [| | |apply Hinv].
  - destruct (link_step_ok now a st Hinv Ha) as (st' & E & _). by exists st'.
  - intros k f Hk. destruct Hinv as [[_ [_ Hc _ Hf] _] _ _ _ _ _]. split; [by apply Hf|].
    destruct (Hc (uf_netPkt f)) as (np & Hnp & _ & Hex); [apply elem_of_live; by exists k, f|].
    exists np. split; [done|]. apply Hex. by exists f.
  - intros Hne. destruct Ht as [Ht|Hs]; [by intros ?|left; by apply Ht|by right].
Qed.

(** The exception is real: reliability switched off and on again by commands
    leaves the waiting Acks in the queue and no timer to send them. *)
Theorem acks_stranded isLocal isLocal' off on st : link_inv st -> m_ackQueue (m_reliability st) <> [] -> isEnabled (m_options st) = true ->
  BIT_LP_RELIABILITY_ENABLED off = Some false -> BIT_LP_RELIABILITY_ENABLED on = Some true ->
  exists st1 st2, updateLinkServiceOptions isLocal off st = Some st1 /\ updateLinkServiceOptions isLocal' on st1 = Some st2 /\
    isEnabled (m_options st2) = true /\ m_ackQueue (m_reliability st2) = m_ackQueue (m_reliability st) /\
    m_isIdleAckTimerRunning (m_reliability st2) = false.
Proof.
  intros Hinv Hne Hen Hoff Hon. unfold updateLinkServiceOptions, setOptions. simpl. rewrite Hen, Hoff. simpl.
  rewrite (proj2 (Z.ltb_lt 0 _) (inv_period _ Hinv)). eexists _, _. split; [done|]. simpl.
  rewrite (proj2 (Z.ltb_lt 0 _) (inv_period _ Hinv)), Hoff, Hon. split; [done|]. simpl. rewrite Hon. by split_and!.
Qed.

(** A packet of 253 octets on a link with an MTU of 265: [piggyback] attaches
    an Ack, the packet is then 267 octets long, and it is dropped as larger than
    the MTU. The Ack is gone from the queue and is never sent. *)
Theorem ack_lost_over_mtu now p st a q :
  isEnabled (m_options st) = true -> allowCongestionMarking (m_options st) = false -> t_mtu (l_transport st) = 265 ->
  is_Some (lh_ack (lp_headers p)) -> bare p = false -> valueSize p = 251 -> m_ackQueue (m_reliability st) = a :: q ->
  wireSize p = 253 /\
  exists st', sendLpPacket getSendQueueLength now p st = Some st' /\ l_trace st' = l_trace st /\ m_ackQueue (m_reliability st') = q.
Proof.
  intros Hen Hcm Hmtu Hp Hb Hv Hq. split; [rewrite wireSize_value, Hv, sizeOfVarNumber_1 by (done || lia); lia|].
  destruct (ack_overflow p 265 (m_reliability st) a q Hp Hb Hv eq_refl Hq) as (p' & Hpb & Hw).
  unfold sendLpPacket. rewrite Hen, Hmtu, Hpb. cbn [mbind option_bind]. change (m_options (set_reliability _ st)) with (m_options st). rewrite Hcm, Hw.
  simpl. eexists. by split_and!.
Qed.
End Safety.
