(* ===== verification/LinkDelivery.v ===== *)
(** * From one link service to the other

    What the link service of one end sends for a network packet, the link service
    of the other end passes to its forwarding: the fragments, in any order, with
    whatever TxSequences, Acks and congestion marks were added on the way, give
    back the network packet with the tags that the options of both ends let
    through. *)

From S2P Require Import Prelude Fp RttEstimator Face LpFragmentation LinkService LpReliability LinkSafety.
Local Open Scope Z_scope.

Section Delivery.
Context {NH PA : Type} `{!LinkCodec NH PA}.
Notation LpHeaders := (LpHeaders NH PA).
Notation LpPacket := (LpPacket LpHeaders).
Notation LpReliability := (@LpReliability NH PA).
Notation LinkService := (@LinkService NH PA _).
Notation Tags := (Tags PA).
Implicit Types (p pkt : LpPacket) (r : LpReliability) (st : LinkService) (now : Z) (h : LpHeaders).

(** ** What is added to a fragment on its way *)

(** The headers but TxSequence, Acks and CongestionMark. *)
Definition strip h : LpHeaders :=
  mkLpHeaders NH PA Absent (Some []) (lh_nack h) (lh_nextHopFaceId h) (lh_cachePolicy h) (lh_incomingFaceId h) Absent
    (lh_nonDiscovery h) (lh_prefixAnnouncement h) (lh_hopCount h).

Record carries p p' : Prop := {
  carries_fragment : lp_fragment p' = lp_fragment p;
  carries_sequence : lp_sequence p' = lp_sequence p;
  carries_fragIndex : lp_fragIndex p' = lp_fragIndex p;
  carries_fragCount : lp_fragCount p' = lp_fragCount p;
  carries_headers : strip (lp_headers p') = strip (lp_headers p);
  carries_mark : lh_congestionMark (lp_headers p') = lh_congestionMark (lp_headers p) \/ lh_congestionMark (lp_headers p') = Value 1;
  carries_ack : is_Some (lh_ack (lp_headers p)) -> is_Some (lh_ack (lp_headers p'));
  carries_tx : lh_txSequence (lp_headers p) <> Malformed -> lh_txSequence (lp_headers p') <> Malformed
}.

#[global] Instance carries_refl : Reflexive carries.
Proof. intros p. constructor; try done. by left. Qed.

#[global] Instance carries_trans : Transitive carries.
Proof.
  intros p1 p2 p3 [H1 H2 H3 H4 H5 H6 H7 H8] [G1 G2 G3 G4 G5 G6 G7 G8]. constructor; try congruence; try tauto.
  destruct G6 as [G6|G6]; [|by right]. rewrite G6. tauto.
Qed.

Lemma carries_txSequence s p : carries p (set_txSequence s p).
Proof. constructor; try done. by left. Qed.

Lemma carries_set_mark p : carries p (set_congestionMark 1 p).
Proof. constructor; try done. by right. Qed.

Lemma carries_acks l : forall space p p' q, attachAcks space l p = (p', q) -> carries p p'.
Proof.
  induction l as [|a l IH]; intros space p p' q; cbn [attachAcks]; [by intros [= <- <-]|].
  destruct (_ <? _); [by intros [= <- <-]|]. intros E%IH. etrans; [|exact E]. constructor; try done; [by left|].
  simpl. intros [x ->]. by eexists.
Qed.

(** ** Sending without loss *)

Context (getSendQueueLength : Z -> list LinkEvent -> Z).

(** The transport takes packets. *)
Definition sending (t : Transport) : Prop := t_state t = UP \/ t_state t = DOWN.

(** A packet that cannot become too large: no MTU, or room for a mark and no Acks. *)
Definition roomy (o : Options) (mtu : Z) p : Prop :=
  mtu = MTU_UNLIMITED \/
  (isEnabled o = false /\ wireSize p <= mtu /\ (allowCongestionMarking o = true -> wireSize (set_congestionMark 1 p) <= mtu)).

Lemma send_delivers now p st st' : sending (l_transport st) -> roomy (m_options st) (t_mtu (l_transport st)) p ->
  sendLpPacket getSendQueueLength now p st = Some st' ->
  exists p', l_trace st' = l_trace st ++ [DoSend p'] /\ carries p p' /\ sending (l_transport st') /\
    t_mtu (l_transport st') = t_mtu (l_transport st) /\ m_options st' = m_options st.
Proof.
  intros Hup Hroom. unfold sendLpPacket.
  set (first := if isEnabled (m_options st) then _ else _). intros E.
  assert (forall x, first = Some x -> carries p x.1 /\ (isEnabled (m_options st) = false -> x.1 = p) /\
    l_trace x.2 = l_trace st /\ l_transport x.2 = l_transport st /\ m_options x.2 = m_options st) as Hfirst.
  { unfold first. intros x. destruct (isEnabled (m_options st)) eqn:Een.
    - unfold piggyback. destruct (bare p); [done|]. destruct (attachAcks _ _ _) as [p1 q] eqn:Ea. intros [= <-]. split_and!; try done.
      simpl. by eapply carries_acks.
    - intros [= <-]. by split_and!. }
  destruct first as [[p1 st1]|]; [|done]. destruct (Hfirst _ eq_refl) as (Hc1 & Hp1 & Ht1 & Htr1 & Ho1). simpl in *. clear Hfirst.
  cbn [mbind option_bind] in E.
  set (second := if allowCongestionMarking (m_options st1) then _ else _) in E.
  assert (carries p1 second.1 /\ (second.1 = p1 \/ allowCongestionMarking (m_options st) = true /\ second.1 = set_congestionMark 1 p1) /\
    l_trace second.2 = l_trace st /\ l_transport second.2 = l_transport st /\ m_options second.2 = m_options st) as Hsecond.
  { unfold second. rewrite Ho1. destruct (allowCongestionMarking (m_options st)) eqn:Eal; [|split_and!; try done; by left].
    pose proof (checkCongestionLevel_frame getSendQueueLength now p1 st1) as Hc. destruct (checkCongestionLevel _ _ _ _) as [p2 st2].
    destruct Hc as (Hf & _ & Ht & Htr & _ & Hp2). simpl. rewrite Ht, Htr, (lf_options _ _ Hf). split_and!; try done.
    - destruct Hp2 as [-> | ->]; [done|apply carries_set_mark].
    - destruct Hp2 as [-> | ->]; [by left|by right]. }
  destruct second as [p2 st2]. simpl in Hsecond. destruct Hsecond as (Hc2 & Hp2 & Ht2 & Htr2 & Ho2).
  assert (fits (t_mtu (l_transport st)) (wireSize p2) = true) as Hfit.
  { unfold fits. destruct Hroom as [-> | (Hdis & Hw & Hm)]; [done|]. apply orb_true_iff. right. apply Z.leb_le.
    rewrite (Hp1 Hdis) in Hp2. destruct Hp2 as [-> | [Hal ->]]; [done|by apply Hm]. }
  assert (negb (t_mtu (l_transport st) =? MTU_UNLIMITED) && (t_mtu (l_transport st) <? wireSize p2) = false) as Hover.
  { unfold fits in Hfit. apply orb_true_iff in Hfit as [Hu|Hu]; [by rewrite Hu|]. apply Z.leb_le in Hu. apply andb_false_iff. right. by apply Z.ltb_ge. }
  rewrite Hover in E. unfold sendPacket, Face.send in E. rewrite Htr2, Hfit in E.
  rewrite decide_False in E by (unfold sending in Hup; destruct Hup as [-> | ->]; intros [? ?]; done).
  cbn [mbind option_bind] in E. injection E as <-. exists p2. simpl. rewrite Ht2. split_and!; [done|by etrans| | |done].
  - unfold sending in *. by destruct (decide _).
  - by destruct (decide _).
Qed.

Lemma sends_deliver now ps : forall st st', sending (l_transport st) -> Forall (roomy (m_options st) (t_mtu (l_transport st))) ps ->
  sendLpPackets getSendQueueLength now ps st = Some st' ->
  exists ps', l_trace st' = l_trace st ++ (DoSend <$> ps') /\ Forall2 carries ps ps'.
Proof.
  induction ps as [|p ps IH]; intros st st' Hup Hroom E; cbn [sendLpPackets] in E.
  - injection E as <-. exists []. split; [by rewrite app_nil_r|constructor].
  - apply Forall_cons in Hroom as [Hp Hps]. destruct (sendLpPacket _ _ _ _) as [st1|] eqn:E1; [|done]. cbn [mbind option_bind] in E.
    destruct (send_delivers now p st st1 Hup Hp E1) as (p' & Ht & Hc & Hup1 & Hm1 & Ho1).
    destruct (IH st1 st') as (ps' & Ht' & Hall); [done|by rewrite Hm1, Ho1|done|].
    exists (p' :: ps'). split; [|by constructor]. rewrite Ht', Ht. by rewrite <-app_assoc.
Qed.

(** ** Receiving the fragments of a packet *)

Notation receive := (doReceivePacket getSendQueueLength).

Fixpoint receiveEach (endpoint : Z) (arrivals : list (Z * LpPacket)) st : option LinkService :=
  match arrivals with
  | [] => Some st
  | (now, p) :: arrivals => st ← receive now endpoint (Some p) st; receiveEach endpoint arrivals st
  end.

(** What forwarding gets to see. *)
Definition upper (l : list (@LinkEvent NH PA _)) : list LinkEvent := filter (fun e => upper_event e = true) l.

Lemma upper_none l : Forall (fun e => upper_event e = false) l -> upper l = [].
Proof.
  unfold upper. induction 1 as [|e l He _ IH]; [done|]. rewrite filter_cons_False; [done|]. by rewrite He.
Qed.

Lemma upper_app l1 l2 : upper (l1 ++ l2) = upper l1 ++ upper l2.
Proof. apply filter_app. Qed.

(** A packet of which all fields decode. *)
Definition decodable p : Prop := wire_ok p /\ is_Some (lp_fragment p) /\ is_Some (lh_ack (lp_headers p)) /\ lh_txSequence (lp_headers p) <> Malformed.

Definition all_acks (arrivals : list (Z * LpPacket)) : Z := foldr (fun a n => Z.of_nat (length (acks_of a.2)) + n) 0 arrivals.

Lemma all_acks_nonneg arrivals : 0 <= all_acks arrivals.
Proof. induction arrivals as [|a arrivals IH]; simpl; lia. Qed.

Definition decoded_as (rc : @Received LpHeaders Block) st : LinkService :=
  match rc with Dropped => st | MalformedBlock => bump nInLpInvalid st | Reassembled b f => decodeNetPacket b f st end.

(** The receive path of a packet, apart from reassembly, is invisible above. *)
Lemma receive_step now endpoint p st rc R : link_inv st -> decodable p -> (is_fragment p = true -> allowReassembly (m_options st) = true) ->
  span (m_reliability st) + ack_cost p st <= 2 ^ 64 ->
  receiveFragment parseBlock (reassembler_nMaxFragments (m_options st)) (reassemblyTimeout (m_options st)) now endpoint p (m_reassembler st) = Some (rc, R) ->
  exists st1, receive now endpoint (Some p) st = Some (decoded_as rc (set_reassembler R st1)) /\ link_inv (set_reassembler R st1) /\
    m_options st1 = m_options st /\ upper (l_trace st1) = upper (l_trace st) /\
    span (m_reliability st1) <= span (m_reliability st) + ack_cost p st /\
    (size (m_unackedFrags (m_reliability st1)) <= size (m_unackedFrags (m_reliability st)))%nat.
Proof.
  intros Hinv (Hwire & [b Hb] & [acks Hack] & Htx) Hreass Hspan Hrecv. unfold doReceivePacket.
  set (o := if isEnabled (m_options st) then _ else _).
  assert (exists st1, o = Some (true, st1) /\ link_inv st1 /\ m_options st1 = m_options st /\ m_reassembler st1 = m_reassembler st /\
    upper (l_trace st1) = upper (l_trace st) /\ span (m_reliability st1) <= span (m_reliability st) + ack_cost p st /\
    (size (m_unackedFrags (m_reliability st1)) <= size (m_unackedFrags (m_reliability st)))%nat) as (st1 & -> & Hinv1 & Ho1 & HR1 & Hu1 & Hs1 & Hz1).
  { unfold o. destruct (isEnabled (m_options st)) eqn:E.
    - destruct (incoming_ok getSendQueueLength now p st Hinv E Hspan) as (st1 & E1 & Hinv1 & _ & Ho1 & HR1 & Hs1 & Hz1 & evs & Htr & Hev).
      exists st1. rewrite E1, Hb, Hack. split_and!; try done.
      + by destruct (lh_txSequence (lp_headers p)).
      + by rewrite Htr, upper_app, (upper_none evs Hev), app_nil_r.
    - exists st. split_and!; try done. unfold ack_cost. lia. }
  cbn [mbind option_bind negb]. rewrite Hb. exists st1.
  assert (is_fragment p && negb (allowReassembly (m_options st1)) = false) as ->.
  { rewrite Ho1. destruct (is_fragment p); [|done]. by rewrite Hreass. }
  rewrite Ho1, HR1, Hrecv. cbn [mbind option_bind].
  split_and!; [by destruct rc| |done|done|done|done]. apply inv_reassembled; [|done]. rewrite Ho1.
  destruct (receive_safe parseBlock (reassembler_nMaxFragments (m_options st)) (reassemblyTimeout (m_options st)) now endpoint p (m_reassembler st)) as (rc' & R' & E' & HR').
  - apply Hinv.
  - split; [by eexists|done].
  - by rewrite Hrecv in E'; simplify_eq.
Qed.

Lemma receiveEach_ok endpoint b first arrivals : forall st R, arrivals <> [] -> link_inv st ->
  Forall (fun a => decodable a.2 /\ (is_fragment a.2 = true -> allowReassembly (m_options st) = true)) arrivals ->
  span (m_reliability st) + all_acks arrivals * Z.of_nat (size (m_unackedFrags (m_reliability st))) <= 2 ^ 64 ->
  receiveAll parseBlock (reassembler_nMaxFragments (m_options st)) (reassemblyTimeout (m_options st)) endpoint arrivals (m_reassembler st) =
    Some (replicate (length arrivals - 1) Dropped ++ [Reassembled b first], R) ->
  exists st', receiveEach endpoint arrivals st = Some (decodeNetPacket b first st') /\ m_options st' = m_options st /\
    upper (l_trace st') = upper (l_trace st).
Proof.
  induction arrivals as [|[now p] arrivals IH]; intros st R Hne Hinv Hall Hspan Hrecv; [done|]. clear Hne.
  apply Forall_cons in Hall as [[Hp Hfr] Hall]. cbn [receiveAll] in Hrecv. simpl in Hp, Hfr.
  destruct (receiveFragment _ _ _ _ _ _ _) as [[rc R1]|] eqn:E1; [|done]. cbn [mbind option_bind] in Hrecv.
  destruct (receiveAll _ _ _ _ arrivals R1) as [[rs R2]|] eqn:E2; [|done]. cbn [mbind option_bind] in Hrecv.
  pose proof (all_acks_nonneg arrivals) as Hnn. cbn [all_acks foldr snd] in Hspan. fold (all_acks arrivals) in Hspan.
  destruct (receive_step now endpoint p st rc R1 Hinv Hp Hfr) as (st1 & E & Hinv1 & Ho1 & Hu1 & Hs1 & Hz1); [unfold ack_cost; nia|done|].
  cbn [receiveEach]. rewrite E. cbn [mbind option_bind]. destruct arrivals as [|a arrivals].
  - simpl in Hrecv, E2. simplify_eq. exists (set_reassembler R st1). done.
  - replace (length ((now, p) :: a :: arrivals) - 1)%nat with (S (length (a :: arrivals) - 1)) in Hrecv by (simpl; lia).
    cbn [replicate app] in Hrecv. injection Hrecv as -> -> ->. cbn [decoded_as].
    destruct (IH (set_reassembler R1 st1) R) as (st' & E' & Ho' & Hu'); [done|done| | | |].
    + simpl. by rewrite Ho1.
    + change (m_reliability (set_reassembler R1 st1)) with (m_reliability st1). unfold ack_cost in Hs1.
      set (X := all_acks (a :: arrivals)) in *. set (n := Z.of_nat (length (acks_of p))) in *.
      set (z := Z.of_nat (size (m_unackedFrags (m_reliability st)))) in *. set (z1 := Z.of_nat (size (m_unackedFrags (m_reliability st1)))).
      assert (X * z1 <= X * z) by (apply Z.mul_le_mono_nonneg_l; unfold z1, z; lia). rewrite Z.mul_add_distr_r in Hspan. lia.
    + simpl. by rewrite Ho1.
    + exists st'. split_and!; [done|by rewrite Ho'|by rewrite Hu'].
Qed.

(** ** Network packets *)

Inductive Net := NetI (i : NetInterest) | NetD (d : NetData) | NetN (i : NetInterest) (reason : NH).

Definition net_wire (n : Net) : list Z := match n with NetI i | NetN i _ => wireInterest i | NetD d => wireData d end.

Definition encoded (o : Options) (tags : Tags) (n : Net) : LpPacket :=
  encodeLpFields o tags match n with NetN i reason => set_nack reason (netPacket (wireInterest i)) | _ => netPacket (net_wire n) end.

Definition sendNet now (n : Net) (tags : Tags) st : option LinkService :=
  match n with
  | NetI i => sendInterest getSendQueueLength now i tags st
  | NetD d => sendData getSendQueueLength now d tags st
  | NetN i reason => sendNack getSendQueueLength now i reason tags st
  end.

Definition sentEvent (n : Net) : LinkEvent :=
  match n with NetI i => AfterSendInterest i | NetD d => AfterSendData d | NetN i reason => AfterSendNack i reason end.

(** The signal at the other end: from the sender's options [so], the receiver's
    [ro], and whether the link added a congestion mark. *)
Definition expected (so ro : Options) (marked : bool) (tags : Tags) (n : Net) : LinkEvent :=
  let mark := if marked then Some 1 else tag_congestionMark tags in
  let hop := Some (u64 (default 0 (tag_hopCount tags) + 1)) in
  let learning {A} (x : option A) := if allowSelfLearning so && allowSelfLearning ro then x else None in
  match n with
  | NetI i => AfterReceiveInterest i (mkTags None None None mark (learning (tag_nonDiscovery tags)) None hop)
  | NetD d => AfterReceiveData d (mkTags None None None mark None (learning (tag_prefixAnnouncement tags)) hop)
  | NetN i reason => AfterReceiveNack i reason (mkTags None None None mark None None None)
  end.

(** The tags that the receiver does not accept with the packet are not set, or not
    sent. *)
Definition deliverable (so : Options) (tags : Tags) (n : Net) : Prop := allowSelfLearning so = true ->
  match n with
  | NetI _ => tag_prefixAnnouncement tags = None
  | NetD _ => tag_nonDiscovery tags = None
  | NetN _ _ => tag_prefixAnnouncement tags = None /\ tag_nonDiscovery tags = None
  end.

Lemma net_block n : exists b, parseBlock (net_wire n) = Some b /\
  match n with
  | NetI i | NetN i _ => blockType b = 5 /\ interestOfBlock b = Some i
  | NetD d => blockType b = 6 /\ dataOfBlock b = Some d
  end.
Proof.
  destruct n as [i|d|i reason]; simpl; [apply interest_roundtrip|apply data_roundtrip|apply interest_roundtrip].
Qed.

Lemma encoded_fields o tags n : lp_fragment (encoded o tags n) = Some (net_wire n) /\ lp_fragIndex (encoded o tags n) = None /\
  lp_fragCount (encoded o tags n) = None /\ lp_sequence (encoded o tags n) = None /\ lh_ack (lp_headers (encoded o tags n)) = Some [] /\
  lh_txSequence (lp_headers (encoded o tags n)) = Absent /\ lh_congestionMark (lp_headers (encoded o tags n)) = opt_field (tag_congestionMark tags).
Proof.
  destruct n; unfold encoded, encodeLpFields, netPacket, emptyPacket; simpl; rewrite codec_noHeaders; simpl; done.
Qed.

Lemma get_opt {A} (x : option A) : get_if (opt_field x) = Some x.
Proof. by destruct x. Qed.

Lemma has_opt {A} (x : option A) : has (opt_field x) = match x with Some _ => true | None => false end.
Proof. by destruct x. Qed.

(** Decoding undoes the encoding. *)
Lemma decode_encoded so tags n b first st : deliverable so tags n ->
  match n with
  | NetI i | NetN i _ => blockType b = 5 /\ interestOfBlock b = Some i
  | NetD d => blockType b = 6 /\ dataOfBlock b = Some d
  end ->
  strip (lp_headers first) = strip (lp_headers (encoded so tags n)) ->
  lh_congestionMark (lp_headers first) = opt_field (tag_congestionMark tags) \/ lh_congestionMark (lp_headers first) = Value 1 ->
  exists marked c, decodeNetPacket b first st = emit (expected so (m_options st) marked tags n) (bump c st).
Proof.
  intros Hdel Hb Hstrip Hmark. set (h := lp_headers first) in *.
  assert (exists marked : bool, get_if (lh_congestionMark h) = Some (if marked then Some 1 else tag_congestionMark tags)) as [marked Hcm].
  { destruct Hmark as [-> | ->]; [exists false; apply get_opt|by exists true]. }
  exists marked. unfold strip in Hstrip.
  assert (lh_nack h = match n with NetN _ reason => Value reason | _ => Absent end /\ lh_nextHopFaceId h = Absent /\ lh_cachePolicy h = Absent /\
    lh_nonDiscovery h = (if allowSelfLearning so then opt_field (tag_nonDiscovery tags) else Absent) /\
    lh_prefixAnnouncement h = (if allowSelfLearning so then opt_field (tag_prefixAnnouncement tags) else Absent) /\
    lh_hopCount h = Value (default 0 (tag_hopCount tags))) as (Hn & Hnh & Hcp & Hnd & Hpa & Hhc).
  { destruct n; unfold encoded, encodeLpFields, netPacket, emptyPacket in Hstrip; simpl in Hstrip; rewrite codec_noHeaders in Hstrip; simpl in Hstrip;
      injection Hstrip as -> -> -> _ -> -> ->; by destruct (allowSelfLearning so). }
  unfold deliverable in Hdel. unfold decodeNetPacket, TLV_Interest, TLV_Data. fold h. destruct n as [i|d|i reason]; destruct Hb as [Ht Hd]; rewrite Ht; simpl; rewrite ?Hn; simpl.
  - exists nInInterests. unfold decodeInterest. fold h. rewrite Hd. simpl. rewrite Hhc, Hnh, Hcp, Hcm, Hnd, Hpa. simpl.
    destruct (allowSelfLearning so); [rewrite (Hdel eq_refl)|]; simpl; destruct (allowSelfLearning (m_options st)); rewrite ?get_opt; done.
  - exists nInData. unfold decodeData. fold h. rewrite Hd. simpl. rewrite Hhc, Hn, Hnh, Hcp, Hcm, Hnd, Hpa. simpl.
    destruct (allowSelfLearning so); [rewrite (Hdel eq_refl)|]; simpl; destruct (allowSelfLearning (m_options st)); rewrite ?get_opt; done.
  - exists nInNacks. unfold decodeNack. fold h. rewrite Hd. simpl. rewrite Hn, Hnh, Hcp, Hcm, Hnd, Hpa. simpl.
    destruct (allowSelfLearning so); [|done]. destruct (Hdel eq_refl) as [-> ->]. done.
Qed.

(** ** Sending *)

(** The MTU for fragments, after the space for the congestion mark. *)
Definition fragment_mtu st : Z :=
  t_mtu (l_transport st) - (if allowCongestionMarking (m_options st) then CONGESTION_MARK_SIZE else 0).

(** Nothing is dropped for its size: there is no MTU, or the packet could be
    fragmented and no Acks are added. *)
Definition lossless pkt st : Prop :=
  t_mtu (l_transport st) = MTU_UNLIMITED \/
  (MIN_MTU <= t_mtu (l_transport st) /\ allowFragmentation (m_options st) = true /\ isEnabled (m_options st) = false /\
   exists frags, fragmentPacket (fragmenter_nMaxFragments (m_options st)) pkt (fragment_mtu st) = Some (Some frags)).

(** The packets for [pkt]: itself, or its numbered fragments, with what the link
    adds. *)
Definition packets_for (last nMax : Z) pkt (sent : list LpPacket) : Prop :=
  (exists p', sent = [p'] /\ carries pkt p') \/
  (exists b0 bs, Some (b0 ++ concat bs) = lp_fragment pkt /\ bs <> [] /\ Z.of_nat (length (fragments pkt b0 bs)) <= nMax /\
     Forall2 carries (assignSequences last (fragments pkt b0 bs)).1 sent).

Lemma roomy_fits st p b' : MIN_MTU <= t_mtu (l_transport st) -> isEnabled (m_options st) = false -> lp_fragment p = Some b' ->
  (1 + 9) + headerSize p + (1 + 9) + Z.of_nat (length b') <= fragment_mtu st -> roomy (m_options st) (t_mtu (l_transport st)) p.
Proof.
  intros Hm Hen Hb Hle. right. unfold fragment_mtu, CONGESTION_MARK_SIZE in Hle. split_and!; [done| |].
  - pose proof (wireSize_bound p b' Hb). destruct (allowCongestionMarking _); lia.
  - intros Hal. rewrite Hal in Hle. pose proof (wireSize_bound (set_congestionMark 1 p) b' Hb). pose proof (headerSize_mark 1 p). lia.
Qed.

Lemma storeFrag_packet now np p r x : storeFrag now np p r = Some x -> exists s, x.1 = set_txSequence s p.
Proof.
  unfold storeFrag. destruct (assignTxSequence p r) as [[[tx frag] r1]|] eqn:E; [|done]. cbn [mbind option_bind].
  assert (exists s, frag = set_txSequence s p) as [s ->].
  { unfold assignTxSequence in E. destruct (0 <? _)%nat; [|simplify_eq; by eexists].
    destruct (firstTxSeq _) as [f|]; [|done]. simpl in E. destruct (_ =? f); [done|]. simplify_eq. by eexists. }
  intros Hx. exists s. cbv zeta in Hx. destruct (r_netPkts _ !! np) in Hx; [|done]. cbn [mbind option_bind] in Hx. by simplify_eq.
Qed.

(** The packets that leave for a network packet. *)
Lemma sendNet_packets now pkt isInterest st st' b : 1 <= fragmenter_nMaxFragments (m_options st) ->
  lp_fragment pkt = Some b -> lp_fragIndex pkt = None -> lp_fragCount pkt = None -> lossless pkt st -> sending (l_transport st) ->
  sendNetPacket getSendQueueLength now pkt isInterest st = Some st' ->
  exists sent, l_trace st' = l_trace st ++ (DoSend <$> sent) /\ packets_for (m_lastSeqNo st) (fragmenter_nMaxFragments (m_options st)) pkt sent.
Proof.
  intros Hn Hb Hfi Hfc Hloss Hup. assert (is_fragment pkt = false) as Hisf by (unfold is_fragment; by rewrite Hfi, Hfc).
  unfold sendNetPacket. destruct Hloss as [Hm|(Hm & Hfrag & Hen & frags & Hfr)].
  - rewrite Hm. rewrite !Z.eqb_refl, !andb_false_r. cbn [mbind option_bind head length Nat.eqb]. rewrite Z.eqb_refl, Hisf. cbn [orb negb andb].
    cbn [mbind option_bind head length Nat.eqb Nat.ltb Nat.leb]. rewrite Hb, andb_true_r. cbn [andb].
    assert (forall p st1, carries pkt p -> l_trace st1 = l_trace st -> l_transport st1 = l_transport st ->
      sendLpPackets getSendQueueLength now [p] st1 = Some st' ->
      exists sent, l_trace st' = l_trace st ++ (DoSend <$> sent) /\ packets_for (m_lastSeqNo st) (fragmenter_nMaxFragments (m_options st)) pkt sent) as Hone.
    { intros p st1 Hc Ht Htr E. destruct (sends_deliver now [p] st1 st') as (ps' & Ht' & Hall); [by rewrite Htr| |done|].
      { apply Forall_singleton. left. by rewrite Htr. }
      exists ps'. rewrite Ht', Ht. split; [done|]. left. apply Forall2_cons_inv_l in Hall as (p' & l & Hc' & Hnil & ->).
      apply Forall2_nil_inv_l in Hnil as ->. exists p'. split; [done|]. by etrans. }
    destruct (isEnabled (m_options st)).
    + unfold handleOutgoing. cbn [storeFrags]. destruct (storeFrag _ _ _ _) as [[p1 r1]|] eqn:E; [|done]. cbn [mbind option_bind].
      apply storeFrag_packet in E as [s E]. simpl in E. subst p1. apply Hone; [apply carries_txSequence|done|done].
    + cbn [mbind option_bind]. apply Hone; done.
  - rewrite Hen. cbn [andb]. unfold MIN_MTU in Hm.
    assert (forall x, 0 < x -> (x =? MTU_UNLIMITED) = false) as Hneq by (intros x Hx; apply Z.eqb_neq; unfold MTU_UNLIMITED; lia).
    rewrite (Hneq (t_mtu (l_transport st))) by lia. cbn [negb]. rewrite andb_true_r.
    assert ((if allowCongestionMarking (m_options st) then t_mtu (l_transport st) - CONGESTION_MARK_SIZE else t_mtu (l_transport st)) = fragment_mtu st) as ->.
    { unfold fragment_mtu. destruct (allowCongestionMarking _); lia. }
    assert (0 < fragment_mtu st) as Hpos by (unfold fragment_mtu, CONGESTION_MARK_SIZE; destruct (allowCongestionMarking _); lia).
    rewrite (Hneq _ Hpos), (proj2 (Z.ltb_lt _ _) Hpos), Hfrag, Hfr. cbn [orb negb andb mbind option_bind].
    destruct (fragment_ok _ pkt b (fragment_mtu st) Hb Hfi Hfc Hn) as (r & Hr & Hspec). rewrite Hfr in Hr. injection Hr as <-.
    destruct Hspec as [[->|(b0 & bs & -> & Hcat & Hne & Hmax)] Hsz].
    + cbn [head mbind option_bind length Nat.eqb Nat.ltb Nat.leb andb]. rewrite Hisf. cbn [mbind option_bind]. intros E.
      destruct (sends_deliver now [pkt] st st' Hup) as (ps' & Ht' & Hall); [|done|].
      { apply Forall_singleton. destruct (Hsz pkt 0) as (b' & Hb' & Hle); [left|]. apply (roomy_fits st pkt b'); [unfold MIN_MTU; lia|done|done|lia]. }
      exists ps'. split; [done|]. left. apply Forall2_cons_inv_l in Hall as (p' & l & Hc' & Hnil & ->).
      apply Forall2_nil_inv_l in Hnil as ->. by exists p'.
    + assert (2 <= length (fragments pkt b0 bs))%nat as Hlen by (unfold fragments; simpl; rewrite later_length; destruct bs; [done|simpl; lia]).
      destruct (fragments pkt b0 bs) as [|front rest] eqn:Efr; [simpl in Hlen; lia|]. cbn [head mbind option_bind]. rewrite <-Efr in *.
      rewrite (proj2 (Nat.eqb_neq _ _)) by lia. cbn [andb]. rewrite (proj2 (Nat.ltb_lt _ _)) by lia.
      destruct (assignSequences (m_lastSeqNo st) (fragments pkt b0 bs)) as [ps s] eqn:Eas. cbn [mbind option_bind]. intros E.
      destruct (sends_deliver now ps (set_lastSeqNo s st) st') as (ps' & Ht' & Hall); [done| |done|].
      { apply Forall_forall. intros p (j & Hj)%list_elem_of_lookup.
        assert (exists q, fragments pkt b0 bs !! j = Some q) as [q Hq].
        { apply lookup_lt_is_Some. rewrite <-(assign_length (fragments pkt b0 bs) (m_lastSeqNo st)), Eas. by eapply lookup_lt_Some. }
        assert (exists s', p = set_sequence s' q) as [s' ->].
        { clear -Eas Hj Hq. revert Eas Hj Hq. generalize (fragments pkt b0 bs) as l, (m_lastSeqNo st) as last. intros l last.
          revert j last ps s. induction l as [|x l IH]; intros j last ps s Eas Hj Hq; [done|]. simpl in Eas.
          destruct (assignSequences (u64 (last + 1)) l) as [ps1 s1] eqn:E1. injection Eas as <- <-.
          destruct j as [|j]; simpl in *; [injection Hj as <-; injection Hq as <-; by eexists|by eapply IH]. }
        destruct (Hsz q s') as (b' & Hb' & Hle); [by eapply list_elem_of_lookup_2|].
        change (l_transport (set_lastSeqNo s st)) with (l_transport st). change (m_options (set_lastSeqNo s st)) with (m_options st).
        apply (roomy_fits st _ b'); [unfold MIN_MTU; lia|done|done|lia]. }
      exists ps'. split; [done|]. right. exists b0, bs. rewrite Eas. split_and!; [by rewrite Hcat|done|done|done].
Qed.

(** ** Delivery *)

Lemma assign_headers l : forall last i p', (assignSequences last l).1 !! i = Some p' -> exists p, l !! i = Some p /\ lp_headers p' = lp_headers p.
Proof.
  induction l as [|x l IH]; intros last i p' Hi; [done|]. simpl in Hi. destruct (assignSequences (u64 (last + 1)) l) as [ps s] eqn:E.
  destruct i as [|i]; simpl in Hi; [injection Hi as <-; exists x; by split|]. apply (IH (u64 (last + 1)) i p'). rewrite E. exact Hi.
Qed.

Lemma later_headers c bs p : forall i, p ∈ later_fragments c i bs -> lp_headers p = emptyHeaders.
Proof.
  induction bs as [|x bs IH]; intros i; simpl; [by intros ?%not_elem_of_nil|].
  intros [->|Hp]%elem_of_cons; [apply codec_noHeaders|by eapply IH].
Qed.

Lemma fragments_headers pkt b0 bs p : p ∈ fragments pkt b0 bs -> lp_headers p = lp_headers pkt \/ lp_headers p = emptyHeaders.
Proof. unfold fragments. intros [->|Hp]%elem_of_cons; [by left|]. right. by eapply later_headers. Qed.

Lemma sent_decodable l sent base : numbered base l -> Forall2 carries l sent ->
  (forall p, p ∈ l -> is_Some (lh_ack (lp_headers p)) /\ lh_txSequence (lp_headers p) <> Malformed) ->
  numbered base sent /\ Forall decodable sent.
Proof.
  intros [Hbase Hnum] Hall Hh. pose proof (Forall2_length _ _ _ Hall) as Hlen. split.
  - split; [done|]. intros i p' Hp'. destruct (Forall2_lookup_r _ _ _ _ _ Hall Hp') as (p & Hp & Hc). destruct (Hnum i p Hp) as (H1 & H2 & H3 & H4).
    destruct Hc. rewrite carries_fragIndex0, carries_fragCount0, carries_sequence0, carries_fragment0, <-Hlen. done.
  - apply Forall_forall. intros p' (i & Hp')%list_elem_of_lookup. destruct (Forall2_lookup_r _ _ _ _ _ Hall Hp') as (p & Hp & Hc).
    destruct (Hnum i p Hp) as (H1 & H2 & H3 & H4). destruct (Hh p) as [Ha Ht]; [by eapply list_elem_of_lookup_2|]. destruct Hc.
    split_and!; [|by rewrite carries_fragment0|by apply carries_ack0|by apply carries_tx0].
    split; intros x; rewrite ?carries_fragIndex0, ?carries_fragCount0, ?H1, ?H2; intros [= <-]; lia.
Qed.

Lemma carries_payload l sent : Forall2 carries l sent -> mapM lp_fragment sent = mapM lp_fragment l.
Proof. induction 1 as [|p p' l sent Hc _ IH]; [done|]. simpl. by rewrite (carries_fragment _ _ Hc), IH. Qed.

(** The packets of a network packet, received in any order, are reassembled. *)
Lemma packets_received pkt (last nMax nMax' timeout endpoint : Z) (blk : Block) (sent : list LpPacket) (arrivals : list (Z * LpPacket))
    (R : gmap (Z * Z) (@PartialPacket LpHeaders)) :
  lp_fragIndex pkt = None -> lp_fragCount pkt = None -> is_Some (lh_ack (lp_headers pkt)) -> lh_txSequence (lp_headers pkt) <> Malformed ->
  1 <= nMax <= nMax' -> 0 <= last < 2 ^ 64 -> (b ← lp_fragment pkt; parseBlock b) = Some blk ->
  packets_for last nMax pkt sent -> arrivals.*2 ≡ₚ sent -> R !! (endpoint, u64 (last + 1)) = None ->
  exists first R', arrivals <> [] /\ Forall decodable sent /\
    receiveAll parseBlock nMax' timeout endpoint arrivals R = Some (replicate (length arrivals - 1) Dropped ++ [Reassembled blk first], R') /\
    strip (lp_headers first) = strip (lp_headers pkt) /\
    (lh_congestionMark (lp_headers first) = lh_congestionMark (lp_headers pkt) \/ lh_congestionMark (lp_headers first) = Value 1).
Proof.
  intros Hfi Hfc Hack Htx Hn Hlast Hblk Hsent Harr HR. destruct (lp_fragment pkt) as [b|] eqn:Hb; [|done]. simpl in Hblk.
  destruct Hsent as [(p' & -> & Hc)|(b0 & bs & Hcat & Hne & Hmax & Hall)].
  - apply Permutation_singleton_r in Harr. destruct arrivals as [|[t q] [|]]; try done. injection Harr as ->. destruct Hc.
    exists p', R. split_and!; try done.
    + apply Forall_singleton. split_and!; [|by rewrite carries_fragment0, Hb; eexists|by apply carries_ack0|by apply carries_tx0].
      split; intros x; rewrite ?carries_fragIndex0, ?carries_fragCount0, ?Hfi, ?Hfc; done.
    + simpl. unfold receiveFragment. rewrite carries_fragment0, Hb, carries_fragIndex0, Hfi, carries_fragCount0, Hfc. simpl.
      rewrite (proj2 (Z.ltb_ge _ _)) by lia. unfold block. by rewrite Hblk.
  - set (l := (assignSequences last (fragments pkt b0 bs)).1) in *. pose proof (assign_numbered pkt b0 bs last Hlast) as Hnum. fold l in Hnum.
    destruct (sent_decodable l sent _ Hnum Hall) as [Hnum' Hdec].
    { intros p (i & Hi)%list_elem_of_lookup. destruct (assign_headers _ _ _ _ Hi) as (q & Hq & ->).
      destruct (fragments_headers pkt b0 bs q) as [-> | ->]; [by eapply list_elem_of_lookup_2|done|]. split; [by eexists|done]. }
    assert (length l = length (fragments pkt b0 bs)) as Hll by apply assign_length.
    assert (length sent = length l) as Hls by (symmetry; by eapply Forall2_length).
    assert (length arrivals = length sent) as Hal by (by rewrite <-Harr, length_fmap).
    assert (1 < length (fragments pkt b0 bs))%nat as Hlen by (unfold fragments; simpl; rewrite later_length; destruct bs; [done|simpl; lia]).
    destruct (lookup_lt_is_Some_2 sent 0) as [first Hfirst]; [lia|].
    destruct (Forall2_lookup_r _ _ _ _ _ Hall Hfirst) as (p0 & Hp0 & Hc0).
    assert (p0 = set_sequence (u64 (u64 (last + 1) + 0)) (indexed_fragment (1 + Z.of_nat (length bs)) 0 pkt b0)) as ->.
    { unfold l in Hp0. rewrite (assign_lookup _ last 0 (indexed_fragment (1 + Z.of_nat (length bs)) 0 pkt b0)) in Hp0 by done. by injection Hp0 as <-. }
    exists first, (delete (endpoint, u64 (last + 1)) R). split_and!.
    + intros ->. simpl in Hal. lia.
    + done.
    + apply (receive_all parseBlock nMax' timeout endpoint (u64 (last + 1)) sent Hnum' ltac:(lia) (b0 :: bs) blk first arrivals) with (got := []).
      * rewrite (carries_payload _ _ Hall). unfold l. by rewrite assign_payload, fragments_payload.
      * simpl. rewrite Hb in Hcat. injection Hcat as ->. done.
      * done.
      * intros ->. simpl in Hal. lia.
      * intros q Hq. by rewrite <-Harr.
      * rewrite app_nil_r, Harr, (indices_seq _ _ Hnum'). apply NoDup_seq.
      * simpl. lia.
      * by intros i ?%not_elem_of_nil.
      * done.
    + by rewrite (carries_headers _ _ Hc0).
    + apply (carries_mark _ _ Hc0).
Qed.

Lemma sendNet_trace now n tags st st' : sendNet now n tags st = Some st' -> exists c st1 isI,
  sendNetPacket getSendQueueLength now (encoded (m_options st) tags n) isI (bump c st) = Some st1 /\ st' = emit (sentEvent n) st1.
Proof.
  destruct n as [i|d|i reason]; simpl; unfold sendInterest, sendData, sendNack, doSendInterest, doSendData, doSendNack;
    destruct (sendNetPacket _ _ _ _ _) as [st1|] eqn:E; [|done| |done| |done]; cbn [mbind option_bind]; intros [= <-]; by eexists _, st1, _.
Qed.

Lemma sendNet_returns now n tags st : link_inv st -> span (m_reliability st) + fragmentCount (m_options st) <= 2 ^ 64 ->
  exists st', sendNet now n tags st = Some st'.
Proof.
  intros Hinv Hroom.
  destruct (link_step_ok getSendQueueLength now
    (match n with NetI i => SendInterest i tags | NetD d => SendData d tags | NetN i reason => SendNack i reason tags end) st Hinv) as (st' & E & _); [by destruct n|].
  exists st'. by destruct n.
Qed.

(** C5: a network packet - Interest, Data or Nack - that the link service of one
    end sends is passed up by the link service of the other end, as the one signal
    to forwarding, when the packets it became arrive in any order and at any
    times: the same packet, with its congestion mark (or the mark 1 that the link
    added). An Interest or Data also has its hop count plus one and, when both ends
    allow self-learning, its NonDiscovery or its PrefixAnnouncement; a Nack has
    neither. The conditions: the sender's transport is not closed or failed and
    its window has TxSequence numbers left; nothing is dropped for its size ([lossless]: the MTU is unlimited, or reliability is off and the
    packet can be fragmented); the packet has no self-learning field of another
    kind of packet, which the receiver would refuse ([deliverable]); the receiver
    reassembles at least as many fragments, has no partial packet under the
    sequence number, and numbers left in its window. The Acks, TxSequences and
    retransmission state of the receiver do not matter. *)
Theorem net_delivered now n tags st endpoint st2 : link_inv st -> span (m_reliability st) + fragmentCount (m_options st) <= 2 ^ 64 ->
  1 <= fragmenter_nMaxFragments (m_options st) <= reassembler_nMaxFragments (m_options st2) -> 0 <= m_lastSeqNo st < 2 ^ 64 ->
  sending (l_transport st) -> lossless (encoded (m_options st) tags n) st -> deliverable (m_options st) tags n ->
  link_inv st2 -> allowReassembly (m_options st2) = true -> m_reassembler st2 !! (endpoint, u64 (m_lastSeqNo st + 1)) = None ->
  exists st' sent, sendNet now n tags st = Some st' /\ l_trace st' = l_trace st ++ (DoSend <$> sent) ++ [sentEvent n] /\
    forall arrivals, arrivals.*2 ≡ₚ sent ->
      span (m_reliability st2) + all_acks arrivals * Z.of_nat (size (m_unackedFrags (m_reliability st2))) <= 2 ^ 64 ->
      exists marked st3, receiveEach endpoint arrivals st2 = Some st3 /\
        upper (l_trace st3) = upper (l_trace st2) ++ [expected (m_options st) (m_options st2) marked tags n].
Proof.
  intros Hinv Hroom Hn Hlast Hup Hloss Hdel Hinv2 Hre HR. destruct (sendNet_returns now n tags st Hinv Hroom) as [st' Hsend]. exists st'. destruct (sendNet_trace _ _ _ _ _ Hsend) as (c & st1 & isI & E & ->).
  destruct (encoded_fields (m_options st) tags n) as (Hb & Hfi & Hfc & _ & Hack & Htx & Hcm).
  destruct (sendNet_packets now (encoded (m_options st) tags n) isI (bump c st) st1 (net_wire n)) as (sent & Htr & Hpk); [simpl; lia|done|done|done|done|done|done|].
  exists sent. split; [done|]. split; [simpl; rewrite Htr; simpl; by rewrite <-app_assoc|]. intros arrivals Harr Hspan.
  destruct (net_block n) as (blk & Hblk & Hty).
  destruct (packets_received (encoded (m_options st) tags n) (m_lastSeqNo st) (fragmenter_nMaxFragments (m_options st))
    (reassembler_nMaxFragments (m_options st2)) (reassemblyTimeout (m_options st2)) endpoint blk sent arrivals (m_reassembler st2))
    as (first & R' & Hne & Hdec & Hrecv & Hstrip & Hmark); try done.
  { by rewrite Htx. } { by rewrite Hb. }
  destruct (receiveEach_ok endpoint blk first arrivals st2 R' Hne Hinv2) as (st3 & E3 & Ho3 & Hu3); [|done|done|].
  { apply Forall_forall. intros a Ha. split; [|done]. rewrite Forall_forall in Hdec. apply Hdec. rewrite <-Harr. apply list_elem_of_fmap. by exists a. }
  rewrite Hcm in Hmark. destruct (decode_encoded (m_options st) tags n blk first st3 Hdel Hty Hstrip Hmark) as (marked & c' & Hdecode).
  exists marked, (decodeNetPacket blk first st3). split; [done|]. rewrite Hdecode, Ho3. cbn [emit l_trace]. rewrite upper_app.
  f_equal; [exact Hu3|]. unfold upper. rewrite filter_cons_True; [done|]. by destruct n.
Qed.
End Delivery.

(** ** Worked examples *)

Module LinkExamples.
Notation Headers := (LpHeaders Z Z).
Notation Packet := (LpPacket Headers).

(** The sizes of NDNLPv2 fields: TLV-TYPE, TLV-LENGTH and TLV-VALUE. *)
Definition sov (n : Z) : Z := if n <? 253 then 1 else if n <? 65536 then 3 else if n <? 2 ^ 32 then 5 else 9.
Definition when (b : bool) (n : Z) : Z := if b then n else 0.
Definition numSize (o : option Z) (n : Z) : Z := match o with Some _ => n | None => 0 end.

Definition exHeaderSize (p : Packet) : Z :=
  let h := lp_headers p in
  numSize (lp_sequence p) 10 + numSize (lp_fragIndex p) 3 + numSize (lp_fragCount p) 3 + when (has (lh_txSequence h)) 12 +
  match lh_ack h with Some l => 12 * Z.of_nat (length l) | None => 4 end + when (has (lh_nack h)) 9 + when (has (lh_nextHopFaceId h)) 6 +
  when (has (lh_cachePolicy h)) 9 + when (has (lh_incomingFaceId h)) 6 + when (has (lh_congestionMark h)) 5 +
  when (has (lh_nonDiscovery h)) 4 + when (has (lh_prefixAnnouncement h)) 100 + when (has (lh_hopCount h)) 5.

Definition exValueSize (p : Packet) : Z :=
  exHeaderSize p + match lp_fragment p with Some b => 1 + sov (Z.of_nat (length b)) + Z.of_nat (length b) | None => 0 end.

Definition exWireSize (p : Packet) : Z :=
  if bare p then Z.of_nat (length (default [] (lp_fragment p))) else 1 + sov (exValueSize p) + exValueSize p.

Lemma sov_range n : 1 <= sov n <= 9.
Proof. unfold sov. destruct (n <? 253), (n <? 65536), (n <? 2 ^ 32); lia. Qed.

Lemma numSize_range o n : 0 <= n -> 0 <= numSize o n <= n.
Proof. destruct o; simpl; lia. Qed.

Lemma when_range b n : 0 <= n -> 0 <= when b n <= n.
Proof. destruct b; simpl; lia. Qed.

Lemma exHeaderSize_nonneg p : 0 <= exHeaderSize p.
Proof.
  unfold exHeaderSize.
  assert (0 <= match lh_ack (lp_headers p) with Some l => 12 * Z.of_nat (length l) | None => 4 end) by (destruct (lh_ack _); lia).
  repeat match goal with |- context [numSize ?o ?n] => pose proof (numSize_range o n ltac:(lia)); generalize dependent (numSize o n); intros end.
  repeat match goal with |- context [when ?b ?n] => pose proof (when_range b n ltac:(lia)); generalize dependent (when b n); intros end. lia.
Qed.

(** A bare packet has no header. *)
Lemma bare_header p : bare p = true -> exHeaderSize p = 0 /\ is_Some (lp_fragment p).
Proof.
  unfold bare, exHeaderSize. destruct (lp_fragment p), (lp_sequence p), (lp_fragIndex p), (lp_fragCount p); try done.
  destruct (lh_ack (lp_headers p)) as [[|]|]; try done. intros H%negb_true_iff. rewrite !orb_false_iff in H.
  destruct H as ((((((((H1 & H2) & H3) & H4) & H5) & H6) & H7) & H8) & H9). rewrite H1, H2, H3, H4, H5, H6, H7, H8, H9. split; [done|by eexists].
Qed.

#[export] Instance exEncoding : LpEncoding Headers.
Proof.
  refine {| noHeaders := emptyHeaders; wireSize := exWireSize; headerSize := exHeaderSize; headerSize_nonneg := exHeaderSize_nonneg |}.
  - done.
  - done.
  - intros s p. unfold exHeaderSize. simpl. pose proof (numSize_range (lp_sequence p) 10). lia.
  - intros s p. unfold exHeaderSize. simpl. pose proof (numSize_range (lp_fragIndex p) 3). lia.
  - intros s p. unfold exHeaderSize. simpl. pose proof (numSize_range (lp_fragCount p) 3). lia.
  - intros p b Hb. unfold exWireSize, exValueSize. destruct (bare p) eqn:E.
    + destruct (bare_header p E) as [-> _]. rewrite Hb. simpl. lia.
    + rewrite Hb. pose proof (sov_range (Z.of_nat (length b))). pose proof (sov_range (exHeaderSize p + (1 + sov (Z.of_nat (length b)) + Z.of_nat (length b)))). lia.
  - intros p b Hb. unfold exWireSize, exValueSize. destruct (bare p) eqn:E.
    + destruct (bare_header p E) as [-> _]. rewrite Hb. simpl. lia.
    + rewrite Hb. pose proof (sov_range (Z.of_nat (length b))). pose proof (sov_range (exHeaderSize p + (1 + sov (Z.of_nat (length b)) + Z.of_nat (length b)))). lia.
Defined.

#[export] Instance exCodec : LinkCodec Z Z.
Proof.
  refine {| codec_encoding := exEncoding; codec_noHeaders := eq_refl; sizeOfVarNumber := sov; MAX_NDN_PACKET_SIZE := 8800; valueSize := exValueSize;
    Block := list Z; parseBlock b := match b with [] => None | _ => Some b end; blockType b := default 0 (head b);
    NetInterest := list Z; NetData := list Z; wireInterest i := 5 :: i; wireData d := 6 :: d;
    interestOfBlock b := match b with 5 :: i => Some i | _ => None end; dataOfBlock b := match b with 6 :: d => Some d | _ => None end |}.
  - intros n Hn. unfold sov. by rewrite (proj2 (Z.ltb_lt _ _)) by lia.
  - intros n Hn. unfold sov. rewrite (proj2 (Z.ltb_ge n 253)), (proj2 (Z.ltb_lt n 65536)) by lia. done.
  - intros n Hn. unfold sov. rewrite (proj2 (Z.ltb_ge n 253)), (proj2 (Z.ltb_ge n 65536)), (proj2 (Z.ltb_lt n (2 ^ 32))) by lia. done.
  - intros n Hn. unfold sov. rewrite (proj2 (Z.ltb_ge n 253)), (proj2 (Z.ltb_ge n 65536)), (proj2 (Z.ltb_ge n (2 ^ 32))) by lia. done.
  - lia.
  - intros p. unfold exValueSize. pose proof (exHeaderSize_nonneg p). destruct (lp_fragment p) as [b|]; [|lia]. pose proof (sov_range (Z.of_nat (length b))). lia.
  - done.
  - intros a p [l Hl]. unfold exValueSize, exHeaderSize. simpl. rewrite Hl. simpl. rewrite length_app. simpl. lia.
  - intros c p. unfold exValueSize, exHeaderSize. simpl. pose proof (when_range (has (lh_congestionMark (lp_headers p))) 5). lia.
  - intros s p. simpl. unfold exHeaderSize. simpl. pose proof (when_range (has (lh_txSequence (lp_headers p))) 12). lia.
  - intros c p. simpl. unfold exHeaderSize. simpl. pose proof (when_range (has (lh_congestionMark (lp_headers p))) 5). lia.
  - intros p Hp. simpl. unfold exWireSize. by rewrite Hp.
  - intros i. exists (5 :: i). done.
  - intros d. exists (6 :: d). done.
Defined.

Definition options (reliable : bool) : Options :=
  mkOptions false true 400 true 400 500000000 reliable 3 5000000 3 false 100000000 65536 true.
Definition udp (mtu : Z) : Transport := mkTransport ON_DEMAND mtu (-1) UP (mkTransportCounters 0 0 0 0).
Definition idleQueue (now : Z) (sent : list (@LinkEvent Z Z _)) : Z := 0.
Definition interest : @NetInterest Z Z exCodec := replicate 40 7.
Definition sendIt : @LinkAction Z Z exCodec := SendInterest interest noTags.

Lemma ex_inv reliable : link_inv (newLinkService (options reliable) (udp 70)).
Proof. apply new_link_inv; simpl; [lia|lia|lia|]. right. unfold MIN_MTU. lia. Qed.

Definition turnOff : LinkParameters := mkLinkParameters None (Some false) None None None.
Definition newLink : @LinkService Z Z exCodec := newLinkService (options true) (udp 70).

(** An Interest in fragments, the timer of the first one, then reliability switched off. *)
Definition exampleRun : list (Z * @LinkAction Z Z exCodec) :=
  [(0, sendIt); (2000000000, RtoTimer 0); (2000000001, UpdateOptions false turnOff)].

Lemma exampleRun_run : exists st, link_run idleQueue newLink exampleRun st.
Proof.
  assert (possible 0 sendIt newLink) as Hp by (simpl; unfold span, fragmentCount; simpl; lia).
  destruct (link_step_ok idleQueue 0 sendIt newLink (ex_inv true) Hp) as (st1 & E1 & Hinv1 & _).
  assert (Some st1 = link_step idleQueue 0 sendIt newLink) as E1' by done.
  assert (possible 2000000000 (RtoTimer 0) st1) as Hp1.
  { assert (match link_step idleQueue 0 sendIt newLink with Some st => match m_unackedFrags (m_reliability st) !! 0 with
        Some f => match uf_rtoTimer f with Some t => (t <=? 2000000000) && (span (m_reliability st) <? 2 ^ 64) | None => false end | None => false end | None => false end = true) as H
      by (vm_compute; reflexivity).
    rewrite <-E1' in H. clear E1 E1' Hp Hinv1. simpl. destruct (m_unackedFrags (m_reliability st1) !! 0) as [f|]; [|discriminate].
    destruct (uf_rtoTimer f) as [t|] eqn:Et; [|discriminate].
    apply andb_prop in H as [H1%Z.leb_le H2%Z.ltb_lt]. split; [exists f, t; auto|exact H2]. }
  destruct (link_step_ok idleQueue _ _ st1 Hinv1 Hp1) as (st2 & E2 & Hinv2 & _).
  destruct (link_step_ok idleQueue 2000000001 (UpdateOptions false turnOff) st2 Hinv2 I) as (st3 & E3 & _).
  exists st3. eapply link_run_cons; [exact Hp|exact E1|]. eapply link_run_cons; [exact Hp1|exact E2|]. eapply link_run_cons; [exact I|exact E3|apply link_run_nil].
Qed.

Lemma link_run_safe_witness : exists st, link_run idleQueue newLink exampleRun st /\ accounted st.
Proof.
  destruct exampleRun_run as [st Hrun]. exists st. split; [exact Hrun|].
  apply (link_run_safe idleQueue (options true) (udp 70) _ st 3000000000 (ReassemblyTimer (0, 0)) ltac:(simpl; lia) ltac:(simpl; lia) ltac:(simpl; lia)
    ltac:(right; unfold MIN_MTU; simpl; lia) Hrun I).
Defined.

(** The Interest is fragmented: the MTU is too small for it. *)
Lemma net_delivered_witness : exists st' sent,
  link_step idleQueue 0 sendIt (newLinkService (options false) (udp 70)) = Some st' /\ l_trace st' = (DoSend <$> sent) ++ [AfterSendInterest interest] /\ (2 <= length sent)%nat /\
  forall arrivals, arrivals.*2 ≡ₚ sent -> all_acks arrivals * 0 <= 2 ^ 64 ->
  exists marked st3, receiveEach idleQueue 3 arrivals (newLinkService (options false) (udp 70)) = Some st3 /\
    upper (l_trace st3) = [expected (options false) (options false) marked noTags (NetI interest)].
Proof.
  destruct (net_delivered idleQueue 0 (NetI interest) noTags (newLinkService (options false) (udp 70)) 3 (newLinkService (options false) (udp 70)))
    as (st' & sent & E & Htr & Hall).
  - apply ex_inv.
  - simpl. unfold span, fragmentCount. simpl. lia.
  - simpl. lia.
  - simpl. apply u64_range.
  - left. reflexivity.
  - right. split; [unfold MIN_MTU; simpl; lia|]. split; [reflexivity|]. split; [reflexivity|]. eexists. vm_compute. reflexivity.
  - intros _. reflexivity.
  - apply ex_inv.
  - reflexivity.
  - reflexivity.
  - exists st', sent. split; [exact E|]. split; [exact Htr|]. split; [|exact Hall].
    assert (l_trace st' = default [] (l_trace <$> link_step idleQueue 0 sendIt (newLinkService (options false) (udp 70)))) as Ht.
    { assert (link_step idleQueue 0 sendIt (newLinkService (options false) (udp 70)) = Some st') as -> by exact E. reflexivity. }
    assert (length (l_trace st') = 4%nat) as Hlen by (rewrite Ht; vm_compute; reflexivity).
    rewrite Htr in Hlen. simpl in Hlen. rewrite length_app, length_fmap in Hlen. simpl in Hlen. lia.
Defined.

(** A packet with a TxSequence and a Fragment of [n] octets. *)
Definition fragmentOf (n : nat) : Packet := set_txSequence 0 (netPacket (replicate n 7)).
Definition reliabilityWith (acks : list Z) : @LpReliability Z Z :=
  mkLpReliability ∅ None acks 0 None true defaultRttEstimator [].

Lemma piggyback_fits_witness : exists p' r' n, piggyback (fragmentOf 20) 64 (reliabilityWith [1; 2; 3]) = Some (p', r') /\
  [1; 2; 3] = take n [1; 2; 3] ++ m_ackQueue r' /\ wireSize p' <= 64.
Proof.
  destruct (piggyback_fits (fragmentOf 20) 64 (reliabilityWith [1; 2; 3])) as (p' & r' & n & H1 & H2 & _ & _ & H5).
  - eexists. reflexivity.
  - reflexivity.
  - vm_compute. split; congruence.
  - vm_compute. split; congruence.
  - vm_compute. congruence.
  - exists p', r', n. split; [exact H1|]. split; [exact H2|]. exact H5.
Defined.

Definition withAcks (o : Options) (mtu : Z) (acks : list Z) : @LinkService Z Z _ := set_reliability (reliabilityWith acks) (newLinkService o (udp mtu)).

Lemma ack_lost_over_mtu_witness : exists st', sendLpPacket idleQueue 0 (fragmentOf 237) (withAcks (options true) 265 [9]) = Some st' /\
  l_trace st' = [] /\ m_ackQueue (m_reliability st') = [].
Proof.
  apply (ack_lost_over_mtu idleQueue 0 (fragmentOf 237) (withAcks (options true) 265 [9]) 9 []).
  - reflexivity.
  - reflexivity.
  - reflexivity.
  - eexists. reflexivity.
  - reflexivity.
  - vm_compute. reflexivity.
  - reflexivity.
Defined.

(** An idle packet that Acks fill up to the MTU is too large once it is marked as
    congested: it is dropped, and its five Acks with it. *)
Example marked_acks_lost :
  let o := mkOptions false true 400 true 400 500000000 true 3 5000000 3 true 100000000 65536 true in
  let st' := requestIdlePacket (fun _ _ => 70000) 0 (withAcks o 64 [1; 2; 3; 4; 5; 6]) in
  ((fun st => (length (l_trace st), m_ackQueue (m_reliability st))) <$> st') = Some (0%nat, [6]).
Proof. vm_compute. reflexivity. Qed.

Definition fresh : @LinkService Z Z _ := newLinkService (options true) (udp 1000).

Lemma marking_control_law_witness :
  mark_ok (baseCongestionMarkingInterval (m_options fresh)) (m_marking (check_all (fun _ _ => 70000) [(5, fragmentOf 1); (6, fragmentOf 1)] fresh)).
Proof.
  destruct (marking_control_law (fun _ _ => 70000) [(5, fragmentOf 1); (6, fragmentOf 1)] 7 (fragmentOf 1) fresh) as [H _].
  - simpl. lia.
  - reflexivity.
  - simpl. lia.
  - exact H.
Defined.

(** A window of three fragments that wraps around: the last number, then 0 and 1. *)
Definition frag (np : nat) (k : Z) : @UnackedFrag Z Z := mkUnackedFrag (set_txSequence k (fragmentOf 1)) (Some 100) 0 0 2 np.
Definition window : gmap Z (@UnackedFrag Z Z) := {[ 2 ^ 64 - 1 := frag 0 (2 ^ 64 - 1); 0 := frag 0 0; 1 := frag 1 1 ]}.
Definition wrapped : @LpReliability Z Z :=
  mkLpReliability window (Some (2 ^ 64 - 1)) [] 1 None false defaultRttEstimator
    [mkNetPkt [2 ^ 64 - 1; 0] (fragmentOf 1) false false; mkNetPkt [1] (fragmentOf 1) false false].

Lemma window_lookup k f : window !! k = Some f <-> (k = 2 ^ 64 - 1 /\ f = frag 0 k) \/ (k = 0 /\ f = frag 0 k) \/ (k = 1 /\ f = frag 1 k).
Proof.
  unfold window. rewrite !lookup_insert_Some, lookup_singleton_Some. split.
  - intros [[<- <-]|[_ [[<- <-]|[_ [<- <-]]]]]; tauto.
  - intros [[-> ->]|[[-> ->]|[-> ->]]]; [by left|right; split; [done|by left]|right; split; [done|]; right; by split].
Qed.

Lemma wrapped_window : window_ok wrapped.
Proof.
  constructor; simpl.
  - unfold in64. lia.
  - intros k [f [[-> _]|[[-> _]|[-> _]]]%window_lookup]; unfold in64; lia.
  - split; [eexists; apply window_lookup; by left|]. intros k [f [[-> _]|[[-> _]|[-> _]]]%window_lookup]; vm_compute; congruence.
Qed.

Lemma loss_detection_witness : exists lost m', findLostLpPackets 3 1 wrapped = Some (lost, set_unackedFrags m' wrapped) /\
  (2 ^ 64 - 1 ∈ lost <-> dist (2 ^ 64 - 1) (2 ^ 64 - 1) < dist (2 ^ 64 - 1) 1 /\ exists f, m' !! (2 ^ 64 - 1) = Some f /\ 3 <= uf_nGreaterSeqAcks f).
Proof.
  destruct (loss_detection 3 1 wrapped (2 ^ 64 - 1)) as (lost & m' & E & _ & Hi).
  - apply wrapped_window.
  - reflexivity.
  - eexists. apply window_lookup. right. right. split; reflexivity.
  - exists lost, m'. split; [exact E|]. apply (Hi (2 ^ 64 - 1)).
Defined.

Definition wrappedLink : @LinkService Z Z _ := set_reliability wrapped (newLinkService (options true) (udp 1000)).

Lemma wrapped_live : live window = {[0%nat; 1%nat]}.
Proof.
  apply set_eq. intros id. rewrite elem_of_live, elem_of_union, !elem_of_singleton. split.
  - intros (k & f & [[-> ->]|[[-> ->]|[-> ->]]]%window_lookup & <-); simpl; tauto.
  - intros [->| ->]; [exists 0, (frag 0 0)|exists 1, (frag 1 1)]; (split; [apply window_lookup; tauto|done]).
Qed.

Lemma wrapped_consistent : consistent window (r_netPkts wrapped).
Proof.
  intros id Hid. rewrite wrapped_live in Hid. apply elem_of_union in Hid as [->%elem_of_singleton| ->%elem_of_singleton];
    (eexists; split; [reflexivity|]; split; simpl).
  - apply NoDup_cons. split; [|apply NoDup_singleton]. intros ?%list_elem_of_singleton. lia.
  - intros k. rewrite elem_of_cons, list_elem_of_singleton. split.
    + intros [->| ->]; eexists; (split; [apply window_lookup; tauto|done]).
    + intros (f & [[-> ->]|[[-> ->]|[-> ->]]]%window_lookup & Hn); [by left|by right|by simpl in Hn].
  - apply NoDup_singleton.
  - intros k. rewrite list_elem_of_singleton. split.
    + intros ->. eexists. split; [apply window_lookup; tauto|done].
    + intros (f & [[-> ->]|[[-> ->]|[-> ->]]]%window_lookup & Hn); [by simpl in Hn|by simpl in Hn|done].
Qed.

Lemma wrapped_ok : link_ok wrappedLink.
Proof.
  constructor; simpl; [lia| |].
  - constructor; simpl; [apply wrapped_window|apply wrapped_consistent| |].
    + repeat constructor; done.
    + intros k f Hk. apply window_lookup in Hk as [[-> ->]|[[-> ->]|[-> ->]]]; (split; [done|]; split; [by eexists|simpl; lia]).
  - exists 0. simpl. rewrite wrapped_live. rewrite size_union by (rewrite disjoint_singleton_l, elem_of_singleton; lia). by rewrite !size_singleton.
Qed.

Lemma lost_fragment_witness : exists removed st', onLpPacketLost idleQueue 7 0 wrappedLink = Some (removed, st') /\ link_ok st'.
Proof.
  destruct (lost_fragment idleQueue 7 0 (frag 0 0) wrappedLink wrapped_ok) as (removed & st' & E & Hok & _).
  - apply window_lookup. right. left. split; reflexivity.
  - vm_compute. reflexivity.
  - exists removed, st'. split; [exact E|exact Hok].
Defined.
End LinkExamples.
